(* ===== verification/_CoqProject ===== *)
-Q . S2P
Prelude.v
Strings.v
FileSystem.v
Resources.v
Float32.v
GpuBuffers.v
ShaderFile.v
Geometry.v
Vulkan.v
Textures.v
ImageFiles.v
Mesh.v
Material.v
MeshLoader.v
Event.v
ThreadPool.v
Hierarchy.v
QuadTree.v
TextureAtlas.v
SceneGraph.v
Scene.v
SceneFiles.v
EntityPanel.v
MonoScripts.v
LuaScripts.v
AssetPanel.v
Application.v
Input.v
Renderer2D.v
LineRenderer.v
Camera.v
Editor.v
MeshPass.v
LightPass.v
RenderFrame.v
EditorModes.v
Terrain.v
TerrainGrid.v
TerrainCollapse.v
TerrainBuild.v
TerrainInit.v
HeightField.v
TerrainUpdate.v
