(* ===== verification/Prelude.v ===== *)
(** * MapleEngine: a verification library

    MapleEngine is a small C++ game engine (Code/Maple/src): scenes of entities
    with components, a graph of transforms, events, worker threads, a texture
    atlas, built-in meshes, cameras and a terrain with levels of detail, drawn
    through Vulkan, with scripts in C# and Lua, and with an editor.  This library
    models the parts of it that are the engine's own logic and proves what makes
    them correct.  It leaves out ImGui and the layout of the editor's windows, the
    functions exported to scripts, the windowing code and the vendored libraries
    under Code/Maple/lib; of Vulkan it models what the engine asks of the driver,
    of the runtimes of scripts what the engine asks of them.

    ** How the code is modelled

    Code that can fail returns an [outcome]: [Ret a] for a normal return, [Exn e]
    for an exception or for a step that C++ leaves undefined, where the model stops:
    a null dereference, or [OutOfBounds], an access outside a container that the
    code does not check ([OutOfRange] is the exception the library throws).
    Integers are [Z] with the width written out ([u32], [i32], ...); [float] and
    [double] are the binary32 and binary64 numbers of [SpecFloat].  Maps and sets
    of the C++ library are [gmap] and [gset]; pointers into pools are indices.
    Loops that are not structural carry fuel and return [Exn OutOfFuel] when it
    runs out; each has a theorem that the fuel its caller passes is enough.  The
    fuel is the number of entities for walks in the entity tree, the number of
    nodes for walks in the quad tree, the length of the input for string loops,
    the width of the integer for loops that halve one, and the number of levels
    for the recursion of the terrain.

    ** Files

    - [Prelude]: outcomes, machine integers, list lemmas, reachability.
    - [Strings]: Others/StringUtils.cpp.  Splitting, joining, replacing and
      trimming terminate and meet their specification; split and join invert
      each other.
    - [FileSystem]: FileSystem/File.cpp over a model of the disk; what is written
      is read back.
    - [Resources]: Resources/Resources.h, MeshResource.cpp and the factories of
      Engine/Interface/Texture.cpp and Shader.cpp; every name is loaded once.
    - [Float32]: machine floats, with exactness for small integers.
    - [GpuBuffers]: the buffers and descriptor sets of Engine/Vulkan
      (VulkanBuffer, VulkanVertexBuffer, VulkanIndexBuffer, VulkanDescriptorSet)
      and Engine/Interface/BufferLayout, over a model of mapped memory; an upload
      leaves exactly its data, an update binds what it is given.
    - [ShaderFile]: Engine/Interface/Shader, Engine/Vulkan/VulkanShader.cpp; the
      description of a shader is parsed into its stages, and the inputs found by
      reflection are laid out.
    - [Geometry]: Math/Rect2D.h, BoundingBox, Ray, MathUtils.h, Engine/Vertex;
      merged boxes are least, rays hit the nearest face.
    - [Vulkan]: Engine/Vulkan/VulkanHelper, VulkanDevice, VulkanPipeline,
      VulkanRenderPass, VulkanSwapChain, VulkanCommandBuffer: the choice of a device
      and of formats, pipelines and their sets, render passes and what a frame
      records, and the turns of the frames of a swap chain.
    - [Textures]: Engine/Vulkan/VulkanTexture; the objects a texture owns in its
      life, mip chains, and the layouts an image goes through.
    - [ImageFiles]: FileSystem/ImageLoader and Image; what is read from a file is
      copied to a texture from within its buffer, if the format fits the file.
    - [Mesh]: Engine/Mesh.cpp; the factories index existing vertices, normals are
      the sums of the face normals.
    - [Material]: Engine/Material.*; the descriptor set made for a pipeline, and
      saving and loading.
    - [MeshLoader]: FileSystem/MeshLoader.cpp; the corners of a shape are merged
      into vertices.
    - [Event]: Event/EventDispatcher.cpp and handlers; an invariant of every
      reachable dispatcher, order and completeness of dispatch.  Callbacks may
      construct and destroy handlers, also at an address that was freed.
    - [ThreadPool]: Thread/ThreadPool.cpp as a transition system of critical
      sections; order of tasks, progress with one waiter, a lost wake-up with two.
    - [Hierarchy]: Scene/Component/Component.cpp and Scene/Entity/Entity.cpp; the
      linked lists of siblings represent a forest, and the operations refine it.
    - [QuadTree]: Engine/QuadTree.h; the operations refine a finite map.
    - [TextureAtlas]: Engine/TextureAtlas.cpp, TexturePool.cpp, Quad2D.cpp; sprites
      occupy disjoint rectangles inside the texture.  The packing is proved
      against the class [LeftoverStore], which [QuadTree] implements.
    - [SceneGraph]: Scene/Component/Transform.cpp, Scene/SceneGraph.cpp over the
      forest of [Hierarchy]; world matrices are propagated to every entity.
    - [Scene]: Scene/Entity/EntityManager.cpp, Scene/Scene.cpp,
      Scene/SceneManager.cpp, Scene/System, Scene/Component/Sprite.cpp; the pools of
      the components a scene file holds.
    - [SceneFiles]: Others/Serialization.cpp and the archives of the components,
      with [FileSystem] and [Scene]; a scene that was saved comes back, component by
      component, when its file is switched to.
    - [EntityPanel]: the panel of Code/Editor/HierarchyWindow.cpp over [Hierarchy]
      and [Scene]; it shows every entity once, deletes whole subtrees, and drops
      entities on others as the abstract forest operations.
    - [MonoScripts]: Scripts/Mono; the names of classes, the classes and members
      that are kept, assemblies loaded, unloaded and compiled again, and the
      scripts of entities.  Requests for classes and members get what the runtime
      would answer, and after a reload nothing of the old domain is found.
    - [LuaScripts]: Scripts/Lua; the values saved for a script and loaded again,
      the component, its system and the search path.
    - [AssetPanel]: the panel of Code/Editor/AssetsWindow.cpp over the trees of
      [FileSystem]; the nodes it keeps mirror the directory, and what moving
      between folders and reading one again leaves.
    - [Application]: the main-thread queue of Application.cpp.
    - [Input]: Devices/Input.cpp, the callbacks of Window/WindowWin.cpp and the key
      codes; the tables of keys and buttons follow the events of the window.
    - [Renderer2D]: Engine/Renderer/Renderer2D.cpp; a frame of sprites is cut into
      batches and drawn by depth; what the one descriptor set the batches share
      shows when they are executed.
    - [LineRenderer]: Engine/Renderer/LineRenderer.cpp, DebugRenderer.cpp and
      Math/Frustum.cpp; the lines of shapes and how many are drawn.
    - [Camera]: Engine/Camera, Engine/CameraController and
      Scene/Component/CameraControllerComponent; the cached projection refines
      one computed on demand, and what a frame of the controller does.
    - [Editor]: the selection by a click of Code/Editor/Editor.cpp; the nearest
      object along the ray is selected.
    - [MeshPass]: Engine/Renderer/DeferredOffScreenRenderer, ShadowRenderer and
      OmniShadowRenderer, Scene/Component/MeshRenderer and Light; the geometry of
      a scene, the four cascades of the sun and the six faces of a lamp.
    - [LightPass]: Engine/GBuffer, Engine/Renderer/DeferredRenderer,
      SkyboxRenderer, PreProcessRenderer and GridRenderer; the lights, what the
      light pass reads, the maps of an environment and the sky.
    - [RenderFrame]: Engine/Renderer/RenderManager and the renderers that
      Application.cpp adds; a frame is drawn with all its passes and leaves the
      world ready for another, also after a resize.
    - [EditorModes]: Code/Editor/Editor.cpp and DisplayZeroWindow.cpp: playing,
      pausing and stepping, the aspect of the display, icons, and the opening of
      files over [Scene], [Hierarchy] and the mesh renderers of [MeshPass].
    - [Terrain]: Terrain/QuadCollapseMesh.cpp.  [TerrainGrid] is its reference
      geometry, [TerrainCollapse] the forest of vertex nodes, [TerrainBuild] and
      [TerrainInit] the construction, [TerrainUpdate] the frames.
    - [HeightField]: Terrain/TerrainBuilder.cpp; from an image of heights to the
      vertices and normals of a built terrain.

    ** Parameters

    Callbacks of events, tasks and systems are functions on a world type of
    their own; glm's matrices are an abstract type with the functions the engine
    calls; the trigonometric functions are parameters of the sphere; handles of
    new entities come from an allocator that is a parameter.  What the driver of
    the graphics card answers (formats, memory types, images of the swap chain,
    success) is an argument; what it is asked is recorded as a list of calls or of
    commands.  What the runtimes of Mono and Lua answer about images, classes,
    members and tables is an argument too, as is the text in which an archive is
    printed and read again.  The numbers of frame buffers, pipelines and textures
    that are made elsewhere are arguments.

    ** Not modelled

    Making the pipelines and passes of each renderer ([init]) only fills structures
    for the driver, except where [Vulkan] says what the driver is then asked.  The
    forward renderer is never added to a render manager.  Decoding images and KTX
    files, the functions exported to scripts, ImGui, the windows of properties and
    of the scene view in the editor, the creation of the window and the logging are
    glue around libraries. *)

From stdpp Require Import base decidable list gmap sets strings relations.
From Stdlib Require Import ZArith Lia.

(** ** Scopes and notations *)

Declare Scope maple_scope.
Delimit Scope maple_scope with maple.

(** ** Outcomes of fallible code

    [Ret a] is a normal return.  [Exn e] is the abnormal end of a C++ call: an
    exception of the engine or the standard library, undefined behaviour (a null
    dereference, an access outside a container), or the exhaustion of the fuel that bounds a modelled loop.
    Theorems about termination say that [Exn OutOfFuel] does not occur. *)

Inductive error : Type :=
  | OutOfRange      (* a std::out_of_range the standard library throws *)
  | OutOfBounds     (* an unchecked access outside a container or a buffer: undefined in C++ *)
  | NullDeref       (* a null or dangling pointer is dereferenced *)
  | RuntimeError    (* a std::runtime_error the engine throws *)
  | LogicError      (* a std::logic_error the engine throws *)
  | OutOfFuel.      (* the modelled loop did not finish within its fuel *)

#[export] Instance error_eq_dec : EqDecision error.
Proof. solve_decision. Defined.

Inductive outcome (A : Type) : Type :=
  | Ret (a : A)
  | Exn (e : error).
Arguments Ret {A} a.
Arguments Exn {A} e.

#[export] Instance outcome_ret : MRet outcome := fun A a => Ret a.
#[export] Instance outcome_bind : MBind outcome := fun A B f m =>
  match m with Ret a => f a | Exn e => Exn e end.
#[export] Instance outcome_fmap : FMap outcome := fun A B f m =>
  match m with Ret a => Ret (f a) | Exn e => Exn e end.

(** A pointer that may be null, dereferenced. *)
Definition deref {A} (p : option A) : outcome A :=
  match p with Some a => Ret a | None => Exn NullDeref end.

(** [operator[]] of a [std::vector], whose index is not checked. *)
Definition vec_at {A} (l : list A) (i : nat) : outcome A :=
  match l !! i with Some a => Ret a | None => Exn OutOfBounds end.

(** The same with a machine integer as index. *)
Definition at_Z {A} (l : list A) (i : Z) : outcome A :=
  if (0 <=? i)%Z then vec_at l (Z.to_nat i) else Exn OutOfBounds.

Lemma bind_Ret {A B} (f : A -> outcome B) (a : A) : (Ret a ≫= f) = f a.
Proof. reflexivity. Qed.

Lemma bind_Ret_inv {A B} (f : A -> outcome B) (m : outcome A) (b : B) :
  (m ≫= f) = Ret b -> exists a, m = Ret a /\ f a = Ret b.
Proof. destruct m as [a|e]; cbn; intros H; [eauto | discriminate]. Qed.

Lemma outcome_bind_assoc {A B C} (m : outcome A) (f : A -> outcome B) (g : B -> outcome C) :
  ((m ≫= f) ≫= g) = (m ≫= fun a => f a ≫= g).
Proof. by destruct m. Qed.

(** A loop over a list that threads a state and may fail. *)
Fixpoint foldM {A S} (f : A -> S -> outcome S) (l : list A) (s : S) : outcome S :=
  match l with [] => Ret s | a :: l => s ← f a s; foldM f l s end.

(** ** Machine integers

    A w-bit unsigned integer is a [Z] in [0, 2^w), a signed one a [Z] in
    [-2^(w-1), 2^(w-1)); every arithmetic result is wrapped explicitly. *)

Definition wrapU (w : Z) (z : Z) : Z := (z mod 2 ^ w)%Z.
Definition wrapS (w : Z) (z : Z) : Z := ((z + 2 ^ (w - 1)) mod 2 ^ w - 2 ^ (w - 1))%Z.

Abbreviation u8 := (wrapU 8).
Abbreviation u32 := (wrapU 32).
Abbreviation u64 := (wrapU 64).
Abbreviation i16 := (wrapS 16).
Abbreviation i32 := (wrapS 32).

Section Wrap.
  Local Open Scope Z_scope.

Lemma wrapU_small w z : 0 <= z < 2 ^ w -> wrapU w z = z.
  Proof. apply Z.mod_small. Qed.

Lemma wrapU_range w z : 0 <= w -> 0 <= wrapU w z < 2 ^ w.
  Proof. intros Hw. apply Z.mod_pos_bound, Z.pow_pos_nonneg; lia. Qed.

Lemma wrapS_small w z : 0 < w -> - 2 ^ (w - 1) <= z < 2 ^ (w - 1) -> wrapS w z = z.
  Proof.
    intros Hw Hz. unfold wrapS.
    assert (2 ^ w = 2 * 2 ^ (w - 1)) as Hpow.
    { rewrite <- Z.pow_succ_r by lia. f_equal. lia. }
    rewrite Z.mod_small by lia. lia.
  Qed.

Lemma wrapS_range w z : 0 < w -> - 2 ^ (w - 1) <= wrapS w z < 2 ^ (w - 1).
  Proof.
    intros Hw. unfold wrapS.
    assert (2 ^ w = 2 * 2 ^ (w - 1)) as Hpow.
    { rewrite <- Z.pow_succ_r by lia. f_equal. lia. }
    pose proof (Z.mod_pos_bound (z + 2 ^ (w - 1)) (2 ^ w)). lia.
  Qed.

Lemma i16_small z : -32768 <= z < 32768 -> i16 z = z.
  Proof. intros; apply wrapS_small; cbn; lia. Qed.

Lemma i32_small z : -2147483648 <= z < 2147483648 -> i32 z = z.
  Proof. intros; apply wrapS_small; cbn; lia. Qed.

Lemma u32_small z : 0 <= z < 4294967296 -> u32 z = z.
  Proof. intros; apply wrapU_small; cbn; lia. Qed.

Lemma u64_small z : 0 <= z < 18446744073709551616 -> u64 z = z.
  Proof. intros; apply wrapU_small; cbn; lia. Qed.
End Wrap.

(** [size_t] maximum: [std::string::npos]. *)
Definition npos : Z := (2 ^ 64 - 1)%Z.

(** ** Automation *)

Create HintDb maple.

(** Remove the machine-width wrappers of the goal whose argument is in range. *)
Ltac unwrap :=
  repeat match goal with
    | |- context [wrapS 16 ?z] => rewrite (i16_small z) by lia
    | |- context [wrapS 32 ?z] => rewrite (i32_small z) by lia
    | |- context [wrapU 32 ?z] => rewrite (u32_small z) by lia
    | |- context [wrapU 64 ?z] => rewrite (u64_small z) by lia
    end.


(** ** Lists *)

Section ListLemmas.
  Context {A : Type}.
  Implicit Types l : list A.

Lemma app_cons_middle l1 l2 (x : A) : l1 ++ x :: l2 = (l1 ++ [x]) ++ l2.
  Proof. by rewrite <- app_assoc. Qed.

Lemma last_app_cons l1 l2 (x : A) : last (l1 ++ x :: l2) = last (x :: l2).
  Proof. by rewrite last_app_cons. Qed.

Lemma head_app_cons l1 l2 (x : A) : head (l1 ++ x :: l2) = head (l1 ++ [x]).
  Proof. by destruct l1. Qed.

Lemma last_Some_elem l (x : A) : last l = Some x -> x ∈ l.
  Proof. intros H. apply last_Some in H as [l' ->]. set_solver. Qed.

Lemma head_Some_elem l (x : A) : head l = Some x -> x ∈ l.
  Proof. destruct l; cbn; intros; simplify_eq. set_solver. Qed.

Lemma NoDup_middle l1 l2 (x : A) : NoDup (l1 ++ x :: l2) -> x ∉ l1 /\ x ∉ l2.
  Proof. rewrite NoDup_app, NoDup_cons. set_solver. Qed.

Lemma NoDup_remove_middle l1 l2 (x : A) : NoDup (l1 ++ x :: l2) -> NoDup (l1 ++ l2).
  Proof. rewrite !NoDup_app, NoDup_cons. set_solver. Qed.

Lemma filter_all (P : A -> Prop) `{forall x, Decision (P x)} l : Forall P l -> filter P l = l.
  Proof. induction 1; [done|]. by rewrite filter_cons_True, IHForall. Qed.

Lemma filter_none (P : A -> Prop) `{forall x, Decision (P x)} l : Forall (fun x => ~ P x) l -> filter P l = [].
  Proof. induction 1; [done|]. by rewrite filter_cons_False. Qed.

Lemma filter_ext_elem (P Q : A -> Prop) `{forall x, Decision (P x)} `{forall x, Decision (Q x)} l :
    (forall x, x ∈ l -> P x <-> Q x) -> filter P l = filter Q l.
  Proof.
    induction l as [|x l IH]; intros HPQ; [done|]. rewrite !filter_cons, IH by set_solver.
    assert (P x <-> Q x) as Hx by set_solver. by rewrite (decide_ext (P x) (Q x) _ _ Hx).
  Qed.

Lemma take_cons_lookup l i (x : A) r : l = take i l ++ x :: r -> l !! i = Some x.
  Proof.
    intros H. destruct (decide (i < length l)) as [Hi|Hi].
    - rewrite H, lookup_app_r; rewrite length_take_le by lia; [|lia]. by rewrite Nat.sub_diag.
    - rewrite take_ge in H by lia. apply (f_equal length) in H. rewrite length_app in H. cbn in H. lia.
  Qed.
(** Lists ordered pairwise by a relation. *)
Lemma FOP_app (R : relation A) l1 l2 :
  ForallOrdPairs R (l1 ++ l2) <-> ForallOrdPairs R l1 /\ ForallOrdPairs R l2 /\ (forall x y, x ∈ l1 -> y ∈ l2 -> R x y).
Proof.
  induction l1 as [|a l1 IH]; cbn.
  - split; [intros H; split_and!; [constructor|done|set_solver]|tauto].
  - split.
    + intros H. inversion H as [|? ? Ha Hl]; subst. apply IH in Hl as (H1 & H2 & H3).
      apply Forall_app in Ha as [Ha1 Ha2]. split; [by constructor|]. split; [done|].
      intros x y [->|Hx]%elem_of_cons Hy; [by apply (proj1 (Forall_forall _ _) Ha2)|by apply H3].
    + intros (H1 & H2 & H3). inversion H1 as [|? ? Ha Hl]; subst. constructor.
      * apply Forall_app. split; [done|]. apply Forall_forall. intros y Hy. apply H3; set_solver.
      * apply IH. split; [done|]. split; [done|]. intros x y Hx Hy. apply H3; set_solver.
Qed.
End ListLemmas.

#[export] Hint Resolve last_Some_elem head_Some_elem : maple.

Lemma list_bind_ext_elem {A B} (f g : A -> list B) l : (forall x, x ∈ l -> f x = g x) -> l ≫= f = l ≫= g.
Proof. induction l as [|x l IH]; intros H; [done|]. cbn. rewrite (H x), IH; [done|intros y Hy; apply H; by right|by left]. Qed.

Lemma bind_length {A B} (f : A -> list B) (l : list A) n :
  (forall a, a ∈ l -> length (f a) = n) -> length (l ≫= f) = (length l * n)%nat.
Proof.
  induction l as [|a l IH]; intros Hf; cbn; [done|].
  rewrite length_app, Hf, IH by set_solver. done.
Qed.

Lemma bind_lookup {A B} (f : A -> list B) (l : list A) n i c a :
  (forall a, a ∈ l -> length (f a) = n) -> l !! i = Some a -> (c < n)%nat -> (l ≫= f) !! (n * i + c)%nat = f a !! c.
Proof.
  revert i. induction l as [|x l IH]; intros i Hf Hi Hc; [done|]. cbn. destruct i as [|i]; cbn in Hi.
  - injection Hi as ->. rewrite Nat.mul_0_r. apply lookup_app_l. rewrite Hf by set_solver. done.
  - rewrite lookup_app_r; rewrite Hf by set_solver; [|lia]. rewrite <- (IH i) by (set_solver || done). f_equal. lia.
Qed.

Lemma mapM_app {A B} (f : A -> option B) l1 l2 : mapM f (l1 ++ l2) = (x ← mapM f l1; y ← mapM f l2; Some (x ++ y)).
Proof.
  induction l1 as [|a l1 IH]; cbn; [by destruct (mapM f l2)|]. destruct (f a); cbn; [|done]. rewrite IH.
  destruct (mapM f l1); cbn; [|done]. by destruct (mapM f l2).
Qed.

Lemma mapM_ext_elem {A B} (f g : A -> option B) l : (forall a, a ∈ l -> f a = g a) -> mapM f l = mapM g l.
Proof. induction l as [|a l IH]; intros H; cbn; [done|]. rewrite H, IH by set_solver. done. Qed.

(** A map over an interval, block by block. *)
Lemma mapM_blocks {A B} (f : nat -> option B) (g : A -> list B) n : forall l k,
  (forall i a, l !! i = Some a -> mapM f (seq (k + n * i) n) = Some (g a)) -> mapM f (seq k (n * length l)) = Some (l ≫= g).
Proof.
  induction l as [|a l IH]; intros k H; cbn [length]; [by rewrite Nat.mul_0_r|].
  rewrite Nat.mul_succ_r, Nat.add_comm, seq_app, mapM_app.
  pose proof (H 0%nat a eq_refl) as Ha. rewrite Nat.mul_0_r, Nat.add_0_r in Ha. rewrite Ha. cbn.
  rewrite IH; [done|]. intros i b Hi. rewrite <- (H (S i) b Hi). f_equal. f_equal. lia.
Qed.

(** ** Loops over a list *)

Section Loops.
Local Open Scope Z_scope.

Lemma foldM_app {A S} (f : A -> S -> outcome S) l1 l2 s : foldM f (l1 ++ l2) s = (s ← foldM f l1 s; foldM f l2 s).
Proof.
  revert s. induction l1 as [|a l1 IH]; intros s; cbn; [done|]. destruct (f a s) as [s'|e]; cbn; [apply IH|done].
Qed.

(** Nested loops as one loop over the pairs. *)
Lemma foldM_nested {A B S} (f : A -> B -> S -> outcome S) xs ys s :
  foldM (fun x => foldM (f x) ys) xs s = foldM (fun '(x, y) => f x y) (x ← xs; y ← ys; [(x, y)]) s.
Proof.
  revert s. induction xs as [|x xs IH]; intros s; cbn; [done|]. rewrite foldM_app.
  assert (forall s, foldM (fun '(x, y) => f x y) (y ← ys; [(x, y)]) s = foldM (f x) ys s) as ->.
  { clear IH s. induction ys as [|y ys IH]; intros s; cbn; [done|]. destruct (f x y s); cbn; [apply IH|done]. }
  destruct (foldM (f x) ys s); cbn; [apply IH|done].
Qed.

(** A counting loop with an invariant. *)
Lemma foldM_seqZ {S} (I : Z -> S -> Prop) (f : Z -> S -> outcome S) n s : 0 <= n -> I 0 s ->
  (forall i s, 0 <= i < n -> I i s -> exists s', f i s = Ret s' /\ I (i + 1) s') ->
  exists s', foldM f (seqZ 0 n) s = Ret s' /\ I n s'.
Proof.
  intros Hn. revert s. pattern n. apply natlike_ind; [| |done]; clear n Hn.
  - intros s Hs _. exists s. done.
  - intros n Hn IH s Hs Hstep. destruct (IH s Hs) as (s1 & E1 & I1); [intros i t Hi; apply Hstep; lia|].
    destruct (Hstep n s1) as (s2 & E2 & I2); [lia|done|]. exists s2.
    rewrite <- Z.add_1_r, seqZ_app by lia. rewrite foldM_app, E1, bind_Ret, Z.add_0_l.
    assert (seqZ n 1 = [n]) as -> by (by rewrite seqZ_cons by lia). cbn [foldM]. rewrite E2. done.
Qed.

(** The same over natural numbers. *)
Lemma foldM_seq {S} (I : nat -> S -> Prop) (f : nat -> S -> outcome S) n s : I 0%nat s ->
  (forall i s, (i < n)%nat -> I i s -> exists s', f i s = Ret s' /\ I (Datatypes.S i) s') ->
  exists s', foldM f (seq 0 n) s = Ret s' /\ I n s'.
Proof.
  induction n as [|n IH]; intros Hs Hstep; [by exists s|].
  destruct (IH Hs) as (s1 & E1 & I1); [intros i t Hi; apply Hstep; lia|]. destruct (Hstep n s1) as (s2 & E2 & I2); [lia|done|].
  exists s2. rewrite seq_S, foldM_app, E1, bind_Ret. cbn [foldM Nat.add]. by rewrite E2.
Qed.

Lemma foldM_fmap {A B S} (g : A -> B) (f : B -> S -> outcome S) l s : foldM f (g <$> l) s = foldM (fun a => f (g a)) l s.
Proof. revert s. induction l as [|a l IH]; intros s; cbn; [done|]. destruct (f (g a) s); cbn; [apply IH|done]. Qed.

Lemma at_Z_lookup {A} (l : list A) i : 0 <= i < Z.of_nat (length l) -> exists x, at_Z l i = Ret x /\ l !! Z.to_nat i = Some x.
Proof.
  intros Hi. destruct (lookup_lt_is_Some_2 l (Z.to_nat i)) as [x Hx]; [lia|]. exists x. split; [|done].
  unfold at_Z, vec_at. by rewrite (proj2 (Z.leb_le 0 i)), Hx by lia.
Qed.
Lemma at_Z_Some {A} (l : list A) i x : 0 <= i -> l !! Z.to_nat i = Some x -> at_Z l i = Ret x.
Proof. intros Hi Hx. unfold at_Z, vec_at. by rewrite (proj2 (Z.leb_le 0 i)), Hx by done. Qed.
Lemma at_Z_app {A} (l l' : list A) i x : at_Z l i = Ret x -> at_Z (l ++ l') i = Ret x.
Proof.
  unfold at_Z, vec_at. destruct (0 <=? i); [|done]. destruct (l !! Z.to_nat i) as [y|] eqn:E; [|done].
  by rewrite (lookup_app_l_Some _ _ _ _ E).
Qed.
Lemma at_Z_end {A} (l : list A) x : at_Z (l ++ [x]) (Z.of_nat (length l)) = Ret x.
Proof. apply at_Z_Some; [lia|]. rewrite Nat2Z.id. by apply list_lookup_middle. Qed.
Lemma at_Z_Ret {A} (l : list A) i x : at_Z l i = Ret x -> 0 <= i < Z.of_nat (length l) /\ l !! Z.to_nat i = Some x.
Proof.
  unfold at_Z, vec_at. destruct (Z.leb_spec 0 i); [|done]. destruct (l !! Z.to_nat i) as [y|] eqn:E; [|done].
  intros [= ->]. pose proof (lookup_lt_Some _ _ _ E). split; [lia|done].
Qed.
End Loops.

(** ** Step relations: an invariant of every step holds of every reachable state. *)

Lemma rtc_invariant {S} (R : relation S) (I : S -> Prop) s s' :
  (forall a b, R a b -> I a -> I b) -> I s -> rtc R s s' -> I s'.
Proof. intros Hstep Hs Hrtc. induction Hrtc; eauto. Qed.

(** ** Acyclic parent relations *)

Section Acyclic.
Context {A : Type}.
Implicit Types R : relation A.

Definition acyclic R : Prop := forall x, ~ tc R x x.

Lemma tc_first R (x y : A) : tc R x y -> exists z, R x z /\ rtc R z y.
Proof. destruct 1 as [x y H|x z y H Ht]; eexists; split; [exact H | apply rtc_refl | exact H |]. by apply tc_rtc. Qed.

Lemma tc_last R (x y : A) : tc R x y -> exists z, R z y.
Proof. induction 1; eauto. Qed.

(** Redirecting the edge of [e] to [p] adds paths that go through [e] and then [p]. *)
Lemma redirect_rtc R R' (e p x y : A) :
  (forall a b, R' a b -> R a b \/ (a = e /\ b = p)) -> ~ rtc R p e ->
  rtc R' x y -> rtc R x y \/ (rtc R x e /\ rtc R p y).
Proof.
  intros HR Hpe. induction 1 as [x|x z y Hxz Hzy IH]; [by left; apply rtc_refl|].
  destruct (HR _ _ Hxz) as [Hold|[-> ->]], IH as [IH|[IH1 IH2]].
  - left. by eapply rtc_l.
  - right. split; [by eapply rtc_l | done].
  - right. split; [apply rtc_refl | done].
  - by destruct Hpe.
Qed.

Lemma redirect_acyclic R R' (e p : A) :
  (forall a b, R' a b -> R a b \/ (a = e /\ b = p)) -> ~ rtc R p e ->
  acyclic R -> acyclic R'.
Proof.
  intros HR Hpe Hac x Hx. apply tc_first in Hx as (z & Hxz & Hzx).
  pose proof (redirect_rtc _ _ _ _ _ _ HR Hpe Hzx) as [Hold|[H1 H2]];
    destruct (HR _ _ Hxz) as [Hxz'|[-> ->]].
  - apply (Hac x). by eapply tc_rtc_r; [apply tc_once|].
  - by destruct Hpe.
  - apply Hpe. etrans; [exact H2|]. by eapply rtc_l.
  - by destruct Hpe.
Qed.

Lemma subrel_acyclic R R' : (forall a b, R' a b -> R a b) -> acyclic R -> acyclic R'.
Proof. intros HR Hac x Hx. apply (Hac x). revert Hx. generalize x at 1 3 as y. induction 1; [apply tc_once|eapply tc_l]; eauto. Qed.
End Acyclic.
