(* ===== verification/Strings.v ===== *)
(** * Strings: the string utilities of the engine

    Models [Others/StringUtils.cpp].  A [std::basic_string<C>] is a [list C], so
    that the [std::string] and [std::u16string] overloads of the source are two
    instances of the same definition.  Loops over [find] carry fuel; the
    theorems show that the length of the input is enough when the delimiter is
    not empty, and that no fuel is enough when it is. *)

From S2P Require Import Prelude.
From stdpp Require Import base decidable list sets strings.
From Stdlib Require Import Ascii ZArith Lia.

(** ** The members of [std::basic_string] the source calls *)

Module BasicString.
Section Char.
Context {C : Type} `{EqDecision C}.
Implicit Types s pat : list C.

(** Offset of the leftmost occurrence of [pat] in [s]. *)
Fixpoint first_occ (pat s : list C) : option nat :=
  if decide (pat `prefix_of` s) then Some 0
  else match s with
       | [] => None
       | _ :: s' => S <$> first_occ pat s'
       end.

(** [s.find(pat, pos)]; [None] is [npos]. *)
Definition find (pat s : list C) (pos : nat) : option nat :=
  if decide (pos <= length s) then Nat.add pos <$> first_occ pat (drop pos s) else None.

(** [s.replace(pos, len, by)] for [pos <= s.size()]. *)
Definition replace_at (s : list C) (pos len : nat) (by_ : list C) : list C :=
  take pos s ++ by_ ++ drop (pos + len) s.

(** [s.find_first_not_of(set)]. *)
Definition find_first_not_of (set s : list C) : option nat :=
  fst <$> list_find (fun c => c ∉ set) s.

(** [s.find_last_of(set)]: offset of the last character that is in [set]. *)
Fixpoint find_last_of (set s : list C) : option nat :=
  match s with
  | [] => None
  | c :: s' =>
      match find_last_of set s' with
      | Some i => Some (S i)
      | None => if decide (c ∈ set) then Some 0 else None
      end
  end.

(** [s.find_last_not_of(set)]. *)
Fixpoint find_last_not_of (set s : list C) : option nat :=
  match s with
  | [] => None
  | c :: s' =>
      match find_last_not_of set s' with
      | Some i => Some (S i)
      | None => if decide (c ∈ set) then None else Some 0
      end
  end.

(** [s.erase(0, n)], where [n] may be [npos]. *)
Definition erase_front (s : list C) (n : option nat) : list C :=
  match n with Some k => drop k s | None => [] end.

(** [s.erase(n + 1)], where [n] may be [npos] and [npos + 1] is 0. *)
Definition erase_from_succ (s : list C) (n : option nat) : list C :=
  match n with Some k => take (S k) s | None => [] end.

(** [s.compare(pos, pat.size(), pat) == 0]; the offset is a [size_t] and an
    offset past the end throws [std::out_of_range]. *)
Definition compare_at_eq (s : list C) (pos : Z) (pat : list C) : outcome bool :=
  if decide (pos <= Z.of_nat (length s))%Z
  then Ret (bool_decide (take (length pat) (drop (Z.to_nat pos) s) = pat))
  else Exn OutOfRange.

(** *** Lemmas *)

Lemma first_occ_Some pat s i :
  first_occ pat s = Some i -> s = take i s ++ pat ++ drop (i + length pat) s.
Proof.
  revert i. induction s as [|c s IH]; intros i; cbn; case_decide as Hp; intros Hi; simplify_eq.
  - apply prefix_nil_inv in Hp as ->. done.
  - cbn. destruct Hp as [k Hk]. rewrite Hk. by rewrite drop_app_length.
  - destruct (first_occ pat s) as [j|] eqn:Hj; simplify_eq/=. f_equal. by apply IH.
Qed.

Lemma first_occ_None pat s l1 l2 : first_occ pat s = None -> s <> l1 ++ pat ++ l2.
Proof.
  revert l1. induction s as [|c s IH]; intros l1; cbn; case_decide as Hp; intros Hi Heq; simplify_eq.
  - destruct l1; [|done]. apply Hp. cbn in Heq. rewrite Heq. by exists l2.
  - destruct l1 as [|d l1]; cbn in Heq.
    + apply Hp. rewrite Heq. by exists l2.
    + simplify_eq. destruct (first_occ pat _) eqn:Hf; [done|]. by apply (IH l1).
Qed.

Lemma first_occ_lt pat s i l1 l2 :
  first_occ pat s = Some i -> s = l1 ++ pat ++ l2 -> i <= length l1.
Proof.
  revert i l1. induction s as [|c s IH]; intros i l1; cbn; case_decide as Hp; intros Hi Heq; simplify_eq; try lia.
  destruct (first_occ pat s) as [j|] eqn:Hj; simplify_eq/=.
  destruct l1 as [|d l1]; cbn in Heq.
  - exfalso. apply Hp. rewrite Heq. by exists l2.
  - simplify_eq. cbn. pose proof (IH j l1 eq_refl eq_refl). lia.
Qed.

Lemma first_occ_length pat s i : first_occ pat s = Some i -> i + length pat <= length s.
Proof.
  revert i. induction s as [|c s IH]; intros i; cbn; case_decide as Hp; intros Hi; simplify_eq.
  - by apply prefix_length in Hp.
  - by apply prefix_length in Hp.
  - destruct (first_occ pat s) as [j|]; simplify_eq/=. specialize (IH j eq_refl). lia.
Qed.

Lemma first_occ_nil s : first_occ [] s = Some 0.
Proof. by destruct s. Qed.

Lemma find_0 pat s : find pat s 0 = first_occ pat s.
Proof. unfold find. rewrite decide_True by lia. rewrite drop_0. by destruct (first_occ pat s). Qed.

Lemma find_app pat l s : find pat (l ++ s) (length l) = Nat.add (length l) <$> first_occ pat s.
Proof. unfold find. rewrite decide_True by (rewrite length_app; lia). by rewrite drop_app_length. Qed.

Lemma find_last_of_Some set s i :
  find_last_of set s = Some i ->
  exists c, s = take i s ++ c :: drop (S i) s /\ c ∈ set /\ Forall (fun d => d ∉ set) (drop (S i) s).
Proof.
  revert i. induction s as [|c s IH]; intros i; cbn; [done|].
  destruct (find_last_of set s) as [j|] eqn:Hj; intros Hi; simplify_eq.
  - destruct (IH j eq_refl) as (d & Hs & Hd & Hf). exists d. cbn. split; [by f_equal | done].
  - case_decide; simplify_eq. exists c. cbn. rewrite drop_0. split; [done|split; [done|]].
    clear -Hj. induction s as [|d s IH]; cbn in *; [constructor|].
    destruct (find_last_of set s); [done|]. case_decide; [done|]. constructor; auto.
Qed.

Lemma find_last_of_None set s : find_last_of set s = None <-> Forall (fun d => d ∉ set) s.
Proof.
  induction s as [|d s IH]; cbn; [by split|]. rewrite Forall_cons, <- IH.
  destruct (find_last_of set s); [naive_solver|]. case_decide; naive_solver.
Qed.

Lemma find_last_not_of_Some set s i :
  find_last_not_of set s = Some i ->
  exists c, s = take i s ++ c :: drop (S i) s /\ c ∉ set /\ Forall (fun d => d ∈ set) (drop (S i) s).
Proof.
  revert i. induction s as [|c s IH]; intros i; cbn; [done|].
  destruct (find_last_not_of set s) as [j|] eqn:Hj; intros Hi; simplify_eq.
  - destruct (IH j eq_refl) as (d & Hs & Hd & Hf). exists d. cbn. split; [by f_equal | done].
  - case_decide; simplify_eq. exists c. cbn. rewrite drop_0. split; [done|split; [done|]].
    clear -Hj. induction s as [|d s IH]; cbn in *; [constructor|].
    destruct (find_last_not_of set s); [done|]. case_decide; [|done]. constructor; auto.
Qed.

Lemma find_last_not_of_None set s : find_last_not_of set s = None <-> Forall (fun d => d ∈ set) s.
Proof.
  induction s as [|d s IH]; cbn; [by split|]. rewrite Forall_cons, <- IH.
  destruct (find_last_not_of set s); [naive_solver|]. case_decide; naive_solver.
Qed.
End Char.
End BasicString.

(** ** Splitting and replacing, for any character type *)

Module Split.
Import BasicString.
Section Char.
Context {C : Type} `{EqDecision C}.
Implicit Types s input delimiter old newStr : list C.

(** The loop of the three [split] overloads: cut [input] at the leftmost
    delimiter until none is left, pushing the tokens on [outs]. *)
Fixpoint split_loop (fuel : nat) (input delimiter : list C) (outs : list (list C))
    : outcome (list (list C)) :=
  match fuel with
  | O => Exn OutOfFuel
  | S fuel' =>
      match find delimiter input 0 with
      | Some pos =>
          let token := take pos input in
          let input' := drop (pos + length delimiter) input in
          split_loop fuel' input' delimiter (outs ++ [token])
      | None => Ret (outs ++ [input])
      end
  end.

(** [split(input, delimiter, outs)]: the result is the new value of [outs]. *)
Definition split_into (input delimiter : list C) (outs : list (list C)) : outcome (list (list C)) :=
  split_loop (S (length input)) input delimiter outs.

(** [split(input, delimiter)]. *)
Definition split (input delimiter : list C) : outcome (list (list C)) :=
  split_into input delimiter [].

(** The loop of the two [replace] overloads. *)
Fixpoint replace_loop (fuel : nat) (s old newStr : list C) (pos : nat) : outcome (list C) :=
  match fuel with
  | O => Exn OutOfFuel
  | S fuel' =>
      match find old s pos with
      | Some pos' =>
          replace_loop fuel' (replace_at s pos' (length old) newStr) old newStr (pos' + length newStr)
      | None => Ret s
      end
  end.

Definition replace (s old newStr : list C) : outcome (list C) :=
  replace_loop (S (length s)) s old newStr 0.

(** *** Specification: joining, and the tokens of a string *)

Fixpoint join (sep : list C) (parts : list (list C)) : list C :=
  match parts with
  | [] => []
  | [p] => p
  | p :: ps => p ++ sep ++ join sep ps
  end.

(** [tokens d s ps]: [ps] are the pieces of [s] between the successive leftmost
    occurrences of [d]. *)
Inductive tokens (d : list C) : list C -> list (list C) -> Prop :=
  | tokens_last s :
      first_occ d s = None -> tokens d s [s]
  | tokens_cut p s ps :
      first_occ d (p ++ d ++ s) = Some (length p) ->
      tokens d s ps -> tokens d (p ++ d ++ s) (p :: ps).

Lemma tokens_not_nil d s ps : tokens d s ps -> ps <> [].
Proof. by inversion 1. Qed.

Lemma join_cons sep p ps : ps <> [] -> join sep (p :: ps) = p ++ sep ++ join sep ps.
Proof. by destruct ps. Qed.

Lemma tokens_join d s ps : tokens d s ps -> join d ps = s.
Proof.
  induction 1 as [s Hs|p s ps Hp Hps IH]; [done|].
  rewrite join_cons by (by eapply tokens_not_nil). by rewrite IH.
Qed.

(** No piece contains the delimiter. *)
Lemma tokens_free d s ps : d <> [] -> tokens d s ps -> Forall (fun p => first_occ d p = None) ps.
Proof.
  intros Hd. induction 1 as [s Hs|p s ps Hp Hps IH]; [by constructor|].
  constructor; [|done].
  destruct (first_occ d p) as [i|] eqn:Hi; [|done].
  apply first_occ_Some in Hi as Hs'.
  assert (p ++ d ++ s = take i p ++ d ++ (drop (i + length d) p ++ d ++ s)) as Heq.
  { rewrite Hs' at 1. by rewrite <- !app_assoc. }
  pose proof (first_occ_lt _ _ _ _ _ Hp Heq) as Hle.
  apply first_occ_length in Hi. rewrite length_take in Hle. destruct d; cbn in *; [done|lia].
Qed.

Lemma tokens_functional d s ps qs : tokens d s ps -> tokens d s qs -> ps = qs.
Proof.
  intros Hp. revert qs. induction Hp as [s Hs|p s ps Hp Hps IH]; intros qs Hq.
  - inversion Hq; simplify_eq; congruence.
  - inversion Hq as [s' Hs'|q s' qs' Hq' Hqs' Heq]; subst; [congruence|].
    assert (p = q /\ s = s') as [-> ->].
    { rewrite Heq in Hq'. rewrite Hp in Hq'. injection Hq' as Hlen.
      apply app_inj_1 in Heq as [-> Heq]; [|lia]. by apply app_inv_head in Heq. }
    f_equal. by apply IH.
Qed.

(** One iteration of either loop at an occurrence. *)
Lemma first_occ_cut d s i :
  first_occ d s = Some i -> exists p r, s = p ++ d ++ r /\ i = length p.
Proof.
  intros Hi. exists (take i s), (drop (i + length d) s).
  pose proof (first_occ_length _ _ _ Hi). split; [by apply first_occ_Some|].
  rewrite length_take. lia.
Qed.

Lemma drop_cut (p d r : list C) : drop (length p + length d) (p ++ d ++ r) = r.
Proof. by rewrite app_assoc, <- length_app, drop_app_length. Qed.

Lemma split_loop_tokens d fuel input outs :
  d <> [] -> length input < fuel ->
  exists ps, tokens d input ps /\ split_loop fuel input d outs = Ret (outs ++ ps).
Proof.
  intros Hd. revert input outs. induction fuel as [|fuel IH]; intros input outs Hlen; [lia|].
  cbn [split_loop]. rewrite find_0.
  destruct (first_occ d input) as [i|] eqn:Hi.
  - destruct (first_occ_cut _ _ _ Hi) as (p & r & -> & ->).
    rewrite drop_cut, take_app_length.
    destruct (IH r (outs ++ [p])) as (ps & Hps & ->).
    { rewrite !length_app in Hlen. destruct d; cbn in *; [done|lia]. }
    exists (p :: ps). split; [by constructor | by rewrite <- app_assoc].
  - exists [input]. split; [by constructor | done].
Qed.

Lemma split_loop_empty fuel input outs : split_loop fuel input [] outs = Exn OutOfFuel.
Proof.
  revert input outs. induction fuel as [|fuel IH]; intros; [done|].
  cbn [split_loop]. rewrite find_0, first_occ_nil. apply IH.
Qed.

Lemma replace_loop_tokens old newStr fuel done_ s :
  old <> [] -> length s < fuel ->
  exists ps, tokens old s ps /\
    replace_loop fuel (done_ ++ s) old newStr (length done_) = Ret (done_ ++ join newStr ps).
Proof.
  intros Hd. revert done_ s. induction fuel as [|fuel IH]; intros done_ s Hlen; [lia|].
  cbn [replace_loop]. rewrite find_app.
  destruct (first_occ old s) as [i|] eqn:Hi; cbn.
  - destruct (first_occ_cut _ _ _ Hi) as (p & r & -> & ->).
    unfold replace_at. rewrite <- (length_app done_ p), (app_assoc done_ p).
    rewrite take_app_length, drop_cut.
    destruct (IH ((done_ ++ p) ++ newStr) r) as (ps & Hps & Heq).
    { rewrite !length_app in Hlen. destruct old; cbn in *; [done|lia]. }
    exists (p :: ps). split; [by constructor|].
    rewrite <- (length_app _ newStr), (app_assoc _ newStr r), Heq.
    rewrite join_cons by (by eapply tokens_not_nil). by rewrite <- !app_assoc.
  - exists [s]. split; [by constructor | done].
Qed.

(** A delimiter of one character: the tokens of a join are the joined pieces. *)
Lemma first_occ_single c s : first_occ [c] s = None <-> c ∉ s.
Proof.
  split.
  - intros Hf Hin. apply list_elem_of_split in Hin as (l1 & l2 & ->).
    by apply (first_occ_None _ _ l1 l2) in Hf.
  - intros Hn. destruct (first_occ [c] s) as [i|] eqn:Hi; [|done].
    apply first_occ_Some in Hi. destruct Hn. rewrite Hi. set_solver.
Qed.

Lemma first_occ_single_app c p s : c ∉ p -> first_occ [c] (p ++ c :: s) = Some (length p).
Proof.
  intros Hn. destruct (first_occ [c] (p ++ c :: s)) as [i|] eqn:Hi.
  - f_equal. pose proof (first_occ_lt _ _ _ p s Hi eq_refl) as Hle.
    destruct (decide (i = length p)) as [|Hne]; [done|].
    apply first_occ_Some in Hi. exfalso. apply Hn.
    apply (f_equal (fun l => l !! i)) in Hi. rewrite lookup_app_l in Hi by lia.
    rewrite lookup_app_r in Hi by (rewrite length_take; lia).
    rewrite length_take_le in Hi by (rewrite length_app; lia).
    rewrite Nat.sub_diag in Hi. cbn in Hi. by apply list_elem_of_lookup_2 in Hi.
  - by apply (first_occ_None _ _ p s) in Hi.
Qed.

Lemma tokens_join_single c ps :
  ps <> [] -> Forall (fun p => c ∉ p) ps -> tokens [c] (join [c] ps) ps.
Proof.
  induction ps as [|p ps IH]; [done|]. intros _ [Hp Hps]%Forall_cons.
  destruct ps as [|q ps].
  - cbn. constructor. by apply first_occ_single.
  - rewrite join_cons by done. constructor; [by apply first_occ_single_app|]. by apply IH.
Qed.

(** A part can be told from the delimiter after it when the delimiter begins
    nowhere in the part, not even at its end. *)
Definition separable (d p : list C) : Prop := forall l r, p ++ d = l ++ d ++ r -> r = [].

(** A text that the delimiter does not occur in. *)
Definition delim_free (d p : list C) : Prop := forall l r, p <> l ++ d ++ r.

Lemma first_occ_free d p : first_occ d p = None <-> delim_free d p.
Proof.
  split; [intros H l r; by apply first_occ_None|].
  intros H. destruct (first_occ d p) as [i|] eqn:Hi; [|done].
  apply first_occ_Some in Hi. by destruct (H _ _ Hi).
Qed.

Lemma separable_first_occ d p s : separable d p <-> first_occ d (p ++ d ++ s) = Some (length p).
Proof.
  split.
  - intros Hp. destruct (first_occ d (p ++ d ++ s)) as [i|] eqn:Hi; [|by apply (first_occ_None _ _ p s) in Hi].
    pose proof (first_occ_lt _ _ _ p s Hi eq_refl) as Hle. f_equal.
    pose proof (first_occ_length _ _ _ Hi) as Hlen. apply first_occ_Some in Hi.
    assert (length (take i (p ++ d ++ s)) = i) as Hi' by (rewrite length_take; lia).
    set (l := take i (p ++ d ++ s)) in *. set (k := drop (i + length d) (p ++ d ++ s)) in *.
    rewrite !app_assoc in Hi. apply app_eq_inv in Hi as [(m & Hm & _)|(m & Hm & _)].
    + rewrite <- app_assoc in Hm. rewrite (Hp l m Hm), app_nil_r in Hm.
      apply (f_equal length) in Hm. rewrite !length_app in Hm. lia.
    + apply (f_equal length) in Hm. rewrite !length_app in Hm. lia.
  - intros Hf l r Heq. assert (p ++ d ++ s = l ++ d ++ (r ++ s)) as Hs.
    { rewrite app_assoc, Heq, <- !app_assoc. done. }
    pose proof (first_occ_lt _ _ _ _ _ Hf Hs) as Hle.
    apply (f_equal length) in Heq. rewrite !length_app in Heq. destruct r; [done|cbn in Heq; lia].
Qed.

Lemma separable_single c p : c ∉ p -> separable [c] p.
Proof. intros Hc. apply (separable_first_occ [c] p []). by apply first_occ_single_app. Qed.

(** The tokens of a join, exactly. *)
Lemma tokens_join_iff d ps q :
  tokens d (join d (ps ++ [q])) (ps ++ [q]) <-> Forall (separable d) ps /\ delim_free d q.
Proof.
  induction ps as [|p ps IH]; cbn [app].
  - cbn. rewrite <- first_occ_free. split; [|intros [_ H]; by constructor].
    inversion 1 as [? Hf|? ? ? ? Hf Heq]; [done|by apply tokens_not_nil in Hf].
  - rewrite join_cons by (by destruct ps). rewrite Forall_cons, <- (assoc and), <- IH. split.
    + inversion 1 as [s0 Hf Heq Heq'|p0 s0 ps0 Hf Hps Heq].
      * by destruct ps.
      * subst. apply app_inv_head, app_inv_head in Heq as ->.
        split; [by eapply separable_first_occ|done].
    + intros [Hp Hps]. constructor; [by apply separable_first_occ|done].
Qed.

Lemma split_tokens d s ps : d <> [] -> split s d = Ret ps <-> tokens d s ps.
Proof.
  intros Hd. unfold split, split_into.
  destruct (split_loop_tokens d (S (length s)) s []) as (qs & Hqs & ->); [done|lia|]. cbn. split.
  - by intros [= <-].
  - intros H. f_equal. by eapply tokens_functional.
Qed.

Lemma split_join_single c ps : ps <> [] -> Forall (fun p => c ∉ p) ps -> split (join [c] ps) [c] = Ret ps.
Proof.
  intros Hne Hps. unfold split, split_into.
  destruct (split_loop_tokens [c] (S (length (join [c] ps))) (join [c] ps) []) as (qs & Hqs & ->); [done|lia|].
  f_equal. eapply tokens_functional; [done|]. by apply tokens_join_single.
Qed.
End Char.
End Split.

(** ** class StringUtils *)

Abbreviation cstring := (list ascii).
Abbreviation u16string := (list Z).

(** A narrow string literal of the source. *)
Definition str (s : String.string) : cstring := String.list_ascii_of_string s.

Module StringUtils.
Import BasicString Split.

(** [std::tolower] and [std::isspace] in the C locale. *)
Definition tolower (c : ascii) : ascii :=
  let n := nat_of_ascii c in
  if (65 <=? n) && (n <=? 90) then ascii_of_nat (n + 32) else c.

Definition isspace (c : ascii) : bool :=
  let n := nat_of_ascii c in (n =? 32) || ((9 <=? n) && (n <=? 13)).

(** [StringUtils::delimiter], which depends on the platform. *)
Definition delimiter (win32 : bool) : cstring := if win32 then ["\"%char] else ["/"%char].

Definition getExtension (fileName : cstring) : cstring :=
  match find_last_of ["."%char] fileName with
  | Some pos => drop (pos + 1) fileName
  | None => []
  end.

Definition removeExtension (fileName : cstring) : cstring :=
  match find_last_of ["."%char] fileName with
  | Some pos => take pos fileName
  | None => fileName
  end.

Definition getFileName (win32 : bool) (filePath : cstring) : cstring :=
  match find_last_of (delimiter win32) filePath with
  | Some pos => drop (pos + 1) filePath
  | None => filePath
  end.

Definition getFileNameWithoutExtension (win32 : bool) (filePath : cstring) : cstring :=
  removeExtension (getFileName win32 filePath).

(** [filePath[0]] of an empty string is the terminating NUL. *)
Definition isHiddenFile (filePath : cstring) : bool :=
  bool_decide (filePath <> str "..") && bool_decide (filePath <> str ".")
  && bool_decide (default "000"%char (head filePath) = "."%char).

Definition replace_u16 (src origin des : u16string) : outcome u16string := replace src origin des.
Definition replace_str (s old newStr : cstring) : outcome cstring := replace s old newStr.

Definition toLower (data : cstring) : cstring := tolower <$> data.

Definition replaceExtension (path extension : cstring) : cstring := removeExtension path ++ extension.

Definition isEmptyOrWhitespace (s : cstring) : bool :=
  match s with [] => true | _ => forallb isspace s end.

Definition startWith (s start : cstring) : outcome bool := compare_at_eq s 0 start.

Definition contains (s start : cstring) : bool := bool_decide (is_Some (find start s 0)).

(** [str.length() - start.length()] is computed on [size_t]. *)
Definition endWith (s start : cstring) : outcome bool :=
  compare_at_eq s (u64 (Z.of_nat (length s) - Z.of_nat (length start))) start.

Definition split_str (input delim : cstring) : outcome (list cstring) := split input delim.
Definition split_str_into (input delim : cstring) (outs : list cstring) : outcome (list cstring) :=
  split_into input delim outs.
Definition split_u16_into (input delim : u16string) (outs : list u16string) : outcome (list u16string) :=
  split_into input delim outs.

(** [trim], generic in the character type: the two [erase] calls. *)
Definition trim_set {C} `{EqDecision C} (s trimStr : list C) : list C :=
  match s with
  | [] => []
  | _ =>
      let s1 := erase_front s (find_first_not_of trimStr s) in
      erase_from_succ s1 (find_last_not_of trimStr s1)
  end.

Definition trim (s trimStr : cstring) : cstring := trim_set s trimStr.

(** The [u16string] overload trims U+0020, then U+3000. *)
Definition trim_u16 (s : u16string) : u16string :=
  match s with
  | [] => []
  | _ =>
      let s1 := erase_front s (find_first_not_of [32%Z] s) in
      let s2 := erase_from_succ s1 (find_last_not_of [32%Z] s1) in
      let s3 := erase_front s2 (find_first_not_of [12288%Z] s2) in
      erase_from_succ s3 (find_last_not_of [12288%Z] s3)
  end.

(** The three statements every [isXFile] starts with. *)
Definition lowered_extension (filePath : cstring) : cstring :=
  toLower (trim (getExtension filePath) [" "%char]).

Definition extension_in (exts : list String.string) (filePath : cstring) : bool :=
  bool_decide (lowered_extension filePath ∈ str <$> exts).

Definition isTextFile : cstring -> bool :=
  extension_in ["txt"; "glsl"; "shader"; "vert"; "frag"; "lua"]%string.
Definition isLuaFile : cstring -> bool := extension_in ["lua"]%string.
Definition isAudioFile : cstring -> bool := extension_in ["ogg"; "mp3"; "wav"; "aac"]%string.
Definition isSceneFile : cstring -> bool := extension_in ["scene"]%string.
Definition isControllerFile : cstring -> bool := extension_in ["controller"]%string.
Definition isModelFile : cstring -> bool := extension_in ["obj"; "gltf"; "glb"; "fbx"; "FBX"]%string.
Definition isTextureFile : cstring -> bool := extension_in ["png"; "tga"; "jpg"; "hdr"]%string.
Definition isCSharpFile : cstring -> bool := extension_in ["cs"]%string.

(** *** Lemmas *)

Lemma tolower_idem c : tolower (tolower c) = tolower c.
Proof. by destruct c as [[][][][][][][][]]. Qed.

Lemma tolower_dot c : tolower c = "."%char <-> c = "."%char.
Proof. by destruct c as [[][][][][][][][]]. Qed.

Lemma tolower_space c : tolower c = " "%char <-> c = " "%char.
Proof. by destruct c as [[][][][][][][][]]. Qed.

Section MapStable.
  (** [find_last_of] and its relatives commute with a map that fixes exactly
      the characters of the set. *)
  Context {C : Type} `{EqDecision C} (f : C -> C) (set : list C).
  Hypothesis f_set : forall c, f c ∈ set <-> c ∈ set.

Lemma find_last_of_map s : find_last_of set (f <$> s) = find_last_of set s.
  Proof.
    induction s as [|c s IH]; cbn; [done|]. rewrite IH. destruct (find_last_of set s); [done|].
    by rewrite (decide_ext _ _ _ _ (f_set c)).
  Qed.

Lemma find_last_not_of_map s : find_last_not_of set (f <$> s) = find_last_not_of set s.
  Proof.
    induction s as [|c s IH]; cbn; [done|]. rewrite IH. destruct (find_last_not_of set s); [done|].
    by rewrite (decide_ext _ _ _ _ (f_set c)).
  Qed.

Lemma find_first_not_of_map s : find_first_not_of set (f <$> s) = find_first_not_of set s.
  Proof.
    unfold find_first_not_of. rewrite list_find_fmap, <- option_fmap_compose.
    rewrite (list_find_ext (fun c => c ∉ set) ((fun c => c ∉ set) ∘ f)).
    - by destruct (list_find _ s) as [[]|].
    - intros c. cbn. by rewrite f_set.
  Qed.

Lemma trim_set_unfold s :
    trim_set s set = let s1 := erase_front s (find_first_not_of set s) in
                     erase_from_succ s1 (find_last_not_of set s1).
  Proof. by destruct s. Qed.
End MapStable.

Lemma trim_set_map {C} `{EqDecision C} (f : C -> C) (set s : list C) :
  (forall c, f c ∈ set <-> c ∈ set) -> trim_set (f <$> s) set = f <$> trim_set s set.
Proof.
  intros Hf. rewrite !trim_set_unfold, find_first_not_of_map by done.
  unfold erase_front, erase_from_succ.
  destruct (find_first_not_of set s); [|done].
  rewrite <- fmap_drop, find_last_not_of_map by done.
  destruct (find_last_not_of _ _); [|done]. by rewrite fmap_take.
Qed.

Lemma toLower_getExtension p : getExtension (toLower p) = toLower (getExtension p).
Proof.
  unfold getExtension, toLower. rewrite find_last_of_map.
  - destruct (find_last_of _ p); [|done]. by rewrite fmap_drop.
  - intros c. rewrite !list_elem_of_singleton. apply tolower_dot.
Qed.

Lemma toLower_trim s : trim (toLower s) [" "%char] = toLower (trim s [" "%char]).
Proof.
  apply trim_set_map. intros c. rewrite !list_elem_of_singleton. apply tolower_space.
Qed.

Lemma toLower_idem s : toLower (toLower s) = toLower s.
Proof. unfold toLower. rewrite <- list_fmap_compose. apply list_fmap_ext. intros. cbn. apply tolower_idem. Qed.

Lemma lowered_extension_toLower p : lowered_extension (toLower p) = lowered_extension p.
Proof. unfold lowered_extension. by rewrite toLower_getExtension, toLower_trim, toLower_idem. Qed.

Lemma trim_set_spec {C} `{EqDecision C} (s set : list C) :
  exists l r, s = l ++ trim_set s set ++ r
    /\ Forall (fun c => c ∈ set) l /\ Forall (fun c => c ∈ set) r
    /\ (forall c, head (trim_set s set) = Some c -> c ∉ set)
    /\ (forall c, last (trim_set s set) = Some c -> c ∉ set).
Proof.
  unfold trim_set. destruct s as [|c0 s0]; [by exists [], []|].
  set (s := c0 :: s0). unfold find_first_not_of.
  destruct (list_find (fun c => c ∉ set) s) as [[i c]|] eqn:Hi; cbn.
  - apply list_find_Some in Hi as (Hic & Hc & Hl).
    destruct (find_last_not_of set (drop i s)) as [j|] eqn:Hj; cbn.
    + apply find_last_not_of_Some in Hj as (d & Hs & Hd & Hr).
      exists (take i s), (drop (S j) (drop i s)). rewrite take_drop.
      split; [by rewrite take_drop|]. split; [|split; [done|split]].
      * apply Forall_lookup. intros k x [Hk Hki]%lookup_take_Some.
        destruct (decide (x ∈ set)); [done|]. by destruct (Hl k x).
      * intros x Hx. rewrite (drop_S _ _ _ Hic) in Hx. cbn in Hx. by simplify_eq.
      * intros x Hx. assert (drop i s !! j = Some d) as Hjd by by eapply take_cons_lookup.
        rewrite (take_S_r _ _ _ Hjd), last_snoc in Hx. by simplify_eq.
    + apply find_last_not_of_None in Hj. rewrite (drop_S _ _ _ Hic), Forall_cons in Hj. by destruct Hj.
  - apply list_find_None in Hi. exists s, []. cbn. split; [by rewrite app_nil_r|].
    split; [|by auto]. eapply Forall_impl; [done|]. cbn. intros x Hx. by apply dec_stable.
Qed.

Lemma extension_split f pos :
  find_last_of ["."%char] f = Some pos -> f = removeExtension f ++ "."%char :: getExtension f.
Proof.
  intros Hpos. unfold removeExtension, getExtension. rewrite Hpos.
  apply find_last_of_Some in Hpos as (c & Hs & Hc%list_elem_of_singleton & _). subst c.
  by rewrite Nat.add_1_r.
Qed.
End StringUtils.

(** ** Properties *)

Module StringProps.
Import BasicString Split StringUtils.

(** Splitting succeeds exactly for a non-empty delimiter.  It then appends to
    [outs] the pieces between the successive leftmost occurrences of the
    delimiter: joining them gives the input back and none contains the
    delimiter.  With an empty delimiter the loop of the source never ends. *)
Theorem split_spec {C} `{EqDecision C} (input delim : list C) (outs : list (list C)) :
  (delim <> [] ->
     exists ps, split_into input delim outs = Ret (outs ++ ps)
       /\ tokens delim input ps
       /\ join delim ps = input
       /\ Forall (fun p => first_occ delim p = None) ps)
  /\ (delim = [] -> forall fuel, split_loop fuel input delim outs = Exn OutOfFuel).
Proof.
  split.
  - intros Hd. destruct (split_loop_tokens delim (S (length input)) input outs) as (ps & Hps & Heq); [done|lia|].
    exists ps. split_and!; [done|done|by apply tokens_join|by eapply tokens_free].
  - intros -> fuel. apply split_loop_empty.
Qed.

(** C38. Splitting and joining with one non-empty delimiter.  Every text is the
    join of its pieces.  A list of parts comes back from its join exactly when
    the delimiter begins nowhere in a part that it follows and does not occur in
    the last part; for a delimiter of one character (the path separator of
    [Entity::findByPath], the lines of a shader description) that is when no
    part contains it. *)
Theorem split_join_roundtrip {C} `{EqDecision C} (d : list C) :
  d <> [] ->
  (forall s, exists ps, split s d = Ret ps /\ join d ps = s)
  /\ (forall ps q, split (join d (ps ++ [q])) d = Ret (ps ++ [q])
                   <-> Forall (separable d) ps /\ delim_free d q)
  /\ (forall c ps, d = [c] -> ps <> [] -> Forall (fun p => c ∉ p) ps -> split (join d ps) d = Ret ps).
Proof.
  intros Hd. split_and!.
  - intros s. destruct (split_loop_tokens d (S (length s)) s []) as (ps & Hps & Heq); [done|lia|].
    exists ps. split; [done|by apply tokens_join].
  - intros ps q. by rewrite split_tokens, tokens_join_iff.
  - intros c ps ->. apply split_join_single.
Qed.

Lemma split_join_roundtrip_witness :
  split (join (str "::") [str "a:"; str "b"]) (str "::") <> Ret [str "a:"; str "b"]
  /\ split (join (str "::") [str "a"; str "b:c"; str ""]) (str "::") = Ret [str "a"; str "b:c"; str ""]
  /\ split (join ["/"%char] [str "root"; str ".."; str "arm"]) ["/"%char]
    = Ret [str "root"; str ".."; str "arm"].
Proof.
  split; [vm_compute; discriminate|]. split.
  - apply (split_join_roundtrip (str "::") ltac:(done)) with (ps := [str "a"; str "b:c"]). split.
    + repeat constructor; by apply (separable_first_occ _ _ []).
    + by apply first_occ_free.
  - apply (split_join_roundtrip ["/"%char] ltac:(done)) with (c := "/"%char); [done|done|]. apply (bool_decide_unpack _). by vm_compute.
Defined.

(** With a longer delimiter a part may not even end in a beginning of it. *)
Example split_join_overlap :
  split (join (str "aa") [str "xa"; str "y"]) (str "aa") = Ret [str "x"; str "ay"].
Proof. reflexivity. Qed.

(** [replace] is [split] on the old text joined with the new text, and so it
    terminates for every non-empty old text, even when the new text contains it. *)
Theorem replace_is_join_split {C} `{EqDecision C} (s old newStr : list C) :
  old <> [] ->
  exists ps, split s old = Ret ps /\ replace s old newStr = Ret (join newStr ps).
Proof.
  intros Hd.
  destruct (split_loop_tokens old (S (length s)) s []) as (ps & Hps & Heq); [done|lia|].
  destruct (replace_loop_tokens old newStr (S (length s)) [] s) as (qs & Hqs & Heq'); [done|lia|].
  exists ps. split; [done|]. rewrite (tokens_functional _ _ _ _ Hps Hqs). exact Heq'.
Qed.

Lemma replace_is_join_split_witness :
  str "ab" <> [] /\
  exists ps, split (str "xabyab") (str "ab") = Ret ps
    /\ replace (str "xabyab") (str "ab") (str "aab") = Ret (join (str "aab") ps).
Proof. split; [done|]. apply replace_is_join_split. done. Defined.

(** [trim] removes from both ends exactly the maximal runs of characters of the
    trim set. *)
Theorem trim_spec (s set : cstring) :
  exists l r, s = l ++ trim s set ++ r
    /\ Forall (fun c => c ∈ set) l /\ Forall (fun c => c ∈ set) r
    /\ (forall c, head (trim s set) = Some c -> c ∉ set)
    /\ (forall c, last (trim s set) = Some c -> c ∉ set).
Proof. apply trim_set_spec. Qed.

(** [endWith] compares the tail of the string when the suffix is not longer than
    it, and throws [std::out_of_range] when it is, because the offset wraps
    below zero. *)
Theorem endWith_spec (s start : cstring) :
  (Z.of_nat (length s) < 2 ^ 63)%Z -> (Z.of_nat (length start) < 2 ^ 63)%Z ->
  endWith s start =
    if decide (length start <= length s)
    then Ret (bool_decide (start `suffix_of` s))
    else Exn OutOfRange.
Proof.
  intros Hs Ht. unfold endWith, compare_at_eq. destruct (decide (length start <= length s)) as [Hle|Hle].
  - rewrite u64_small by lia. rewrite decide_True by lia. f_equal.
    apply bool_decide_ext. rewrite Z2Nat.inj_sub, !Nat2Z.id by lia.
    rewrite take_ge by (rewrite length_drop; lia). split.
    + intros <-. exists (take (length s - length start) s). by rewrite take_drop.
    + intros [k ->]. rewrite length_app.
      replace (length k + length start - length start) with (length k) by lia.
      by rewrite drop_app_length.
  - rewrite decide_False; [done|]. unfold wrapU.
    rewrite <- (Z.mod_unique _ _ (-1) (Z.of_nat (length s) - Z.of_nat (length start) + 2 ^ 64)); lia.
Qed.

Lemma endWith_spec_witness :
  (Z.of_nat (length (str "a")) < 2 ^ 63)%Z /\ (Z.of_nat (length (str ".lua")) < 2 ^ 63)%Z /\
  endWith (str "a") (str ".lua") = Exn OutOfRange.
Proof. split_and!; [done|done|]. rewrite endWith_spec by done. done. Defined.
End StringProps.
