(* ===== verification/FileSystem.v ===== *)
(** * FileSystem: the File class

    Models [FileSystem/File.cpp].  The disk is a map from paths to inodes, a
    [FILE*] is a stream offset, and directories, where they are walked, are
    finite trees in the order the directory iterator visits them. *)

From S2P Require Import Prelude Strings.
From stdpp Require Import base decidable list sets gmap strings.
From Stdlib Require Import Ascii ZArith Lia.
Local Open Scope Z_scope.

Module FileSystem.
Import BasicString StringUtils.

(** ** The disk *)

Abbreviation bytes := (list ascii).
Abbreviation NUL := ("000"%char).

Inductive inode : Type :=
  | IFile (content : bytes)
  | IDir.

Abbreviation disk := (gmap cstring inode).

(** ** class File *)

Inductive FileType : Type :=
  | Normal | Folder | Texture | Model | FBX | OBJ | Text | Script | Dll | Scene
  | MP3 | OGG | AAC | WAV | TTF | C_SHARP.

#[export] Instance FileType_eq_dec : EqDecision FileType.
Proof. solve_decision. Defined.

(** [filePtr] is the stream offset of the open [FILE*], or null; [fileSize] is
    [None] where the constructor leaves the member uninitialised. *)
Record File := mkFile {
  file : cstring;
  filePtr : option nat;
  pos : Z;
  fileSize : option Z
}.

(** [File(file, write)]: ["rb"] measures the file, ["wb+"] truncates it. *)
Definition File_open (d : disk) (path : cstring) (write : bool) : disk * File :=
  if write then
    match d !! path with
    | Some IDir => (d, mkFile path None 0 None)
    | _ => (<[path := IFile []]> d, mkFile path (Some 0%nat) 0 None)
    end
  else
    match d !! path with
    | Some (IFile content) => (d, mkFile path (Some 0%nat) 0 (Some (Z.of_nat (length content))))
    | _ => (d, mkFile path None 0 None)
    end.

(** Bytes written over a file from an offset. *)
Definition overwrite (content new : bytes) (off : nat) : bytes :=
  take off content ++ new ++ drop (off + length new) content.

(** [fwrite] of [new] through the stream of [f]. *)
Definition fwrite (d : disk) (f : File) (new : bytes) : outcome (disk * File) :=
  off ← deref (filePtr f);
  match d !! file f with
  | Some (IFile content) =>
      Ret (<[file f := IFile (overwrite content new off)]> d,
           mkFile (file f) (Some (off + length new)%nat) (pos f) (fileSize f))
  | _ => Exn RuntimeError
  end.

(** [write]: the string and its terminating NUL. *)
Definition File_write (d : disk) (f : File) (s : cstring) : outcome (disk * File) :=
  fwrite d f (s ++ [NUL]).

(** [readBytes]: a zeroed array of [size] bytes, filled by one [fread]. *)
Definition readBytes (d : disk) (f : File) (size : Z) : outcome (bytes * File) :=
  if decide (size < 0) then Exn RuntimeError else
  off ← deref (filePtr f);
  let n := Z.to_nat size in
  let content := match d !! file f with Some (IFile c) => c | _ => [] end in
  let got := take n (drop off content) in
  Ret (got ++ replicate (n - length got) NUL,
       mkFile (file f) (Some (off + length got)%nat) (pos f + size) (fileSize f)).

(** [getBuffer]: [fileSize] is narrowed to the [int32_t] parameter. *)
Definition getBuffer (d : disk) (f : File) : outcome (bytes * File) :=
  size ← deref (fileSize f); readBytes d f (i32 size).

(** [cache]: writes the buffer unless its size is the file's. *)
Definition File_cache (d : disk) (f : File) (buffer : bytes) : outcome (disk * File) :=
  size ← deref (fileSize f);
  if decide (size <> Z.of_nat (length buffer)) then fwrite d f buffer else Ret (d, f).

Definition fileExists (d : disk) (path : cstring) : bool := bool_decide (is_Some (d !! path)).
Definition File_exists (d : disk) (f : File) : bool := fileExists d (file f).

Definition isDirectory (d : disk) (f : File) : outcome bool :=
  match d !! file f with
  | Some IDir => Ret true
  | Some (IFile _) => Ret false
  | None => Exn LogicError
  end.

(** [File::read]: the whole file, or [std::runtime_error]. *)
Definition File_read (d : disk) (name : cstring) : outcome bytes :=
  match d !! name with
  | Some (IFile content) => Ret content
  | _ => Exn RuntimeError
  end.

(** [File::removeExtension]: [erase(npos)] throws when there is no dot. *)
Definition File_removeExtension (path : cstring) : outcome cstring :=
  match path with
  | [] => Ret []
  | _ =>
      match find_last_of ["."%char] path with
      | Some p => Ret (take p path)
      | None => Exn OutOfRange
      end
  end.

(** [File::getFileName]: [npos + 1] is 0. *)
Definition File_getFileName (path : cstring) : cstring :=
  match find_last_of ["/"%char] path with
  | Some p => drop (p + 1) path
  | None => path
  end.

Definition file_types : list (cstring * FileType) :=
  [(str "mp3", MP3); (str "ogg", OGG); (str "wav", WAV); (str "aac", AAC);
   (str "jpg", Texture); (str "png", Texture); (str "tga", Texture);
   (str "lua", Script); (str "cs", C_SHARP);
   (str "glsl", Text); (str "shader", Text); (str "vert", Text); (str "frag", Text); (str "text", Text);
   (str "scene", Scene);
   (str "obj", Model); (str "fbx", Model); (str "glb", Model); (str "gltf", Model);
   (str "dll", Dll); (str "so", Dll)].

Fixpoint assoc_lookup {K V} `{EqDecision K} (k : K) (l : list (K * V)) : option V :=
  match l with
  | [] => None
  | (k', v) :: l' => if decide (k' = k) then Some v else assoc_lookup k l'
  end.

Definition getFileType (path : cstring) : FileType :=
  default Normal (assoc_lookup (toLower (getExtension path)) file_types).

(** ** Directories *)

Inductive fs_tree : Type :=
  | TFile (path : cstring)
  | TDir (path : cstring) (entries : list fs_tree).

Definition tree_path (t : fs_tree) : cstring :=
  match t with TFile p => p | TDir p _ => p end.

(** The directory branch of [listFolder]. *)
Fixpoint list_tree (predict : cstring -> bool) (t : fs_tree) (out : list cstring) : list cstring :=
  match t with
  | TFile _ => out
  | TDir _ entries =>
      fold_left (fun acc it =>
        match it with
        | TDir _ _ => list_tree predict it acc
        | TFile p => if predict p then acc ++ [p] else acc
        end) entries out
  end.

(** [listFolder(path, out, predict)]: [None] is a path that does not exist. *)
Definition listFolder (path : option fs_tree) (out : list cstring) (predict : cstring -> bool) : list cstring :=
  match path with
  | None => out
  | Some t => list_tree predict t out
  end.

(** *** Specification: the regular files of a tree, in visiting order. *)
Fixpoint tree_files (t : fs_tree) : list cstring :=
  match t with
  | TFile p => [p]
  | TDir _ entries => concat (tree_files <$> entries)
  end.

Section TreeInd.
  Variable P : fs_tree -> Prop.
  Hypothesis HFile : forall p, P (TFile p).
  Hypothesis HDir : forall p es, Forall P es -> P (TDir p es).
Fixpoint fs_tree_ind' (t : fs_tree) : P t :=
    match t with
    | TFile p => HFile p
    | TDir p es => HDir p es ((fix go es := match es return Forall P es with
                                            | [] => Forall_nil_2 P
                                            | e :: es' => Forall_cons_2 P e es' (fs_tree_ind' e) (go es')
                                            end) es)
    end.
End TreeInd.

Lemma list_tree_spec predict t out :
  list_tree predict t out =
    match t with TFile _ => out | TDir _ _ => out ++ filter predict (tree_files t) end.
Proof.
  revert out. induction t as [p|p es IH] using fs_tree_ind'; intros out; [done|].
  cbn. revert out. induction IH as [|e es He Hes IH]; intros out; cbn.
  { by rewrite app_nil_r. }
  rewrite IH, filter_app, app_assoc. f_equal. destruct e as [q|q qs].
  - cbn. destruct (predict q); [done | by rewrite app_nil_r].
  - by rewrite He.
Qed.

Lemma overwrite_all new : overwrite [] new 0 = new.
Proof. unfold overwrite. cbn. by rewrite drop_nil, app_nil_r. Qed.

Lemma assoc_lookup_elem {K V} `{EqDecision K} (k : K) (l : list (K * V)) v :
  assoc_lookup k l = Some v -> (k, v) ∈ l.
Proof. induction l as [|[k' v'] l IH]; cbn; [done|]. case_decide; intros; simplify_eq; set_solver. Qed.

(** ** Properties *)

(** Saving a string to a file and reading the file back yields the string
    followed by exactly one NUL, whatever the file held before. *)
Theorem write_getBuffer_roundtrip (d : disk) (path s : cstring) :
  d !! path <> Some IDir ->
  Z.of_nat (length s) < 2 ^ 31 - 1 ->
  exists d' f' f'',
    (let (d1, f1) := File_open d path true in File_write d1 f1 s) = Ret (d', f') /\
    (let (d2, f2) := File_open d' path false in getBuffer d2 f2) = Ret (s ++ [NUL], f'') /\
    (forall q, q <> path -> d' !! q = d !! q).
Proof.
  intros Hd Hs.
  assert (File_open d path true = (<[path := IFile []]> d, mkFile path (Some 0%nat) 0 None)) as ->.
  { unfold File_open. destruct (d !! path) as [[]|]; done. }
  unfold File_write, fwrite. cbn [filePtr file deref]. rewrite bind_Ret, lookup_insert_eq.
  do 3 eexists. split; [done|]. split.
  - unfold File_open. rewrite lookup_insert_eq, overwrite_all.
    unfold getBuffer. cbn [fileSize deref]. rewrite bind_Ret, i32_small
      by (rewrite length_app; cbn; lia).
    unfold readBytes. rewrite decide_False by lia. cbn [filePtr file deref].
    rewrite bind_Ret, lookup_insert_eq, Nat2Z.id, drop_0, firstn_all, Nat.sub_diag.
    cbn [replicate]. by rewrite app_nil_r.
  - intros q Hq. by rewrite !lookup_insert_ne by done.
Qed.

Lemma write_getBuffer_roundtrip_witness :
  exists d' f' f'',
    (let (d1, f1) := File_open ∅ (str "a.scene") true in File_write d1 f1 (str "{}")) = Ret (d', f') /\
    (let (d2, f2) := File_open d' (str "a.scene") false in getBuffer d2 f2) = Ret (str "{}" ++ [NUL], f'') /\
    (forall q, q <> str "a.scene" -> d' !! q = (∅ : disk) !! q).
Proof.
  apply (write_getBuffer_roundtrip ∅ (str "a.scene") (str "{}")); [by vm_compute | vm_compute; done].
Defined.

(** The type of a file and all the [isXFile] predicates ignore the case of the path. *)
Theorem file_kind_case_insensitive (p : cstring) :
  getFileType (toLower p) = getFileType p
  /\ Forall (fun f : cstring -> bool => f (toLower p) = f p)
       [isTextFile; isLuaFile; isAudioFile; isSceneFile; isControllerFile; isModelFile;
        isTextureFile; isCSharpFile].
Proof.
  split.
  - unfold getFileType. by rewrite toLower_getExtension, toLower_idem.
  - repeat constructor; unfold isTextFile, isLuaFile, isAudioFile, isSceneFile, isControllerFile,
      isModelFile, isTextureFile, isCSharpFile, extension_in; by rewrite lowered_extension_toLower.
Qed.

(** [listFolder] appends to [out] the regular files of the tree below the
    directory that satisfy the predicate, each once and in visiting order. *)
Theorem listFolder_files (path : option fs_tree) (out : list cstring) (predict : cstring -> bool) :
  listFolder path out predict =
    match path with
    | Some (TDir p entries) => out ++ filter predict (tree_files (TDir p entries))
    | _ => out
    end.
Proof. destruct path as [[p|p es]|]; cbn [listFolder]; [done | apply list_tree_spec | done]. Qed.

End FileSystem.
