(* ===== verification/Resources.v ===== *)
(** * Resources: caches of loaded objects

    Models [Resources/Resources.h], its instances [TextureCache], [ShaderResource]
    and [MeshResource], and the factories that go through them ([create] of
    Engine/Interface/Texture.cpp and Shader.cpp).  A shared pointer is a number,
    or nothing when it is null.  Construction of an object is a function of the
    name and of the rest of the world, a parameter. *)

From S2P Require Import Prelude Strings.
From stdpp Require Import base decidable list gmap sets strings.
From Stdlib Require Import ZArith Lia.

(** ** The cache (Resources.h) *)
Module Resources.

Abbreviation ptr := (option N).
Abbreviation Cache := (gmap cstring ptr).

Section Cache.
Context {W : Type}.
Implicit Types (id : cstring) (c : Cache) (w : W).

(** Find, or construct and insert; the iterator's value is returned. *)
Definition get (construct : cstring -> W -> outcome (W * N)) id (s : W * Cache) : outcome (W * Cache * ptr) :=
  let '(w, c) := s in
  match c !! id with
  | Some p => Ret (w, c, p)
  | None => '(w, p) ← construct id w; Ret (w, <[id := Some p]> c, Some p)
  end.

(** The same with arguments for the constructor. *)
Definition emplace {Args} (construct : cstring -> Args -> W -> outcome (W * N)) id (args : Args) (s : W * Cache)
    : outcome (W * Cache * ptr) :=
  get (fun id w => construct id args w) id s.

Definition add id (p : ptr) c : Cache := <[id := p]> c.
Definition remove id c : Cache := delete id c.
(** [cache[id]] inserts a null pointer for a missing name. *)
Definition tryGet id c : Cache * ptr :=
  match c !! id with Some p => (c, p) | None => (<[id := None]> c, None) end.
Definition clear c : Cache := ∅.

(** [Texture2D::create], [TextureCube::create] and [Shader::create]: look up, and
    when that gives null, construct and add. *)
Definition create (construct : cstring -> W -> outcome (W * N)) id (s : W * Cache) : outcome (W * Cache * ptr) :=
  let '(w, c) := s in
  let '(c, p) := tryGet id c in
  match p with
  | Some p => Ret (w, c, Some p)
  | None => '(w, p) ← construct id w; Ret (w, add id (Some p) c, Some p)
  end.
End Cache.
End Resources.

(** ** The meshes of a file (MeshResource.cpp) *)
Module MeshResource.

Section MeshResource.
Context {M : Type}.

Record MeshResource := mkMeshResource { meshes : gmap cstring M; name : cstring }.

(** The constructor loads the file of that name. *)
Definition make (load : cstring -> outcome (gmap cstring M)) (n : cstring) : outcome MeshResource :=
  ms ← load n; Ret (mkMeshResource ms n).

(** [emplace] keeps the mesh already there; so both overloads of [addMesh]. *)
Definition addMesh (n : cstring) (m : M) (r : MeshResource) : MeshResource :=
  match meshes r !! n with
  | Some _ => r
  | None => mkMeshResource (<[n := m]> (meshes r)) (name r)
  end.

Definition find (n : cstring) (r : MeshResource) : option M := meshes r !! n.
End MeshResource.
End MeshResource.

(** ** Properties *)
Module ResourceProps.
Import Resources.

Section Once.
Context {W : Type} (construct : cstring -> W -> outcome (W * N)).
Implicit Types (c : Cache) (w : W) (ids : list cstring).

Definition state : Type := W * Cache.

(** A sequence of requests, with the pointers returned. *)
Fixpoint requests (request : cstring -> state -> outcome (W * Cache * ptr)) ids (s : state) : outcome (state * list ptr) :=
  match ids with
  | [] => Ret (s, [])
  | id :: ids => '(w, c, p) ← request id s; '(s, ps) ← requests request ids (w, c); Ret (s, p :: ps)
  end.

(** The names asked for that the cache does not have, once each, in order. *)
Fixpoint missing (c : gset cstring) ids : list cstring :=
  match ids with
  | [] => []
  | id :: ids => if decide (id ∈ c) then missing c ids else id :: missing ({[id]} ∪ c) ids
  end.

(** Constructing every name of a list. *)
Fixpoint construct_all ids w : outcome (W * list N) :=
  match ids with
  | [] => Ret (w, [])
  | id :: ids => '(w, p) ← construct id w; '(w, ps) ← construct_all ids w; Ret (w, p :: ps)
  end.

Definition no_null c : Prop := forall id p, c !! id = Some p -> p <> None.

(** What the cache holds after [us] have been constructed with results [ps]. *)
Definition filled c (us : list cstring) (ps : list N) : Cache := foldl (fun c u => <[u.1 := Some u.2]> c) c (zip us ps).

Lemma no_null_insert c id p : no_null c -> no_null (<[id := Some p]> c).
Proof. intros Hc j q. destruct (decide (j = id)) as [->|Hne]; [rewrite lookup_insert_eq|rewrite lookup_insert_ne by done; apply Hc]. by intros [= <-]. Qed.

(** On a cache without null pointers the two ways of asking agree. *)
Lemma create_get c w id : no_null c -> create construct id (w, c) = get construct id (w, c).
Proof.
  intros Hc. unfold create, get, tryGet, add. destruct (c !! id) as [[p|]|] eqn:E; [done|by destruct (Hc id None E)|].
  destruct (construct id w) as [[w' p]|e]; cbn; [|done]. by rewrite insert_insert_eq.
Qed.

Lemma get_no_null c w id w' c' p : no_null c -> get construct id (w, c) = Ret (w', c', p) -> no_null c'.
Proof.
  intros Hc. unfold get. destruct (c !! id); [by intros [= <- <- <-]|].
  destruct (construct id w) as [[w1 p1]|e]; cbn; [|done]. intros [= <- <- <-]. by apply no_null_insert.
Qed.

Lemma requests_agree ids : forall c w, no_null c -> requests (create construct) ids (w, c) = requests (get construct) ids (w, c).
Proof.
  induction ids as [|id ids IH]; intros c w Hc; cbn [requests]; [done|]. rewrite create_get by done.
  destruct (get construct id (w, c)) as [[[w' c'] p]|e] eqn:E; cbn [mbind outcome_bind]; [|done]. rewrite IH; [done|]. by eapply get_no_null.
Qed.

Lemma filled_other c us ps id : id ∉ us -> filled c us ps !! id = c !! id.
Proof.
  revert c ps. induction us as [|u us IH]; intros c [|p ps] Hid; cbn; [done..|].
  unfold filled in IH. rewrite IH by set_solver. by rewrite lookup_insert_ne by set_solver.
Qed.

Lemma missing_not_in ids : forall (D : gset cstring) id, id ∈ missing D ids -> id ∉ D.
Proof.
  induction ids as [|i ids IH]; intros c id; cbn; [set_solver|]. case_decide; [apply IH|].
  intros [->|Hid]%elem_of_cons; [done|]. apply IH in Hid. set_solver.
Qed.

Lemma get_hit c w id p : c !! id = Some p -> get construct id (w, c) = Ret (w, c, p).
Proof. intros E. cbn. by rewrite E. Qed.

Lemma get_miss c w id : c !! id = None ->
  get construct id (w, c) = ('(w', p) ← construct id w; Ret (w', <[id := Some p]> c, Some p)).
Proof. intros E. cbn. by rewrite E. Qed.

Lemma requests_once ids : forall c w, no_null c ->
  requests (get construct) ids (w, c) =
  ('(w', ps) ← construct_all (missing (dom c) ids) w;
   let c' := filled c (missing (dom c) ids) ps in
   Ret ((w', c'), (fun id => default None (c' !! id)) <$> ids)).
Proof.
  induction ids as [|id ids IH]; intros c w Hc; cbn [requests missing fmap list_fmap]; [done|].
  destruct (decide (id ∈ dom c)) as [Hin|Hnin].
  - apply elem_of_dom in Hin as [p Hp]. rewrite (get_hit c w id p Hp), bind_Ret, IH by done.
    destruct (construct_all (missing (dom c) ids) w) as [[w' ps]|e]; cbn; [|done]. do 3 f_equal.
    rewrite filled_other; [by rewrite Hp|]. intros Hm. apply missing_not_in in Hm. apply Hm, elem_of_dom. by exists p.
  - cbn [construct_all]. rewrite (get_miss c w id) by (by apply not_elem_of_dom_1).
    destruct (construct id w) as [[w1 p]|e]; cbn [mbind outcome_bind]; [|done].
    rewrite IH by (by apply no_null_insert). rewrite dom_insert_L.
    destruct (construct_all (missing ({[id]} ∪ dom c) ids) w1) as [[w' ps]|e]; cbn [mbind outcome_bind]; [|done].
    cbn [filled zip_with foldl fst snd]. do 3 f_equal. change (foldl _ _ (zip _ ps)) with (filled (<[id := Some p]> c) (missing ({[id]} ∪ dom c) ids) ps).
    rewrite filled_other; [by rewrite lookup_insert_eq|]. intros Hm. apply missing_not_in in Hm. set_solver.
Qed.
End Once.

(** C39. Loading once.  From a cache without null pointers, any sequence of requests,
    through [get] or through [create], constructs exactly the names that are
    missing, once each and in the order they are first asked for; each request
    returns what the cache holds for its name in the end, so equal names get
    the same object; a construction that throws is passed on. *)
Theorem requests_load_once {W} (construct : cstring -> W -> outcome (W * N)) (ids : list cstring) (c : Cache) (w : W) : no_null c ->
  requests (get construct) ids (w, c) =
    ('(w', ps) ← construct_all construct (missing (dom c) ids) w;
     let c' := filled c (missing (dom c) ids) ps in
     Ret ((w', c'), (fun id => default None (c' !! id)) <$> ids))
  /\ requests (create construct) ids (w, c) = requests (get construct) ids (w, c).
Proof. intros Hc. split; [by apply requests_once|by apply requests_agree]. Qed.

(** A constructor that numbers its objects and keeps a log. *)
Definition logging (id : cstring) (w : N * list cstring) : outcome (N * list cstring * N) :=
  Ret ((fst w + 1)%N, snd w ++ [id], fst w).

Lemma requests_load_once_witness :
  let a := str "a" in let b := str "b" in
  requests (create logging) [a; b; a; a] (0%N, [], ∅) = requests (get logging) [a; b; a; a] (0%N, [], ∅)
  /\ snd <$> requests (get logging) [a; b; a; a] (0%N, [], ∅) = Ret [Some 0%N; Some 1%N; Some 0%N; Some 0%N].
Proof.
  intros a b. destruct (requests_load_once logging [a; b; a; a] ∅ (0%N, [])) as [H1 H2]; [by intros id p; rewrite lookup_empty|].
  split; [exact H2|]. rewrite H1. by vm_compute.
Defined.

(** [tryGet] poisons the cache: asking for a name that is not there stores a null
    pointer under it, after which [get] and [emplace] return null for that name
    and never construct it; [create] still does. *)
Theorem tryGet_poisons_get {W} (construct : cstring -> W -> outcome (W * N)) (id : cstring) (c : Cache) (w : W) : c !! id = None ->
  let c' := fst (tryGet id c) in
  snd (tryGet id c) = None /\ (forall w', get construct id (w', c') = Ret (w', c', None))
  /\ (forall w', create construct id (w', c') = ('(w', p) ← construct id w'; Ret (w', <[id := Some p]> c', Some p))).
Proof.
  intros E c'. unfold c', tryGet. rewrite E. cbn [fst snd]. split_and!; [done| |].
  - intros w'. cbn. by rewrite lookup_insert_eq.
  - intros w'. unfold create, tryGet. by rewrite lookup_insert_eq.
Qed.

Lemma tryGet_poisons_get_witness :
  let c' := fst (tryGet (str "a") ∅) in get logging (str "a") (0%N, [], c') = Ret (0%N, [], c', None).
Proof. apply (tryGet_poisons_get logging (str "a") ∅ (0%N, [])). done. Defined.
End ResourceProps.
