(* ===== verification/Float32.v ===== *)
(** * Float32: the machine floating-point numbers

    C++ [float] and [double] are the IEEE 754 formats binary32 and binary64 of
    the Standard Library's executable [SpecFloat] model (round to nearest,
    ties to even), with NaN, infinities and signed zeros. *)

From S2P Require Import Prelude.
From stdpp Require Import base decidable list.
From Stdlib Require Import ZArith SpecFloat Lia.

Abbreviation f32 := spec_float.
Abbreviation f64 := spec_float.

Module F32.
Definition add (a b : f32) : f32 := SFadd 24 128 a b.
Definition sub (a b : f32) : f32 := SFsub 24 128 a b.
Definition mul (a b : f32) : f32 := SFmul 24 128 a b.
Definition div (a b : f32) : f32 := SFdiv 24 128 a b.
Definition sqrt (a : f32) : f32 := SFsqrt 24 128 a.
Definition opp (a : f32) : f32 := SFopp a.
Definition abs (a : f32) : f32 := SFabs a.

(** [a < b], [a <= b], [a == b]; all false when an operand is NaN. *)
Definition ltb (a b : f32) : bool := SFltb a b.
Definition leb (a b : f32) : bool := SFleb a b.
Definition eqb (a b : f32) : bool := SFeqb a b.

(** Conversion of an integer, and of a ratio of integers written as a literal. *)
Definition of_Z (z : Z) : f32 := binary_normalize 24 128 z 0 false.
Definition lit (n d : Z) : f32 := div (of_Z n) (of_Z d).

Definition zero : f32 := S754_zero false.
Definition one : f32 := of_Z 1.
Definition infinity : f32 := S754_infinity false.
Definition neg_infinity : f32 := S754_infinity true.

(** [static_cast<int32_t>] and the like: truncation toward zero of a value that
    fits the integer type. *)
Definition to_Z (a : f32) : Z :=
  match a with
  | S754_finite s m e =>
      let v := if (0 <=? e)%Z then (Zpos m * 2 ^ e)%Z else (Zpos m / 2 ^ (- e))%Z in
      if s then (- v)%Z else v
  | _ => 0%Z
  end.
End F32.

Module F64.
Definition add (a b : f64) : f64 := SFadd 53 1024 a b.
Definition sub (a b : f64) : f64 := SFsub 53 1024 a b.
Definition mul (a b : f64) : f64 := SFmul 53 1024 a b.
Definition div (a b : f64) : f64 := SFdiv 53 1024 a b.
Definition of_Z (z : Z) : f64 := binary_normalize 53 1024 z 0 false.

(** Narrowing [double] to [float]. *)
Definition to_f32 (a : f64) : f32 :=
  match a with
  | S754_finite s m e => binary_normalize 24 128 (cond_Zopp s (Zpos m)) e s
  | _ => a
  end.

(** Widening [float] to [double]. *)
Definition of_f32 (a : f32) : f64 :=
  match a with
  | S754_finite s m e => binary_normalize 53 1024 (cond_Zopp s (Zpos m)) e s
  | _ => a
  end.

(** [M_PI]. *)
Definition PI : f64 := S754_finite false 7074237752028440 (-51).
End F64.

(** [glm::vec2], [vec3] and [vec4] as the plain tuples the engine stores. *)
Record vec2 := mkVec2 { v2x : f32; v2y : f32 }.
Record vec3 := mkVec3 { v3x : f32; v3y : f32; v3z : f32 }.
Record vec4 := mkVec4 { v4x : f32; v4y : f32; v4z : f32; v4w : f32 }.

#[export] Instance spec_float_eq_dec : EqDecision spec_float.
Proof. solve_decision. Defined.
#[export] Instance vec2_eq_dec : EqDecision vec2.
Proof. solve_decision. Defined.
#[export] Instance vec3_eq_dec : EqDecision vec3.
Proof. solve_decision. Defined.

(** ** The order of comparisons

    [SFltb] is a strict order on the values that are not NaN, and [SFleb] is its
    complement there.  [key] maps such a value to an integer that carries the
    order for finite values of one format. *)

Lemma SFcompare_antisym a b :
  SFcompare b a = match SFcompare a b with Some c => Some (CompOpp c) | None => None end.
Proof.
  destruct a as [[]|[]| |[] ma ea], b as [[]|[]| |[] mb eb]; try reflexivity;
    cbn; rewrite (Z.compare_antisym ea eb); destruct (ea ?= eb)%Z; cbn; try reflexivity;
    change (Pos.compare_cont Eq mb ma) with (Pos.compare mb ma);
    change (Pos.compare_cont Eq ma mb) with (Pos.compare ma mb);
    rewrite (Pos.compare_antisym ma mb); by destruct (Pos.compare ma mb).
Qed.

Definition is_nan (a : f32) : bool := match a with S754_nan => true | _ => false end.

Lemma SFcompare_defined a b :
  is_nan a = false -> is_nan b = false -> exists c, SFcompare a b = Some c.
Proof.
  destruct a as [[]|[]| |[] ma ea], b as [[]|[]| |[] mb eb]; cbn; intros; try discriminate; eauto;
    destruct (ea ?= eb)%Z; eauto.
Qed.

Lemma ltb_antisym a b : F32.ltb a b = true -> F32.ltb b a = false.
Proof.
  unfold F32.ltb, SFltb. rewrite (SFcompare_antisym a b).
  by destruct (SFcompare a b) as [[]|].
Qed.

(** Off NaN, [b <= a] is the negation of [a < b]. *)
Lemma leb_negb_ltb a b : is_nan a = false -> is_nan b = false -> F32.leb b a = negb (F32.ltb a b).
Proof.
  intros Ha Hb. unfold F32.leb, F32.ltb, SFleb, SFltb. rewrite (SFcompare_antisym a b).
  destruct (SFcompare_defined a b Ha Hb) as [[] ->]; done.
Qed.

Lemma ltb_irrefl a : F32.ltb a a = false.
Proof. destruct (F32.ltb a a) eqn:H; [|done]. by rewrite (ltb_antisym a a H) in H. Qed.

Lemma ltb_nan_l a : F32.ltb S754_nan a = false.
Proof. done. Qed.
Lemma ltb_nan_r a : F32.ltb a S754_nan = false.
Proof. by destruct a as [[]|[]| |[]]. Qed.

(** The order as a lexicographic comparison of integer triples. *)
Definition key (a : f32) : Z * Z * Z :=
  match a with
  | S754_nan => (0, 0, 0)
  | S754_infinity true => (-2, 0, 0)
  | S754_infinity false => (2, 0, 0)
  | S754_zero _ => (0, 0, 0)
  | S754_finite true m e => (-1, - e, Z.neg m)
  | S754_finite false m e => (1, e, Z.pos m)
  end%Z.

Definition key_lt (x y : Z * Z * Z) : Prop :=
  let '(x1, x2, x3) := x in let '(y1, y2, y3) := y in
  (x1 < y1 \/ (x1 = y1 /\ (x2 < y2 \/ (x2 = y2 /\ x3 < y3))))%Z.

Lemma key_lt_trans x y z : key_lt x y -> key_lt y z -> key_lt x z.
Proof. destruct x as [[]], y as [[]], z as [[]]. unfold key_lt. lia. Qed.

Lemma ltb_key a b : is_nan a = false -> is_nan b = false -> F32.ltb a b = true <-> key_lt (key a) (key b).
Proof.
  unfold F32.ltb, SFltb.
  destruct a as [[]|[]| |[] ma ea], b as [[]|[]| |[] mb eb]; cbn; intros; try discriminate;
    try (split; [done | lia]); try (split; [lia | done]);
    change (Pos.compare_cont Eq ma mb) with (Pos.compare ma mb);
    destruct (Z.compare_spec ea eb); subst; try (destruct (Pos.compare_spec ma mb); subst; cbn);
    (split; [try done; lia | try done; lia]).
Qed.

Lemma ltb_trans a b c : F32.ltb a b = true -> F32.ltb b c = true -> F32.ltb a c = true.
Proof.
  intros H1 H2.
  assert (is_nan a = false) as Ha by (destruct a as [[]|[]| |[]]; done).
  assert (is_nan b = false) as Hb by (destruct b as [[]|[]| |[]]; done).
  assert (is_nan c = false) as Hc.
  { destruct c as [[]|[]| |[]]; try done. by rewrite ltb_nan_r in H2. }
  apply ltb_key in H1, H2; try done. apply ltb_key; try done. by eapply key_lt_trans.
Qed.

Lemma ltb_cotrans a b c :
  is_nan a = false -> is_nan b = false -> is_nan c = false ->
  F32.ltb a b = false -> F32.ltb b c = false -> F32.ltb a c = false.
Proof.
  intros Ha Hb Hc H1 H2. destruct (F32.ltb a c) eqn:H3; [|done].
  apply not_true_iff_false in H1, H2. rewrite ltb_key in H1, H2, H3 by done.
  destruct (key a) as [[]], (key b) as [[]], (key c) as [[]]. unfold key_lt in *. lia.
Qed.

(** ** Small integers are exact

    An integer below 2^24 converts to the float of the same value, so float
    comparisons of such loop bounds are integer comparisons. *)

(** ** Equality: an equivalence on the numbers, false on NaN. *)

Lemma eqb_not_nan a b : F32.eqb a b = true -> is_nan a = false /\ is_nan b = false.
Proof. by destruct a as [[]|[]| |[]], b as [[]|[]| |[]]. Qed.

Lemma eqb_ltb a b : is_nan a = false -> is_nan b = false -> F32.eqb a b = negb (F32.ltb a b) && negb (F32.ltb b a).
Proof.
  intros Ha Hb. unfold F32.eqb, F32.ltb, SFeqb, SFltb. rewrite (SFcompare_antisym a b).
  destruct (SFcompare_defined a b Ha Hb) as [[] ->]; done.
Qed.

Lemma eqb_refl a : is_nan a = false -> F32.eqb a a = true.
Proof. intros Ha. by rewrite eqb_ltb, ltb_irrefl. Qed.

Lemma eqb_sym a b : F32.eqb a b = true -> F32.eqb b a = true.
Proof. intros H. destruct (eqb_not_nan a b H). rewrite eqb_ltb in * by done. by rewrite andb_comm. Qed.

Lemma eqb_trans a b c : F32.eqb a b = true -> F32.eqb b c = true -> F32.eqb a c = true.
Proof.
  intros H1 H2. destruct (eqb_not_nan a b H1), (eqb_not_nan b c H2).
  rewrite eqb_ltb in * by done. apply andb_true_iff in H1 as [H1 H1'], H2 as [H2 H2']. rewrite negb_true_iff in *.
  by rewrite (ltb_cotrans a b c), (ltb_cotrans c b a).
Qed.

Lemma digits2_pos_bounds p : (2 ^ (Z.pos (digits2_pos p) - 1) <= Z.pos p < 2 ^ Z.pos (digits2_pos p))%Z.
Proof.
  induction p as [p IH|p IH|]; cbn [digits2_pos]; [| |cbn; lia];
    rewrite Pos2Z.inj_succ, Z.sub_succ_l, !Z.pow_succ_r by lia; lia.
Qed.

Lemma iter_xO p n : Z.pos (Pos.iter xO p n) = (Z.pos p * 2 ^ Z.pos n)%Z.
Proof.
  induction n as [|n IH] using Pos.peano_ind; [cbn; lia|].
  rewrite Pos.iter_succ, Pos2Z.inj_xO, IH, Pos2Z.inj_succ, Z.pow_succ_r by lia. lia.
Qed.

Lemma digits2_pos_unique p d : (2 ^ (d - 1) <= Z.pos p < 2 ^ d)%Z -> Z.pos (digits2_pos p) = d.
Proof.
  intros Hp. pose proof (digits2_pos_bounds p) as Hb.
  assert (0 < d)%Z by (destruct (Z.le_gt_cases d 0); [destruct (Z.eq_dec d 0) as [->|]; [cbn in Hp; lia|rewrite (Z.pow_neg_r 2 d) in Hp; lia]|lia]).
  destruct (Z.lt_trichotomy (Z.pos (digits2_pos p)) d) as [H1|[H1|H1]]; [|done|].
  - assert (2 ^ Z.pos (digits2_pos p) <= 2 ^ (d - 1))%Z by (apply Z.pow_le_mono_r; lia). lia.
  - assert (2 ^ d <= 2 ^ (Z.pos (digits2_pos p) - 1))%Z by (apply Z.pow_le_mono_r; lia). lia.
Qed.

(** The canonical form of a small positive integer. *)
Lemma of_Z_pos p : (Z.pos p < 2 ^ 24)%Z ->
  exists m, F32.of_Z (Z.pos p) = S754_finite false m (Z.pos (digits2_pos p) - 24)
            /\ Z.pos m = (Z.pos p * 2 ^ (24 - Z.pos (digits2_pos p)))%Z.
Proof.
  intros Hp. set (d := Z.pos (digits2_pos p)). pose proof (digits2_pos_bounds p) as Hb. fold d in Hb.
  assert (d <= 24)%Z as Hd.
  { destruct (Z.le_gt_cases d 24); [done|]. assert (2 ^ 24 <= 2 ^ (d - 1))%Z by (apply Z.pow_le_mono_r; lia). lia. }
  assert (exists m, shl_align p 0 (fexp 24 128 (d + 0)) = (m, (d - 24)%Z) /\ Z.pos m = (Z.pos p * 2 ^ (24 - d))%Z)
    as (m & Hshl & Hm).
  { assert (fexp 24 128 (d + 0) = d - 24)%Z as -> by (unfold fexp, emin; lia).
    unfold shl_align. rewrite Z.sub_0_r. destruct (d - 24)%Z as [|q|q] eqn:E; [|lia|].
    - exists p. replace (24 - d)%Z with 0%Z by lia. rewrite Z.mul_1_r. done.
    - exists (Pos.iter xO p q). rewrite iter_xO. by replace (24 - d)%Z with (Z.pos q) by lia. }
  assert (Z.pos (digits2_pos m) = 24%Z) as Hdm.
  { apply digits2_pos_unique. rewrite Hm.
    assert (2 ^ 24 = 2 ^ d * 2 ^ (24 - d))%Z as -> by (rewrite <- Z.pow_add_r by lia; f_equal; lia).
    replace (24 - 1)%Z with ((d - 1) + (24 - d))%Z by lia. rewrite Z.pow_add_r by lia.
    assert (0 < 2 ^ (24 - d))%Z by (apply Z.pow_pos_nonneg; lia). nia. }
  exists m. split; [|done].
  cbn -[binary_round]. unfold binary_round. fold d. rewrite Hshl. unfold binary_round_aux, shr_fexp. cbn [Zdigits2].
  rewrite Hdm. assert (fexp 24 128 (24 + (d - 24)) - (d - 24) = 0)%Z as -> by (unfold fexp, emin; lia).
  cbn [shr shr_record_of_loc shr_m loc_of_shr_record round_nearest_even Zdigits2].
  rewrite Hdm. assert (fexp 24 128 (24 + (d - 24)) - (d - 24) = 0)%Z as -> by (unfold fexp, emin; lia).
  cbn [shr shr_record_of_loc shr_m]. by assert ((d - 24 <=? 128 - 24)%Z = true) as -> by lia.
Qed.

Lemma of_Z_ltb a b : (0 <= a < 2 ^ 24)%Z -> (0 <= b < 2 ^ 24)%Z -> F32.ltb (F32.of_Z a) (F32.of_Z b) = (a <? b)%Z.
Proof.
  intros Ha Hb. destruct a as [|p|p], b as [|q|q]; try lia; try done.
  - destruct (of_Z_pos q) as (m & -> & _); [lia|]. done.
  - destruct (of_Z_pos p) as (m & -> & _); [lia|]. done.
  - destruct (of_Z_pos p) as (m & -> & Hm); [lia|]. destruct (of_Z_pos q) as (n & -> & Hn); [lia|].
    pose proof (digits2_pos_bounds p). pose proof (digits2_pos_bounds q).
    set (d := Z.pos (digits2_pos p)) in *. set (d' := Z.pos (digits2_pos q)) in *.
    apply eq_bool_prop_intro. rewrite Is_true_true, Is_true_true, (ltb_key (S754_finite false m _)) by done.
    rewrite Z.ltb_lt. cbn [key key_lt].
    destruct (Z.lt_trichotomy d d') as [Hlt|[Heq|Hgt]].
    + assert (2 ^ d <= 2 ^ (d' - 1))%Z by (apply Z.pow_le_mono_r; lia). lia.
    + rewrite <- Heq in *. assert (0 < 2 ^ (24 - d))%Z.
      { apply Z.pow_pos_nonneg; [lia|]. destruct (Z.le_gt_cases d 24); [lia|].
        assert (2 ^ 24 <= 2 ^ (d - 1))%Z by (apply Z.pow_le_mono_r; lia). lia. }
      nia.
    + assert (2 ^ d' <= 2 ^ (d - 1))%Z by (apply Z.pow_le_mono_r; lia). lia.
Qed.

Lemma of_Z_not_nan a : (0 <= a < 2 ^ 24)%Z -> is_nan (F32.of_Z a) = false.
Proof. intros Ha. destruct a as [|p|p]; try lia; [done|]. by destruct (of_Z_pos p) as (m & -> & _); [lia|]. Qed.

Lemma of_Z_leb a b : (0 <= a < 2 ^ 24)%Z -> (0 <= b < 2 ^ 24)%Z -> F32.leb (F32.of_Z a) (F32.of_Z b) = (a <=? b)%Z.
Proof.
  intros Ha Hb. rewrite leb_negb_ltb, of_Z_ltb by (done || by apply of_Z_not_nan).
  by rewrite Z.ltb_antisym, negb_involutive.
Qed.

(** Converting back is exact. *)
Lemma to_of_Z a : (0 <= a < 2 ^ 24)%Z -> F32.to_Z (F32.of_Z a) = a.
Proof.
  intros Ha. destruct a as [|p|p]; try lia; [done|]. destruct (of_Z_pos p) as (m & -> & Hm); [lia|].
  pose proof (digits2_pos_bounds p) as Hb. set (d := Z.pos (digits2_pos p)) in *.
  assert (d <= 24)%Z as Hd.
  { destruct (Z.le_gt_cases d 24); [done|]. assert (2 ^ 24 <= 2 ^ (d - 1))%Z by (apply Z.pow_le_mono_r; lia). lia. }
  cbn [F32.to_Z]. rewrite Hm. destruct (0 <=? d - 24)%Z eqn:E.
  - replace d with 24%Z by lia. cbn. lia.
  - replace (- (d - 24))%Z with (24 - d)%Z by lia. apply Z.div_mul. apply Z.pow_nonzero; lia.
Qed.

(** ** Sums of small integers are exact *)

Lemma shr_exact n : forall p, iter_pos shr_1 n (Build_shr_record (Z.pos (Pos.iter xO p n)) false false) = Build_shr_record (Z.pos p) false false.
Proof.
  induction n as [n IH|n IH|]; intros p; cbn [iter_pos]; [| |done].
  - assert (Pos.iter xO p n~1 = xO (Pos.iter xO (Pos.iter xO p n) n)) as -> by done. cbn [shr_1 orb]. by rewrite !IH.
  - assert (Pos.iter xO p n~0 = Pos.iter xO (Pos.iter xO p n) n) as -> by done. by rewrite !IH.
Qed.

(** Rounding an integer below 2^24 given with any exponent that is not positive. *)
Lemma binary_round_int s m e p : (e <= 0)%Z -> (Z.pos p < 2 ^ 24)%Z -> Z.pos m = (Z.pos p * 2 ^ (- e))%Z ->
  exists q, binary_round 24 128 s m e = S754_finite s q (Z.pos (digits2_pos p) - 24)
            /\ Z.pos q = (Z.pos p * 2 ^ (24 - Z.pos (digits2_pos p)))%Z.
Proof.
  intros He Hp Hm. set (d := Z.pos (digits2_pos p)). pose proof (digits2_pos_bounds p) as Hb. fold d in Hb.
  assert (1 <= d <= 24)%Z as Hd.
  { split; [unfold d; lia|]. destruct (Z.le_gt_cases d 24); [done|]. assert (2 ^ 24 <= 2 ^ (d - 1))%Z by (apply Z.pow_le_mono_r; lia). lia. }
  assert (Z.pos (digits2_pos m) = d - e)%Z as Hdm.
  { apply digits2_pos_unique. rewrite Hm. replace (d - e - 1)%Z with ((d - 1) + - e)%Z by lia. replace (d - e)%Z with (d + - e)%Z by lia.
    rewrite !Z.pow_add_r by lia. assert (0 < 2 ^ (- e))%Z by (apply Z.pow_pos_nonneg; lia). nia. }
  assert (exists q, Z.pos q = Z.pos p * 2 ^ (24 - d))%Z as (q & Hq).
  { assert (0 < Z.pos p * 2 ^ (24 - d))%Z as H by (assert (0 < 2 ^ (24 - d))%Z by (apply Z.pow_pos_nonneg; lia); lia).
    exists (Z.to_pos (Z.pos p * 2 ^ (24 - d))). by rewrite Z2Pos.id. }
  assert (Z.pos (digits2_pos q) = 24%Z) as Hdq.
  { apply digits2_pos_unique. rewrite Hq.
    assert (2 ^ 24 = 2 ^ d * 2 ^ (24 - d))%Z as -> by (rewrite <- Z.pow_add_r by lia; f_equal; lia).
    replace (24 - 1)%Z with ((d - 1) + (24 - d))%Z by lia. rewrite Z.pow_add_r by lia.
    assert (0 < 2 ^ (24 - d))%Z by (apply Z.pow_pos_nonneg; lia). nia. }
  exists q. split; [|done]. unfold binary_round. rewrite Hdm. assert (fexp 24 128 (d - e + e) = d - 24)%Z as -> by (unfold fexp, emin; lia).
  assert (binary_round_aux 24 128 s (Z.pos q) (d - 24) loc_Exact = S754_finite s q (d - 24)) as Hfin.
  { unfold binary_round_aux, shr_fexp. cbn [Zdigits2]. rewrite Hdq.
    assert (fexp 24 128 (24 + (d - 24)) - (d - 24) = 0)%Z as E0 by (unfold fexp, emin; lia). rewrite E0.
    cbn [shr shr_record_of_loc shr_m loc_of_shr_record round_nearest_even Zdigits2]. rewrite Hdq, E0.
    cbn [shr shr_record_of_loc shr_m]. by assert ((d - 24 <=? 128 - 24)%Z = true) as -> by lia. }
  unfold shl_align. destruct (d - 24 - e)%Z as [|n|n] eqn:E.
  - assert (m = q) as -> by (assert (Z.pos m = Z.pos q)%Z by (rewrite Hm, Hq; do 2 f_equal; lia); congruence).
    replace e with (d - 24)%Z by lia. done.
  - assert (m = Pos.iter xO q n) as ->.
    { assert (Z.pos m = Z.pos (Pos.iter xO q n)); [|congruence]. rewrite iter_xO, Hm, Hq, <- Z.mul_assoc, <- Z.pow_add_r by lia. do 2 f_equal. lia. }
    unfold binary_round_aux, shr_fexp. cbn [Zdigits2]. rewrite Hdm.
    assert (fexp 24 128 (d - e + e) - e = Z.pos n)%Z as -> by (unfold fexp, emin; lia).
    cbn [shr shr_record_of_loc]. rewrite shr_exact. cbn [shr_m loc_of_shr_record round_nearest_even].
    replace (e + Z.pos n)%Z with (d - 24)%Z by lia. revert Hfin. unfold binary_round_aux, shr_fexp. cbn [Zdigits2]. rewrite Hdq.
    assert (fexp 24 128 (24 + (d - 24)) - (d - 24) = 0)%Z as E0 by (unfold fexp, emin; lia). rewrite E0.
    cbn [shr shr_record_of_loc shr_m loc_of_shr_record round_nearest_even Zdigits2]. rewrite Hdq, E0. done.
  - assert (Pos.iter xO m n = q) as ->; [|done].
    assert (Z.pos (Pos.iter xO m n) = Z.pos q); [|congruence]. rewrite iter_xO, Hm, Hq, <- Z.mul_assoc, <- Z.pow_add_r by lia. do 2 f_equal. lia.
Qed.

Lemma normalize_int M e z : (e <= 0)%Z -> (- 2 ^ 24 < z < 2 ^ 24)%Z -> M = (z * 2 ^ (- e))%Z -> binary_normalize 24 128 M e false = F32.of_Z z.
Proof.
  intros He Hz ->. assert (0 < 2 ^ (- e))%Z as Hpow by (apply Z.pow_pos_nonneg; lia). unfold F32.of_Z.
  destruct z as [|p|p]; [done| |].
  - destruct (Z.pos p * 2 ^ (- e))%Z as [|m|m] eqn:E; [lia| |lia]. cbn [binary_normalize].
    destruct (binary_round_int false m e p) as (q & -> & Hq); [lia..|]. destruct (binary_round_int false p 0 p) as (q' & -> & Hq'); [lia..|].
    do 2 f_equal. congruence.
  - destruct (Z.neg p * 2 ^ (- e))%Z as [|m|m] eqn:E; [lia|lia|]. cbn [binary_normalize].
    destruct (binary_round_int true m e p) as (q & -> & Hq); [lia..|]. destruct (binary_round_int true p 0 p) as (q' & -> & Hq'); [lia..|].
    do 2 f_equal. congruence.
Qed.

(** The canonical form of a small integer other than zero. *)
Lemma of_Z_finite z : z <> 0%Z -> (- 2 ^ 24 < z < 2 ^ 24)%Z ->
  exists s m e, F32.of_Z z = S754_finite s m e /\ (-23 <= e <= 0)%Z /\ cond_Zopp s (Z.pos m) = (z * 2 ^ (- e))%Z.
Proof.
  intros Hz Hb. assert (forall p, (Z.pos p < 2 ^ 24)%Z -> (1 <= Z.pos (digits2_pos p) <= 24)%Z) as Hd.
  { intros p Hp. pose proof (digits2_pos_bounds p). split; [lia|]. destruct (Z.le_gt_cases (Z.pos (digits2_pos p)) 24); [done|].
    assert (2 ^ 24 <= 2 ^ (Z.pos (digits2_pos p) - 1))%Z by (apply Z.pow_le_mono_r; lia). lia. }
  unfold F32.of_Z. destruct z as [|p|p]; [done| |]; cbn [binary_normalize].
  - destruct (binary_round_int false p 0 p) as (q & -> & Hq); [lia..|]. pose proof (Hd p ltac:(lia)). eexists _, _, _. split; [done|]. split; [lia|].
    cbn. rewrite Hq. do 2 f_equal. lia.
  - destruct (binary_round_int true p 0 p) as (q & -> & Hq); [lia..|]. pose proof (Hd p ltac:(lia)). eexists _, _, _. split; [done|]. split; [lia|].
    cbn. change (Z.neg q) with (- Z.pos q)%Z. rewrite Hq. change (Z.neg p) with (- Z.pos p)%Z. rewrite Z.mul_opp_l. do 3 f_equal. lia.
Qed.

Lemma shl_align_fst m e e' : (e' <= e)%Z -> Z.pos (fst (shl_align m e e')) = (Z.pos m * 2 ^ (e - e'))%Z.
Proof.
  intros H. unfold shl_align. destruct (e' - e)%Z as [|n|n] eqn:E; cbn [fst]; [|lia|].
  - replace (e - e')%Z with 0%Z by lia. lia.
  - rewrite iter_xO. do 2 f_equal. lia.
Qed.

Lemma aligned s m e e' z : (e' <= e <= 0)%Z -> cond_Zopp s (Z.pos m) = (z * 2 ^ (- e))%Z ->
  cond_Zopp s (Z.pos (fst (shl_align m e e'))) = (z * 2 ^ (- e'))%Z.
Proof.
  intros He Hm. rewrite shl_align_fst by lia. replace (2 ^ (- e'))%Z with (2 ^ (- e) * 2 ^ (e - e'))%Z by (rewrite <- Z.pow_add_r by lia; f_equal; lia).
  rewrite Z.mul_assoc, <- Hm. destruct s; unfold cond_Zopp; lia.
Qed.

Definition small (z : Z) : Prop := (- 2 ^ 24 < z < 2 ^ 24)%Z.

Lemma of_Z_opp z : small z -> z <> 0%Z -> F32.opp (F32.of_Z z) = F32.of_Z (- z).
Proof.
  intros Hz Hnz. unfold small, F32.of_Z, F32.opp in *. destruct z as [|p|p]; [done|change (- Z.pos p)%Z with (Z.neg p)|change (- Z.neg p)%Z with (Z.pos p)]; cbn [binary_normalize].
  - destruct (binary_round_int false p 0 p) as (q & -> & Hq); [lia..|]. destruct (binary_round_int true p 0 p) as (q' & -> & Hq'); [lia..|].
    cbn. do 2 f_equal. congruence.
  - destruct (binary_round_int false p 0 p) as (q & -> & Hq); [lia..|]. destruct (binary_round_int true p 0 p) as (q' & -> & Hq'); [lia..|].
    cbn. do 2 f_equal. congruence.
Qed.

Lemma of_Z_sub a b : small a -> small b -> small (a - b) -> F32.sub (F32.of_Z a) (F32.of_Z b) = F32.of_Z (a - b).
Proof.
  intros Ha Hb Hab. destruct (Z.eq_dec a 0) as [->|Hna], (Z.eq_dec b 0) as [->|Hnb]; [done| | |].
  - rewrite Z.sub_0_l, <- of_Z_opp by done. destruct (of_Z_finite b Hnb Hb) as (s & m & e & -> & _). done.
  - rewrite Z.sub_0_r. destruct (of_Z_finite a Hna Ha) as (s & m & e & -> & _). done.
  - destruct (of_Z_finite a Hna Ha) as (s & m & e & Ea & He & Hm). destruct (of_Z_finite b Hnb Hb) as (s' & m' & e' & Eb & He' & Hm').
    rewrite Ea, Eb. unfold F32.sub. cbn [SFsub]. apply normalize_int; [lia|done|].
    rewrite (aligned s m e _ a), (aligned s' m' e' _ b) by (done || lia). lia.
Qed.

Lemma of_Z_add a b : small a -> small b -> small (a + b) -> F32.add (F32.of_Z a) (F32.of_Z b) = F32.of_Z (a + b).
Proof.
  intros Ha Hb Hab. destruct (Z.eq_dec a 0) as [->|Hna], (Z.eq_dec b 0) as [->|Hnb]; [done| | |].
  - rewrite Z.add_0_l. destruct (of_Z_finite b Hnb Hb) as (s & m & e & -> & _). done.
  - rewrite Z.add_0_r. destruct (of_Z_finite a Hna Ha) as (s & m & e & -> & _). done.
  - destruct (of_Z_finite a Hna Ha) as (s & m & e & Ea & He & Hm). destruct (of_Z_finite b Hnb Hb) as (s' & m' & e' & Eb & He' & Hm').
    rewrite Ea, Eb. unfold F32.add. cbn [SFadd]. apply normalize_int; [lia|done|].
    rewrite (aligned s m e _ a), (aligned s' m' e' _ b) by (done || lia). lia.
Qed.

(** ** Signs

    A number that is converted, or divided by a positive one, keeps its sign. *)

(** Not above zero, and not NaN. *)
Definition nonpos (x : f32) : Prop := match x with S754_zero _ | S754_infinity true | S754_finite true _ _ => True | _ => False end.

Lemma shr_nonneg m e n : (0 <= shr_m m)%Z -> (0 <= shr_m (fst (shr m e n)))%Z.
Proof.
  intros Hm. unfold shr. destruct n as [|p|]; cbn [fst]; [done| |done].
  revert m Hm. induction p as [p IH|p IH|]; intros m Hm; cbn [iter_pos]; [apply IH, IH|apply IH, IH, Hm|];
    destruct m as [[|[q|q|]|q] r s]; cbn in *; lia.
Qed.

Lemma round_nonneg m l : (0 <= m)%Z -> (0 <= round_nearest_even m l)%Z.
Proof. intros. unfold round_nearest_even. destruct l as [|[]]; [lia|destruct (Z.even m); lia|lia|lia]. Qed.

Lemma binary_round_aux_nonpos m e l : (0 <= m)%Z -> nonpos (binary_round_aux 24 128 true m e l).
Proof.
  intros Hm. unfold binary_round_aux, shr_fexp.
  assert (0 <= shr_m (shr_record_of_loc m l))%Z as H0 by (by destruct l as [|[]]).
  pose proof (shr_nonneg _ e (fexp 24 128 (Zdigits2 m + e) - e) H0) as H1.
  destruct (shr (shr_record_of_loc m l) e _) as [m1 e1]. cbn [fst] in H1.
  pose proof (round_nonneg _ (loc_of_shr_record m1) H1) as H2. set (m2 := round_nearest_even _ _) in *.
  pose proof (shr_nonneg (shr_record_of_loc m2 loc_Exact) e1 (fexp 24 128 (Zdigits2 m2 + e1) - e1) H2) as H3.
  destruct (shr (shr_record_of_loc m2 loc_Exact) e1 _) as [m3 e3]. cbn [fst] in H3.
  destruct (shr_m m3) as [|p|p]; [done| |lia]. by destruct (e3 <=? 128 - 24)%Z.
Qed.

Lemma of_Z_nonpos z : (z <= 0)%Z -> nonpos (F32.of_Z z).
Proof.
  intros Hz. unfold F32.of_Z. destruct z as [|p|p]; [done|lia|]. cbn [binary_normalize]. unfold binary_round.
  destruct (shl_align p 0 _) as [m e]. by apply binary_round_aux_nonpos.
Qed.

Lemma div_nonpos a m e : nonpos a -> nonpos (F32.div a (S754_finite false m e)).
Proof.
  unfold F32.div. destruct a as [s|[]| |[] ma ea]; try done. intros _. cbn [SFdiv xorb]. unfold SFdiv_core_binary.
  cbv zeta. set (m' := match _ with Z0 => _ | Zpos _ => _ | Zneg _ => _ end).
  assert (0 <= m')%Z as Hm by (unfold m'; destruct (_ - _)%Z; [lia|apply Z.shiftl_nonneg; lia|lia]).
  destruct (Z.div_eucl m' (Z.pos m)) as [q r] eqn:E. apply binary_round_aux_nonpos.
  replace q with (m' / Z.pos m)%Z by (unfold Z.div; by rewrite E). by apply Z.div_pos.
Qed.

Lemma nonpos_ltb a m e : nonpos a -> F32.ltb a (S754_finite false m e) = true.
Proof. by destruct a as [[]|[]| |[]]. Qed.
