(* ===== verification/GpuBuffers.v ===== *)
(** * GpuBuffers: memory shared with the graphics device

    Models [Engine/Vulkan/VulkanBuffer.*], [VertexBuffer.*], [IndexBuffer.*],
    [VulkanUniformBuffer.*], [VulkanDescriptorSet.*] and
    [Engine/Interface/BufferLayout.*].  Device memory is a list of cells, a cell
    being a byte or, for a buffer of vertices, a vertex; [None] is memory nobody
    has written.  What the Vulkan calls do is what their specification says of
    valid use; a call it forbids is [Exn LogicError]. *)

From S2P Require Import Prelude.
From stdpp Require Import base decidable list gmap.
From Stdlib Require Import ZArith Lia.
Local Open Scope Z_scope.

(** ** Buffers (VulkanBuffer.cpp) *)
Module VulkanBuffer.

(** A mapping names the allocation it was made of: freeing the allocation
    leaves the pointer dangling. *)
Record Mapping := mkMapping { of_memory : N; map_offset : Z; map_size : Z }.

Record Buffer (A : Type) := mkBuffer {
  memory : N;                    (* which allocation *)
  cells : list (option A);       (* its contents *)
  size : Z;
  mapped : option Mapping
}.
Arguments mkBuffer {A}.
Arguments memory {A}.
Arguments cells {A}.
Arguments size {A}.
Arguments mapped {A}.

Section Buffer.
Context {A : Type}.
Abbreviation Buf := (Buffer A).

(** No allocation yet: the constructor without arguments. *)
Definition buffer0 : Buf := mkBuffer 0 [] 0 None.

Definition with_cells (c : list (option A)) (b : Buf) : Buf := mkBuffer (memory b) c (size b) (mapped b).
Definition with_mapped (m : option Mapping) (b : Buf) : Buf := mkBuffer (memory b) (cells b) (size b) m.
Definition with_size (n : Z) (b : Buf) : Buf := mkBuffer (memory b) (cells b) n (mapped b).

(** The memory of the mapping is the buffer's. *)
Definition live (b : Buf) : bool :=
  match mapped b with Some m => bool_decide (of_memory m = memory b) | None => false end.

(** [vkMapMemory]: the memory must not be mapped, the range must be inside it. *)
Definition map_range (n offset : Z) (b : Buf) : outcome Buf :=
  if live b || (offset <? 0) || (n <? 0) || (Z.of_nat (length (cells b)) <? offset + n) then Exn LogicError
  else Ret (with_mapped (Some (mkMapping (memory b) offset n)) b).
(** The default arguments: [VK_WHOLE_SIZE] from 0. *)
Definition map_ (b : Buf) : outcome Buf := map_range (Z.of_nat (length (cells b))) 0 b.

Definition unmap (b : Buf) : outcome Buf :=
  match mapped b with
  | None => Ret b
  | Some _ => if live b then Ret (with_mapped None b) else Exn LogicError
  end.

(** [vkFlushMappedMemoryRanges] and [vkInvalidateMappedMemoryRanges]: the memory is
    host coherent, so they change no contents; it must be mapped. *)
Definition flush (n offset : Z) (b : Buf) : outcome Buf := if live b then Ret b else Exn LogicError.
Definition invalidate (n offset : Z) (b : Buf) : outcome Buf := if live b then Ret b else Exn LogicError.

(** Overwriting part of a list. *)
Fixpoint overwrite {T} (i : nat) (d l : list T) : list T :=
  match i, l with
  | O, _ => d ++ drop (length d) l
  | S i, x :: l => x :: overwrite i d l
  | S i, [] => []
  end.

(** [memcpy] to the mapped pointer plus [dst]: inside the mapped range only. *)
Definition memcpy (dst : Z) (data : list A) (b : Buf) : outcome Buf :=
  match mapped b with
  | None => Exn NullDeref
  | Some m =>
    if negb (live b) then Exn NullDeref
    else if (dst <? 0) || (map_size m <? dst + Z.of_nat (length data)) then Exn OutOfBounds
    else Ret (with_cells (overwrite (Z.to_nat (map_offset m + dst)) (Some <$> data) (cells b)) b)
  end.

(** The [size] first elements of what a pointer points to. *)
Definition read (n : Z) (data : list A) : outcome (list A) :=
  if Z.of_nat (length data) <? n then Exn OutOfBounds else Ret (take (Z.to_nat n) data).

Definition setData (n : Z) (data : list A) (offset : Z) (b : Buf) : outcome Buf :=
  b ← map_range n offset b; d ← read n data; b ← memcpy offset d b; unmap b.

(** A new allocation; [mapped] keeps its value. *)
Definition init (n : Z) (data : option (list A)) (b : Buf) : outcome Buf :=
  let b := mkBuffer (N.succ (memory b)) (replicate (Z.to_nat n) None) n (mapped b) in
  match data with Some d => setData n d 0 b | None => Ret b end.

(** [release] frees the memory and resets nothing. *)
Definition resize (n : Z) (data : option (list A)) (b : Buf) : outcome Buf := init n data b.

(** The constructor with data, and the uniform buffer's. *)
Definition make (n : Z) (data : option (list A)) : outcome Buf := init n data (with_size n buffer0).

(** VulkanUniformBuffer.cpp *)
Definition setDynamicData (n typeSize : Z) (data : list A) (b : Buf) : outcome Buf :=
  b ← map_ b; d ← read n data; b ← memcpy 0 d b; b ← flush n 0 b; unmap b.

(** The cells of a range, when all have been written. *)
Definition contents (b : Buf) : option (list A) := mapM id (cells b).
End Buffer.
End VulkanBuffer.

(** ** Vertex buffers (VertexBuffer.cpp) *)
Module VertexBuffer.
Import VulkanBuffer.

Record VertexBuffer (A : Type) := mkVertexBuffer { base : Buffer A; mappedBuffer : bool }.
Arguments mkVertexBuffer {A}.
Arguments base {A}.
Arguments mappedBuffer {A}.

Section VertexBuffer.
Context {A : Type}.
Abbreviation VB := (VertexBuffer A).

Definition create : VB := mkVertexBuffer buffer0 false.

Definition resize (n : Z) (data : option (list A)) (v : VB) : outcome VB :=
  b ← VulkanBuffer.resize n data (base v); Ret (mkVertexBuffer b (mappedBuffer v)).

Definition setData (n : Z) (data : list A) (v : VB) : outcome VB :=
  if n =? size (base v)
  then b ← VulkanBuffer.setData n data 0 (base v); Ret (mkVertexBuffer b (mappedBuffer v))
  else b ← VulkanBuffer.resize n (Some data) (with_size n (base v)); Ret (mkVertexBuffer b (mappedBuffer v)).

(** The same as [setData]: the offset is not used. *)
Definition setSubData (n : Z) (data : list A) (offset : Z) (v : VB) : outcome VB :=
  if n =? size (base v)
  then b ← VulkanBuffer.setData n data 0 (base v); Ret (mkVertexBuffer b (mappedBuffer v))
  else b ← VulkanBuffer.resize n (Some data) (with_size n (base v)); Ret (mkVertexBuffer b (mappedBuffer v)).

Definition getPointer (v : VB) : outcome VB :=
  if mappedBuffer v then Ret v else b ← map_ (base v); Ret (mkVertexBuffer b true).

Definition releasePointer (v : VB) : outcome VB :=
  if mappedBuffer v
  then b ← VulkanBuffer.flush (size (base v)) 0 (base v); b ← unmap b; Ret (mkVertexBuffer b false)
  else Ret v.

(** A store through the pointer [getPointer] returned. *)
Definition store (i : Z) (a : A) (v : VB) : outcome VB :=
  b ← memcpy i [a] (base v); Ret (mkVertexBuffer b (mappedBuffer v)).
End VertexBuffer.
End VertexBuffer.

(** ** Index buffers (IndexBuffer.cpp) *)
Module IndexBuffer.
Import VulkanBuffer.

Record IndexBuffer := mkIndexBuffer { ib_base : Buffer Z; count : Z }.

Definition create (data : list Z) (n : Z) : outcome IndexBuffer :=
  b ← VulkanBuffer.make n (Some data); Ret (mkIndexBuffer b n).
Definition setCount (n : Z) (b : IndexBuffer) : IndexBuffer := mkIndexBuffer (ib_base b) n.
Definition setData (n : Z) (data : list Z) (b : IndexBuffer) : outcome IndexBuffer :=
  if n =? size (ib_base b)
  then c ← VulkanBuffer.setData n data 0 (ib_base b); Ret (mkIndexBuffer c (count b))
  else c ← VulkanBuffer.resize n (Some data) (with_size n (ib_base b)); Ret (mkIndexBuffer c (count b)).
End IndexBuffer.

(** ** Descriptor sets (VulkanDescriptorSet.cpp) *)
Module DescriptorSet.

Definition MAX_BUFFER_INFOS : nat := 16.
Definition MAX_IMAGE_INFOS : nat := 16.
Definition MAX_WRITE_DESCTIPTORS : nat := 16.

Record ImageInfo (H : Type) := mkImageInfo { textures : list (option H); ii_binding : Z }.
Arguments mkImageInfo {H}.
Arguments textures {H}.
Arguments ii_binding {H}.

Inductive DescriptorType := UNIFORM_BUFFER | UNIFORM_BUFFER_DYNAMIC | IMAGE_SAMPLER.

(** The buffer's handle and range, as [VkDescriptorBufferInfo]. *)
Record BufferInfo (H : Type) := mkBufferInfo { bi_buffer : H; bi_offset : Z; bi_size : Z; bi_binding : Z; bi_type : DescriptorType }.
Arguments mkBufferInfo {H}.
Arguments bi_buffer {H}.
Arguments bi_offset {H}.
Arguments bi_size {H}.
Arguments bi_binding {H}.
Arguments bi_type {H}.

(** A pending [VkWriteDescriptorSet]: it points into a pool. *)
Inductive Write :=
  | WriteImages (binding : Z) (start : nat) (count : Z)
  | WriteBuffer (binding : Z) (start : nat).

Record DescriptorSet (H : Type) := mkSet {
  images : gmap (Z * nat) (option H);          (* by binding and array element; None: garbage *)
  uniforms : gmap Z (option (H * Z * Z));
  imageInfoPool : list (option H);             (* None: never written *)
  bufferInfoPool : list (option (H * Z * Z));
  dynamic : bool;
  dynamicOffset : Z
}.
Arguments mkSet {H}.
Arguments images {H}.
Arguments uniforms {H}.
Arguments imageInfoPool {H}.
Arguments bufferInfoPool {H}.
Arguments dynamic {H}.
Arguments dynamicOffset {H}.

Section DescriptorSet.
Context {H : Type}.
Abbreviation DS := (DescriptorSet H).

Definition make : DS :=
  mkSet ∅ ∅ (replicate MAX_IMAGE_INFOS None) (replicate MAX_BUFFER_INFOS None) false 0.

Definition setDynamicOffset (o : Z) (s : DS) : DS :=
  mkSet (images s) (uniforms s) (imageInfoPool s) (bufferInfoPool s) (dynamic s) o.

(** An array of the heap written at an index. *)
Definition pool_set {T} (i : nat) (x : T) (pool : list T) : outcome (list T) :=
  if decide (i < length pool)%nat then Ret (<[i := x]> pool) else Exn OutOfBounds.

(** The inner loop: null textures are skipped and not counted. *)
Fixpoint fill_images (ts : list (option H)) (i imageIndex : nat) (count : Z) (pool : list (option H))
    : outcome (list (option H) * Z) :=
  match ts with
  | [] => Ret (pool, count)
  | None :: ts => fill_images ts (S i) imageIndex count pool
  | Some t :: ts => pool ← pool_set (i + imageIndex) (Some t) pool; fill_images ts (S i) imageIndex (count + 1) pool
  end.

Fixpoint image_writes (infos : list (ImageInfo H)) (imageIndex : nat) (pool : list (option H)) (ws : list Write)
    : outcome (list (option H) * list Write) :=
  match infos with
  | [] => Ret (pool, ws)
  | info :: infos =>
    '(pool, n) ← fill_images (textures info) 0 imageIndex 0 pool;
    if decide (length ws < MAX_WRITE_DESCTIPTORS)%nat
    then image_writes infos (S imageIndex) pool (ws ++ [WriteImages (ii_binding info) imageIndex n])
    else Exn OutOfBounds
  end.

Fixpoint buffer_writes (infos : list (BufferInfo H)) (index : nat) (pool : list (option (H * Z * Z))) (dyn : bool) (ws : list Write)
    : outcome (list (option (H * Z * Z)) * bool * list Write) :=
  match infos with
  | [] => Ret (pool, dyn, ws)
  | info :: infos =>
    pool ← pool_set index (Some (bi_buffer info, bi_offset info, bi_size info)) pool;
    if decide (length ws < MAX_WRITE_DESCTIPTORS)%nat
    then buffer_writes infos (S index) pool
      (match bi_type info with UNIFORM_BUFFER_DYNAMIC => true | _ => dyn end) (ws ++ [WriteBuffer (bi_binding info) index])
    else Exn OutOfBounds
  end.

(** [vkUpdateDescriptorSets] reads the pools when all writes are collected. *)
Definition apply_images (binding : Z) (start count : nat) (pool : list (option H)) (im : gmap (Z * nat) (option H))
    : gmap (Z * nat) (option H) :=
  fold_left (fun im j => <[(binding, j) := mjoin (pool !! (start + j)%nat)]> im) (seq 0 count) im.

Definition apply_write (w : Write) (s : DS) : DS :=
  match w with
  | WriteImages b start n =>
      mkSet (apply_images b start (Z.to_nat n) (imageInfoPool s) (images s)) (uniforms s)
        (imageInfoPool s) (bufferInfoPool s) (dynamic s) (dynamicOffset s)
  | WriteBuffer b start =>
      mkSet (images s) (<[b := mjoin (bufferInfoPool s !! start)]> (uniforms s))
        (imageInfoPool s) (bufferInfoPool s) (dynamic s) (dynamicOffset s)
  end.

Definition updateInternal (imageInfos : option (list (ImageInfo H))) (bufferInfos : option (list (BufferInfo H))) (s : DS)
    : outcome DS :=
  '(ipool, ws) ← match imageInfos with
    | Some infos => image_writes infos 0 (imageInfoPool s) []
    | None => Ret (imageInfoPool s, [])
    end;
  '(bpool, dyn, ws) ← match bufferInfos with
    | Some infos => buffer_writes infos 0 (bufferInfoPool s) false ws
    | None => Ret (bufferInfoPool s, false, ws)
    end;
  Ret (fold_left (fun s w => apply_write w s) ws (mkSet (images s) (uniforms s) ipool bpool dyn (dynamicOffset s))).

Definition update_images (infos : list (ImageInfo H)) (s : DS) : outcome DS := updateInternal (Some infos) None s.
Definition update_buffers (infos : list (BufferInfo H)) (s : DS) : outcome DS := updateInternal None (Some infos) s.
Definition update (ii : list (ImageInfo H)) (bi : list (BufferInfo H)) (s : DS) : outcome DS := updateInternal (Some ii) (Some bi) s.
End DescriptorSet.
End DescriptorSet.

(** ** Vertex layouts (BufferLayout.cpp) *)
Module BufferLayout.

Inductive Format :=
  | R32G32B32A32_UINT | R32G32B32_UINT | R32G32_UINT | R32_UINT | R8_UINT
  | R32G32B32A32_INT | R32G32B32_INT | R32G32_INT | R32_INT
  | R32G32B32A32_FLOAT | R32G32B32_FLOAT | R32G32_FLOAT | R32_FLOAT.

Record BufferElement := mkElement { name : list Z; format : Format; offset : Z; normalized : bool }.
Record BufferLayout := mkLayout { stride : Z; layout : list BufferElement }.

Definition make : BufferLayout := mkLayout 0 [].

(** The private [push]. *)
Definition push_format (n : list Z) (f : Format) (size : Z) (norm : bool) (l : BufferLayout) : BufferLayout :=
  mkLayout (u32 (stride l + size)) (layout l ++ [mkElement n f (stride l) norm]).

(** The types [push<T>] is specialised for; any other leaves the layout alone. *)
Inductive PushType := T_uint32 | T_uint8 | T_float | T_vec2 | T_vec3 | T_vec4 | T_other.

Definition push (t : PushType) (n : list Z) (norm : bool) (l : BufferLayout) : BufferLayout :=
  match t with
  | T_uint32 => push_format n R32_UINT 4 norm l
  | T_uint8 => push_format n R8_UINT 1 norm l
  | T_float => push_format n R32_FLOAT 4 norm l
  | T_vec2 => push_format n R32G32_FLOAT 8 norm l
  | T_vec3 => push_format n R32G32B32_FLOAT 12 norm l
  | T_vec4 => push_format n R32G32B32A32_FLOAT 16 norm l
  | T_other => l
  end.

(** What a format occupies. *)
Definition format_size (f : Format) : Z :=
  match f with
  | R32G32B32A32_UINT | R32G32B32A32_INT | R32G32B32A32_FLOAT => 16
  | R32G32B32_UINT | R32G32B32_INT | R32G32B32_FLOAT => 12
  | R32G32_UINT | R32G32_INT | R32G32_FLOAT => 8
  | R32_UINT | R32_INT | R32_FLOAT => 4
  | R8_UINT => 1
  end.

(** Elements are packed without gaps from offset 0. *)
Definition packed (l : BufferLayout) : Prop :=
  forall i e, layout l !! i = Some e -> offset e = foldr Z.add 0 ((fun e => format_size (format e)) <$> take i (layout l)).

Definition total (l : BufferLayout) : Z := foldr Z.add 0 ((fun e => format_size (format e)) <$> layout l).

Lemma sum_acc (l : list Z) b : foldr Z.add b l = foldr Z.add 0 l + b.
Proof. induction l as [|x l IH]; cbn; [lia|]. rewrite IH. lia. Qed.

Lemma push_format_packed n f norm l : packed l -> stride l = total l -> total l + 16 < 2 ^ 32 ->
  packed (push_format n f (format_size f) norm l)
  /\ stride (push_format n f (format_size f) norm l) = total (push_format n f (format_size f) norm l).
Proof.
  intros Hp Hs Hb.
  assert (0 <= total l) as H0.
  { unfold total. clear. induction (layout l) as [|e es IH]; cbn; [lia|]. destruct (format e); cbn; lia. }
  assert (total (push_format n f (format_size f) norm l) = total l + format_size f) as Ht.
  { unfold total, push_format. cbn [layout]. rewrite fmap_app, foldr_app, sum_acc. cbn. lia. }
  split; [|rewrite Ht; cbn [stride push_format]; rewrite Hs; apply u32_small; destruct f; cbn; lia].
  intros i e Hi. cbn [layout push_format] in Hi |- *.
  destruct (decide (i < length (layout l))%nat) as [Hl|Hl].
  - rewrite lookup_app_l in Hi by done. rewrite take_app_le by lia. by apply Hp.
  - apply lookup_app_Some in Hi as [Hi|[Hge Hi]]; [by apply lookup_lt_Some in Hi|].
    apply list_lookup_singleton_Some in Hi as [Hi <-].
    assert (i = length (layout l)) as -> by lia. rewrite take_app_length. cbn. by rewrite Hs.
Qed.

(** Every specialisation passes the size of its format. *)
Lemma push_packed t n norm l : packed l -> stride l = total l -> total l + 16 < 2 ^ 32 ->
  packed (push t n norm l) /\ stride (push t n norm l) = total (push t n norm l).
Proof. intros Hp Hs Hb. destruct t; try by apply push_format_packed. done. Qed.
End BufferLayout.

(** ** Properties *)
Module GpuBufferProps.
Import VulkanBuffer VertexBuffer.

Section Cells.
Context {A : Type}.
Implicit Types (b : Buffer A) (v : VertexBuffer A).

Lemma overwrite_0 {T} (d l : list T) : overwrite 0 d l = d ++ drop (length d) l.
Proof. by destruct l. Qed.

Lemma overwrite_single {T} i (x : T) l : (i < length l)%nat -> overwrite i [x] l = <[i := x]> l.
Proof. revert i. induction l as [|y l IH]; intros [|i] Hi; cbn in *; [lia|lia|done|]. f_equal. apply IH. lia. Qed.

Lemma overwrite_nil {T} i (l : list T) : overwrite i [] l = l.
Proof. revert i. induction l as [|y l IH]; intros [|i]; cbn; [done..|]. by rewrite IH. Qed.

Lemma overwrite_cons {T} i (x : T) d l : (i < length l)%nat -> overwrite (S i) d (<[i := x]> l) = overwrite i (x :: d) l.
Proof.
  revert i. induction l as [|y l IH]; intros [|i] Hi; cbn in Hi; try lia.
  - done.
  - cbn. f_equal. apply IH. lia.
Qed.

Lemma overwrite_lookup {T} i (d l : list T) k : (i + length d <= length l)%nat ->
  overwrite i d l !! k = if decide (i <= k < i + length d)%nat then d !! (k - i)%nat else l !! k.
Proof.
  revert i k. induction l as [|y l IH]; intros [|i] k Hi; cbn [length] in Hi; try lia.
  - assert (d = []) as -> by (destruct d; [done|cbn in Hi; lia]). cbn. by rewrite decide_False by lia.
  - rewrite overwrite_0, Nat.sub_0_r. case_decide.
    + by rewrite lookup_app_l by lia.
    + rewrite lookup_app_r by lia. rewrite lookup_drop. f_equal. lia.
  - cbn [overwrite]. destruct k as [|k]; cbn [lookup list_lookup]; [by rewrite decide_False by lia|].
    rewrite IH by lia. cbn [Nat.sub]. apply decide_ext. lia.
Qed.

Lemma overwrite_length {T} i (d l : list T) : (i + length d <= length l)%nat -> length (overwrite i d l) = length l.
Proof.
  revert i. induction l as [|y l IH]; intros [|i] Hi; cbn in *.
  - destruct d; [done|cbn in Hi; lia].
  - lia.
  - rewrite length_app, length_drop. cbn. lia.
  - rewrite IH; lia.
Qed.

Lemma overwrite_app {T} i (d1 d2 l : list T) : (i + length d1 + length d2 <= length l)%nat ->
  overwrite (i + length d1) d2 (overwrite i d1 l) = overwrite i (d1 ++ d2) l.
Proof.
  intros Hi. apply list_eq. intros k.
  rewrite !overwrite_lookup by (rewrite ?overwrite_length, ?length_app; lia). rewrite length_app.
  repeat case_decide; try lia; rewrite ?lookup_app_l by lia; rewrite ?lookup_app_r by lia; f_equal; lia.
Qed.

Lemma contents_full (l : list A) m n mp : contents (mkBuffer m (Some <$> l) n mp) = Some l.
Proof. unfold contents. cbn [cells]. apply mapM_Some. induction l; constructor; done. Qed.

(** Not mapped, or a stale mapping only. *)
Definition free b : Prop := live b = false.

Lemma live_mapped b o n : live (with_mapped (Some (mkMapping (memory b) o n)) b) = true.
Proof. unfold live, with_mapped. cbn. by rewrite bool_decide_true. Qed.

Lemma map_range_ok n o b : free b -> 0 <= o -> 0 <= n -> o + n <= Z.of_nat (length (cells b)) ->
  map_range n o b = Ret (with_mapped (Some (mkMapping (memory b) o n)) b).
Proof.
  intros Hf Ho Hn Hl. unfold map_range. rewrite Hf.
  by rewrite (proj2 (Z.ltb_ge _ _) Ho), (proj2 (Z.ltb_ge _ _) Hn), (proj2 (Z.ltb_ge _ _) Hl).
Qed.

Lemma setData_ok n data b : free b -> 0 <= n <= Z.of_nat (length (cells b)) -> n <= Z.of_nat (length data) ->
  VulkanBuffer.setData n data 0 b
  = Ret (mkBuffer (memory b) ((Some <$> take (Z.to_nat n) data) ++ drop (Z.to_nat n) (cells b)) (size b) None).
Proof.
  intros Hf Hn Hd. unfold VulkanBuffer.setData. rewrite map_range_ok by (done || lia). rewrite bind_Ret.
  unfold read. rewrite (proj2 (Z.ltb_ge _ _) Hd). rewrite bind_Ret.
  assert (length (take (Z.to_nat n) data) = Z.to_nat n) as Hlen by (rewrite length_take; lia).
  unfold memcpy at 1. cbn [mapped with_mapped]. rewrite live_mapped. cbn [negb map_size map_offset].
  rewrite Hlen, Z.ltb_irrefl, (proj2 (Z.ltb_ge n _)) by lia. cbn [orb]. rewrite bind_Ret.
  unfold unmap. cbn [mapped with_cells with_mapped]. unfold live. cbn [mapped with_cells with_mapped of_memory memory].
  rewrite bool_decide_true by done. cbn. rewrite overwrite_0, length_fmap, Hlen. done.
Qed.

Lemma init_ok n data b : 0 <= n <= Z.of_nat (length data) ->
  (forall m, mapped b = Some m -> of_memory m <> N.succ (memory b)) ->
  VulkanBuffer.resize n (Some data) b = Ret (mkBuffer (N.succ (memory b)) (Some <$> take (Z.to_nat n) data) n None).
Proof.
  intros Hn Hm. unfold VulkanBuffer.resize, init. rewrite setData_ok; [|unfold free, live|..]; cbn.
  - f_equal. f_equal. rewrite drop_ge, app_nil_r by (rewrite length_replicate; lia). done.
  - destruct (mapped b) as [m|] eqn:E; [|done]. apply bool_decide_false. by apply Hm.
  - rewrite length_replicate. lia.
  - lia.
Qed.

(** Mappings are of this or an earlier allocation. *)
Definition mapping_ok b : Prop := forall m, mapped b = Some m -> (of_memory m <= memory b)%N.

(** The size is the number of cells. *)
Definition sized b : Prop := size b = Z.of_nat (length (cells b)).

Definition memory_ok v : Prop := mapping_ok (base v) /\ sized (base v).
End Cells.

(** The two states of a vertex buffer a renderer writes: mapped as a whole, or not. *)
Section OpenClosed.
Context {A : Type}.
Implicit Types (c : list (option A)) (m : N) (n : Z).

Definition open_vb m c n : VertexBuffer A :=
  mkVertexBuffer (mkBuffer m c n (Some (mkMapping m 0 (Z.of_nat (length c))))) true.
Definition closed_vb m c n : VertexBuffer A := mkVertexBuffer (mkBuffer m c n None) false.

Lemma getPointer_closed m c n : getPointer (closed_vb m c n) = Ret (open_vb m c n).
Proof.
  unfold getPointer, closed_vb, map_. cbn [mappedBuffer base cells]. rewrite map_range_ok by (cbn; done || lia). done.
Qed.

Lemma live_open m c n : live (base (open_vb m c n)) = true.
Proof. unfold live, open_vb. cbn. by rewrite bool_decide_true. Qed.

Lemma releasePointer_open m c n : releasePointer (open_vb m c n) = Ret (closed_vb m c n).
Proof.
  unfold releasePointer. cbn [mappedBuffer open_vb]. unfold VulkanBuffer.flush. rewrite live_open, bind_Ret.
  unfold unmap. rewrite live_open. done.
Qed.

Lemma store_open m c n i (v : A) : 0 <= i < Z.of_nat (length c) ->
  store i v (open_vb m c n) = Ret (open_vb m (<[Z.to_nat i := Some v]> c) n).
Proof.
  intros Hi. unfold store, memcpy. rewrite live_open. cbn [base open_vb mapped negb map_size map_offset length].
  rewrite (proj2 (Z.ltb_ge i 0)), (proj2 (Z.ltb_ge _ (i + _))) by lia. cbn [orb].
  unfold open_vb. cbn. rewrite overwrite_single, length_insert by lia. done.
Qed.

Lemma store_open_full m c n i (v : A) : Z.of_nat (length c) <= i -> store i v (open_vb m c n) = Exn OutOfBounds.
Proof.
  intros Hi. unfold store, memcpy. rewrite live_open. cbn [base open_vb mapped negb map_size map_offset length].
  rewrite (proj2 (Z.ltb_lt _ (i + _))), orb_true_r by lia. done.
Qed.

Lemma resize_create n : VertexBuffer.resize n None (VertexBuffer.create (A := A)) = Ret (closed_vb 1 (replicate (Z.to_nat n) None) n).
Proof. done. Qed.
End OpenClosed.

(** [VertexBuffer::setData] uploads: on a buffer that is not mapped, whether
    the size is the old one or a new one, it succeeds, the buffer then holds
    exactly the data, its size is the given one, and it is not mapped. *)
Theorem setData_uploads {A} (data : list A) (v : VertexBuffer A) :
  memory_ok v -> mapped (base v) = None ->
  exists v', VertexBuffer.setData (Z.of_nat (length data)) data v = Ret v' /\ contents (base v') = Some data
    /\ size (base v') = Z.of_nat (length data) /\ memory_ok v' /\ mapped (base v') = None /\ mappedBuffer v' = mappedBuffer v.
Proof.
  intros [Hm Hs] Hmap. unfold VertexBuffer.setData.
  assert (free (base v)) as Hf by (unfold free, live; by rewrite Hmap).
  destruct (Z.eqb_spec (Z.of_nat (length data)) (size (base v))) as [E|E].
  - rewrite setData_ok; [|done|rewrite <- Hs; lia|lia]. rewrite bind_Ret. eexists. split; [done|]. cbn [base size mapped mappedBuffer].
    rewrite E, Hs, !Nat2Z.id in *. apply Nat2Z.inj in E.
    rewrite drop_ge, app_nil_r, take_ge by lia. rewrite contents_full. split_and!; try done.
    split; [intros m; discriminate|]. unfold sized. cbn. rewrite length_fmap. lia.
  - rewrite init_ok; [|lia|cbn; by rewrite Hmap]. rewrite bind_Ret. eexists. split; [done|]. cbn [base size mapped mappedBuffer].
    rewrite Nat2Z.id, firstn_all, contents_full. split_and!; try done.
    split; [intros m; discriminate|]. unfold sized. cbn. by rewrite length_fmap.
Qed.

Lemma setData_uploads_witness : exists v',
  VertexBuffer.setData 2 [5; 6] (mkVertexBuffer (mkBuffer 3 [Some 1] 1 None) false) = Ret v' /\ contents (base v') = Some [5; 6]
    /\ size (base v') = 2 /\ memory_ok v' /\ mapped (base v') = None /\ mappedBuffer v' = false.
Proof.
  apply (setData_uploads [5; 6] (mkVertexBuffer (mkBuffer 3 [Some 1] 1 None) false)); [|done].
  split; [intros m; discriminate|done].
Defined.

(** An offset is honoured nowhere: [VulkanBuffer::setData] adds it to a
    pointer that already includes it, so a non-empty upload at a positive offset
    never succeeds, and [VertexBuffer::setSubData] replaces the data from the
    start, or the whole buffer.  A buffer resized while it is mapped keeps a
    pointer into the memory that was freed: storing through it fails. *)
Theorem offsets_not_honoured {A} (n : Z) (data : list A) (o : Z) (b : Buffer A) (v : VertexBuffer A) :
  (0 < n -> 0 < o -> forall b', VulkanBuffer.setData n data o b <> Ret b')
  /\ VertexBuffer.setSubData n data o v = VertexBuffer.setData n data v
  /\ (mappedBuffer v = true -> (forall m, mapped (base v) = Some m -> (of_memory m <= memory (base v))%N) ->
      forall i a v', VertexBuffer.resize n None v = Ret v' ->
        VertexBuffer.getPointer v' = Ret v' /\ VertexBuffer.store i a v' = Exn NullDeref).
Proof.
  split_and!; [|done|].
  - intros Hn Ho b' H. unfold VulkanBuffer.setData in H.
    apply bind_Ret_inv in H as (b1 & E1 & H). apply bind_Ret_inv in H as (d & Ed & H). apply bind_Ret_inv in H as (b2 & E2 & H).
    unfold map_range in E1. destruct (_ || _ || _ || _); [done|]. injection E1 as <-.
    unfold read in Ed. destruct (Z.ltb_spec (Z.of_nat (length data)) n) as [|Hd]; [done|]. injection Ed as <-.
    unfold memcpy in E2. cbn in E2. destruct (negb _); [done|].
    rewrite length_take in E2. rewrite (proj2 (Z.ltb_lt n _)), orb_true_r in E2 by lia. done.
  - intros Hmb Hm i a v' Hr. unfold VertexBuffer.resize, VulkanBuffer.resize, init in Hr. cbn in Hr. injection Hr as <-.
    unfold VertexBuffer.getPointer, VertexBuffer.store, memcpy, live. cbn. rewrite Hmb. split; [done|].
    destruct (mapped (base v)) as [m|] eqn:E; [|done]. specialize (Hm m eq_refl).
    rewrite bool_decide_false by lia. done.
Qed.

Lemma offsets_not_honoured_witness :
  let b := mkBuffer 1 (replicate 8 (Some 0)) 8 None in
  let v := mkVertexBuffer (mkBuffer 1 (replicate 8 (Some 0)) 8 (Some (mkMapping 1 0 8))) true in
  (VulkanBuffer.setData 2 [7; 8] 4 b = Exn OutOfBounds /\ forall b', VulkanBuffer.setData 2 [7; 8] 4 b <> Ret b')
  /\ exists v', VertexBuffer.resize 16 None v = Ret v' /\ VertexBuffer.getPointer v' = Ret v'
       /\ VertexBuffer.store 0 5 v' = Exn NullDeref.
Proof.
  intros b v. split.
  - split; [by vm_compute|]. apply (offsets_not_honoured 2 [7; 8] 4 b v); lia.
  - eexists. split; [reflexivity|]. apply (offsets_not_honoured 16 [7; 8] 4 b v); [done|intros m [= <-]; cbn; lia|done].
Defined.
End GpuBufferProps.

Module DescriptorProps.
Import DescriptorSet.

Section Writes.
Context {H : Type}.
Implicit Types (s : DescriptorSet H) (ws : list Write).

Definition image_binding (w : Write) : option Z := match w with WriteImages b _ _ => Some b | _ => None end.
Definition buffer_binding (w : Write) : option Z := match w with WriteBuffer b _ => Some b | _ => None end.
Abbreviation apply_all := (fold_left (fun s w => apply_write w s)).

Lemma apply_images_lookup (b : Z) (start n : nat) (pool : list (option H)) (im : gmap (Z * nat) (option H)) (b' : Z) (j : nat) :
  apply_images b start n pool im !! (b', j) =
  if decide (b' = b /\ (j < n)%nat) then Some (mjoin (pool !! (start + j)%nat)) else im !! (b', j).
Proof.
  unfold apply_images. induction n as [|n IH]; [cbn; rewrite decide_False by lia; done|].
  rewrite seq_S, fold_left_app. cbn [fold_left Nat.add].
  destruct (decide ((b', j) = (b, n))) as [[= -> ->]|Hne].
  - rewrite lookup_insert_eq. by rewrite decide_True by lia.
  - rewrite lookup_insert_ne by congruence. rewrite IH. apply decide_ext. split; [lia|].
    intros [-> Hj]. split; [done|]. assert (j <> n) by congruence. lia.
Qed.

Lemma apply_all_pools ws : forall s,
  imageInfoPool (apply_all ws s) = imageInfoPool s /\ bufferInfoPool (apply_all ws s) = bufferInfoPool s
  /\ dynamic (apply_all ws s) = dynamic s /\ dynamicOffset (apply_all ws s) = dynamicOffset s.
Proof. induction ws as [|w ws IH]; intros s; [done|]. cbn [fold_left]. destruct (IH (apply_write w s)) as (->&->&->&->). by destruct w. Qed.

Lemma apply_all_other ws : forall s b j, b ∉ omap image_binding ws -> images (apply_all ws s) !! (b, j) = images s !! (b, j).
Proof.
  induction ws as [|w ws IH]; intros s b j Hb; [done|]. cbn [fold_left].
  destruct w as [b0 st n|b0 st]; cbn in Hb.
  - rewrite IH by set_solver. cbn [apply_write images]. rewrite apply_images_lookup, decide_False by set_solver. done.
  - rewrite IH by done. done.
Qed.

Lemma apply_all_image ws : forall s b st n j, NoDup (omap image_binding ws) -> WriteImages b st n ∈ ws -> (j < Z.to_nat n)%nat ->
  images (apply_all ws s) !! (b, j) = Some (mjoin (imageInfoPool s !! (st + j)%nat)).
Proof.
  induction ws as [|w ws IH]; intros s b st n j Hnd Hin Hj; [set_solver|]. cbn [fold_left].
  apply elem_of_cons in Hin as [<-|Hin].
  - cbn in Hnd. apply NoDup_cons in Hnd as [Hb _]. rewrite apply_all_other by done.
    cbn [apply_write images]. by rewrite apply_images_lookup, decide_True.
  - rewrite (IH _ b st n) by (destruct w; cbn in Hnd; try apply NoDup_cons in Hnd; tauto). by destruct w.
Qed.

Lemma apply_all_uniform_other ws : forall s b, b ∉ omap buffer_binding ws -> uniforms (apply_all ws s) !! b = uniforms s !! b.
Proof.
  induction ws as [|w ws IH]; intros s b Hb; [done|]. cbn [fold_left].
  destruct w as [b0 st n|b0 st]; cbn in Hb; rewrite IH by set_solver; [done|]. cbn. by rewrite lookup_insert_ne by set_solver.
Qed.

Lemma apply_all_uniform ws : forall s b st, NoDup (omap buffer_binding ws) -> WriteBuffer b st ∈ ws ->
  uniforms (apply_all ws s) !! b = Some (mjoin (bufferInfoPool s !! st)).
Proof.
  induction ws as [|w ws IH]; intros s b st Hnd Hin; [set_solver|]. cbn [fold_left].
  apply elem_of_cons in Hin as [<-|Hin].
  - cbn in Hnd. apply NoDup_cons in Hnd as [Hb _]. rewrite apply_all_uniform_other by done. cbn. by rewrite lookup_insert_eq.
  - rewrite (IH _ b st) by (destruct w; cbn in Hnd; try apply NoDup_cons in Hnd; tauto). by destruct w.
Qed.

(** *** The loops *)

Lemma fill_images_spec ts n : forall i k c (pool : list (option H)), (i + k + length ts <= length pool)%nat ->
  fill_images ((Some <$> ts) ++ replicate n None) i k c pool
  = Ret (VulkanBuffer.overwrite (i + k) (Some <$> ts) pool, c + Z.of_nat (length ts)).
Proof.
  induction ts as [|t ts IH]; intros i k c pool Hl; cbn [fmap list_fmap app length] in *.
  - transitivity (Ret (pool, c)).
    + clear Hl. revert i. induction n as [|n IH]; intros i; cbn; [done|apply IH].
    + rewrite Z.add_0_r. by rewrite GpuBufferProps.overwrite_nil.
  - cbn [fill_images]. unfold pool_set. rewrite decide_True by lia. rewrite bind_Ret.
    rewrite IH by (rewrite length_insert; lia). rewrite <- GpuBufferProps.overwrite_cons by lia.
    do 2 f_equal. lia.
Qed.

Definition single (b : Z) (t : H) : ImageInfo H := mkImageInfo [Some t] b.

Lemma singles_writes bs : forall ts rest k (pool : list (option H)) ws, length bs = length ts ->
  (k + length ts <= length pool)%nat -> (length ws + length ts <= MAX_WRITE_DESCTIPTORS)%nat ->
  image_writes (zip_with single bs ts ++ rest) k pool ws
  = image_writes rest (k + length ts) (VulkanBuffer.overwrite k (Some <$> ts) pool)
      (ws ++ imap (fun i b => WriteImages b (k + i) 1) bs).
Proof.
  induction bs as [|b bs IH]; intros [|t ts] rest k pool ws Hlen Hp Hw; try done.
  - cbn. by rewrite Nat.add_0_r, app_nil_r, GpuBufferProps.overwrite_nil.
  - cbn [zip_with app image_writes single textures ii_binding]. cbn [length] in *.
    pose proof (fill_images_spec [t] 0 0 k 0 pool) as E. cbn [fmap list_fmap app replicate] in E.
    rewrite E by (cbn; lia). rewrite bind_Ret. clear E. cbn [length Nat.add]. rewrite decide_True by lia.
    assert (length (VulkanBuffer.overwrite k [Some t] pool) = length pool) as Hlo by (apply GpuBufferProps.overwrite_length; cbn; lia).
    rewrite IH; [|lia|lia|rewrite length_app; cbn; lia].
    replace (S k + length ts)%nat with (k + S (length ts))%nat by lia. f_equal.
    + rewrite GpuBufferProps.overwrite_single by lia. by apply GpuBufferProps.overwrite_cons; lia.
    + rewrite <- app_assoc. cbn [imap]. do 2 f_equal. cbn. rewrite Nat.add_0_r. f_equal.
      apply imap_ext. intros i b' _. cbn. f_equal. lia.
Qed.

Lemma buffers_writes_spec (infos : list (BufferInfo H)) : forall k pool dyn ws,
  (k + length infos <= length pool)%nat -> (length ws + length infos <= MAX_WRITE_DESCTIPTORS)%nat ->
  buffer_writes infos k pool dyn ws
  = Ret (VulkanBuffer.overwrite k ((fun i => Some (bi_buffer i, bi_offset i, bi_size i)) <$> infos) pool,
         dyn || existsb (fun i => match bi_type i with UNIFORM_BUFFER_DYNAMIC => true | _ => false end) infos,
         ws ++ imap (fun i b => WriteBuffer (bi_binding b) (k + i)) infos).
Proof.
  induction infos as [|b infos IH]; intros k pool dyn ws Hp Hw; cbn [buffer_writes length] in *.
  - cbn. by rewrite GpuBufferProps.overwrite_nil, orb_false_r, app_nil_r.
  - unfold pool_set. rewrite decide_True by lia. rewrite bind_Ret, decide_True by lia.
    rewrite IH by (rewrite ?length_insert, ?length_app; cbn; lia).
    rewrite GpuBufferProps.overwrite_cons by lia. f_equal. f_equal; [f_equal|].
    + cbn [existsb]. destruct dyn, (bi_type b); cbn; done.
    + rewrite <- app_assoc. cbn. rewrite Nat.add_0_r. do 2 f_equal. apply imap_ext. intros i x _. cbn. f_equal. lia.
Qed.

(** What [update] needs: pools of their size. *)
Definition pools_ok s : Prop :=
  length (imageInfoPool s) = MAX_IMAGE_INFOS /\ length (bufferInfoPool s) = MAX_BUFFER_INFOS.

Lemma image_binding_buffers ws (infos : list (BufferInfo H)) k :
  omap image_binding (ws ++ imap (fun i b => WriteBuffer (bi_binding b) (k + i)) infos) = omap image_binding ws.
Proof.
  rewrite omap_app. rewrite <- (app_nil_r (omap image_binding ws)) at 2. f_equal.
  revert k. induction infos as [|b infos IH]; intros k; cbn; [done|]. rewrite <- (IH (S k)). f_equal. apply imap_ext. intros i x _. cbn. f_equal. lia.
Qed.

Lemma buffer_binding_buffers (infos : list (BufferInfo H)) k :
  omap buffer_binding (imap (fun i b => WriteBuffer (bi_binding b) (k + i)) infos) = bi_binding <$> infos.
Proof.
  revert k. induction infos as [|b infos IH]; intros k; cbn; [done|]. f_equal. rewrite <- (IH (S k)). f_equal.
  apply imap_ext. intros i x _. cbn. f_equal. lia.
Qed.

Lemma binding_singles (bs : list Z) k :
  omap image_binding (imap (fun i b => WriteImages b (k + i) 1) bs) = bs
  /\ omap buffer_binding (imap (fun i b => WriteImages b (k + i) 1) bs) = [].
Proof.
  revert k. induction bs as [|b bs IH]; intros k; cbn; [done|].
  assert (imap ((fun i b0 => WriteImages b0 (k + i) 1) ∘ S) bs = imap (fun i b0 => WriteImages b0 (S k + i) 1) bs) as ->
    by (apply imap_ext; intros i x _; cbn; f_equal; lia).
  destruct (IH (S k)) as [-> ->]. done.
Qed.

(** The image infos the renderers pass: one texture each, but the last, an array
    of textures whose end may be null. *)
Definition infos_of (bs : list Z) (ts : list H) (lastb : Z) (lastts : list H) (nulls : nat) : list (ImageInfo H) :=
  zip_with single bs ts ++ [mkImageInfo ((Some <$> lastts) ++ replicate nulls None) lastb].

Lemma set_update_ok bs ts lastb lastts nulls (bis : list (BufferInfo H)) s :
  pools_ok s -> length bs = length ts -> NoDup (bs ++ [lastb]) -> NoDup (bi_binding <$> bis) ->
  (length ts + length lastts <= MAX_IMAGE_INFOS)%nat -> (length ts + 1 + length bis <= MAX_WRITE_DESCTIPTORS)%nat ->
  exists s', update (infos_of bs ts lastb lastts nulls) bis s = Ret s' /\ pools_ok s'
    /\ (forall k b t, bs !! k = Some b -> ts !! k = Some t -> images s' !! (b, 0%nat) = Some (Some t))
    /\ (forall j t, lastts !! j = Some t -> images s' !! (lastb, j) = Some (Some t))
    /\ (forall b j, b ∉ bs ++ [lastb] -> images s' !! (b, j) = images s !! (b, j))
    /\ (forall i, i ∈ bis -> uniforms s' !! bi_binding i = Some (Some (bi_buffer i, bi_offset i, bi_size i)))
    /\ (forall b, b ∉ bi_binding <$> bis -> uniforms s' !! b = uniforms s !! b)
    /\ dynamic s' = existsb (fun i => match bi_type i with UNIFORM_BUFFER_DYNAMIC => true | _ => false end) bis.
Proof.
  intros [Hip Hbp] Hlen Hnd Hndb Hi Hw. unfold MAX_IMAGE_INFOS, MAX_BUFFER_INFOS, MAX_WRITE_DESCTIPTORS in *.
  unfold update, updateInternal, infos_of.
  rewrite singles_writes by (cbn; unfold MAX_WRITE_DESCTIPTORS; lia || done). cbn [image_writes textures ii_binding].
  set (pool1 := VulkanBuffer.overwrite 0 (Some <$> ts) (imageInfoPool s)).
  assert (length pool1 = 16%nat) as Hp1 by (unfold pool1; rewrite GpuBufferProps.overwrite_length; rewrite ?length_fmap; lia).
  rewrite fill_images_spec by lia. rewrite bind_Ret. rewrite decide_True by (rewrite length_app, length_imap; cbn; unfold MAX_WRITE_DESCTIPTORS; lia).
  cbn [Nat.add app]. rewrite bind_Ret.
  set (ipool := VulkanBuffer.overwrite (length ts) (Some <$> lastts) pool1).
  assert (length ipool = 16%nat) as Hpi by (unfold ipool; rewrite GpuBufferProps.overwrite_length; rewrite ?length_fmap; lia).
  set (iws := imap (fun i b => WriteImages b i 1) bs ++ [WriteImages lastb (length ts) (0 + Z.of_nat (length lastts))]).
  assert (length iws = S (length ts)) as Hiws by (unfold iws; rewrite length_app, length_imap; cbn; lia).
  rewrite buffers_writes_spec by (unfold MAX_WRITE_DESCTIPTORS; lia). rewrite bind_Ret.
  eexists. split; [reflexivity|].
  set (ws := iws ++ _). set (s0 := mkSet _ _ _ _ _ _).
  destruct (apply_all_pools ws s0) as (Eip & Ebp & Edy & _).
  assert (omap image_binding ws = bs ++ [lastb]) as Hib.
  { unfold ws. rewrite image_binding_buffers. unfold iws. rewrite omap_app. destruct (binding_singles bs 0) as [E _]. cbn in E. by rewrite E. }
  assert (omap buffer_binding ws = bi_binding <$> bis) as Hbb.
  { unfold ws, iws. rewrite !omap_app, buffer_binding_buffers. destruct (binding_singles bs 0) as [_ E]. cbn in E. by rewrite E. }
  assert (forall k t, (ts ++ lastts) !! k = Some t -> ipool !! k = Some (Some t)) as Hpool.
  { intros k t Hk. unfold ipool, pool1. rewrite !GpuBufferProps.overwrite_lookup by (rewrite ?GpuBufferProps.overwrite_length; rewrite ?length_fmap; lia).
    rewrite !length_fmap, !list_lookup_fmap. apply lookup_app_Some in Hk as [Hk|[Hge Hk]].
    - pose proof (lookup_lt_Some _ _ _ Hk). rewrite decide_False by lia. rewrite decide_True by lia. by rewrite Nat.sub_0_r, Hk.
    - pose proof (lookup_lt_Some _ _ _ Hk). rewrite decide_True by lia. by rewrite Hk. }
  split_and!.
  - split; [by rewrite Eip|]. rewrite Ebp. unfold s0. cbn [bufferInfoPool]. rewrite GpuBufferProps.overwrite_length; rewrite ?length_fmap; unfold MAX_BUFFER_INFOS; lia.
  - intros k b t Hb Ht. rewrite (apply_all_image ws s0 b k 1 0); [|by rewrite Hib|..|cbn; lia].
    + rewrite Nat.add_0_r. unfold s0; cbn [imageInfoPool]. erewrite Hpool; [done|]. by apply lookup_app_l_Some.
    + unfold ws, iws. apply elem_of_app. left. apply elem_of_app. left. apply list_elem_of_lookup. exists k. by rewrite list_lookup_imap, Hb.
  - intros j t Hj. pose proof (lookup_lt_Some _ _ _ Hj).
    rewrite (apply_all_image ws s0 lastb (length ts) (0 + Z.of_nat (length lastts)) j); [|by rewrite Hib|..|lia].
    + unfold s0; cbn [imageInfoPool]. erewrite Hpool; [done|]. rewrite lookup_app_r by lia. by replace (length ts + j - length ts)%nat with j by lia.
    + unfold ws, iws. set_solver.
  - intros b j Hb. by rewrite apply_all_other by (by rewrite Hib).
  - intros i Hin. apply list_elem_of_lookup in Hin as [k Hk].
    rewrite (apply_all_uniform ws s0 (bi_binding i) k); [|by rewrite Hbb|].
    + unfold s0; cbn [bufferInfoPool]. pose proof (lookup_lt_Some _ _ _ Hk).
      rewrite GpuBufferProps.overwrite_lookup by (rewrite ?length_fmap; lia). rewrite length_fmap, decide_True by lia.
      by rewrite list_lookup_fmap, Nat.sub_0_r, Hk.
    + unfold ws. apply elem_of_app. right. apply list_elem_of_lookup. exists k. by rewrite list_lookup_imap, Hk.
  - intros b Hb. by rewrite apply_all_uniform_other by (by rewrite Hbb).
  - by rewrite Edy.
Qed.
End Writes.

(** Two arrays of textures in one update overlap in the pool, since the index
    moves by one per array: element [j] of the first array becomes texture [j - 1]
    of the second wherever that exists.  The second array is right.  A null
    texture is skipped but keeps its place, so the array [null, t] writes one
    element, with whatever the pool held. *)
Theorem image_arrays_overlap {H} (a b : Z) (ts us : list H) (t : H) (s : DescriptorSet H) :
  pools_ok s -> a <> b -> (length ts <= 16)%nat -> (length us < 16)%nat ->
  (exists s', update_images [mkImageInfo (Some <$> ts) a; mkImageInfo (Some <$> us) b] s = Ret s'
    /\ (forall j t, ts !! j = Some t ->
          images s' !! (a, j) = Some (Some (if decide (1 <= j <= length us)%nat then default t (us !! (j - 1)%nat) else t)))
    /\ (forall j u, us !! j = Some u -> images s' !! (b, j) = Some (Some u)))
  /\ (exists s', update_images [mkImageInfo [None; Some t] a] s = Ret s'
    /\ images s' !! (a, 0%nat) = Some (mjoin (imageInfoPool s !! 0%nat)) /\ images s' !! (a, 1%nat) = images s !! (a, 1%nat)).
Proof.
  intros [Hip Hbp] Hab Ht Hu. unfold MAX_IMAGE_INFOS in Hip. split.
  - unfold update_images, updateInternal. cbn [image_writes textures ii_binding].
    rewrite <- (app_nil_r (Some <$> ts)). rewrite (fill_images_spec ts 0) by lia. rewrite bind_Ret.
    rewrite decide_True by (cbn; unfold MAX_WRITE_DESCTIPTORS; lia).
    set (pool1 := VulkanBuffer.overwrite (0 + 0) (Some <$> ts) (imageInfoPool s)).
    assert (length pool1 = 16%nat) as Hp1 by (unfold pool1; rewrite GpuBufferProps.overwrite_length; rewrite ?length_fmap; lia).
    rewrite <- (app_nil_r (Some <$> us)). rewrite (fill_images_spec us 0) by lia. rewrite bind_Ret.
    rewrite decide_True by (cbn; unfold MAX_WRITE_DESCTIPTORS; lia). rewrite bind_Ret, bind_Ret.
    eexists. split; [reflexivity|]. cbn [app]. set (ws := [_; _]). set (s0 := mkSet _ _ _ _ _ _).
    assert (NoDup (omap image_binding ws)) as Hnd by (cbn; apply NoDup_cons; split; [set_solver|apply NoDup_singleton]).
    split.
    + intros j x Hj. pose proof (lookup_lt_Some _ _ _ Hj).
      rewrite (apply_all_image ws s0 a 0 (0 + Z.of_nat (length ts)) j) by (done || set_solver || lia).
      unfold s0. cbn [imageInfoPool Nat.add]. unfold pool1. rewrite !GpuBufferProps.overwrite_lookup by (rewrite ?GpuBufferProps.overwrite_length; rewrite ?length_fmap; lia).
      rewrite !length_fmap, !list_lookup_fmap. case_decide as Hd.
      * rewrite decide_True by lia. destruct (lookup_lt_is_Some_2 us (j - 1)) as [u Eu]; [lia|]. cbn. by rewrite Eu.
      * rewrite decide_True, decide_False by lia. by rewrite Nat.sub_0_r, Hj.
    + intros j u Hj. pose proof (lookup_lt_Some _ _ _ Hj).
      rewrite (apply_all_image ws s0 b 1 (0 + Z.of_nat (length us)) j) by (done || set_solver || lia).
      unfold s0. cbn [imageInfoPool]. rewrite GpuBufferProps.overwrite_lookup by (rewrite ?length_fmap; lia).
      rewrite length_fmap, decide_True, list_lookup_fmap by lia. replace (1 + j - (0 + 1))%nat with j by lia. by rewrite Hj.
  - unfold update_images, updateInternal. cbn [image_writes textures ii_binding fill_images]. unfold pool_set.
    rewrite decide_True by lia. rewrite !bind_Ret. rewrite decide_True by (cbn; unfold MAX_WRITE_DESCTIPTORS; lia).
    rewrite !bind_Ret. eexists. split; [reflexivity|].
    cbn [fold_left app apply_write images imageInfoPool]. rewrite !apply_images_lookup.
    rewrite decide_True, decide_False by lia. by rewrite list_lookup_insert_ne by done.
Qed.

Lemma image_arrays_overlap_witness : exists s',
  update_images [mkImageInfo [Some 1; Some 2] 0; mkImageInfo [Some 3; Some 4] 1] (@DescriptorSet.make Z) = Ret s'
  /\ images s' !! (0, 1%nat) = Some (Some 3) /\ images s' !! (1, 1%nat) = Some (Some 4).
Proof.
  destruct (image_arrays_overlap 0 1 [1; 2] [3; 4] 5 (@DescriptorSet.make Z)) as [(s' & E & H1 & H2) _];
    [by split|lia|cbn; lia|cbn; lia|].
  exists s'. split_and!; [exact E|by apply (H1 1%nat 2)|by apply (H2 1%nat 4)].
Defined.
End DescriptorProps.
