(* ===== verification/ShaderFile.v ===== *)
(** * ShaderFile: shader descriptions and what is reflected from them

    Models [Engine/Vulkan/VulkanShader.*] and [Engine/Interface/Shader.*] over the
    files of [FileSystem] and the strings of [Strings]: a description names the
    file of each stage, the compiled stages are reflected by SPIRV-Cross, a
    parameter, and the layout of vertices, descriptors and push constants follows. *)

From S2P Require Import Prelude Strings FileSystem GpuBuffers.
From stdpp Require Import base decidable list gmap countable strings.
From Stdlib Require Import ZArith Lia Ascii.
Local Open Scope Z_scope.
Import BasicString Split StringUtils FileSystem.

Module Shader.
Import DescriptorSet.

(** ** Data (Shader.h, DescriptorSet.h) *)
Inductive ShaderType := UNKNOWN | VERTEX_SHADER | FRAGMENT_SHADER | GEOMETRY_SHADER | COMPUTE_SHADER | TYPE_LENGTH.

#[export] Instance ShaderType_eq_dec : EqDecision ShaderType.
Proof. solve_decision. Defined.

Definition ShaderType_code (t : ShaderType) : nat :=
  match t with UNKNOWN => 0 | VERTEX_SHADER => 1 | FRAGMENT_SHADER => 2 | GEOMETRY_SHADER => 3 | COMPUTE_SHADER => 4 | TYPE_LENGTH => 5 end.
Definition ShaderType_of (n : nat) : option ShaderType :=
  nth_error [UNKNOWN; VERTEX_SHADER; FRAGMENT_SHADER; GEOMETRY_SHADER; COMPUTE_SHADER; TYPE_LENGTH] n.

#[export] Instance ShaderType_countable : Countable ShaderType.
Proof. apply (inj_countable ShaderType_code ShaderType_of). by intros []. Defined.

Record PushConstant := mkPush { p_size : Z; shaderStage : ShaderType; p_offset : Z }.
Record DescriptorLayoutInfo := mkLayout { l_type : DescriptorType; l_stage : ShaderType; l_setId : Z; l_binding : Z; l_count : Z }.

(** ** Formats (VulkanShader.cpp) *)
Inductive VkFormat :=
  | R8_SINT | R32_UINT | R32G32_UINT | R32G32B32_UINT | R32G32B32A32_UINT
  | R32_SINT | R32G32_SINT | R32G32B32_SINT | R32G32B32A32_SINT
  | R32_SFLOAT | R32G32_SFLOAT | R32G32B32_SFLOAT | R32G32B32A32_SFLOAT
  | R64_SFLOAT | R64G64_SFLOAT | R64G64B64_SFLOAT | R64G64B64A64_SFLOAT.

Definition getStrideFromVulkanFormat (f : VkFormat) : Z :=
  match f with
  | R8_SINT | R32_SINT => 4
  | R32_SFLOAT => 4
  | R32G32_SFLOAT => 8
  | R32G32B32_SFLOAT => 12
  | R32G32B32A32_SFLOAT => 16
  | R32G32_SINT => 8
  | R32G32B32_SINT => 12
  | R32G32B32A32_SINT => 16
  | R32G32_UINT => 8
  | R32G32B32_UINT => 12
  | R32G32B32A32_UINT => 16
  | _ => 0
  end.

(** The base types of SPIRV-Cross that are told apart. *)
Inductive BaseType := UInt | Int | Float | Double | OtherType.

Definition getVulkanFormat (basetype : BaseType) (vecsize : Z) : outcome VkFormat :=
  let i := u32 (vecsize - 1) in
  match basetype with
  | UInt => at_Z [R32_UINT; R32G32_UINT; R32G32B32_UINT; R32G32B32A32_UINT] i
  | Int => at_Z [R32_SINT; R32G32_SINT; R32G32B32_SINT; R32G32B32A32_SINT] i
  | Float => at_Z [R32_SFLOAT; R32G32_SFLOAT; R32G32B32_SFLOAT; R32G32B32A32_SFLOAT] i
  | Double => at_Z [R64_SFLOAT; R64G64_SFLOAT; R64G64B64_SFLOAT; R64G64B64A64_SFLOAT] i
  | OtherType => Ret R32G32B32A32_SFLOAT
  end.

(** ** The description *)
Definition getShaderTypeByName (name : cstring) : ShaderType :=
  if contains name (str "Vertex") then VERTEX_SHADER
  else if contains name (str "Fragment") then FRAGMENT_SHADER
  else if contains name (str "Geometry") then GEOMETRY_SHADER
  else if contains name (str "Compute") then COMPUTE_SHADER
  else UNKNOWN.

Definition Sources : Type := gmap ShaderType cstring.
Definition CR : cstring := [ascii_of_nat 13].
Definition LF : cstring := [ascii_of_nat 10].

(** [path[1]] is not checked: a declaration without a blank has no second part,
    and the read outside the vector is undefined. *)
Definition parse_line (line : cstring) (shaders : Sources) : outcome Sources :=
  b ← startWith line (str "#");
  if b : bool then
    path ← split_str line (str " ");
    name ← vec_at path 0;
    match getShaderTypeByName name with
    | UNKNOWN => Ret shaders
    | type => p ← vec_at path 1; Ret (<[type := trim p CR]> shaders)
    end
  else Ret shaders.

Definition parseSource (lines : list cstring) (shaders : Sources) : outcome Sources := foldM parse_line lines shaders.

(** ** Reflection *)
Record StageInput := mkInput { i_binding : Z; i_location : Z; i_basetype : BaseType; i_vecsize : Z }.
Record Uniform := mkUniformRes { u_set : Z; u_binding : Z; u_array : option Z }.
Record Resources := mkResources {
  stage_inputs : list StageInput;
  uniform_buffers : list Uniform;
  sampled_images : list Uniform;
  push_constant_buffers : list (list Z)       (* the sizes of the active ranges *)
}.
Record Attribute := mkAttribute { a_binding : Z; a_location : Z; a_format : VkFormat; a_offset : Z }.

Record VulkanShader := mkShader {
  vertexInputStride : Z;
  vertexInputAttributeDescriptions : list Attribute;
  descriptorLayoutInfo : list DescriptorLayoutInfo;
  pushConstants : list PushConstant;
  shaderModules : gmap ShaderType N;
  stageInfos : list (ShaderType * N)
}.
Definition shader0 : VulkanShader := mkShader 0 [] [] [] ∅ [].

Definition add_input (r : StageInput) (s : VulkanShader) : outcome VulkanShader :=
  f ← getVulkanFormat (i_basetype r) (i_vecsize r);
  Ret (mkShader (u32 (vertexInputStride s + getStrideFromVulkanFormat f))
         (vertexInputAttributeDescriptions s ++ [mkAttribute (i_binding r) (i_location r) f (vertexInputStride s)])
         (descriptorLayoutInfo s) (pushConstants s) (shaderModules s) (stageInfos s)).

Definition addLayout (ty : DescriptorType) (stage : ShaderType) (us : list Uniform) (s : VulkanShader) : VulkanShader :=
  mkShader (vertexInputStride s) (vertexInputAttributeDescriptions s)
    (descriptorLayoutInfo s ++ ((fun u => mkLayout ty stage (u_set u) (u_binding u) (match u_array u with Some n => n | None => 1 end)) <$> us))
    (pushConstants s) (shaderModules s) (stageInfos s).

Definition add_push (stage : ShaderType) (ranges : list Z) (s : VulkanShader) : VulkanShader :=
  mkShader (vertexInputStride s) (vertexInputAttributeDescriptions s) (descriptorLayoutInfo s)
    (pushConstants s ++ [mkPush (fold_left (fun n r => u32 (n + u32 r)) ranges 0) stage 0]) (shaderModules s) (stageInfos s).

Section Create.
(** The modules of the driver, and SPIRV-Cross. *)
Context (vkCreateShaderModule : bytes -> option N) (reflect : bytes -> Resources).

Definition createShader (code : bytes) (ty : ShaderType) (s : VulkanShader) : outcome (VulkanShader * N) :=
  match vkCreateShaderModule code with
  | None => Exn RuntimeError
  | Some m =>
      let r := reflect code in
      s ← (if decide (ty = VERTEX_SHADER)
           then foldM add_input (stage_inputs r)
                  (mkShader 0 (vertexInputAttributeDescriptions s) (descriptorLayoutInfo s) (pushConstants s) (shaderModules s) (stageInfos s))
           else Ret s);
      let s := addLayout UNIFORM_BUFFER ty (uniform_buffers r) s in
      let s := addLayout IMAGE_SAMPLER ty (sampled_images r) s in
      Ret (fold_left (fun s p => add_push ty p s) (push_constant_buffers r) s, m)
  end.

(** One turn of the loop over the sources. *)
Definition load_stage (d : disk) (x : ShaderType * cstring) (s : VulkanShader) : outcome VulkanShader :=
  code ← File_read d (snd x);
  '(s, m) ← createShader code (fst x) s;
  Ret (mkShader (vertexInputStride s) (vertexInputAttributeDescriptions s) (descriptorLayoutInfo s) (pushConstants s)
         (<[fst x := m]> (shaderModules s)) (stageInfos s)).

(** The order in which a hash map is walked. *)
Context (order : forall A, gmap ShaderType A -> list (ShaderType * A)).

Definition make (d : disk) (path : cstring) : outcome VulkanShader :=
  buffer ← File_read d path;
  lines ← split_str buffer LF;
  sources ← parseSource lines ∅;
  s ← foldM (load_stage d) (order cstring sources) shader0;
  Ret (mkShader (vertexInputStride s) (vertexInputAttributeDescriptions s) (descriptorLayoutInfo s) (pushConstants s)
         (shaderModules s) (order N (shaderModules s))).
End Create.

(** The pushes recorded: stage, offset, size.  The index stays zero. *)
Definition bindPushConstants (s : VulkanShader) : list (ShaderType * Z * Z) :=
  (fun p => (shaderStage p, 0, p_size p)) <$> pushConstants s.

(** Null outside. *)
Definition getPushConstant (index : Z) (s : VulkanShader) : option PushConstant :=
  if Z.of_nat (length (pushConstants s)) <=? index then None else pushConstants s !! Z.to_nat index.
End Shader.

(** ** Properties *)
Module ShaderProps.
Import DescriptorSet Shader.

(** *** Descriptions *)

(** The keyword of a stage. *)
Definition keyword (ty : ShaderType) : cstring :=
  match ty with
  | VERTEX_SHADER => str "Vertex" | FRAGMENT_SHADER => str "Fragment" | GEOMETRY_SHADER => str "Geometry"
  | COMPUTE_SHADER => str "Compute" | _ => str "Unknown"
  end.
Definition stage (ty : ShaderType) : Prop := getShaderTypeByName (str "#" ++ keyword ty) = ty /\ ty <> UNKNOWN.

Lemma stages : Forall stage [VERTEX_SHADER; FRAGMENT_SHADER; GEOMETRY_SHADER; COMPUTE_SHADER].
Proof. rewrite !Forall_cons, Forall_nil. unfold stage. split_and!; try done; vm_compute; reflexivity. Qed.

(** The lines of a description: declarations, with or without a carriage return,
    and other text. *)
Inductive Line := Decl (ty : ShaderType) (path : cstring) (cr : bool) | Other (text : cstring).

Definition render (l : Line) : cstring :=
  match l with
  | Decl ty path cr => str "#" ++ keyword ty ++ str " " ++ path ++ (if cr then CR else [])
  | Other text => text
  end.
Definition description (ls : list Line) : cstring := join LF (render <$> ls).

(** Paths without blanks and line ends; other text that is no directive. *)
Definition well_formed (l : Line) : Prop :=
  match l with
  | Decl ty path _ => stage ty /\ path <> [] /\ Forall (fun c => c ∉ str " " ++ LF ++ CR) path
  | Other text => ascii_of_nat 10 ∉ text /\ head text <> Some "#"%char
  end.

Definition declared (ls : list Line) (shaders : Sources) : Sources :=
  fold_left (fun m l => match l with Decl ty path _ => <[ty := path]> m | Other _ => m end) ls shaders.

Lemma trim_CR path cr : path <> [] -> Forall (fun c => c ∉ CR) path -> trim (path ++ (if cr : bool then CR else [])) CR = path.
Proof.
  intros Hne Hp. destruct (trim_set_spec (path ++ (if cr then CR else [])) CR) as (l & r & E & Hl & Hr & Hh & Hlast).
  unfold trim. set (t := trim_set _ _) in *.
  assert (l = []) as ->.
  { destruct l as [|c l]; [done|]. destruct path as [|c' path]; [done|]. cbn in E. injection E as <- _.
    apply Forall_cons in Hl as [Hl _], Hp as [Hp _]. done. }
  cbn in E. assert (Forall (fun c => c ∈ CR) r -> forall p q, p ++ q = t ++ r -> Forall (fun c => c ∈ CR) q -> Forall (fun c => c ∉ CR) p ->
    (forall c, last t = Some c -> c ∉ CR) -> p = t) as Hcut.
  { clear. intros Hr p q E Hq Hp Hl. destruct (app_eq_app _ _ _ _ E) as [k [[-> ->]|[-> ->]]].
    - destruct k as [|c k] using rev_ind; [by rewrite app_nil_r|]. apply Forall_app in Hp as [_ Hp]. apply Forall_app in Hr as [Hr _].
      apply Forall_app in Hp as [_ Hp], Hr as [_ Hr]. rewrite Forall_singleton in Hp, Hr. destruct (Hp Hr).
    - destruct k as [|c k] using rev_ind; [by rewrite app_nil_r|]. apply Forall_app in Hq as [Hq _]. apply Forall_app in Hq as [_ Hq].
      rewrite Forall_singleton in Hq. destruct (Hl c); [|done]. by rewrite app_assoc, last_snoc. }
  symmetry. apply (Hcut Hr path (if cr then CR else [])); [done| |done|done].
  destruct cr; [|done]. apply Forall_singleton. by apply list_elem_of_singleton.
Qed.

Lemma stage_blank ty : stage ty -> " "%char ∉ str "#" ++ keyword ty.
Proof. intros _. destruct ty; apply (bool_decide_unpack _); vm_compute; exact I. Qed.
Lemma stage_feed ty : ascii_of_nat 10 ∉ str "#" ++ keyword ty ++ str " ".
Proof. destruct ty; apply (bool_decide_unpack _); vm_compute; exact I. Qed.

Lemma parse_decl ty path cr shaders : well_formed (Decl ty path cr) -> parse_line (render (Decl ty path cr)) shaders = Ret (<[ty := path]> shaders).
Proof.
  intros (Hst & Hne & Hp). unfold parse_line, render. set (tail := path ++ (if cr then CR else [])).
  assert (startWith (str "#" ++ keyword ty ++ str " " ++ tail) (str "#") = Ret true) as ->.
  { unfold startWith, compare_at_eq. cbn. done. }
  rewrite bind_Ret.
  assert (split_str (str "#" ++ keyword ty ++ str " " ++ tail) (str " ") = Ret [str "#" ++ keyword ty; tail]) as ->.
  { unfold split_str. replace (str "#" ++ keyword ty ++ str " " ++ tail) with (join (str " ") [str "#" ++ keyword ty; tail]) by (cbn; by rewrite <- ?app_assoc).
    apply (split_join_single " "%char); [done|]. repeat constructor; [by apply stage_blank|].
    unfold tail. rewrite elem_of_app. intros [Hin|Hin].
    - rewrite Forall_forall in Hp. apply (Hp _ Hin). set_solver.
    - destruct cr; [|by apply elem_of_nil in Hin]. apply list_elem_of_singleton in Hin. by vm_compute in Hin. }
  rewrite bind_Ret. cbn [vec_at lookup list_lookup]. rewrite bind_Ret.
  assert (trim tail CR = path) as Et.
  { apply trim_CR; [done|]. eapply Forall_impl; [exact Hp|]. cbn. intros c Hc. set_solver. }
  destruct Hst as [Hty Hnu]. rewrite Hty. destruct ty; cbn [vec_at lookup list_lookup]; rewrite ?bind_Ret, ?Et; done.
Qed.

Lemma parse_other text shaders : head text <> Some "#"%char -> parse_line text shaders = Ret shaders.
Proof.
  intros Hh. unfold parse_line, startWith, compare_at_eq. rewrite decide_True by lia. rewrite bind_Ret.
  rewrite bool_decide_eq_false_2; [done|]. destruct text as [|c text]; [done|]. cbn. intros [= ->]. done.
Qed.

(** A declaration without a path. *)
Lemma parse_no_path bad shaders :
  head bad = Some "#"%char -> " "%char ∉ bad -> getShaderTypeByName bad <> UNKNOWN ->
  parse_line bad shaders = Exn OutOfBounds.
Proof.
  intros Hh Hb Hst. destruct bad as [|c bad]; [done|]. injection Hh as ->. unfold parse_line.
  assert (startWith ("#"%char :: bad) (str "#") = Ret true) as -> by done. rewrite bind_Ret.
  assert (split_str ("#"%char :: bad) (str " ") = Ret ["#"%char :: bad]) as ->.
  { apply (split_join_single " "%char ["#"%char :: bad]); [done|]. by apply Forall_singleton. }
  rewrite bind_Ret. cbn [vec_at lookup list_lookup]. rewrite bind_Ret.
  by destruct (getShaderTypeByName _).
Qed.

Lemma parse_lines ls : forall shaders, Forall well_formed ls -> parseSource (render <$> ls) shaders = Ret (declared ls shaders).
Proof.
  induction ls as [|l ls IH]; intros shaders Hls; [done|]. apply Forall_cons in Hls as [Hl Hls].
  unfold parseSource in *. cbn [fmap list_fmap foldM]. destruct l as [ty path cr|text].
  - rewrite parse_decl by done. rewrite bind_Ret. by apply IH.
  - rewrite parse_other by apply Hl. rewrite bind_Ret. by apply IH.
Qed.

Lemma render_feed l : well_formed l -> ascii_of_nat 10 ∉ render l.
Proof.
  destruct l as [ty path cr|text]; [|by intros [H _]]. intros (_ & _ & Hp). cbn [render].
  replace (str "#" ++ keyword ty ++ str " " ++ path ++ (if cr then CR else [])) with ((str "#" ++ keyword ty ++ str " ") ++ path ++ (if cr then CR else []))
    by (by rewrite <- !app_assoc).
  intros [Hin|[Hin|Hin]%elem_of_app]%elem_of_app.
  - exact (stage_feed ty Hin).
  - rewrite Forall_forall in Hp. apply (Hp _ Hin). set_solver.
  - destruct cr; [|by apply elem_of_nil in Hin]. apply list_elem_of_singleton in Hin. by vm_compute in Hin.
Qed.

(** *** Layouts *)
Definition attribute_size (r : StageInput) : Z :=
  match getVulkanFormat (i_basetype r) (i_vecsize r) with Ret f => getStrideFromVulkanFormat f | Exn _ => 0 end.
Definition total (rs : list StageInput) : Z := fold_right Z.add 0 (attribute_size <$> rs).

(** What an input takes: four bytes a component, but nothing for a single
    unsigned integer and for doubles, whose formats are not in the table. *)
Definition known_size (r : StageInput) : Z :=
  match i_basetype r with
  | Double => 0
  | UInt => if i_vecsize r =? 1 then 0 else 4 * i_vecsize r
  | OtherType => 16
  | _ => 4 * i_vecsize r
  end.

Definition vector (r : StageInput) : Prop := 1 <= i_vecsize r <= 4.

Lemma format_ok r : vector r -> exists f, getVulkanFormat (i_basetype r) (i_vecsize r) = Ret f /\ getStrideFromVulkanFormat f = known_size r.
Proof.
  unfold vector, known_size, getVulkanFormat. intros Hv.
  assert (i_vecsize r = 1 \/ i_vecsize r = 2 \/ i_vecsize r = 3 \/ i_vecsize r = 4) as [-> | [-> | [-> | ->]]] by lia;
    destruct (i_basetype r); eexists; split; reflexivity.
Qed.

Lemma attribute_size_known r : vector r -> attribute_size r = known_size r.
Proof. intros Hv. unfold attribute_size. by destruct (format_ok r Hv) as (f & -> & ->). Qed.

Lemma known_size_range r : vector r -> 0 <= known_size r <= 16.
Proof. unfold vector, known_size. destruct (i_basetype r), (Z.eqb_spec (i_vecsize r) 1); lia. Qed.

(** The attributes of the inputs [rs], the first at [off]. *)
Fixpoint laid_out (off : Z) (rs : list StageInput) (atts : list Attribute) : Prop :=
  match rs, atts with
  | [], [] => True
  | r :: rs, a :: atts =>
      a_offset a = off /\ a_binding a = i_binding r /\ a_location a = i_location r
      /\ getVulkanFormat (i_basetype r) (i_vecsize r) = Ret (a_format a) /\ laid_out (off + known_size r) rs atts
  | _, _ => False
  end.

Lemma inputs_ok rs : forall s, Forall vector rs -> 0 <= vertexInputStride s -> vertexInputStride s + 16 * Z.of_nat (length rs) < 2 ^ 32 ->
  exists s' atts, foldM add_input rs s = Ret s' /\ vertexInputAttributeDescriptions s' = vertexInputAttributeDescriptions s ++ atts
    /\ laid_out (vertexInputStride s) rs atts /\ vertexInputStride s' = vertexInputStride s + fold_right Z.add 0 (known_size <$> rs)
    /\ descriptorLayoutInfo s' = descriptorLayoutInfo s /\ pushConstants s' = pushConstants s.
Proof.
  induction rs as [|r rs IH]; intros s Hv H0 Hb.
  - exists s, []. cbn. rewrite app_nil_r, Z.add_0_r. by split_and!.
  - apply Forall_cons in Hv as [Hr Hv]. destruct (format_ok r Hr) as (f & Ef & Es). pose proof (known_size_range r Hr) as Hk.
    cbn [foldM length] in *. set (s1 := mkShader (vertexInputStride s + known_size r)
      (vertexInputAttributeDescriptions s ++ [mkAttribute (i_binding r) (i_location r) f (vertexInputStride s)])
      (descriptorLayoutInfo s) (pushConstants s) (shaderModules s) (stageInfos s)).
    assert (add_input r s = Ret s1) as -> by (unfold add_input; by rewrite Ef, bind_Ret, Es, u32_small by lia).
    rewrite bind_Ret. destruct (IH s1) as (s' & atts & E & Ea & Hl & Hs & Hd & Hp); [done|cbn; lia|cbn; lia|].
    exists s', (mkAttribute (i_binding r) (i_location r) f (vertexInputStride s) :: atts). rewrite E, Ea. cbn in *.
    split_and!; try done; [by rewrite <- app_assoc|lia].
Qed.

(** C22. Reading a description.  A text of declarations, one a line, with or without carriage returns
    and mixed with other lines, is split and parsed into the map from stages to
    paths in which the last declaration of a stage counts.  A line that names a
    stage but has no blank in it makes the parser read outside the vector of its
    parts, whatever well-formed lines come before it and any lines after it. *)
Theorem description_parsed (ls : list Line) : ls <> [] -> Forall well_formed ls ->
  (lines ← split_str (description ls) LF; parseSource lines ∅) = Ret (declared ls ∅)
  /\ Forall stage [VERTEX_SHADER; FRAGMENT_SHADER; GEOMETRY_SHADER; COMPUTE_SHADER]
  /\ (forall bad after, head bad = Some "#"%char -> " "%char ∉ bad -> getShaderTypeByName bad <> UNKNOWN ->
       parseSource ((render <$> ls) ++ bad :: after) ∅ = Exn OutOfBounds).
Proof.
  intros Hne Hls. split_and!; [|apply stages|].
  2: { intros bad after Hh Hb Hst. unfold parseSource. rewrite foldM_app.
       pose proof (parse_lines ls ∅ Hls) as E. unfold parseSource in E. rewrite E, bind_Ret.
       cbn [foldM]. by rewrite parse_no_path. }
  assert (split_str (description ls) LF = Ret (render <$> ls)) as ->.
  { apply (split_join_single (ascii_of_nat 10)); [by destruct ls|]. rewrite Forall_fmap. eapply Forall_impl; [exact Hls|]. apply render_feed. }
  rewrite bind_Ret. by apply parse_lines.
Qed.

Lemma description_parsed_witness :
  (lines ← split_str (description [Decl VERTEX_SHADER (str "a.spv") true; Other []; Decl FRAGMENT_SHADER (str "b.spv") false]) LF; parseSource lines ∅)
    = Ret (<[FRAGMENT_SHADER := str "b.spv"]> (<[VERTEX_SHADER := str "a.spv"]> ∅)).
Proof.
  apply description_parsed; [done|]. repeat constructor; try done; try (apply (bool_decide_unpack _); vm_compute; exact I); try (vm_compute; reflexivity).
Defined.

(** The layout of vertices.  Reflecting a vertex stage whose inputs are vectors of one to four
    components gives one attribute per input, with its binding, location and
    format, at the sum of the sizes before it, and the stride is the sum of all.
    A size is four bytes a component, except that single unsigned integers and
    doubles count nothing, so that the next attribute overlaps them.  All push
    constants are bound at offset zero. *)
Theorem vertex_layout mods reflect code m (s : VulkanShader) : mods code = Some m ->
  Forall vector (stage_inputs (reflect code)) -> 16 * Z.of_nat (length (stage_inputs (reflect code))) < 2 ^ 32 ->
  exists s' atts, createShader mods reflect code VERTEX_SHADER s = Ret (s', m)
    /\ vertexInputAttributeDescriptions s' = vertexInputAttributeDescriptions s ++ atts
    /\ laid_out 0 (stage_inputs (reflect code)) atts
    /\ vertexInputStride s' = fold_right Z.add 0 (known_size <$> stage_inputs (reflect code))
    /\ Forall (fun p => snd (fst p) = 0) (bindPushConstants s').
Proof.
  intros Hm Hv Hb. unfold createShader. rewrite Hm, decide_True by done.
  set (s0 := mkShader 0 _ _ _ _ _). destruct (inputs_ok _ s0 Hv) as (s1 & atts & E & Ea & Hl & Hs & _ & _); [done|cbn; lia|].
  rewrite E, bind_Ret.
  assert (forall ps t, vertexInputAttributeDescriptions (fold_left (fun s p => add_push VERTEX_SHADER p s) ps t) = vertexInputAttributeDescriptions t
    /\ vertexInputStride (fold_left (fun s p => add_push VERTEX_SHADER p s) ps t) = vertexInputStride t) as Hpush.
  { induction ps as [|p ps IH]; intros t; [done|]. cbn [fold_left]. by destruct (IH (add_push VERTEX_SHADER p t)) as [-> ->]. }
  eexists _, atts. split; [reflexivity|]. rewrite !(proj1 (Hpush _ _)), !(proj2 (Hpush _ _)). cbn [addLayout vertexInputAttributeDescriptions vertexInputStride].
  rewrite Ea, Hs. split_and!; [done|done|by cbn|]. unfold bindPushConstants. by apply Forall_fmap, Forall_true.
Qed.

Definition one_uint : bytes -> Resources := fun _ =>
  mkResources [mkInput 0 0 Float 3; mkInput 0 1 UInt 1; mkInput 0 2 Float 2] [] [] [].

Lemma vertex_layout_witness :
  exists s' atts, createShader (fun _ => Some 1%N) one_uint [] VERTEX_SHADER shader0 = Ret (s', 1%N) /\ laid_out 0 (stage_inputs (one_uint [])) atts
    /\ vertexInputStride s' = 20.
Proof.
  destruct (vertex_layout (fun _ => Some 1%N) one_uint [] 1%N shader0) as (s' & atts & E & _ & Hl & Hs & _).
  - reflexivity.
  - unfold vector. repeat constructor; cbn; lia.
  - reflexivity.
  - exists s', atts. exact (conj E (conj Hl Hs)).
Defined.
End ShaderProps.
