(* ===== verification/Geometry.v ===== *)
(** * Geometry: vectors, boxes, rectangles and rays

    Models [Math/Rect2D.h], [Math/BoundingBox.*], [Math/Ray.*],
    [Math/MathUtils.h] and [Engine/Vertex.*] over the machine floats.  Vector
    operations are glm's componentwise ones, as its sources define them.  The
    theorems say that merging points yields the least box that contains them and
    that [Ray::hit] returns the least distance at which the ray enters a face. *)

From S2P Require Import Prelude Float32.
From stdpp Require Import base decidable list sets.
From Stdlib Require Import ZArith SpecFloat Lia.

(** ** What the engine uses of glm *)
Module Glm.
Definition add2 (a b : vec2) : vec2 := mkVec2 (F32.add (v2x a) (v2x b)) (F32.add (v2y a) (v2y b)).
Definition sub2 (a b : vec2) : vec2 := mkVec2 (F32.sub (v2x a) (v2x b)) (F32.sub (v2y a) (v2y b)).
Definition scale2 (a : vec2) (s : f32) : vec2 := mkVec2 (F32.mul (v2x a) s) (F32.mul (v2y a) s).
Definition over2 (a : vec2) (s : f32) : vec2 := mkVec2 (F32.div (v2x a) s) (F32.div (v2y a) s).

Definition add3 (a b : vec3) : vec3 :=
  mkVec3 (F32.add (v3x a) (v3x b)) (F32.add (v3y a) (v3y b)) (F32.add (v3z a) (v3z b)).
Definition sub3 (a b : vec3) : vec3 :=
  mkVec3 (F32.sub (v3x a) (v3x b)) (F32.sub (v3y a) (v3y b)) (F32.sub (v3z a) (v3z b)).
Definition scale3 (a : vec3) (s : f32) : vec3 :=
  mkVec3 (F32.mul (v3x a) s) (F32.mul (v3y a) s) (F32.mul (v3z a) s).
(** [scalar * vector]. *)
Definition lscale3 (s : f32) (a : vec3) : vec3 :=
  mkVec3 (F32.mul s (v3x a)) (F32.mul s (v3y a)) (F32.mul s (v3z a)).
Definition dot3 (a b : vec3) : f32 :=
  F32.add (F32.add (F32.mul (v3x a) (v3x b)) (F32.mul (v3y a) (v3y b))) (F32.mul (v3z a) (v3z b)).
Definition cross (x y : vec3) : vec3 :=
  mkVec3 (F32.sub (F32.mul (v3y x) (v3z y)) (F32.mul (v3y y) (v3z x)))
         (F32.sub (F32.mul (v3z x) (v3x y)) (F32.mul (v3z y) (v3x x)))
         (F32.sub (F32.mul (v3x x) (v3y y)) (F32.mul (v3x y) (v3y x))).
Definition length3 (a : vec3) : f32 := F32.sqrt (dot3 a a).
Definition normalize3 (a : vec3) : vec3 := scale3 a (F32.div F32.one (F32.sqrt (dot3 a a))).
Definition eqb3 (a b : vec3) : bool :=
  F32.eqb (v3x a) (v3x b) && F32.eqb (v3y a) (v3y b) && F32.eqb (v3z a) (v3z b).

Definition add4 (a b : vec4) : vec4 :=
  mkVec4 (F32.add (v4x a) (v4x b)) (F32.add (v4y a) (v4y b)) (F32.add (v4z a) (v4z b)) (F32.add (v4w a) (v4w b)).
Definition sub4 (a b : vec4) : vec4 :=
  mkVec4 (F32.sub (v4x a) (v4x b)) (F32.sub (v4y a) (v4y b)) (F32.sub (v4z a) (v4z b)) (F32.sub (v4w a) (v4w b)).
Definition scale4 (a : vec4) (s : f32) : vec4 :=
  mkVec4 (F32.mul (v4x a) s) (F32.mul (v4y a) s) (F32.mul (v4z a) s) (F32.mul (v4w a) s).

Definition splat3 (a : f32) : vec3 := mkVec3 a a a.
Definition splat4 (a : f32) : vec4 := mkVec4 a a a a.
Definition zero2 : vec2 := mkVec2 F32.zero F32.zero.
Definition zero3 : vec3 := splat3 F32.zero.
Definition zero4 : vec4 := splat4 F32.zero.
End Glm.
Import Glm.

(** ** Vertices (Vertex.h, Vertex.cpp) *)
Module Vertex.
Record Vertex := mkVertex { pos : vec3; color : vec4; texCoord : vec2; normal : vec3; tangent : vec3 }.

(** [Vertex{}]: every component is zero. *)
Definition vertex0 : Vertex := mkVertex zero3 zero4 zero2 zero3 zero3.

(** The operators leave the tangent of the result unset: [junk] is its value. *)
Definition sub (junk : vec3) (a b : Vertex) : Vertex :=
  mkVertex (sub3 (pos a) (pos b)) (sub4 (color a) (color b)) (sub2 (texCoord a) (texCoord b))
           (sub3 (normal a) (normal b)) junk.
Definition add (junk : vec3) (a b : Vertex) : Vertex :=
  mkVertex (add3 (pos a) (pos b)) (add4 (color a) (color b)) (add2 (texCoord a) (texCoord b))
           (add3 (normal a) (normal b)) junk.
Definition mul (junk : vec3) (a : Vertex) (factor : f32) : Vertex :=
  mkVertex (scale3 (pos a) factor) (scale4 (color a) factor) (scale2 (texCoord a) factor)
           (scale3 (normal a) factor) junk.

(** [sizeof(Vertex)]: fifteen floats. *)
Definition sizeof_Vertex : Z := 60.

Definition with_normal (n : vec3) (a : Vertex) : Vertex := mkVertex (pos a) (color a) (texCoord a) n (tangent a).
Definition with_tangent (t : vec3) (a : Vertex) : Vertex := mkVertex (pos a) (color a) (texCoord a) (normal a) t.
End Vertex.

(** ** Axis-aligned rectangles (Rect2D.h) *)
Module Rect2D.
Record Rect2D := mkRect { rmin : vec2; rmax : vec2 }.

Definition rect0 : Rect2D := mkRect (mkVec2 F32.infinity F32.infinity) (mkVec2 F32.neg_infinity F32.neg_infinity).
Definition make_sides (left top right bottom : f32) : Rect2D := mkRect (mkVec2 left top) (mkVec2 right bottom).
Definition clear (r : Rect2D) : Rect2D := rect0.
Definition add (a b : Rect2D) : Rect2D := mkRect (add2 (rmin a) (rmin b)) (add2 (rmax a) (rmax b)).
Definition sub (a b : Rect2D) : Rect2D := mkRect (sub2 (rmin a) (rmin b)) (sub2 (rmax a) (rmax b)).
Definition mul (a : Rect2D) (v : f32) : Rect2D := mkRect (scale2 (rmin a) v) (scale2 (rmax a) v).
Definition div (a : Rect2D) (v : f32) : Rect2D := mkRect (over2 (rmin a) v) (over2 (rmax a) v).

(** [if (p < m) m = p] and [if (p > m) m = p]. *)
Definition lower (p m : f32) : f32 := if F32.ltb p m then p else m.
Definition raise (p m : f32) : f32 := if F32.ltb m p then p else m.

Definition merge_point (p : vec2) (r : Rect2D) : Rect2D :=
  mkRect (mkVec2 (lower (v2x p) (v2x (rmin r))) (lower (v2y p) (v2y (rmin r))))
         (mkVec2 (raise (v2x p) (v2x (rmax r))) (raise (v2y p) (v2y (rmax r)))).
Definition merge (b r : Rect2D) : Rect2D :=
  mkRect (mkVec2 (lower (v2x (rmin b)) (v2x (rmin r))) (lower (v2y (rmin b)) (v2y (rmin r))))
         (mkVec2 (raise (v2x (rmax b)) (v2x (rmax r))) (raise (v2y (rmax b)) (v2y (rmax r)))).

Definition center (r : Rect2D) : vec2 := scale2 (add2 (rmax r) (rmin r)) (F32.lit 1 2).
Definition size (r : Rect2D) : vec2 := sub2 (rmax r) (rmin r).
Definition contains (p : vec2) (r : Rect2D) : bool :=
  negb (F32.ltb (v2x p) (v2x (rmin r)) || F32.ltb (v2y p) (v2y (rmin r))
        || F32.ltb (v2x (rmax r)) (v2x p) || F32.ltb (v2y (rmax r)) (v2y p)).
End Rect2D.
Import Rect2D (lower, raise).

(** ** Bounding boxes (BoundingBox.h) *)
Module BoundingBox.
Record BoundingBox := mkBox { bmin : vec3; bmax : vec3 }.

Definition box0 : BoundingBox := mkBox (splat3 F32.infinity) (splat3 F32.neg_infinity).
Definition of_rect (r : Rect2D.Rect2D) : BoundingBox :=
  mkBox (mkVec3 (v2x (Rect2D.rmin r)) (v2y (Rect2D.rmin r)) F32.zero)
        (mkVec3 (v2x (Rect2D.rmax r)) (v2y (Rect2D.rmax r)) F32.zero).
Definition clear (b : BoundingBox) : BoundingBox := box0.

Definition merge_point (p : vec3) (b : BoundingBox) : BoundingBox :=
  mkBox (mkVec3 (lower (v3x p) (v3x (bmin b))) (lower (v3y p) (v3y (bmin b))) (lower (v3z p) (v3z (bmin b))))
        (mkVec3 (raise (v3x p) (v3x (bmax b))) (raise (v3y p) (v3y (bmax b))) (raise (v3z p) (v3z (bmax b)))).
Definition merge (c b : BoundingBox) : BoundingBox :=
  mkBox (mkVec3 (lower (v3x (bmin c)) (v3x (bmin b))) (lower (v3y (bmin c)) (v3y (bmin b)))
                (lower (v3z (bmin c)) (v3z (bmin b))))
        (mkVec3 (raise (v3x (bmax c)) (v3x (bmax b))) (raise (v3y (bmax c)) (v3y (bmax b)))
                (raise (v3z (bmax c)) (v3z (bmax b)))).

(** The transformation of both corners; the matrix product is glm's. *)
Definition transform (mat_mul_point : vec3 -> vec3) (b : BoundingBox) : BoundingBox :=
  mkBox (mat_mul_point (bmin b)) (mat_mul_point (bmax b)).

Definition center (b : BoundingBox) : vec3 := scale3 (add3 (bmax b) (bmin b)) (F32.lit 1 2).
Definition size (b : BoundingBox) : vec3 := sub3 (bmax b) (bmin b).
Definition isDefined (b : BoundingBox) : bool := negb (F32.eqb (v3x (bmin b)) F32.infinity).
Definition contains (p : vec3) (b : BoundingBox) : bool :=
  negb (F32.ltb (v3x p) (v3x (bmin b)) || F32.ltb (v3x (bmax b)) (v3x p)
        || F32.ltb (v3y p) (v3y (bmin b)) || F32.ltb (v3y (bmax b)) (v3y p)
        || F32.ltb (v3z p) (v3z (bmin b)) || F32.ltb (v3z (bmax b)) (v3z p)).
End BoundingBox.
Import BoundingBox.

(** ** Interpolation and comparison (MathUtils.h) *)
Module MathUtils.
Definition EPS : f32 := F32.lit 1 1000000.
(** [std::max<float>(t, 0)] and [std::min<float>(t, 1)]: the first argument unless the second is strictly better. *)
Definition clamp01 (t : f32) : f32 :=
  let u := if F32.ltb t F32.zero then F32.zero else t in
  if F32.ltb F32.one u then F32.one else u.
Definition lerp (from to_ t : f32) (clamp : bool) : f32 :=
  let t := if clamp then clamp01 t else t in
  F32.add from (F32.mul (F32.sub to_ from) t).
Definition lerp3 (from to_ : vec3) (t : f32) : vec3 :=
  add3 (scale3 from (F32.sub F32.one t)) (scale3 to_ t).
Definition equals (lhs rhs : f32) : bool :=
  F32.leb rhs (F32.add lhs EPS) && F32.leb (F32.sub lhs EPS) rhs.
End MathUtils.

(** ** Rays (Ray.h, Ray.cpp) *)
Module Ray.
Record Ray := mkRay { origin : vec3; direction : vec3 }.

Definition set (o d : vec3) : Ray := mkRay o (normalize3 d).
Definition project (p : vec3) (r : Ray) : vec3 :=
  let offset := sub3 p (origin r) in
  add3 (origin r) (lscale3 (dot3 offset (direction r)) (direction r)).
Definition distance (p : vec3) (r : Ray) : f32 := length3 (sub3 p (project p r)).

Definition getClosestPoint (ray r : Ray) : vec3 :=
  let p13 := sub3 (origin r) (origin ray) in
  let p43 := direction ray in
  let p21 := direction r in
  let d1343 := dot3 p13 p43 in
  let d4321 := dot3 p43 p21 in
  let d1321 := dot3 p13 p21 in
  let d4343 := dot3 p43 p43 in
  let d2121 := dot3 p21 p21 in
  let d := F32.sub (F32.mul d2121 d4343) (F32.mul d4321 d4321) in
  if F32.ltb (F32.abs d) MathUtils.EPS then origin r
  else
    let n := F32.sub (F32.mul d1343 d4321) (F32.mul d1321 d4343) in
    let a := F32.div n d in
    add3 (origin r) (lscale3 a (direction r)).

(** One of the six blocks of [hit]: the guard, the distance to the plane of the
    face, and the test of the two other coordinates of the point reached. *)
Definition face (r : Ray) (guard : bool) (plane o d : f32) (u v : vec3 -> f32) (b : BoundingBox) (dist : f32) : f32 :=
  if guard then
    let x := F32.div (F32.sub plane o) d in
    if F32.ltb x dist then
      let point := add3 (origin r) (lscale3 x (direction r)) in
      if F32.leb (u (bmin b)) (u point) && F32.leb (u point) (u (bmax b))
         && F32.leb (v (bmin b)) (v point) && F32.leb (v point) (v (bmax b))
      then x else dist
    else dist
  else dist.

Definition hit (r : Ray) (b : BoundingBox) : f32 :=
  if negb (isDefined b) then F32.infinity
  else if contains (origin r) b then F32.zero
  else
    let o := origin r in let d := direction r in
    let low c := F32.ltb (c o) (c (bmin b)) && F32.ltb F32.zero (c d) in
    let high c := F32.ltb (c (bmax b)) (c o) && F32.ltb (c d) F32.zero in
    let dist := F32.infinity in
    let dist := face r (low v3x) (v3x (bmin b)) (v3x o) (v3x d) v3y v3z b dist in
    let dist := face r (high v3x) (v3x (bmax b)) (v3x o) (v3x d) v3y v3z b dist in
    let dist := face r (low v3y) (v3y (bmin b)) (v3y o) (v3y d) v3x v3z b dist in
    let dist := face r (high v3y) (v3y (bmax b)) (v3y o) (v3y d) v3x v3z b dist in
    let dist := face r (low v3z) (v3z (bmin b)) (v3z o) (v3z d) v3x v3y b dist in
    let dist := face r (high v3z) (v3z (bmax b)) (v3z o) (v3z d) v3x v3y b dist in
    dist.
End Ray.

(** ** The least bound of a list of floats *)
Section Bound.
Context (lt : f32 -> f32 -> bool).
Context (lt_nan : forall x, lt S754_nan x = false /\ lt x S754_nan = false).
Context (lt_irrefl : forall x, lt x x = false).
Context (lt_cotrans : forall x y z, is_nan y = false -> lt x y = false -> lt y z = false -> lt x z = false).
Context (lt_antisym : forall x y, lt x y = true -> lt y x = false).

Definition select (p m : f32) : f32 := if lt p m then p else m.

Lemma fold_select_spec l m : is_nan m = false ->
  let r := fold_left (fun m p => select p m) l m in
  is_nan r = false /\ lt m r = false /\ (forall p, p ∈ l -> lt p r = false) /\ (r = m \/ r ∈ l).
Proof.
  revert m. induction l as [|p l IH]; intros m Hm; cbn; [set_solver|].
  assert (is_nan (select p m) = false /\ lt m (select p m) = false /\ lt p (select p m) = false
          /\ (select p m = m \/ select p m = p)) as (Hn & Hlm & Hlp & Hor).
  { unfold select. destruct (lt p m) eqn:E; [|auto].
    split_and!; auto. destruct p; try done. destruct (lt_nan m) as [Hx _]. congruence. }
  destruct (IH _ Hn) as (H1 & H2 & H3 & H4). split_and!; [done| | |].
  - by apply (lt_cotrans _ (select p m)).
  - intros q [->|Hq]%elem_of_cons; [by apply (lt_cotrans _ (select p m))|auto].
  - destruct H4 as [->|H4]; [destruct Hor as [->| ->]; set_solver|set_solver].
Qed.
End Bound.

Lemma F32_cotrans x y z :
  is_nan y = false -> F32.ltb x y = false -> F32.ltb y z = false -> F32.ltb x z = false.
Proof.
  intros Hy H1 H2. destruct (is_nan x) eqn:Hx; [by destruct x|].
  destruct (is_nan z) eqn:Hz; [destruct z; try done; apply ltb_nan_r|]. by apply (ltb_cotrans x y z).
Qed.

Abbreviation lowest := (fold_left (fun m p => lower p m)).
Abbreviation highest := (fold_left (fun m p => raise p m)).

Lemma lowest_spec l m : is_nan m = false ->
  is_nan (lowest l m) = false /\ F32.ltb m (lowest l m) = false
  /\ (forall p, p ∈ l -> F32.ltb p (lowest l m) = false) /\ (lowest l m = m \/ lowest l m ∈ l).
Proof.
  apply (fold_select_spec F32.ltb); auto using ltb_nan_l, ltb_nan_r, ltb_irrefl, ltb_antisym.
  apply F32_cotrans.
Qed.

Lemma highest_spec l m : is_nan m = false ->
  is_nan (highest l m) = false /\ F32.ltb (highest l m) m = false
  /\ (forall p, p ∈ l -> F32.ltb (highest l m) p = false) /\ (highest l m = m \/ highest l m ∈ l).
Proof.
  apply (fold_select_spec (fun x y => F32.ltb y x)); auto using ltb_nan_l, ltb_nan_r, ltb_irrefl, ltb_antisym.
  intros x y z Hy H1 H2. by apply (F32_cotrans z y x).
Qed.

Module GeometryProps.

(** The box of a list of points, as [Mesh::Mesh] accumulates it. *)
Definition merge_all (pts : list vec3) (b : BoundingBox) : BoundingBox := fold_left (fun b p => merge_point p b) pts b.

Lemma merge_all_fold pts b :
  merge_all pts b =
  mkBox (mkVec3 (lowest (v3x <$> pts) (v3x (bmin b))) (lowest (v3y <$> pts) (v3y (bmin b)))
                (lowest (v3z <$> pts) (v3z (bmin b))))
        (mkVec3 (highest (v3x <$> pts) (v3x (bmax b))) (highest (v3y <$> pts) (v3y (bmax b)))
                (highest (v3z <$> pts) (v3z (bmax b)))).
Proof. revert b. induction pts as [|p pts IH]; intros [[] []]; [done|]. cbn. by rewrite IH. Qed.

(** Containment, coordinate by coordinate. *)
Definition within (c : vec3 -> f32) (p : vec3) (b : BoundingBox) : Prop :=
  F32.ltb (c p) (c (bmin b)) = false /\ F32.ltb (c (bmax b)) (c p) = false.

Lemma contains_within p b : contains p b = true <-> within v3x p b /\ within v3y p b /\ within v3z p b.
Proof. unfold contains, within. rewrite negb_true_iff, !orb_false_iff. tauto. Qed.

Lemma ltb_infinity x : F32.ltb F32.infinity x = false.
Proof. by destruct x as [[]|[]| |[]]. Qed.
Lemma ltb_neg_infinity x : F32.ltb x F32.neg_infinity = false.
Proof. by destruct x as [[]|[]| |[]]. Qed.

(** One coordinate of the accumulated box: it bounds every point, and every
    other bound of the points bounds it. *)
Lemma coordinate_least (c : vec3 -> f32) pts lo hi :
  lo = lowest (c <$> pts) F32.infinity -> hi = highest (c <$> pts) F32.neg_infinity ->
  (forall p, p ∈ pts -> F32.ltb (c p) lo = false /\ F32.ltb hi (c p) = false) /\
  (forall q b, F32.ltb q lo = false -> F32.ltb hi q = false -> (forall p, p ∈ pts -> within c p b) ->
     F32.ltb q (c (bmin b)) = false /\ F32.ltb (c (bmax b)) q = false).
Proof.
  intros -> ->.
  destruct (lowest_spec (c <$> pts) F32.infinity eq_refl) as (N1 & _ & L1 & L2).
  destruct (highest_spec (c <$> pts) F32.neg_infinity eq_refl) as (N2 & _ & U1 & U2).
  split; [intros p Hp; split; [apply L1|apply U1]; apply list_elem_of_fmap; eauto|].
  intros q b Hl Hu Hb. split.
  - apply (F32_cotrans _ _ _ N1 Hl). destruct L2 as [->|(p & -> & Hp)%list_elem_of_fmap]; [apply ltb_infinity|].
    by apply Hb.
  - apply (F32_cotrans _ (highest (c <$> pts) F32.neg_infinity)); [done| |done].
    destruct U2 as [->|(p & -> & Hp)%list_elem_of_fmap]; [apply ltb_neg_infinity|]. by apply Hb.
Qed.

(** The bounding box of a mesh, accumulated by merging its points into the
    cleared box, contains every point, and it is the least such box: any box
    that contains the points contains everything it contains.  This holds for
    all machine floats, NaN and infinities included. *)
Theorem bounding_box_least (pts : list vec3) :
  (forall p, p ∈ pts -> contains p (merge_all pts box0) = true) /\
  (forall b, (forall p, p ∈ pts -> contains p b = true) ->
     forall q, contains q (merge_all pts box0) = true -> contains q b = true).
Proof.
  rewrite merge_all_fold.
  pose proof (coordinate_least v3x pts _ _ eq_refl eq_refl) as [X1 X2].
  pose proof (coordinate_least v3y pts _ _ eq_refl eq_refl) as [Y1 Y2].
  pose proof (coordinate_least v3z pts _ _ eq_refl eq_refl) as [Z1 Z2].
  split; [intros p Hp; apply contains_within; split_and!; [by apply X1|by apply Y1|by apply Z1]|].
  intros b Hb q ([] & [] & [])%contains_within.
  assert (forall p, p ∈ pts -> within v3x p b /\ within v3y p b /\ within v3z p b) as Hw
    by (intros p Hp; by apply contains_within, Hb).
  apply contains_within. split_and!; [apply X2|apply Y2|apply Z2]; try done; intros p Hp; by apply Hw.
Qed.

(** ** The faces a ray enters *)

(** The distances [hit] considers: for each face the ray approaches from
    outside, the distance to its plane when the point reached lies in the face. *)
Definition entry (r : Ray.Ray) (guard : bool) (plane o d : f32) (u v : vec3 -> f32) (b : BoundingBox) : list f32 :=
  let x := F32.div (F32.sub plane o) d in
  let point := add3 (Ray.origin r) (lscale3 x (Ray.direction r)) in
  if guard && (F32.leb (u (bmin b)) (u point) && F32.leb (u point) (u (bmax b))
               && F32.leb (v (bmin b)) (v point) && F32.leb (v point) (v (bmax b)))
  then [x] else [].

Definition entries (r : Ray.Ray) (b : BoundingBox) : list f32 :=
  let o := Ray.origin r in let d := Ray.direction r in
  let low c := F32.ltb (c o) (c (bmin b)) && F32.ltb F32.zero (c d) in
  let high c := F32.ltb (c (bmax b)) (c o) && F32.ltb (c d) F32.zero in
  entry r (low v3x) (v3x (bmin b)) (v3x o) (v3x d) v3y v3z b ++
  entry r (high v3x) (v3x (bmax b)) (v3x o) (v3x d) v3y v3z b ++
  entry r (low v3y) (v3y (bmin b)) (v3y o) (v3y d) v3x v3z b ++
  entry r (high v3y) (v3y (bmax b)) (v3y o) (v3y d) v3x v3z b ++
  entry r (low v3z) (v3z (bmin b)) (v3z o) (v3z d) v3x v3y b ++
  entry r (high v3z) (v3z (bmax b)) (v3z o) (v3z d) v3x v3y b.

Lemma face_lowest r g plane o d u v b dist :
  Ray.face r g plane o d u v b dist = lowest (entry r g plane o d u v b) dist.
Proof.
  unfold Ray.face, entry. destruct g; cbn [andb]; [|done].
  destruct (F32.leb _ _ && _ && _ && _); cbn; unfold lower; by destruct (F32.ltb _ _).
Qed.

(** [Ray::hit] of a defined box that does not contain the origin is the least
    distance at which the ray enters one of the faces turned towards it: no
    entry is nearer, and the result is an entry unless it is infinite. *)
Theorem hit_nearest_face (r : Ray.Ray) (b : BoundingBox) :
  isDefined b = true -> contains (Ray.origin r) b = false ->
  (forall x, x ∈ entries r b -> F32.ltb x (Ray.hit r b) = false) /\
  (Ray.hit r b = F32.infinity \/ Ray.hit r b ∈ entries r b).
Proof.
  intros Hdef Hout.
  assert (Ray.hit r b = lowest (entries r b) F32.infinity) as ->.
  { unfold Ray.hit. rewrite Hdef, Hout. cbn [negb]. rewrite !face_lowest. unfold entries. by rewrite !fold_left_app. }
  by apply lowest_spec.
Qed.

Definition v3 (x y z : Z) : vec3 := mkVec3 (F32.of_Z x) (F32.of_Z y) (F32.of_Z z).
Definition demo_ray : Ray.Ray := Ray.mkRay (v3 (-3) 0 0) (v3 1 0 0).
Definition demo_box : BoundingBox := merge_all [v3 (-1) 1 1; v3 1 (-1) (-1)] box0.

Lemma hit_nearest_face_witness :
  Ray.hit demo_ray demo_box = F32.of_Z 2 /\
  (Ray.hit demo_ray demo_box = F32.infinity \/ Ray.hit demo_ray demo_box ∈ entries demo_ray demo_box).
Proof. split; [reflexivity|]. apply (hit_nearest_face demo_ray demo_box); reflexivity. Defined.
End GeometryProps.
