(* ===== verification/Vulkan.v ===== *)
(** * Vulkan: choosing a device, render passes, pipelines and the swap chain

    Models [Engine/Vulkan/VulkanHelper.*] (the choices it makes), [VulkanDevice.*]
    (the physical device), [VulkanRenderPass.*], [VulkanPipeline.*] (what it asks
    the driver for), [VulkanSwapChain.*], [VulkanContext::resize] and
    [Renderer/VkRenderDevice.*].  What the driver answers is an argument; what the
    code asks it for is the list of calls it makes. *)

From S2P Require Import Prelude Strings Float32 Geometry GpuBuffers ShaderFile.
From stdpp Require Import base decidable list gmap sets strings.
From Stdlib Require Import ZArith Ascii Lia.
Local Open Scope Z_scope.
Import Glm.

(** ** Choices (VulkanHelper.cpp) *)
Module VulkanHelper.

(** The index of the first type that the filter admits and that has the properties. *)
Fixpoint findMemoryType (i typeFilter properties : Z) (memoryTypes : list Z) : outcome Z :=
  match memoryTypes with
  | [] => Exn RuntimeError
  | flags :: rest =>
      if negb (Z.land typeFilter (Z.shiftl 1 i) =? 0) && (Z.land flags properties =? properties) then Ret i
      else findMemoryType (i + 1) typeFilter properties rest
  end.

(** The required names that are erased by the available ones. *)
Definition checkDeviceExtensionSupport (available required : list cstring) : bool :=
  bool_decide (fold_left (fun s x => s ∖ {[x]}) available (list_to_set required : gset cstring) = ∅).

Definition checkValidationLayerSupport (available layerNames : list cstring) : bool :=
  forallb (fun n => existsb (fun a => bool_decide (n = a)) available) layerNames.

(** *** Queue families *)
Definition GRAPHICS_BIT : Z := 1.
Definition COMPUTE_BIT : Z := 2.
Record QueueFamilyIndices := mkIndices { graphicsFamily : option Z; presentFamily : option Z; computeFamily : option Z }.
Definition isComplete (x : QueueFamilyIndices) : bool :=
  bool_decide (is_Some (graphicsFamily x)) && bool_decide (is_Some (presentFamily x)) && bool_decide (is_Some (computeFamily x)).

(** A family: its flags, and whether it can present to the surface. *)
Definition see_family (i : Z) (flags : Z) (present : bool) (x : QueueFamilyIndices) : QueueFamilyIndices :=
  mkIndices (if Z.land flags GRAPHICS_BIT =? 0 then graphicsFamily x else Some i)
    (if present then Some i else presentFamily x)
    (if Z.land flags COMPUTE_BIT =? 0 then computeFamily x else Some i).
Fixpoint find_families (i : Z) (families : list (Z * bool)) (x : QueueFamilyIndices) : QueueFamilyIndices :=
  match families with
  | [] => x
  | (flags, present) :: rest =>
      let x := see_family i flags present x in
      if isComplete x then x else find_families (i + 1) rest x
  end.
Definition findQueueFamilies (families : list (Z * bool)) : QueueFamilyIndices := find_families 0 families (mkIndices None None None).

(** *** Formats; those of vertices are in [ShaderFile]. *)
Inductive Format :=
  | R8_UNORM | R8_SRGB | R8G8_UNORM | R8G8_SRGB | R8G8B8_UNORM | R8G8B8_SRGB | R8G8B8A8_UNORM | R8G8B8A8_SRGB
  | R16G16B16_SFLOAT | R16G16B16A16_SFLOAT | R32G32B32_SFLOAT | R32G32B32A32_SFLOAT | B8G8R8A8_UNORM | B8G8R8A8_SRGB
  | D32_SFLOAT_S8_UINT | D32_SFLOAT | D24_UNORM_S8_UINT | D16_UNORM_S8_UINT | D16_UNORM | UNDEFINED_FORMAT.
#[export] Instance Format_eq_dec : EqDecision Format.
Proof. solve_decision. Defined.

Inductive TextureFormat :=
  | TF_NONE | R8 | RG8 | RGB8 | RGBA8 | RGB16 | RGBA16 | RGB32 | RGBA32 | RGB | RGBA | BGRA8 | TF_DEPTH | STENCIL | DEPTH_STENCIL.

Definition textureFormatToVK (format : TextureFormat) (srgb : bool) : Format :=
  if srgb then
    match format with
    | RGBA => R8G8B8A8_UNORM | RGB => R8G8B8_SRGB | R8 => R8_SRGB | RG8 => R8G8_SRGB | RGB8 => R8G8B8A8_SRGB
    | RGBA8 => R8G8B8A8_SRGB | RGB16 => R16G16B16_SFLOAT | RGBA16 => R16G16B16A16_SFLOAT | RGB32 => R32G32B32_SFLOAT
    | RGBA32 => R32G32B32A32_SFLOAT | BGRA8 => B8G8R8A8_SRGB | _ => R8G8B8A8_SRGB
    end
  else
    match format with
    | RGBA => R8G8B8A8_UNORM | RGB => R8G8B8_UNORM | R8 => R8_UNORM | RG8 => R8G8_UNORM | RGB8 => R8G8B8A8_UNORM
    | RGBA8 => R8G8B8A8_UNORM | RGB16 => R16G16B16_SFLOAT | RGBA16 => R16G16B16A16_SFLOAT | RGB32 => R32G32B32_SFLOAT
    | RGBA32 => R32G32B32A32_SFLOAT | BGRA8 => B8G8R8A8_UNORM | _ => R8G8B8A8_UNORM
    end.

(** The features of a format for the two tilings. *)
Record FormatProperties := mkFeatures { linearTilingFeatures : Z; optimalTilingFeatures : Z }.
Definition DEPTH_STENCIL_ATTACHMENT_BIT : Z := 512.
Inductive Tiling := LINEAR | OPTIMAL.

Fixpoint findSupportedFormat (props : Format -> FormatProperties) (candidates : list Format) (tiling : Tiling) (features : Z) : outcome Format :=
  match candidates with
  | [] => Exn RuntimeError
  | format :: rest =>
      let have := match tiling with LINEAR => linearTilingFeatures (props format) | OPTIMAL => optimalTilingFeatures (props format) end in
      if Z.land have features =? features then Ret format else findSupportedFormat props rest tiling features
  end.
Definition findDepthFormat (props : Format -> FormatProperties) : outcome Format :=
  findSupportedFormat props [D32_SFLOAT; D32_SFLOAT_S8_UINT; D24_UNORM_S8_UINT] OPTIMAL DEPTH_STENCIL_ATTACHMENT_BIT.

(** Null when the function returns false. *)
Definition getSupportedDepthFormat (props : Format -> FormatProperties) : option Format :=
  find (fun f => negb (Z.land (optimalTilingFeatures (props f)) DEPTH_STENCIL_ATTACHMENT_BIT =? 0))
    [D32_SFLOAT_S8_UINT; D32_SFLOAT; D24_UNORM_S8_UINT; D16_UNORM_S8_UINT; D16_UNORM].

(** *** The swap chain *)
Record SurfaceFormat := mkSurface { s_format : Format; srgb_nonlinear : bool }.
Definition preferred (f : SurfaceFormat) : bool := bool_decide (s_format f = B8G8R8A8_SRGB) && srgb_nonlinear f.
Definition chooseSwapSurfaceFormat (available : list SurfaceFormat) : outcome SurfaceFormat :=
  match find preferred available with Some f => Ret f | None => vec_at available 0 end.

Inductive PresentMode := IMMEDIATE | MAILBOX | FIFO | FIFO_RELAXED.
#[export] Instance PresentMode_eq_dec : EqDecision PresentMode.
Proof. solve_decision. Defined.
Fixpoint choose_mode (available : list PresentMode) (mode : PresentMode) : PresentMode :=
  match available with
  | [] => mode
  | MAILBOX :: _ => MAILBOX
  | IMMEDIATE :: rest => choose_mode rest IMMEDIATE
  | _ :: rest => choose_mode rest mode
  end.
Definition chooseSwapPresentMode (available : list PresentMode) (vsync : bool) : PresentMode :=
  if vsync then FIFO else choose_mode available FIFO.

Definition UINT32_MAX : Z := 4294967295.
Record Capabilities := mkCapabilities {
  currentExtent : Z * Z; minImageExtent : Z * Z; maxImageExtent : Z * Z; maxImageCount : Z
}.
(** The size of the frame buffer of the window is signed. *)
Definition chooseSwapExtent (c : Capabilities) (width height : Z) : Z * Z :=
  if fst (currentExtent c) =? UINT32_MAX then
    (Z.max (fst (minImageExtent c)) (Z.min (fst (maxImageExtent c)) (u32 width)),
     Z.max (snd (minImageExtent c)) (Z.min (snd (maxImageExtent c)) (u32 height)))
  else currentExtent c.
End VulkanHelper.

(** ** The physical device (VulkanDevice.cpp) *)
Module VulkanDevice.
Import VulkanHelper.

(** What the driver says of a device. *)
Record Device := mkDevice {
  handle : N; families : list (Z * bool); extensions : list cstring;
  formats : list SurfaceFormat; presentModes : list PresentMode; samplerAnisotropy : bool
}.

Definition deviceExtensions : list cstring :=
  [str "VK_KHR_swapchain"; str "VK_KHR_shader_non_semantic_info"; str "VK_KHR_maintenance1"].

(** The indices found, and whether the device can be used. *)
Definition isDeviceSuitable (d : Device) : QueueFamilyIndices * bool :=
  let indices := findQueueFamilies (families d) in
  let supported := checkDeviceExtensionSupport (extensions d) deviceExtensions in
  let adequate := supported && bool_decide (formats d <> []) && bool_decide (presentModes d <> []) in
  (indices, isComplete indices && supported && adequate && samplerAnisotropy d).

(** The loop over the devices; [garbage] is what the handle holds before it is
    assigned, null or not: the constructor leaves the member uninitialised. *)
Fixpoint choose (devices : list Device) (garbage : option N) (indices : QueueFamilyIndices) : option N * QueueFamilyIndices :=
  match devices with
  | [] => (garbage, indices)
  | d :: rest =>
      let '(indices, ok) := isDeviceSuitable d in
      if ok : bool then (Some (handle d), indices) else choose rest garbage indices
  end.
Definition VulkanPhysicalDevice (devices : list Device) (garbage : option N) : outcome (N * QueueFamilyIndices) :=
  match devices with
  | [] => Exn RuntimeError
  | _ =>
      let '(h, indices) := choose devices garbage (mkIndices None None None) in
      match h with Some h => Ret (h, indices) | None => Exn RuntimeError end
  end.

(** The queues asked for in [VulkanDevice::init]: one per distinct family. *)
Definition queue_families (x : QueueFamilyIndices) : outcome (list Z) :=
  match graphicsFamily x, presentFamily x with
  | Some g, Some p => Ret (if bool_decide (g = p) then [g] else if g <? p then [g; p] else [p; g])
  | _, _ => Exn LogicError
  end.
End VulkanDevice.

(** ** Render passes (VulkanRenderPass.cpp) *)
Module RenderPass.
Import VulkanHelper.

Inductive TextureType := COLOR | DEPTH | DEPTHARRAY | CUBE | OTHER.
#[export] Instance TextureType_eq_dec : EqDecision TextureType.
Proof. solve_decision. Defined.

Record AttachmentInfo := mkInfo { textureType : TextureType; i_format : TextureFormat; srgb : bool }.

Inductive Layout :=
  | UNDEFINED | SHADER_READ_ONLY_OPTIMAL | DEPTH_STENCIL_READ_ONLY_OPTIMAL | COLOR_ATTACHMENT_OPTIMAL | DEPTH_STENCIL_ATTACHMENT_OPTIMAL.
Inductive LoadOp := LOAD | CLEAR.

(** A description; loading for colour and for stencil is the same, and
    [LOAD], [UNDEFINED_FORMAT] and [UNDEFINED] have the value zero. *)
Record AttachmentDescription := mkDescription { a_format : Format; initialLayout : Layout; finalLayout : Layout; loadOp : LoadOp }.
Definition description0 : AttachmentDescription := mkDescription UNDEFINED_FORMAT UNDEFINED UNDEFINED LOAD.

Definition getAttachmentDescription (props : Format -> FormatProperties) (info : AttachmentInfo) (clear : bool) : outcome AttachmentDescription :=
  let first := if clear then UNDEFINED else SHADER_READ_ONLY_OPTIMAL in
  let op := if clear then CLEAR else LOAD in
  match textureType info with
  | COLOR => Ret (mkDescription (textureFormatToVK (i_format info) (srgb info)) first SHADER_READ_ONLY_OPTIMAL op)
  | DEPTH | DEPTHARRAY => f ← findDepthFormat props; Ret (mkDescription f first DEPTH_STENCIL_READ_ONLY_OPTIMAL op)
  | CUBE => Ret (mkDescription (textureFormatToVK (i_format info) (srgb info)) COLOR_ATTACHMENT_OPTIMAL COLOR_ATTACHMENT_OPTIMAL op)
  | OTHER => Ret description0
  end.

(** A clear value: a cell of [new VkClearValue[n]] is written by a colour or by a
    depth, or holds garbage. *)
Inductive ClearValue := Garbage | ClearColor (c : vec4) | ClearDepth.

Record RenderPass := mkPass {
  attachments : list AttachmentDescription;
  attachmentTypes : list TextureType;
  colourReferences : list Z;
  depthReferences : list Z;
  clearDepth : bool;
  depthOnly : bool;
  clearValue : list ClearValue
}.

(** The body of the loop of [init]. *)
Definition add_attachment (props : Format -> FormatProperties) (clear : bool) (info : AttachmentInfo) (p : RenderPass) : outcome RenderPass :=
  d ← getAttachmentDescription props info clear;
  let i := Z.of_nat (length (attachments p)) in
  let next col dep cd only := mkPass (attachments p ++ [d]) (attachmentTypes p ++ [textureType info]) col dep cd only (clearValue p) in
  Ret match textureType info with
      | COLOR | CUBE => next (colourReferences p ++ [i]) (depthReferences p) (clearDepth p) false
      | DEPTH | DEPTHARRAY => next (colourReferences p) (depthReferences p ++ [i]) clear (depthOnly p)
      | OTHER => next (colourReferences p) (depthReferences p) (clearDepth p) (depthOnly p)
      end.

Definition init (props : Format -> FormatProperties) (infos : list AttachmentInfo) (clear : bool) : outcome RenderPass :=
  p ← foldM (add_attachment props clear) infos (mkPass [] [] [] [] false true []);
  Ret (mkPass (attachments p) (attachmentTypes p) (colourReferences p) (depthReferences p) (clearDepth p) (depthOnly p)
         (replicate (length infos) Garbage)).

(** The subpass has all colours and the first depth, null if there is none. *)
Definition subpass (p : RenderPass) : list Z * option Z := (colourReferences p, head (depthReferences p)).

(** Filling the clear values in [beginRenderPass]; [clearValue[clearCount - 1]]
    must exist. *)
Definition clear_values (color : vec4) (p : RenderPass) : outcome RenderPass :=
  let vs := if depthOnly p then clearValue p else (fun _ => ClearColor color) <$> clearValue p in
  vs ← (if clearDepth p then
          match vs with [] => Exn OutOfBounds | _ => Ret (<[(length vs - 1)%nat := ClearDepth]> vs) end
        else Ret vs);
  Ret (mkPass (attachments p) (attachmentTypes p) (colourReferences p) (depthReferences p) (clearDepth p) (depthOnly p) vs).

(** *** Recorded commands.  [P] is what push constants hold. *)
Inductive Command (P : Type) :=
  | SetViewport (width height : Z)
  | SetScissor (width height : Z)
  | BeginRenderPass (framebuffer : N) (width height : Z) (clears : list ClearValue)
  | EndRenderPass
  | BindPipeline (pipeline : N)
  | BindVertexBuffer (buffer : N)
  | BindIndexBuffer (buffer : N)
  | PushConstants (data : P)
  | BindDescriptorSets (sets : list (DescriptorSet.DescriptorSet N)) (dynamicCount : Z) (dynamicOffset : Z)
  | DrawIndexed (count : Z).
#[global] Arguments SetViewport {P}.
#[global] Arguments SetScissor {P}.
#[global] Arguments BeginRenderPass {P}.
#[global] Arguments EndRenderPass {P}.
#[global] Arguments BindPipeline {P}.
#[global] Arguments BindVertexBuffer {P}.
#[global] Arguments BindIndexBuffer {P}.
#[global] Arguments PushConstants {P}.
#[global] Arguments BindDescriptorSets {P}.
#[global] Arguments DrawIndexed {P}.

Section Record.
Context {P : Type}.

(** [VulkanCommandBuffer::updateViewport]. *)
Definition updateViewport (width height : Z) : list (Command P) := [SetViewport width height; SetScissor width height].

(** The frame buffer is dereferenced. *)
Definition beginRenderPass (color : vec4) (frame : option N) (width height : Z) (p : RenderPass) : outcome (RenderPass * list (Command P)) :=
  p ← clear_values color p;
  fb ← deref frame;
  Ret (p, updateViewport width height ++ [BeginRenderPass fb width height (clearValue p)]).

(** [Renderer::bindDescriptorSets]: null sets are skipped, the others are
    collected in an array of sixteen. *)
Definition collect (s : option (DescriptorSet.DescriptorSet N)) (x : list (DescriptorSet.DescriptorSet N) * Z) :
    outcome (list (DescriptorSet.DescriptorSet N) * Z) :=
  match s with
  | None => Ret x
  | Some s =>
      if (length (fst x) <? 16)%nat then Ret (fst x ++ [s], if DescriptorSet.dynamic s then u32 (snd x + 1) else snd x) else Exn OutOfBounds
  end.
Definition bindDescriptorSets (dynamicOffset : Z) (sets : list (option (DescriptorSet.DescriptorSet N))) : outcome (list (Command P)) :=
  '(ss, n) ← foldM collect sets ([], 0); Ret [BindDescriptorSets ss n dynamicOffset].

(** [Renderer::drawIndexed]: one instance from the first index, whatever [start]. *)
Definition drawIndexed (count start : Z) : list (Command P) := [DrawIndexed count].
End Record.
End RenderPass.

(** ** Pipelines (VulkanPipeline.cpp) *)
Module Pipeline.
Import VulkanHelper RenderPass ShaderFile.Shader.

Inductive CullMode := FRONT | BACK | FRONTANDBACK | NONE.
Inductive PolygonMode := FILL | LINE | POINT.
Inductive DrawType := DT_POINT | TRIANGLE | TRIANGLE_STRIP | LINES.
Inductive Topology := TRIANGLE_LIST | LINE_LIST | POINT_LIST | STRIP.
Inductive DynamicState := VIEWPORT | SCISSOR | DEPTH_BIAS.
Inductive StageBit := VERTEX_BIT | FRAGMENT_BIT.

Definition drawTypeToTopology (t : DrawType) : Topology :=
  match t with TRIANGLE => TRIANGLE_LIST | LINES => LINE_LIST | DT_POINT => POINT_LIST | TRIANGLE_STRIP => STRIP end.
(** Cull modes are sets of two bits. *)
Definition cullModeToVk (m : CullMode) : Z := match m with NONE => 0 | FRONT => 1 | BACK => 2 | FRONTANDBACK => 3 end.
(** Stages other than the two known ones become the vertex stage. *)
Definition shaderTypeToVK (t : ShaderType) : StageBit := match t with FRAGMENT_SHADER => FRAGMENT_BIT | _ => VERTEX_BIT end.

Record PipelineInfo := mkPipelineInfo {
  renderPass : RenderPass; shader : VulkanShader; cullMode : CullMode; polygonMode : PolygonMode; drawType : DrawType;
  transparencyEnabled : bool; depthBiasEnabled : bool; depthWriteEnable : bool; depthTestEnable : bool
}.

(** *** The layout *)
Record LayoutBinding := mkBinding { b_type : DescriptorSet.DescriptorType; b_stages : StageBit; b_binding : Z; b_count : Z }.
Definition binding_of (d : DescriptorLayoutInfo) : LayoutBinding :=
  mkBinding (l_type d) (shaderTypeToVK (l_stage d)) (l_binding d) (l_count d).

(** The vector of sets grows by one at most: [layouts[setId]] must exist then. *)
Definition add_layout (d : DescriptorLayoutInfo) (layouts : list (list DescriptorLayoutInfo)) : outcome (list (list DescriptorLayoutInfo)) :=
  let layouts := if Z.of_nat (length layouts) <? u32 (l_setId d + 1) then layouts ++ [[]] else layouts in
  l ← at_Z layouts (l_setId d);
  Ret (<[Z.to_nat (l_setId d) := l ++ [d]]> layouts).

Record PipelineLayout := mkPipelineLayout { setLayouts : list (list LayoutBinding); pushRanges : list (StageBit * Z * Z) }.
Definition layout_of (s : VulkanShader) (layouts : list (list DescriptorLayoutInfo)) : PipelineLayout :=
  mkPipelineLayout (map (map binding_of) layouts)
    ((fun p => (shaderTypeToVK (shaderStage p), p_size p, p_offset p)) <$> pushConstants s).
Definition createPipelineLayout (s : VulkanShader) : outcome PipelineLayout :=
  layouts ← foldM add_layout (descriptorLayoutInfo s) []; Ret (layout_of s layouts).

(** *** The states *)
Record Blend := mkBlend { blendEnable : bool; factors : Z * Z * Z * Z }.   (* source and destination, colour and alpha *)
Definition ZERO : Z := 0.
Definition ONE : Z := 1.
Definition SRC_ALPHA : Z := 6.
Definition ONE_MINUS_SRC_ALPHA : Z := 7.
Definition blend_of (transparency : bool) : Blend :=
  if transparency then mkBlend true (SRC_ALPHA, ONE_MINUS_SRC_ALPHA, ONE, ONE) else mkBlend false (ZERO, ZERO, ZERO, ZERO).
(** One for each attachment of type [COLOR]. *)
Definition createColorBlend (info : PipelineInfo) : list Blend :=
  (fun _ => blend_of (transparencyEnabled info)) <$> filter (fun t => t = COLOR) (attachmentTypes (renderPass info)).

Definition dynamicStates (info : PipelineInfo) : list DynamicState :=
  [VIEWPORT; SCISSOR] ++ (if depthBiasEnabled info then [DEPTH_BIAS] else []).

(** What the driver is asked to create; depth test and depth write are always on. *)
Record Pipeline := mkPipeline {
  layout : PipelineLayout; descriptorSet : DescriptorSet.DescriptorSet N;
  stride : Z; attributes : list Attribute; topology : Topology; cull : Z; polygon : PolygonMode; biased : bool;
  blends : list Blend; dynamics : list DynamicState; depthTest : bool; depthWrite : bool; stages : list (ShaderType * N)
}.

(** The set of the pipeline is allocated for layout 0. *)
Definition init (info : PipelineInfo) : outcome Pipeline :=
  l ← createPipelineLayout (shader info);
  _ ← vec_at (setLayouts l) 0;
  Ret (mkPipeline l DescriptorSet.make (vertexInputStride (shader info)) (vertexInputAttributeDescriptions (shader info))
         (drawTypeToTopology (drawType info)) (cullModeToVk (cullMode info)) (polygonMode info) (depthBiasEnabled info)
         (createColorBlend info) (dynamicStates info) true true (stageInfos (shader info))).
End Pipeline.

(** ** The swap chain (VulkanSwapChain.cpp, VkRenderDevice.cpp) *)
Module SwapChain.
Import VulkanHelper.

Definition MAX_SWAPCHAIN_BUFFERS : nat := 3.

(** The calls to the driver that create or use its objects; objects are numbered
    as they are created. *)
Inductive Call :=
  | CreateSwapchain (minImageCount : Z) (format : SurfaceFormat) (extent : Z * Z) (mode : PresentMode)
  | DestroySwapchain
  | CreateFence (f : N) (signaled : bool)
  | CreateSemaphore (s : N)
  | CreatePool (p : N)
  | AllocateBuffer (buffer : N) (pool : option N)         (* [None]: the pool of the device *)
  | AcquireNextImage (signal : N)
  | BeginRecording (buffer : N)
  | EndRecording (buffer : N)
  | ResetFence (f : N)
  | Submit (buffer wait signal fence : N)
  | WaitFence (f : N)
  | ResetPool (p : N)
  | Present (wait : N) (image : Z).

(** The next number, and the calls in order. *)
Definition Driver : Type := N * list Call.
Definition call (c : Call) (d : Driver) : Driver := (fst d, snd d ++ [c]).
Definition new (c : N -> Call) (d : Driver) : Driver * N := ((fst d + 1)%N, snd d ++ [c (fst d)], fst d).

Record FrameData := mkFrame { presentSemaphore : N; renderSemaphore : N; renderFence : N; commandPool : N; commandBuffer : N }.

Record SwapChain := mkSwapChain {
  buffers : nat;                          (* swapChainImages, swapChainBuffers *)
  frames : list FrameData;                (* the entries of the array that were filled *)
  extent : Z * Z;
  currentBuffer : Z;
  acquireImageIndex : Z
}.
Definition swapchain0 : SwapChain := mkSwapChain 0 [] (0, 0) 0 0.

(** The body of the loop of [createImageView]: the command buffer is initialised
    by its constructor, from the pool of the device, and again from the pool of
    the frame. *)
Definition create_frame (i : nat) (x : Driver * list FrameData) : outcome (Driver * list FrameData) :=
  let '(d, fs) := x in
  if (i <? MAX_SWAPCHAIN_BUFFERS)%nat then
    let '(d, fence) := new (fun n => CreateFence n true) d in
    let '(d, present) := new CreateSemaphore d in
    let '(d, render) := new CreateSemaphore d in
    let '(d, pool) := new CreatePool d in
    let '(d, first) := new (fun n => AllocateBuffer n None) d in
    let '(d, f1) := new (fun n => CreateFence n true) d in
    let '(d, buffer) := new (fun n => AllocateBuffer n (Some pool)) d in
    let '(d, f2) := new (fun n => CreateFence n true) d in
    Ret (d, fs ++ [mkFrame present render fence pool buffer])
  else Exn OutOfBounds.

(** What the driver says of the surface, and how many images the chain gets. *)
Record Surface := mkSurfaceInfo {
  s_formats : list SurfaceFormat; s_modes : list PresentMode; s_capabilities : Capabilities; window : Z * Z; images : nat
}.

Definition imageCount (s : Surface) : Z := Z.min (maxImageCount (s_capabilities s)) 3.
Definition init (s : Surface) (d : Driver) : outcome (Driver * SwapChain) :=
  f ← chooseSwapSurfaceFormat (s_formats s);
  let mode := chooseSwapPresentMode (s_modes s) false in
  let e := chooseSwapExtent (s_capabilities s) (fst (window s)) (snd (window s)) in
  let d := call (CreateSwapchain (imageCount s) f e mode) d in
  '(d, fs) ← foldM create_frame (seq 0 (images s)) (d, []);
  Ret (d, mkSwapChain (images s) fs e 0 0).

(** The assertion on the index, then the array access. *)
Definition getFrameData (c : SwapChain) : outcome FrameData :=
  if currentBuffer c <? Z.of_nat (buffers c) then at_Z (frames c) (currentBuffer c) else Exn LogicError.

Inductive VkResult := SUCCESS | SUBOPTIMAL | OUT_OF_DATE | ERROR.

(** The driver writes the index it answers with, if it acquires an image. *)
Definition acquireNextImage (answer : VkResult * Z) (c : SwapChain) (d : Driver) : outcome (Driver * SwapChain * VkResult) :=
  f ← getFrameData c;
  let d := call (AcquireNextImage (presentSemaphore f)) d in
  let c := match fst answer with
           | SUCCESS | SUBOPTIMAL => mkSwapChain (buffers c) (frames c) (extent c) (currentBuffer c) (snd answer)
           | _ => c
           end in
  Ret (d, c, fst answer).

(** An error other than the two that are logged fails the check. *)
Definition present (answer : VkResult) (c : SwapChain) (d : Driver) : outcome (Driver * SwapChain * VkResult) :=
  f ← getFrameData c;
  let d := call (ResetFence (renderFence f)) d in
  let d := call (Submit (commandBuffer f) (presentSemaphore f) (renderSemaphore f) (renderFence f)) d in
  let d := call (WaitFence (renderFence f)) d in
  let d := call (ResetPool (commandPool f)) d in
  let d := call (Present (renderSemaphore f) (acquireImageIndex c)) d in
  match answer with
  | ERROR => Exn LogicError
  | _ => Ret (d, mkSwapChain (buffers c) (frames c) (extent c) (Z.rem (currentBuffer c + 1) (Z.of_nat (buffers c))) (acquireImageIndex c), answer)
  end.

(** *** The render device *)
Record RenderDevice := mkDevice { chain : SwapChain; size : Z * Z }.

(** [VulkanContext::resize]: the old chain goes when the new one is assigned. *)
Definition resize (s : Surface) (d : Driver) : outcome (Driver * SwapChain) := init s (call DestroySwapchain d).

Definition onResize (s : Surface) (w h : Z) (r : RenderDevice) (d : Driver) : outcome (Driver * RenderDevice) :=
  if (w =? 0) || (h =? 0) then Ret (d, r)
  else
    let c := s_capabilities s in
    let size := (Z.max (fst (minImageExtent c)) (Z.min (fst (maxImageExtent c)) w),
                 Z.max (snd (minImageExtent c)) (Z.min (snd (maxImageExtent c)) h)) in
    '(d, ch) ← resize s d; Ret (d, mkDevice ch size).

Definition begin_ (s : Surface) (answer : VkResult * Z) (r : RenderDevice) (d : Driver) : outcome (Driver * RenderDevice) :=
  '(d, c, res) ← acquireNextImage answer (chain r) d;
  let r := mkDevice c (size r) in
  '(d, r) ← match res with
            | OUT_OF_DATE => onResize s (fst (size r)) (snd (size r)) r d
            | ERROR => Exn RuntimeError
            | _ => Ret (d, r)
            end;
  f ← getFrameData (chain r);
  Ret (call (BeginRecording (commandBuffer f)) d, r).

Definition end_ (r : RenderDevice) (d : Driver) : outcome Driver :=
  f ← getFrameData (chain r); Ret (call (EndRecording (commandBuffer f)) d).

Definition present_ (s : Surface) (answer : VkResult) (r : RenderDevice) (d : Driver) : outcome (Driver * RenderDevice) :=
  '(d, c, res) ← present answer (chain r) d;
  let r := mkDevice c (size r) in
  match res with
  | OUT_OF_DATE | SUBOPTIMAL => onResize s (fst (size r)) (snd (size r)) r d
  | _ => Ret (d, r)
  end.

(** A frame of the application; the index of the frame buffer the renderers draw
    into is the current buffer while they draw. *)
Definition frame (s : Surface) (acquired : VkResult * Z) (presented : VkResult) (r : RenderDevice) (d : Driver)
    : outcome (Driver * RenderDevice * Z) :=
  '(d, r) ← begin_ s acquired r d;
  let drawn := currentBuffer (chain r) in
  d ← end_ r d;
  '(d, r) ← present_ s presented r d;
  Ret (d, r, drawn).
End SwapChain.

(** ** Properties *)
Module VulkanProps.
Import VulkanHelper VulkanDevice.

(** *** Choices *)
Lemma find_first {A} (P : A -> bool) l : match find P l with
  | Some x => exists l1 l2, l = l1 ++ x :: l2 /\ P x = true /\ Forall (fun y => P y = false) l1
  | None => Forall (fun y => P y = false) l
  end.
Proof.
  induction l as [|a l IH]; cbn; [constructor|]. destruct (P a) eqn:E; [by exists [], l|].
  destruct (find P l) as [x|]; [|by constructor]. destruct IH as (l1 & l2 & -> & Hx & Hl). exists (a :: l1), l2. split; [done|]. split; [done|by constructor].
Qed.

Lemma choose_mode_spec modes m : m = IMMEDIATE \/ m = FIFO ->
  choose_mode modes m = if bool_decide (MAILBOX ∈ modes) then MAILBOX else if bool_decide (IMMEDIATE ∈ modes) then IMMEDIATE else m.
Proof.
  revert m. induction modes as [|a modes IH]; intros m Hm; [by rewrite !bool_decide_eq_false_2 by set_solver|].
  destruct a; cbn; try (rewrite bool_decide_eq_true_2 by set_solver; done); rewrite IH by tauto.
  all: rewrite (bool_decide_ext (MAILBOX ∈ _ :: modes) (MAILBOX ∈ modes)) by set_solver.
  - rewrite (bool_decide_eq_true_2 (IMMEDIATE ∈ IMMEDIATE :: modes)) by set_solver. by destruct (bool_decide (IMMEDIATE ∈ modes)).
  - by rewrite (bool_decide_ext (IMMEDIATE ∈ _ :: modes) (IMMEDIATE ∈ modes)) by set_solver.
  - by rewrite (bool_decide_ext (IMMEDIATE ∈ _ :: modes) (IMMEDIATE ∈ modes)) by set_solver.
Qed.

Definition inside (lo hi x : Z * Z) : Prop := fst lo <= fst x <= fst hi /\ snd lo <= snd x <= snd hi.

(** The choices of the swap chain.  The surface format is the first preferred
    one, or the first of all; without vertical synchronisation the mode is
    mailbox if it is offered, else immediate if it is offered, else first in
    first out; an extent the surface leaves open is clamped to its bounds. *)
Theorem swapchain_choices (available : list SurfaceFormat) (modes : list PresentMode) (c : Capabilities) (width height : Z) :
  available <> [] -> fst (minImageExtent c) <= fst (maxImageExtent c) -> snd (minImageExtent c) <= snd (maxImageExtent c) ->
  (exists f l1 l2, chooseSwapSurfaceFormat available = Ret f /\ available = l1 ++ f :: l2
    /\ Forall (fun g => preferred g = false) l1 /\ (preferred f = true \/ l1 = [] /\ Forall (fun g => preferred g = false) l2))
  /\ chooseSwapPresentMode modes false =
       (if bool_decide (MAILBOX ∈ modes) then MAILBOX else if bool_decide (IMMEDIATE ∈ modes) then IMMEDIATE else FIFO)
  /\ chooseSwapPresentMode modes true = FIFO
  /\ (fst (currentExtent c) <> UINT32_MAX -> chooseSwapExtent c width height = currentExtent c)
  /\ (fst (currentExtent c) = UINT32_MAX -> inside (minImageExtent c) (maxImageExtent c) (chooseSwapExtent c width height)
       /\ (inside (minImageExtent c) (maxImageExtent c) (u32 width, u32 height) -> chooseSwapExtent c width height = (u32 width, u32 height))).
Proof.
  intros Hne Hw Hh. split_and!.
  - unfold chooseSwapSurfaceFormat. pose proof (find_first preferred available) as H. destruct (find preferred available) as [f|].
    + destruct H as (l1 & l2 & -> & Hf & Hl). exists f, l1, l2. split_and!; [done|done|done|by left].
    + destruct available as [|f l]; [done|]. exists f, [], l. apply Forall_cons in H as [_ H]. split_and!; [done|done|constructor|by right].
  - apply choose_mode_spec. by right.
  - done.
  - intros H. unfold chooseSwapExtent. by rewrite (proj2 (Z.eqb_neq _ _) H).
  - intros H. unfold chooseSwapExtent, inside. rewrite (proj2 (Z.eqb_eq _ _) H). cbn. split; [lia|]. intros [H1 H2]. f_equal; lia.
Qed.

(** The least memory type that fits; [1 << i] is taken for each type. *)
Lemma findMemoryType_spec i typeFilter properties types :
  let fits k flags := negb (Z.land typeFilter (Z.shiftl 1 (i + Z.of_nat k)) =? 0) && (Z.land flags properties =? properties) in
  match findMemoryType i typeFilter properties types with
  | Ret r => exists k flags, r = i + Z.of_nat k /\ types !! k = Some flags /\ fits k flags = true
      /\ forall j f, (j < k)%nat -> types !! j = Some f -> fits j f = false
  | Exn e => e = RuntimeError /\ forall j f, types !! j = Some f -> fits j f = false
  end.
Proof.
  revert i. induction types as [|flags types IH]; intros i fits; cbn; [done|].
  destruct (negb (Z.land typeFilter (Z.shiftl 1 i) =? 0) && (Z.land flags properties =? properties)) eqn:E.
  - exists 0%nat, flags. split_and!; [lia|done|unfold fits; by rewrite Z.add_0_r|intros; lia].
  - specialize (IH (i + 1)). cbn in IH. assert (forall k f, fits (S k) f = negb (Z.land typeFilter (Z.shiftl 1 (i + 1 + Z.of_nat k)) =? 0) && (Z.land f properties =? properties)) as Hs.
    { intros k f. unfold fits. by replace (i + Z.of_nat (S k)) with (i + 1 + Z.of_nat k) by lia. }
    assert (forall f, Some flags = Some f -> fits 0%nat f = false) as H0 by (intros f [= <-]; unfold fits; by rewrite Z.add_0_r).
    destruct (findMemoryType (i + 1) typeFilter properties types) as [r|e].
    + destruct IH as (k & f & -> & Hk & Hf & Hl). exists (S k), f. split_and!; [lia|done|by rewrite Hs|].
      intros [|j] g Hj Hg; [by apply H0|]. rewrite Hs. apply (Hl j); [lia|done].
    + destruct IH as [-> Hl]. split; [done|]. intros [|j] g Hg; [by apply H0|]. rewrite Hs. by apply (Hl j).
Qed.

(** *** The physical device *)

(** Each index found is that of a family with the capability. *)
Record families_ok (fs : list (Z * bool)) (x : QueueFamilyIndices) : Prop := mkFamiliesOk {
  graphics_ok : forall i, graphicsFamily x = Some i -> exists f, fs !! Z.to_nat i = Some f /\ 0 <= i /\ Z.land (fst f) GRAPHICS_BIT <> 0;
  present_ok : forall i, presentFamily x = Some i -> exists f, fs !! Z.to_nat i = Some f /\ 0 <= i /\ snd f = true;
  compute_ok : forall i, computeFamily x = Some i -> exists f, fs !! Z.to_nat i = Some f /\ 0 <= i /\ Z.land (fst f) COMPUTE_BIT <> 0
}.

Lemma find_families_ok fs : forall seen x, families_ok (seen ++ fs) x -> families_ok (seen ++ fs) (find_families (Z.of_nat (length seen)) fs x).
Proof.
  induction fs as [|[flags present] fs IH]; intros seen x Hx; cbn [find_families]; [done|].
  assert (families_ok (seen ++ (flags, present) :: fs) (see_family (Z.of_nat (length seen)) flags present x)) as Hs.
  { assert (forall i, Some (Z.of_nat (length seen)) = Some i -> (seen ++ (flags, present) :: fs) !! Z.to_nat i = Some (flags, present) /\ 0 <= i) as Hi.
    { intros i [= <-]. rewrite Nat2Z.id. split; [by apply list_lookup_middle|lia]. }
    destruct Hx as [Hg Hp Hc]. split; cbn.
    - destruct (Z.eqb_spec (Z.land flags GRAPHICS_BIT) 0); [exact Hg|]. intros i E. destruct (Hi i E). by exists (flags, present).
    - destruct present; [|exact Hp]. intros i E. destruct (Hi i E). by exists (flags, true).
    - destruct (Z.eqb_spec (Z.land flags COMPUTE_BIT) 0); [exact Hc|]. intros i E. destruct (Hi i E). by exists (flags, present). }
  destruct (isComplete _); [done|]. specialize (IH (seen ++ [(flags, present)])). rewrite <- app_assoc in IH. cbn [app] in IH.
  rewrite length_app, Nat2Z.inj_add in IH. by apply IH.
Qed.

(** The constructor's loop takes the first suitable device. *)
Lemma choose_first devices g x :
  match find (fun d => snd (isDeviceSuitable d)) devices with
  | Some d => choose devices g x = (Some (handle d), findQueueFamilies (families d))
  | None => choose devices g x = (g, default x (findQueueFamilies <$> (families <$> last devices)))
  end.
Proof.
  revert x. induction devices as [|d devices IH]; intros x; cbn [find choose]; [done|].
  destruct (isDeviceSuitable d) as [ind ok] eqn:E. cbn [snd]. assert (ind = findQueueFamilies (families d)) as -> by (by injection E).
  destruct ok; [done|]. specialize (IH (findQueueFamilies (families d))). destruct (find _ devices) as [d'|]; [done|].
  rewrite IH, last_cons. by destruct (last devices).
Qed.

(** The selection of the device.  The first suitable device is taken, with the
    indices of queue families of its own that can draw, present and compute.
    When no device is suitable the constructor throws only if the uninitialised
    handle happens to be null: any other value is taken for a device. *)
Theorem device_selected (devices : list Device) (garbage : option N) :
  match find (fun d => snd (isDeviceSuitable d)) devices with
  | Some d => exists x, VulkanPhysicalDevice devices garbage = Ret (handle d, x) /\ families_ok (families d) x /\ isComplete x = true
      /\ exists qs, queue_families x = Ret qs /\ NoDup qs
  | None => VulkanPhysicalDevice devices garbage =
      match devices, garbage with
      | _ :: _, Some h => Ret (h, default (mkIndices None None None) (findQueueFamilies <$> (families <$> last devices)))
      | _, _ => Exn RuntimeError
      end
  end.
Proof.
  unfold VulkanPhysicalDevice. pose proof (choose_first devices garbage (mkIndices None None None)) as Hc.
  pose proof (find_first (fun d => snd (isDeviceSuitable d)) devices) as Hf.
  destruct (find _ devices) as [d|]; [|by destruct devices; [|rewrite Hc; destruct garbage]].
  destruct Hf as (l1 & l2 & E & Hok & _). exists (findQueueFamilies (families d)).
  assert (isComplete (findQueueFamilies (families d)) = true) as Hcomp.
  { cbn in Hok. by destruct (isComplete _). }
  split; [rewrite Hc; destruct devices; [by destruct l1|done]|]. split_and!; [|done|].
  - apply (find_families_ok (families d) []). by split.
  - unfold queue_families. revert Hcomp. unfold isComplete. destruct (findQueueFamilies (families d)) as [[g|] [p|] c]; cbn; try done. intros _.
    eexists. split; [reflexivity|]. case_bool_decide; [apply NoDup_singleton|].
    destruct (g <? p); apply NoDup_cons; (split; [set_solver|apply NoDup_singleton]).
Qed.

(** *** Pipeline layouts *)
Import RenderPass Pipeline ShaderFile.Shader.

(** A set is declared only after all sets of smaller number. *)
Definition compact (ds : list DescriptorLayoutInfo) : Prop := forall i d k, ds !! i = Some d -> 0 <= k < l_setId d ->
  exists j d', (j < i)%nat /\ ds !! j = Some d' /\ l_setId d' = k.
Definition in_set (k : Z) (ds : list DescriptorLayoutInfo) : list DescriptorLayoutInfo := filter (fun d => l_setId d = k) ds.
Definition ids_ok (ds : list DescriptorLayoutInfo) : Prop := Forall (fun d => 0 <= l_setId d < 2 ^ 32 - 1) ds.

(** The layouts after some declarations: one for each set, none is empty. *)
Definition grouped (ds : list DescriptorLayoutInfo) (L : list (list DescriptorLayoutInfo)) : Prop :=
  (forall k l, L !! k = Some l -> l = in_set (Z.of_nat k) ds /\ l <> []) /\ (forall d, d ∈ ds -> l_setId d < Z.of_nat (length L)).

Lemma in_set_snoc k ds d : in_set k (ds ++ [d]) = in_set k ds ++ (if decide (l_setId d = k) then [d] else []).
Proof. unfold in_set. by rewrite filter_app, filter_cons, filter_nil. Qed.

Lemma add_layout_step ds L d : 0 <= l_setId d < 2 ^ 32 - 1 -> grouped ds L ->
  if decide (l_setId d <= Z.of_nat (length L)) then exists L', add_layout d L = Ret L' /\ grouped (ds ++ [d]) L' else add_layout d L = Exn OutOfBounds.
Proof.
  intros Hd [HL Hb]. unfold add_layout. rewrite u32_small by lia.
  assert (in_set (Z.of_nat (length L)) ds = []) as Hnew.
  { apply filter_none, Forall_forall. intros x Hx E. specialize (Hb x Hx). lia. }
  case_decide as Hle.
  - set (L1 := if Z.of_nat (length L) <? l_setId d + 1 then L ++ [[]] else L).
    assert (exists l, L1 !! Z.to_nat (l_setId d) = Some l /\ l = in_set (l_setId d) ds) as (l & Hl & ->).
    { unfold L1. destruct (Z.ltb_spec (Z.of_nat (length L)) (l_setId d + 1)).
      - assert (l_setId d = Z.of_nat (length L)) as E by lia. exists []. rewrite E, Nat2Z.id. split; [by apply list_lookup_middle|done].
      - destruct (lookup_lt_is_Some_2 L (Z.to_nat (l_setId d))) as [l Hl]; [lia|]. exists l. split; [done|].
        destruct (HL _ _ Hl) as [-> _]. by rewrite Z2Nat.id by lia. }
    rewrite (at_Z_Some _ _ _ (proj1 Hd) Hl), bind_Ret. eexists. split; [reflexivity|]. split.
    + intros k l Hk. rewrite in_set_snoc. destruct (decide (Z.to_nat (l_setId d) = k)) as [<-|Hne].
      * rewrite list_lookup_insert_eq in Hk by (by eapply lookup_lt_Some). injection Hk as <-.
        rewrite Z2Nat.id by lia. rewrite decide_True by done. split; [done|]. by destruct (in_set (l_setId d) ds).
      * rewrite list_lookup_insert_ne in Hk by done. rewrite decide_False by lia. rewrite app_nil_r. apply HL.
        revert Hk. unfold L1. destruct (Z.ltb_spec (Z.of_nat (length L)) (l_setId d + 1)); [|done].
        intros Hk. apply lookup_app_Some in Hk as [Hk|[Hge Hk]]; [done|]. destruct (k - length L)%nat eqn:E; [lia|done].
    + intros x Hx; apply elem_of_app in Hx as [Hx|Hx]; [|apply list_elem_of_singleton in Hx as ->]; rewrite length_insert; unfold L1;
        destruct (Z.ltb_spec (Z.of_nat (length L)) (l_setId d + 1)); rewrite ?length_app; cbn; try specialize (Hb x Hx); lia.
  - rewrite (proj2 (Z.ltb_lt _ _)) by lia. unfold at_Z, vec_at. rewrite (proj2 (Z.leb_le 0 (l_setId d))) by lia.
    rewrite lookup_ge_None_2; [done|]. rewrite length_app. cbn. lia.
Qed.

Lemma compact_snoc ds d : compact (ds ++ [d]) <-> compact ds /\ forall k, 0 <= k < l_setId d -> exists d', d' ∈ ds /\ l_setId d' = k.
Proof.
  split.
  - intros H. split.
    + intros i x k Hi Hk. destruct (H i x k) as (j & d' & Hj & Hl & E); [by apply lookup_app_l_Some|done|].
      exists j, d'. split_and!; [done| |done]. rewrite lookup_app_l in Hl; [done|]. apply lookup_lt_Some in Hi. lia.
    + intros k Hk. destruct (H (length ds) d k) as (j & d' & Hj & Hl & E); [by apply list_lookup_middle|done|].
      rewrite lookup_app_l in Hl by done. exists d'. split; [by eapply list_elem_of_lookup_2|done].
  - intros [H Hd] i x k Hi Hk. apply lookup_app_Some in Hi as [Hi|[Hge Hi]].
    + destruct (H i x k Hi Hk) as (j & d' & Hj & Hl & E). exists j, d'. split_and!; [done|by apply lookup_app_l_Some|done].
    + destruct (i - length ds)%nat eqn:E; [|done]. injection Hi as <-. destruct (Hd k Hk) as (d' & Hin & Ek).
      apply list_elem_of_lookup in Hin as [j Hj]. exists j, d'. split_and!; [apply lookup_lt_Some in Hj; lia|by apply lookup_app_l_Some|done].
Qed.

Lemma layouts_grouped ds : ids_ok ds ->
  (compact ds /\ exists L, foldM add_layout ds [] = Ret L /\ grouped ds L) \/ (~ compact ds /\ foldM add_layout ds [] = Exn OutOfBounds).
Proof.
  induction ds as [|d ds IH] using rev_ind; intros Hids.
  - left. split; [intros ? ? ? H; done|]. exists []. split; [done|]. split; [done|set_solver].
  - apply Forall_app in Hids as [Hids Hd]. apply Forall_inv in Hd. rewrite foldM_app, compact_snoc.
    destruct (IH Hids) as [[Hc (L & E & HL)]|[Hc E]]; rewrite E; [|right; split; [tauto|done]].
    assert (l_setId d <= Z.of_nat (length L) <-> forall k, 0 <= k < l_setId d -> exists d', d' ∈ ds /\ l_setId d' = k) as Hiff.
    { destruct HL as [HL Hb]. split.
      - intros Hle k Hk. destruct (lookup_lt_is_Some_2 L (Z.to_nat k)) as [l Hl]; [lia|]. destruct (HL _ _ Hl) as [-> Hne].
        destruct (in_set (Z.of_nat (Z.to_nat k)) ds) as [|x l] eqn:Ex; [done|].
        assert (x ∈ in_set (Z.of_nat (Z.to_nat k)) ds) as Hx by (rewrite Ex; set_solver).
        apply list_elem_of_filter in Hx as [Hk' Hx]. exists x. split; [done|lia].
      - intros H. destruct (decide (l_setId d <= Z.of_nat (length L))); [done|]. destruct (H (Z.of_nat (length L))) as (d' & Hin & Ed); [lia|].
        specialize (Hb d' Hin). lia. }
    pose proof (add_layout_step ds L d Hd HL) as Hstep. rewrite bind_Ret. cbn [foldM]. case_decide as Hle.
    + destruct Hstep as (L' & E' & HL'). left. split; [tauto|]. exists L'. by rewrite E'.
    + right. rewrite Hstep. split; [tauto|done].
Qed.

(** The layout of a pipeline.  When every descriptor set is declared by the
    shader after all sets of smaller number, there is one layout per set, with
    the bindings of that set in the order of their declarations, and none is
    empty; in any other order the construction writes outside its vector. *)
Theorem pipeline_sets (s : VulkanShader) : ids_ok (descriptorLayoutInfo s) ->
  (compact (descriptorLayoutInfo s) -> exists L, createPipelineLayout s = Ret L
    /\ (forall d, d ∈ descriptorLayoutInfo s -> l_setId d < Z.of_nat (length (setLayouts L)))
    /\ (forall k bs, setLayouts L !! k = Some bs -> bs = binding_of <$> in_set (Z.of_nat k) (descriptorLayoutInfo s) /\ bs <> []))
  /\ (~ compact (descriptorLayoutInfo s) -> createPipelineLayout s = Exn OutOfBounds).
Proof.
  intros Hids. unfold createPipelineLayout. destruct (layouts_grouped _ Hids) as [[Hc (L & -> & HL & Hb)]|[Hc ->]]; split; intros H; try done.
  exists (layout_of s L). split; [done|]. cbn. rewrite length_map. split; [done|].
  intros k bs Hk. apply list_lookup_fmap_Some in Hk as (l & -> & Hl). destruct (HL _ _ Hl) as [-> Hne]. split; [done|].
  by destruct (in_set (Z.of_nat k) (descriptorLayoutInfo s)).
Qed.

(** A vertex shader with a uniform buffer in set 0, a fragment shader with an image in set 1. *)
Definition two_sets (first second : Z) : VulkanShader :=
  mkShader 0 [] [mkLayout DescriptorSet.UNIFORM_BUFFER VERTEX_SHADER first 0 1; mkLayout DescriptorSet.IMAGE_SAMPLER FRAGMENT_SHADER second 0 1] [] ∅ [].
Lemma two_sets_compact : compact (descriptorLayoutInfo (two_sets 0 1)).
Proof.
  intros [|[|i]] d k; cbn; [| |done]; intros [= <-]; cbn; [lia|]. intros Hk. exists 0%nat. eexists. split; [lia|]. split; [reflexivity|]. cbn. lia.
Qed.
Lemma pipeline_sets_witness :
  (exists L, createPipelineLayout (two_sets 0 1) = Ret L /\ length (setLayouts L) = 2%nat) /\ createPipelineLayout (two_sets 1 0) = Exn OutOfBounds.
Proof.
  destruct (pipeline_sets (two_sets 0 1)) as [H _]; [repeat constructor; cbn; lia|]. destruct (H two_sets_compact) as (L & E & _).
  split; [exists L; split; [exact E|]; assert (Ret L = createPipelineLayout (two_sets 0 1)) as E' by done; by injection E' as ->|].
  apply (pipeline_sets (two_sets 1 0)); [repeat constructor; cbn; lia|].
  intros Hc. destruct (Hc 0%nat (mkLayout DescriptorSet.UNIFORM_BUFFER VERTEX_SHADER 1 0 1) 0) as (j & d' & Hj & _); [done|cbn; lia|lia].
Defined.

(** *** Frames *)
Import SwapChain.

(** The objects of a frame when [b] is the next number. *)
Definition frame_at (b : N) : FrameData := mkFrame (b + 1) (b + 2) b (b + 3) (b + 6).
Definition frame_objects (b : N) : list Call :=
  [CreateFence b true; CreateSemaphore (b + 1); CreateSemaphore (b + 2); CreatePool (b + 3); AllocateBuffer (b + 4) None;
   CreateFence (b + 5) true; AllocateBuffer (b + 6) (Some (b + 3)%N); CreateFence (b + 7) true].
Definition start (b : N) (i : nat) : N := (b + 8 * N.of_nat i)%N.

Lemma create_frame_ok i b l fs : (i < 3)%nat -> create_frame i (b, l, fs) = Ret (b + 8, l ++ frame_objects b, fs ++ [frame_at b])%N.
Proof.
  intros Hi. unfold create_frame, MAX_SWAPCHAIN_BUFFERS. rewrite (proj2 (Nat.ltb_lt i 3)) by done. cbn -[N.add].
  rewrite <- !app_assoc, <- !N.add_assoc. done.
Qed.

Lemma create_frames_ok n b l : (n <= 3)%nat ->
  foldM create_frame (seq 0 n) (b, l, []) = Ret (start b n, l ++ (seq 0 n ≫= fun i => frame_objects (start b i)), (fun i => frame_at (start b i)) <$> seq 0 n).
Proof.
  induction n as [|n IH]; intros Hn; [cbn; unfold start; by rewrite N.add_0_r, app_nil_r|].
  rewrite seq_S, foldM_app, IH, bind_Ret by lia. cbn [foldM Nat.add]. rewrite create_frame_ok, bind_Ret by lia. rewrite bind_app, fmap_app, <- app_assoc. cbn.
  do 4 f_equal. unfold start. lia.
Qed.

Lemma create_frames_over n b l : (3 < n)%nat -> foldM create_frame (seq 0 n) (b, l, []) = Exn OutOfBounds.
Proof.
  intros Hn. replace n with (3 + (1 + (n - 4)))%nat by lia. rewrite seq_app, foldM_app, create_frames_ok, bind_Ret, seq_app, foldM_app by lia. done.
Qed.

(** A chain between two frames. *)
Record ready (c : SwapChain) : Prop := mkReady {
  full : length (frames c) = buffers c;
  current_ok : 0 <= currentBuffer c < Z.of_nat (buffers c)
}.

Definition frame_calls (f : FrameData) (image : Z) : list Call :=
  [AcquireNextImage (presentSemaphore f); BeginRecording (commandBuffer f); EndRecording (commandBuffer f); ResetFence (renderFence f);
   Submit (commandBuffer f) (presentSemaphore f) (renderSemaphore f) (renderFence f); WaitFence (renderFence f); ResetPool (commandPool f);
   Present (renderSemaphore f) image].

Lemma getFrameData_ok c : ready c -> exists f, frames c !! Z.to_nat (currentBuffer c) = Some f /\ getFrameData c = Ret f.
Proof.
  intros [Hf Hc]. destruct (at_Z_lookup (frames c) (currentBuffer c)) as (f & E & Hl); [lia|]. exists f. split; [done|].
  unfold getFrameData. by rewrite (proj2 (Z.ltb_lt _ _)) by lia.
Qed.

(** What the answers of a frame without incident are. *)
Definition smooth (a : VkResult * Z * VkResult) : Prop := (fst (fst a) = SUCCESS \/ fst (fst a) = SUBOPTIMAL) /\ snd a = SUCCESS.
Definition advance (image : Z) (r : RenderDevice) : RenderDevice :=
  let c := chain r in
  mkDevice (mkSwapChain (buffers c) (frames c) (extent c) ((currentBuffer c + 1) mod Z.of_nat (buffers c)) image) (size r).

Lemma chain_frame_ok s a r d : ready (chain r) -> smooth a -> exists f, frames (chain r) !! Z.to_nat (currentBuffer (chain r)) = Some f
  /\ frame s (fst a) (snd a) r d = Ret (fst d, snd d ++ frame_calls f (snd (fst a)), advance (snd (fst a)) r, currentBuffer (chain r))
  /\ ready (chain (advance (snd (fst a)) r)).
Proof.
  intros Hr [Ha Hp]. destruct (getFrameData_ok _ Hr) as (f & Hf & E). exists f. split; [done|]. destruct Hr as [Hl Hc]. split.
  - assert (forall i, getFrameData (mkSwapChain (buffers (chain r)) (frames (chain r)) (extent (chain r)) (currentBuffer (chain r)) i) = Ret f) as E' by (intros i; exact E).
    destruct a as [[res i] pres]. cbn in Ha, Hp. subst pres. unfold frame, begin_, acquireNextImage, end_, present_, present. rewrite E, bind_Ret. cbn [fst snd].
    destruct Ha as [-> | ->]; repeat (rewrite ?bind_Ret, ?E'; cbn [chain fst snd call currentBuffer]); unfold call, advance; cbn -[Z.rem Z.modulo];
      rewrite <- !app_assoc, Z.rem_mod_nonneg by lia; done.
  - split; cbn; [done|]. apply Z.mod_pos_bound. lia.
Qed.

(** Frames one after the other, and the frame buffers drawn. *)
Fixpoint run (s : Surface) (answers : list (VkResult * Z * VkResult)) (r : RenderDevice) (d : Driver) : outcome (Driver * RenderDevice * list Z) :=
  match answers with
  | [] => Ret (d, r, [])
  | a :: rest =>
      '(d, r, drawn) ← frame s (fst a) (snd a) r d;
      '(d, r, more) ← run s rest r d;
      Ret (d, r, drawn :: more)
  end.

(** The frame used after [k] others from the current one. *)
Definition turn (c : SwapChain) (k : nat) : Z := (currentBuffer c + Z.of_nat k) mod Z.of_nat (buffers c).
Definition calls_of (c : SwapChain) (k : nat) (a : VkResult * Z * VkResult) : list Call :=
  match frames c !! Z.to_nat (turn c k) with Some f => frame_calls f (snd (fst a)) | None => [] end.

Lemma turn_advance i r k : ready (chain r) -> turn (chain (advance i r)) k = turn (chain r) (S k).
Proof.
  intros [_ Hc]. unfold turn. cbn. rewrite Zplus_mod_idemp_l. f_equal. lia.
Qed.

Lemma run_ok s answers : forall r d, ready (chain r) -> Forall smooth answers -> exists r',
  run s answers r d = Ret (fst d, snd d ++ concat (imap (calls_of (chain r)) answers), r', imap (fun k _ => turn (chain r) k) answers) /\ ready (chain r').
Proof.
  induction answers as [|a answers IH]; intros r d Hr Ha; cbn [run imap].
  - exists r. cbn. rewrite app_nil_r. by destruct d.
  - apply Forall_cons in Ha as [Ha Hs]. destruct (chain_frame_ok s a r d Hr Ha) as (f & Hf & E & Hr'). rewrite E, bind_Ret.
    destruct (IH (advance (snd (fst a)) r) (fst d, snd d ++ frame_calls f (snd (fst a))) Hr' Hs) as (r' & E' & Hr''). rewrite E', bind_Ret.
    exists r'. split; [|done]. cbn [fst snd concat]. rewrite <- app_assoc.
    assert (turn (chain r) 0 = currentBuffer (chain r)) as E0 by (unfold turn; rewrite Z.add_0_r; apply Z.mod_small, Hr).
    assert (calls_of (chain r) 0 a = frame_calls f (snd (fst a))) as -> by (unfold calls_of; by rewrite E0, Hf).
    assert (forall B (g : Z -> VkResult * Z * VkResult -> B),
      imap (fun k x => g (turn (chain (advance (snd (fst a)) r)) k) x) answers = imap ((fun k x => g (turn (chain r) k) x) ∘ S) answers) as Hturn
      by (intros B g; apply imap_ext; intros k x _; unfold compose; by rewrite turn_advance).
    rewrite E0, (Hturn Z (fun i _ => i)). do 7 f_equal.
    apply (Hturn (list Call) (fun i x => match frames (chain r) !! Z.to_nat i with Some f => frame_calls f (snd (fst x)) | None => [] end)).
Qed.

(** The chain [init] makes. *)
Definition fresh_chain (s : Surface) (b : N) : SwapChain :=
  mkSwapChain (images s) ((fun i => frame_at (start b i)) <$> seq 0 (images s))
    (chooseSwapExtent (s_capabilities s) (fst (window s)) (snd (window s))) 0 0.
Definition objects (b : N) (n : nat) : list Call := seq 0 n ≫= fun i => frame_objects (start b i).

Lemma chain_init_ok s d : s_formats s <> [] ->
  ((images s <= 3)%nat -> exists chosen, init s d = Ret (start (fst d) (images s), snd d ++ [chosen] ++ objects (fst d) (images s), fresh_chain s (fst d))
    /\ (forall x, chosen <> AcquireNextImage x))
  /\ ((3 < images s)%nat -> init s d = Exn OutOfBounds).
Proof.
  intros Hf. assert (exists f, chooseSwapSurfaceFormat (s_formats s) = Ret f) as [f Ef].
  { unfold chooseSwapSurfaceFormat. destruct (find preferred (s_formats s)); [by eexists|]. destruct (s_formats s); [done|by eexists]. }
  unfold init. rewrite Ef, bind_Ret. destruct d as [b l]. cbv zeta. change (call ?x (b, l)) with (b, l ++ [x]).
  split; intros Hn; [|by rewrite create_frames_over].
  rewrite create_frames_ok, bind_Ret by done. eexists. split; [cbn [fst snd]; rewrite <- app_assoc; reflexivity|done].
Qed.

Lemma fresh_ready s b : (0 < images s)%nat -> ready (fresh_chain s b).
Proof. intros Hi. split; cbn; [by rewrite length_fmap, length_seq|lia]. Qed.

(** The swap chain and its frames.  Initialising it over at most three images
    makes a frame for each, with objects of its own; every frame allocates two
    command buffers and three fences and keeps one of each.  Then the frames
    take turns: frame [k] waits for the image acquired with its semaphore, is
    submitted once, waited for before its pool is reset, and draws into the frame
    buffer of number [k] modulo the number of images, while it presents the image
    the driver answered.  A fourth image is written outside the array. *)
Theorem frames_take_turns (s : Surface) (d : Driver) (window : Z * Z) (answers : list (VkResult * Z * VkResult)) :
  s_formats s <> [] -> (0 < images s)%nat -> Forall smooth answers ->
  ((images s <= 3)%nat -> exists c chosen,
     init s d = Ret (start (fst d) (images s), snd d ++ [chosen] ++ (seq 0 (images s) ≫= fun i => frame_objects (start (fst d) i)), c)
     /\ frames c = (fun i => frame_at (start (fst d) i)) <$> seq 0 (images s)
     /\ (forall k, turn c k = Z.of_nat k mod Z.of_nat (images s))
     /\ forall dr, exists r', run s answers (mkDevice c window) dr =
          Ret (fst dr, snd dr ++ concat (imap (calls_of c) answers), r', imap (fun k _ => turn c k) answers))
  /\ ((3 < images s)%nat -> init s d = Exn OutOfBounds).
Proof.
  intros Hf Hi Ha. destruct (chain_init_ok s d Hf) as [Hok Hover]. split; intros Hn; [|by apply Hover].
  destruct (Hok Hn) as (chosen & E & _). exists (fresh_chain s (fst d)), chosen. split; [exact E|]. split; [done|]. split; [done|].
  intros dr. destruct (run_ok s answers (mkDevice (fresh_chain s (fst d)) window) dr) as (r' & Er & _); [by apply fresh_ready|done|].
  exists r'. exact Er.
Qed.

Definition demo_surface : Surface :=
  mkSurfaceInfo [mkSurface B8G8R8A8_SRGB true] [MAILBOX] (mkCapabilities (UINT32_MAX, UINT32_MAX) (1, 1) (800, 600) 3) (1280, 720) 3.
(** The driver answers with images out of turn: 0 and then 2. *)
Definition out_of_turn : list (VkResult * Z * VkResult) := [(SUCCESS, 0, SUCCESS); (SUBOPTIMAL, 2, SUCCESS)].
Lemma frames_take_turns_witness : exists d c r' d', init demo_surface (0%N, []) = Ret (d, c)
  /\ run demo_surface out_of_turn (mkDevice c (800, 600)) d = Ret (d', r', [0; 1]).
Proof.
  destruct (frames_take_turns demo_surface (0%N, []) (800, 600) out_of_turn) as [H _]; [done|cbn; lia|by repeat constructor; cbn; auto|].
  destruct H as (c & ch & E & _ & Ht & Hr); [cbn; lia|]. destruct (Hr (0%N, [])) as (r' & _).
  eexists _, c. destruct (Hr (start 0 3, [] ++ [ch] ++ (seq 0 3 ≫= fun i => frame_objects (start 0 i)))) as (r'' & E').
  exists r''. eexists. split; [exact E|]. etransitivity; [exact E'|]. change (imap (fun k _ => turn c k) out_of_turn) with [turn c 0; turn c 1]. rewrite !Ht. reflexivity.
Defined.

Lemma onResize_ok s w h r d : s_formats s <> [] -> (images s <= 3)%nat -> w <> 0 -> h <> 0 -> exists chosen z,
  onResize s w h r d = Ret (start (fst d) (images s), snd d ++ DestroySwapchain :: chosen :: objects (fst d) (images s), mkDevice (fresh_chain s (fst d)) z)
  /\ (forall x, chosen <> AcquireNextImage x).
Proof.
  intros Hf Hi Hw Hh. unfold onResize, resize. rewrite (proj2 (Z.eqb_neq _ _) Hw), (proj2 (Z.eqb_neq _ _) Hh). cbv zeta. cbn [orb].
  destruct (chain_init_ok s (call DestroySwapchain d) Hf) as [Hok _]. destruct (Hok Hi) as (chosen & -> & Hc). rewrite bind_Ret.
  eexists chosen, _. split; [|done]. cbn [call fst snd]. rewrite <- app_assoc. reflexivity.
Qed.

Lemma fresh_first s b : (0 < images s)%nat -> getFrameData (fresh_chain s b) = Ret (frame_at b).
Proof.
  intros Hi. destruct (getFrameData_ok _ (fresh_ready s b Hi)) as (g & Hg & ->). cbn in Hg. destruct (images s); [lia|]. cbn in Hg.
  injection Hg as <-. unfold start. by rewrite N.add_0_r.
Qed.

(** When acquiring answers that the chain is out of date, the device makes a new
    chain and goes on with the frame without acquiring an image of it: the
    submission waits for a semaphore that nothing signals, and image 0 is
    presented though it was never acquired. *)
Lemma out_of_date_never_acquired s i r d f :
  ready (chain r) -> s_formats s <> [] -> (0 < images s <= 3)%nat -> fst (size r) <> 0 -> snd (size r) <> 0 ->
  frames (chain r) !! Z.to_nat (currentBuffer (chain r)) = Some f -> (presentSemaphore f < fst d)%N ->
  exists d' r' b w g fe rest, frame s (OUT_OF_DATE, i) SUCCESS r d = Ret (d', r', 0)
    /\ snd d' = snd d ++ AcquireNextImage (presentSemaphore f) :: DestroySwapchain :: rest
    /\ Submit b w g fe ∈ rest /\ w <> presentSemaphore f /\ (forall x, AcquireNextImage x ∉ rest) /\ (exists y, Present y 0 ∈ rest).
Proof.
  intros Hr Hf Hi Hw Hh Hl Hlt. destruct (getFrameData_ok _ Hr) as (f' & Hl' & E). rewrite Hl in Hl'. injection Hl' as <-.
  unfold frame, begin_, acquireNextImage, end_, present_, present. rewrite E, bind_Ret. cbn [fst snd]. rewrite bind_Ret. cbn [chain size].
  destruct (onResize_ok s (fst (size r)) (snd (size r)) (mkDevice (chain r) (size r)) (call (AcquireNextImage (presentSemaphore f)) d) Hf (proj2 Hi) Hw Hh)
    as (chosen & z & -> & Hc).
  repeat (rewrite ?bind_Ret, ?(fresh_first _ _ (proj1 Hi)); cbn [call fst snd chain size currentBuffer]).
  eexists _, _, (commandBuffer (frame_at (fst d))), (presentSemaphore (frame_at (fst d))), (renderSemaphore (frame_at (fst d))),
    (renderFence (frame_at (fst d))), (chosen :: objects (fst d) (images s) ++ tail (frame_calls (frame_at (fst d)) 0)).
  split; [reflexivity|]. split; [unfold call; cbn [fst snd]; rewrite <- !app_assoc; reflexivity|].
  assert (forall x, AcquireNextImage x ∉ objects (fst d) (images s)) as Ho.
  { intros x (k & Hk & _)%list_elem_of_bind. unfold frame_objects in Hk. set_solver. }
  split; [set_solver|]. split; [cbn; lia|]. split; [|exists (renderSemaphore (frame_at (fst d))); set_solver].
  intros x. specialize (Hc x). specialize (Ho x). set_solver.
Qed.

(** *** Render passes *)
Definition colourful (t : TextureType) : bool := match t with COLOR | CUBE => true | _ => false end.
Definition deep (t : TextureType) : bool := match t with DEPTH | DEPTHARRAY => true | _ => false end.
(** The positions whose type satisfies [P], from [k] on. *)
Fixpoint positions (P : TextureType -> bool) (k : Z) (ts : list TextureType) : list Z :=
  match ts with [] => [] | t :: ts => (if P t then [k] else []) ++ positions P (k + 1) ts end.

Lemma positions_snoc P ts : forall k t, positions P k (ts ++ [t]) = positions P k ts ++ (if P t then [k + Z.of_nat (length ts)] else []).
Proof.
  induction ts as [|x ts IH]; intros k t; cbn [app positions length]; [by rewrite Z.add_0_r, app_nil_r|].
  rewrite IH, <- app_assoc. do 3 f_equal. destruct (P t); [|done]. f_equal. lia.
Qed.

(** The pass after some attachments. *)
Record built (clear : bool) (infos : list AttachmentInfo) (p : RenderPass) : Prop := mkBuilt {
  built_length : length (attachments p) = length infos;
  built_types : attachmentTypes p = textureType <$> infos;
  built_colour : colourReferences p = positions colourful 0 (textureType <$> infos);
  built_depth : depthReferences p = positions deep 0 (textureType <$> infos);
  built_clear : clearDepth p = clear && existsb deep (textureType <$> infos);
  built_only : depthOnly p = negb (existsb colourful (textureType <$> infos))
}.

Lemma description_ok props clear info f : findDepthFormat props = Ret f -> exists x, getAttachmentDescription props info clear = Ret x.
Proof. intros Hf. unfold getAttachmentDescription. destruct (textureType info); rewrite ?Hf; eexists; reflexivity. Qed.

Lemma attachments_built props clear f infos : findDepthFormat props = Ret f ->
  exists p, foldM (add_attachment props clear) infos (mkPass [] [] [] [] false true []) = Ret p /\ built clear infos p.
Proof.
  intros Hf. induction infos as [|info infos (p & E & [Hl Ht Hc Hd Hcl Ho])] using rev_ind.
  - eexists. split; [reflexivity|]. split; cbn; rewrite ?andb_false_r; done.
  - rewrite foldM_app, E, bind_Ret. cbn [foldM]. unfold add_attachment. destruct (description_ok props clear info f Hf) as [x ->]. rewrite !bind_Ret.
    eexists. split; [reflexivity|].
    assert (textureType <$> infos ++ [info] = (textureType <$> infos) ++ [textureType info]) as Hm by (by rewrite fmap_app).
    assert (0 + Z.of_nat (length (textureType <$> infos)) = Z.of_nat (length (attachments p))) as Hn by (rewrite length_fmap; lia).
    destruct (textureType info) eqn:Et; split; cbn; rewrite ?Hm, ?length_app, ?Hl, ?Ht, ?Hc, ?Hd, ?Hcl, ?Ho, ?positions_snoc, ?existsb_app; cbn;
      rewrite ?app_nil_r, ?orb_false_r, ?orb_true_r, ?andb_true_r; try done; try (by rewrite length_fmap).
    all: destruct clear; done.
Qed.

(** What the attachment at position [i] of [n] is cleared with. *)
Definition cleared (color : vec4) (p : RenderPass) (n i : nat) : ClearValue :=
  if clearDepth p && bool_decide (i = n - 1)%nat then ClearDepth
  else if depthOnly p then Garbage else ClearColor color.

(** Render passes.  When the device has a depth format, the pass has an
    attachment for each of those asked for, refers to the colours and the cube
    maps as colours and to the depths as depths, in order and each once, and its
    subpass uses the first depth.  Beginning the pass clears every attachment
    with the colour, except the last one, which is cleared as a depth if the pass
    has one: it is cleared with a value of its kind only if the depth is the
    last attachment. *)
Theorem render_pass_spec (props : Format -> FormatProperties) (infos : list AttachmentInfo) (clear : bool) (f : Format) (color : vec4) (fb : N) (w h : Z) :
  findDepthFormat props = Ret f -> infos <> [] ->
  let ts := textureType <$> infos in
  exists p, RenderPass.init props infos clear = Ret p /\ length (attachments p) = length infos /\ attachmentTypes p = ts
    /\ subpass p = (positions colourful 0 ts, head (positions deep 0 ts))
    /\ (forall P, exists p' cs, beginRenderPass (P := P) color (Some fb) w h p = Ret (p', [SetViewport w h; SetScissor w h; BeginRenderPass fb w h cs])
         /\ length cs = length infos /\ forall i, (i < length infos)%nat -> cs !! i = Some (cleared color p (length infos) i))
    /\ (forall t, last ts = Some t -> clear = true -> cleared color p (length infos) (length infos - 1)
         = if deep t then ClearDepth else if existsb deep ts then ClearDepth else if existsb colourful ts then ClearColor color else Garbage).
Proof.
  intros Hf Hne ts. destruct (attachments_built props clear f infos Hf) as (p & E & [Hl Ht Hc Hd Hcl Ho]).
  unfold RenderPass.init. rewrite E, bind_Ret. eexists. split; [reflexivity|]. cbn [attachments attachmentTypes]. split; [done|]. split; [done|].
  split; [unfold subpass; cbn; by rewrite Hc, Hd|]. split.
  - intros P. unfold beginRenderPass, clear_values. cbn [RenderPass.clearDepth RenderPass.depthOnly clearValue attachments attachmentTypes colourReferences depthReferences].
    set (vs := if depthOnly p then replicate (length infos) Garbage else (fun _ => ClearColor color) <$> replicate (length infos) Garbage).
    assert (length vs = length infos) as Hv by (unfold vs; destruct (depthOnly p); rewrite ?length_fmap; apply length_replicate).
    assert (forall i, (i < length infos)%nat -> vs !! i = Some (if depthOnly p then Garbage else ClearColor color)) as Hvi.
    { intros i Hi. unfold vs. destruct (depthOnly p); rewrite ?list_lookup_fmap, lookup_replicate_2 by done; done. }
    destruct (clearDepth p) eqn:Ecd.
    + assert (match vs with [] => Exn OutOfBounds | _ => Ret (<[(length vs - 1)%nat := ClearDepth]> vs) end
        = Ret (<[(length vs - 1)%nat := ClearDepth]> vs)) as -> by (clearbody vs; by destruct vs; [destruct infos|]).
      rewrite !bind_Ret. cbn [deref]. rewrite bind_Ret.
      eexists _, _. split; [reflexivity|]. split; [cbn [clearValue]; by rewrite length_insert|]. intros i Hi. unfold cleared. cbn [clearValue RenderPass.clearDepth RenderPass.depthOnly]. cbn [andb].
      case_bool_decide as Hn; [rewrite Hn, Hv; apply list_lookup_insert_eq; lia|]. rewrite list_lookup_insert_ne by lia. by apply Hvi.
    + rewrite !bind_Ret. cbn [deref]. rewrite bind_Ret. eexists _, _. split; [reflexivity|]. split; [done|]. intros i Hi. unfold cleared. cbn [clearValue RenderPass.clearDepth RenderPass.depthOnly]. by apply Hvi.
  - intros t Hlast ->. unfold cleared. cbn. rewrite Hcl, Ho, bool_decide_eq_true_2 by done. cbn. rewrite andb_true_r. fold ts.
    apply last_Some in Hlast as [l Hts]. rewrite Hts, !existsb_app. cbn. rewrite !orb_false_r.
    destruct (deep t); [by rewrite orb_true_r|]. destruct (existsb deep l); [done|]. cbn. by destruct (existsb colourful l || colourful t).
Qed.

(** Every format has the feature; depth before colour. *)
Definition all_features (f : Format) : FormatProperties := mkFeatures 0 DEPTH_STENCIL_ATTACHMENT_BIT.
Lemma render_pass_spec_witness : exists p, RenderPass.init all_features [mkInfo DEPTH TF_DEPTH false; mkInfo COLOR RGBA8 false] true = Ret p
  /\ cleared zero4 p 2 0 = ClearColor zero4 /\ cleared zero4 p 2 1 = ClearDepth.
Proof.
  destruct (render_pass_spec all_features [mkInfo DEPTH TF_DEPTH false; mkInfo COLOR RGBA8 false] true D32_SFLOAT zero4 0 1 1) as (p & E & _); [done|done|].
  exists p. split; [exact E|]. vm_compute in E. injection E as <-. by split.
Defined.

Lemma swapchain_choices_witness :
  chooseSwapPresentMode [FIFO; IMMEDIATE] false = IMMEDIATE /\ inside (1, 1) (800, 600) (chooseSwapExtent (s_capabilities demo_surface) 1280 (-1)).
Proof.
  destruct (swapchain_choices (s_formats demo_surface) [FIFO; IMMEDIATE] (s_capabilities demo_surface) 1280 (-1)) as (_ & Hm & _ & _ & He); [done|cbn; lia|cbn; lia|].
  split; [exact Hm|]. apply He. reflexivity.
Defined.
End VulkanProps.
