(* ===== verification/Textures.v ===== *)
(** * Textures: images, their layouts, and the objects of the driver they own

    Models [Engine/Vulkan/VulkanTexture.*], the image functions of
    [VulkanHelper.cpp], [VulkanFrameBuffer.cpp] and the texture types of
    [TextureFormat.h].  What the driver answers is an argument; what the code asks
    it for is the list of calls it makes, as in [Vulkan].  Decoding files is left
    to the libraries that do it, and what they give is an argument. *)

From S2P Require Import Prelude Strings Float32 Geometry GpuBuffers ShaderFile Vulkan.
From stdpp Require Import base decidable list gmap sets strings.
From Stdlib Require Import ZArith Lia.
Local Open Scope Z_scope.

(** ** Images (VulkanHelper.cpp) *)
Module Images.
Import VulkanHelper.

Inductive ImageLayout :=
  | UNDEFINED | PREINITIALIZED | COLOR_ATTACHMENT_OPTIMAL | DEPTH_STENCIL_ATTACHMENT_OPTIMAL
  | TRANSFER_SRC_OPTIMAL | TRANSFER_DST_OPTIMAL | SHADER_READ_ONLY_OPTIMAL.
#[export] Instance ImageLayout_eq_dec : EqDecision ImageLayout.
Proof. solve_decision. Defined.

Definition ACCESS_SHADER_READ : Z := 32.
Definition ACCESS_COLOR_ATTACHMENT_WRITE : Z := 256.
Definition ACCESS_DEPTH_STENCIL_READ : Z := 512.
Definition ACCESS_DEPTH_STENCIL_WRITE : Z := 1024.
Definition ACCESS_TRANSFER_READ : Z := 2048.
Definition ACCESS_TRANSFER_WRITE : Z := 4096.
Definition ACCESS_HOST_WRITE : Z := 16384.

(** Levels and layers of an image. *)
Record Range := mkRange { baseMipLevel : Z; levelCount : Z; baseArrayLayer : Z; layerCount : Z }.
(** A part of a level, from a buffer. *)
Record Region := mkRegion { r_level : Z; r_layer : Z; r_offset : Z * Z; r_extent : Z * Z; bufferOffset : Z }.

(** Commands on images.  A blit goes from a level in [TRANSFER_SRC_OPTIMAL] to one
    in [TRANSFER_DST_OPTIMAL], of layer zero; a copy to an image needs
    [TRANSFER_DST_OPTIMAL], and one from an image takes its first level and layer. *)
Inductive Cmd :=
  | Barrier (image : N) (r : Range) (old new : ImageLayout) (srcAccess dstAccess : Z)
  | Blit (image : N) (srcLevel : Z) (srcSize : Z * Z) (dstLevel : Z) (dstSize : Z * Z)
  | CopyBufferToImage (buffer image : N) (regions : list Region)
  | CopyImage (source image : N) (level layer : Z) (extent : Z * Z).

Inductive Filter := FILTER_NEAREST | FILTER_LINEAR.
Inductive AddressMode := MODE_CLAMP_TO_EDGE | MODE_CLAMP_TO_BORDER | MODE_REPEAT | MODE_MIRRORED_REPEAT.
Inductive ViewType := VIEW_2D | VIEW_2D_ARRAY | VIEW_CUBE.

(** Calls of the driver that create, destroy and use its objects; objects are
    numbered as they are created. *)
Inductive Call :=
  | CreateImage (image : N) (width height levels layers : Z) (format : Format) (cube : bool)
  | AllocateMemory (memory : N) (type : Z)
  | BindMemory (image memory : N)
  | CreateView (view image : N) (format : Format) (type : ViewType) (r : Range)
  | CreateSampler (sampler : N) (mag min : Filter) (maxLod : Z) (mode : AddressMode)
  | CreateBuffer (buffer : N) (size : Z)
  | Submit (cmds : list Cmd)
  | DestroyImage (image : N)
  | FreeMemory (memory : N)
  | DestroyView (view : N)
  | DestroySampler (sampler : N)
  | DestroyBuffer (buffer : N).

Definition Driver : Type := N * list Call.
Definition call (c : Call) (d : Driver) : Driver := (fst d, snd d ++ [c]).
Definition new (c : N -> Call) (d : Driver) : Driver * N := ((fst d + 1)%N, snd d ++ [c (fst d)], fst d).

Section Create.
(** Whether the driver can create an object, the memory types it allows for an
    image, and the memory types of the device. *)
Context (created : N -> bool) (typeBits : N -> Z) (memoryTypes : list Z).

Definition DEVICE_LOCAL_BIT : Z := 1.

(** [vkCreateImage] is called twice for the same variable. *)
Definition createImage (width height levels : Z) (format : Format) (layers : Z) (cube : bool) (d : Driver) : outcome (Driver * N * N) :=
  let make h := CreateImage h width height levels layers format cube in
  let '(d, first) := new make d in
  if created first then
    let '(d, image) := new make d in
    type ← findMemoryType 0 (typeBits image) DEVICE_LOCAL_BIT memoryTypes;
    let '(d, memory) := new (fun h => AllocateMemory h type) d in
    Ret (call (BindMemory image memory) d, image, memory)
  else Exn RuntimeError.

Definition createImageView (image : N) (format : Format) (levels : Z) (type : ViewType) (layers base : Z) (d : Driver) : outcome (Driver * N) :=
  let '(d, view) := new (fun h => CreateView h image format type (mkRange 0 levels base layers)) d in
  if created view then Ret (d, view) else Exn RuntimeError.
End Create.

Definition createTextureSampler (mag min : Filter) (maxLod : Z) (mode : AddressMode) (d : Driver) : Driver * N :=
  new (fun h => CreateSampler h mag min maxLod mode) d.

(** [beginSingleTimeCommands] and [endSingleTimeCommands] around some commands. *)
Definition single_time (cmds : list Cmd) (d : Driver) : Driver := call (Submit cmds) d.

(** The masks of a transition; those not listed are logged, and recorded without. *)
Definition transition_access (old new : ImageLayout) : Z * Z :=
  match old, new with
  | UNDEFINED, TRANSFER_DST_OPTIMAL => (0, ACCESS_TRANSFER_WRITE)
  | TRANSFER_DST_OPTIMAL, SHADER_READ_ONLY_OPTIMAL => (ACCESS_TRANSFER_WRITE, ACCESS_SHADER_READ)
  | UNDEFINED, DEPTH_STENCIL_ATTACHMENT_OPTIMAL => (0, Z.lor ACCESS_DEPTH_STENCIL_READ ACCESS_DEPTH_STENCIL_WRITE)
  | _, _ => (0, 0)
  end.
Definition transitionImageLayout (image : N) (old new : ImageLayout) (levels : Z) (d : Driver) : Driver :=
  single_time [Barrier image (mkRange 0 levels 0 1) old new (fst (transition_access old new)) (snd (transition_access old new))] d.

Definition copyBufferToImage (buffer image : N) (width height offsetX offsetY : Z) (d : Driver) : Driver :=
  single_time [CopyBufferToImage buffer image [mkRegion 0 0 (offsetX, offsetY) (width, height) 0]] d.

(** The masks of [setImageLayout]. *)
Definition src_access (old : ImageLayout) : Z :=
  match old with
  | UNDEFINED => 0
  | PREINITIALIZED => ACCESS_HOST_WRITE
  | COLOR_ATTACHMENT_OPTIMAL => ACCESS_COLOR_ATTACHMENT_WRITE
  | DEPTH_STENCIL_ATTACHMENT_OPTIMAL => ACCESS_DEPTH_STENCIL_WRITE
  | TRANSFER_SRC_OPTIMAL => ACCESS_TRANSFER_READ
  | TRANSFER_DST_OPTIMAL => ACCESS_TRANSFER_WRITE
  | SHADER_READ_ONLY_OPTIMAL => ACCESS_SHADER_READ
  end.
Definition layout_access (old new : ImageLayout) : Z * Z :=
  let src := src_access old in
  match new with
  | TRANSFER_DST_OPTIMAL => (src, ACCESS_TRANSFER_WRITE)
  | TRANSFER_SRC_OPTIMAL => (src, ACCESS_TRANSFER_READ)
  | COLOR_ATTACHMENT_OPTIMAL => (src, ACCESS_COLOR_ATTACHMENT_WRITE)
  | DEPTH_STENCIL_ATTACHMENT_OPTIMAL => (src, ACCESS_DEPTH_STENCIL_WRITE)
  | SHADER_READ_ONLY_OPTIMAL => (if src =? 0 then Z.lor ACCESS_HOST_WRITE ACCESS_TRANSFER_WRITE else src, ACCESS_SHADER_READ)
  | _ => (src, 0)
  end.
Definition setImageLayout (image : N) (old new : ImageLayout) (r : Range) : Cmd :=
  Barrier image r old new (fst (layout_access old new)) (snd (layout_access old new)).
(** The overload for the first level and layer. *)
Definition setImageLayout_first (image : N) (old new : ImageLayout) : Cmd := setImageLayout image old new (mkRange 0 1 0 1).

(** *** Mip chains (VulkanTexture.cpp) *)
Definition half (n : Z) : Z := if 1 <? n then Z.quot n 2 else 1.
Definition halved (n : Z) : Z := if 1 <? n then Z.quot n 2 else n.

Definition mip_barrier (image : N) (level : Z) (old new : ImageLayout) (src dst : Z) : Cmd := Barrier image (mkRange level 1 0 1) old new src dst.

(** The body of the loop, at a level, with the size of the one before. *)
Definition mip_step (image : N) (i : Z) (x : list Cmd * Z * Z) : list Cmd * Z * Z :=
  let '(cs, w, h) := x in
  (cs ++ [mip_barrier image (i - 1) TRANSFER_DST_OPTIMAL TRANSFER_SRC_OPTIMAL ACCESS_TRANSFER_WRITE ACCESS_TRANSFER_READ;
          Blit image (i - 1) (w, h) i (half w, half h);
          mip_barrier image (i - 1) TRANSFER_SRC_OPTIMAL SHADER_READ_ONLY_OPTIMAL ACCESS_TRANSFER_READ ACCESS_SHADER_READ], halved w, halved h).
Definition mip_commands (image : N) (width height levels : Z) : list Cmd :=
  fst (fst (fold_left (fun x i => mip_step image i x) (seqZ 1 (levels - 1)) ([], width, height))) ++
  [mip_barrier image (levels - 1) TRANSFER_DST_OPTIMAL SHADER_READ_ONLY_OPTIMAL ACCESS_TRANSFER_WRITE ACCESS_SHADER_READ].
Definition generateMipmaps (image : N) (width height levels : Z) (d : Driver) : Driver := single_time (mip_commands image width height levels) d.
End Images.

(** ** Textures (VulkanTexture.cpp) *)
Module Texture.
Import VulkanHelper Images.

(** *** Parameters (TextureFormat.h) *)
Inductive TextureWrap := WRAP_NONE | REPEAT | CLAMP | MIRRORED_REPEAT | CLAMP_TO_EDGE | CLAMP_TO_BORDER.
Inductive TextureFilter := TFILTER_NONE | TLINEAR | TNEAREST | LINEAR_MIPMAP_LINEAR.

Record TextureParameters := mkParameters { p_format : TextureFormat; minFilter : TextureFilter; magFilter : TextureFilter; wrap : TextureWrap; p_srgb : bool }.
Definition parameters0 : TextureParameters := mkParameters RGBA TLINEAR TLINEAR REPEAT false.
Definition parameters_of (format : TextureFormat) : TextureParameters := mkParameters format TLINEAR TLINEAR CLAMP false.

Definition textureFilterToVK (f : TextureFilter) : Filter := match f with TNEAREST => FILTER_NEAREST | _ => FILTER_LINEAR end.
Definition textureWrapToVK (w : TextureWrap) : AddressMode :=
  match w with
  | CLAMP => MODE_CLAMP_TO_EDGE
  | CLAMP_TO_BORDER => MODE_CLAMP_TO_BORDER
  | CLAMP_TO_EDGE => MODE_CLAMP_TO_EDGE
  | REPEAT => MODE_REPEAT
  | MIRRORED_REPEAT => MODE_MIRRORED_REPEAT
  | WRAP_NONE => MODE_CLAMP_TO_EDGE
  end.

(** *** Two dimensions *)
Record Texture2D := mkTexture {
  width : Z; height : Z; mipLevels : Z;
  parameters : TextureParameters; generateMipMaps : bool;
  image : option N; memory : option N; view : option N; sampler : option N;
  descriptor : option N * option N;        (* the view and the sampler shown to shaders *)
  deleteImage : bool
}.
Definition updateDescriptor (t : Texture2D) : Texture2D :=
  mkTexture (width t) (height t) (mipLevels t) (parameters t) (generateMipMaps t) (image t) (memory t) (view t) (sampler t) (view t, sampler t) (deleteImage t).

(** A texture before its constructor's body. *)
Definition empty (p : TextureParameters) (mips : bool) : Texture2D := mkTexture 0 0 1 p mips None None None None (None, None) false.
Definition with_image (w h levels : Z) (p : TextureParameters) (i m : N) (t : Texture2D) : Texture2D :=
  mkTexture w h levels p (generateMipMaps t) (Some i) (Some m) (view t) (sampler t) (descriptor t) (deleteImage t).
Definition with_view (v s : option N) (delete : bool) (t : Texture2D) : Texture2D :=
  mkTexture (width t) (height t) (mipLevels t) (parameters t) (generateMipMaps t) (image t) (memory t) v s (descriptor t) delete.

Section Device.
Context (created : N -> bool) (typeBits : N -> Z) (memoryTypes : list Z).
(** [static_cast<uint32_t>(std::floor(std::log2(n)))]. *)
Context (floor_log2 : Z -> Z).

(** The source of the pixels: given to the constructor, with their size, or an
    image read from a file, null if it cannot be: its size, and that of its data. *)
Inductive Pixels := Given (width height : Z) | Loaded (asset : option (Z * Z * Z)).

Definition load (source : Pixels) (t : Texture2D) (d : Driver) : outcome (Driver * Texture2D) :=
  '(w, h, size, p) ← match source with
    | Given w h => Ret (w, h, i32 (u32 (u32 (w * h) * 4)), mkParameters RGBA8 (minFilter (parameters t)) (magFilter (parameters t)) (wrap (parameters t)) (p_srgb (parameters t)))
    | Loaded asset => '(w, h, size) ← deref asset; Ret (w, h, size, parameters t)
    end;
  let levels := if generateMipMaps t then floor_log2 (Z.max w h) + 1 else 1 in
  '(d, i, m) ← createImage created typeBits memoryTypes w h levels (textureFormatToVK (p_format p) (p_srgb p)) 1 false d;
  let '(d, buffer) := new (fun b => CreateBuffer b (u32 size)) d in
  let d := transitionImageLayout i UNDEFINED TRANSFER_DST_OPTIMAL levels d in
  let d := copyBufferToImage buffer i w h 0 0 d in
  let d := transitionImageLayout i TRANSFER_DST_OPTIMAL SHADER_READ_ONLY_OPTIMAL levels d in
  let d := if generateMipMaps t then generateMipmaps i w h levels d else d in
  Ret (call (DestroyBuffer buffer) d, with_image w h levels p i m t).

Definition make_sampler (p : TextureParameters) (levels : Z) (d : Driver) : Driver * N :=
  createTextureSampler (textureFilterToVK (magFilter p)) (textureFilterToVK (minFilter p)) levels (textureWrapToVK (wrap p)) d.

(** The constructors from pixels and from a file that is not a KTX file; the view
    and the sampler are made from the constructor's parameter, and the view of a
    file from the member, which [load] leaves alone there. *)
Definition construct (source : Pixels) (p : TextureParameters) (mips : bool) (d : Driver) : outcome (Driver * Texture2D) :=
  '(d, t) ← load source (empty p mips) d;
  i ← deref (image t);
  '(d, v) ← createImageView created i (textureFormatToVK (p_format p) (p_srgb p)) (mipLevels t) VIEW_2D 1 0 d;
  let '(d, s) := make_sampler p (mipLevels t) d in
  Ret (d, updateDescriptor (with_view (Some v) (Some s) true t)).

(** The constructor around an image and a view of others, and the default one. *)
Definition construct_view (i v : N) : Texture2D :=
  updateDescriptor (mkTexture 0 0 1 parameters0 true (Some i) None (Some v) None (None, None) false).
Definition construct_default (d : Driver) : Driver * Texture2D :=
  let '(d, s) := make_sampler parameters0 1 d in (d, updateDescriptor (with_view None (Some s) false (empty parameters0 true))).

Definition destroy_if (c : N -> Call) (h : option N) (d : Driver) : Driver := match h with Some h => call (c h) d | None => d end.
(** The destructor, and the first lines of [buildTexture]; the image of another is left. *)
Definition destroy (t : Texture2D) (d : Driver) : Driver :=
  let d := destroy_if DestroySampler (sampler t) d in
  let d := destroy_if DestroyView (view t) d in
  if deleteImage t then destroy_if FreeMemory (memory t) (destroy_if DestroyImage (image t) d) else d.

Definition buildTexture (format : TextureFormat) (w h : Z) (srgb : bool) (t : Texture2D) (d : Driver) : outcome (Driver * Texture2D) :=
  let d := destroy t d in
  '(d, i, m) ← createImage created typeBits memoryTypes w h 1 (textureFormatToVK format srgb) 1 false d;
  '(d, v) ← createImageView created i (textureFormatToVK format srgb) 1 VIEW_2D 1 0 d;
  let '(d, s) := make_sampler (parameters t) 1 d in
  Ret (d, updateDescriptor (mkTexture w h 1 (parameters t) (generateMipMaps t) (Some i) (Some m) (Some v) (Some s) (descriptor t) true)).

Definition update (x y w h : Z) (t : Texture2D) (d : Driver) : outcome Driver :=
  i ← deref (image t);
  let '(d, buffer) := new (fun b => CreateBuffer b (u32 (u32 (w * h) * 4))) d in
  let d := transitionImageLayout i UNDEFINED TRANSFER_DST_OPTIMAL (mipLevels t) d in
  let d := copyBufferToImage buffer i w h (i32 x) (i32 y) d in
  let d := transitionImageLayout i TRANSFER_DST_OPTIMAL SHADER_READ_ONLY_OPTIMAL (mipLevels t) d in
  Ret (call (DestroyBuffer buffer) d).

(** *** Depth *)
Record Depth := mkDepth { d_width : Z; d_height : Z; d_image : N; d_memory : N; d_view : N; d_sampler : N }.
(** The format the device supports. *)
Context (props : Format -> FormatProperties).

Definition depth_init (w h : Z) (d : Driver) : outcome (Driver * Depth) :=
  format ← findDepthFormat props;
  '(d, i, m) ← createImage created typeBits memoryTypes w h 1 format 1 false d;
  '(d, v) ← createImageView created i format 1 VIEW_2D 1 0 d;
  let d := transitionImageLayout i UNDEFINED DEPTH_STENCIL_ATTACHMENT_OPTIMAL 1 d in
  let '(d, s) := createTextureSampler FILTER_LINEAR FILTER_LINEAR 1 MODE_CLAMP_TO_EDGE d in
  Ret (d, mkDepth w h i m v s).
Definition depth_release (t : Depth) (d : Driver) : Driver :=
  call (FreeMemory (d_memory t)) (call (DestroyImage (d_image t)) (call (DestroyView (d_view t)) (call (DestroySampler (d_sampler t)) d))).
Definition depth_resize (w h : Z) (t : Depth) (d : Driver) : outcome (Driver * Depth) := depth_init w h (depth_release t d).

(** *** Arrays of depth *)
Record DepthArray := mkArray {
  a_width : Z; a_height : Z; count : nat; a_image : N; a_memory : N; a_view : N; a_sampler : N;
  imageViews : list N
}.
Definition array_layer (i : N) (format : Format) (k : nat) (x : Driver * list N) : outcome (Driver * list N) :=
  '(d, v) ← createImageView created i format 1 VIEW_2D_ARRAY 1 (Z.of_nat k) (fst x); Ret (d, snd x ++ [v]).
(** The views of the layers are appended to those there are. *)
Definition array_init (w h : Z) (count : nat) (views : list N) (d : Driver) : outcome (Driver * DepthArray) :=
  format ← findDepthFormat props;
  '(d, i, m) ← createImage created typeBits memoryTypes w h 1 format (Z.of_nat count) false d;
  '(d, v) ← createImageView created i format 1 VIEW_2D_ARRAY (Z.of_nat count) 0 d;
  '(d, views) ← foldM (array_layer i format) (seq 0 count) (d, views);
  let d := transitionImageLayout i UNDEFINED DEPTH_STENCIL_ATTACHMENT_OPTIMAL 1 d in
  let '(d, s) := createTextureSampler FILTER_LINEAR FILTER_LINEAR 1 MODE_CLAMP_TO_EDGE d in
  Ret (d, mkArray w h count i m v s views).
Definition array_resize (w h : Z) (n : nat) (t : DepthArray) (d : Driver) : outcome (Driver * DepthArray) :=
  array_init w h n (imageViews t)
    (call (FreeMemory (a_memory t)) (call (DestroyImage (a_image t)) (call (DestroyView (a_view t)) (call (DestroySampler (a_sampler t)) d)))).
(** The destructor destroys as many views as there are layers. *)
Definition array_destroy (t : DepthArray) (d : Driver) : outcome Driver :=
  let d := call (DestroySampler (a_sampler t)) (call (FreeMemory (a_memory t)) (call (DestroyImage (a_image t)) (call (DestroyView (a_view t)) d))) in
  foldM (fun k d => v ← vec_at (imageViews t) k; Ret (call (DestroyView v) d)) (seq 0 (count t)) d.
Definition getImageView (t : DepthArray) (k : nat) : outcome N := vec_at (imageViews t) k.

(** *** Cubes *)
Record Cube := mkCube {
  c_size : Z * Z; numMips : Z; c_image : N; c_memory : N; c_view : N; c_sampler : N; deleteImg : bool
}.
Definition whole (levels : Z) : Range := mkRange 0 levels 0 6.

(** The constructor from a size: the image is not marked for deletion. *)
Definition cube_construct (size : Z) (format : TextureFormat) (levels : Z) (d : Driver) : outcome (Driver * Cube) :=
  let f := textureFormatToVK format false in
  '(d, i, m) ← createImage created typeBits memoryTypes size size levels f 6 true d;
  let d := single_time [setImageLayout i UNDEFINED SHADER_READ_ONLY_OPTIMAL (whole levels)] d in
  let '(d, s) := createTextureSampler FILTER_LINEAR FILTER_LINEAR levels MODE_REPEAT d in
  '(d, v) ← createImageView created i f levels VIEW_CUBE 6 0 d;
  Ret (d, mkCube (size, size) levels i m v s false).

(** What the KTX library gives of a file: the size of the data, of the first
    level, the levels, and the offset of the image of a level of a face. *)
Record Ktx := mkKtx { k_size : Z; baseWidth : Z; baseHeight : Z; numLevels : Z; numLayers : Z; image_offset : Z -> Z -> Z -> Z }.
Definition level_region (k : Ktx) (layer face level : Z) : Region :=
  mkRegion level (layer + face) (0, 0) (Z.shiftr (baseWidth k) level, Z.shiftr (baseHeight k) level) (image_offset k level layer face).
Definition face_regions (k : Ktx) : list Region := seqZ 0 6 ≫= fun face => level_region k 0 face <$> seqZ 0 (numLevels k).

(** The constructor from a file, which the library can read. *)
Definition cube_load (k : Ktx) (d : Driver) : outcome (Driver * Cube) :=
  let '(d, buffer) := new (fun b => CreateBuffer b (k_size k)) d in
  '(d, i, m) ← createImage created typeBits memoryTypes (baseWidth k) (baseHeight k) (numLevels k) R8G8B8A8_UNORM 6 true d;
  let d := single_time [setImageLayout i UNDEFINED TRANSFER_DST_OPTIMAL (whole (numLevels k)); CopyBufferToImage buffer i (face_regions k);
    setImageLayout i TRANSFER_DST_OPTIMAL SHADER_READ_ONLY_OPTIMAL (whole (numLevels k))] d in
  let '(d, s) := createTextureSampler FILTER_LINEAR FILTER_LINEAR (numLevels k) MODE_REPEAT d in
  '(d, v) ← createImageView created i R8G8B8A8_UNORM (numLevels k) VIEW_CUBE 6 0 d;
  Ret (call (DestroyBuffer buffer) d, mkCube (baseWidth k, baseHeight k) (numLevels k) i m v s true).
Definition cube_destroy (t : Cube) (d : Driver) : Driver :=
  let d := call (DestroyView (c_view t)) (call (DestroySampler (c_sampler t)) d) in
  if deleteImg t then call (FreeMemory (c_memory t)) (call (DestroyImage (c_image t)) d) else d.

(** [VulkanTexture2D::loadKTX], for the constructor. *)
Definition layer_regions (k : Ktx) : list Region := seqZ 0 (numLayers k) ≫= fun layer => level_region k layer 0 <$> seqZ 0 (numLevels k).
Definition loadKTX (p : TextureParameters) (mips : bool) (k : Ktx) (d : Driver) : outcome (Driver * Texture2D) :=
  let '(d, buffer) := new (fun b => CreateBuffer b (k_size k)) d in
  '(d, i, m) ← createImage created typeBits memoryTypes (baseWidth k) (baseHeight k) (numLevels k) R8G8B8A8_UNORM (numLayers k) false d;
  let r := mkRange 0 (numLevels k) 0 1 in
  let d := single_time [setImageLayout i UNDEFINED TRANSFER_DST_OPTIMAL r; CopyBufferToImage buffer i (layer_regions k);
    setImageLayout i TRANSFER_DST_OPTIMAL SHADER_READ_ONLY_OPTIMAL r] d in
  let '(d, s) := createTextureSampler FILTER_LINEAR FILTER_LINEAR (numLevels k) MODE_REPEAT d in
  '(d, v) ← createImageView created i R8G8B8A8_UNORM (numLevels k) VIEW_CUBE (numLayers k) 0 d;
  Ret (call (DestroyBuffer buffer) d, updateDescriptor (with_view (Some v) (Some s) true (with_image (baseWidth k) (baseHeight k) (numLevels k) p i m (empty p mips)))).
End Device.

(** The commands of [VulkanTextureCube::update], from the first image of a frame
    buffer to a level of a face; the caller records them. *)
Definition cube_update (source : N) (face level : Z) (t : Cube) : list Cmd :=
  [setImageLayout_first source COLOR_ATTACHMENT_OPTIMAL TRANSFER_SRC_OPTIMAL;
   setImageLayout_first (c_image t) COLOR_ATTACHMENT_OPTIMAL TRANSFER_SRC_OPTIMAL;
   CopyImage source (c_image t) level face (c_size t);
   setImageLayout_first source TRANSFER_SRC_OPTIMAL COLOR_ATTACHMENT_OPTIMAL;
   setImageLayout (c_image t) TRANSFER_DST_OPTIMAL SHADER_READ_ONLY_OPTIMAL (mkRange 0 (numMips t) face 6)].
End Texture.

(** ** Properties *)
Module TextureProps.
Import VulkanHelper Images Texture.

(** *** The objects that are alive *)
Inductive Effect := Creates (h : N) | Destroys (h : N) | Nothing.
Definition effect (c : Call) : Effect :=
  match c with
  | CreateImage h _ _ _ _ _ _ | AllocateMemory h _ | CreateView h _ _ _ _ | CreateSampler h _ _ _ _ | CreateBuffer h _ => Creates h
  | DestroyImage h | FreeMemory h | DestroyView h | DestroySampler h | DestroyBuffer h => Destroys h
  | BindMemory _ _ | Submit _ => Nothing
  end.
Definition cmd_uses (c : Cmd) : list N :=
  match c with Barrier i _ _ _ _ _ | Blit i _ _ _ _ => [i] | CopyBufferToImage b i _ => [b; i] | CopyImage a b _ _ _ => [a; b] end.
Definition uses (c : Call) : list N :=
  match c with BindMemory i m => [i; m] | CreateView _ i _ _ _ => [i] | Submit cs => cs ≫= cmd_uses | _ => [] end.

(** A call is allowed when what it uses is alive, and what it creates is new. *)
Definition alive_step (c : Call) (s : gset N) : option (gset N) :=
  if bool_decide (Forall (fun h => h ∈ s) (uses c)) then
    match effect c with
    | Creates h => if bool_decide (h ∈ s) then None else Some ({[h]} ∪ s)
    | Destroys h => if bool_decide (h ∈ s) then Some (s ∖ {[h]}) else None
    | Nothing => Some s
    end
  else None.
Fixpoint replay (cs : list Call) (s : gset N) : option (gset N) :=
  match cs with [] => Some s | c :: cs => s ← alive_step c s; replay cs s end.

Lemma replay_app l1 l2 s : replay (l1 ++ l2) s = (s ← replay l1 s; replay l2 s).
Proof. revert s. induction l1 as [|c l1 IH]; intros s; [done|]. cbn. destruct (alive_step c s); cbn; [apply IH|done]. Qed.

(** The calls so far are allowed and leave [s] alive; numbers above are unused. *)
Definition leaves (d : Driver) (s : gset N) : Prop := replay (snd d) ∅ = Some s /\ forall h, h ∈ s -> (h < fst d)%N.

Lemma leaves_fresh d s h : leaves d s -> (fst d <= h)%N -> h ∉ s.
Proof. intros [_ H] Hh Hin. apply H in Hin. lia. Qed.

Lemma leaves_new c d s : leaves d s -> effect (c (fst d)) = Creates (fst d) -> Forall (fun h => h ∈ s) (uses (c (fst d))) ->
  leaves (fst (new c d)) ({[fst d]} ∪ s).
Proof.
  intros Hd He Hu. pose proof (leaves_fresh d s (fst d) Hd ltac:(lia)) as Hf. destruct Hd as [Hr Hb]. split; cbn.
  - rewrite replay_app, Hr. cbn. unfold alive_step. by rewrite bool_decide_eq_true_2, He, bool_decide_eq_false_2.
  - intros h Hh. apply elem_of_union in Hh as [Hh|Hh]; [apply elem_of_singleton in Hh; lia|]. apply Hb in Hh. lia.
Qed.

Lemma leaves_use c d s : leaves d s -> effect c = Nothing -> Forall (fun h => h ∈ s) (uses c) -> leaves (call c d) s.
Proof. intros [Hr Hb] He Hu. split; [|done]. cbn. rewrite replay_app, Hr. cbn. unfold alive_step. by rewrite bool_decide_eq_true_2, He. Qed.

Lemma leaves_destroy c h d s : leaves d s -> effect c = Destroys h -> h ∈ s -> uses c = [] -> leaves (call c d) (s ∖ {[h]}).
Proof.
  intros [Hr Hb] He Hh Hu. split; cbn.
  - rewrite replay_app, Hr. cbn. unfold alive_step. by rewrite Hu, He, !bool_decide_eq_true_2.
  - intros k Hk. apply Hb. set_solver.
Qed.

Lemma leaves_single cmds d s : leaves d s -> Forall (fun c => Forall (fun h => h ∈ s) (cmd_uses c)) cmds -> leaves (single_time cmds d) s.
Proof.
  intros Hd H. apply leaves_use; [done..|]. cbn. apply Forall_forall. intros h Hh. apply list_elem_of_bind in Hh as (c & Hh & Hc).
  eapply Forall_forall in H; [|exact Hc]. by eapply Forall_forall in H.
Qed.
(** *** What a texture owns *)
Section Lifetime.
Context (created : N -> bool) (typeBits : N -> Z) (memoryTypes : list Z) (floor_log2 : Z -> Z).
(** The driver creates what it is asked for, and there is memory for images. *)
Definition generous : Prop :=
  (forall h, created h = true) /\ forall h, exists type, findMemoryType 0 (typeBits h) DEVICE_LOCAL_BIT memoryTypes = Ret type.
Context (can : generous).

(** The first image of each pair is left behind. *)
Lemma image_left w h n f k c d s : leaves d s -> exists d',
  createImage created typeBits memoryTypes w h n f k c d = Ret (d', (fst d + 1)%N, (fst d + 2)%N)
  /\ leaves d' ({[(fst d + 2)%N]} ∪ ({[(fst d + 1)%N]} ∪ ({[fst d]} ∪ s))) /\ fst d' = (fst d + 3)%N.
Proof.
  intros Hd. destruct can as [Hc Hm]. unfold createImage. set (make := fun h0 => CreateImage h0 w h n k f c).
  pose proof (leaves_new make d s Hd eq_refl (Forall_nil_2 _)) as H1. destruct (new make d) as [d1 i0] eqn:E1.
  assert (i0 = fst d /\ fst d1 = (fst d + 1)%N) as [-> F1] by (unfold new in E1; by injection E1 as <- <-). rewrite Hc.
  pose proof (leaves_new make d1 _ H1 eq_refl (Forall_nil_2 _)) as H2. destruct (new make d1) as [d2 i] eqn:E2.
  assert (i = fst d1 /\ fst d2 = (fst d1 + 1)%N) as [-> F2] by (unfold new in E2; by injection E2 as <- <-). destruct (Hm (fst d1)) as [type ->]. rewrite bind_Ret.
  pose proof (leaves_new (fun h => AllocateMemory h type) d2 _ H2 eq_refl (Forall_nil_2 _)) as H3. destruct (new _ d2) as [d3 m] eqn:E3.
  assert (m = fst d2 /\ fst d3 = (fst d2 + 1)%N) as [-> F3] by (unfold new in E3; by injection E3 as <- <-). cbn [fst snd] in *. rewrite F2, F1 in *.
  replace (fst d + 1 + 1)%N with (fst d + 2)%N in * by lia. eexists. split; [reflexivity|]. split; [|cbn; lia].
  apply leaves_use; [exact H3|done|]. cbn. repeat constructor; set_solver.
Qed.

Lemma view_left i f n t l b d s : leaves d s -> i ∈ s -> exists d',
  createImageView created i f n t l b d = Ret (d', fst d) /\ leaves d' ({[fst d]} ∪ s) /\ fst d' = (fst d + 1)%N.
Proof.
  intros Hd Hi. destruct can as [Hc _]. unfold createImageView. set (make := fun h => CreateView h i f t (mkRange 0 n b l)).
  pose proof (leaves_new make d s Hd eq_refl ltac:(by repeat constructor)) as H1. cbn [new fst] in *. rewrite Hc. by eexists.
Qed.

Lemma transition_left i a b n d s : leaves d s -> i ∈ s -> leaves (transitionImageLayout i a b n d) s.
Proof. intros Hd Hi. apply leaves_single; [done|]. by repeat constructor. Qed.
Lemma copy_left b i w h x y d s : leaves d s -> b ∈ s -> i ∈ s -> leaves (copyBufferToImage b i w h x y d) s.
Proof. intros Hd Hb Hi. apply leaves_single; [done|]. by repeat constructor. Qed.

Lemma mip_commands_use i w h n : Forall (fun c => cmd_uses c = [i]) (mip_commands i w h n).
Proof.
  unfold mip_commands. apply Forall_app. split; [|by repeat constructor].
  assert (forall l cs a b, Forall (fun c => cmd_uses c = [i]) cs -> Forall (fun c => cmd_uses c = [i]) (fst (fst (fold_left (fun x k => mip_step i k x) l (cs, a, b))))) as H; [|by apply H].
  induction l as [|k l IH]; intros cs a b Hcs; [done|]. cbn [fold_left]. apply IH. apply Forall_app. split; [done|by repeat constructor].
Qed.
Lemma mipmaps_left i w h n d s : leaves d s -> i ∈ s -> leaves (generateMipmaps i w h n d) s.
Proof.
  intros Hd Hi. apply leaves_single; [done|]. eapply Forall_impl; [apply mip_commands_use|]. intros c E. rewrite E. by repeat constructor.
Qed.

Definition owned_list (t : Texture2D) : list N :=
  option_list (sampler t) ++ option_list (view t) ++ if deleteImage t then option_list (image t) ++ option_list (memory t) else [].
Definition owned (t : Texture2D) : gset N := list_to_set (owned_list t).

(** A texture that owns its objects, all of them alive, among [rest]; what
    shaders are shown is its view and its sampler. *)
Record holds (d : Driver) (t : Texture2D) (rest : gset N) : Prop := mkHolds {
  holds_leaves : leaves d (owned t ∪ rest);
  holds_apart : owned t ## rest;
  holds_distinct : NoDup (owned_list t);
  holds_shown : descriptor t = (view t, sampler t)
}.

Lemma destroyed_if c h d s : leaves d s -> (forall x, effect (c x) = Destroys x /\ uses (c x) = []) -> list_to_set (option_list h) ⊆ s ->
  leaves (destroy_if c h d) (s ∖ list_to_set (option_list h)).
Proof.
  intros Hd Hc Hs. destruct h as [h|]; cbn in *.
  - destruct (Hc h) as [He Hu]. rewrite union_empty_r_L. apply leaves_destroy; [done|done|set_solver|done].
  - by rewrite difference_empty_L.
Qed.

(** Destroying a texture destroys what it owns, once. *)
Lemma destroy_left d t rest : holds d t rest -> leaves (destroy t d) rest.
Proof.
  intros [Hl Ha Hn _]. unfold destroy. unfold owned, owned_list in *. rewrite !list_to_set_app_L in Hl, Ha.
  apply NoDup_app in Hn as (_ & D1 & Hn). apply NoDup_app in Hn as (_ & D2 & Hn).
  assert (forall x : option N, forall y, y ∈ (list_to_set (option_list x) : gset N) <-> x = Some y) as Hx by (intros [x|] y; set_solver).
  set (S1 := list_to_set (option_list (sampler t)) : gset N) in *. set (S2 := list_to_set (option_list (view t)) : gset N) in *.
  assert (S1 ## S2) as A12. { intros h H1 H2. apply (D1 h); [by apply elem_of_list_to_set in H1|]. apply elem_of_app. left. by apply elem_of_list_to_set in H2. }
  pose proof (destroyed_if DestroySampler (sampler t) d _ Hl (fun _ => conj eq_refl eq_refl) ltac:(set_solver)) as H1. fold S1 in H1.
  pose proof (destroyed_if DestroyView (view t) _ _ H1 (fun _ => conj eq_refl eq_refl) ltac:(fold S2; set_solver)) as H2. fold S2 in H2.
  destruct (deleteImage t).
  - rewrite list_to_set_app_L in *. set (S3 := list_to_set (option_list (image t)) : gset N) in *. set (S4 := list_to_set (option_list (memory t)) : gset N) in *.
    apply NoDup_app in Hn as (_ & D3 & _).
    assert (S1 ## S3 /\ S1 ## S4 /\ S2 ## S3 /\ S2 ## S4 /\ S3 ## S4) as (A13 & A14 & A23 & A24 & A34).
    { unfold S1, S2, S3, S4. split_and!; intros h I J; rewrite elem_of_list_to_set in I, J;
        [apply (D1 h I)|apply (D1 h I)|apply (D2 h I)|apply (D2 h I)|by apply (D3 h I)]; rewrite ?elem_of_app; tauto. }
    pose proof (destroyed_if DestroyImage (image t) _ _ H2 (fun _ => conj eq_refl eq_refl) ltac:(fold S3; set_solver)) as H3. fold S3 in H3.
    pose proof (destroyed_if FreeMemory (memory t) _ _ H3 (fun _ => conj eq_refl eq_refl) ltac:(fold S4; set_solver)) as H4. fold S4 in H4.
    replace rest with ((((S1 ∪ (S2 ∪ (S3 ∪ S4)) ∪ rest) ∖ S1) ∖ S2) ∖ S3 ∖ S4) by set_solver. exact H4.
  - cbn in *. replace rest with (((S1 ∪ (S2 ∪ ∅) ∪ rest) ∖ S1) ∖ S2) by set_solver. exact H2.
Qed.
Lemma sampler_left p levels d s : leaves d s -> exists d', make_sampler p levels d = (d', fst d) /\ leaves d' ({[fst d]} ∪ s) /\ fst d' = (fst d + 1)%N.
Proof.
  intros Hd. unfold make_sampler, createTextureSampler. set (make := fun h => CreateSampler h _ _ _ _).
  pose proof (leaves_new make d s Hd eq_refl (Forall_nil_2 _)) as H. cbn [new fst] in *. by eexists.
Qed.
Lemma buffer_left size d s : leaves d s -> exists d', new (fun b => CreateBuffer b size) d = (d', fst d) /\ leaves d' ({[fst d]} ∪ s) /\ fst d' = (fst d + 1)%N.
Proof.
  intros Hd. pose proof (leaves_new (fun b => CreateBuffer b size) d s Hd eq_refl (Forall_nil_2 _)) as H. cbn [new fst] in *. by eexists.
Qed.
Lemma buffer_gone b d s : leaves d ({[b]} ∪ s) -> b ∉ s -> leaves (call (DestroyBuffer b) d) s.
Proof.
  intros Hd Hb. replace s with (({[b]} ∪ s) ∖ {[b]}) by set_solver. apply leaves_destroy; [done|done|set_solver|done].
Qed.

(** A texture of new objects; the image before its own is left. *)
Lemma holds_new f v s d rest t : leaves d ({[s]} ∪ ({[v]} ∪ ({[(f + 2)%N]} ∪ ({[(f + 1)%N]} ∪ ({[f]} ∪ rest))))) -> (forall h, h ∈ rest -> (h < f)%N) ->
  (f + 2 < v)%N -> (f + 2 < s)%N -> v <> s -> owned_list t = [s; v; (f + 1)%N; (f + 2)%N] -> descriptor t = (view t, sampler t) ->
  holds d t ({[f]} ∪ rest) /\ f ∉ rest.
Proof.
  intros Hd Hr Hv Hs Hne Ht Hshow. assert (forall h, h ∈ rest -> h <> s /\ h <> v /\ h <> (f + 1)%N /\ h <> (f + 2)%N /\ h <> f) as Hout.
  { intros h Hh. apply Hr in Hh. lia. }
  split; [|intros Hin; destruct (Hout f Hin) as (_ & _ & _ & _ & E); by apply E].
  split; [| | |done].
  - unfold owned. rewrite Ht. cbn. replace ({[s]} ∪ ({[v]} ∪ ({[(f + 1)%N]} ∪ ({[(f + 2)%N]} ∪ ∅))) ∪ ({[f]} ∪ rest))
      with ({[s]} ∪ ({[v]} ∪ ({[(f + 2)%N]} ∪ ({[(f + 1)%N]} ∪ ({[f]} ∪ rest))))) by set_solver. done.
  - unfold owned. rewrite Ht. intros h H1 H2. apply elem_of_list_to_set in H1. apply elem_of_union in H2 as [H2|H2].
    + apply elem_of_singleton in H2 as ->. rewrite !elem_of_cons, elem_of_nil in H1. lia.
    + apply Hout in H2. rewrite !elem_of_cons, elem_of_nil in H1. naive_solver.
  - rewrite Ht. repeat (apply NoDup_cons; split; [rewrite ?elem_of_cons, ?elem_of_nil; lia|]). by apply NoDup_nil.
Qed.

Lemma destroy_number t d : fst (destroy t d) = fst d.
Proof. unfold destroy, destroy_if. destruct (sampler t), (view t), (deleteImage t), (image t), (memory t); done. Qed.

Lemma build_holds format w h srgb t d rest : holds d t rest -> exists d' t',
  buildTexture created typeBits memoryTypes format w h srgb t d = Ret (d', t') /\ holds d' t' ({[fst d]} ∪ rest) /\ fst d ∉ rest
  /\ width t' = w /\ height t' = h /\ mipLevels t' = 1.
Proof.
  intros Ht. pose proof (destroy_left d t rest Ht) as H0. unfold buildTexture. pose proof (destroy_number t d) as Hn.
  destruct (image_left w h 1 (textureFormatToVK format srgb) 1 false (destroy t d) rest H0) as (d1 & -> & H1 & F1). rewrite bind_Ret. rewrite Hn in *.
  destruct (view_left (fst d + 1)%N (textureFormatToVK format srgb) 1 VIEW_2D 1 0 d1 _ H1) as (d2 & -> & H2 & F2); [set_solver|]. rewrite bind_Ret.
  destruct (sampler_left (parameters t) 1 d2 _ H2) as (d3 & -> & H3 & F3). rewrite F2, F1 in *.
  eexists _, _. split; [reflexivity|]. refine ((fun P => conj (proj1 P) (conj (proj2 P) _)) (holds_new (fst d) _ _ d3 rest _ H3 _ _ _ _ _ _));
    [done|destruct H0 as [_ Hb]; by rewrite Hn in Hb|lia|lia|lia|done|done].
Qed.
(** The image of a texture that was loaded, of which the buffer is gone. *)
Lemma load_left source p mips d rest : leaves d rest -> source <> Loaded None -> exists d' t,
  load created typeBits memoryTypes floor_log2 source (empty p mips) d = Ret (d', t)
  /\ leaves d' ({[(fst d + 2)%N]} ∪ ({[(fst d + 1)%N]} ∪ ({[fst d]} ∪ rest))) /\ fst d' = (fst d + 4)%N
  /\ image t = Some (fst d + 1)%N /\ memory t = Some (fst d + 2)%N
  /\ (width t, height t) = match source with Given w h | Loaded (Some (w, h, _)) => (w, h) | Loaded None => (0, 0) end
  /\ mipLevels t = if mips then floor_log2 (Z.max (width t) (height t)) + 1 else 1.
Proof.
  intros Hd Hs. unfold load. assert (exists w h size q, (match source with
    | Given w h => Ret (w, h, i32 (u32 (u32 (w * h) * 4)), mkParameters RGBA8 (minFilter (parameters (empty p mips))) (magFilter (parameters (empty p mips))) (wrap (parameters (empty p mips))) (p_srgb (parameters (empty p mips))))
    | Loaded asset => '(w, h, size) ← deref asset; Ret (w, h, size, parameters (empty p mips)) end) = Ret (w, h, size, q)
    /\ (w, h) = match source with Given w h | Loaded (Some (w, h, _)) => (w, h) | Loaded None => (0, 0) end) as (w & h & size & q & -> & Hwh).
  { destruct source as [w h|[[[w h] size]|]]; [by eexists _, _, _, _|by eexists _, _, _, _|done]. }
  rewrite bind_Ret. change (generateMipMaps (empty p mips)) with mips. set (n := if mips then floor_log2 (Z.max w h) + 1 else 1).
  destruct (image_left w h n (textureFormatToVK (p_format q) (p_srgb q)) 1 false d rest Hd) as (d1 & -> & H1 & F1). rewrite bind_Ret.
  destruct (buffer_left (u32 size) d1 _ H1) as (d2 & -> & H2 & F2). rewrite F1 in *.
  pose proof (transition_left (fst d + 1)%N UNDEFINED TRANSFER_DST_OPTIMAL n _ _ H2 ltac:(set_solver)) as H3.
  pose proof (copy_left (fst d + 3)%N (fst d + 1)%N w h 0 0 _ _ H3 ltac:(set_solver) ltac:(set_solver)) as H4.
  pose proof (transition_left (fst d + 1)%N TRANSFER_DST_OPTIMAL SHADER_READ_ONLY_OPTIMAL n _ _ H4 ltac:(set_solver)) as H5.
  set (d5 := transitionImageLayout _ TRANSFER_DST_OPTIMAL _ n _) in *.
  assert (leaves (if mips then generateMipmaps (fst d + 1)%N w h n d5 else d5) ({[(fst d + 3)%N]} ∪ ({[(fst d + 2)%N]} ∪ ({[(fst d + 1)%N]} ∪ ({[fst d]} ∪ rest))))) as H6.
  { destruct mips; [|exact H5]. apply mipmaps_left; [exact H5|set_solver]. }
  assert (fst (if mips then generateMipmaps (fst d + 1)%N w h n d5 else d5) = (fst d + 4)%N) as F6 by (destruct mips; cbn; lia).
  eexists _, _. split; [reflexivity|]. split; [|split; [exact F6|done]].
  apply buffer_gone; [exact H6|]. assert (forall h, h ∈ rest -> (h < fst d)%N) as Hb by apply Hd.
  rewrite !elem_of_union, !elem_of_singleton. intros [E|[E|[E|E]]]; try lia. apply Hb in E. lia.
Qed.

Lemma construct_holds source p mips d rest : leaves d rest -> source <> Loaded None -> exists d' t,
  construct created typeBits memoryTypes floor_log2 source p mips d = Ret (d', t) /\ holds d' t ({[fst d]} ∪ rest) /\ fst d ∉ rest.
Proof.
  intros Hd Hs. unfold construct. destruct (load_left source p mips d rest Hd Hs) as (d1 & t & -> & H1 & F1 & Hi & Hm & _ & Hn). rewrite bind_Ret, Hi. cbn [deref]. rewrite bind_Ret.
  destruct (view_left (fst d + 1)%N (textureFormatToVK (p_format p) (p_srgb p)) (mipLevels t) VIEW_2D 1 0 d1 _ H1) as (d2 & -> & H2 & F2); [set_solver|]. rewrite bind_Ret.
  destruct (sampler_left p (mipLevels t) d2 _ H2) as (d3 & -> & H3 & F3). rewrite F2, F1 in *.
  eexists _, _. split; [reflexivity|]. eapply (holds_new (fst d) _ _ d3 rest); [exact H3|apply Hd|lia|lia|lia| |done].
  unfold owned_list. cbn. by rewrite Hi, Hm.
Qed.

Lemma ktx_holds p mips k d rest : leaves d rest -> exists d' t,
  loadKTX created typeBits memoryTypes p mips k d = Ret (d', t) /\ holds d' t ({[(fst d + 1)%N]} ∪ rest) /\ (fst d + 1)%N ∉ rest.
Proof.
  intros Hd. unfold loadKTX. destruct (buffer_left (k_size k) d rest Hd) as (d1 & -> & H1 & F1).
  destruct (image_left (baseWidth k) (baseHeight k) (numLevels k) R8G8B8A8_UNORM (numLayers k) false d1 _ H1) as (d2 & -> & H2 & F2). rewrite bind_Ret.
  match goal with |- context [single_time ?c d2] => assert (leaves (single_time c d2) ({[(fst d1 + 2)%N]} ∪ ({[(fst d1 + 1)%N]} ∪ ({[fst d1]} ∪ ({[fst d]} ∪ rest))))) as H3
    by (apply leaves_single; [exact H2|repeat constructor; set_solver]); set (d3 := single_time c d2) in * end.
  assert (fst d3 = fst d2) as F3 by done.
  unfold createTextureSampler. pose proof (leaves_new (fun h => CreateSampler h FILTER_LINEAR FILTER_LINEAR (numLevels k) MODE_REPEAT) d3 _ H3 eq_refl (Forall_nil_2 _)) as H4.
  destruct (new _ d3) as [d4 s] eqn:E4. assert (s = fst d3 /\ fst d4 = (fst d3 + 1)%N) as [-> F4] by (unfold new in E4; by injection E4 as <- <-). cbn [fst] in H4.
  destruct (view_left (fst d1 + 1)%N R8G8B8A8_UNORM (numLevels k) VIEW_CUBE (numLayers k) 0 d4 _ H4) as (d5 & -> & H5 & F5); [set_solver|]. rewrite bind_Ret.
  rewrite F4, F3, F2, F1 in *. eexists _, _. split; [reflexivity|].
  assert (forall h, h ∈ rest -> (h < fst d)%N) as Hb by apply Hd.
  eapply (holds_new (fst d + 1) (fst d + 1 + 3 + 1) (fst d + 1 + 3) _ rest).
  - match goal with |- leaves _ ?S => assert (fst d ∉ S) as Hout by (rewrite !elem_of_union, !elem_of_singleton; intros [E|[E|[E|[E|[E|E]]]]]; try lia; apply Hb in E; lia) end.
    eapply buffer_gone; [|exact Hout]. match goal with |- leaves _ ?S => match type of H5 with leaves _ ?T => replace S with T by (apply set_eq; intros z; rewrite !elem_of_union, !elem_of_singleton; tauto) end end. exact H5.
  - intros h Hh. apply Hb in Hh. lia.
  - lia.
  - lia.
  - lia.
  - done.
  - done.
Qed.

Lemma update_holds x y w h t d rest : holds d t rest -> is_Some (image t) -> deleteImage t = true -> exists d',
  update x y w h t d = Ret d' /\ holds d' t rest.
Proof.
  intros [Hl Ha Hn Hs] [i Hi] Hdel. unfold update. rewrite Hi. cbn [deref]. rewrite bind_Ret.
  assert (i ∈ owned t) as Hin by (unfold owned, owned_list; rewrite Hdel, Hi; set_solver).
  destruct (buffer_left (u32 (u32 (w * h) * 4)) d _ Hl) as (d1 & -> & H1 & F1).
  pose proof (transition_left i UNDEFINED TRANSFER_DST_OPTIMAL (mipLevels t) _ _ H1 ltac:(set_solver)) as H2.
  pose proof (copy_left (fst d) i w h (i32 x) (i32 y) _ _ H2 ltac:(set_solver) ltac:(set_solver)) as H3.
  pose proof (transition_left i TRANSFER_DST_OPTIMAL SHADER_READ_ONLY_OPTIMAL (mipLevels t) _ _ H3 ltac:(set_solver)) as H4.
  eexists. split; [reflexivity|]. split; [|done|done|done]. apply buffer_gone; [exact H4|]. by eapply leaves_fresh.
Qed.
(** *** A texture's life *)
Inductive Op := OBuild (format : TextureFormat) (w h : Z) (srgb : bool) | OUpdate (x y w h : Z).
Definition apply (o : Op) (t : Texture2D) (d : Driver) : outcome (Driver * Texture2D) :=
  match o with
  | OBuild format w h srgb => buildTexture created typeBits memoryTypes format w h srgb t d
  | OUpdate x y w h => d ← update x y w h t d; Ret (d, t)
  end.
Fixpoint run (ops : list Op) (t : Texture2D) (d : Driver) : outcome (Driver * Texture2D) :=
  match ops with [] => Ret (d, t) | o :: ops => '(d, t) ← apply o t d; run ops t d end.
Definition is_build (o : Op) : bool := match o with OBuild _ _ _ _ => true | OUpdate _ _ _ _ => false end.
Definition builds (ops : list Op) : nat := length (filter (fun o => is_build o = true) ops).

Lemma run_holds ops : forall t d rest, holds d t rest -> is_Some (image t) -> deleteImage t = true -> exists d' t' L,
  run ops t d = Ret (d', t') /\ holds d' t' (L ∪ rest) /\ L ## rest /\ size L = builds ops.
Proof.
  induction ops as [|[format w h srgb|x y w h] ops IH]; intros t d rest Ht Hi Hdel; cbn [run apply].
  - exists d, t, ∅. rewrite union_empty_l_L. split_and!; [done|done|set_solver|done].
  - destruct (build_holds format w h srgb t d rest Ht) as (d1 & t1 & E & H1 & Hout & _). rewrite E, bind_Ret.
    assert (is_Some (image t1) /\ deleteImage t1 = true) as [Hi1 Hd1].
    { unfold buildTexture in E. destruct (createImage _ _ _ _ _ _ _ _ _ _) as [[[? ?] ?]|]; [|discriminate]. rewrite bind_Ret in E.
      destruct (createImageView _ _ _ _ _ _ _ _) as [[? ?]|]; [|discriminate]. rewrite bind_Ret in E. injection E as <- <-. by cbn. }
    destruct (IH t1 d1 _ H1 Hi1 Hd1) as (d' & t' & L & -> & Hh & HL & HS). exists d', t', (L ∪ {[fst d]}).
    split_and!; [done|by rewrite <- union_assoc_L|set_solver|]. rewrite size_union by set_solver. rewrite size_singleton, HS. unfold builds. rewrite filter_cons_True by done. cbn. lia.
  - destruct (update_holds x y w h t d rest Ht Hi Hdel) as (d1 & E & H1). rewrite E, !bind_Ret.
    destruct (IH t d1 rest H1 Hi Hdel) as (d' & t' & L & -> & Hh & HL & HS). exists d', t', L. split_and!; [done..|]. unfold builds. by rewrite filter_cons_False.
Qed.

(** C23. The life of a texture made from pixels or from a file, built anew and updated
    any number of times, and destroyed: every call to the driver uses objects that
    are alive and creates new ones; at any time the texture owns distinct, live
    objects and shows shaders its own view and sampler; and when it is destroyed
    all it created is gone, except one image for each time [createImage] was
    called, the first of the pair. *)
Theorem texture_lifetime source p mips ops d rest : leaves d rest -> source <> Loaded None -> exists d0 t0 d' t L,
  construct created typeBits memoryTypes floor_log2 source p mips d = Ret (d0, t0) /\ run ops t0 d0 = Ret (d', t)
  /\ holds d' t (L ∪ rest) /\ leaves (destroy t d') (L ∪ rest) /\ L ## rest /\ size L = S (builds ops).
Proof.
  intros Hd Hs. destruct (construct_holds source p mips d rest Hd Hs) as (d0 & t0 & E & H0 & Hout). exists d0, t0.
  assert (is_Some (image t0) /\ deleteImage t0 = true) as [Hi Hdel].
  { unfold construct in E. destruct (load _ _ _ _ _ _ _) as [[d1 t1]|]; [|discriminate]. rewrite bind_Ret in E. destruct (image t1) eqn:Ei; [|discriminate].
    cbn [deref] in E. rewrite bind_Ret in E. destruct (createImageView _ _ _ _ _ _ _ _) as [[? ?]|]; [|discriminate]. rewrite bind_Ret in E. injection E as <- <-. cbn. by rewrite Ei. }
  destruct (run_holds ops t0 d0 _ H0 Hi Hdel) as (d' & t & L & ER & Hh & HL & HS). exists d', t, (L ∪ {[fst d]}). rewrite <- union_assoc_L.
  split_and!; [done|done|done|by apply destroy_left|set_solver|]. rewrite size_union by set_solver. rewrite size_singleton, HS. lia.
Qed.
End Lifetime.

(** A device that has memory of the first type. *)
Lemma demo_generous : generous (fun _ => true) (fun _ => 1) [1].
Proof. split; [done|]. intros h. by exists 0. Qed.

(** A texture of two by two pixels, updated once and built anew once. *)
Lemma texture_lifetime_witness : exists d0 t0 d' t L,
  construct (fun _ => true) (fun _ => 1) [1] Z.log2 (Given 2 2) parameters0 true (0%N, []) = Ret (d0, t0)
  /\ run (fun _ => true) (fun _ => 1) [1] [OUpdate 0 0 1 1; OBuild RGBA16 4 4 false] t0 d0 = Ret (d', t) /\ leaves (destroy t d') L /\ size L = 2%nat.
Proof.
  destruct (texture_lifetime (fun _ => true) (fun _ => 1) [1] Z.log2 demo_generous (Given 2 2) parameters0 true [OUpdate 0 0 1 1; OBuild RGBA16 4 4 false] (0%N, []) ∅)
    as (d0 & t0 & d' & t & L & E & R & _ & H & _ & S); [split; [done|intros h Hh; set_solver]|done|].
  exists d0, t0, d', t, L. rewrite union_empty_r_L in H. exact (conj E (conj R (conj H S))).
Defined.
(** *** The layouts an image goes through *)

(** The layout of each level of each layer there is. *)
Definition Layouts : Type := Z -> Z -> option ImageLayout.
Definition inside (r : Range) (l k : Z) : bool :=
  (baseMipLevel r <=? l) && (l <? baseMipLevel r + levelCount r) && (baseArrayLayer r <=? k) && (k <? baseArrayLayer r + layerCount r).
Definition fill (r : Range) (a : ImageLayout) (st : Layouts) : Layouts := fun l k => if inside r l k then Some a else st l k.
Definition all_in (r : Range) (P : Z -> Z -> bool) : bool :=
  forallb (fun l => forallb (P l) (seqZ (baseArrayLayer r) (layerCount r))) (seqZ (baseMipLevel r) (levelCount r)).
Definition has (st : Layouts) (l k : Z) (a : ImageLayout) : bool := bool_decide (st l k = Some a).
(** The size of a level. *)
Definition level_size (n l : Z) : Z := Z.max 1 (Z.shiftr n l).
Definition fits (w h l : Z) (offset extent : Z * Z) : bool :=
  (0 <=? fst offset) && (fst offset + fst extent <=? level_size w l) && (0 <=? snd offset) && (snd offset + snd extent <=? level_size h l).

(** A command on an image of size [w] by [h] is proper when each level it touches
    is there and in the layout the command names, unless that is [UNDEFINED], and
    large enough; then it leaves the layouts given. *)
Definition follow_cmd (i : N) (w h : Z) (c : Cmd) (st : Layouts) : option Layouts :=
  match c with
  | Barrier j r old new _ _ =>
      if bool_decide (j = i) then
        if all_in r (fun l k => match st l k with Some a => bool_decide (old = UNDEFINED) || bool_decide (old = a) | None => false end)
        then Some (fill r new st) else None
      else Some st
  | Blit j s ss t ts =>
      if bool_decide (j = i) then
        if has st s 0 TRANSFER_SRC_OPTIMAL && has st t 0 TRANSFER_DST_OPTIMAL && fits w h s (0, 0) ss && fits w h t (0, 0) ts then Some st else None
      else Some st
  | CopyBufferToImage _ j regions =>
      if bool_decide (j = i) then
        if forallb (fun r => has st (r_level r) (r_layer r) TRANSFER_DST_OPTIMAL && fits w h (r_level r) (r_offset r) (r_extent r)) regions then Some st else None
      else Some st
  | CopyImage a b level layer extent =>
      if bool_decide (b = i) then
        if has st level layer TRANSFER_DST_OPTIMAL && fits w h level (0, 0) extent then Some st else None
      else if bool_decide (a = i) then if has st 0 0 TRANSFER_SRC_OPTIMAL && fits w h 0 (0, 0) extent then Some st else None
      else Some st
  end.
Fixpoint follow (i : N) (w h : Z) (cs : list Cmd) (st : Layouts) : option Layouts :=
  match cs with [] => Some st | c :: cs => st ← follow_cmd i w h c st; follow i w h cs st end.

Lemma follow_app i w h c1 c2 st : follow i w h (c1 ++ c2) st = (st ← follow i w h c1 st; follow i w h c2 st).
Proof. revert st. induction c1 as [|c c1 IH]; intros st; [done|]. cbn. destruct (follow_cmd i w h c st); cbn; [apply IH|done]. Qed.

Lemma all_in_spec r P : all_in r P = true <-> forall l k, inside r l k = true -> P l k = true.
Proof.
  unfold all_in, inside. rewrite forallb_forall. split.
  - intros H l k Hin. rewrite !andb_true_iff, !Z.leb_le, !Z.ltb_lt in Hin. specialize (H l). rewrite forallb_forall in H. apply H; rewrite <- list_elem_of_In, elem_of_seqZ; lia.
  - intros H l Hl. rewrite forallb_forall. intros k Hk. rewrite <- list_elem_of_In, elem_of_seqZ in Hl, Hk. apply H. rewrite !andb_true_iff, !Z.leb_le, !Z.ltb_lt. lia.
Qed.

(** A barrier from the layout there is. *)
Lemma barrier_followed i w h r old new a b st :
  (forall l k, inside r l k = true -> exists c, st l k = Some c /\ (old = UNDEFINED \/ old = c)) -> follow_cmd i w h (Barrier i r old new a b) st = Some (fill r new st).
Proof.
  intros H. unfold follow_cmd. rewrite bool_decide_eq_true_2 by done. rewrite (proj2 (all_in_spec _ _)); [done|]. intros l k Hin.
  destruct (H l k Hin) as (c & -> & [-> | ->]); [done|]. by rewrite (bool_decide_eq_true_2 (c = c)), orb_true_r.
Qed.

Lemma level_size_halved n l : 0 <= l -> 0 <= n -> halved (level_size n l) = level_size n (l + 1) /\ half (level_size n l) = level_size n (l + 1).
Proof.
  intros Hl Hn. unfold halved, half, level_size. rewrite <- Z.shiftr_shiftr, (Z.shiftr_div_pow2 _ 1) by lia. change (2 ^ 1) with 2.
  assert (0 <= Z.shiftr n l) by (by apply Z.shiftr_nonneg). destruct (Z.ltb_spec 1 (Z.max 1 (Z.shiftr n l))) as [H1|H1].
  - rewrite Z.max_r by lia. rewrite Z.quot_div_nonneg by lia. rewrite Z.max_r; [done|]. apply Z.div_le_lower_bound; lia.
  - assert (Z.shiftr n l / 2 = 0) as -> by (apply Z.div_small; lia). lia.
Qed.

Definition blit_of (c : Cmd) : option (Z * (Z * Z) * Z * (Z * Z)) := match c with Blit _ s ss t ts => Some (s, ss, t, ts) | _ => None end.
Definition sizes (w h l : Z) : Z * Z := (level_size w l, level_size h l).

Lemma fits_level w h l : fits w h l (0, 0) (sizes w h l) = true.
Proof. unfold fits, sizes. cbn [fst snd]. rewrite !andb_true_iff, !Z.leb_le. lia. Qed.

(** The levels below [i] are done, the others wait. *)
Record mips_done (i n : Z) (st : Layouts) : Prop := mkMips {
  mips_read : forall l, 0 <= l < i -> st l 0 = Some SHADER_READ_ONLY_OPTIMAL;
  mips_wait : forall l, i <= l < n -> st l 0 = Some TRANSFER_DST_OPTIMAL
}.

Lemma fill_one l0 a st l : fill (mkRange l0 1 0 1) a st l 0 = if decide (l = l0) then Some a else st l 0.
Proof.
  unfold fill, inside. cbn. destruct (decide (l = l0)) as [->|Hne].
  - rewrite (proj2 (Z.leb_le _ _)), (proj2 (Z.ltb_lt _ _)) by lia. done.
  - destruct (Z.leb_spec l0 l), (Z.ltb_spec l (l0 + 1)); cbn; try done. lia.
Qed.
Lemma barrier_one i w h l0 old new a b st : st l0 0 = Some old -> follow_cmd i w h (mip_barrier i l0 old new a b) st = Some (fill (mkRange l0 1 0 1) new st).
Proof.
  intros H. apply barrier_followed. unfold inside. cbn. intros l k Hin. rewrite !andb_true_iff, !Z.leb_le, !Z.ltb_lt in Hin.
  assert (l = l0 /\ k = 0) as [-> ->] by lia. by eexists; split; [|right].
Qed.

Lemma mip_step_followed image w h n i st : 1 <= i < n -> mips_done (i - 1) n st -> exists st',
  follow image w h [mip_barrier image (i - 1) TRANSFER_DST_OPTIMAL TRANSFER_SRC_OPTIMAL ACCESS_TRANSFER_WRITE ACCESS_TRANSFER_READ;
    Blit image (i - 1) (sizes w h (i - 1)) i (sizes w h i);
    mip_barrier image (i - 1) TRANSFER_SRC_OPTIMAL SHADER_READ_ONLY_OPTIMAL ACCESS_TRANSFER_READ ACCESS_SHADER_READ] st = Some st' /\ mips_done i n st'.
Proof.
  intros Hi [Hr Hw]. cbn [follow]. rewrite barrier_one by (apply Hw; lia). cbn [mbind option_bind].
  set (s1 := fill _ TRANSFER_SRC_OPTIMAL st). assert (s1 (i - 1) 0 = Some TRANSFER_SRC_OPTIMAL) as H1 by (unfold s1; by rewrite fill_one, decide_True).
  assert (s1 i 0 = Some TRANSFER_DST_OPTIMAL) as H2 by (unfold s1; rewrite fill_one, decide_False by lia; apply Hw; lia).
  cbn [follow_cmd]. unfold has. rewrite bool_decide_eq_true_2, !(bool_decide_eq_true_2 (_ = Some _)), !fits_level by done. cbn [andb mbind option_bind].
  rewrite barrier_one by done. cbn [mbind option_bind]. eexists. split; [reflexivity|]. split; intros l Hl; rewrite fill_one.
  - destruct (decide (l = i - 1)); [done|]. unfold s1. rewrite fill_one, decide_False by done. apply Hr. lia.
  - rewrite decide_False by lia. unfold s1. rewrite fill_one, decide_False by lia. apply Hw. lia.
Qed.

(** The loop. *)
Lemma mip_loop image w h n m st : 0 <= w -> 0 <= h -> 0 <= m < n -> mips_done 0 n st -> exists st' cs,
  fold_left (fun x i => mip_step image i x) (seqZ 1 m) ([], level_size w 0, level_size h 0) = (cs, level_size w m, level_size h m)
  /\ follow image w h cs st = Some st' /\ mips_done m n st' /\ omap blit_of cs = (fun i => (i - 1, sizes w h (i - 1), i, sizes w h i)) <$> seqZ 1 m.
Proof.
  intros Hw Hh [Hm Hmn] Hst. revert Hmn. pattern m. apply natlike_ind; [| |done]; clear m Hm.
  - intros _. exists st, []. by split_and!.
  - intros m Hm IH Hmn. destruct IH as (s1 & cs & E & F & D & B); [lia|]. rewrite <- Z.add_1_r, seqZ_app, fold_left_app, E by lia.
    replace (1 + m) with (m + 1) by lia. assert (seqZ (m + 1) 1 = [m + 1]) as -> by (by rewrite seqZ_cons by lia). cbn [fold_left]. unfold mip_step at 1.
    destruct (level_size_halved w m) as [-> ->]; [lia..|]. destruct (level_size_halved h m) as [-> ->]; [lia..|].
    destruct (mip_step_followed image w h n (m + 1) s1) as (s2 & F2 & D2); [lia|by replace (m + 1 - 1) with m by lia|].
    replace (m + 1 - 1) with m in * by lia. change (level_size w m, level_size h m) with (sizes w h m). change (level_size w (m + 1), level_size h (m + 1)) with (sizes w h (m + 1)).
    eexists s2, _. split; [reflexivity|]. split; [by rewrite follow_app, F|]. split; [done|]. rewrite omap_app, B, fmap_app. cbn. by replace (m + 1 - 1) with m by lia.
Qed.

(** The mip chain of an image of which every level is a destination of transfers:
    each command finds the levels it touches in the layout it names and within
    their size; each level is scaled from the one before, half its size, down to
    one pixel if there are as many levels as [load] computes; and every level is
    then ready to be read by shaders. *)
Theorem mip_chain image w h n st : 1 <= w -> 1 <= h -> 1 <= n -> mips_done 0 n st -> exists st',
  follow image w h (mip_commands image w h n) st = Some st' /\ mips_done n n st'
  /\ omap blit_of (mip_commands image w h n) = (fun i => (i - 1, sizes w h (i - 1), i, sizes w h i)) <$> seqZ 1 (n - 1)
  /\ (n = Z.log2 (Z.max w h) + 1 -> sizes w h (n - 1) = (1, 1)).
Proof.
  intros Hw Hh Hn Hst. unfold mip_commands. destruct (mip_loop image w h n (n - 1) st) as (s1 & cs & E & F & [Dr Dw] & B); [lia..|done|].
  unfold level_size at 1 2 in E. rewrite !Z.shiftr_0_r, !Z.max_r in E by lia. rewrite E. cbn [fst]. rewrite follow_app, F. cbn [mbind option_bind follow].
  rewrite barrier_one by (apply Dw; lia). cbn [mbind option_bind]. eexists. split; [reflexivity|]. split.
  - split; [|lia]. intros l Hl. rewrite fill_one. destruct (decide (l = n - 1)); [done|]. apply Dr. lia.
  - split; [by rewrite omap_app, B, app_nil_r|]. intros ->. unfold sizes, level_size. replace (Z.log2 (Z.max w h) + 1 - 1) with (Z.log2 (Z.max w h)) by lia.
    destruct (Z.log2_spec (Z.max w h)) as [_ Hlog]; [lia|]. rewrite Z.pow_succ_r in Hlog by apply Z.log2_nonneg.
    rewrite !Z.shiftr_div_pow2 by apply Z.log2_nonneg. assert (0 < 2 ^ Z.log2 (Z.max w h)) by (apply Z.pow_pos_nonneg; [lia|apply Z.log2_nonneg]).
    assert (forall x, 0 <= x <= Z.max w h -> x / 2 ^ Z.log2 (Z.max w h) <= 1) as Hx. { intros x Hx. apply Z.lt_succ_r, Z.div_lt_upper_bound; lia. }
    rewrite !Z.max_l by (apply Hx; lia). done.
Qed.

Lemma mip_chain_witness : exists st', follow 0 5 3 (mip_commands 0 5 3 3) (fun _ _ => Some TRANSFER_DST_OPTIMAL) = Some st'
  /\ omap blit_of (mip_commands 0 5 3 3) = [(0, (5, 3), 1, (2, 1)); (1, (2, 1), 2, (1, 1))].
Proof.
  destruct (mip_chain 0 5 3 3 (fun _ _ => Some TRANSFER_DST_OPTIMAL)) as (st' & E & _ & B & _); [lia|lia|lia|split; [lia|done]|]. by exists st'.
Defined.
(** *** Loading *)
Definition commands (d : Driver) : list Cmd := snd d ≫= fun c => match c with Submit cs => cs | _ => [] end.
Lemma commands_call c d : commands (call c d) = commands d ++ match c with Submit cs => cs | _ => [] end.
Proof. unfold commands. cbn. by rewrite bind_app, bind_singleton. Qed.
Lemma commands_new c d : (forall h cs, c h <> Submit cs) -> commands (fst (new c d)) = commands d.
Proof. intros H. unfold commands. cbn. rewrite bind_app, bind_singleton. destruct (c (fst d)) eqn:E; rewrite ?app_nil_r; try done. by apply H in E. Qed.

(** A new image. *)
Definition undefined (levels layers : Z) : Layouts := fun l k => if inside (mkRange 0 levels 0 layers) l k then Some UNDEFINED else None.

Lemma create_commands created typeBits memoryTypes w h n f k c d d' i m :
  createImage created typeBits memoryTypes w h n f k c d = Ret (d', i, m) -> commands d' = commands d.
Proof.
  unfold createImage. set (make := fun h0 => _). destruct (new make d) as [d1 first] eqn:E1. destruct (created first); [|discriminate]. destruct (new make d1) as [d2 i'] eqn:E2.
  destruct (findMemoryType _ _ _ _) as [type|]; [|discriminate]. rewrite bind_Ret. destruct (new _ d2) as [d3 m'] eqn:E3. intros [= <- _ _].
  rewrite commands_call, app_nil_r. replace d3 with (fst (new (fun h => AllocateMemory h type) d2)) by (by rewrite E3). rewrite commands_new by done.
  replace d2 with (fst (new make d1)) by (by rewrite E2). rewrite commands_new by done. replace d1 with (fst (new make d)) by (by rewrite E1). by apply commands_new.
Qed.

Definition load_commands (b i : N) (w h n : Z) (mips : bool) : list Cmd :=
  [Barrier i (mkRange 0 n 0 1) UNDEFINED TRANSFER_DST_OPTIMAL 0 ACCESS_TRANSFER_WRITE; CopyBufferToImage b i [mkRegion 0 0 (0, 0) (w, h) 0];
   Barrier i (mkRange 0 n 0 1) TRANSFER_DST_OPTIMAL SHADER_READ_ONLY_OPTIMAL ACCESS_TRANSFER_WRITE ACCESS_SHADER_READ] ++
  if mips then mip_commands i w h n else [].

Lemma loaded created typeBits memoryTypes floor_log2 source p mips d d' t :
  load created typeBits memoryTypes floor_log2 source (empty p mips) d = Ret (d', t) -> exists b i,
  image t = Some i /\ mipLevels t = (if mips then floor_log2 (Z.max (width t) (height t)) + 1 else 1)
  /\ commands d' = commands d ++ load_commands b i (width t) (height t) (mipLevels t) mips.
Proof.
  unfold load. destruct (match source with Given _ _ => _ | Loaded _ => _ end) as [[[[w h] size] q]|]; [|discriminate]. rewrite bind_Ret.
  change (generateMipMaps (empty p mips)) with mips. set (n := if mips then floor_log2 (Z.max w h) + 1 else 1).
  destruct (createImage _ _ _ _ _ _ _ _ _ _) as [[[d1 i] m]|] eqn:Ec; [|discriminate]. apply create_commands in Ec. rewrite bind_Ret.
  destruct (new _ d1) as [d2 b] eqn:E2. assert (commands d2 = commands d1) as E2' by (replace d2 with (fst (new (fun b => CreateBuffer b (u32 size)) d1)) by (by rewrite E2); by apply commands_new).
  intros [= <- <-]. exists b, i. split; [done|]. split; [done|]. cbn [width height mipLevels with_image].
  rewrite commands_call, app_nil_r. unfold load_commands, generateMipmaps, transitionImageLayout, copyBufferToImage, single_time.
  destruct mips; rewrite !commands_call, E2', Ec, <- ?app_assoc; cbn [app]; done.
Qed.

Lemma mip_commands_head i w h n : 1 <= n -> exists new a b rest, mip_commands i w h n = mip_barrier i 0 TRANSFER_DST_OPTIMAL new a b :: rest.
Proof.
  intros Hn. unfold mip_commands. destruct (decide (n = 1)) as [->|Hne]; [by eexists _, _, _, _|].
  rewrite (seqZ_cons 1 (n - 1)) by lia. cbn [fold_left]. unfold mip_step at 2. change (1 - 1) with 0. cbn [app].
  assert (forall l cs a b c, exists rest, fst (fst (fold_left (fun x k => mip_step i k x) l (c :: cs, a, b))) = c :: rest) as H.
  { induction l as [|k l IH]; intros cs a b c; [by eexists|]. cbn [fold_left]. apply IH. }
  match goal with |- context [fold_left _ ?l (?c :: ?cs, ?a, ?b)] => destruct (H l cs a b c) as [rest ->] end. by eexists _, _, _, _.
Qed.

(** Loading the pixels of a texture leaves it ready for shaders when no mip levels
    are asked for; when they are, the chain starts from levels that were already
    given to shaders, and not from destinations of transfers as it names. *)
Theorem load_layouts created typeBits memoryTypes floor_log2 source p mips d d' t :
  load created typeBits memoryTypes floor_log2 source (empty p mips) d = Ret (d', t) -> 0 <= width t -> 0 <= height t -> 1 <= mipLevels t ->
  exists i cs, image t = Some i /\ commands d' = commands d ++ cs
  /\ if mips then follow i (width t) (height t) cs (undefined (mipLevels t) 1) = None
     else exists st, follow i (width t) (height t) cs (undefined 1 1) = Some st /\ forall l k, st l k = (fun _ => SHADER_READ_ONLY_OPTIMAL) <$> undefined 1 1 l k.
Proof.
  intros E Hw Hh Hn. destruct (loaded _ _ _ _ _ _ _ _ _ _ E) as (b & i & Hi & Hm & Hc). exists i, (load_commands b i (width t) (height t) (mipLevels t) mips).
  split; [done|]. split; [done|]. clear E Hi Hc. revert Hm Hn. generalize (mipLevels t) as n. intros n Hm Hn. unfold load_commands.
  set (r := mkRange 0 n 0 1). set (s1 := fill r TRANSFER_DST_OPTIMAL (undefined n 1)). set (s2 := fill r SHADER_READ_ONLY_OPTIMAL s1).
  assert (follow i (width t) (height t) [Barrier i r UNDEFINED TRANSFER_DST_OPTIMAL 0 ACCESS_TRANSFER_WRITE;
      CopyBufferToImage b i [mkRegion 0 0 (0, 0) (width t, height t) 0]; Barrier i r TRANSFER_DST_OPTIMAL SHADER_READ_ONLY_OPTIMAL ACCESS_TRANSFER_WRITE ACCESS_SHADER_READ]
      (undefined n 1) = Some s2) as F.
  { cbn [follow]. rewrite barrier_followed by (intros l k Hin; unfold undefined; fold r; rewrite Hin; eauto). cbn [mbind option_bind]. fold s1.
    assert (inside r 0 0 = true) as H0 by (unfold inside, r; cbn; rewrite (proj2 (Z.ltb_lt _ _)) by lia; done).
    assert (follow_cmd i (width t) (height t) (CopyBufferToImage b i [mkRegion 0 0 (0, 0) (width t, height t) 0]) s1 = Some s1) as ->.
    { cbn [follow_cmd forallb r_level r_layer r_offset r_extent]. rewrite bool_decide_eq_true_2 by done. unfold has, s1, fill. rewrite H0, bool_decide_eq_true_2 by done.
      unfold fits, level_size. cbn [fst snd]. rewrite !Z.shiftr_0_r, !(proj2 (Z.leb_le _ _)) by lia. done. }
    cbn [mbind option_bind]. rewrite barrier_followed; [done|]. intros l k Hin. exists TRANSFER_DST_OPTIMAL. unfold s1, fill. rewrite Hin. by split; [|right]. }
  destruct mips.
  - rewrite follow_app, F. cbn [mbind option_bind]. destruct (mip_commands_head i (width t) (height t) n Hn) as (new & a & c & rest & ->). cbn [follow]. unfold mip_barrier, follow_cmd at 1. rewrite bool_decide_eq_true_2 by done.
    destruct (all_in _ _) eqn:Ea; [|done]. rewrite all_in_spec in Ea. specialize (Ea 0 0 eq_refl).
    unfold s2, fill, inside, r in Ea. cbn in Ea. rewrite (proj2 (Z.ltb_lt 0 (0 + n))) in Ea by lia. cbn in Ea. by rewrite !bool_decide_eq_false_2 in Ea by done.
  - subst n. exists s2. rewrite app_nil_r. split; [exact F|]. intros l k. unfold s2, s1, fill, undefined. fold r. by destruct (inside r l k).
Qed.

Lemma load_layouts_witness : exists d' t i cs, load (fun _ => true) (fun _ => 1) [1] Z.log2 (Given 2 2) (empty parameters0 true) (0%N, []) = Ret (d', t)
  /\ image t = Some i /\ commands d' = cs /\ follow i 2 2 cs (undefined 2 1) = None.
Proof.
  destruct (load (fun _ => true) (fun _ => 1) [1] Z.log2 (Given 2 2) (empty parameters0 true) (0%N, [])) as [[d' t]|] eqn:E; [|discriminate].
  exists d', t. assert (width t = 2 /\ height t = 2 /\ mipLevels t = 2) as (Hw & Hh & Hn) by (vm_compute in E; injection E as <- <-; done).
  destruct (load_layouts _ _ _ _ _ _ _ _ _ _ E) as (i & cs & Hi & Hc & F); [lia|lia|lia|]. rewrite Hw, Hh, Hn in F. exists i, cs. exact (conj eq_refl (conj Hi (conj Hc F))).
Defined.
(** *** Cubes *)
Definition six (n : Z) (a : ImageLayout) : Layouts := fun l k => if inside (whole n) l k then Some a else None.

(** A cube from a file: every level of every face is copied into an image ready
    for it, within its size, and ends ready for shaders. *)
Lemma cube_load_proper k b i : 0 <= baseWidth k -> 0 <= baseHeight k -> 0 <= numLevels k -> exists st,
  follow i (baseWidth k) (baseHeight k) [setImageLayout i UNDEFINED TRANSFER_DST_OPTIMAL (whole (numLevels k)); CopyBufferToImage b i (face_regions k);
    setImageLayout i TRANSFER_DST_OPTIMAL SHADER_READ_ONLY_OPTIMAL (whole (numLevels k))] (six (numLevels k) UNDEFINED) = Some st
  /\ forall l f, st l f = six (numLevels k) SHADER_READ_ONLY_OPTIMAL l f.
Proof.
  intros Hw Hh Hn. cbn [follow]. unfold setImageLayout. rewrite barrier_followed by (intros l f Hin; unfold six; rewrite Hin; eauto). cbn [mbind option_bind].
  set (s1 := fill (whole (numLevels k)) TRANSFER_DST_OPTIMAL _).
  assert (forall l f, inside (whole (numLevels k)) l f = true -> s1 l f = Some TRANSFER_DST_OPTIMAL) as H1 by (intros l f Hin; unfold s1, fill; by rewrite Hin).
  assert (follow_cmd i (baseWidth k) (baseHeight k) (CopyBufferToImage b i (face_regions k)) s1 = Some s1) as ->.
  { cbn [follow_cmd]. rewrite bool_decide_eq_true_2 by done. rewrite (proj2 (forallb_forall _ _)); [done|]. intros r Hr. apply list_elem_of_In in Hr.
    unfold face_regions in Hr. apply list_elem_of_bind in Hr as (f & Hr & Hf). apply list_elem_of_fmap in Hr as (l & -> & Hl). rewrite elem_of_seqZ in Hf, Hl.
    unfold has, level_region. cbn [r_level r_layer r_offset r_extent]. rewrite H1, bool_decide_eq_true_2 by (try done; unfold inside; cbn; rewrite !andb_true_iff, !Z.leb_le, !Z.ltb_lt; lia).
    unfold fits, level_size. cbn [fst snd]. rewrite !(proj2 (Z.leb_le _ _)) by lia. done. }
  cbn [mbind option_bind]. rewrite barrier_followed by (intros l f Hin; eexists; split; [by apply H1|by right]). cbn [mbind option_bind].
  eexists. split; [reflexivity|]. intros l f. unfold fill, s1, fill, six. by destruct (inside _ l f).
Qed.

(** [update] names layouts that a cube ready for shaders is not in, at every face
    and level; and at the levels after the first its copy is too large. *)
Lemma cube_update_improper source face level (t : Cube) : source <> c_image t -> 1 <= numMips t ->
  follow (c_image t) (fst (c_size t)) (snd (c_size t)) (cube_update source face level t) (six (numMips t) SHADER_READ_ONLY_OPTIMAL) = None.
Proof.
  intros Hs Hn. unfold cube_update. cbn [follow]. unfold setImageLayout_first, setImageLayout. cbn [follow_cmd]. rewrite !(bool_decide_eq_false_2 (source = c_image t)) by done. cbn [mbind option_bind follow_cmd].
  rewrite !(bool_decide_eq_true_2 (c_image t = c_image t)) by done. destruct (all_in _ _) eqn:Ea; [|done]. rewrite all_in_spec in Ea. specialize (Ea 0 0 eq_refl).
  unfold six, inside, whole in Ea. cbn in Ea. rewrite (proj2 (Z.ltb_lt 0 (0 + numMips t))) in Ea by lia. cbn in Ea. by rewrite !bool_decide_eq_false_2 in Ea by done.
Qed.
Lemma cube_update_too_large w h level : 2 <= w -> 1 <= level -> fits w h level (0, 0) (w, h) = false.
Proof.
  intros Hw Hl. unfold fits, level_size. cbn [fst snd]. rewrite (proj2 (Z.leb_gt (0 + w) _)); [done|].
  rewrite Z.shiftr_div_pow2 by lia. assert (2 <= 2 ^ level) by (change 2 with (2 ^ 1) at 1; apply Z.pow_le_mono_r; lia).
  assert (w / 2 ^ level < w) by (apply Z.div_lt; lia). lia.
Qed.

(** A cube made for rendering keeps its image and its memory when it is destroyed. *)
Lemma cube_leaks created typeBits memoryTypes size format levels d d' t : cube_construct created typeBits memoryTypes size format levels d = Ret (d', t) ->
  snd (cube_destroy t d') = snd d' ++ [DestroySampler (c_sampler t); DestroyView (c_view t)].
Proof.
  unfold cube_construct. destruct (createImage _ _ _ _ _ _ _ _ _ _) as [[[d1 i] m]|]; [|discriminate]. rewrite bind_Ret. destruct (createTextureSampler _ _ _ _ _) as [d2 s].
  destruct (createImageView _ _ _ _ _ _ _ _) as [[d3 v]|]; [|discriminate]. rewrite bind_Ret. intros [= <- <-]. unfold cube_destroy. cbn. by rewrite <- app_assoc.
Qed.

(** *** Arrays of depth *)

(** After [resize], the views of the layers are still those of the image that was
    destroyed. *)
Lemma array_resize_stale created typeBits memoryTypes props w h n (t t' : DepthArray) d d' k v :
  array_resize created typeBits memoryTypes props w h n t d = Ret (d', t') -> getImageView t k = Ret v -> getImageView t' k = Ret v.
Proof.
  unfold array_resize, array_init. destruct (findDepthFormat props) as [f|]; [|discriminate]. rewrite bind_Ret.
  destruct (createImage _ _ _ _ _ _ _ _ _ _) as [[[d1 i] m]|]; [|discriminate]. rewrite bind_Ret. destruct (createImageView _ _ _ _ _ _ _ _) as [[d2 v0]|]; [|discriminate]. rewrite bind_Ret.
  assert (forall l d0 vs x, foldM (array_layer created i f) l (d0, vs) = Ret x -> exists vs', snd x = vs ++ vs') as H.
  { induction l as [|j l IH]; intros d0 vs x; cbn [foldM]; [intros [= <-]; exists []; by rewrite app_nil_r|].
    destruct (array_layer created i f j (d0, vs)) as [[d3 vs3]|] eqn:Ej; [|discriminate]. rewrite bind_Ret. intros Hx. apply IH in Hx as [vs' ->].
    unfold array_layer in Ej. cbn [fst snd] in Ej. destruct (createImageView created i f 1 VIEW_2D_ARRAY 1 (Z.of_nat j) d0) as [[d4 v1]|]; [|discriminate]. injection Ej as <- <-.
    exists ([v1] ++ vs'). by rewrite app_assoc. }
  destruct (foldM _ _ _) as [[d3 vs]|] eqn:Ef; [|discriminate]. rewrite bind_Ret. destruct (createTextureSampler _ _ _ _ _) as [d4 s]. intros [= <- <-].
  apply H in Ef as [vs' E]. cbn in E. subst vs. unfold getImageView, vec_at. cbn [imageViews]. destruct (imageViews t !! k) eqn:Ek; [|discriminate]. intros [= ->].
  by rewrite (lookup_app_l_Some _ _ _ _ Ek).
Qed.

(** *** Updating *)

(** [update] starts by giving up what every level held, whatever part it writes. *)
Lemma update_discards x y w h (t : Texture2D) d d' i : image t = Some i -> update x y w h t d = Ret d' -> exists b,
  commands d' = commands d ++ [Barrier i (mkRange 0 (mipLevels t) 0 1) UNDEFINED TRANSFER_DST_OPTIMAL 0 ACCESS_TRANSFER_WRITE;
    CopyBufferToImage b i [mkRegion 0 0 (i32 x, i32 y) (w, h) 0];
    Barrier i (mkRange 0 (mipLevels t) 0 1) TRANSFER_DST_OPTIMAL SHADER_READ_ONLY_OPTIMAL ACCESS_TRANSFER_WRITE ACCESS_SHADER_READ].
Proof.
  intros Hi. unfold update. rewrite Hi. cbn [deref]. rewrite bind_Ret. destruct (new _ d) as [d1 b] eqn:E.
  assert (commands d1 = commands d) as E1 by (replace d1 with (fst (new (fun b => CreateBuffer b (u32 (u32 (w * h) * 4))) d)) by (by rewrite E); by apply commands_new).
  intros [= <-]. exists b. rewrite commands_call, app_nil_r. unfold transitionImageLayout, copyBufferToImage, single_time. rewrite !commands_call, E1, <- !app_assoc. done.
Qed.

(** The view of a texture from pixels has the format of the constructor's
    parameter, while the image has that of eight bits for each channel. *)
Lemma view_format_differs : textureFormatToVK (p_format (parameters_of RGBA32)) false <> textureFormatToVK RGBA8 false.
Proof. done. Qed.
End TextureProps.
