(* ===== verification/ImageFiles.v ===== *)
(** * ImageFiles: images read from files, and their way into textures

    Models [FileSystem/Image.*] and [FileSystem/ImageLoader.*]; the decoder of the
    formats is a parameter.  The theorems follow an image into the staging buffer
    from which [Textures] copies it. *)

From S2P Require Import Prelude Strings Float32 ShaderFile Vulkan Textures.
From stdpp Require Import base decidable list gmap strings.
From Stdlib Require Import ZArith Lia.
Local Open Scope Z_scope.

Module ImageLoader.
Import VulkanHelper.

Record Image := mkImage {
  pixelFormat : TextureFormat; width : Z; height : Z; data : option (list Z); size : Z; channel : Z; mipmaps : bool; fileName : cstring
}.
(** [Image()], and the constructor from pixels. *)
Definition image0 : Image := mkImage RGBA8 0 0 None 0 0 false [].
Definition make_image (format : TextureFormat) (w h : Z) (d : option (list Z)) (n c : Z) (mips : bool) : Image := mkImage format w h d n c mips [].

Section Decoder.
(** Whether a file has floats, and its width, height, number of channels and bytes:
    always four channels, of bytes or of floats. *)
Context (stbi_is_hdr : cstring -> bool) (stbi_load stbi_loadf : cstring -> option (Z * Z * Z * list Z)).

(** The product of ints by the size of a channel, narrowed; an image that cannot be
    read fails the assertion. *)
Definition image_size (w h channel_size : Z) : Z := u32 (i32 (i32 (w * h) * 4) * channel_size).
Definition loadAsset (name : cstring) (mips : bool) : outcome Image :=
  let hdr := stbi_is_hdr name in
  match if hdr then stbi_loadf name else stbi_load name with
  | None => Exn RuntimeError
  | Some (w, h, channels, d) =>
      Ret (make_image (if hdr then RGBA32 else RGBA8) (u32 w) (u32 h) (Some d) (image_size w h (if hdr then 4 else 1)) (u32 channels) mips)
  end.
(** The overload that fills an image, always with bytes. *)
Definition loadAsset_into (name : cstring) (img : Image) : outcome Image :=
  match stbi_load name with
  | None => Exn RuntimeError
  | Some (w, h, _, d) => Ret (mkImage RGBA8 (u32 w) (u32 h) (Some d) (u32 (i32 (i32 (w * h) * 4))) 4 (mipmaps img) (fileName img))
  end.
Definition image_of_file (name : cstring) : outcome Image :=
  loadAsset_into name (mkImage (pixelFormat image0) (width image0) (height image0) (data image0) (size image0) (channel image0) (mipmaps image0) name).

(** What [VulkanTexture2D::load] takes from the image: its size is kept in an int. *)
Definition texture_source (name : cstring) : outcome Texture.Pixels :=
  img ← loadAsset name true; Ret (Texture.Loaded (Some (width img, height img, i32 (size img)))).
End Decoder.
End ImageLoader.

(** ** Properties *)
Module ImageProps.
Import VulkanHelper Images Texture TextureProps ImageLoader.

(** The bytes of a pixel in a format of a color. *)
Definition texel (f : Format) : Z :=
  match f with
  | R8_UNORM | R8_SRGB => 1
  | R8G8_UNORM | R8G8_SRGB => 2
  | R8G8B8_UNORM | R8G8B8_SRGB => 3
  | R16G16B16_SFLOAT => 6
  | R16G16B16A16_SFLOAT => 8
  | R32G32B32_SFLOAT => 12
  | R32G32B32A32_SFLOAT => 16
  | _ => 4
  end.
(** The size of a buffer and the format of an image, among what was asked of the driver. *)
Definition buffer_size (b : N) (cs : list Call) : option Z := head (omap (fun c => match c with CreateBuffer x n => if decide (x = b) then Some n else None | _ => None end) cs).
Definition image_format (i : N) (cs : list Call) : option Format :=
  head (omap (fun c => match c with CreateImage x _ _ _ _ f _ => if decide (x = i) then Some f else None | _ => None end) cs).
(** Copies to images read inside of their buffers. *)
Definition region_inside (n : Z) (f : Format) (r : Region) : bool := bufferOffset r + fst (r_extent r) * snd (r_extent r) * texel f <=? n.
Definition copy_inside (cs : list Call) (c : Cmd) : bool :=
  match c with
  | CopyBufferToImage b i rs => match buffer_size b cs, image_format i cs with Some n, Some f => forallb (region_inside n f) rs | _, _ => false end
  | _ => true
  end.
Definition reads_inside (d : Driver) : bool := forallb (copy_inside (snd d)) (commands d).

Lemma mip_no_copy cs image w h n : forallb (copy_inside cs) (mip_commands image w h n) = true.
Proof.
  unfold mip_commands. rewrite forallb_app. apply andb_true_iff. split; [|done]. generalize (seqZ 1 (n - 1)) as l. intros l.
  assert (forall l x, forallb (copy_inside cs) (fst (fst x)) = true -> forallb (copy_inside cs) (fst (fst (fold_left (fun x i => mip_step image i x) l x))) = true) as H; [|by apply H].
  clear l. induction l as [|i l IH]; intros [[c a] b] Hx; [done|]. cbn [fold_left]. apply IH. unfold mip_step. cbn [fst] in Hx |- *. rewrite forallb_app, Hx. done.
Qed.

Section Upload.
Context (stbi_is_hdr : cstring -> bool) (stbi_load stbi_loadf : cstring -> option (Z * Z * Z * list Z)).
Context (created : N -> bool) (typeBits : N -> Z) (memoryTypes : list Z) (floor_log2 : Z -> Z).

Definition pixel_size (name : cstring) : Z := if stbi_is_hdr name then 16 else 4.
(** What the decoder gives for a file: four channels, and not too many bytes. *)
Definition decoded (name : cstring) (w h : Z) : Prop := 0 < w /\ 0 < h /\ w * h * pixel_size name < 2147483648
  /\ exists c d, (if stbi_is_hdr name then stbi_loadf name else stbi_load name) = Some (w, h, c, d) /\ Z.of_nat (length d) = w * h * pixel_size name.

Lemma size_exact name w h : decoded name w h -> exists img d, loadAsset stbi_is_hdr stbi_load stbi_loadf name true = Ret img /\ width img = w /\ height img = h
  /\ data img = Some d /\ size img = Z.of_nat (length d) /\ size img = w * h * pixel_size name.
Proof.
  intros (Hw & Hh & Hs & c & d & E & Hl). unfold loadAsset. rewrite E. eexists _, d. split; [reflexivity|]. cbn [make_image width height data size].
  assert (0 < w * h) by nia. assert (w <= w * h) by nia. assert (h <= w * h) by nia. assert (w * h * 4 <= w * h * pixel_size name) by (unfold pixel_size; destruct (stbi_is_hdr name); lia).
  rewrite !u32_small by lia. split; [done|]. split; [done|]. split; [done|]. rewrite Hl. unfold image_size. rewrite !i32_small by (rewrite ?i32_small by lia; lia).
  assert (w * h * 4 * (if stbi_is_hdr name then 4 else 1) = w * h * pixel_size name) as -> by (unfold pixel_size; destruct (stbi_is_hdr name); lia). by rewrite u32_small by lia.
Qed.

Lemma load_calls w h size p mips n d t : load created typeBits memoryTypes floor_log2 (Loaded (Some (w, h, size))) (empty p mips) (n, []) = Ret (d, t) ->
  exists b i levels, buffer_size b (snd d) = Some (u32 size) /\ image_format i (snd d) = Some (textureFormatToVK (p_format p) (p_srgb p)) /\ commands d = load_commands b i w h levels mips.
Proof.
  intros E. destruct (loaded _ _ _ _ _ _ _ _ _ _ E) as (b' & i' & Hi & _ & Hc). unfold load in E. cbn [deref] in E. rewrite !bind_Ret in E.
  change (generateMipMaps (empty p mips)) with mips in E. change (parameters (empty p mips)) with p in E. set (l := if mips then floor_log2 (Z.max w h) + 1 else 1) in *.
  unfold createImage in E. cbn [new fst snd app] in E. destruct (created n); [|done]. cbn [new fst snd app] in E. destruct (findMemoryType _ _ _ _) as [type|]; [|done]. rewrite !bind_Ret in E.
  cbn [call new fst snd app] in E. injection E as <- <-. exists (n + 1 + 1 + 1)%N, (n + 1)%N, l.
  split; [|split].
  - unfold buffer_size. destruct mips; cbn -[mip_commands]; by rewrite decide_True.
  - unfold image_format. destruct mips; cbn -[mip_commands]; rewrite decide_False by lia; by rewrite decide_True.
  - unfold load_commands, commands. destruct mips; cbn -[mip_commands]; by rewrite ?app_nil_r.
Qed.

(** C24. An image read from a file is copied from within its buffer just when the pixels
    of the texture's format are not larger than those of the file, of bytes or of
    floats: the format is the caller's, whatever the file has. *)
Theorem upload_inside name w h p mips n src d t : decoded name w h -> texture_source stbi_is_hdr stbi_load stbi_loadf name = Ret src ->
  load created typeBits memoryTypes floor_log2 src (empty p mips) (n, []) = Ret (d, t) ->
  Texture.width t = w /\ Texture.height t = h /\ (reads_inside d = true <-> texel (textureFormatToVK (p_format p) (p_srgb p)) <= pixel_size name).
Proof.
  intros Hd Hs E. pose proof Hd as (Hw & Hh & Hlt & _). destruct (size_exact name w h Hd) as (img & bytes & Hi & Hiw & Hih & _ & _ & Hn). unfold texture_source in Hs.
  rewrite Hi, bind_Ret in Hs. injection Hs as <-. rewrite Hiw, Hih, Hn in E. assert (0 <= w * h * pixel_size name) as H0 by (unfold pixel_size; destruct (stbi_is_hdr name); nia).
  rewrite i32_small in E by lia. destruct (load_calls _ _ _ _ _ _ _ _ E) as (b & i & levels & Hb & Hf & Hc). rewrite u32_small in Hb by lia.
  assert (Texture.width t = w /\ Texture.height t = h) as [Htw Hth].
  { clear -E. unfold load in E. cbn [deref] in E. rewrite !bind_Ret in E. destruct (createImage _ _ _ _ _ _ _ _ _ _) as [[[d1 i] m]|]; [|done]. rewrite bind_Ret in E.
    destruct (new _ d1) as [d2 b]. injection E as _ <-. done. }
  split; [done|]. split; [done|]. unfold reads_inside. rewrite Hc. unfold load_commands. rewrite forallb_app. cbn [forallb copy_inside]. rewrite Hb, Hf. cbn [forallb region_inside bufferOffset r_extent fst snd].
  assert (forallb (copy_inside (snd d)) (if mips then mip_commands i w h levels else []) = true) as -> by (destruct mips; [apply mip_no_copy|done]).
  rewrite !andb_true_r. cbn [andb]. unfold region_inside. cbn [bufferOffset r_extent fst snd]. rewrite Z.add_0_l, Z.leb_le. assert (0 < w * h) by nia. nia.
Qed.
End Upload.

(** Two pixels of bytes, and of floats; in [RGBA32], which environments ask for, the
    first is read past the end of its buffer. *)
Definition demo_hdr (name : cstring) : bool := bool_decide (name = str "sky.hdr").
Definition demo_load (k : Z) (name : cstring) : option (Z * Z * Z * list Z) := Some (2, 1, 3, replicate (Z.to_nat (8 * k)) 0).
Lemma upload_inside_witness : exists src d t, texture_source demo_hdr (demo_load 1) (demo_load 4) (str "sky.png") = Ret src
  /\ load (fun _ => true) (fun _ => 1) [1] Z.log2 src (empty (parameters_of RGBA32) false) (0%N, []) = Ret (d, t) /\ Texture.width t = 2
  /\ (reads_inside d = true <-> 16 <= 4).
Proof.
  destruct (texture_source demo_hdr (demo_load 1) (demo_load 4) (str "sky.png")) as [src|] eqn:Es; [|discriminate].
  destruct (load (fun _ => true) (fun _ => 1) [1] Z.log2 src (empty (parameters_of RGBA32) false) (0%N, [])) as [[d t]|] eqn:E; [|vm_compute in Es; injection Es as <-; discriminate].
  exists src, d, t. split; [done|]. split; [done|].
  destruct (upload_inside demo_hdr (demo_load 1) (demo_load 4) (fun _ => true) (fun _ => 1) [1] Z.log2 (str "sky.png") 2 1 (parameters_of RGBA32) false 0%N src d t) as (H1 & _ & H2);
    [|exact Es|exact E|exact (conj H1 H2)].
  split; [done|]. split; [done|]. split; [done|]. by eexists _, _.
Defined.

(** The size of a square of 16384 pixels with floats is zero. *)
Example large_hdr_empty : image_size 16384 16384 4 = 0.
Proof. reflexivity. Qed.
End ImageProps.
