(* ===== verification/Mesh.v ===== *)
(** * Mesh: geometry of the built-in meshes

    Models [Engine/Mesh.*]: the construction of a mesh with its bounding box,
    the factories for quads, cubes, spheres and planes, and the generation of
    normals and tangents.  The theorems say that every factory fills its index
    buffer with whole triangles over existing vertices, and what normal each
    vertex of an indexed mesh receives. *)

From S2P Require Import Prelude Float32 Geometry.
From stdpp Require Import base decidable list sets.
From Stdlib Require Import ZArith SpecFloat Lia.
Import Glm Vertex.
Local Open Scope Z_scope.

Module Mesh.

(** ** The mesh (Mesh.h): buffers are their contents. *)
Record Mesh := mkMesh {
  vertexBuffer : list Vertex;
  indexBuffer : list Z;
  boundingBox : BoundingBox.BoundingBox;
  size : Z;
  active : bool
}.

Definition make (indices : list Z) (vertices : list Vertex) : Mesh :=
  let box := fold_left (fun b v => BoundingBox.merge_point (pos v) b) vertices BoundingBox.box0 in
  mkMesh vertices indices box 0 true.

Definition setIndicesSize (n : Z) (m : Mesh) : Mesh :=
  mkMesh (vertexBuffer m) (indexBuffer m) (boundingBox m) n (active m).
Definition setActive (a : bool) (m : Mesh) : Mesh :=
  mkMesh (vertexBuffer m) (indexBuffer m) (boundingBox m) (size m) a.

(** Small literals. *)
Definition p3 (x y z : Z) : vec3 := mkVec3 (F32.of_Z x) (F32.of_Z y) (F32.of_Z z).
Definition p2 (x y : Z) : vec2 := mkVec2 (F32.of_Z x) (F32.of_Z y).

Definition createQuad : Mesh :=
  let corner p t c := mkVertex p (splat4 c) t zero3 zero3 in
  make [0; 1; 2; 2; 3; 0]
    [corner (p3 (-1) (-1) 0) (p2 0 0) F32.zero; corner (p3 1 (-1) 0) (p2 1 0) F32.one;
     corner (p3 1 1 0) (p2 1 1) (F32.lit 1 2); corner (p3 (-1) 1 0) (p2 0 1) (F32.lit 2 10)].

(** Positions and normals of the cube, four per face. *)
Definition cube_faces : list (vec3 * vec3) :=
  [(p3 1 1 1, p3 0 0 1); (p3 (-1) 1 1, p3 0 0 1); (p3 (-1) (-1) 1, p3 0 0 1); (p3 1 (-1) 1, p3 0 0 1);
   (p3 1 1 1, p3 1 0 0); (p3 1 (-1) 1, p3 1 0 0); (p3 1 (-1) (-1), p3 1 0 0); (p3 1 1 (-1), p3 1 0 0);
   (p3 1 1 1, p3 0 1 0); (p3 1 1 (-1), p3 0 1 0); (p3 (-1) 1 (-1), p3 0 1 0); (p3 (-1) 1 1, p3 0 1 0);
   (p3 (-1) 1 1, p3 (-1) 0 0); (p3 (-1) 1 (-1), p3 (-1) 0 0); (p3 (-1) (-1) (-1), p3 (-1) 0 0); (p3 (-1) (-1) 1, p3 (-1) 0 0);
   (p3 (-1) (-1) (-1), p3 0 (-1) 0); (p3 1 (-1) (-1), p3 0 (-1) 0); (p3 1 (-1) 1, p3 0 (-1) 0); (p3 (-1) (-1) 1, p3 0 (-1) 0);
   (p3 1 (-1) (-1), p3 0 0 (-1)); (p3 (-1) (-1) (-1), p3 0 0 (-1)); (p3 (-1) 1 (-1), p3 0 0 (-1)); (p3 1 1 (-1), p3 0 0 (-1))].

(** The loop that sets the texture coordinates of every face. *)
Definition cube_texCoord (i : nat) : vec2 :=
  match (i mod 4)%nat with O => p2 0 0 | 1%nat => p2 1 0 | 2%nat => p2 1 1 | _ => p2 0 1 end.

Definition createCube : Mesh :=
  make [0;1;2; 0;2;3; 4;5;6; 4;6;7; 8;9;10; 8;10;11; 12;13;14; 12;14;15; 16;17;18; 16;18;19; 20;21;22; 20;22;23]
       (imap (fun i '(p, n) => mkVertex p zero4 (cube_texCoord i) n zero3) cube_faces).

(** The values a counter takes from [j] on while [cond] holds. *)
Fixpoint counter (n : nat) (cond : Z -> bool) (j : Z) : outcome (list Z) :=
  if cond j then
    match n with O => Exn OutOfFuel | S n => l ← counter n cond (j + 1); Ret (j :: l) end
  else Ret [].

Section Sphere.
(** The C library's trigonometry. *)
Context (cosf sinf : f32 -> f32).

Definition sphere_vertex (sectorCount stackCount sectorStep stackStep : f32) (i j : Z) : Vertex :=
  let radius := F32.one in
  let stackAngle := F64.to_f32 (F64.sub (F64.div F64.PI (F64.of_Z 2)) (F64.of_f32 (F32.mul (F32.of_Z i) stackStep))) in
  let xy := F32.mul radius (cosf stackAngle) in
  let z := F32.mul radius (sinf stackAngle) in
  let sectorAngle := F32.mul (F32.of_Z j) sectorStep in
  let x := F32.mul xy (cosf sectorAngle) in
  let y := F32.mul xy (sinf sectorAngle) in
  let s := F32.div (F32.of_Z j) sectorCount in
  let t := F32.div (F32.of_Z i) stackCount in
  mkVertex (mkVec3 x y z) zero4 (mkVec2 s t) (normalize3 (mkVec3 x y z)) zero3.

(** One step of the inner index loop; [k1] and [k2] advance with [j]. *)
Definition sphere_cell (sectors : Z) (stackCount : f32) (i j : Z) : list Z :=
  let k1 := u32 (i * u32 (sectors + 1)) in
  let k2 := u32 (k1 + sectors + 1) in
  let k1 := u32 (k1 + j) in
  let k2 := u32 (k2 + j) in
  (if bool_decide (i <> 0) then [k1; k2; u32 (k1 + 1)] else []) ++
  (if negb (F32.eqb (F32.of_Z i) (F32.sub stackCount F32.one)) then [u32 (k1 + 1); k2; u32 (k2 + 1)] else []).

Definition createSphere (xSegments ySegments : Z) : outcome Mesh :=
  let sectorCount := F32.of_Z xSegments in
  let stackCount := F32.of_Z ySegments in
  let sectorStep := F64.to_f32 (F64.div (F64.mul (F64.of_Z 2) F64.PI) (F64.of_f32 sectorCount)) in
  let stackStep := F64.to_f32 (F64.div F64.PI (F64.of_f32 stackCount)) in
  let fuel n := S (S (Z.to_nat n)) in
  rows ← counter (fuel ySegments) (fun i => F32.leb (F32.of_Z i) stackCount) 0;
  cols ← counter (fuel xSegments) (fun j => F32.leb (F32.of_Z j) sectorCount) 0;
  let data := i ← rows; j ← cols; [sphere_vertex sectorCount stackCount sectorStep stackStep i j] in
  rows ← counter (fuel ySegments) (fun i => F32.ltb (F32.of_Z i) stackCount) 0;
  cols ← counter (fuel xSegments) (fun j => F32.ltb (F32.of_Z j) sectorCount) 0;
  let indices := i ← rows; j ← cols; sphere_cell (F32.to_Z sectorCount) stackCount i j in
  Ret (make indices data).
End Sphere.

(** [rotate] is the product of glm's quaternion for the normal with a vector. *)
Definition createPlane (rotate : vec3 -> vec3) (width height : f32) (nrm : vec3) : Mesh :=
  let half v := F32.div v (F32.of_Z 2) in
  let corner x y z t := mkVertex (rotate (mkVec3 x y z)) zero4 t nrm zero3 in
  let w := half width in let w' := half (F32.opp width) in
  let h := half height in let h' := half (F32.opp height) in
  let one := F32.one in let mone := F32.of_Z (-1) in
  make [0; 1; 2; 2; 3; 0]
    [corner w' mone h' (p2 0 0); corner w' mone h (p2 0 1); corner w one h (p2 1 1); corner w one h' (p2 1 0)].

(** ** Normals and tangents *)

(** [normals[i] += n]. *)
Definition add_at (i : Z) (n : vec3) (normals : list vec3) : outcome (list vec3) :=
  old ← at_Z normals i; Ret (<[Z.to_nat i := add3 old n]> normals).

(** The loop over an index list, three at a time; [face] computes what is added at the three corners. *)
Fixpoint accumulate (index : Z -> Z) (face : Vertex -> Vertex -> Vertex -> vec3) (vertices : list Vertex)
    (indices : list Z) (acc : list vec3) : outcome (list vec3) :=
  match indices with
  | [] => Ret acc
  | a :: b :: c :: rest =>
      let '(a, b, c) := (index a, index b, index c) in
      va ← at_Z vertices a; vb ← at_Z vertices b; vc ← at_Z vertices c;
      let n := face va vb vc in
      acc ← add_at a n acc; acc ← add_at b n acc; acc ← add_at c n acc;
      accumulate index face vertices rest acc
  | _ => Exn OutOfBounds
  end.

(** The loop over the vertices themselves. *)
Fixpoint each_face (face : Vertex -> Vertex -> Vertex -> vec3) (vertices : list Vertex) : outcome (list vec3) :=
  match vertices with
  | [] => Ret []
  | a :: b :: c :: rest => let n := face a b c in l ← each_face face rest; Ret (n :: n :: n :: l)
  | _ => Exn OutOfBounds
  end.

Definition face_normal (a b c : Vertex) : vec3 := cross (sub3 (pos b) (pos a)) (sub3 (pos c) (pos a)).

Definition generateNormals (vertices : list Vertex) (indices : list Z) : outcome (list Vertex) :=
  normals ← (if bool_decide (indices <> []) then
               accumulate id face_normal vertices indices (replicate (length vertices) zero3)
             else each_face face_normal vertices);
  Ret (zip_with (fun v n => with_normal (normalize3 n) v) vertices normals).

Definition generateTangent (a b c : vec3) (ta tb tc : vec2) : vec3 :=
  let coord1 := sub2 tb ta in
  let coord2 := sub2 tc ta in
  let vertex1 := sub3 b a in
  let vertex2 := sub3 c a in
  let axis := sub3 (scale3 vertex1 (v2y coord2)) (scale3 vertex2 (v2y coord1)) in
  let factor := F32.div F32.one (F32.sub (F32.mul (v2x coord1) (v2y coord2)) (F32.mul (v2x coord2) (v2y coord1))) in
  scale3 axis factor.

Definition face_tangent (a b c : Vertex) : vec3 :=
  generateTangent (pos a) (pos b) (pos c) (texCoord a) (texCoord b) (texCoord c).

Definition generateTangents (vertices : list Vertex) (indices : list Z) : outcome (list Vertex) :=
  tangents ← (if bool_decide (indices <> []) then
                accumulate i32 face_tangent vertices indices (replicate (length vertices) zero3)
              else l ← each_face face_tangent vertices; Ret (map (add3 zero3) l));
  Ret (zip_with (fun v n => with_tangent (normalize3 n) v) vertices tangents).
End Mesh.

Module MeshProps.
Import Mesh.

(** Whole triangles over existing vertices. *)
Definition valid_mesh (m : Mesh) : Prop :=
  (3 | Z.of_nat (length (indexBuffer m))) /\
  Forall (fun i => 0 <= i < Z.of_nat (length (vertexBuffer m))) (indexBuffer m).

Lemma counter_seqZ n k cond j :
  0 <= k -> (forall i, j <= i <= j + k -> cond i = (i <? j + k)) -> (Z.to_nat k < n)%nat ->
  counter n cond j = Ret (seqZ j k).
Proof.
  revert k j. induction n as [|n IH]; intros k j Hk Hc Hn; [lia|]. cbn.
  rewrite Hc by lia. destruct (Z.ltb_spec j (j + k)).
  - rewrite (IH (k - 1)) by (lia || (intros i Hi; rewrite Hc by lia; f_equal; lia)).
    cbn. by rewrite (seqZ_cons j k), Z.sub_1_r by lia.
  - replace k with 0 by lia. done.
Qed.

(** Counters bounded by a small integer held in a float. *)
Lemma counter_leb y : 0 < y < 2 ^ 24 - 1 ->
  counter (S (S (Z.to_nat y))) (fun i => F32.leb (F32.of_Z i) (F32.of_Z y)) 0 = Ret (seqZ 0 (y + 1)).
Proof. intros Hy. apply counter_seqZ; [lia| |lia]. intros i Hi. rewrite of_Z_leb by lia. lia. Qed.

Lemma counter_ltb y : 0 < y < 2 ^ 24 - 1 ->
  counter (S (S (Z.to_nat y))) (fun i => F32.ltb (F32.of_Z i) (F32.of_Z y)) 0 = Ret (seqZ 0 y).
Proof. intros Hy. apply counter_seqZ; [lia| |lia]. intros i Hi. rewrite of_Z_ltb by lia. lia. Qed.

Lemma bind_divide {A B} (f : A -> list B) (l : list A) d :
  (forall a, (d | Z.of_nat (length (f a)))) -> (d | Z.of_nat (length (l ≫= f))).
Proof.
  intros Hf. induction l as [|a l IH]; cbn; [apply Z.divide_0_r|].
  rewrite length_app, Nat2Z.inj_add. by apply Z.divide_add_r.
Qed.

(** The indices of one cell of a sphere stay below the number of vertices. *)
Lemma sphere_cell_bound x y sc i j :
  0 < x -> (x + 1) * (y + 1) <= 2 ^ 32 -> 0 <= i < y -> 0 <= j < x ->
  Forall (fun k => 0 <= k < (x + 1) * (y + 1)) (sphere_cell x sc i j).
Proof.
  intros Hx Hn Hi Hj. unfold sphere_cell.
  assert (0 <= i * (x + 1) /\ i * (x + 1) + (x + 1) + x < (x + 1) * (y + 1)) as [H1 H2] by nia.
  assert (0 <= x + 1 < 4294967296) by nia.
  unwrap.
  destruct (bool_decide _), (negb _); cbn; repeat constructor; lia.
Qed.

Lemma sphere_cell_divide x sc i j : (3 | Z.of_nat (length (sphere_cell x sc i j))).
Proof.
  unfold sphere_cell. destruct (bool_decide _), (negb _); cbn;
    [exists 2 | exists 1 | exists 1 | exists 0]; done.
Qed.

Lemma createSphere_valid cosf sinf x y :
  0 < x < 2 ^ 24 - 1 -> 0 < y < 2 ^ 24 - 1 -> (x + 1) * (y + 1) <= 2 ^ 32 ->
  exists m, createSphere cosf sinf x y = Ret m /\ valid_mesh m /\
    Z.of_nat (length (vertexBuffer m)) = (x + 1) * (y + 1).
Proof.
  intros Hx Hy Hn. unfold createSphere. cbv zeta.
  rewrite (counter_leb y), bind_Ret, (counter_leb x), bind_Ret, (counter_ltb y), bind_Ret, (counter_ltb x), bind_Ret by done.
  rewrite to_of_Z by lia. eexists. split; [done|]. unfold valid_mesh. cbn [make vertexBuffer indexBuffer].
  assert (forall f : Z -> Z -> Vertex, Z.of_nat (length (i ← seqZ 0 (y + 1); j ← seqZ 0 (x + 1); [f i j])) = (x + 1) * (y + 1)) as ->.
  { intros f. rewrite (bind_length _ _ (Z.to_nat (x + 1))).
    - rewrite length_seqZ. lia.
    - intros a _. rewrite (bind_length _ _ 1); [rewrite length_seqZ; lia|done]. }
  split; [|done]. split.
  - do 2 (apply bind_divide; intros ?). apply sphere_cell_divide.
  - apply Forall_forall. intros k (i & Hk & Hi)%list_elem_of_bind. apply list_elem_of_bind in Hk as (j & Hk & Hj).
    apply elem_of_seqZ in Hi, Hj.
    pose proof (sphere_cell_bound x y (F32.of_Z y) i j ltac:(lia) Hn ltac:(lia) ltac:(lia)) as Hf.
    by apply (proj1 (Forall_forall _ _) Hf).
Qed.

(** Every factory fills the index buffer with whole triangles over existing
    vertices: quads, cubes and planes always, spheres for any segment counts
    below 2^24 whose grid of vertices fits 32-bit indices; building a sphere
    terminates and makes one vertex per grid point. *)
Theorem factories_valid cosf sinf rotate w h nrm x y :
  0 < x < 2 ^ 24 - 1 -> 0 < y < 2 ^ 24 - 1 -> (x + 1) * (y + 1) <= 2 ^ 32 ->
  valid_mesh createQuad /\ valid_mesh createCube /\ valid_mesh (createPlane rotate w h nrm) /\
  (exists m, createSphere cosf sinf x y = Ret m /\ valid_mesh m /\
     Z.of_nat (length (vertexBuffer m)) = (x + 1) * (y + 1)).
Proof.
  intros Hx Hy Hn. split_and!; [| | |by apply createSphere_valid].
  - split; [by exists 2|]. cbn. repeat constructor; lia.
  - split; [by exists 12|]. cbn. repeat constructor; lia.
  - split; [by exists 2|]. cbn. repeat constructor; lia.
Qed.

Lemma factories_valid_witness :
  exists m, createSphere id id 64 64 = Ret m /\ valid_mesh m /\ Z.of_nat (length (vertexBuffer m)) = 65 * 65.
Proof. apply (factories_valid id id id F32.one F32.one zero3 64 64); lia. Defined.
(** ** Normals of an indexed mesh *)

Abbreviation triangle := (Z * Z * Z)%type.

(** The index list of a list of triangles. *)
Definition flatten (tris : list triangle) : list Z := '(a, b, c) ← tris; [a; b; c].

Definition in_range (n : nat) (t : triangle) : Prop :=
  let '(a, b, c) := t in 0 <= a < Z.of_nat n /\ 0 <= b < Z.of_nat n /\ 0 <= c < Z.of_nat n.

(** What triangle [t] adds at vertex [v]: its value once per corner at [v]. *)
Definition contribution (face : Vertex -> Vertex -> Vertex -> vec3) (vs : list Vertex) (v : nat) (t : triangle) : list vec3 :=
  let '(a, b, c) := t in
  match vs !! Z.to_nat a, vs !! Z.to_nat b, vs !! Z.to_nat c with
  | Some va, Some vb, Some vc =>
      const (face va vb vc) <$> filter (fun i => Z.to_nat i = v) [a; b; c]
  | _, _, _ => []
  end.

Lemma add_at_spec i n acc : 0 <= i < Z.of_nat (length acc) ->
  exists acc', add_at i n acc = Ret acc' /\ length acc' = length acc /\
    forall v, acc' !! v = (fun x => fold_left add3 (const n <$> filter (fun i => Z.to_nat i = v) [i]) x) <$> acc !! v.
Proof.
  intros Hi. destruct (at_Z_lookup acc i Hi) as (x & Hx & Hl). unfold add_at. rewrite Hx, bind_Ret.
  eexists. split; [done|]. split; [by rewrite length_insert|]. intros v. rewrite filter_cons.
  case_decide as Hv.
  - subst v. rewrite Hl, list_lookup_insert_eq by lia. done.
  - rewrite list_lookup_insert_ne by done. by destruct (acc !! v).
Qed.

Lemma accumulate_spec face vs tris acc :
  Forall (in_range (length vs)) tris -> length acc = length vs ->
  exists acc', accumulate id face vs (flatten tris) acc = Ret acc' /\ length acc' = length vs /\
    forall v, acc' !! v = (fun x => fold_left add3 (tris ≫= contribution face vs v) x) <$> acc !! v.
Proof.
  intros Hr. revert acc. induction Hr as [|[[a b] c] tris (Ha & Hb & Hc) _ IH]; intros acc Hlen.
  { exists acc. split_and!; [done..|]. intros v. cbn. by destruct (acc !! v). }
  destruct (at_Z_lookup vs a Ha) as (va & Ea & La), (at_Z_lookup vs b Hb) as (vb & Eb & Lb),
    (at_Z_lookup vs c Hc) as (vc & Ec & Lc).
  destruct (add_at_spec a (face va vb vc) acc) as (acc1 & E1 & N1 & L1); [lia|].
  destruct (add_at_spec b (face va vb vc) acc1) as (acc2 & E2 & N2 & L2); [lia|].
  destruct (add_at_spec c (face va vb vc) acc2) as (acc3 & E3 & N3 & L3); [lia|].
  destruct (IH acc3) as (acc' & E & N & L); [lia|]. exists acc'. split_and!; [|done|].
  - cbn [flatten accumulate app mbind list_bind id]. by rewrite Ea, Eb, Ec, !bind_Ret, E1, bind_Ret, E2, bind_Ret, E3, bind_Ret.
  - intros v. rewrite L, L3, L2, L1. destruct (acc !! v) as [x|]; [|done]. cbn [fmap option_fmap option_map]. f_equal.
    cbn [mbind list_bind]. rewrite fold_left_app. f_equal. unfold contribution at 1. rewrite La, Lb, Lc.
    rewrite !filter_cons, !filter_nil. by repeat case_decide.
Qed.

(** For an indexed mesh whose triangles name existing vertices, the generation
    of normals returns the same vertices, each with the normalised sum, in index
    order, of the cross products of the triangles at its corners; a vertex
    without triangles gets the normalised zero vector. *)
Theorem generateNormals_spec vs tris :
  tris <> [] -> Forall (in_range (length vs)) tris ->
  exists vs', generateNormals vs (flatten tris) = Ret vs' /\ length vs' = length vs /\
    forall v x, vs !! v = Some x ->
      vs' !! v = Some (with_normal (normalize3 (fold_left add3 (tris ≫= contribution face_normal vs v) zero3)) x).
Proof.
  intros Hne Hr. destruct (accumulate_spec face_normal vs tris (replicate (length vs) zero3) Hr) as (acc & E & N & L).
  { apply length_replicate. }
  unfold generateNormals. rewrite bool_decide_true by (destruct tris as [|[[]]]; done).
  rewrite E, bind_Ret. eexists. split; [done|]. split; [rewrite length_zip_with; lia|].
  intros v x Hv. rewrite lookup_zip_with, Hv. cbn. rewrite L, lookup_replicate_2 by (by eapply lookup_lt_Some). done.
Qed.

Lemma generateNormals_spec_witness :
  exists vs', generateNormals (vertexBuffer createQuad) (flatten [(0, 1, 2); (2, 3, 0)]) = Ret vs' /\
    (normal <$> vs' !! 0%nat) = Some (p3 0 0 1).
Proof.
  destruct (generateNormals_spec (vertexBuffer createQuad) [(0, 1, 2); (2, 3, 0)]) as (vs' & E & _ & L);
    [done | cbn; repeat constructor; lia |].
  exists vs'. split; [exact E|]. rewrite (L 0%nat _ eq_refl). vm_compute. reflexivity.
Defined.
End MeshProps.
