(* ===== verification/Material.v ===== *)
(** * Material: textures, properties and descriptor sets of a surface

    Models [Engine/Material.*]: the textures of the PBR workflow, the properties
    handed to the shader, the descriptor set kept for each pipeline, and the
    serialisation.  It uses the descriptor sets of [GpuBuffers] and the caches of
    [Resources]. *)

From S2P Require Import Prelude Strings Float32 Geometry GpuBuffers Resources.
From stdpp Require Import base decidable list gmap strings.
From Stdlib Require Import ZArith Lia Ascii.
Local Open Scope Z_scope.
Import Glm.

Module Material.
Import DescriptorSet.

(** ** Data (Material.h) *)
Definition PBR_WORKFLOW_SEPARATE_TEXTURES : f32 := F32.zero.
Definition PBR_WORKFLOW_METALLIC_ROUGHNESS : f32 := F32.one.
Definition PBR_WORKFLOW_SPECULAR_GLOSINESS : f32 := F32.of_Z 2.

Record MaterialProperties := mkProperties {
  albedoColor : vec4; roughnessColor : vec4; metallicColor : vec4; emissiveColor : vec4;
  usingAlbedoMap : f32; usingMetallicMap : f32; usingRoughnessMap : f32; usingNormalMap : f32; usingAOMap : f32;
  usingEmissiveMap : f32; workflow : f32; padding : f32
}.

Definition properties0 : MaterialProperties :=
  mkProperties (splat4 F32.one) (splat4 F32.one) (splat4 F32.one) (mkVec4 F32.zero F32.zero F32.zero F32.one)
    F32.one F32.one F32.one F32.one F32.one F32.one PBR_WORKFLOW_SEPARATE_TEXTURES F32.zero.

Definition sizeof_MaterialProperties : Z := 96.

Record PBRMataterialTextures := mkTextures {
  albedo : option N; normal : option N; metallic : option N; roughness : option N; ao : option N; emissive : option N
}.
Definition textures0 : PBRMataterialTextures := mkTextures None None None None None None.

(** The bits of [RenderFlags]. *)
Inductive RenderFlags := NONE | DISABLE_DEPTH_TEST | WIREFRAME | FORWARDRENDER | DEFERREDRENDER | NOSHADOW.
Definition bits (f : RenderFlags) : Z :=
  match f with
  | NONE => 0 | DISABLE_DEPTH_TEST => Z.shiftl 1 0 | WIREFRAME => Z.shiftl 1 1 | FORWARDRENDER => Z.shiftl 1 2
  | DEFERREDRENDER => Z.shiftl 1 3 | NOSHADOW => Z.shiftl 1 4
  end.

(** A uniform buffer: its handle and what was uploaded last. *)
Record UniformBuffer := mkUniform { handle : N; uploaded : option MaterialProperties }.

(** A missing entry of [descriptorSets] and a null one are the same: the code
    reads the map with [operator[]]. *)
Record Material := mkMaterial {
  renderFlags : Z;
  pbrMaterialTextures : PBRMataterialTextures;
  materialProperties : MaterialProperties;
  shader : option N;
  materialPropertiesBuffer : option UniformBuffer;
  mat_name : cstring;
  texturesUpdated : bool;
  descriptorSets : gmap N (DescriptorSet N)
}.

Definition with_textures (t : PBRMataterialTextures) (m : Material) : Material :=
  mkMaterial (renderFlags m) t (materialProperties m) (shader m) (materialPropertiesBuffer m) (mat_name m) (texturesUpdated m) (descriptorSets m).
Definition with_properties (p : MaterialProperties) (b : option UniformBuffer) (m : Material) : Material :=
  mkMaterial (renderFlags m) (pbrMaterialTextures m) p (shader m) b (mat_name m) (texturesUpdated m) (descriptorSets m).
Definition with_shader (s : option N) (m : Material) : Material :=
  mkMaterial (renderFlags m) (pbrMaterialTextures m) (materialProperties m) s (materialPropertiesBuffer m) (mat_name m) (texturesUpdated m) (descriptorSets m).
Definition with_sets (d : gmap N (DescriptorSet N)) (m : Material) : Material :=
  mkMaterial (renderFlags m) (pbrMaterialTextures m) (materialProperties m) (shader m) (materialPropertiesBuffer m) (mat_name m) (texturesUpdated m) d.
Definition with_name (n : cstring) (m : Material) : Material :=
  mkMaterial (renderFlags m) (pbrMaterialTextures m) (materialProperties m) (shader m) (materialPropertiesBuffer m) n (texturesUpdated m) (descriptorSets m).

Definition setRenderFlags (flags : Z) (m : Material) : Material :=
  mkMaterial flags (pbrMaterialTextures m) (materialProperties m) (shader m) (materialPropertiesBuffer m) (mat_name m) (texturesUpdated m) (descriptorSets m).
Definition setRenderFlag (f : RenderFlags) (m : Material) : Material := setRenderFlags (Z.lor (renderFlags m) (bits f)) m.
Definition setTexturesUpdated (u : bool) (m : Material) : Material :=
  mkMaterial (renderFlags m) (pbrMaterialTextures m) (materialProperties m) (shader m) (materialPropertiesBuffer m) (mat_name m) u (descriptorSets m).
Definition getDescriptorSet (pipeline : N) (m : Material) : option (DescriptorSet N) := descriptorSets m !! pipeline.

(** ** Operations (Material.cpp) *)

Definition setTextures (t : PBRMataterialTextures) (m : Material) : Material := with_textures t m.

Definition setMaterialProperites (p : MaterialProperties) (m : Material) : Material :=
  let b := match materialPropertiesBuffer m with Some b => Some (mkUniform (handle b) (Some p)) | None => None end in
  with_properties p b m.

(** The constructors. *)
Definition material0 : Material :=
  setRenderFlag DEFERREDRENDER (mkMaterial 0 textures0 properties0 None None [] false ∅).
Definition make (sh : option N) (p : MaterialProperties) (t : PBRMataterialTextures) : Material :=
  setMaterialProperites p (setRenderFlag DEFERREDRENDER (mkMaterial 0 t properties0 sh None [] false ∅)).

(** The lambda [getImageInfo]: the texture or the default one; a missing texture
    sets the value passed by reference to zero. *)
Definition getImageInfo (defaultTexture : N) (t : option N) (value : f32) (binding : Z) : ImageInfo N * f32 :=
  match t with
  | Some t => (mkImageInfo [Some t] binding, value)
  | None => (mkImageInfo [Some defaultTexture] binding, F32.zero)
  end.

(** Setting one of the flags of the properties. *)
Definition set_albedo_flag (v : f32) (p : MaterialProperties) : MaterialProperties :=
  mkProperties (albedoColor p) (roughnessColor p) (metallicColor p) (emissiveColor p)
    v (usingMetallicMap p) (usingRoughnessMap p) (usingNormalMap p) (usingAOMap p) (usingEmissiveMap p) (workflow p) (padding p).
Definition set_pbr_flags (vm vr vn va : f32) (p : MaterialProperties) : MaterialProperties :=
  mkProperties (albedoColor p) (roughnessColor p) (metallicColor p) (emissiveColor p)
    (usingAlbedoMap p) vm vr vn va (usingEmissiveMap p) (workflow p) (padding p).

(** [newBuffer] is the handle of a uniform buffer created by the call. *)
Definition createDescriptorSet (defaultTexture newBuffer pipeline : N) (pbr : bool) (m : Material) : outcome Material :=
  let buf := match materialPropertiesBuffer m with
             | Some b => Some b
             | None => if pbr then Some (mkUniform newBuffer None) else None
             end in
  let set_ := default DescriptorSet.make (descriptorSets m !! pipeline) in
  let t := pbrMaterialTextures m in
  let '(i0, v) := getImageInfo defaultTexture (albedo t) (usingAlbedoMap (materialProperties m)) 0 in
  let p := set_albedo_flag v (materialProperties m) in
  if pbr then
    let '(i1, vm) := getImageInfo defaultTexture (metallic t) (usingMetallicMap p) 1 in
    let '(i2, vr) := getImageInfo defaultTexture (roughness t) (usingRoughnessMap p) 2 in
    let '(i3, vn) := getImageInfo defaultTexture (normal t) (usingNormalMap p) 3 in
    let '(i4, va) := getImageInfo defaultTexture (ao t) (usingAOMap p) 4 in
    let '(i5, va) := getImageInfo defaultTexture (emissive t) va 5 in
    let p := set_pbr_flags vm vr vn va p in
    b ← deref buf;
    let info := mkBufferInfo (handle b) 0 sizeof_MaterialProperties 6 UNIFORM_BUFFER in
    s ← DescriptorSet.update [i0; i1; i2; i3; i4; i5] [info] set_;
    Ret (with_sets (<[pipeline := s]> (descriptorSets m)) (with_properties p (Some (mkUniform (handle b) (Some p))) m))
  else
    s ← DescriptorSet.update [i0] [] set_;
    Ret (with_sets (<[pipeline := s]> (descriptorSets m)) (with_properties p buf m)).

(** ** Textures by name *)
Section Caches.
Context {W : Type}.
(** The constructors of VulkanTexture2D (name and file) and VulkanShader. *)
Context (newTexture : cstring -> cstring -> W -> outcome (W * N)) (newShader : cstring -> W -> outcome (W * N)).
Context (getFilePath shaderPath : N -> cstring).

(** The world and the two caches. *)
Record World := mkWorld { world : W; textureCache : gmap cstring (option N); shaderCache : gmap cstring (option N) }.

Definition createTexture (n file : cstring) (s : World) : outcome (World * option N) :=
  '(w, c, t) ← Resources.create (newTexture n) file (world s, textureCache s); Ret (mkWorld w c (shaderCache s), t).
Definition createShader (file : cstring) (s : World) : outcome (World * option N) :=
  '(w, c, t) ← Resources.create newShader file (world s, shaderCache s); Ret (mkWorld w (textureCache s) c, t).

Definition loadMaterial (n path : cstring) (m : Material) (s : World) : outcome (World * Material) :=
  '(s, t) ← createTexture n path s;
  Ret (s, with_textures (mkTextures t None None None None None) (with_name n m)).

(** The six setters: a texture that could be created replaces the slot. *)
Definition set_slot (put : option N -> PBRMataterialTextures -> PBRMataterialTextures) (path : cstring) (m : Material) (s : World)
    : outcome (World * Material) :=
  '(s, t) ← createTexture path path s;
  match t with
  | Some _ => Ret (s, setTexturesUpdated true (with_textures (put t (pbrMaterialTextures m)) m))
  | None => Ret (s, m)
  end.

Definition put_albedo t x := mkTextures t (normal x) (metallic x) (roughness x) (ao x) (emissive x).
Definition put_normal t x := mkTextures (albedo x) t (metallic x) (roughness x) (ao x) (emissive x).
Definition put_metallic t x := mkTextures (albedo x) (normal x) t (roughness x) (ao x) (emissive x).
Definition put_roughness t x := mkTextures (albedo x) (normal x) (metallic x) t (ao x) (emissive x).
Definition put_ao t x := mkTextures (albedo x) (normal x) (metallic x) (roughness x) t (emissive x).
Definition put_emissive t x := mkTextures (albedo x) (normal x) (metallic x) (roughness x) (ao x) t.

Definition setAlbedoTexture := set_slot put_albedo.
Definition setNormalTexture := set_slot put_normal.
Definition setRoughnessTexture := set_slot put_roughness.
Definition setMetallicTexture := set_slot put_metallic.
Definition setAOTexture := set_slot put_ao.
Definition setEmissiveTexture := set_slot put_emissive.

Definition setShader (path : cstring) (m : Material) (s : World) : outcome (World * Material) :=
  '(s, sh) ← createShader path s; Ret (s, with_shader sh m).

Definition getShaderPath (m : Material) : cstring := match shader m with Some s => shaderPath s | None => [] end.

(** ** Serialisation: an archive is the values by name. *)
Inductive Value := VString (s : cstring) | VVec4 (v : vec4) | VFloat (f : f32).
Definition Archive : Type := list (cstring * Value).

Definition path_of (t : option N) : cstring := match t with Some t => getFilePath t | None => [] end.

Definition save (m : Material) : Archive :=
  let t := pbrMaterialTextures m in let p := materialProperties m in
  [(str "Albedo", VString (path_of (albedo t))); (str "Normal", VString (path_of (normal t)));
   (str "Metallic", VString (path_of (metallic t))); (str "Roughness", VString (path_of (roughness t)));
   (str "AO", VString (path_of (ao t))); (str "Emissive", VString (path_of (emissive t)));
   (str "albedoColour", VVec4 (albedoColor p)); (str "roughnessColour", VVec4 (roughnessColor p));
   (str "metallicColour", VVec4 (metallicColor p)); (str "emissiveColour", VVec4 (emissiveColor p));
   (str "usingAlbedoMap", VFloat (usingAlbedoMap p)); (str "usingMetallicMap", VFloat (usingMetallicMap p));
   (str "usingRoughnessMap", VFloat (usingRoughnessMap p)); (str "usingNormalMap", VFloat (usingNormalMap p));
   (str "usingAOMap", VFloat (usingAOMap p)); (str "usingEmissiveMap", VFloat (usingEmissiveMap p));
   (str "workflow", VFloat (workflow p)); (str "shader", VString (getShaderPath m))].

(** A missing name or a value of another kind is an exception of the archive. *)
Definition read_string (n : String.string) (a : Archive) : outcome cstring :=
  match list_find (fun x => fst x = str n) a with Some (_, (_, VString s)) => Ret s | _ => Exn RuntimeError end.
Definition read_vec4 (n : String.string) (a : Archive) : outcome vec4 :=
  match list_find (fun x => fst x = str n) a with Some (_, (_, VVec4 v)) => Ret v | _ => Exn RuntimeError end.
Definition read_float (n : String.string) (a : Archive) : outcome f32 :=
  match list_find (fun x => fst x = str n) a with Some (_, (_, VFloat f)) => Ret f | _ => Exn RuntimeError end.

(** [if (!path.empty()) slot = Texture2D::create(n, path)]. *)
Definition load_slot (put : option N -> PBRMataterialTextures -> PBRMataterialTextures) (n : String.string) (path : cstring)
    (m : Material) (s : World) : outcome (World * Material) :=
  match path with
  | [] => Ret (s, m)
  | _ => '(s, t) ← createTexture (str n) path s; Ret (s, with_textures (put t (pbrMaterialTextures m)) m)
  end.

(** The call of the archive: the six paths, the properties and the shader's path. *)
Definition load_values (pad : f32) (a : Archive) : outcome (cstring * cstring * cstring * cstring * cstring * cstring * MaterialProperties * cstring) :=
  alb ← read_string "Albedo" a; nor ← read_string "Normal" a; rou ← read_string "Roughness" a;
  met ← read_string "Metallic" a; emi ← read_string "Emissive" a; ao_ ← read_string "AO" a;
  ac ← read_vec4 "albedoColour" a; rc ← read_vec4 "roughnessColour" a;
  mc ← read_vec4 "metallicColour" a; ec ← read_vec4 "emissiveColour" a;
  ua ← read_float "usingAlbedoMap" a; um ← read_float "usingMetallicMap" a; ur ← read_float "usingRoughnessMap" a;
  un ← read_float "usingNormalMap" a; uo ← read_float "usingAOMap" a; ue ← read_float "usingEmissiveMap" a;
  wf ← read_float "workflow" a; sh ← read_string "shader" a;
  Ret (alb, nor, rou, met, emi, ao_, mkProperties ac rc mc ec ua um ur un uo ue wf pad, sh).

Definition load (a : Archive) (m : Material) (s : World) : outcome (World * Material) :=
  '(alb, nor, rou, met, emi, ao_, p, sh) ← load_values (padding (materialProperties m)) a;
  let m := with_properties p (materialPropertiesBuffer m) m in
  '(s, m) ← match sh with [] => Ret (s, m) | _ => setShader sh m s end;
  '(s, m) ← load_slot put_albedo "albedo" alb m s;
  '(s, m) ← load_slot put_normal "roughness" nor m s;
  '(s, m) ← load_slot put_metallic "metallic" met m s;
  '(s, m) ← load_slot put_roughness "roughness" rou m s;
  '(s, m) ← load_slot put_emissive "emissive" emi m s;
  load_slot put_ao "ao" ao_ m s.
End Caches.
End Material.

(** ** Properties *)
Module MaterialProps.
Import DescriptorSet DescriptorProps Material.

(** What every operation keeps: the sets have pools of their size. *)
Definition sets_ok (m : Material) : Prop := forall p s, descriptorSets m !! p = Some s -> pools_ok s.

Lemma make_pools_ok : pools_ok (H := N) DescriptorSet.make.
Proof. by split. Qed.

(** The binding of each texture in the shader. *)
Definition bindings (t : PBRMataterialTextures) : list (option N) :=
  [albedo t; metallic t; roughness t; normal t; ao t; emissive t].

(** The flag a texture leaves. *)
Definition flag (t : option N) (v : f32) : f32 := match t with Some _ => v | None => F32.zero end.

Lemma getImageInfo_spec d t v b : getImageInfo d t v b = (single b (default d t), flag t v).
Proof. by destruct t. Qed.

Lemma set_ok m p : sets_ok m -> pools_ok (default DescriptorSet.make (descriptorSets m !! p)).
Proof. intros H. destruct (descriptorSets m !! p) eqn:E; [by eapply H|apply make_pools_ok]. Qed.

Lemma six_update (s : DescriptorSet N) t0 t1 t2 t3 t4 t5 info : pools_ok s ->
  exists s', DescriptorSet.update [single 0 t0; single 1 t1; single 2 t2; single 3 t3; single 4 t4; single 5 t5] [info] s = Ret s'
    /\ pools_ok s' /\ (forall k t, [t0; t1; t2; t3; t4; t5] !! k = Some t -> images s' !! (Z.of_nat k, 0%nat) = Some (Some t))
    /\ uniforms s' !! bi_binding info = Some (Some (bi_buffer info, bi_offset info, bi_size info)).
Proof.
  intros Hs. destruct (set_update_ok [0; 1; 2; 3; 4] [t0; t1; t2; t3; t4] 5 [t5] 0 [info] s Hs)
    as (s' & E & Hok & Hk & Hl & _ & Hu & _); [done|by apply (bool_decide_unpack _)|apply NoDup_singleton|cbn; unfold MAX_IMAGE_INFOS; lia|
      cbn; unfold MAX_WRITE_DESCTIPTORS; lia|].
  exists s'. split_and!; [exact E|done| |apply Hu; set_solver].
  intros k t Ht. destruct k as [|[|[|[|[|[|k]]]]]]; [..|done]; injection Ht as <-;
    [by apply (Hk 0%nat 0)|by apply (Hk 1%nat 1)|by apply (Hk 2%nat 2)|by apply (Hk 3%nat 3)|by apply (Hk 4%nat 4)|by apply (Hl 0%nat)].
Qed.

(** What is known of the set and of the rest of the material. *)
Lemma descriptor_set_made (d nb pipeline : N) (m : Material) : sets_ok m ->
  let t := pbrMaterialTextures m in let p := materialProperties m in
  exists m' s b, createDescriptorSet d nb pipeline true m = Ret m' /\ sets_ok m'
    /\ getDescriptorSet pipeline m' = Some s
    /\ (forall k x, bindings t !! k = Some x -> images s !! (Z.of_nat k, 0%nat) = Some (Some (default d x)))
    /\ materialPropertiesBuffer m' = Some b /\ uniforms s !! 6 = Some (Some (handle b, 0, sizeof_MaterialProperties))
    /\ uploaded b = Some (materialProperties m')
    /\ materialProperties m' = mkProperties (albedoColor p) (roughnessColor p) (metallicColor p) (emissiveColor p)
         (flag (albedo t) (usingAlbedoMap p)) (flag (metallic t) (usingMetallicMap p)) (flag (roughness t) (usingRoughnessMap p))
         (flag (normal t) (usingNormalMap p)) (flag (emissive t) (flag (ao t) (usingAOMap p))) (usingEmissiveMap p) (workflow p) (padding p)
    /\ (forall q, q <> pipeline -> getDescriptorSet q m' = getDescriptorSet q m)
    /\ pbrMaterialTextures m' = t /\ texturesUpdated m' = texturesUpdated m.
Proof.
  intros Hok t p. unfold createDescriptorSet. fold t p. rewrite !getImageInfo_spec. cbv iota beta.
  set (b := match materialPropertiesBuffer m with Some b => b | None => mkUniform nb None end).
  assert (deref (match materialPropertiesBuffer m with Some b => Some b | None => Some (mkUniform nb None) end) = Ret b) as ->
    by (unfold b; by destruct (materialPropertiesBuffer m)).
  rewrite bind_Ret.
  destruct (six_update (default DescriptorSet.make (descriptorSets m !! pipeline)) (default d (albedo t)) (default d (metallic t))
    (default d (roughness t)) (default d (normal t)) (default d (ao t)) (default d (emissive t))
    (mkBufferInfo (handle b) 0 sizeof_MaterialProperties 6 UNIFORM_BUFFER) (set_ok m pipeline Hok)) as (s & -> & Hs & Hi & Hu).
  rewrite bind_Ret. eexists _, s, _. split; [reflexivity|]. split_and!.
  - intros q s'. cbn. destruct (decide (q = pipeline)) as [->|Hne]; [rewrite lookup_insert_eq; by intros [= <-]|].
    rewrite lookup_insert_ne by done. apply Hok.
  - apply lookup_insert_eq.
  - intros k x Hk. apply Hi. do 6 (destruct k as [|k]; [by injection Hk as <-|]). done.
  - reflexivity.
  - exact Hu.
  - reflexivity.
  - reflexivity.
  - intros q Hq. by apply lookup_insert_ne.
  - reflexivity.
  - reflexivity.
Qed.

(** The descriptor set of a material for a pipeline, in the PBR workflow:
    creating it succeeds for any material whose sets are well formed, binds to
    the six bindings the material's textures, with the default texture for
    those that are missing, binds the properties buffer to the seventh and
    uploads the properties; the flag of a texture is kept when the texture is
    there and zeroed when it is not, except that a missing emissive texture
    zeroes the flag of the ambient occlusion map and keeps its own. *)
Theorem createDescriptorSet_spec (d nb pipeline : N) (m : Material) : sets_ok m ->
  let t := pbrMaterialTextures m in let p := materialProperties m in
  exists m' s b, createDescriptorSet d nb pipeline true m = Ret m' /\ sets_ok m'
    /\ getDescriptorSet pipeline m' = Some s
    /\ (forall k x, bindings t !! k = Some x -> images s !! (Z.of_nat k, 0%nat) = Some (Some (default d x)))
    /\ materialPropertiesBuffer m' = Some b /\ uniforms s !! 6 = Some (Some (handle b, 0, sizeof_MaterialProperties))
    /\ uploaded b = Some (materialProperties m')
    /\ materialProperties m' = mkProperties (albedoColor p) (roughnessColor p) (metallicColor p) (emissiveColor p)
         (flag (albedo t) (usingAlbedoMap p)) (flag (metallic t) (usingMetallicMap p)) (flag (roughness t) (usingRoughnessMap p))
         (flag (normal t) (usingNormalMap p)) (flag (emissive t) (flag (ao t) (usingAOMap p))) (usingEmissiveMap p) (workflow p) (padding p)
    /\ (forall q, q <> pipeline -> getDescriptorSet q m' = getDescriptorSet q m).
Proof.
  intros Hok t p. destruct (descriptor_set_made d nb pipeline m Hok) as (m' & s & b & E & H1 & H2 & H3 & H4 & H5 & H6 & H7 & H8 & _).
  exists m', s, b. by split_and!.
Qed.

(** A material with an albedo and an emissive texture. *)
Definition demo_material : Material := setTextures (mkTextures (Some 7%N) None None None (Some 9%N) None) material0.

Lemma createDescriptorSet_spec_witness : exists m' s,
  createDescriptorSet 1 2 3 true demo_material = Ret m' /\ getDescriptorSet 3 m' = Some s
  /\ images s !! (0, 0%nat) = Some (Some 7%N) /\ images s !! (4, 0%nat) = Some (Some 9%N)
  /\ usingAOMap (materialProperties m') = F32.zero.
Proof.
  destruct (createDescriptorSet_spec 1 2 3 demo_material) as (m' & s & b & E & _ & Hs & Hi & _ & _ & _ & Hp & _);
    [by intros q s; cbn; rewrite lookup_empty|].
  exists m', s. split; [exact E|]. split; [exact Hs|]. split; [by apply (Hi 0%nat (Some 7%N))|].
  split; [by apply (Hi 4%nat (Some 9%N))|]. by rewrite Hp.
Defined.

Section Roundtrip.
Context {W : Type} (newTexture : cstring -> cstring -> W -> outcome (W * N)) (newShader : cstring -> W -> outcome (W * N)).
Context (getFilePath shaderPath : N -> cstring).
Implicit Types (s : World (W := W)) (m : Material).

(** A texture or shader that is cached under its path. *)
Definition cached (path : N -> cstring) (c : gmap cstring (option N)) (t : option N) : Prop :=
  match t with Some t => path t <> [] /\ c !! path t = Some (Some t) | None => True end.

Lemma create_cached (construct : cstring -> W -> outcome (W * N)) id t (w : W) c : c !! id = Some (Some t) ->
  Resources.create construct id (w, c) = Ret (w, c, Some t).
Proof. intros E. unfold Resources.create, Resources.tryGet. by rewrite E. Qed.

Lemma load_slot_ok put n t m s : cached getFilePath (textureCache s) t -> put None (pbrMaterialTextures m) = pbrMaterialTextures m ->
  load_slot newTexture put n (path_of getFilePath t) m s = Ret (s, with_textures (put t (pbrMaterialTextures m)) m).
Proof.
  intros Hc Hp. unfold load_slot. destruct t as [t|]; cbn [path_of].
  - destruct Hc as [Hne Hc]. destruct (getFilePath t) as [|a p] eqn:E; [done|].
    unfold createTexture. rewrite (create_cached _ _ t) by done. cbn. by destruct s.
  - rewrite Hp. by destruct m.
Qed.

Lemma setShader_ok (sh : N) m s : cached shaderPath (shaderCache s) (Some sh) ->
  setShader newShader (shaderPath sh) m s = Ret (s, with_shader (Some sh) m).
Proof. intros [_ Hc]. unfold setShader, createShader. rewrite (create_cached _ _ sh) by done. cbn. by destruct s. Qed.

Lemma save_values m pad : load_values pad (save getFilePath shaderPath m) =
  let t := pbrMaterialTextures m in let p := materialProperties m in
  Ret (path_of getFilePath (albedo t), path_of getFilePath (normal t), path_of getFilePath (roughness t), path_of getFilePath (metallic t),
       path_of getFilePath (emissive t), path_of getFilePath (ao t),
       mkProperties (albedoColor p) (roughnessColor p) (metallicColor p) (emissiveColor p) (usingAlbedoMap p) (usingMetallicMap p)
         (usingRoughnessMap p) (usingNormalMap p) (usingAOMap p) (usingEmissiveMap p) (workflow p) pad,
       getShaderPath shaderPath m).
Proof. reflexivity. Qed.

(** What a saved material keeps. *)
Definition restored m : Material :=
  let p := materialProperties m in
  mkMaterial (bits DEFERREDRENDER) (pbrMaterialTextures m)
    (mkProperties (albedoColor p) (roughnessColor p) (metallicColor p) (emissiveColor p) (usingAlbedoMap p) (usingMetallicMap p)
       (usingRoughnessMap p) (usingNormalMap p) (usingAOMap p) (usingEmissiveMap p) (workflow p) F32.zero)
    (shader m) None [] false ∅.
End Roundtrip.

(** C40. Saving and loading.  Loading what was saved into a new material gives back
    the six textures, the shader and all the properties, provided the textures
    and the shader are cached under their paths; nothing is constructed.  The
    name, the render flags and the descriptor sets are not saved. *)
Theorem save_load_roundtrip {W} (newTexture : cstring -> cstring -> W -> outcome (W * N)) (newShader : cstring -> W -> outcome (W * N))
    (getFilePath shaderPath : N -> cstring) (m : Material) (s : World) :
  Forall (cached getFilePath (textureCache s)) (bindings (pbrMaterialTextures m)) -> cached shaderPath (shaderCache s) (shader m) ->
  load newTexture newShader (save getFilePath shaderPath m) material0 s = Ret (s, restored m).
Proof.
  intros Ht Hs. unfold bindings in Ht. rewrite !Forall_cons in Ht. destruct Ht as (H0 & H1 & H2 & H3 & H4 & H5 & _).
  unfold load. rewrite save_values, bind_Ret.
  set (m1 := with_properties _ _ _).
  assert (match getShaderPath shaderPath m with [] => Ret (s, m1) | _ :: _ => setShader newShader (getShaderPath shaderPath m) m1 s end
          = Ret (s, with_shader (shader m) m1)) as ->.
  { unfold getShaderPath. destruct (shader m) as [sh|] eqn:E; [|done].
    destruct (shaderPath sh) as [|x l] eqn:Ep; [by destruct Hs|]. rewrite <- Ep. by apply setShader_ok. }
  rewrite bind_Ret.
  rewrite load_slot_ok, bind_Ret by done. rewrite load_slot_ok, bind_Ret by done. rewrite load_slot_ok, bind_Ret by done.
  rewrite load_slot_ok, bind_Ret by done. rewrite load_slot_ok, bind_Ret by done. rewrite load_slot_ok by done.
  do 2 f_equal. unfold restored, m1. cbn. by destruct (pbrMaterialTextures m).
Qed.

(** The demo material with its textures cached under "t7" and "t9". *)
Definition demo_paths (t : N) : cstring := if bool_decide (t = 7%N) then str "t7" else str "t9".
Definition no_texture (n f : cstring) (w : unit) : outcome (unit * N) := Exn RuntimeError.
Definition demo_world : World (W := unit) :=
  mkWorld tt (<[str "t7" := Some 7%N]> (<[str "t9" := Some 9%N]> ∅)) ∅.

Lemma save_load_roundtrip_witness :
  load no_texture (no_texture []) (save demo_paths demo_paths demo_material) material0 demo_world = Ret (demo_world, restored demo_material)
  /\ albedo (pbrMaterialTextures (restored demo_material)) = Some 7%N.
Proof.
  split; [|done]. apply (save_load_roundtrip no_texture (no_texture []) demo_paths demo_paths demo_material demo_world); [|done].
  repeat constructor; try done.
Defined.
End MaterialProps.
