(* ===== verification/MeshLoader.v ===== *)
(** * MeshLoader: meshes from OBJ files

    Models [FileSystem/MeshLoader.*] and [Vertex::operator==] of Engine/Vertex.cpp.
    The parser (tinyobjloader, vendored) is a parameter that returns the
    attributes, shapes and materials of a file.  The loader merges equal corners
    into vertices, generates what the file lacks and loads the textures of the
    materials. *)

From S2P Require Import Prelude Strings Float32 Geometry Mesh Resources Material.
From stdpp Require Import base decidable list gmap strings.
From Stdlib Require Import ZArith Lia Ascii.
Local Open Scope Z_scope.
Import Glm Vertex.

Module MeshLoader.
Import Material Vertex.

(** ** What the parser returns *)
Record index_t := mkIndex { vertex_index : Z; normal_index : Z; texcoord_index : Z }.
Record shape_t := mkShape { shape_name : cstring; mesh_indices : list index_t; material_ids : list Z }.
Record attrib_t := mkAttrib { a_vertices : list f32; a_normals : list f32; a_texcoords : list f32 }.
Record material_t := mkMaterialT {
  diffuse_texname : cstring; bump_texname : cstring; roughness_texname : cstring; metallic_texname : cstring;
  specular_highlight_texname : cstring
}.

(** ** Corners *)

(** glm's [==] and [Vertex::operator==]. *)
Definition eqb2 (a b : vec2) : bool := F32.eqb (v2x a) (v2x b) && F32.eqb (v2y a) (v2y b).
Definition eqb4 (a b : vec4) : bool :=
  F32.eqb (v4x a) (v4x b) && F32.eqb (v4y a) (v4y b) && F32.eqb (v4z a) (v4z b) && F32.eqb (v4w a) (v4w b).
Definition vertex_eqb (a b : Vertex) : bool :=
  eqb3 (pos a) (pos b) && eqb4 (color a) (color b) && eqb2 (texCoord a) (texCoord b) && eqb3 (normal a) (normal b)
  && eqb3 (tangent a) (tangent b).

Definition read3 (l : list f32) (i : Z) : outcome vec3 :=
  x ← at_Z l (i32 (3 * i + 0)); y ← at_Z l (i32 (3 * i + 1)); z ← at_Z l (i32 (3 * i + 2)); Ret (mkVec3 x y z).

Definition corner_vertex (attrib : attrib_t) (index : index_t) : outcome Vertex :=
  p ← read3 (a_vertices attrib) (vertex_index index);
  n ← if 0 <=? normal_index index then read3 (a_normals attrib) (normal_index index) else Ret zero3;
  t ← if 0 <=? texcoord_index index then
        u ← at_Z (a_texcoords attrib) (i32 (2 * texcoord_index index + 0));
        v ← at_Z (a_texcoords attrib) (i32 (2 * texcoord_index index + 1));
        Ret (mkVec2 u (F32.sub F32.one v))
      else Ret zero2;
  Ret (mkVertex p (splat4 F32.one) t n zero3).

(** ** Merging equal corners

    [uniqueVertices] is a hash map whose keys are compared by [operator==]: the
    entries in order of insertion. *)
Definition Unique : Type := list (Vertex * Z).

Definition unique_find (v : Vertex) (m : Unique) : option Z := (fun x => snd (snd x)) <$> list_find (fun e => vertex_eqb (fst e) v = true) m.

(** [uniqueVertices[vertex]] inserts 0 for a missing key. *)
Definition unique_at (v : Vertex) (m : Unique) : Unique * Z :=
  match unique_find v m with Some i => (m, i) | None => (m ++ [(v, 0)], 0) end.

(** [uniqueVertices[vertex] = n], when the key is missing. *)
Definition unique_insert (v : Vertex) (n : Z) (m : Unique) : Unique := m ++ [(v, n)].

Record Merge := mkMerge { vertices : list Vertex; indices : list Z; uniqueVertices : Unique }.
Definition merge0 : Merge := mkMerge [] [] [].

Definition add_corner (v : Vertex) (s : Merge) : Merge :=
  let s := match unique_find v (uniqueVertices s) with
           | Some _ => s
           | None => let n := u32 (Z.of_nat (length (vertices s))) in
                     mkMerge (vertices s ++ [v]) (indices s) (unique_insert v n (uniqueVertices s))
           end in
  let '(m, i) := unique_at v (uniqueVertices s) in
  mkMerge (vertices s) (indices s ++ [i]) m.

Definition merge_corners (vs : list Vertex) : Merge := fold_left (fun s v => add_corner v s) vs merge0.

(** ** Materials *)
Section Textures.
Context {W : Type} (newTexture : cstring -> cstring -> W -> outcome (W * N)) (getFilePath : N -> cstring).

(** Up to the first zero, as strcmp sees it. *)
Definition c_str (s : cstring) : cstring := match list_find (fun a => a = Ascii.zero) s with Some (i, _) => take i s | None => s end.

(** The textures loaded so far, over all files. *)
Definition Loaded : Type := list (option N).

Fixpoint find_loaded (path : cstring) (loaded : Loaded) : outcome (option N) :=
  match loaded with
  | [] => Ret None
  | t :: loaded => t ← deref t; if bool_decide (c_str (getFilePath t) = c_str path) then Ret (Some t) else find_loaded path loaded
  end.

Definition loadMaterialTextures (typeName name directory : cstring) (s : World (W := W) * Loaded) : outcome (World * Loaded * option N) :=
  let '(w, loaded) := s in
  let path := directory ++ str "/" ++ name in
  f ← find_loaded path loaded;
  match f with
  | Some t => Ret (w, loaded, Some t)
  | None => '(w, t) ← createTexture newTexture typeName path w; Ret (w, loaded ++ [t], t)
  end.

(** One of the five texture names of a material. *)
Definition load_texname (typeName name directory : cstring) (put : option N -> PBRMataterialTextures -> PBRMataterialTextures)
    (s : World * Loaded * PBRMataterialTextures) : outcome (World * Loaded * PBRMataterialTextures) :=
  let '(w, loaded, ts) := s in
  match name with
  | [] => Ret s
  | _ => '(w, loaded, t) ← loadMaterialTextures typeName name directory (w, loaded);
         Ret (w, loaded, match t with Some _ => put t ts | None => ts end)
  end.

Definition load_material (materials : list material_t) (ids : list Z) (directory : cstring) (s : World * Loaded)
    : outcome (World * Loaded * PBRMataterialTextures) :=
  id ← vec_at ids 0;
  if 0 <=? id then
    mp ← at_Z materials id;
    r ← load_texname (str "Albedo") (diffuse_texname mp) directory put_albedo (s, textures0);
    r ← load_texname (str "Normal") (bump_texname mp) directory put_normal r;
    r ← load_texname (str "Roughness") (roughness_texname mp) directory put_roughness r;
    r ← load_texname (str "Metallic") (metallic_texname mp) directory put_metallic r;
    load_texname (str "Metallic") (specular_highlight_texname mp) directory put_metallic r
  else Ret (s, textures0).
End Textures.

(** ** Meshes *)

(** The mesh made from the two buffers; this constructor leaves the box null. *)
Record LoadedMesh := mkLoadedMesh {
  lm_name : cstring; lm_vertices : list Vertex; lm_indices : list Z;
  lm_boundingBox : option BoundingBox.BoundingBox; lm_material : Material
}.

Definition mesh_of_buffers (vs : list Vertex) (idxs : list Z) (mat : Material) (n : cstring) : LoadedMesh := mkLoadedMesh n vs idxs None mat.

Fixpoint corners (attrib : attrib_t) (idxs : list index_t) : outcome (list Vertex) :=
  match idxs with
  | [] => Ret []
  | i :: idxs => v ← corner_vertex attrib i; vs ← corners attrib idxs; Ret (v :: vs)
  end.

Section Load.
Context {W : Type} (newTexture : cstring -> cstring -> W -> outcome (W * N)) (getFilePath : N -> cstring).
Context (LoadObj : cstring -> cstring -> option (attrib_t * list shape_t * list material_t)).

Definition load_shape (attrib : attrib_t) (materials : list material_t) (directory : cstring) (shape : shape_t) (s : World (W := W) * Loaded)
    : outcome (World * Loaded * LoadedMesh) :=
  vs ← corners attrib (mesh_indices shape);
  let m := merge_corners vs in
  vs ← match a_normals attrib with [] => Mesh.generateNormals (vertices m) (indices m) | _ => Ret (vertices m) end;
  vs ← Mesh.generateTangents vs (indices m);
  '(w, loaded, ts) ← load_material newTexture getFilePath materials (material_ids shape) directory s;
  Ret (w, loaded, mesh_of_buffers vs (indices m) (setTextures ts material0) (shape_name shape)).

(** The loop over the shapes; [emplace] keeps the first mesh of a name. *)
Fixpoint load_shapes (attrib : attrib_t) (materials : list material_t) (directory : cstring) (shapes : list shape_t)
    (s : World (W := W) * Loaded) (meshes : gmap cstring LoadedMesh) : outcome (World * Loaded * gmap cstring LoadedMesh) :=
  match shapes with
  | [] => Ret (s, meshes)
  | shape :: shapes =>
    '(w, loaded, m) ← load_shape attrib materials directory shape s;
    load_shapes attrib materials directory shapes (w, loaded)
      (match meshes !! shape_name shape with Some _ => meshes | None => <[shape_name shape := m]> meshes end)
  end.

Definition load (win32 : bool) (obj : cstring) (meshes : gmap cstring LoadedMesh) (s : World (W := W) * Loaded)
    : outcome (World * Loaded * gmap cstring LoadedMesh) :=
  let directory := match BasicString.find_last_of (StringUtils.delimiter win32) obj with Some i => take i obj | None => obj end in
  match LoadObj obj directory with
  | None => Exn RuntimeError
  | Some (attrib, shapes, materials) => load_shapes attrib materials directory shapes s meshes
  end.
End Load.
End MeshLoader.

(** ** Properties *)
Module MeshLoaderProps.
Import Material Vertex MeshLoader MeshProps.

(** *** Equality of vertices *)
Definition floats (v : Vertex) : list f32 :=
  [v3x (pos v); v3y (pos v); v3z (pos v); v4x (color v); v4y (color v); v4z (color v); v4w (color v);
   v2x (texCoord v); v2y (texCoord v); v3x (normal v); v3y (normal v); v3z (normal v);
   v3x (tangent v); v3y (tangent v); v3z (tangent v)].

(** No component is NaN. *)
Definition numeric (v : Vertex) : Prop := Forall (fun x => is_nan x = false) (floats v).

Lemma vertex_eqb_floats a b : vertex_eqb a b = true <-> Forall2 (fun x y => F32.eqb x y = true) (floats a) (floats b).
Proof.
  unfold vertex_eqb, eqb3, eqb4, eqb2, floats. rewrite !andb_true_iff, !Forall2_cons, Forall2_nil. tauto.
Qed.

Lemma vertex_eqb_refl v : numeric v -> vertex_eqb v v = true.
Proof.
  unfold numeric. rewrite vertex_eqb_floats. generalize (floats v) as l. induction 1; [constructor|]. constructor; [by apply Float32.eqb_refl|done].
Qed.

Lemma vertex_eqb_sym a b : vertex_eqb a b = true -> vertex_eqb b a = true.
Proof. rewrite !vertex_eqb_floats. intros H. apply Forall2_flip. eapply Forall2_impl; [exact H|]. intros x y. apply Float32.eqb_sym. Qed.

Lemma vertex_eqb_trans a b c : vertex_eqb a b = true -> vertex_eqb b c = true -> vertex_eqb a c = true.
Proof.
  rewrite !vertex_eqb_floats. generalize (floats a) (floats b) (floats c). intros l1 l2 l3 H. revert l3.
  induction H; intros l3 H3; inversion H3; subst; constructor; eauto using Float32.eqb_trans.
Qed.

Lemma vertex_eqb_numeric a b : vertex_eqb a b = true -> numeric a /\ numeric b.
Proof.
  rewrite vertex_eqb_floats. unfold numeric. generalize (floats a) (floats b). intros l1 l2 H.
  induction H as [|x y l1 l2 Hxy H [IH1 IH2]]; [done|]. destruct (eqb_not_nan x y Hxy). split; by constructor.
Qed.

(** *** The hash map *)
Lemma unique_find_Some v m i : unique_find v m = Some i -> exists k u, m !! k = Some (u, i) /\ vertex_eqb u v = true.
Proof.
  unfold unique_find. intros H. apply fmap_Some in H as ([k [u j]] & Hf & ->). apply list_find_Some in Hf as (Hk & He & _). eauto.
Qed.

Lemma unique_find_None v m : unique_find v m = None <-> Forall (fun e => vertex_eqb (fst e) v = false) m.
Proof.
  unfold unique_find. rewrite fmap_None, list_find_None, !Forall_forall. split; intros H e He; specialize (H e He);
    [by apply not_true_is_false|by rewrite H].
Qed.

Lemma unique_find_app v m e : unique_find v (m ++ [e]) =
  match unique_find v m with Some i => Some i | None => if vertex_eqb (fst e) v then Some (snd e) else None end.
Proof.
  unfold unique_find. destruct (list_find _ m) as [[k x]|] eqn:E; cbn.
  - by rewrite (list_find_app_l _ _ _ _ _ E).
  - rewrite list_find_app_r by done. cbn. unfold decide. destruct (decide_rel _ _) as [H|H]; cbn.
    + by rewrite H.
    + by apply not_true_is_false in H as ->.
Qed.

(** *** The invariant of the merging loop *)
Record MergeInv (vs : list Vertex) (s : Merge) : Prop := mkMergeInv {
  mi_find : forall v i, unique_find v (uniqueVertices s) = Some i -> exists u, at_Z (vertices s) i = Ret u /\ vertex_eqb u v = true;
  mi_all : forall u, u ∈ vertices s -> numeric u -> unique_find u (uniqueVertices s) <> None;
  mi_distinct : ForallOrdPairs (fun u v => vertex_eqb u v = false) (vertices s);
  mi_sub : sublist (vertices s) vs;
  mi_indices : Forall2 (fun v i => if decide (numeric v) then exists u, at_Z (vertices s) i = Ret u /\ vertex_eqb u v = true else i = 0) vs (indices s);
  mi_nonempty : vs <> [] -> vertices s <> []
}.

Definition merged (vs : list Vertex) (v : Vertex) (i : Z) : Prop :=
  if decide (numeric v) then exists u, at_Z vs i = Ret u /\ vertex_eqb u v = true else i = 0.

Lemma merged_app vs v i w : merged vs v i -> merged (vs ++ [w]) v i.
Proof. unfold merged. case_decide; [|done]. intros (u & Hu & He). exists u. split; [by apply at_Z_app|done]. Qed.

(** A corner that is already there. *)
Lemma add_corner_old vs s v i : MergeInv vs s -> unique_find v (uniqueVertices s) = Some i ->
  MergeInv (vs ++ [v]) (add_corner v s).
Proof.
  intros [Hf Ha Hd Hs Hi Hn] E. unfold add_corner, unique_at. rewrite E, E. destruct (Hf v i E) as (u & Hu & He). split; cbn; try done.
  - by apply sublist_inserts_r.
  - apply Forall2_app; [done|]. constructor; [|constructor]. destruct (vertex_eqb_numeric u v He) as [_ Hv].
    rewrite decide_True by done. eauto.
  - intros _ Hnil. rewrite Hnil in Hu. unfold at_Z, vec_at in Hu. by destruct (0 <=? i).
Qed.

(** A new corner. *)
Lemma add_corner_new vs s v : MergeInv vs s -> Z.of_nat (length vs) < 2 ^ 32 -> unique_find v (uniqueVertices s) = None ->
  MergeInv (vs ++ [v]) (add_corner v s).
Proof.
  intros [Hf Ha Hd Hs Hi Hn] Hlen E. unfold add_corner. rewrite E. cbn [uniqueVertices vertices indices].
  pose proof (sublist_length _ _ Hs) as Hl. unwrap. set (n := Z.of_nat (length (vertices s))).
  assert (forall w i, unique_find w (unique_insert v n (uniqueVertices s)) = Some i ->
    exists u, at_Z (vertices s ++ [v]) i = Ret u /\ vertex_eqb u w = true) as Hf'.
  { intros w i. unfold unique_insert. rewrite unique_find_app. destruct (unique_find w (uniqueVertices s)) as [j|] eqn:Ew.
    - intros [= <-]. destruct (Hf w j Ew) as (u & Hu & He). exists u. split; [by apply at_Z_app|done].
    - cbn. destruct (vertex_eqb v w) eqn:Evw; [|done]. intros [= <-]. exists v. split; [apply at_Z_end|done]. }
  assert (forall u, u ∈ vertices s ++ [v] -> numeric u -> unique_find u (unique_insert v n (uniqueVertices s)) <> None) as Ha'.
  { intros u Hu Hnum. unfold unique_insert. rewrite unique_find_app. apply elem_of_app in Hu as [Hu|Hu%list_elem_of_singleton].
    - specialize (Ha u Hu Hnum). by destruct (unique_find u (uniqueVertices s)).
    - subst u. rewrite E. cbn. by rewrite vertex_eqb_refl. }
  assert (ForallOrdPairs (fun u v => vertex_eqb u v = false) (vertices s ++ [v])) as Hd'.
  { apply FOP_app. split; [done|]. split; [repeat constructor|]. intros u w Hu ->%list_elem_of_singleton.
    apply not_true_is_false. intros He. destruct (vertex_eqb_numeric u v He) as [Hnu _].
    specialize (Ha u Hu Hnu). destruct (unique_find u (uniqueVertices s)) as [j|] eqn:Eu; [|done].
    apply unique_find_Some in Eu as (k & x & Hk & Hx). apply unique_find_None in E. rewrite Forall_forall in E.
    specialize (E (x, j) (list_elem_of_lookup_2 _ _ _ Hk)). cbn in E.
    by rewrite (vertex_eqb_trans x u v) in E. }
  assert (sublist (vertices s ++ [v]) (vs ++ [v])) as Hs' by (by apply sublist_app).
  assert (Forall2 (merged (vertices s ++ [v])) vs (indices s)) as Hi'.
  { eapply Forall2_impl; [exact Hi|]. intros x y Hxy. by apply merged_app. }
  assert (vertices s ++ [v] <> []) as Hne by (by destruct (vertices s)).
  unfold unique_at. destruct (unique_find v (unique_insert v n (uniqueVertices s))) as [j|] eqn:Ej.
  - split; cbn; try done. apply Forall2_app; [done|]. constructor; [|constructor].
    destruct (Hf' v j Ej) as (u & Hu & He). destruct (vertex_eqb_numeric u v He). rewrite decide_True by done. eauto.
  - assert (~ numeric v) as Hnum by (intros Hv; by apply (Ha' v); [set_solver|..]).
    assert (forall w, unique_find w (unique_insert v n (uniqueVertices s) ++ [(v, 0)]) = unique_find w (unique_insert v n (uniqueVertices s))) as Hsame.
    { intros w. rewrite unique_find_app. cbn. destruct (unique_find w _); [done|].
      destruct (vertex_eqb v w) eqn:Evw; [|done]. by destruct (vertex_eqb_numeric v w Evw). }
    split; cbn; try done; [by setoid_rewrite Hsame|by setoid_rewrite Hsame|].
    apply Forall2_app; [done|]. constructor; [|constructor]. by rewrite decide_False.
Qed.

Lemma merge_corners_inv vs : Z.of_nat (length vs) < 2 ^ 32 -> MergeInv vs (merge_corners vs).
Proof.
  intros Hlen. assert (forall us s, MergeInv us s -> Z.of_nat (length (us ++ vs)) < 2 ^ 32 ->
    MergeInv (us ++ vs) (fold_left (fun s v => add_corner v s) vs s)) as Hgen.
  { clear Hlen. induction vs as [|v vs IH]; intros us s Hs Hlen; cbn; [by rewrite app_nil_r|].
    rewrite app_cons_middle in *. rewrite length_app in Hlen. apply IH; [|by rewrite length_app].
    rewrite length_app in Hlen. cbn in Hlen.
    destruct (unique_find v (uniqueVertices s)) as [i|] eqn:E; [by eapply add_corner_old|by apply add_corner_new; [|lia|]]. }
  apply (Hgen [] merge0); [|done]. split; cbn; [done|intros u; by rewrite elem_of_nil|constructor|constructor|constructor|done].
Qed.

(** *** Normals and tangents succeed on whole triangles over existing vertices *)
Section Generate.
Import Mesh.

Definition usable (n : nat) (index : Z -> Z) (i : Z) : Prop := index i = i /\ 0 <= i < Z.of_nat n.

Lemma accumulate_total index face vs q : forall idxs acc, length idxs = (3 * q)%nat ->
  Forall (usable (length vs) index) idxs -> length acc = length vs ->
  exists acc', accumulate index face vs idxs acc = Ret acc' /\ length acc' = length vs.
Proof.
  induction q as [|q IH]; intros idxs acc Hq Hu Hl.
  - destruct idxs; [|done]. by exists acc.
  - destruct idxs as [|a [|b [|c idxs]]]; cbn in Hq; try lia.
    rewrite !Forall_cons in Hu. destruct Hu as ([Ea Ha] & [Eb Hb] & [Ec Hc] & Hu). cbn. rewrite Ea, Eb, Ec.
    destruct (at_Z_lookup vs a Ha) as (va & -> & _), (at_Z_lookup vs b Hb) as (vb & -> & _), (at_Z_lookup vs c Hc) as (vc & -> & _).
    rewrite !bind_Ret.
    destruct (add_at_spec a (face va vb vc) acc) as (acc1 & -> & N1 & _); [lia|]. rewrite bind_Ret.
    destruct (add_at_spec b (face va vb vc) acc1) as (acc2 & -> & N2 & _); [lia|]. rewrite bind_Ret.
    destruct (add_at_spec c (face va vb vc) acc2) as (acc3 & -> & N3 & _); [lia|]. rewrite bind_Ret.
    apply IH; [lia|done|lia].
Qed.

Lemma zip_with_with (f : vec3 -> Vertex -> Vertex) vs ns : length ns = length vs ->
  Forall2 (fun v v' => exists n, v' = f n v) vs (zip_with (fun v n => f (normalize3 n) v) vs ns).
Proof. revert ns. induction vs as [|v vs IH]; intros [|n ns] Hl; cbn in *; try done; constructor; [eauto|]. apply IH. lia. Qed.

(** The indices name vertices and come in threes; no indices only without vertices. *)
Definition triangles_ok (n : nat) (idxs : list Z) : Prop :=
  (exists q, length idxs = (3 * q)%nat) /\ Forall (fun i => 0 <= i < Z.of_nat n) idxs /\ Z.of_nat n < 2 ^ 31 /\ (idxs = [] -> n = 0%nat).

Lemma generateNormals_total vs idxs : triangles_ok (length vs) idxs ->
  exists vs', generateNormals vs idxs = Ret vs' /\ Forall2 (fun v v' => exists n, v' = with_normal n v) vs vs'.
Proof.
  intros ((q & Hq) & Hr & Hn & He). unfold generateNormals. case_bool_decide as Hne.
  - destruct (accumulate_total id face_normal vs q idxs (replicate (length vs) zero3)) as (acc & -> & Hl); [done| |apply length_replicate|].
    { eapply Forall_impl; [exact Hr|]. intros i Hi. by split. }
    rewrite bind_Ret. eexists. split; [done|]. by apply zip_with_with.
  - assert (vs = []) as ->; [|eexists; split; [done|constructor]].
    apply nil_length_inv, He. by destruct idxs.
Qed.

Lemma generateTangents_total vs idxs : triangles_ok (length vs) idxs ->
  exists vs', generateTangents vs idxs = Ret vs' /\ Forall2 (fun v v' => exists n, v' = with_tangent n v) vs vs'.
Proof.
  intros ((q & Hq) & Hr & Hn & He). unfold generateTangents. case_bool_decide as Hne.
  - destruct (accumulate_total i32 face_tangent vs q idxs (replicate (length vs) zero3)) as (acc & -> & Hl); [done| |apply length_replicate|].
    { eapply Forall_impl; [exact Hr|]. intros i Hi. cbn in Hi. split; [apply i32_small; lia|done]. }
    rewrite bind_Ret. eexists. split; [done|]. by apply zip_with_with.
  - assert (vs = []) as ->; [|eexists; split; [done|constructor]].
    apply nil_length_inv, He. by destruct idxs.
Qed.
End Generate.

(** What a vertex keeps when normals and tangents are set. *)
Definition same_surface (with_normals : bool) (u u' : Vertex) : Prop :=
  pos u' = pos u /\ color u' = color u /\ texCoord u' = texCoord u /\ (with_normals = true -> normal u' = normal u).

Lemma merge_triangles_ok vs : (exists q, length vs = (3 * q)%nat) -> Z.of_nat (length vs) < 2 ^ 31 ->
  triangles_ok (length (vertices (merge_corners vs))) (indices (merge_corners vs)).
Proof.
  intros Hq Hn. destruct (merge_corners_inv vs) as [_ _ _ Hs Hi Hne]; [lia|].
  pose proof (sublist_length _ _ Hs) as Hl. pose proof (Forall2_length _ _ _ Hi) as Hli. split_and!.
  - rewrite <- Hli. done.
  - apply Forall_forall. intros i Hin. apply list_elem_of_lookup in Hin as [k Hk].
    destruct (Forall2_lookup_r _ _ _ _ _ Hi Hk) as (v & Hv & Hm). case_decide.
    + destruct Hm as (u & Hu & _). by apply at_Z_Ret in Hu as [? _].
    + subst i. assert (vertices (merge_corners vs) <> []) as H0 by (apply Hne; by intros ->).
      destruct (vertices (merge_corners vs)); [done|cbn; lia].
  - lia.
  - intros E. rewrite E in Hli. destruct vs; [|done]. done.
Qed.

Lemma Forall2_compose {A B C} (P : A -> B -> Prop) (Q : B -> C -> Prop) (R : A -> C -> Prop) l1 l2 l3 :
  (forall x y z, P x y -> Q y z -> R x z) -> Forall2 P l1 l2 -> Forall2 Q l2 l3 -> Forall2 R l1 l3.
Proof. intros H F. revert l3. induction F; intros l3 G; inversion G; subst; constructor; eauto. Qed.

(** C18. Loading a shape.  When the corners of the shape can be read, come in threes
    and are fewer than 2^31, and its textures load, the loader returns a mesh
    with one index per corner, in order; the vertices are the distinct corners,
    in order of first occurrence; every corner without NaN is at its index:
    equal position, colour and texture coordinates, and equal normal when the
    file has normals; a corner with a NaN component is given index 0.  The mesh
    has the shape's name and textures, and no bounding box. *)
Theorem load_shape_spec {W} (newTexture : cstring -> cstring -> W -> outcome (W * N)) (getFilePath : N -> cstring)
    attrib materials directory shape (s s' : World (W := W) * Loaded) ts (cs : list Vertex) :
  corners attrib (mesh_indices shape) = Ret cs -> (exists q, length cs = (3 * q)%nat) -> Z.of_nat (length cs) < 2 ^ 31 ->
  load_material newTexture getFilePath materials (material_ids shape) directory s = Ret (s', ts) ->
  exists m ms, load_shape newTexture getFilePath attrib materials directory shape s = Ret (s', m)
    /\ sublist ms cs /\ ForallOrdPairs (fun u v => vertex_eqb u v = false) ms
    /\ Forall2 (same_surface (negb (bool_decide (a_normals attrib = [])))) ms (lm_vertices m)
    /\ Forall2 (fun v i => if decide (numeric v) then exists u, at_Z ms i = Ret u /\ vertex_eqb u v = true else i = 0) cs (lm_indices m)
    /\ triangles_ok (length (lm_vertices m)) (lm_indices m)
    /\ lm_name m = shape_name shape /\ pbrMaterialTextures (lm_material m) = ts /\ lm_boundingBox m = None.
Proof.
  intros Hc Hq Hn Hm. pose proof (merge_triangles_ok cs Hq Hn) as Htri.
  destruct (merge_corners_inv cs) as [_ _ Hd Hs Hi _]; [lia|]. set (ms := merge_corners cs) in *.
  assert (exists vs1, match a_normals attrib with [] => Mesh.generateNormals (vertices ms) (indices ms) | _ :: _ => Ret (vertices ms) end = Ret vs1
    /\ Forall2 (same_surface (negb (bool_decide (a_normals attrib = [])))) (vertices ms) vs1) as (vs1 & E1 & F1).
  { destruct (a_normals attrib) as [|x l].
    - destruct (generateNormals_total _ _ Htri) as (vs1 & E & F). exists vs1. split; [done|].
      eapply Forall2_impl; [exact F|]. intros u u' (n & ->). by split_and!.
    - exists (vertices ms). split; [done|]. apply Forall_Forall2_diag, Forall_forall. intros u _. by split_and!. }
  pose proof (Forall2_length _ _ _ F1) as L1. rewrite L1 in Htri.
  destruct (generateTangents_total _ _ Htri) as (vs2 & E2 & F2). pose proof (Forall2_length _ _ _ F2) as L2.
  unfold load_shape. rewrite Hc, bind_Ret. fold ms. rewrite E1, bind_Ret, E2, bind_Ret, Hm.
  destruct s' as [w' loaded']. rewrite bind_Ret. eexists _, (vertices ms). split; [reflexivity|]. cbn. rewrite <- L2.
  split_and!; try done. eapply Forall2_compose; [|exact F1|exact F2].
  intros u u1 u2 (P & C & T & N) (n & ->). by split_and!.
Qed.
(** A triangle with a repeated corner, without normals and material. *)
Definition sample_attrib : attrib_t := mkAttrib (F32.of_Z <$> [0; 0; 0; 1; 0; 0]) [] [].
Definition sample_shape : shape_t := mkShape (str "s") [mkIndex 0 (-1) (-1); mkIndex 1 (-1) (-1); mkIndex 0 (-1) (-1)] [-1].
Definition no_texture (_ _ : cstring) (w : unit) : outcome (unit * N) := Ret (w, 0%N).

Lemma load_shape_spec_witness :
  let p i := mkVec3 (F32.of_Z i) F32.zero F32.zero in
  let v i := mkVertex (p i) (splat4 F32.one) zero2 zero3 zero3 in
  exists m ms, load_shape no_texture (fun _ => []) sample_attrib [] [] sample_shape (mkWorld tt ∅ ∅, []) = Ret (mkWorld tt ∅ ∅, [], m)
    /\ sublist ms [v 0; v 1; v 0] /\ lm_boundingBox m = None.
Proof.
  intros p v. edestruct (load_shape_spec no_texture (fun _ => []) sample_attrib [] [] sample_shape (mkWorld tt ∅ ∅, []) (mkWorld tt ∅ ∅, []) textures0 [v 0; v 1; v 0])
    as (m & ms & E & Hs & _ & _ & _ & _ & _ & _ & B).
  - vm_compute. reflexivity.
  - by exists 1%nat.
  - reflexivity.
  - reflexivity.
  - exists m, ms. exact (conj E (conj Hs B)).
Defined.
End MeshLoaderProps.
