(* ===== verification/Event.v ===== *)
(** * Event: events, handlers and the dispatcher

    Models [Event/Event.h], [Event/EventHandler.*] and [Event/EventDispatcher.*].
    Handlers and dispatchers are identified by their addresses (an [N], never
    null); a [std::set] of pointers is a [gset N] walked in address order.  What
    a callback does is a parameter: on a world of type [W] it returns its
    answer, the new world and the calls it makes back into the event system. *)

From S2P Require Import Prelude Float32.
From stdpp Require Import sorting functions.
From stdpp Require Import base decidable list sets gmap.
From Stdlib Require Import ZArith Lia.

(** ** Events *)

Module Events.
Inductive EventType : Type :=
  | NoneType | WindowClose | WindowResize | WindowFocus | WindowLostFocus | Tick | Update | Render
  | KeyPressed | KeyReleased | CharInput | MouseClicked | MouseReleased | MouseMove | MouseScrolled
  | DeferredType | RecompileScripts.

#[export] Instance EventType_eq_dec : EqDecision EventType.
Proof. solve_decision. Defined.

Inductive Event : Type :=
  | RecompileScriptsEvent (scene : option N)
  | MouseMoveEvent (position : vec2)
  | MouseClickEvent (buttonId : Z) (position : vec2)
  | MouseReleaseEvent (buttonId : Z) (position : vec2)
  | MouseScrolledEvent (xOffset yOffset : f32) (position : vec2)
  | KeyPressedEvent (keyCode repeatCount : Z)
  | KeyReleasedEvent (keyCode : Z)
  | CharInputEvent (keyCode : Z) (character : Z)
  | DeferredTypeEvent (deferredType : Z)
  | WindowResizeEvent (width height : Z).

Definition getType (e : Event) : EventType :=
  match e with
  | RecompileScriptsEvent _ => RecompileScripts
  | MouseMoveEvent _ => MouseMove
  | MouseClickEvent _ _ => MouseClicked
  | MouseReleaseEvent _ _ => MouseReleased
  | MouseScrolledEvent _ _ _ => MouseScrolled
  | KeyPressedEvent _ _ => KeyPressed
  | KeyReleasedEvent _ => KeyReleased
  | CharInputEvent _ _ => CharInput
  | DeferredTypeEvent _ => DeferredType
  | WindowResizeEvent _ _ => WindowResize
  end.

(** The [std::function] members of [EventHandler]. *)
Inductive Slot : Type :=
  | mouseMoveHandler | mouseClickHandler | mouseRelaseHandler | mouseScrollHandler
  | keyPressedHandler | keyReleasedHandler | charInputHandler | deferredTypeHandler | compileHandler.

#[export] Instance Slot_eq_dec : EqDecision Slot.
Proof. solve_decision. Defined.

(** The [switch] of [dispatchEvent]: which member serves an event type. *)
Definition slot_of (t : EventType) : option Slot :=
  match t with
  | KeyPressed => Some keyPressedHandler
  | KeyReleased => Some keyReleasedHandler
  | MouseClicked => Some mouseClickHandler
  | MouseReleased => Some mouseRelaseHandler
  | MouseMove => Some mouseMoveHandler
  | MouseScrolled => Some mouseScrollHandler
  | DeferredType => Some deferredTypeHandler
  | CharInput => Some charInputHandler
  | RecompileScripts => Some compileHandler
  | _ => None
  end.
End Events.

(** ** The dispatcher *)

Module Dispatcher.
Import Events.

Record EventHandler := mkHandler {
  priority : Z;
  slots : list Slot;                 (* the members that hold a function *)
  eventDispatcher : option N
}.

Record EventDispatcher := mkDispatcher {
  eventHandlers : list N;
  eventHandlerAddSet : gset N;
  eventHandlerDeleteSet : gset N;
  eventQueue : list (N * option Event)   (* promise and event, which may be a null unique_ptr *)
}.

(** The calls a callback can make back into the event system. *)
Inductive Call : Type :=
  | CallAdd (dispatcher handler : N)       (* EventDispatcher::addEventHandler *)
  | CallRemove (handler : N)               (* EventHandler::remove *)
  | CallPost (dispatcher : N) (event : option Event)
  | CallConstruct (handler : N) (prio : Z) (functions : list Slot).  (* a new EventHandler at this address *)

Section World.
Context {W : Type}.

(** The state of the event system.  [fulfilled] lists the promises set so far
    and [invoked] the callbacks called so far with their answers. *)
Record Sys := mkSys {
  handlers : N -> EventHandler;
  dispatchers : N -> EventDispatcher;
  nextPromise : N;
  fulfilled : list (N * bool);
  invoked : list (N * bool);
  world : W
}.

Definition set_handler (h : N) (x : EventHandler) (s : Sys) : Sys :=
  mkSys (<[h := x]> (handlers s)) (dispatchers s) (nextPromise s) (fulfilled s) (invoked s) (world s).
Definition set_dispatcher (d : N) (x : EventDispatcher) (s : Sys) : Sys :=
  mkSys (handlers s) (<[d := x]> (dispatchers s)) (nextPromise s) (fulfilled s) (invoked s) (world s).

Definition set_owner (h : N) (owner : option N) (s : Sys) : Sys :=
  let x := handlers s h in set_handler h (mkHandler (priority x) (slots x) owner) s.

(** [EventDispatcher::removeEventHandler]. *)
Definition removeEventHandler (d h : N) (s : Sys) : Sys :=
  let s1 := if decide (eventDispatcher (handlers s h) = Some d) then set_owner h None s else s in
  let x := dispatchers s1 d in
  set_dispatcher d
    (mkDispatcher (eventHandlers x) (eventHandlerAddSet x ∖ {[h]})
       ({[h]} ∪ eventHandlerDeleteSet x) (eventQueue x)) s1.

(** [EventDispatcher::addEventHandler]. *)
Definition addEventHandler (d h : N) (s : Sys) : Sys :=
  let s1 := match eventDispatcher (handlers s h) with
            | Some d' => removeEventHandler d' h s
            | None => s
            end in
  let s2 := set_owner h (Some d) s1 in
  let x := dispatchers s2 d in
  set_dispatcher d
    (mkDispatcher (eventHandlers x) ({[h]} ∪ eventHandlerAddSet x)
       (eventHandlerDeleteSet x ∖ {[h]}) (eventQueue x)) s2.

(** [EventHandler::remove]; the destructor makes the same call. *)
Definition handler_remove (h : N) (s : Sys) : Sys :=
  match eventDispatcher (handlers s h) with
  | Some d => set_owner h None (removeEventHandler d h s)
  | None => s
  end.

Definition handler_destroy (h : N) (s : Sys) : Sys :=
  match eventDispatcher (handlers s h) with
  | Some d => removeEventHandler d h s
  | None => s
  end.

(** [EventHandler::EventHandler] at an address where no handler is: the destructor has
    left no dispatcher there.  Functions may be assigned at any time. *)
Definition handler_construct (h : N) (prio : Z) (fs : list Slot) (s : Sys) : Sys :=
  match eventDispatcher (handlers s h) with
  | None => set_handler h (mkHandler prio fs None) s
  | Some _ => s
  end.
Definition set_slots (h : N) (fs : list Slot) (s : Sys) : Sys :=
  set_handler h (mkHandler (priority (handlers s h)) fs (eventDispatcher (handlers s h))) s.

(** [EventDispatcher::~EventDispatcher]: every handler still attached is told. *)
Definition dispatcher_destroy (d : N) (s : Sys) : Sys :=
  let x := dispatchers s d in
  let s1 := fold_left (fun s h => set_owner h None s) (elements (eventHandlerAddSet x)) s in
  fold_left (fun s h => if decide (h ∈ eventHandlerDeleteSet x) then s else set_owner h None s)
    (eventHandlers x) s1.

(** [EventDispatcher::postEvent]; the result names the future returned. *)
Definition postEvent (d : N) (ev : option Event) (s : Sys) : Sys * N :=
  let p := nextPromise s in
  let x := dispatchers s d in
  (mkSys (handlers s)
     (<[d := mkDispatcher (eventHandlers x) (eventHandlerAddSet x) (eventHandlerDeleteSet x)
               (eventQueue x ++ [(p, ev)])]> (dispatchers s))
     (p + 1)%N (fulfilled s) (invoked s) (world s), p).

Definition run_call (c : Call) (s : Sys) : Sys :=
  match c with
  | CallAdd d h => addEventHandler d h s
  | CallRemove h => handler_remove h s
  | CallPost d ev => fst (postEvent d ev s)
  | CallConstruct h prio fs => handler_construct h prio fs s
  end.

(** A callback: handler, slot, event and world to answer, world and calls. *)
Variable callback : N -> Slot -> Event -> W -> bool * W * list Call.

Definition invoke (h : N) (sl : Slot) (ev : Event) (s : Sys) : bool * Sys :=
  let '(ans, w, calls) := callback h sl ev (world s) in
  let s1 := mkSys (handlers s) (dispatchers s) (nextPromise s) (fulfilled s)
              (invoked s ++ [(h, ans)]) w in
  (ans, fold_left (fun s c => run_call c s) calls s1).

(** The loop of [dispatchEvent] over the handlers. *)
Fixpoint dispatch_loop (d : N) (hs : list N) (ev : Event) (s : Sys) : bool * Sys :=
  match hs with
  | [] => (false, s)
  | h :: hs' =>
      let '(handled, s1) :=
        if decide (h ∈ eventHandlerDeleteSet (dispatchers s d)) then (false, s)
        else match slot_of (getType ev) with
             | None => (false, s)
             | Some sl =>
                 if decide (sl ∈ slots (handlers s h)) then invoke h sl ev s else (false, s)
             end in
      if handled : bool then (true, s1) else dispatch_loop d hs' ev s1
  end.

Definition dispatchEvent (d : N) (ev : option Event) (s : Sys) : bool * Sys :=
  match ev with
  | None => (false, s)
  | Some e => dispatch_loop d (eventHandlers (dispatchers s d)) e s
  end.

(** [std::set] iteration: address order. *)
Definition address_order (x : gset N) : list N := merge_sort N.le (elements x).

(** Erase the first occurrence. *)
Fixpoint erase_handler (h : N) (l : list N) : list N :=
  match l with
  | [] => []
  | x :: l' => if decide (x = h) then l' else x :: erase_handler h l'
  end.

(** [std::upper_bound] with the comparison of [dispatchEvents]: a binary search for the
    first handler of strictly lower priority, which it finds when the range is
    sorted by descending priority; [n] bounds the length. *)
Fixpoint upper_loop (n : nat) (lower : N -> bool) (l : list N) (first len : nat) : nat :=
  match n with
  | O => first
  | S n =>
      if decide (len = 0) then first
      else
        let half := Nat.div2 len in
        match l !! (first + half) with
        | Some x => if lower x then upper_loop n lower l first half else upper_loop n lower l (S (first + half)) (len - half - 1)
        | None => first
        end
  end.
Definition upper_bound (prio : N -> Z) (h : N) (l : list N) : nat :=
  upper_loop (length l) (fun x => bool_decide (prio h > prio x)%Z) l 0 (length l).
Definition insert_by_priority (prio : N -> Z) (h : N) (l : list N) : list N :=
  take (upper_bound prio h l) l ++ h :: drop (upper_bound prio h l) l.

(** The first half of [dispatchEvents]: apply the pending deletions and additions. *)
Definition flush (d : N) (s : Sys) : Sys :=
  let x := dispatchers s d in
  let hs1 := fold_left (fun l h => erase_handler h l) (address_order (eventHandlerDeleteSet x))
               (eventHandlers x) in
  let hs2 := fold_left (fun l h =>
               if decide (h ∈ l) then l else insert_by_priority (fun h => priority (handlers s h)) h l)
               (address_order (eventHandlerAddSet x)) hs1 in
  set_dispatcher d (mkDispatcher hs2 ∅ ∅ (eventQueue x)) s.

(** The second half: pop and dispatch until the queue is empty. *)
Fixpoint drain (fuel : nat) (d : N) (s : Sys) : outcome Sys :=
  match fuel with
  | O => Exn OutOfFuel
  | S fuel' =>
      let x := dispatchers s d in
      match eventQueue x with
      | [] => Ret s
      | (p, ev) :: q =>
          let s1 := set_dispatcher d
                      (mkDispatcher (eventHandlers x) (eventHandlerAddSet x) (eventHandlerDeleteSet x) q) s in
          let '(ans, s2) := dispatchEvent d ev s1 in
          drain fuel' d
            (mkSys (handlers s2) (dispatchers s2) (nextPromise s2) (fulfilled s2 ++ [(p, ans)])
               (invoked s2) (world s2))
      end
  end.

Definition dispatchEvents (fuel : nat) (d : N) (s : Sys) : outcome Sys := drain fuel d (flush d s).

(** ** The invariant of a dispatcher *)

(** A handler is attached to [d] when its back pointer says so, which is when it
    waits in the add set or is listed and not waiting in the delete set. *)
Record Inv (d : N) (s : Sys) : Prop := mkInv {
  inv_nodup : NoDup (eventHandlers (dispatchers s d));
  inv_disjoint : eventHandlerAddSet (dispatchers s d) ## eventHandlerDeleteSet (dispatchers s d);
  inv_owner : forall h, eventDispatcher (handlers s h) = Some d <->
                h ∈ eventHandlerAddSet (dispatchers s d) \/
                (h ∈ eventHandlers (dispatchers s d) /\ h ∉ eventHandlerDeleteSet (dispatchers s d))
}.

(** The handlers stand by descending priority. *)
Definition sorted (d : N) (s : Sys) : Prop :=
  StronglySorted Z.ge ((fun h => priority (handlers s h)) <$> eventHandlers (dispatchers s d)).
End World.
Arguments Sys W : clear implicits.
Arguments set_owner {W} h owner s : simpl never.
Arguments removeEventHandler {W} d h s : simpl never.
Arguments addEventHandler {W} d h s : simpl never.
Arguments handler_remove {W} h s : simpl never.
Arguments handler_construct {W} h prio fs s : simpl never.
Arguments flush {W} d s : simpl never.

(** ** Lemmas on the handler list *)

Section HandlerList.
Implicit Types (l : list N) (prio : N -> Z).

Lemma address_order_elem (x : gset N) h : h ∈ address_order x <-> h ∈ x.
Proof. unfold address_order. rewrite merge_sort_Permutation. apply elem_of_elements. Qed.

Lemma address_order_nodup (x : gset N) : NoDup (address_order x).
Proof. unfold address_order. rewrite merge_sort_Permutation. apply NoDup_elements. Qed.

Lemma erase_handler_filter h l : NoDup l -> erase_handler h l = filter (fun x => x <> h) l.
Proof.
  induction 1 as [|x l Hx Hl IH]; [done|]. cbn [erase_handler]. case_decide as Hxh.
  - subst. symmetry. rewrite filter_cons_False by naive_solver. apply filter_all.
    apply Forall_forall. set_solver.
  - rewrite filter_cons_True by done. by rewrite IH.
Qed.

Lemma fold_erase_filter L l :
  NoDup l -> fold_left (fun l h => erase_handler h l) L l = filter (fun x => x ∉ L) l.
Proof.
  revert l. induction L as [|h L IH]; intros l Hl; cbn.
  - symmetry. apply filter_all, Forall_forall. set_solver.
  - rewrite erase_handler_filter by done. rewrite IH by (by apply NoDup_filter).
    rewrite list_filter_filter. apply filter_ext_elem. set_solver.
Qed.

Lemma insert_by_priority_perm prio h l : insert_by_priority prio h l ≡ₚ h :: l.
Proof. unfold insert_by_priority. rewrite <- Permutation_middle. by rewrite take_drop. Qed.

(** Insertion before the first handler of strictly lower priority, one by one. *)
Fixpoint insert_before (prio : N -> Z) (h : N) (l : list N) : list N :=
  match l with
  | [] => [h]
  | x :: l' => if decide (prio h > prio x)%Z then h :: x :: l' else x :: insert_before prio h l'
  end.

Lemma upper_loop_partition lower a b n : forall first len,
  Forall (fun x => lower x = false) a -> Forall (fun x => lower x = true) b ->
  first <= length a <= first + len -> first + len <= length (a ++ b) -> len <= n ->
  upper_loop n lower (a ++ b) first len = length a.
Proof.
  intros first len Ha Hb. revert first len. induction n as [|n IH]; intros first len Hin Hlen Hn; cbn [upper_loop]; [lia|].
  case_decide as H0; [lia|].
  assert (Nat.div2 len < len) as Hhalf by (rewrite Nat.div2_div; apply Nat.div_lt; lia).
  generalize dependent (Nat.div2 len). intros k Hhalf.
  destruct (lookup_lt_is_Some_2 (a ++ b) (first + k)) as [x Hx]; [lia|]. rewrite Hx.
  destruct (decide (first + k < length a)) as [Hlt|Hge].
  - rewrite lookup_app_l in Hx by done. rewrite Forall_lookup in Ha. rewrite (Ha _ _ Hx). apply IH; lia.
  - rewrite lookup_app_r in Hx by lia. rewrite Forall_lookup in Hb. rewrite (Hb _ _ Hx). apply IH; lia.
Qed.

(** On a sorted list the binary search inserts where the search one by one does. *)
Lemma insert_by_priority_sorted_eq prio h l :
  StronglySorted Z.ge (prio <$> l) -> insert_by_priority prio h l = insert_before prio h l.
Proof.
  intros Hs. assert (exists a b, l = a ++ b /\ Forall (fun x => ~ (prio h > prio x)%Z) a /\ Forall (fun x => prio h > prio x)%Z b
    /\ insert_before prio h l = a ++ h :: b) as (a & b & -> & Ha & Hb & ->).
  { induction l as [|x l IH]; [by exists [], []|]. rewrite fmap_cons in Hs. apply StronglySorted_inv in Hs as [Hs Hx]. cbn. case_decide as Hp.
    - exists [], (x :: l). split_and!; [done|done| |done]. constructor; [done|]. rewrite Forall_fmap in Hx. eapply Forall_impl; [exact Hx|]. cbn. lia.
    - destruct (IH Hs) as (a & b & -> & Ha & Hb & ->). exists (x :: a), b. split_and!; [done|by constructor|done|done]. }
  unfold insert_by_priority, upper_bound. rewrite upper_loop_partition; [by rewrite take_app_length, drop_app_length| | |rewrite length_app; lia..].
  - eapply Forall_impl; [exact Ha|]. intros x Hx. by apply bool_decide_eq_false_2.
  - eapply Forall_impl; [exact Hb|]. intros x Hx. by apply bool_decide_eq_true_2.
Qed.

Lemma insert_before_perm prio h l : insert_before prio h l ≡ₚ h :: l.
Proof. induction l as [|x l IH]; cbn; [done|]. case_decide; [done|]. rewrite IH. apply perm_swap. Qed.

Lemma insert_before_sorted prio h l :
  StronglySorted Z.ge (prio <$> l) -> StronglySorted Z.ge (prio <$> insert_before prio h l).
Proof.
  induction l as [|x l IH]; cbn; intros Hs; [by repeat constructor|].
  apply StronglySorted_inv in Hs as [Hs Hx]. case_decide as Hp; cbn.
  - constructor; [by constructor|]. constructor; [lia|].
    eapply Forall_impl; [exact Hx|]. cbn. lia.
  - constructor; [by apply IH|]. rewrite insert_before_perm. cbn. constructor; [lia|done].
Qed.

Lemma insert_by_priority_sorted prio h l :
  StronglySorted Z.ge (prio <$> l) -> StronglySorted Z.ge (prio <$> insert_by_priority prio h l).
Proof. intros Hs. rewrite insert_by_priority_sorted_eq by done. by apply insert_before_sorted. Qed.

Lemma insert_by_priority_class prio h l p :
  StronglySorted Z.ge (prio <$> l) ->
  filter (fun x => prio x = p) (insert_by_priority prio h l)
    = filter (fun x => prio x = p) l ++ filter (fun x => prio x = p) [h].
Proof.
  intros Hs. rewrite insert_by_priority_sorted_eq by done. revert Hs. induction l as [|x l IH]; intros Hs; [done|].
  rewrite fmap_cons in Hs. apply StronglySorted_inv in Hs as [Hs Hx]. cbn [insert_before]. case_decide as Hp.
  - destruct (decide (prio h = p)) as [Hh|Hh].
    + assert (filter (fun x => prio x = p) (x :: l) = []) as Hnil.
      { apply filter_none. constructor; [lia|].
        rewrite Forall_fmap in Hx. eapply Forall_impl; [exact Hx|]. cbn. lia. }
      rewrite filter_cons, Hnil. rewrite decide_True by done. cbn. by rewrite decide_True by done.
    + rewrite filter_cons, (decide_False (P := prio h = p)) by done. cbn.
      rewrite (decide_False (P := prio h = p)) by done. by rewrite app_nil_r.
  - rewrite !(filter_cons _ x). case_decide; cbn [app]; by rewrite IH.
Qed.

Definition fold_insert prio (L l : list N) : list N :=
  fold_left (fun l h => if decide (h ∈ l) then l else insert_by_priority prio h l) L l.

Lemma fold_insert_cons prio h L l :
  fold_insert prio (h :: L) l
    = fold_insert prio L (if decide (h ∈ l) then l else insert_by_priority prio h l).
Proof. done. Qed.

Lemma fold_insert_sorted prio L l :
  StronglySorted Z.ge (prio <$> l) -> StronglySorted Z.ge (prio <$> fold_insert prio L l).
Proof.
  revert l. induction L as [|h L IH]; intros l Hs; [done|]. rewrite fold_insert_cons. apply IH.
  case_decide; [done | by apply insert_by_priority_sorted].
Qed.

Lemma fold_insert_nodup prio L l : NoDup l -> NoDup (fold_insert prio L l).
Proof.
  revert l. induction L as [|h L IH]; intros l Hl; [done|]. rewrite fold_insert_cons. apply IH.
  case_decide; [done|]. rewrite insert_by_priority_perm. by constructor.
Qed.

Lemma fold_insert_elem prio L l x : x ∈ fold_insert prio L l <-> x ∈ L \/ x ∈ l.
Proof.
  revert l. induction L as [|h L IH]; intros l; [cbn; set_solver|]. rewrite fold_insert_cons, IH.
  case_decide; [set_solver|]. rewrite insert_by_priority_perm. set_solver.
Qed.

(** Handlers of one priority keep their order, and new ones come after them. *)
Lemma fold_insert_class prio L l p :
  NoDup L -> StronglySorted Z.ge (prio <$> l) ->
  filter (fun x => prio x = p) (fold_insert prio L l)
    = filter (fun x => prio x = p) l
      ++ filter (fun x => prio x = p) (filter (fun x => x ∉ l) L).
Proof.
  intros HL. revert l. induction HL as [|h L Hh HL IH]; intros l Hs.
  { cbn. by rewrite app_nil_r. }
  rewrite fold_insert_cons. destruct (decide (h ∈ l)) as [Hin|Hin].
  - rewrite IH by done. by rewrite (filter_cons_False (fun x => x ∉ l)) by auto.
  - rewrite IH by (by apply insert_by_priority_sorted).
    rewrite insert_by_priority_class by done. rewrite (filter_cons_True (fun x => x ∉ l)) by done.
    rewrite <- app_assoc. f_equal.
    change (h :: filter (fun x => x ∉ l) L) with ([h] ++ filter (fun x => x ∉ l) L).
    rewrite filter_app. do 2 f_equal. apply filter_ext_elem. intros x Hx.
    rewrite insert_by_priority_perm. set_solver.
Qed.
End HandlerList.

(** ** Lemmas on the operations *)

Section Ops.
Context {W : Type}.
Implicit Types s : Sys W.

Lemma handlers_set_handler h x s h' :
  handlers (set_handler h x s) h' = if decide (h = h') then x else handlers s h'.
Proof. cbn. unfold insert, fn_insert. by case_decide. Qed.

Lemma dispatchers_set_dispatcher d x s d' :
  dispatchers (set_dispatcher d x s) d' = if decide (d = d') then x else dispatchers s d'.
Proof. cbn. unfold insert, fn_insert. by case_decide. Qed.

Lemma handlers_set_dispatcher d x s : handlers (set_dispatcher d x s) = handlers s.
Proof. done. Qed.

Lemma dispatchers_set_owner h o s : dispatchers (set_owner h o s) = dispatchers s.
Proof. done. Qed.

(** [same_static s s']: no operation changes the priority or slots of a handler. *)
Definition same_static s s' : Prop :=
  forall h, priority (handlers s' h) = priority (handlers s h) /\ slots (handlers s' h) = slots (handlers s h).

Lemma set_owner_owner h o s h' :
  eventDispatcher (handlers (set_owner h o s) h')
    = if decide (h = h') then o else eventDispatcher (handlers s h').
Proof. unfold set_owner. rewrite handlers_set_handler. by case_decide. Qed.

Lemma set_owner_static h o s : same_static s (set_owner h o s).
Proof. intros h'. unfold set_owner. rewrite handlers_set_handler. case_decide; by subst. Qed.

Lemma readd_member (x : gset N) h : {[h]} ∪ x ∖ {[h]} = {[h]} ∪ x.
Proof. apply set_eq. intros y. destruct (decide (y = h)); set_solver. Qed.

Lemma remove_added (x : gset N) h : ({[h]} ∪ x) ∖ {[h]} = x ∖ {[h]}.
Proof. apply set_eq. set_solver. Qed.

Lemma removeEventHandler_owner d h s h' :
  eventDispatcher (handlers (removeEventHandler d h s) h')
    = if decide (h = h' /\ eventDispatcher (handlers s h) = Some d) then None
      else eventDispatcher (handlers s h').
Proof.
  unfold removeEventHandler. rewrite handlers_set_dispatcher. case_decide as Ho.
  - rewrite set_owner_owner. case_decide; [rewrite decide_True by done | rewrite decide_False by naive_solver]; done.
  - by rewrite decide_False by naive_solver.
Qed.

Lemma removeEventHandler_static d h s : same_static s (removeEventHandler d h s).
Proof. intros h'. unfold removeEventHandler. rewrite handlers_set_dispatcher. case_decide; [apply set_owner_static | done]. Qed.

Lemma removeEventHandler_dispatchers d h s d' :
  dispatchers (removeEventHandler d h s) d' =
    let x := dispatchers s d' in
    if decide (d = d') then
      mkDispatcher (eventHandlers x) (eventHandlerAddSet x ∖ {[h]}) ({[h]} ∪ eventHandlerDeleteSet x)
        (eventQueue x)
    else x.
Proof.
  unfold removeEventHandler. rewrite dispatchers_set_dispatcher.
  assert (dispatchers (if decide (eventDispatcher (handlers s h) = Some d) then set_owner h None s else s)
          = dispatchers s) as -> by (by case_decide). cbn. case_decide; by subst.
Qed.

Lemma addEventHandler_owner d h s h' :
  eventDispatcher (handlers (addEventHandler d h s) h')
    = if decide (h = h') then Some d else eventDispatcher (handlers s h').
Proof.
  unfold addEventHandler. rewrite handlers_set_dispatcher, set_owner_owner. case_decide; [done|].
  destruct (eventDispatcher (handlers s h)) as [d'|] eqn:Hd; [|done].
  rewrite removeEventHandler_owner. by rewrite decide_False by naive_solver.
Qed.

Lemma addEventHandler_static d h s : same_static s (addEventHandler d h s).
Proof.
  intros h'. unfold addEventHandler. rewrite handlers_set_dispatcher.
  destruct (eventDispatcher (handlers s h)) as [d'|]; [|apply set_owner_static].
  destruct (removeEventHandler_static d' h s h') as [<- <-]. apply set_owner_static.
Qed.

Lemma addEventHandler_dispatchers d h s d' :
  dispatchers (addEventHandler d h s) d' =
    let x := dispatchers s d' in
    if decide (d = d') then
      mkDispatcher (eventHandlers x) ({[h]} ∪ eventHandlerAddSet x) (eventHandlerDeleteSet x ∖ {[h]})
        (eventQueue x)
    else if decide (eventDispatcher (handlers s h) = Some d') then
      mkDispatcher (eventHandlers x) (eventHandlerAddSet x ∖ {[h]}) ({[h]} ∪ eventHandlerDeleteSet x)
        (eventQueue x)
    else x.
Proof.
  unfold addEventHandler. rewrite dispatchers_set_dispatcher, dispatchers_set_owner. cbv zeta.
  destruct (eventDispatcher (handlers s h)) as [d0|] eqn:Hd.
  - rewrite !removeEventHandler_dispatchers. cbn. case_decide as H1; subst.
    + case_decide; subst; cbn; [|done].
      by rewrite readd_member, remove_added.
    + case_decide as H2; subst; [by rewrite decide_True by done | by rewrite decide_False by naive_solver].
  - case_decide; by subst.
Qed.

(** [sorted] only depends on the priorities and the list. *)
Definition same_order d s s' : Prop :=
  eventHandlers (dispatchers s' d) = eventHandlers (dispatchers s d)
  /\ forall h, h ∈ eventHandlers (dispatchers s d) -> priority (handlers s' h) = priority (handlers s h).
Lemma same_order_sorted d s s' : same_order d s s' -> sorted d s -> sorted d s'.
Proof.
  intros [Hl Hp]. unfold sorted. rewrite Hl. intros Hs.
  replace ((fun h => priority (handlers s' h)) <$> eventHandlers (dispatchers s d))
    with ((fun h => priority (handlers s h)) <$> eventHandlers (dispatchers s d)); [done|].
  apply list_fmap_ext. intros i h Hh%list_elem_of_lookup_2. by rewrite Hp.
Qed.
Lemma same_order_refl d s : same_order d s s.
Proof. done. Qed.
Lemma same_order_trans d s1 s2 s3 : same_order d s1 s2 -> same_order d s2 s3 -> same_order d s1 s3.
Proof. intros [H1 H2] [H3 H4]. split; [congruence|]. intros h Hh. rewrite H4, H2; [done|done|by rewrite H1]. Qed.
Lemma static_same_order d s s' : same_static s s' -> eventHandlers (dispatchers s' d) = eventHandlers (dispatchers s d) -> same_order d s s'.
Proof. intros Hs Hl. split; [done|]. intros h _. by destruct (Hs h). Qed.

Lemma handler_construct_Inv h prio fs s d : Inv d s -> Inv d (handler_construct h prio fs s).
Proof.
  intros [Hnd Hdis Hown]. unfold handler_construct. destruct (eventDispatcher (handlers s h)) as [d'|] eqn:Hd; [done|].
  split; [done..|]. intros h'. rewrite handlers_set_handler. case_decide as E; [subst h'; cbn|apply Hown].
  specialize (Hown h). rewrite Hd in Hown. naive_solver.
Qed.
Lemma set_slots_Inv h fs s d : Inv d s -> Inv d (set_slots h fs s).
Proof.
  intros [Hnd Hdis Hown]. split; [done..|]. intros h'. unfold set_slots. rewrite handlers_set_handler. case_decide as E; [subst h'|]; apply Hown.
Qed.
Lemma handler_construct_order h prio fs s d : h ∉ eventHandlers (dispatchers s d) -> same_order d s (handler_construct h prio fs s).
Proof.
  intros Hh. unfold handler_construct. destruct (eventDispatcher _); [apply same_order_refl|]. split; [done|].
  intros h' Hh'. rewrite handlers_set_handler. case_decide; [by subst|done].
Qed.
Lemma set_slots_order h fs s d : same_order d s (set_slots h fs s).
Proof. split; [done|]. intros h' _. unfold set_slots. rewrite handlers_set_handler. case_decide; by subst. Qed.

Lemma removeEventHandler_Inv d h s d' : Inv d' s -> Inv d' (removeEventHandler d h s).
Proof.
  intros [Hnd Hdis Hown].
  constructor; rewrite ?removeEventHandler_dispatchers; cbn; [case_decide; cbn; set_solver..|].
  intros h'. rewrite removeEventHandler_owner. specialize (Hown h').
  case_decide as H1; case_decide as H2; cbn; set_solver.
Qed.

Lemma addEventHandler_Inv d h s d' : Inv d' s -> Inv d' (addEventHandler d h s).
Proof.
  intros [Hnd Hdis Hown].
  constructor; rewrite ?addEventHandler_dispatchers; cbn; [repeat case_decide; cbn; try done; set_solver..|].
  intros h'. rewrite addEventHandler_owner. specialize (Hown h').
  case_decide as H1; repeat case_decide; cbn;
    rewrite ?elem_of_union, ?elem_of_difference, ?elem_of_singleton; naive_solver.
Qed.

Lemma handler_remove_Inv h s d' : Inv d' s -> Inv d' (handler_remove h s).
Proof.
  intros HI. unfold handler_remove. destruct (eventDispatcher (handlers s h)) as [d|] eqn:Hd; [|done].
  destruct (removeEventHandler_Inv d h s d' HI) as [Hnd Hdis Hown].
  constructor; [done..|].
  intros h'. rewrite set_owner_owner. cbn. rewrite <- Hown. case_decide; [subst|done].
  rewrite removeEventHandler_owner. by rewrite decide_True by done.
Qed.

Lemma handler_destroy_Inv h s d' : Inv d' s -> Inv d' (handler_destroy h s).
Proof.
  intros HI. unfold handler_destroy. destruct (eventDispatcher (handlers s h)); [|done].
  by apply removeEventHandler_Inv.
Qed.

Lemma postEvent_Inv d ev s d' : Inv d' s -> Inv d' (fst (postEvent d ev s)).
Proof.
  intros [Hnd Hdis Hown].
  constructor; cbn; unfold insert, fn_insert; try case_decide; subst; done.
Qed.

Lemma run_call_Inv c s d' : Inv d' s -> Inv d' (run_call c s).
Proof.
  destruct c; cbn [run_call];
    [apply addEventHandler_Inv | apply handler_remove_Inv | apply postEvent_Inv | apply handler_construct_Inv].
Qed.

Lemma run_calls_Inv cs s d' : Inv d' s -> Inv d' (fold_left (fun s c => run_call c s) cs s).
Proof. revert s. induction cs as [|c cs IH]; intros s HI; cbn; [done|]. by apply IH, run_call_Inv. Qed.

(** What [flush] makes of the handler list. *)
Lemma flush_handlers d s :
  NoDup (eventHandlers (dispatchers s d)) ->
  eventHandlers (dispatchers (flush d s) d) =
    fold_insert (fun h => priority (handlers s h))
      (address_order (eventHandlerAddSet (dispatchers s d)))
      (filter (fun h => h ∉ eventHandlerDeleteSet (dispatchers s d)) (eventHandlers (dispatchers s d))).
Proof.
  intros Hnd. unfold flush. rewrite dispatchers_set_dispatcher, decide_True by done.
  cbn [eventHandlers]. rewrite fold_erase_filter by done. unfold fold_insert. f_equal.
  apply filter_ext_elem. intros x Hx. by rewrite address_order_elem.
Qed.

Lemma flush_pending d s :
  eventHandlerAddSet (dispatchers (flush d s) d) = ∅ /\
  eventHandlerDeleteSet (dispatchers (flush d s) d) = ∅ /\
  eventQueue (dispatchers (flush d s) d) = eventQueue (dispatchers s d).
Proof. unfold flush. by rewrite dispatchers_set_dispatcher, decide_True by done. Qed.

Lemma sorted_filter (prio : N -> Z) (P : N -> Prop) `{forall x, Decision (P x)} l :
  StronglySorted Z.ge (prio <$> l) -> StronglySorted Z.ge (prio <$> filter P l).
Proof.
  induction l as [|x l IH]; [done|]. rewrite fmap_cons.
  intros [Hs Hx]%StronglySorted_inv. rewrite filter_cons. case_decide; [|by apply IH].
  rewrite fmap_cons. constructor; [by apply IH|].
  apply Forall_fmap, Forall_forall. intros y [_ Hy]%list_elem_of_filter.
  rewrite Forall_fmap, Forall_forall in Hx. by apply Hx.
Qed.

Lemma flush_Inv d s d' : Inv d' s -> Inv d' (flush d s).
Proof.
  intros [Hnd Hdis Hown].
  destruct (decide (d = d')) as [->|Hne].
  - constructor; rewrite ?flush_handlers by done.
    + by apply fold_insert_nodup, NoDup_filter.
    + destruct (flush_pending d' s) as (-> & -> & _). set_solver.
    + intros h. destruct (flush_pending d' s) as (-> & -> & _).
      rewrite fold_insert_elem, address_order_elem, list_elem_of_filter.
      change (handlers (flush d' s)) with (handlers s). rewrite Hown. set_solver.
  - constructor; unfold flush; rewrite ?dispatchers_set_dispatcher, ?decide_False by done; done.
Qed.

Lemma flush_sorted d s d' : NoDup (eventHandlers (dispatchers s d')) -> sorted d' s -> sorted d' (flush d s).
Proof.
  intros Hnd Hso. unfold sorted. destruct (decide (d = d')) as [->|Hne].
  - rewrite flush_handlers by done. by apply fold_insert_sorted, sorted_filter.
  - unfold flush. by rewrite dispatchers_set_dispatcher, decide_False by done.
Qed.
End Ops.

(** ** Lemmas on dispatching *)

Section Dispatch.
Context {W : Type} (callback : N -> Slot -> Event -> W -> bool * W * list Call).
Implicit Types s : Sys W.
Local Abbreviation invoke := (invoke callback).
Local Abbreviation dispatch_loop := (dispatch_loop callback).
Local Abbreviation dispatchEvent := (dispatchEvent callback).
Local Abbreviation drain := (drain callback).

Lemma run_call_eventHandlers c s d :
  eventHandlers (dispatchers (run_call c s) d) = eventHandlers (dispatchers s d).
Proof.
  destruct c as [d' h|h|d' ev|h prio fs]; cbn [run_call].
  - rewrite addEventHandler_dispatchers. by repeat case_decide.
  - unfold handler_remove. destruct (eventDispatcher _); [|done].
    rewrite dispatchers_set_owner, removeEventHandler_dispatchers. by case_decide.
  - cbn. unfold insert, fn_insert. case_decide; by subst.
  - unfold handler_construct. by destruct (eventDispatcher _).
Qed.

(** Calls that make no handler leave the priorities. *)
Definition constructs (c : Call) : bool := match c with CallConstruct _ _ _ => true | _ => false end.
Definition never_constructs : Prop := forall h sl ev w, Forall (fun c => constructs c = false) (snd (callback h sl ev w)).

Lemma run_call_order c s d : constructs c = false -> same_order d s (run_call c s).
Proof.
  intros Hc. split; [apply run_call_eventHandlers|]. intros h' _. destruct c as [d' h|h|d' ev|h prio fs]; cbn [run_call]; [| | |done].
  - by destruct (addEventHandler_static d' h s h').
  - unfold handler_remove. destruct (eventDispatcher _) as [d'|]; [|done].
    destruct (set_owner_static h None (removeEventHandler d' h s) h') as [-> _]. by destruct (removeEventHandler_static d' h s h').
  - done.
Qed.
Lemma run_calls_order cs s d : Forall (fun c => constructs c = false) cs -> same_order d s (fold_left (fun s c => run_call c s) cs s).
Proof.
  intros Hcs. revert s. induction Hcs as [|c cs Hc Hcs IH]; intros s; [apply same_order_refl|]. cbn [fold_left].
  eapply same_order_trans; [by apply run_call_order|apply IH].
Qed.
Lemma dispatch_loop_order d hs ev s d' : never_constructs -> same_order d' s (snd (dispatch_loop d hs ev s)).
Proof.
  intros Hcb. revert s. induction hs as [|h hs IH]; intros s; [apply same_order_refl|].
  cbn [Dispatcher.dispatch_loop]. case_decide; [by apply IH|].
  destruct (slot_of (getType ev)) as [sl|]; [|by apply IH].
  case_decide; [|by apply IH]. unfold Dispatcher.invoke.
  specialize (Hcb h sl ev (world s)). destruct (callback h sl ev (world s)) as [[ans w] cs]. cbn [snd] in Hcb.
  set (s1 := mkSys _ _ _ _ _ w). pose proof (run_calls_order cs s1 d' Hcb) as H1.
  assert (same_order d' s (fold_left (fun s c => run_call c s) cs s1)) as H2 by exact H1.
  destruct ans; [exact H2|]. eapply same_order_trans; [exact H2|apply IH].
Qed.
Lemma drain_order fuel d s s' d' : never_constructs -> drain fuel d s = Ret s' -> same_order d' s s'.
Proof.
  intros Hcb. revert s. induction fuel as [|fuel IH]; intros s; [done|]. cbn [Dispatcher.drain].
  destruct (eventQueue (dispatchers s d)) as [|[p ev] q]; [intros [= ->]; apply same_order_refl|].
  match goal with |- context [dispatchEvent d ev ?s1] => set (s1' := s1) end. intros Hd.
  assert (same_order d' s s1') as H1.
  { split; [|done]. unfold s1'. rewrite dispatchers_set_dispatcher. by case_decide; subst. }
  assert (same_order d' s1' (snd (dispatchEvent d ev s1'))) as H2.
  { destruct ev as [e|]; [by apply dispatch_loop_order|apply same_order_refl]. }
  destruct (dispatchEvent d ev s1') as [ans s2]. apply IH in Hd. eapply same_order_trans; [exact H1|].
  eapply same_order_trans; [exact H2|]. exact Hd.
Qed.

Lemma run_call_invoked c s : invoked (run_call c s) = invoked s /\ fulfilled (run_call c s) = fulfilled s.
Proof.
  assert (forall d h s, invoked (removeEventHandler d h s) = invoked s /\
                        fulfilled (removeEventHandler d h s) = fulfilled s) as Hrem.
  { intros d h s'. unfold removeEventHandler. by case_decide. }
  destruct c as [d' h|h|d' ev|h prio fs]; cbn [run_call]; [| |done|].
  - unfold addEventHandler. destruct (eventDispatcher _); [apply Hrem|done].
  - unfold handler_remove. destruct (eventDispatcher _); [|done]. apply Hrem.
  - unfold handler_construct. by destruct (eventDispatcher _).
Qed.

Lemma run_calls_frame cs s d :
  let s' := fold_left (fun s c => run_call c s) cs s in
  eventHandlers (dispatchers s' d) = eventHandlers (dispatchers s d)
  /\ invoked s' = invoked s /\ fulfilled s' = fulfilled s.
Proof.
  revert s. induction cs as [|c cs IH]; intros s; cbn; [done|].
  destruct (IH (run_call c s)) as (-> & -> & ->). rewrite run_call_eventHandlers.
  by destruct (run_call_invoked c s) as [-> ->].
Qed.

Lemma invoke_frame h sl ev s d :
  let '(ans, s') := invoke h sl ev s in
  eventHandlers (dispatchers s' d) = eventHandlers (dispatchers s d)
  /\ invoked s' = invoked s ++ [(h, ans)] /\ fulfilled s' = fulfilled s.
Proof. unfold Dispatcher.invoke. destruct (callback h sl ev (world s)) as [[ans w] cs].
  exact (run_calls_frame cs (mkSys _ _ _ _ (invoked s ++ [(h, ans)]) w) d).
Qed.

Lemma invoke_Inv h sl ev s d : Inv d s -> Inv d (snd (invoke h sl ev s)).
Proof.
  unfold Dispatcher.invoke. destruct (callback h sl ev (world s)) as [[ans w] cs]. intros [Hnd Hdis Hown].
  apply run_calls_Inv. by constructor.
Qed.

Lemma dispatch_loop_Inv d hs ev s d' : Inv d' s -> Inv d' (snd (dispatch_loop d hs ev s)).
Proof.
  revert s. induction hs as [|h hs IH]; intros s HI; [done|].
  cbn [Dispatcher.dispatch_loop]. case_decide; [by apply IH|].
  destruct (slot_of (getType ev)) as [sl|]; [|by apply IH].
  case_decide; [|by apply IH].
  pose proof (invoke_Inv h sl ev s d' HI) as HI'.
  destruct (invoke h sl ev s) as [[] s1]; [done | by apply IH].
Qed.

(** The callbacks made by one dispatch: in list order, all but the last answering no. *)
Definition called_in_order (hs : list N) (ans : bool) (calls : list (N * bool)) : Prop :=
  exists (no : list N) (yes : option N),
    ans = bool_decide (is_Some yes)
    /\ no ++ option_list yes `sublist_of` hs
    /\ calls = ((fun h => (h, false)) <$> no) ++ ((fun h => (h, true)) <$> option_list yes).

Lemma called_in_order_skip h hs ans calls :
  called_in_order hs ans calls -> called_in_order (h :: hs) ans calls.
Proof. intros (no & yes & Ha & Hsub & Hc). exists no, yes. split_and!; [done|by apply sublist_cons|done]. Qed.

Lemma dispatch_loop_called d hs ev s :
  let '(ans, s') := dispatch_loop d hs ev s in
  fulfilled s' = fulfilled s /\
  exists calls, invoked s' = invoked s ++ calls /\ called_in_order hs ans calls.
Proof.
  revert s. induction hs as [|h hs IH]; intros s; cbn [Dispatcher.dispatch_loop].
  { split; [done|]. exists []. split; [by rewrite app_nil_r|]. by exists [], None. }
  assert (let '(ans, s') := dispatch_loop d hs ev s in
    fulfilled s' = fulfilled s /\
    exists calls, invoked s' = invoked s ++ calls /\ called_in_order (h :: hs) ans calls) as Hskip.
  { specialize (IH s). destruct (dispatch_loop d hs ev s) as [ans s'].
    destruct IH as (Hf & calls & Heq & Hc). split; [done|]. eauto using called_in_order_skip. }
  case_decide; [exact Hskip|]. destruct (slot_of (getType ev)) as [sl|]; [|exact Hskip].
  case_decide; [|exact Hskip]. clear Hskip.
  pose proof (invoke_frame h sl ev s d) as Hinv. destruct (invoke h sl ev s) as [[] s1];
    destruct Hinv as (_ & Hi & Hf).
  - split; [done|]. exists [(h, true)]. split; [done|]. exists [], (Some h).
    split_and!; [done| |done]. apply sublist_skip, sublist_nil_l.
  - specialize (IH s1). destruct (dispatch_loop d hs ev s1) as [ans s'].
    destruct IH as (Hf' & calls & Heq & no & yes & Ha & Hsub & Hc). split; [by rewrite Hf'|].
    exists ((h, false) :: calls). split; [rewrite Heq, Hi; by rewrite <- app_assoc|].
    exists (h :: no), yes. split_and!; [done|by apply sublist_skip|by rewrite Hc].
Qed.

(** Without calls back, exactly the live handlers with the slot are tried. *)
Definition serves (ev : Event) (x : EventHandler) : bool :=
  match slot_of (getType ev) with
  | Some sl => bool_decide (sl ∈ slots x)
  | None => false
  end.

Definition candidates (d : N) (ev : Event) (s : Sys W) (hs : list N) : list N :=
  filter (fun h => h ∉ eventHandlerDeleteSet (dispatchers s d) /\ serves ev (handlers s h)) hs.

Lemma dispatch_loop_all d hs ev s :
  (forall h sl w, snd (callback h sl ev w) = []) ->
  let '(ans, s') := dispatch_loop d hs ev s in
  ans = false -> invoked s' = invoked s ++ ((fun h => (h, false)) <$> candidates d ev s hs).
Proof.
  intros Hcb. revert s. induction hs as [|h hs IH]; intros s; cbn [Dispatcher.dispatch_loop].
  { cbn. by rewrite app_nil_r. }
  unfold candidates. rewrite filter_cons. fold (candidates d ev s hs).
  destruct (decide (h ∈ eventHandlerDeleteSet (dispatchers s d))) as [Hdel|Hdel].
  { rewrite decide_False by naive_solver. apply IH. }
  unfold serves. destruct (slot_of (getType ev)) as [sl|] eqn:Hslot; [|rewrite decide_False by naive_solver; apply IH].
  destruct (decide (sl ∈ slots (handlers s h))) as [Hsl|Hsl]; cycle 1.
  { rewrite decide_False by (rewrite bool_decide_spec; naive_solver). apply IH. }
  rewrite decide_True by (by rewrite bool_decide_spec). unfold Dispatcher.invoke.
  specialize (Hcb h sl (world s)). destruct (callback h sl ev (world s)) as [[[] w] cs]; cbn in Hcb; subst cs; [done|].
  cbn [fold_left]. match goal with |- context [dispatch_loop d hs ev ?s1] => specialize (IH s1) end.
  destruct (dispatch_loop _ _ _ _) as [ans s']. intros Hans. rewrite (IH Hans). cbn. by rewrite <- app_assoc.
Qed.

(** One dispatch fulfils no promise and, without posts to [d], leaves its queue. *)
Definition posts_to (d : N) (c : Call) : bool :=
  match c with CallPost d' _ => bool_decide (d' = d) | _ => false end.

Lemma run_calls_queue cs s d :
  Forall (fun c => posts_to d c = false) cs ->
  eventQueue (dispatchers (fold_left (fun s c => run_call c s) cs s) d) = eventQueue (dispatchers s d).
Proof.
  intros Hcs. revert s. induction Hcs as [|c cs Hc Hcs IH]; intros s; [done|]. cbn [fold_left]. rewrite IH.
  destruct c as [d' h|h|d' ev|h prio fs]; cbn [run_call].
  - rewrite addEventHandler_dispatchers. by repeat case_decide.
  - unfold handler_remove. destruct (eventDispatcher _); [|done].
    rewrite dispatchers_set_owner, removeEventHandler_dispatchers. by case_decide.
  - cbn in Hc. apply bool_decide_eq_false in Hc. cbn. unfold insert, fn_insert. by rewrite decide_False.
  - unfold handler_construct. by destruct (eventDispatcher _).
Qed.

Definition never_posts (d : N) : Prop :=
  forall h sl ev w, Forall (fun c => posts_to d c = false) (snd (callback h sl ev w)).

Lemma dispatch_loop_queue d hs ev s :
  never_posts d ->
  eventQueue (dispatchers (snd (dispatch_loop d hs ev s)) d) = eventQueue (dispatchers s d).
Proof.
  intros Hcb. revert s. induction hs as [|h hs IH]; intros s; [done|].
  cbn [Dispatcher.dispatch_loop]. case_decide; [by apply IH|].
  destruct (slot_of (getType ev)) as [sl|]; [|by apply IH].
  case_decide; [|by apply IH]. unfold Dispatcher.invoke.
  specialize (Hcb h sl ev (world s)). destruct (callback h sl ev (world s)) as [[[] w] cs]; cbn [snd] in *.
  - by rewrite run_calls_queue.
  - rewrite IH. by rewrite run_calls_queue.
Qed.

Lemma drain_fifo fuel d s :
  never_posts d ->
  length (eventQueue (dispatchers s d)) < fuel ->
  exists s' answers, drain fuel d s = Ret s'
    /\ eventQueue (dispatchers s' d) = []
    /\ fulfilled s' = fulfilled s ++ answers
    /\ answers.*1 = (eventQueue (dispatchers s d)).*1.
Proof.
  intros Hcb. revert s. induction fuel as [|fuel IH]; intros s Hlen; [lia|].
  cbn [Dispatcher.drain]. destruct (eventQueue (dispatchers s d)) as [|[p ev] q] eqn:Hq.
  { exists s, []. by rewrite Hq, app_nil_r. }
  match goal with |- context [dispatchEvent d ev ?s1] => set (s1' := s1) end.
  assert (let '(ans, s2) := dispatchEvent d ev s1' in
          eventQueue (dispatchers s2 d) = q /\ fulfilled s2 = fulfilled s) as Hd.
  { assert (eventQueue (dispatchers s1' d) = q) as Hq1.
    { unfold s1'. by rewrite dispatchers_set_dispatcher, decide_True by done. }
    destruct ev as [e|]; cbn [Dispatcher.dispatchEvent]; [|done].
    pose proof (dispatch_loop_queue d (eventHandlers (dispatchers s1' d)) e s1' Hcb) as H1.
    pose proof (dispatch_loop_called d (eventHandlers (dispatchers s1' d)) e s1') as H2.
    rewrite Hq1 in H1. destruct (dispatch_loop _ _ _ s1') as [ans s2]. cbn [snd] in H1.
    rewrite H1. by destruct H2 as [-> _]. }
  destruct (dispatchEvent d ev s1') as [ans s2]. destruct Hd as [Hq2 Hf2].
  match goal with |- context [drain fuel d ?s3] => set (s3' := s3) end.
  destruct (IH s3') as (s' & answers & -> & Hq' & Hf' & Ha).
  { unfold s3'. cbn [dispatchers]. rewrite Hq2. cbn in Hlen. lia. }
  exists s', ((p, ans) :: answers). split_and!; [done|done|..].
  - rewrite Hf'. unfold s3'. cbn [fulfilled]. rewrite Hf2. by rewrite <- app_assoc.
  - rewrite fmap_cons, Ha. unfold s3'. cbn [dispatchers]. by rewrite Hq2.
Qed.

(** The transitions of the event system: any call from outside.  A handler may be made
    wherever none is; unless [reuse], not at an address that some dispatcher still
    lists. *)
Inductive sys_step (reuse : bool) : relation (Sys W) :=
  | step_construct h prio fs s :
      eventDispatcher (handlers s h) = None ->
      (reuse = false -> forall d, h ∉ eventHandlers (dispatchers s d)) ->
      sys_step reuse s (handler_construct h prio fs s)
  | step_set_slots h fs s : sys_step reuse s (set_slots h fs s)
  | step_add d h s : sys_step reuse s (addEventHandler d h s)
  | step_removeEventHandler d h s : sys_step reuse s (removeEventHandler d h s)
  | step_handler_remove h s : sys_step reuse s (handler_remove h s)
  | step_handler_destroy h s : sys_step reuse s (handler_destroy h s)
  | step_post d ev s : sys_step reuse s (fst (postEvent d ev s))
  | step_dispatchEvent d ev s : sys_step reuse s (snd (dispatchEvent d ev s))
  | step_dispatchEvents fuel d s s' :
      dispatchEvents callback fuel d s = Ret s' -> sys_step reuse s s'.

Lemma drain_Inv fuel d s s' d' : drain fuel d s = Ret s' -> Inv d' s -> Inv d' s'.
Proof.
  revert s. induction fuel as [|fuel IH]; intros s; [done|]. cbn [Dispatcher.drain].
  destruct (eventQueue (dispatchers s d)) as [|[p ev] q]; [by intros [= ->]|].
  match goal with |- context [dispatchEvent d ev ?s1] => set (s1' := s1) end.
  intros Hd HI.
  assert (Inv d' s1') as HI1.
  { destruct HI as [Hnd Hdis Hown].
    constructor; unfold s1'; rewrite ?dispatchers_set_dispatcher; try done; by case_decide; subst. }
  assert (Inv d' (snd (dispatchEvent d ev s1'))) as HI2.
  { destruct ev; [by apply dispatch_loop_Inv | done]. }
  destruct (dispatchEvent d ev s1') as [ans s2]. apply IH in Hd; [done|].
  destruct HI2 as [Hnd Hdis Hown]. by constructor.
Qed.

Lemma sys_step_Inv reuse s s' d : sys_step reuse s s' -> Inv d s -> Inv d s'.
Proof.
  destruct 1 as [h prio fs s Ho Hr|h fs s|d' h s|d' h s|h s|h s|d' ev s|d' ev s|fuel d' s s' Hd]; intros HI.
  - by apply handler_construct_Inv.
  - by apply set_slots_Inv.
  - by apply addEventHandler_Inv.
  - by apply removeEventHandler_Inv.
  - by apply handler_remove_Inv.
  - by apply handler_destroy_Inv.
  - by apply postEvent_Inv.
  - destruct ev; [by apply dispatch_loop_Inv | done].
  - eapply drain_Inv; [exact Hd|]. by apply flush_Inv.
Qed.

Lemma sys_step_sorted s s' d : never_constructs -> sys_step false s s' -> Inv d s -> sorted d s -> sorted d s'.
Proof.
  intros Hcb. destruct 1 as [h prio fs s Ho Hr|h fs s|d' h s|d' h s|h s|h s|d' ev s|d' ev s|fuel d' s s' Hd]; intros HI; [apply same_order_sorted..|].
  - by apply handler_construct_order, Hr.
  - apply set_slots_order.
  - by apply (run_call_order (CallAdd d' h)).
  - apply static_same_order; [apply removeEventHandler_static|]. rewrite removeEventHandler_dispatchers. by case_decide.
  - by apply (run_call_order (CallRemove h)).
  - unfold handler_destroy. destruct (eventDispatcher _) as [d'|]; [|apply same_order_refl].
    apply static_same_order; [apply removeEventHandler_static|]. rewrite removeEventHandler_dispatchers. by case_decide.
  - by apply (run_call_order (CallPost d' ev)).
  - destruct ev; [by apply dispatch_loop_order | apply same_order_refl].
  - intros Hs. eapply same_order_sorted; [by eapply drain_order|]. by apply flush_sorted; [apply HI|].
Qed.
End Dispatch.

(** ** Properties *)

Section Props.
Context {W : Type}.
Implicit Types callback : N -> Slot -> Event -> W -> bool * W * list Call.
Implicit Types s : Sys W.

(** A system in which nothing is registered yet. *)
Definition initial s : Prop :=
  (forall h, eventDispatcher (handlers s h) = None) /\
  (forall d, dispatchers s d = mkDispatcher [] ∅ ∅ []).

Lemma initial_Inv s d : initial s -> Inv d s.
Proof.
  intros [Hh Hd]. constructor; rewrite ?Hd; cbn; [constructor|set_solver|].
  intros h. rewrite Hh. set_solver.
Qed.
Lemma initial_sorted s d : initial s -> sorted d s.
Proof. intros [_ Hd]. unfold sorted. rewrite Hd. constructor. Qed.

(** C15. In every reachable state, where handlers come and go at any address and from
    callbacks too, and for every dispatcher: no handler is listed twice or waits both
    to be added and to be deleted, and a handler's back pointer names the dispatcher
    exactly when it is registered there.  The handlers are sorted by descending
    priority as long as no handler is made at the address of a destroyed one that
    is still listed. *)
Theorem dispatcher_invariant callback reuse s0 s d : initial s0 -> rtc (sys_step callback reuse) s0 s ->
  Inv d s /\ (reuse = false -> never_constructs callback -> sorted d s).
Proof.
  intros H0 Hrtc. apply (rtc_invariant (sys_step callback reuse) (fun s => Inv d s /\ (reuse = false -> never_constructs callback -> sorted d s)) s0); [| |done].
  - intros a b Hab [HI Hs]. split; [by eapply sys_step_Inv|]. intros -> Hcb. eapply sys_step_sorted; [done|done|done|]. by apply Hs.
  - split; [by apply initial_Inv|]. intros _ _. by apply initial_sorted.
Qed.

(** Applying the pending changes lists exactly the handlers attached to the
    dispatcher, by descending priority; inside one priority the old handlers
    keep their order and the new ones follow in address order. *)
Theorem flush_spec d s :
  Inv d s -> sorted d s ->
  let old := eventHandlers (dispatchers s d) in
  let new := eventHandlers (dispatchers (flush d s) d) in
  (forall h, h ∈ new <-> eventDispatcher (handlers s h) = Some d)
  /\ NoDup new
  /\ StronglySorted Z.ge ((fun h => priority (handlers s h)) <$> new)
  /\ (forall p, filter (fun h => priority (handlers s h) = p) new =
        filter (fun h => priority (handlers s h) = p)
          (filter (fun h => h ∉ eventHandlerDeleteSet (dispatchers s d)) old)
        ++ filter (fun h => priority (handlers s h) = p)
             (filter (fun h => h ∉ old)
                (address_order (eventHandlerAddSet (dispatchers s d))))).
Proof.
  intros HI Hso old new. pose proof (flush_Inv d s d HI) as [Hnd' _ Hown'].
  pose proof (flush_sorted d s d (inv_nodup _ _ HI) Hso) as Hso'. destruct HI as [Hnd Hdis Hown].
  split_and!; [|done|exact Hso'|].
  - intros h. change (handlers (flush d s)) with (handlers s) in Hown'. rewrite Hown'.
    destruct (flush_pending d s) as (-> & -> & _). unfold new. set_solver.
  - intros p. unfold new. rewrite flush_handlers by done.
    rewrite fold_insert_class; [|apply address_order_nodup|by apply sorted_filter].
    do 2 f_equal. apply filter_ext_elem. intros h Hh%address_order_elem.
    rewrite list_elem_of_filter. unfold old. set_solver.
Qed.

(** One dispatch calls handlers in list order, each answering no but for the
    last one when the event is handled; it stops there.  When callbacks make no
    calls back and nobody handles the event, every live handler that has a
    function for the event was called. *)
Theorem dispatchEvent_in_order callback d ev s :
  let '(ans, s') := dispatchEvent callback d (Some ev) s in
  exists calls, invoked s' = invoked s ++ calls
    /\ called_in_order (eventHandlers (dispatchers s d)) ans calls
    /\ ((forall h sl w, snd (callback h sl ev w) = []) -> ans = false ->
         calls = (fun h => (h, false)) <$> candidates d ev s (eventHandlers (dispatchers s d))).
Proof.
  cbn [dispatchEvent].
  pose proof (dispatch_loop_called callback d (eventHandlers (dispatchers s d)) ev s) as H1.
  pose proof (dispatch_loop_all callback d (eventHandlers (dispatchers s d)) ev s) as H2.
  destruct (dispatch_loop _ _ _ _ _) as [ans s']. destruct H1 as (_ & calls & Hi & Hc).
  exists calls. split_and!; [done|done|]. intros Hcb Hans.
  specialize (H2 Hcb Hans). rewrite Hi in H2. by apply app_inv_head in H2.
Qed.

(** C19. Draining the queue terminates when no callback posts to it, and it fulfils
    every promise of the queue exactly once, in the order the events were posted. *)
Theorem dispatchEvents_fulfils_fifo callback fuel d s :
  never_posts callback d ->
  length (eventQueue (dispatchers s d)) < fuel ->
  exists s' answers, dispatchEvents callback fuel d s = Ret s'
    /\ eventQueue (dispatchers s' d) = []
    /\ fulfilled s' = fulfilled s ++ answers
    /\ answers.*1 = (eventQueue (dispatchers s d)).*1.
Proof.
  intros Hcb Hlen. destruct (flush_pending d s) as (_ & _ & Hq).
  rewrite <- Hq in Hlen |- *. exact (drain_fifo callback fuel d (flush d s) Hcb Hlen).
Qed.

Lemma fold_set_owner_None l s h :
  eventDispatcher (handlers (fold_left (fun s h => set_owner h None s) l s) h)
    = if decide (h ∈ l) then None else eventDispatcher (handlers s h).
Proof.
  revert s. induction l as [|x l IH]; intros s; cbn [fold_left]; [by rewrite decide_False by set_solver|].
  rewrite IH, set_owner_owner. repeat case_decide; set_solver.
Qed.

Lemma fold_detach (del : gset N) l s h :
  eventDispatcher (handlers (fold_left (fun s h => if decide (h ∈ del) then s else set_owner h None s) l s) h)
    = if decide (h ∈ l /\ h ∉ del) then None else eventDispatcher (handlers s h).
Proof.
  revert s. induction l as [|x l IH]; intros s; cbn [fold_left]; [by rewrite decide_False by set_solver|].
  rewrite IH. destruct (decide (x ∈ del)) as [Hx|Hx].
  - repeat case_decide; set_solver.
  - rewrite set_owner_owner. repeat case_decide; set_solver.
Qed.

(** Destroying a dispatcher leaves no handler with a pointer to it, and touches
    no other handler. *)
Theorem dispatcher_destroy_detaches d s h :
  Inv d s ->
  eventDispatcher (handlers (dispatcher_destroy d s) h)
    = if decide (eventDispatcher (handlers s h) = Some d) then None
      else eventDispatcher (handlers s h).
Proof.
  intros [Hnd Hdis Hown]. unfold dispatcher_destroy.
  rewrite fold_detach, fold_set_owner_None. specialize (Hown h).
  rewrite (decide_ext (h ∈ elements _) (h ∈ eventHandlerAddSet (dispatchers s d)))
    by apply elem_of_elements.
  repeat case_decide; naive_solver.
Qed.
End Props.

(** *** Witnesses: two handlers of one dispatcher; the second answers yes to keys. *)

Definition demo_callback (h : N) (sl : Slot) (ev : Event) (w : nat) : bool * nat * list Call :=
  (bool_decide (h = 2%N), S w, []).
Definition demo_handler (h : N) : EventHandler :=
  mkHandler (if decide (h = 1%N) then 5 else 0)%Z [keyPressedHandler] None.
Definition demo_initial : Sys nat :=
  mkSys demo_handler (fun _ => mkDispatcher [] ∅ ∅ []) 0 [] [] 0.
Definition demo_state : Sys nat :=
  fst (postEvent 7 (Some (KeyPressedEvent 65 0)) (addEventHandler 7 1 (addEventHandler 7 2 demo_initial))).

Lemma demo_initial_ok : initial demo_initial.
Proof. split; [intros h | intros d]; done. Qed.

Lemma demo_reachable reuse : rtc (sys_step demo_callback reuse) demo_initial demo_state.
Proof.
  eapply rtc_l; [apply (step_add _ _ 7 2)|]. eapply rtc_l; [apply (step_add _ _ 7 1)|].
  apply rtc_once, step_post.
Qed.
Lemma demo_never_constructs : never_constructs demo_callback.
Proof. by constructor. Qed.

Lemma dispatcher_invariant_witness : Inv 7 demo_state /\ sorted 7 demo_state.
Proof.
  destruct (dispatcher_invariant demo_callback false _ _ 7 demo_initial_ok (demo_reachable false)) as [HI Hs].
  exact (conj HI (Hs eq_refl demo_never_constructs)).
Defined.

Lemma demo_Inv : Inv 7 demo_state /\ sorted 7 demo_state.
Proof.
  split.
  - apply (sys_step_Inv demo_callback true (addEventHandler 7 1 (addEventHandler 7 2 demo_initial))); [apply step_post|].
    do 2 apply addEventHandler_Inv. apply initial_Inv, demo_initial_ok.
  - constructor.
Qed.

(** A handler of lower priority made where the first of the list was destroyed: adding
    it takes the address out of the delete set, and it keeps the place of the old
    one, before handlers of higher priority. *)
Definition demo_listed : Sys nat := flush 7 (addEventHandler 7 1 (addEventHandler 7 2 demo_initial)).
Definition demo_reused : Sys nat :=
  flush 7 (addEventHandler 7 1 (handler_construct 1 (-3) [keyPressedHandler] (handler_destroy 1 demo_listed))).
Theorem address_reuse_breaks_order :
  rtc (sys_step demo_callback true) demo_initial demo_reused
  /\ eventHandlers (dispatchers demo_reused 7) = [1; 2]%N
  /\ ((fun h => priority (handlers demo_reused h)) <$> [1; 2]%N) = [(-3)%Z; 0%Z] /\ ~ sorted 7 demo_reused.
Proof.
  assert (eventHandlers (dispatchers demo_reused 7) = [1; 2]%N) as El by (by vm_compute).
  assert (((fun h => priority (handlers demo_reused h)) <$> [1; 2]%N) = [(-3)%Z; 0%Z]) as Ep by (by vm_compute).
  split_and!; [|done|done|].
  - assert (forall s : Sys nat, eventQueue (dispatchers s 7) = [] -> sys_step demo_callback true s (flush 7 s)) as Hflush.
    { intros s Hq. apply (step_dispatchEvents _ _ 1 7). unfold dispatchEvents, drain.
      destruct (flush_pending 7 s) as (_ & _ & Hq'). by rewrite Hq', Hq. }
    eapply rtc_l; [apply (step_add _ _ 7 2)|]. eapply rtc_l; [apply (step_add _ _ 7 1)|].
    eapply rtc_l; [apply Hflush; by vm_compute|]. eapply rtc_l; [apply (step_handler_destroy _ _ 1)|].
    eapply rtc_l; [apply (step_construct _ _ 1 (-3) [keyPressedHandler]); by vm_compute|].
    eapply rtc_l; [apply (step_add _ _ 7 1)|]. apply rtc_once, Hflush. by vm_compute.
  - unfold sorted. rewrite El, Ep. intros Hs. apply StronglySorted_inv in Hs as [_ Hs]. apply Forall_cons in Hs as [Hs _]. lia.
Qed.

Lemma flush_spec_witness :
  2%N ∈ eventHandlers (dispatchers (flush 7 demo_state) 7)
    <-> eventDispatcher (handlers demo_state 2) = Some 7%N.
Proof. exact (proj1 (flush_spec 7 demo_state (proj1 demo_Inv) (proj2 demo_Inv)) 2%N). Defined.

Example demo_flush : eventHandlers (dispatchers (flush 7 demo_state) 7) = [1%N; 2%N].
Proof. by vm_compute. Qed.

Lemma dispatchEvents_fulfils_fifo_witness :
  exists s' answers, dispatchEvents demo_callback 2 7 demo_state = Ret s'
    /\ eventQueue (dispatchers s' 7) = []
    /\ fulfilled s' = fulfilled demo_state ++ answers
    /\ answers.*1 = (eventQueue (dispatchers demo_state 7)).*1.
Proof.
  apply dispatchEvents_fulfils_fifo; [intros h sl ev w; constructor | vm_compute; lia].
Defined.

Lemma dispatcher_destroy_detaches_witness :
  eventDispatcher (handlers (dispatcher_destroy 7 demo_state) 2) = None.
Proof. rewrite (dispatcher_destroy_detaches 7 demo_state 2 (proj1 demo_Inv)). by vm_compute. Defined.

End Dispatcher.
