(* ===== verification/ThreadPool.v ===== *)
(** * ThreadPool: worker threads and the thread pool

    Models [Thread/ThreadPool.*].  One [Thread] object is a transition system:
    every critical section of the source is one step, and between them run the
    worker, the threads inside [wait] and the callers of [addTask].  The
    condition variable is modelled as the C++ standard states it: [notify_one]
    wakes some blocked thread if there is one, and a blocked thread may also
    wake spuriously. *)

From S2P Require Import Prelude.
From stdpp Require Import base decidable list sets gmap relations.
From Stdlib Require Import ZArith Lia.

Module Thread.

(** ** State *)

(** [Thread::Task]: [job] and [complete] name the functions, and may be empty. *)
Record Task := mkTask { job : option N; complete : option N; wait_flag : bool }.

#[export] Instance Task_eq_dec : EqDecision Task.
Proof. solve_decision. Defined.

(** Where the worker is inside [Thread::run]. *)
Inductive WorkerPc : Type :=
  | WReady               (* about to take the lock and test the predicate *)
  | WBlocked             (* inside condition.wait *)
  | WRunning (t : Task)  (* holds a copy of the front task, lock released *)
  | WPopping             (* the task has run; about to pop it *)
  | WDone.               (* left the loop *)

(** Where a thread is inside [Thread::wait]. *)
Inductive WaiterPc : Type := CReady | CBlocked.

(** Where the destructor is. *)
Inductive DtorPc : Type :=
  | DIdle | DWaiting (* inside wait() *) | DClosing (* wait returned *) | DJoining | DJoined.

#[export] Instance WorkerPc_eq_dec : EqDecision WorkerPc.
Proof. solve_decision. Defined.
#[export] Instance WaiterPc_eq_dec : EqDecision WaiterPc.
Proof. solve_decision. Defined.
#[export] Instance DtorPc_eq_dec : EqDecision DtorPc.
Proof. solve_decision. Defined.

(** [added] and [processed] are the histories of tasks; [posted] lists the
    completions handed to [Application::postOnMainThread]. *)
Record State := mkState {
  jobs : list Task;
  close : bool;
  worker : WorkerPc;
  waiters : gmap N WaiterPc;       (* the threads inside wait(); the destructor is waiter 0 *)
  dtor : DtorPc;
  added : list Task;
  processed : list Task;
  posted : list N
}.

(** The constructor starts the worker on an empty list. *)
Definition init : State := mkState [] false WReady ∅ DIdle [] [] [].

Definition with_worker (w : WorkerPc) (s : State) : State :=
  mkState (jobs s) (close s) w (waiters s) (dtor s) (added s) (processed s) (posted s).
Definition with_waiters (ws : gmap N WaiterPc) (s : State) : State :=
  mkState (jobs s) (close s) (worker s) ws (dtor s) (added s) (processed s) (posted s).
Definition with_jobs (js : list Task) (s : State) : State :=
  mkState js (close s) (worker s) (waiters s) (dtor s) (added s) (processed s) (posted s).
Definition with_dtor (d : DtorPc) (s : State) : State :=
  mkState (jobs s) (close s) (worker s) (waiters s) d (added s) (processed s) (posted s).

Definition getTaskSize (s : State) : Z := i32 (Z.of_nat (length (jobs s))).

(** ** Steps *)

Definition nobody_blocked (s : State) : Prop :=
  worker s <> WBlocked /\ forall c, waiters s !! c <> Some CBlocked.

Inductive notify_one : relation State :=
  | notify_nobody s : nobody_blocked s -> notify_one s s
  | notify_worker s : worker s = WBlocked -> notify_one s (with_worker WReady s)
  | notify_waiter s c :
      waiters s !! c = Some CBlocked -> notify_one s (with_waiters (<[c := CReady]> (waiters s)) s).

(** [addTask]: append under the lock, notify. *)
Definition push_task (t : Task) (s : State) : State :=
  mkState (jobs s ++ [t]) (close s) (worker s) (waiters s) (dtor s) (added s ++ [t]) (processed s) (posted s).

(** The worker under the lock: [condition.wait] with its predicate, then the
    test of [close] and the copy of the front task. *)
Definition worker_check (s : State) : State :=
  match jobs s, close s with
  | [], false => with_worker WBlocked s
  | _, true => with_worker WDone s
  | t :: _, false => with_worker (WRunning t) s
  end.

(** The job, and the post of its completion, without the lock. *)
Definition worker_exec (t : Task) (s : State) : State :=
  mkState (jobs s) (close s) WPopping (waiters s) (dtor s) (added s) (processed s ++ [t])
    (posted s ++ match job t, complete t with Some _, Some c => [c] | _, _ => [] end).

(** [wait] under the lock: return when there is no job, block otherwise. *)
Definition waiter_check (c : N) (s : State) : State :=
  match jobs s with
  | [] => with_dtor (if decide (c = 0%N /\ dtor s = DWaiting) then DClosing else dtor s)
            (with_waiters (delete c (waiters s)) s)
  | _ => with_waiters (<[c := CBlocked]> (waiters s)) s
  end.

Definition set_close (s : State) : State :=
  mkState (jobs s) true (worker s) (waiters s) DJoining (added s) (processed s) (posted s).

Inductive worker_step : relation State :=
  | step_check s : worker s = WReady -> worker_step s (worker_check s)
  | step_exec s t : worker s = WRunning t -> worker_step s (worker_exec t s)
  | step_pop s s' :
      worker s = WPopping ->
      notify_one (with_jobs (tail (jobs s)) s) s' ->
      worker_step s (with_worker WReady s').

Inductive step : relation State :=
  | step_worker s s' : worker_step s s' -> step s s'
  | step_add s s' t : notify_one (push_task t s) s' -> step s s'
  | step_wait s c :
      c <> 0%N -> waiters s !! c = None -> step s (with_waiters (<[c := CReady]> (waiters s)) s)
  | step_waiter_check s c : waiters s !! c = Some CReady -> step s (waiter_check c s)
  | step_spurious_worker s : worker s = WBlocked -> step s (with_worker WReady s)
  | step_spurious_waiter s c :
      waiters s !! c = Some CBlocked -> step s (with_waiters (<[c := CReady]> (waiters s)) s)
  | step_destroy s :
      dtor s = DIdle -> waiters s !! 0%N = None ->
      step s (with_dtor DWaiting (with_waiters (<[0%N := CReady]> (waiters s)) s))
  | step_close s s' : dtor s = DClosing -> notify_one (set_close s) s' -> step s s'
  | step_join s : dtor s = DJoining -> worker s = WDone -> step s (with_dtor DJoined s).

(** ** Invariants *)

(** The tasks not processed yet: the front stays in [jobs] while it runs. *)
Definition pending (s : State) : list Task :=
  match worker s with WPopping => tail (jobs s) | _ => jobs s end.

Record Inv (s : State) : Prop := mkInv {
  inv_fifo : added s = processed s ++ pending s;
  inv_running : forall t, worker s = WRunning t -> head (jobs s) = Some t;
  inv_popping : worker s = WPopping -> jobs s <> []
}.

Lemma notify_one_frame s s' :
  notify_one s s' ->
  jobs s' = jobs s /\ close s' = close s /\ added s' = added s /\ processed s' = processed s
  /\ posted s' = posted s /\ dtor s' = dtor s
  /\ (worker s' = worker s \/ (worker s = WBlocked /\ worker s' = WReady)).
Proof. destruct 1; cbn; split_and!; auto. Qed.

Lemma Inv_notify s s' : notify_one s s' -> Inv s -> Inv s'.
Proof.
  intros (Hj & _ & Ha & Hp & _ & _ & Hw)%notify_one_frame [H1 H2 H3].
  constructor; unfold pending in *; rewrite ?Hj, ?Ha, ?Hp;
    (destruct Hw as [Hw|[Hw Hw']]; [by rewrite Hw | rewrite Hw'; rewrite Hw in *; done]).
Qed.

Lemma init_Inv : Inv init.
Proof. by constructor. Qed.

Lemma worker_step_Inv s s' : worker_step s s' -> Inv s -> Inv s'.
Proof.
  destruct 1 as [s Hw|s t Hw|s s' Hw Hn]; intros [H1 H2 H3].
  - unfold pending in H1. rewrite Hw in *. unfold worker_check.
    destruct (jobs s) as [|t ts] eqn:Hj, (close s); constructor; unfold pending; cbn; rewrite ?Hj; try done.
    by intros ? [= ->].
  - specialize (H2 t Hw). unfold pending in H1. rewrite Hw in H1.
    destruct (jobs s) as [|t' ts] eqn:Hj; simplify_eq/=.
    constructor; unfold pending; cbn; rewrite ?Hj; try done. by rewrite H1, <- app_assoc.
  - apply notify_one_frame in Hn as (Hj & _ & Ha & Hp & _). cbn in *.
    unfold pending in H1. rewrite Hw in H1.
    constructor; unfold pending; cbn; rewrite ?Hj, ?Ha, ?Hp; done.
Qed.

Lemma step_Inv s s' : step s s' -> Inv s -> Inv s'.
Proof.
  destruct 1 as [s s' Hs|s s' t Hn|s c H0 Hc|s c Hc|s Hw|s c Hc|s Hd Hc|s s' Hd Hn|s Hd Hw]; intros HI.
  - by eapply worker_step_Inv.
  - eapply Inv_notify; [exact Hn|]. destruct HI as [H1 H2 H3].
    constructor; unfold pending in *; cbn.
    + rewrite H1, <- app_assoc. f_equal. destruct (worker s); try done.
      destruct (jobs s); [by destruct (H3 eq_refl) | done].
    + intros t' Ht'. specialize (H2 t' Ht'). by destruct (jobs s).
    + by destruct (jobs s).
  - destruct HI; by constructor.
  - unfold waiter_check. destruct HI as [H1 H2 H3]. unfold pending in H1.
    destruct (jobs s) eqn:Hj; constructor; unfold pending; cbn; rewrite ?Hj; done.
  - destruct HI as [H1 H2 H3]. unfold pending in H1. rewrite Hw in H1. by constructor.
  - destruct HI; by constructor.
  - destruct HI; by constructor.
  - eapply Inv_notify; [exact Hn|]. destruct HI; by constructor.
  - destruct HI; by constructor.
Qed.

Lemma reachable_Inv s : rtc step init s -> Inv s.
Proof. intros H. eapply (rtc_invariant step Inv); [apply step_Inv|apply init_Inv|done]. Qed.

(** ** At most one thread in [wait] *)

(** Executions in which at most one thread at a time is inside [wait]: the use
    the engine makes of it ([ThreadPool::waitAll] from one thread). *)
Definition single_step (s s' : State) : Prop := step s s' /\ size (waiters s') <= 1.

Record Awake (s : State) : Prop := mkAwake {
  aw_worker : worker s = WBlocked ->
    jobs s = [] /\ close s = false /\ forall c, waiters s !! c <> Some CBlocked;
  aw_waiter : forall c, waiters s !! c = Some CBlocked -> jobs s <> [];
  aw_done : worker s = WDone -> close s = true
}.

Lemma single_waiter (ws : gmap N WaiterPc) c c' x x' :
  size ws <= 1 -> ws !! c = Some x -> ws !! c' = Some x' -> c = c'.
Proof.
  intros Hsz Hc Hc'. destruct (decide (c = c')) as [|Hne]; [done|exfalso].
  rewrite <- (insert_delete_id _ _ _ Hc) in Hsz.
  rewrite map_size_insert_None in Hsz by apply lookup_delete_eq.
  assert (size (delete c ws) = 0) as H0 by lia.
  apply map_size_empty_iff in H0.
  assert (delete c ws !! c' = Some x') as Hd by (by rewrite lookup_delete_ne).
  rewrite H0 in Hd. by rewrite lookup_empty in Hd.
Qed.

(** Waking somebody, when a blocked worker would be the only one to wake. *)
Lemma Awake_notify s s' :
  notify_one s s' ->
  (worker s = WBlocked -> forall c, waiters s !! c <> Some CBlocked) ->
  (worker s = WDone -> close s = true) ->
  (forall c, waiters s' !! c = Some CBlocked -> jobs s <> []) ->
  Awake s'.
Proof.
  intros Hn Hb Hd Hj. destruct Hn as [s [Hw Hnb]|s Hw|s c Hc]; constructor; cbn in *; try done.
  - intros Hw'. by destruct (Hb Hw' c).
Qed.

Lemma waiters_notify s s' c :
  notify_one s s' -> waiters s' !! c = Some CBlocked -> waiters s !! c = Some CBlocked.
Proof.
  destruct 1 as [s Hnb|s Hw|s c' Hc']; cbn; [done|done|].
  rewrite lookup_insert. case_decide; [by subst | done].
Qed.

Lemma worker_check_Awake s : worker s = WReady -> Awake s -> Awake (worker_check s).
Proof.
  intros Hw [H1 H2 H3]. unfold worker_check.
  destruct (jobs s) as [|t ts] eqn:Hj, (close s) eqn:Hc; constructor; cbn; rewrite ?Hj, ?Hc; try done.
  intros _. split_and!; [done|done|]. intros c Hb. by apply (H2 c).
Qed.

Lemma pop_Awake s s' :
  size (waiters s) <= 1 -> worker s = WPopping -> Awake s ->
  notify_one (with_jobs (tail (jobs s)) s) s' -> Awake (with_worker WReady s').
Proof.
  intros Hsz Hw [H1 H2 H3] Hn. constructor; cbn; try done.
  intros c Hc. exfalso. inversion Hn as [s0 [Hw' Hnb]|s0 Hw'|s0 c' Hc']; subst; cbn in *.
  - by destruct (Hnb c).
  - congruence.
  - rewrite lookup_insert in Hc. case_decide as Hcc; [done|].
    apply Hcc. by eapply single_waiter.
Qed.

Lemma worker_step_Awake s s' : size (waiters s) <= 1 -> worker_step s s' -> Awake s -> Awake s'.
Proof.
  intros Hsz Hstep HA. destruct Hstep as [s Hw|s t Hw|s s' Hw Hn].
  - by apply worker_check_Awake.
  - destruct HA as [H1 H2 H3]. by constructor.
  - by apply (pop_Awake s).
Qed.

Lemma single_step_Awake s s' : size (waiters s) <= 1 -> single_step s s' -> Awake s -> Awake s'.
Proof.
  intros Hsz [Hstep Hsz'] HA.
  destruct Hstep as [s s' Hs|s s' t Hn|s c H0 Hc|s c Hc|s Hw|s c Hc|s Hd Hc|s s' Hd Hn|s Hd Hw].
  - exact (worker_step_Awake s s' Hsz Hs HA).
  - destruct HA as [H1 H2 H3]. eapply Awake_notify; [exact Hn|..]; cbn; try done.
    + intros Hw. by destruct (H1 Hw) as (_ & _ & ?).
    + intros c _. by destruct (jobs s).
  - destruct HA as [H1 H2 H3]. constructor; cbn; [|intros c'|done].
    + intros Hw. destruct (H1 Hw) as (? & ? & Hb). split_and!; [done|done|].
      intros c'. rewrite lookup_insert. by case_decide.
    + rewrite lookup_insert. case_decide; [done|apply H2].
  - destruct HA as [H1 H2 H3]. unfold waiter_check. destruct (jobs s) as [|t ts] eqn:Hj; constructor; cbn; rewrite ?Hj; try done.
    + intros Hw. destruct (H1 Hw) as (? & ? & Hb). split_and!; [done|done|].
      intros c'. rewrite lookup_delete. by case_decide.
    + intros c'. rewrite lookup_delete. case_decide; [done|]. intros Hb. by apply (H2 c').
    + intros Hw. by destruct (H1 Hw).
  - destruct HA as [H1 H2 H3]. by constructor.
  - destruct HA as [H1 H2 H3]. constructor; cbn; [|intros c'|done].
    + intros Hw. destruct (H1 Hw) as (_ & _ & Hb). by destruct (Hb c).
    + rewrite lookup_insert. case_decide; [done|apply H2].
  - destruct HA as [H1 H2 H3]. constructor; cbn; [|intros c'|done].
    + intros Hw. destruct (H1 Hw) as (? & ? & Hb). split_and!; [done|done|].
      intros c'. rewrite lookup_insert. by case_decide.
    + rewrite lookup_insert. case_decide; [done|apply H2].
  - destruct HA as [H1 H2 H3]. eapply Awake_notify; [exact Hn|..]; cbn; try done.
    + intros Hw. by destruct (H1 Hw) as (_ & _ & ?).
    + intros c Hc. apply (H2 c). by eapply (waiters_notify (set_close s)).
  - destruct HA as [H1 H2 H3]. by constructor.
Qed.

Lemma single_reachable s :
  rtc single_step init s -> Inv s /\ Awake s /\ size (waiters s) <= 1.
Proof.
  intros Hr. apply (rtc_invariant single_step (fun s => Inv s /\ Awake s /\ size (waiters s) <= 1) init); [| |done].
  - intros a b Hab (HI & HA & Hsz). split_and!; [eapply step_Inv; [apply Hab|done]| |apply Hab].
    by eapply single_step_Awake.
  - split_and!; [apply init_Inv| |cbn; rewrite map_size_empty; lia]. constructor; cbn; try done.
Qed.

(** A notification is always possible. *)
Lemma notify_exists s : exists s', notify_one s s'.
Proof.
  destruct (decide (worker s = WBlocked)) as [Hw|Hw]; [eexists; by apply notify_worker|].
  destruct (decide (map_Exists (fun _ x => x = CBlocked) (waiters s))) as [(c & x & Hc & ->)|Hn].
  - eexists. by apply notify_waiter with (c := c).
  - exists s. apply notify_nobody. split; [done|]. intros c Hc. apply Hn. by exists c, CBlocked.
Qed.

Lemma notify_size s s' : notify_one s s' -> size (waiters s') = size (waiters s).
Proof. destruct 1; cbn; [done|done|]. by rewrite map_size_insert_Some by eauto. Qed.

(** The threads running on their own, with no new call, no spurious wake-up and
    the destructor not yet past its [wait]. *)
Inductive own_step : relation State :=
  | own_worker s s' : worker_step s s' -> own_step s s'
  | own_waiter s c : waiters s !! c = Some CReady -> own_step s (waiter_check c s).

(** Who is ready to run, and how far the worker is from its next test. *)
Definition ready_waiters (s : State) : nat := size (filter (fun x => x.2 = CReady) (waiters s)).

Definition worker_rank (w : WorkerPc) : nat :=
  match w with WReady => 3 | WRunning _ => 2 | WPopping => 1 | WBlocked | WDone => 0 end.

Definition own_measure (s : State) : nat :=
  8 * length (jobs s) + worker_rank (worker s) + ready_waiters s.

Lemma filter_ready_insert (ws : gmap N WaiterPc) c x :
  size (filter (fun x => x.2 = CReady) (<[c := x]> ws)) <= S (size (filter (fun x => x.2 = CReady) ws)).
Proof.
  rewrite map_filter_insert. case_decide.
  - rewrite map_size_insert. destruct (_ !! c); cbn; lia.
  - rewrite map_filter_delete, map_size_delete. destruct (_ !! c); cbn; lia.
Qed.

Lemma filter_ready_drop (ws ws' : gmap N WaiterPc) c :
  ws !! c = Some CReady -> ws' = delete c ws \/ ws' = <[c := CBlocked]> ws ->
  size (filter (fun x => x.2 = CReady) ws') < size (filter (fun x => x.2 = CReady) ws).
Proof.
  intros Hc Hws.
  assert (filter (fun x => x.2 = CReady) ws !! c = Some CReady) as Hf by (by apply map_lookup_filter_Some).
  assert (0 < size (filter (fun x => x.2 = CReady) ws)).
  { apply Nat.neq_0_lt_0. intros H0%map_size_empty_iff. rewrite H0 in Hf. by rewrite lookup_empty in Hf. }
  assert (filter (fun x => x.2 = CReady) ws' = delete c (filter (fun x => x.2 = CReady) ws)) as ->.
  { destruct Hws as [-> | ->]; [apply map_filter_delete|]. rewrite map_filter_insert_False by done.
    by rewrite map_filter_delete. }
  rewrite map_size_delete, Hf. cbn. lia.
Qed.

Lemma notify_ready s s' : notify_one s s' -> ready_waiters s' <= S (ready_waiters s).
Proof. destruct 1; unfold ready_waiters; cbn; [lia|lia|apply filter_ready_insert]. Qed.

Lemma own_step_measure s s' : Inv s -> own_step s s' -> own_measure s' < own_measure s.
Proof.
  intros HI Hs. destruct Hs as [s0 s1 Hw|s0 c Hc]; [destruct Hw as [s0 Hw|s0 t Hw|s0 s1 Hw Hn]|]; unfold own_measure.
  - rewrite Hw. unfold worker_check, ready_waiters. destruct (jobs s0) eqn:Hj, (close s0); cbn; rewrite Hj; cbn; lia.
  - rewrite Hw. unfold ready_waiters. cbn. lia.
  - pose proof (notify_ready _ _ Hn) as Hr. apply notify_one_frame in Hn as (Hj & _).
    pose proof (inv_popping _ HI Hw) as Hne. rewrite Hw. unfold ready_waiters in *. cbn in *.
    rewrite Hj. destruct (jobs s0); [done|]. cbn. lia.
  - assert (ready_waiters (waiter_check c s0) < ready_waiters s0) as Hr.
    { unfold waiter_check, ready_waiters. destruct (jobs s0); cbn; eapply filter_ready_drop; eauto. }
    unfold waiter_check in *. destruct (jobs s0) eqn:Hj; cbn in *; rewrite Hj; cbn; lia.
Qed.

(** [Thread::~Thread] is one of the threads inside [wait] until its own returns. *)
Definition dtor_waits (s : State) : Prop := dtor s = DWaiting -> is_Some (waiters s !! 0%N).

Lemma dtor_waits_notify s s' : notify_one s s' -> dtor_waits s -> dtor_waits s'.
Proof.
  destruct 1 as [s|s|s c Hc]; [done|done|]. unfold dtor_waits. cbn.
  intros H Hd. rewrite lookup_insert_is_Some. destruct (decide (c = 0%N)); [by left|right; auto].
Qed.

Lemma waiter_check_dtor s c : dtor_waits s -> dtor_waits (waiter_check c s).
Proof.
  unfold waiter_check, dtor_waits. destruct (jobs s); cbn; intros H.
  - case_decide as Hc; [done|]. intros Hd. specialize (H Hd).
    rewrite lookup_delete_ne; [done|]. intros ->. by apply Hc.
  - intros Hd. rewrite lookup_insert_is_Some. destruct (decide (c = 0%N)); [by left|right; auto].
Qed.

Lemma worker_step_dtor s s' : worker_step s s' -> dtor_waits s -> dtor_waits s'.
Proof.
  destruct 1 as [s Hw|s t Hw|s s' Hw Hn]; intros H.
  - unfold worker_check. by destruct (jobs s), (close s).
  - exact H.
  - exact (dtor_waits_notify _ _ Hn H).
Qed.

Lemma step_dtor_waits s s' : step s s' -> dtor_waits s -> dtor_waits s'.
Proof.
  destruct 1 as [s s' Hs|s s' t Hn|s c H0 Hc|s c Hc|s Hw|s c Hc|s Hd Hc|s s' Hd Hn|s Hd Hw]; intros H.
  - by eapply worker_step_dtor.
  - by eapply (dtor_waits_notify (push_task t s)).
  - intros Hd. cbn. rewrite lookup_insert_ne by done. by apply H.
  - by apply waiter_check_dtor.
  - exact H.
  - intros Hd. cbn. rewrite lookup_insert_is_Some. destruct (decide (c = 0%N)); [by left|right; split; [done|by apply H]].
  - intros _. cbn. rewrite lookup_insert_eq. by eexists.
  - eapply (dtor_waits_notify (set_close s)); [exact Hn|]. done.
  - done.
Qed.

Lemma reachable_dtor_waits s : rtc step init s -> dtor_waits s.
Proof. intros H. by eapply (rtc_invariant step dtor_waits); [apply step_dtor_waits| |exact H]. Qed.

Lemma waiter_check_size s c :
  waiters s !! c = Some CReady -> size (waiters (waiter_check c s)) <= size (waiters s).
Proof.
  intros Hc. unfold waiter_check. destruct (jobs s); cbn.
  - rewrite map_size_delete. destruct (_ !! c); cbn; lia.
  - by rewrite map_size_insert_Some.
Qed.

Lemma own_step_frame s s' :
  own_step s s' -> step s s' /\ size (waiters s') <= size (waiters s) /\ close s' = close s /\ added s' = added s.
Proof.
  intros [s0 s1 Hw|s0 c Hc].
  - split; [by apply step_worker|].
    destruct Hw as [s0 Hw|s0 t Hw|s0 s1 Hw Hn].
    + unfold worker_check. by destruct (jobs s0), (close s0) eqn:?.
    + done.
    + pose proof (notify_size _ _ Hn) as Hsz. apply notify_one_frame in Hn as (_ & Hcl & Ha & _).
      cbn in *. rewrite Hsz, Hcl, Ha. done.
  - split; [by apply step_waiter_check|]. split; [by apply waiter_check_size|].
    unfold waiter_check. by destruct (jobs s0).
Qed.

Lemma own_steps_frame s s' :
  rtc own_step s s' -> size (waiters s) <= 1 ->
  rtc single_step s s' /\ close s' = close s /\ added s' = added s.
Proof.
  induction 1 as [|s s1 s' Hs Hr IH]; intros Hsz; [done|].
  destruct (own_step_frame _ _ Hs) as (Hst & Hsz' & Hc & Ha).
  destruct IH as (Hr' & Hc' & Ha'); [lia|]. split; [|split; congruence].
  eapply rtc_l; [|exact Hr']. split; [done|lia].
Qed.

(** Left to themselves the threads come to rest. *)
Lemma own_step_sn s : rtc single_step init s -> sn own_step s.
Proof.
  remember (own_measure s) as n eqn:Hn. revert s Hn.
  induction (lt_wf n) as [n _ IH]. intros s -> Hr. constructor. intros s' Hs.
  destruct (single_reachable s Hr) as (HI & _ & Hsz). unfold flip in Hs.
  apply (IH (own_measure s')); [by apply own_step_measure|done|].
  eapply rtc_r; [exact Hr|]. destruct (own_step_frame _ _ Hs) as (? & ? & _). split; [done|lia].
Qed.

#[export] Instance own_red_dec s : Decision (red own_step s).
Proof.
  destruct (decide (map_Exists (fun _ x => x = CReady) (waiters s))) as [He|Hn].
  { left. destruct He as (c & x & Hc & ->). eexists. by apply (own_waiter s c). }
  destruct (worker s) as [| |t| |] eqn:Hw.
  - left. eexists. by apply own_worker, step_check.
  - right. intros [s' Hs]. inversion Hs as [? ? Hws|? c Hc]; [inversion Hws; congruence|subst]. apply Hn. by exists c, CReady.
  - left. eexists. by apply own_worker, (step_exec s t).
  - left. destruct (notify_exists (with_jobs (tail (jobs s)) s)) as [s' Hs].
    eexists. apply own_worker. by eapply step_pop.
  - right. intros [s' Hs]. inversion Hs as [? ? Hws|? c Hc]; [inversion Hws; congruence|subst]. apply Hn. by exists c, CReady.
Defined.

Lemma sn_reaches_nf s : sn own_step s -> exists s', rtc own_step s s' /\ nf own_step s'.
Proof.
  induction 1 as [s _ IH]. destruct (decide (red own_step s)) as [[s1 H1]|Hn].
  - destruct (IH s1 H1) as (s' & Hr & Hnf). exists s'. split; [by eapply rtc_l|done].
  - by exists s.
Qed.

(** At rest, on an open thread, the worker sleeps and nobody is in [wait]. *)
Lemma at_rest s :
  rtc single_step init s -> close s = false -> nf own_step s ->
  jobs s = [] /\ processed s = added s /\ waiters s = ∅ /\ worker s = WBlocked.
Proof.
  intros Hr Hc Hnf. destruct (single_reachable s Hr) as (HI & HA & Hsz).
  assert (worker s = WBlocked) as Hw.
  { destruct (worker s) as [| |t| |] eqn:Hw; [|done|..]; [destruct Hnf..|].
    - eexists. by apply own_worker, step_check.
    - eexists. by apply own_worker, (step_exec s t).
    - destruct (notify_exists (with_jobs (tail (jobs s)) s)) as [s' Hs].
      eexists. apply own_worker. by eapply step_pop.
    - apply (aw_done _ HA) in Hw. congruence. }
  destruct (aw_worker _ HA Hw) as (Hj & _ & Hb). split_and!; [done| | |done].
  - destruct HI as [H1 _ _]. unfold pending in H1. by rewrite Hw, Hj, app_nil_r in H1.
  - apply map_eq. intros c. rewrite lookup_empty. destruct (waiters s !! c) as [[|]|] eqn:Hwc; [|by destruct (Hb c)|done].
    destruct Hnf. eexists. by apply (own_waiter s c).
Qed.

(** ** Properties *)

(** Tasks run in the order they were added, each exactly once, and when a thread
    inside [wait] finds no job and returns, every task added so far has run. *)
Theorem tasks_fifo s :
  rtc step init s ->
  added s = processed s ++ pending s
  /\ (forall c, waiters s !! c = Some CReady -> waiters (waiter_check c s) !! c = None ->
        processed s = added s).
Proof.
  intros Hr. destruct (reachable_Inv s Hr) as [H1 H2 H3]. split; [done|].
  intros c Hc. unfold waiter_check. destruct (jobs s) as [|t ts] eqn:Hj; cbn.
  - intros _. rewrite H1. unfold pending. rewrite Hj. by destruct (worker s); rewrite app_nil_r.
  - by rewrite lookup_insert_eq.
Qed.

(** C32. With at most one thread in [wait] at a time no wake-up is lost, as long
    as the thread is not closed: a worker is never left asleep while there are
    jobs; left to themselves the worker and the waiting thread come to rest
    whatever their order; and wherever they rest every task that was added has
    run, the thread in [wait] (the destructor included) has returned, and the
    worker sleeps. *)
Theorem single_waiter_progress s :
  rtc single_step init s -> close s = false ->
  (worker s = WBlocked -> jobs s = [])
  /\ sn own_step s
  /\ (exists s', rtc own_step s s' /\ nf own_step s')
  /\ forall s', rtc own_step s s' -> nf own_step s' ->
       jobs s' = [] /\ processed s' = added s /\ waiters s' = ∅ /\ dtor s' <> DWaiting
       /\ worker s' = WBlocked.
Proof.
  intros Hr Hc. destruct (single_reachable s Hr) as (HI & HA & Hsz).
  split; [intros Hw; by destruct (aw_worker _ HA Hw)|].
  pose proof (own_step_sn s Hr) as Hsn. split; [done|]. split; [by apply sn_reaches_nf|].
  intros s' Hs' Hnf. destruct (own_steps_frame _ _ Hs' Hsz) as (Hr' & Hc' & Ha').
  assert (rtc single_step init s') as Hr2 by (by etrans).
  destruct (at_rest s' Hr2) as (Hj & Hp & Hws & Hw); [by rewrite Hc'|done|].
  split_and!; [done|by rewrite Hp|done| |done].
  intros Hd. assert (rtc step init s') as Hs2 by (eapply rtc_subrel; [|exact Hr2]; intros a b Hab; apply Hab).
  pose proof (reachable_dtor_waits _ Hs2 Hd) as [x Hx]. rewrite Hws in Hx. by rewrite lookup_empty in Hx.
Qed.

(** The stuck states: there are jobs, and nobody is awake to take them. *)
Definition stuck (s : State) : Prop :=
  jobs s <> [] /\ close s = false /\ worker s = WBlocked
  /\ waiters s <> ∅ /\ map_Forall (fun _ x => x = CBlocked) (waiters s).

(** Two threads in [wait] can take the notifications meant for each other and
    for the worker: a reachable state has a job and everybody asleep, and no
    step but a new call or a spurious wake-up leaves it. *)
Theorem two_waiters_lost_wakeup :
  exists s, rtc step init s /\ stuck s
    /\ (forall s', ~ worker_step s s')
    /\ (forall c, waiters s !! c <> Some CReady).
Proof.
  set (t := mkTask (Some 1%N) None false).
  set (s1 := push_task t init).
  set (s2 := worker_check s1).
  set (s3 := with_waiters (<[1%N := CReady]> (waiters s2)) s2).
  set (s4 := with_waiters (<[2%N := CReady]> (waiters s3)) s3).
  set (s5 := waiter_check 1 s4).
  set (s6 := waiter_check 2 s5).
  set (s7 := worker_exec t s6).
  set (s8 := with_jobs (tail (jobs s7)) s7).
  set (s9 := with_worker WReady (with_waiters (<[1%N := CReady]> (waiters s8)) s8)).
  set (s10 := worker_check s9).
  set (s11 := waiter_check 1 s10).
  set (s12 := push_task t s11).
  set (s13 := with_waiters (<[2%N := CReady]> (waiters s12)) s12).
  set (s14 := waiter_check 2 s13).
  exists s14. split_and!.
  - eapply rtc_l; [apply (step_add init s1 t), notify_nobody; split; [done|intros c; cbn; by rewrite lookup_empty]|].
    eapply rtc_l; [apply step_worker, step_check; done|]. fold s2.
    eapply rtc_l; [apply (step_wait s2 1); done|]. fold s3.
    eapply rtc_l; [apply (step_wait s3 2); done|]. fold s4.
    eapply rtc_l; [apply (step_waiter_check s4 1); done|]. fold s5.
    eapply rtc_l; [apply (step_waiter_check s5 2); done|]. fold s6.
    eapply rtc_l; [apply step_worker, (step_exec s6 t); done|]. fold s7.
    eapply rtc_l; [apply step_worker, (step_pop s7 (with_waiters (<[1%N := CReady]> (waiters s8)) s8)); [done|];
                   by apply (notify_waiter s8 1)|]. fold s9.
    eapply rtc_l; [apply step_worker, (step_check s9); done|]. fold s10.
    eapply rtc_l; [apply (step_waiter_check s10 1); done|]. fold s11.
    eapply rtc_l; [apply (step_add s11 s13 t); by apply (notify_waiter s12 2)|].
    apply rtc_once. by apply (step_waiter_check s13 2).
  - split_and!; [done|done|done|by intros H%(f_equal (fun m : gmap N WaiterPc => m !! 2%N))|].
    by apply (bool_decide_unpack _).
  - intros s' Hs. inversion Hs as [s Hw|s t' Hw|s s0 Hw Hn]; subst; done.
  - intros c Hc. assert (map_Forall (fun _ x => x = CBlocked) (waiters s14)) as HF by (by apply (bool_decide_unpack _)).
    by specialize (HF c CReady Hc).
Qed.

Definition demo_task : Task := mkTask (Some 1%N) (Some 9%N) false.

Lemma demo_reachable_add : rtc single_step init (push_task demo_task init).
Proof.
  apply rtc_once. split; [|by vm_compute; lia]. apply (step_add init _ demo_task), notify_nobody.
  split; [done|]. intros c. cbn. by rewrite lookup_empty.
Qed.

Lemma tasks_fifo_witness :
  added (push_task demo_task init)
    = processed (push_task demo_task init) ++ pending (push_task demo_task init).
Proof.
  apply tasks_fifo. eapply rtc_subrel; [|exact demo_reachable_add]. intros a b [H _]. exact H.
Defined.

(** One thread waits while a task is pending. *)
Definition demo_waiting : State :=
  with_waiters (<[1%N := CReady]> (waiters (push_task demo_task init))) (push_task demo_task init).

Lemma demo_reachable_waiting : rtc single_step init demo_waiting.
Proof.
  eapply rtc_r; [exact demo_reachable_add|]. split; [|by vm_compute; lia]. by apply (step_wait _ 1).
Qed.

Lemma single_waiter_progress_witness :
  exists s', rtc own_step demo_waiting s' /\ processed s' = [demo_task] /\ waiters s' = ∅.
Proof.
  destruct (single_waiter_progress _ demo_reachable_waiting eq_refl) as (_ & _ & (s' & Hr & Hnf) & H).
  exists s'. destruct (H s' Hr Hnf) as (_ & Hp & Hw & _). exact (conj Hr (conj Hp Hw)).
Defined.

End Thread.

(** ** class ThreadPool *)

Module ThreadPool.
Import Thread.

Definition INT32_MAX : Z := 2147483647%Z.

(** [ThreadPool(count)]. *)
Definition create (count : Z) : list State := replicate (Z.to_nat count) init.

(** The loop of [addTask] that looks for the shortest list, with its early exit. *)
Fixpoint pick_loop (sizes : list Z) (i minLen minIndex : Z) : Z :=
  match sizes with
  | [] => minIndex
  | len :: rest =>
      if decide (minLen > len)%Z then
        if decide (len = 0)%Z then i else pick_loop rest (i + 1) len i
      else pick_loop rest (i + 1) minLen minIndex
  end.

(** The thread [addTask] chooses, given the sizes it read; index -1 is outside
    the vector. *)
Definition choose_thread (sizes : list Z) (threadIndex : Z) : outcome nat :=
  if decide (0 <= threadIndex < Z.of_nat (length sizes))%Z then Ret (Z.to_nat threadIndex)
  else
    let minIndex := pick_loop sizes 0 INT32_MAX (-1) in
    if decide (0 <= minIndex)%Z then Ret (Z.to_nat minIndex) else Exn OutOfBounds.

(** [addTask]: one step of the pool, in which the chosen thread gets the task. *)
Definition pool_addTask (threads : list State) (t : Task) (threadIndex : Z) (threads' : list State) : Prop :=
  exists k s s', choose_thread (getTaskSize <$> threads) threadIndex = Ret k
    /\ threads !! k = Some s
    /\ notify_one (push_task t s) s'
    /\ threads' = <[k := s']> threads.

Lemma pick_loop_spec sizes i minLen minIndex :
  (0 <= i)%Z -> Forall (fun x => 0 <= x)%Z sizes -> (0 < minLen)%Z ->
  let r := pick_loop sizes i minLen minIndex in
  (r = minIndex /\ Forall (fun x => minLen <= x)%Z sizes)
  \/ (exists k x, r = (i + Z.of_nat k)%Z /\ sizes !! k = Some x /\ (x < minLen)%Z
        /\ Forall (fun y => x <= y)%Z sizes
        /\ forall j y, sizes !! j = Some y -> j < k -> (x < y)%Z).
Proof.
  intros Hi Hs. revert i minLen minIndex Hi. induction Hs as [|len rest Hlen Hs IH]; intros i minLen minIndex Hi Hm; cbn.
  { by left. }
  case_decide as Hgt.
  - right. case_decide as H0.
    + subst. exists 0, 0%Z. split_and!; [lia|done|lia|constructor; [lia|done]|intros; lia].
    + destruct (IH (i + 1)%Z len i ltac:(lia) ltac:(lia)) as [[-> HF]|(k & x & -> & Hk & Hx & HF & Hfirst)].
      * exists 0, len. split_and!; [lia|done|lia|by constructor|intros; lia].
      * exists (S k), x. split_and!; [lia|done|lia|constructor; [lia|done]|].
        intros [|j] y Hj Hjk; simplify_eq/=; [lia|]. apply (Hfirst j); [done|lia].
  - destruct (IH (i + 1)%Z minLen minIndex ltac:(lia) Hm) as [[-> HF]|(k & x & -> & Hk & Hx & HF & Hfirst)].
    + left. split; [done|]. constructor; [lia|done].
    + right. exists (S k), x. split_and!; [lia|done|lia|constructor; [lia|done]|].
      intros [|j] y Hj Hjk; simplify_eq/=; [lia|]. apply (Hfirst j); [done|lia].
Qed.

(** A valid index is used as it is; otherwise the task goes to the first of the
    threads with the fewest tasks, and an empty pool has no thread to choose. *)
Theorem choose_thread_spec (sizes : list Z) (threadIndex : Z) :
  Forall (fun x => 0 <= x < INT32_MAX)%Z sizes ->
  (forall k, choose_thread sizes threadIndex = Ret k ->
     exists x, sizes !! k = Some x
       /\ (Z.of_nat k = threadIndex
           \/ (~ (0 <= threadIndex < Z.of_nat (length sizes))%Z
               /\ Forall (fun y => x <= y)%Z sizes
               /\ forall j y, sizes !! j = Some y -> j < k -> (x < y)%Z)))
  /\ (forall e, choose_thread sizes threadIndex = Exn e -> e = OutOfBounds /\ sizes = []).
Proof.
  intros Hs. unfold choose_thread. case_decide as Hidx.
  - split; [|done]. intros k [= <-].
    destruct (lookup_lt_is_Some_2 sizes (Z.to_nat threadIndex)) as [x Hx]; [lia|].
    exists x. split; [done|]. left. lia.
  - assert (Forall (fun x => 0 <= x)%Z sizes) as Hpos by (eapply Forall_impl; [exact Hs|]; cbn; lia).
    destruct (pick_loop_spec sizes 0 INT32_MAX (-1) ltac:(lia) Hpos ltac:(done))
      as [[-> HF]|(k & x & -> & Hk & Hx & HF & Hfirst)].
    + rewrite decide_False by lia. split; [done|]. intros e [= <-]. split; [done|].
      destruct sizes as [|y sizes]; [done|]. rewrite Forall_cons in Hs, HF. lia.
    + rewrite decide_True by lia. split; [|done]. intros k' [= <-].
      replace (Z.to_nat (0 + Z.of_nat k)) with k by lia. exists x. split; [done|]. by right.
Qed.

Lemma choose_thread_spec_witness :
  Forall (fun x => 0 <= x < INT32_MAX)%Z [3; 1; 2; 1]%Z
  /\ (forall e, choose_thread [3; 1; 2; 1]%Z (-1) = Exn e -> e = OutOfBounds /\ [3; 1; 2; 1]%Z = []).
Proof.
  assert (Forall (fun x => 0 <= x < INT32_MAX)%Z [3; 1; 2; 1]%Z) as H by (apply (bool_decide_unpack _); by vm_compute).
  split; [exact H|]. exact (proj2 (choose_thread_spec _ (-1) H)).
Defined.

Example choose_first_shortest : choose_thread [3; 1; 2; 1]%Z (-1) = Ret 1.
Proof. reflexivity. Qed.
End ThreadPool.
