(* ===== verification/Hierarchy.v ===== *)
(** * Hierarchy: the entity tree of a scene

    Models [Scene/Component/Component.*] (the [Hierarchy] component and its
    registry callbacks) and [Scene/Entity/Entity.*].  The children of an entity
    form a doubly linked list threaded through the [Hierarchy] components.
    [Rep R kids] says that the links of the registry [R] represent the forest
    whose children lists are [kids]; the operations are proved against it. *)

From S2P Require Import Prelude Strings.
From stdpp Require Import base decidable list sets gmap relations strings.
From Stdlib Require Import ZArith Lia.

Abbreviation entity := N.

(** ** The registry

    The part of the [entt] registry the entity tree uses: the live handles and
    the pools of three components.  [entt::null] is [None]; an operation on a
    handle that is not alive is undefined in [entt] and ends in [NullDeref]. *)
Module Registry.

Record Hierarchy := mkHierarchy {
  parent : option entity;
  first : option entity;
  next : option entity;
  prev : option entity
}.

#[export] Instance Hierarchy_eq_dec : EqDecision Hierarchy.
Proof. solve_decision. Defined.

Record Registry := mkRegistry {
  alive : gset entity;
  hier : gmap entity Hierarchy;
  names : gmap entity cstring;     (* NameComponent *)
  actives : gmap entity bool       (* ActiveComponent *)
}.

Definition empty : Registry := mkRegistry ∅ ∅ ∅ ∅.

Definition with_hier (m : gmap entity Hierarchy) (R : Registry) : Registry :=
  mkRegistry (alive R) m (names R) (actives R).

(** [registry.valid]: [entt::null] is not valid. *)
Definition valid (R : Registry) (e : option entity) : bool :=
  match e with Some x => bool_decide (x ∈ alive R) | None => false end.

(** [registry.get<Hierarchy>] and [registry.try_get<Hierarchy>]. *)
Definition get (R : Registry) (e : entity) : outcome Hierarchy := deref (hier R !! e).
Definition try_get (R : Registry) (e : option entity) : option Hierarchy := e ≫= fun x => hier R !! x.

(** Assignments through a pointer returned by [try_get]: nothing happens when
    the source tests the pointer and it is null. *)
Definition upd (f : Hierarchy -> Hierarchy) (e : option entity) (R : Registry) : Registry :=
  match e with Some x => with_hier (alter f x (hier R)) R | None => R end.

Definition set_parent (v : option entity) (h : Hierarchy) := mkHierarchy v (first h) (next h) (prev h).
Definition set_first (v : option entity) (h : Hierarchy) := mkHierarchy (parent h) v (next h) (prev h).
Definition set_next (v : option entity) (h : Hierarchy) := mkHierarchy (parent h) (first h) v (prev h).
Definition set_prev (v : option entity) (h : Hierarchy) := mkHierarchy (parent h) (first h) (next h) v.

#[global] Arguments upd : simpl never.

(** Lookups after an assignment through a pointer. *)
Lemma upd_lookup f o R c : hier (upd f o R) !! c = if decide (o = Some c) then f <$> hier R !! c else hier R !! c.
Proof.
  destruct o as [x|]; unfold upd; cbn; [|by rewrite decide_False].
  destruct (decide (x = c)) as [->|Hx].
  - by rewrite lookup_alter_eq, decide_True.
  - by rewrite lookup_alter_ne, decide_False by congruence.
Qed.

Lemma valid_alive R e : e ∈ alive R -> valid R (Some e) = true.
Proof. intros. by apply bool_decide_eq_true_2. Qed.

Lemma upd_alive f o R : alive (upd f o R) = alive R.
Proof. by destruct o. Qed.
Lemma upd_dom f o R : dom (hier (upd f o R)) = dom (hier R).
Proof. unfold upd. destruct o; [cbn; apply dom_alter_L|done]. Qed.
Lemma upd_names f o R : names (upd f o R) = names R.
Proof. by destruct o. Qed.
Lemma upd_actives f o R : actives (upd f o R) = actives R.
Proof. by destruct o. Qed.

End Registry.
Import Registry.

(** ** The Hierarchy component (Component.cpp) *)
Module Hierarchy.

(** The two constructors. *)
Definition make (p : option entity) : Hierarchy := mkHierarchy p None None None.
Definition make_default : Hierarchy := mkHierarchy None None None None.

(** [rhs] is compared with the fields of [h]; the recursion goes to the parent
    of [h] and asks about that parent itself. *)
Fixpoint compare (fuel : nat) (R : Registry) (h : Hierarchy) (rhs : option entity) : outcome bool :=
  match fuel with
  | O => Exn OutOfFuel
  | S fuel =>
      if bool_decide (rhs = None \/ rhs = parent h \/ rhs = prev h) then Ret true
      else match parent h, rhs with
           | None, _ => Ret false
           | Some p, Some r =>
               thisParent ← get R p;
               _ ← get R r;
               compare fuel R thisParent (Some p)
           | Some _, None => Ret true
           end
  end.

Definition reset (h : Hierarchy) : Hierarchy := make_default.

(** The loop of [onConstruct]: the last sibling, from [prevEnt] on. *)
Fixpoint last_sibling (fuel : nat) (R : Registry) (prevEnt : entity) : outcome entity :=
  match fuel with
  | O => Exn OutOfFuel
  | S fuel =>
      match hier R !! prevEnt with
      | None => Exn NullDeref
      | Some currentHierarchy =>
          match next currentHierarchy with
          | None => Ret prevEnt
          | Some n => if bool_decide (is_Some (hier R !! n)) then last_sibling fuel R n else Exn NullDeref
          end
      end
  end.

(** More steps than there are components: every chain is shorter. *)
Definition fuel (R : Registry) : nat := S (size (hier R)).

(** [registry.get_or_emplace<Hierarchy>(p)]: the new component has no parent,
    so its own construction callback does nothing. *)
Definition get_or_emplace (p : entity) (R : Registry) : outcome Registry :=
  if bool_decide (p ∈ alive R) then
    match hier R !! p with
    | Some _ => Ret R
    | None => Ret (with_hier (<[p := make_default]> (hier R)) R)
    end
  else Exn NullDeref.

Definition onConstruct (e : entity) (R : Registry) : outcome Registry :=
  hierarchy ← get R e;
  match parent hierarchy with
  | None => Ret R
  | Some p =>
      R ← get_or_emplace p R;
      parentHierarchy ← get R p;
      match first parentHierarchy with
      | None => Ret (upd (set_first (Some e)) (Some p) R)
      | Some prevEnt =>
          l ← last_sibling (fuel R) R prevEnt;
          let R := upd (set_next (Some e)) (Some l) R in
          Ret (upd (set_prev (Some l)) (Some e) R)
      end
  end.

Definition onDestroy (e : entity) (R : Registry) : outcome Registry :=
  h ← get R e;
  Ret (if bool_decide (prev h = None) || negb (valid R (prev h)) then
         if bool_decide (parent h ≠ None) && valid R (parent h) then
           match try_get R (parent h) with
           | Some _ => upd (set_prev None) (next h) (upd (set_first (next h)) (parent h) R)
           | None => R
           end
         else R
       else
         upd (set_prev (prev h)) (next h) (upd (set_next (next h)) (prev h) R)).

(** The same without the validity tests. *)
Definition onUpdate (e : entity) (R : Registry) : outcome Registry :=
  h ← get R e;
  Ret (if bool_decide (prev h = None) then
         match try_get R (parent h) with
         | Some _ => upd (set_prev None) (next h) (upd (set_first (next h)) (parent h) R)
         | None => R
         end
       else
         upd (set_prev (prev h)) (next h) (upd (set_next (next h)) (prev h) R)).

Definition clear_links (h : Hierarchy) : Hierarchy := set_prev None (set_next None (set_parent None h)).

Definition reparent (e : entity) (p : option entity) (R : Registry) : outcome Registry :=
  R ← onDestroy e R;
  let R := upd clear_links (Some e) R in
  match p with
  | None => Ret R
  | Some _ => onConstruct e (upd (set_parent p) (Some e) R)
  end.

End Hierarchy.

(** ** Entities (Entity.cpp)

    An [Entity] is a handle and a pointer to its scene; there is one scene, so
    the pointer is a flag telling whether it is set. *)
Module Entity.
Import Hierarchy.

Record Entity := mkEntity { entityHandle : option entity; scene : bool }.

#[export] Instance Entity_eq_dec : EqDecision Entity.
Proof. solve_decision. Defined.

Definition null : Entity := mkEntity None false.

(** [scene->getRegistry()]. *)
Definition getRegistry (x : Entity) (R : Registry) : outcome Registry :=
  if scene x then Ret R else Exn NullDeref.

Definition valid (x : Entity) (R : Registry) : bool := scene x && Registry.valid R (entityHandle x).

(** [registry.emplace<Hierarchy>(e, p)], which then runs [onConstruct]. *)
Definition emplace_hierarchy (e : entity) (p : option entity) (R : Registry) : outcome Registry :=
  if bool_decide (e ∈ alive R) then
    onConstruct e (with_hier (<[e := make p]> (hier R)) R)
  else Exn NullDeref.

Fixpoint isParent_loop (fuel : nat) (R : Registry) (par : option entity) (h : option entity) : outcome bool :=
  match fuel with
  | O => Exn OutOfFuel
  | S fuel =>
      match par with
      | None => Ret false
      | Some x =>
          if bool_decide (Some x = h) then Ret true
          else isParent_loop fuel R (try_get R (Some x) ≫= parent) h
      end
  end.

Definition isParent (x potentialParent : Entity) (R : Registry) : outcome bool :=
  R ← getRegistry x R;
  match try_get R (entityHandle x) with
  | Some h => isParent_loop (S (fuel R)) R (parent h) (entityHandle potentialParent)
  | None => Ret false
  end.

Definition setParent (x y : Entity) (R : Registry) : outcome Registry :=
  R ← getRegistry x R;
  let hierarchyComponent := try_get R (entityHandle x) in
  acceptable ←
    match hierarchyComponent with
    | Some h =>
        if bool_decide (entityHandle y ≠ entityHandle x) then
          b ← isParent y x R;
          Ret (negb b && bool_decide (parent h ≠ entityHandle x))
        else Ret false
    | None => Ret (bool_decide (entityHandle y ≠ entityHandle x))
    end;
  if acceptable : bool then
    e ← deref (entityHandle x);
    match hierarchyComponent with
    | Some _ => reparent e (entityHandle y) R
    | None => emplace_hierarchy e (entityHandle y) R
    end
  else Ret R.

Definition getParent (x : Entity) (R : Registry) : outcome Entity :=
  R ← getRegistry x R;
  Ret match try_get R (entityHandle x) with
      | Some h => mkEntity (parent h) (scene x)
      | None => null
      end.

(** The loop of [getChildren]; a live child without the component keeps the
    loop on the same handle. *)
Fixpoint children_loop (fuel : nat) (R : Registry) (child : option entity) : outcome (list entity) :=
  match fuel with
  | O => Exn OutOfFuel
  | S fuel =>
      match child with
      | None => Ret []
      | Some c =>
          if Registry.valid R (Some c) then
            let child' := match hier R !! c with Some h => next h | None => Some c end in
            rest ← children_loop fuel R child';
            Ret (c :: rest)
          else Ret []
      end
  end.

Definition getChildren (x : Entity) (R : Registry) : outcome (list Entity) :=
  R ← getRegistry x R;
  match try_get R (entityHandle x) with
  | Some h => l ← children_loop (fuel R) R (first h); Ret ((fun c => mkEntity (Some c) (scene x)) <$> l)
  | None => Ret []
  end.

(** [hasComponent<ActiveComponent>] and the component's flag. *)
Definition isActive (x : Entity) (R : Registry) : outcome bool :=
  R ← getRegistry x R;
  Ret match entityHandle x ≫= fun e => actives R !! e with Some a => a | None => true end.

Definition setActive (x : Entity) (a : bool) (R : Registry) : outcome Registry :=
  R ← getRegistry x R;
  e ← deref (entityHandle x);
  if bool_decide (e ∈ alive R) then
    Ret (mkRegistry (alive R) (hier R) (names R) (<[e := a]> (actives R)))
  else Exn NullDeref.

(** [getComponent<NameComponent>().name]. *)
Definition getName (x : Entity) (R : Registry) : outcome cstring :=
  deref (entityHandle x ≫= fun e => names R !! e).

Fixpoint find_named (name : cstring) (l : list Entity) (R : Registry) : outcome (option Entity) :=
  match l with
  | [] => Ret None
  | c :: l =>
      n ← getName c R;
      if bool_decide (name = n) then Ret (Some c) else find_named name l R
  end.

(** The loop of [findByPath] over the layers of the path. *)
Fixpoint path_loop (layers : list cstring) (self : Entity) (children : list Entity) (ent : Entity)
    (R : Registry) : outcome Entity :=
  match layers with
  | [] => Ret ent
  | layer :: layers =>
      if bool_decide (layer = str ".."%string) then
        up ← getParent self R;
        path_loop layers self children up R
      else
        found ← find_named layer children R;
        match found with
        | Some c =>
            children ← getChildren c R;
            path_loop layers self children c R
        | None => path_loop layers self children ent R
        end
  end.

Definition findByPath (x : Entity) (path : cstring) (R : Registry) : outcome Entity :=
  if bool_decide (path = []) then Ret null
  else
    layers ← StringUtils.split_str path (str "/"%string);
    children ← getChildren x R;
    path_loop layers x children null R.

(** Depth-first search by name: the loop over the children, and the recursive
    function; [fuel] bounds the depth of the recursion. *)
Fixpoint search_children (inChildren : Entity -> outcome Entity) (name : cstring) (l : list Entity)
    (R : Registry) : outcome Entity :=
  match l with
  | [] => Ret null
  | c :: l =>
      n ← getName c R;
      if bool_decide (name = n) then Ret c
      else
        r ← inChildren c;
        if valid r R then Ret r else search_children inChildren name l R
  end.

Fixpoint getChildInChildren (fuel : nat) (x : Entity) (name : cstring) (R : Registry) : outcome Entity :=
  match fuel with
  | O => Exn OutOfFuel
  | S fuel =>
      children ← getChildren x R;
      search_children (fun c => getChildInChildren fuel c name R) name children R
  end.

(** [tryGetComponentFromParent] for a component with the pool [pool]. *)
Fixpoint component_loop {T} (fuel : nat) (pool : gmap entity T) (par : Entity) (R : Registry) : outcome (option T) :=
  match fuel with
  | O => Exn OutOfFuel
  | S fuel =>
      if valid par R then
        match entityHandle par ≫= fun e => pool !! e with
        | Some t => Ret (Some t)
        | None => up ← getParent par R; component_loop fuel pool up R
        end
      else Ret None
  end.

Definition tryGetComponentFromParent {T} (pool : gmap entity T) (x : Entity) (R : Registry) : outcome (option T) :=
  R ← getRegistry x R;
  match entityHandle x ≫= fun e => pool !! e with
  | Some t => Ret (Some t)
  | None => up ← getParent x R; component_loop (S (fuel R)) pool up R
  end.

(** [registry.destroy]: the [Hierarchy] callback runs, then every component of
    the handle and the handle itself go. *)
Definition destroy_handle (e : entity) (R : Registry) : outcome Registry :=
  if bool_decide (e ∈ alive R) then
    R ← match hier R !! e with Some _ => onDestroy e R | None => Ret R end;
    Ret (mkRegistry (alive R ∖ {[e]}) (delete e (hier R)) (delete e (names R)) (delete e (actives R)))
  else Exn NullDeref.

Definition destroy (x : Entity) (R : Registry) : outcome Registry :=
  R ← getRegistry x R;
  e ← deref (entityHandle x);
  destroy_handle e R.

End Entity.

(** ** Neighbours in a list of siblings *)
Section Siblings.
Implicit Types l : list entity.

Fixpoint next_in l (c : entity) : option entity :=
  match l with [] => None | x :: l => if decide (x = c) then head l else next_in l c end.

Fixpoint prev_from (acc : option entity) l (c : entity) : option entity :=
  match l with [] => None | x :: l => if decide (x = c) then acc else prev_from (Some x) l c end.

Definition prev_in := prev_from None.

Lemma next_in_middle l1 l2 c : c ∉ l1 -> next_in (l1 ++ c :: l2) c = head l2.
Proof. induction l1; cbn; intros Hc; case_decide; set_solver. Qed.

Lemma prev_from_middle acc l1 l2 c :
  c ∉ l1 -> prev_from acc (l1 ++ c :: l2) c = match last l1 with Some x => Some x | None => acc end.
Proof.
  revert acc. induction l1 as [|x l1 IH]; intros acc Hc; [cbn; by rewrite decide_True by done|].
  cbn [prev_from app]. rewrite decide_False by set_solver. rewrite IH by set_solver.
  rewrite last_cons. by destruct (last l1).
Qed.

Lemma prev_in_middle l1 l2 c : c ∉ l1 -> prev_in (l1 ++ c :: l2) c = last l1.
Proof. intros. unfold prev_in. rewrite prev_from_middle by done. by destruct (last l1). Qed.

(** Both neighbours, read off any decomposition around [c]. *)
Lemma in_split_nodup l c : NoDup l -> c ∈ l ->
  exists l1 l2, l = l1 ++ c :: l2 /\ c ∉ l1 /\ c ∉ l2.
Proof.
  intros Hnd Hc. apply list_elem_of_split in Hc as (l1 & l2 & ->).
  exists l1, l2. split; [done|]. by apply NoDup_middle.
Qed.

Lemma next_in_app_l l1 l2 c : c ∈ l1 -> NoDup l1 ->
  next_in (l1 ++ l2) c = if decide (last l1 = Some c) then head l2 else next_in l1 c.
Proof.
  intros Hc Hnd. destruct (in_split_nodup _ _ Hnd Hc) as (a & b & -> & Ha & Hb).
  rewrite <- app_assoc. cbn. rewrite !next_in_middle, last_app_cons by done.
  destruct b as [|y b]; [by rewrite decide_True|]. rewrite decide_False; [done|].
  intros H. rewrite last_cons_cons in H. by apply last_Some_elem in H.
Qed.

Lemma next_in_app_r l1 l2 c : c ∉ l1 -> next_in (l1 ++ l2) c = next_in l2 c.
Proof. induction l1; cbn; intros; [done|]. rewrite decide_False; set_solver. Qed.

Lemma prev_in_app_l l1 l2 c : c ∈ l1 -> prev_in (l1 ++ l2) c = prev_in l1 c.
Proof.
  unfold prev_in. generalize (@None entity). induction l1 as [|x l1 IH]; intros o Hc; [set_solver|].
  cbn. case_decide; [done|]. apply IH. set_solver.
Qed.

Lemma prev_in_app_r l1 l2 c : c ∈ l2 -> NoDup l2 -> c ∉ l1 ->
  prev_in (l1 ++ l2) c = if decide (head l2 = Some c) then last l1 else prev_in l2 c.
Proof.
  intros Hc Hnd Hc1. destruct (in_split_nodup _ _ Hnd Hc) as (a & b & -> & Ha & Hb).
  rewrite app_assoc, !prev_in_middle by set_solver.
  destruct a as [|y a]; cbn -[last]; [rewrite decide_True by done; by rewrite app_nil_r|].
  rewrite decide_False by set_solver. rewrite last_app. destruct (last (y :: a)) eqn:E; [done|].
  by apply last_None in E.
Qed.

(** Removing [e] changes the neighbours of its neighbours only. *)
Lemma next_in_remove l1 l2 e c : NoDup (l1 ++ e :: l2) -> c ∈ l1 ++ l2 ->
  next_in (l1 ++ l2) c =
    if decide (last l1 = Some c) then head l2 else next_in (l1 ++ e :: l2) c.
Proof.
  intros Hnd Hc. apply NoDup_app in Hnd as (H1 & Hd & H2). apply NoDup_cons in H2 as [He2 H2].
  destruct (decide (c ∈ l1)) as [Hc1|Hc1].
  - rewrite !next_in_app_l by done. by destruct (decide (last l1 = Some c)).
  - rewrite !next_in_app_r by done. cbn. rewrite (decide_False (P := e = c)) by set_solver.
    destruct (decide (last l1 = Some c)) as [H|H]; [|done]. apply last_Some_elem in H. set_solver.
Qed.

Lemma prev_in_remove l1 l2 e c : NoDup (l1 ++ e :: l2) -> c ∈ l1 ++ l2 ->
  prev_in (l1 ++ l2) c =
    if decide (head l2 = Some c) then last l1 else prev_in (l1 ++ e :: l2) c.
Proof.
  intros Hnd Hc. apply NoDup_app in Hnd as (H1 & Hd & H2). apply NoDup_cons in H2 as [He2 H2].
  destruct (decide (c ∈ l1)) as [Hc1|Hc1].
  - rewrite !prev_in_app_l by done. destruct (decide (head l2 = Some c)) as [H|H]; [|done].
    apply head_Some_elem in H. set_solver.
  - rewrite prev_in_app_r by set_solver. destruct (decide (head l2 = Some c)); [done|].
    rewrite (app_cons_middle l1 l2 e), (prev_in_app_r (l1 ++ [e])), decide_False by set_solver. done.
Qed.

Lemma next_in_snoc l e c : NoDup l -> e ∉ l -> c ∈ l ++ [e] ->
  next_in (l ++ [e]) c = if decide (last l = Some c) then Some e else next_in l c.
Proof.
  intros Hnd He Hc. destruct (decide (c ∈ l)) as [Hl|Hl]; [by rewrite next_in_app_l|].
  rewrite next_in_app_r by done. assert (c = e) as -> by set_solver. cbn. rewrite decide_True by done.
  rewrite decide_False; [|intros H; by apply last_Some_elem in H].
  clear -He. induction l; cbn; [done|]. rewrite decide_False; set_solver.
Qed.

Lemma prev_in_snoc l e c : NoDup l -> e ∉ l -> c ∈ l ++ [e] ->
  prev_in (l ++ [e]) c = if decide (e = c) then last l else prev_in l c.
Proof.
  intros Hnd He Hc. destruct (decide (c ∈ l)) as [Hl|Hl].
  - rewrite prev_in_app_l by done. rewrite decide_False; set_solver.
  - assert (c = e) as -> by set_solver. rewrite prev_in_middle by done. by rewrite decide_True.
Qed.
End Siblings.

(** ** The represented forest *)
Module Forest.
Import Hierarchy.

(** [up R c p]: the component of [c] names [p] as its parent. *)
Definition up (R : Registry) : relation entity :=
  fun c p => exists h, hier R !! c = Some h /\ parent h = Some p.

Record links (kids : entity -> list entity) (c : entity) (h : Hierarchy) : Prop := mkLinks {
  link_first : first h = head (kids c);
  link_siblings :
    match parent h with
    | None => prev h = None /\ next h = None
    | Some p => c ∈ kids p /\ prev h = prev_in (kids p) c /\ next h = next_in (kids p) c
    end
}.

Record Rep (R : Registry) (kids : entity -> list entity) : Prop := mkRep {
  rep_alive : forall c h, hier R !! c = Some h -> c ∈ alive R;
  rep_links : forall c h, hier R !! c = Some h -> links kids c h;
  rep_kid : forall p c, c ∈ kids p -> up R c p /\ is_Some (hier R !! p);
  rep_nodup : forall p, NoDup (kids p);
  rep_acyclic : acyclic (up R)
}.

(** The operations on the abstract forest. *)
Definition detach (e : entity) (kids : entity -> list entity) (q : entity) : list entity :=
  filter (fun c => c ≠ e) (kids q).
Definition attach (e p : entity) (kids : entity -> list entity) (q : entity) : list entity :=
  if decide (q = p) then kids q ++ [e] else kids q.

(** The registry with an empty tree. *)
Lemma Rep_empty : Rep empty (fun _ => []).
Proof.
  split; [done|done|intros p c Hc; by apply not_elem_of_nil in Hc|intros; apply NoDup_nil_2|].
  intros x Hx. by apply tc_first in Hx as (z & (h & ? & _) & _).
Qed.

Lemma up_fun R c p q : up R c p -> up R c q -> p = q.
Proof. intros (h & H1 & H2) (h' & H3 & H4). congruence. Qed.

Lemma links_ext kids kids' c h : (forall p, kids' p = kids p) -> links kids c h -> links kids' c h.
Proof. intros H [H1 H2]. split; rewrite ?H; [done|]. destruct (parent h); rewrite ?H; done. Qed.

Lemma detach_id e kids p : e ∉ kids p -> detach e kids p = kids p.
Proof. intros He. apply filter_all, Forall_forall. intros x Hx ->. done. Qed.

Lemma detach_middle e kids p l1 l2 : NoDup (kids p) -> kids p = l1 ++ e :: l2 -> detach e kids p = l1 ++ l2.
Proof.
  intros Hnd E. unfold detach. rewrite E in *. apply NoDup_middle in Hnd as [H1 H2].
  rewrite filter_app, filter_cons_False by naive_solver.
  rewrite !filter_all; [done|apply Forall_forall; intros x ? ->; done..].
Qed.

Section WithRep.
Context {R : Registry} {kids : entity -> list entity} (HR : Rep R kids).

Lemma rep_self c h : hier R !! c = Some h -> parent h ≠ Some c.
Proof. intros Hc Hp. apply (rep_acyclic _ _ HR c), tc_once. by exists h. Qed.

Lemma rep_parent_hier c h p : hier R !! c = Some h -> parent h = Some p -> is_Some (hier R !! p).
Proof.
  intros Hc Hp. pose proof (rep_links _ _ HR _ _ Hc) as [_ Hs]. rewrite Hp in Hs.
  by destruct (rep_kid _ _ HR p c) as [_ ?]; [apply Hs|].
Qed.

Lemma rep_kid_of p c h : c ∈ kids p -> hier R !! c = Some h -> parent h = Some p.
Proof. intros Hk Hc. destruct (rep_kid _ _ HR _ _ Hk) as [(h' & H1 & H2) _]. congruence. Qed.

Lemma rep_no_hier p : hier R !! p = None -> kids p = [].
Proof.
  intros Hp. destruct (kids p) as [|c l] eqn:E; [done|].
  destruct (rep_kid _ _ HR p c) as [_ [h Hh]]; [rewrite E; set_solver|congruence].
Qed.

Lemma rep_one_parent p q c : c ∈ kids p -> c ∈ kids q -> p = q.
Proof.
  intros [Hp _]%(rep_kid _ _ HR) [Hq _]%(rep_kid _ _ HR). by eapply up_fun.
Qed.

(** The forest a linked child leaves behind. *)
Lemma detach_other e p q : e ∈ kids p -> q ≠ p -> detach e kids q = kids q.
Proof. intros He Hq. apply detach_id. intros He'. destruct Hq. by eapply rep_one_parent. Qed.

(** *** Unlinking *)

(** [onDestroy] of a linked child, as one pointwise change of the pool. *)
Lemma onDestroy_lookup e h p l1 l2 :
  hier R !! e = Some h -> parent h = Some p -> kids p = l1 ++ e :: l2 ->
  exists R1, onDestroy e R = Ret R1 /\ alive R1 = alive R /\ names R1 = names R /\ actives R1 = actives R
    /\ forall c, hier R1 !! c = (fun hc => mkHierarchy (parent hc)
          (if decide (c = p) then match l1 with [] => head l2 | _ => first hc end else first hc)
          (if decide (last l1 = Some c) then head l2 else next hc)
          (if decide (head l2 = Some c) then last l1 else prev hc)) <$> hier R !! c.
Proof.
  intros He Hp Hk. pose proof (rep_links _ _ HR _ _ He) as [_ Hs]. rewrite Hp in Hs.
  destruct Hs as (_ & Hprev & Hnext). pose proof (rep_nodup _ _ HR p) as Hnd. rewrite Hk in Hnd.
  apply NoDup_middle in Hnd as Hn. rewrite Hk, prev_in_middle in Hprev by tauto.
  rewrite Hk, next_in_middle in Hnext by tauto.
  destruct (rep_parent_hier _ _ _ He Hp) as [hp Hhp].
  unfold onDestroy, get. rewrite He. cbn [deref]. rewrite bind_Ret. eexists; split; [reflexivity|].
  rewrite Hp, Hprev, Hnext. cbn [try_get mbind option_bind].
  destruct (last l1) as [m|] eqn:Em.
  - assert (m ∈ alive R) as Hm.
    { apply last_Some_elem in Em. destruct (rep_kid _ _ HR p m) as [(hm & Hm & _) _]; [rewrite Hk; set_solver|].
      by eapply (rep_alive _ _ HR). }
    destruct l1 as [|x l1]; [done|].
    rewrite (bool_decide_eq_false_2 (Some m = None)), (valid_alive R m) by done. cbn.
    rewrite !upd_alive, !upd_names, !upd_actives. repeat (split; [done|]). intros c.
    rewrite !upd_lookup. destruct (hier R !! c) as [[]|]; repeat case_decide; naive_solver.
  - apply last_None in Em as ->.
    assert (p ∈ alive R) as Hpa by by eapply (rep_alive _ _ HR).
    rewrite (bool_decide_eq_true_2 (_ = None)), (bool_decide_eq_true_2 (_ ≠ _)), (valid_alive R p), Hhp by done. cbn.
    rewrite !upd_alive, !upd_names, !upd_actives. repeat (split; [done|]). intros c.
    rewrite !upd_lookup. destruct (hier R !! c) as [[]|]; repeat case_decide; naive_solver.
Qed.

(** The links the other components have afterwards. *)
Definition unlinked e (hc h' : Hierarchy) c : Prop :=
  parent h' = parent hc /\ links (detach e kids) c h'.

Lemma unlinked_child e p l1 l2 c hc : kids p = l1 ++ e :: l2 -> c ≠ e -> hier R !! c = Some hc ->
  unlinked e hc (mkHierarchy (parent hc)
          (if decide (c = p) then match l1 with [] => head l2 | _ => first hc end else first hc)
          (if decide (last l1 = Some c) then head l2 else next hc)
          (if decide (head l2 = Some c) then last l1 else prev hc)) c.
Proof.
  intros Hk Hce Hc. pose proof (rep_nodup _ _ HR p) as Hnd. pose proof Hnd as Hnd'. rewrite Hk in Hnd'.
  assert (e ∈ kids p) as He by (rewrite Hk; set_solver).
  destruct (rep_links _ _ HR _ _ Hc) as [Hf Hs]. split; [done|split; cbn].
  - case_decide as Hcp; [subst c|by rewrite (detach_other e p)].
    rewrite (detach_middle _ _ _ _ _ Hnd Hk). destruct l1; [done|]. by rewrite Hf, Hk.
  - assert (forall x, last l1 = Some x \/ head l2 = Some x -> x ∈ kids p) as Hnb.
    { intros x [H%last_Some_elem|H%head_Some_elem]; rewrite Hk; set_solver. }
    destruct (parent hc) as [q|] eqn:Hq.
    + destruct Hs as (Hcq & Hp & Hn). destruct (decide (q = p)) as [->|Hqp].
      * assert (c ∈ l1 ++ l2) by (rewrite Hk in Hcq; set_solver).
        rewrite (detach_middle _ _ _ _ _ Hnd Hk), next_in_remove with (e := e), prev_in_remove with (e := e) by done.
        by rewrite <- Hk, <- Hp, <- Hn.
      * assert (c ∉ kids p) by (intros ?; destruct Hqp; by eapply rep_one_parent).
        rewrite (detach_other e p q), !decide_False by auto. done.
    + assert (c ∉ kids p) by (intros Hcp; pose proof (rep_kid_of _ _ _ Hcp Hc); congruence).
      rewrite !decide_False by auto. done.
Qed.

Lemma onDestroy_spec e h : hier R !! e = Some h ->
  exists R1, onDestroy e R = Ret R1 /\ alive R1 = alive R /\ names R1 = names R /\ actives R1 = actives R
    /\ hier R1 !! e = Some h
    /\ forall c, c ≠ e -> option_Forall2 (fun hc h' => unlinked e hc h' c) (hier R !! c) (hier R1 !! c).
Proof.
  intros He. destruct (rep_links _ _ HR _ _ He) as [_ Hs]. destruct (parent h) as [p|] eqn:Hp.
  - destruct Hs as (Hep & _). destruct (in_split_nodup _ _ (rep_nodup _ _ HR p) Hep) as (l1 & l2 & Hk & H1 & H2).
    destruct (onDestroy_lookup _ _ _ _ _ He Hp Hk) as (R1 & Hrun & Ha & Hn & Hact & Hlk).
    exists R1. do 4 (split; [done|]). split.
    + rewrite Hlk, He. cbn. rewrite !decide_False; [by destruct h| | |].
      * intros Hx. apply H2. by eauto with maple.
      * intros Hx. apply H1. by eauto with maple.
      * intros ->. by apply (rep_self _ _ He).
    + intros c Hc. rewrite Hlk. destruct (hier R !! c) as [hc|] eqn:Hhc; constructor.
      by apply unlinked_child.
  - destruct Hs as [Hpr Hne]. exists R. unfold onDestroy, get. rewrite He. cbn [deref].
    rewrite bind_Ret, Hp, Hpr. cbn. do 5 (split; [done|]). intros c Hc.
    destruct (hier R !! c) as [hc|] eqn:Hhc; constructor. split; [done|].
    eapply links_ext; [|by apply (rep_links _ _ HR)]. intros q. apply detach_id. intros Heq.
    pose proof (rep_kid_of _ _ _ Heq He). congruence.
Qed.

(** Whatever becomes of [e] itself, the other components represent the forest
    without [e], provided [e] ends without parent. *)
Lemma detach_Rep e h R1 R2 : hier R !! e = Some h ->
  (forall c, c ≠ e -> option_Forall2 (fun hc h' => unlinked e hc h' c) (hier R !! c) (hier R1 !! c)) ->
  (forall c, c ≠ e -> hier R2 !! c = hier R1 !! c) ->
  (forall c, c ∈ alive R -> c = e \/ c ∈ alive R2) ->
  match hier R2 !! e with
  | Some h2 => e ∈ alive R2 /\ h2 = mkHierarchy None (first h) None None
  | None => kids e = [] end ->
  Rep R2 (detach e kids) /\ forall c p, up R2 c p -> c ≠ e /\ up R c p.
Proof.
  intros He H1 H2 Ha Hself.
  assert (forall c h2, c ≠ e -> hier R2 !! c = Some h2 ->
    exists hc, hier R !! c = Some hc /\ unlinked e hc h2 c) as Hold.
  { intros c h2 Hc Hh2. specialize (H1 c Hc). rewrite H2 in Hh2 by done. rewrite Hh2 in H1.
    inversion H1 as [hc hx Hu Hhc Ehx|]; subst. by exists hc. }
  assert (forall c p, up R2 c p -> c ≠ e /\ up R c p) as Hup.
  { intros c p (h2 & Hh2 & Hp). destruct (decide (c = e)) as [->|Hc].
    - rewrite Hh2 in Hself. destruct Hself as [_ ->]. done.
    - destruct (Hold _ _ Hc Hh2) as (hc & Hhc & Hpar & _). split; [done|]. exists hc. by rewrite <- Hpar. }
  split; [split|done].
  - intros c h2 Hh2. destruct (decide (c = e)) as [->|Hc]; [rewrite Hh2 in Hself; tauto|].
    destruct (Hold _ _ Hc Hh2) as (hc & Hhc & _). destruct (Ha c); [by eapply (rep_alive _ _ HR)|done..].
  - intros c h2 Hh2. destruct (decide (c = e)) as [->|Hc].
    + rewrite Hh2 in Hself. destruct Hself as [_ ->]. split; [|done]. cbn.
      destruct (rep_links _ _ HR _ _ He) as [-> _]. rewrite detach_id; [done|].
      intros Hee. apply (rep_self _ _ He). by apply rep_kid_of with e.
    + destruct (Hold _ _ Hc Hh2) as (hc & Hhc & _ & Hl). done.
  - intros p c Hc. unfold detach in Hc. apply list_elem_of_filter in Hc as [Hce Hc].
    destruct (rep_kid _ _ HR _ _ Hc) as [(hc & Hhc & Hpar) [hp Hhp]].
    assert (forall x hx, x ≠ e -> hier R !! x = Some hx -> exists h2, hier R2 !! x = Some h2 /\ parent h2 = parent hx) as Hkeep.
    { intros x hx Hx Hhx. specialize (H1 x Hx). rewrite Hhx in H1. rewrite H2 by done.
      inversion H1 as [hy h2 [Hpp _] Ehy Hh2|]; subst. eauto. }
    split.
    + destruct (Hkeep _ _ Hce Hhc) as (h2 & ? & E). exists h2. by rewrite E.
    + destruct (decide (p = e)) as [->|Hpe]; [|destruct (Hkeep _ _ Hpe Hhp) as (? & ? & _); by eexists].
      destruct (hier R2 !! e); [by eexists|]. rewrite Hself in Hc. set_solver.
  - intros p. apply NoDup_filter, (rep_nodup _ _ HR).
  - eapply subrel_acyclic; [|apply (rep_acyclic _ _ HR)]. intros a b Hab. by apply Hup.
Qed.

(** *** Appending a child *)

Lemma rep_kid_hier p c : c ∈ kids p -> exists h, hier R !! c = Some h /\ next h = next_in (kids p) c.
Proof.
  intros Hk. destruct (rep_kid _ _ HR _ _ Hk) as [(h & Hh & Hp) _]. exists h. split; [done|].
  destruct (rep_links _ _ HR _ _ Hh) as [_ Hs]. rewrite Hp in Hs. tauto.
Qed.

Lemma kids_size p : length (kids p) <= size (hier R).
Proof.
  rewrite <- size_dom, <- (size_list_to_set (C := gset entity)) by apply (rep_nodup _ _ HR).
  apply subseteq_size. intros c Hc%elem_of_list_to_set. apply elem_of_dom.
  destruct (rep_kid_hier _ _ Hc) as (h & ? & _). by eexists.
Qed.

(** A parent without the component gets an empty one. *)
Definition emplaced (p : entity) (R : Registry) : Registry :=
  match hier R !! p with Some _ => R | None => with_hier (<[p := make_default]> (hier R)) R end.

Lemma emplaced_lookup p c : hier (emplaced p R) !! c =
  if decide (p = c) then Some (default make_default (hier R !! c)) else hier R !! c.
Proof.
  unfold emplaced. destruct (hier R !! p) eqn:Hp; destruct (decide (p = c)) as [->|Hc]; cbn.
  - by rewrite Hp.
  - done.
  - by rewrite lookup_insert_eq, Hp.
  - by rewrite lookup_insert_ne.
Qed.

Lemma emplaced_frame p : alive (emplaced p R) = alive R /\ names (emplaced p R) = names R
  /\ actives (emplaced p R) = actives R.
Proof. unfold emplaced. by destruct (hier R !! p). Qed.

Lemma emplaced_up p c q : up (emplaced p R) c q <-> up R c q.
Proof.
  unfold up. setoid_rewrite emplaced_lookup. destruct (decide (p = c)) as [->|]; [|done].
  destruct (hier R !! c) as [h|]; cbn; [done|]. split; intros (h & ? & ?); simplify_eq/=.
Qed.

Lemma emplaced_Rep p : p ∈ alive R -> Rep (emplaced p R) kids.
Proof.
  intros Hp. destruct (emplaced_frame p) as (Ha & _ & _). split.
  - intros c h. rewrite emplaced_lookup, Ha. case_decide; [by subst|apply (rep_alive _ _ HR)].
  - intros c h. rewrite emplaced_lookup. case_decide; [subst c|apply (rep_links _ _ HR)].
    destruct (hier R !! p) as [hp|] eqn:Hhp; cbn; intros [= <-]; [by apply (rep_links _ _ HR)|].
    by split; cbn; [rewrite rep_no_hier|].
  - intros q c Hc. rewrite emplaced_up, emplaced_lookup.
    destruct (rep_kid _ _ HR _ _ Hc). split; [done|]. case_decide; [by eexists|done].
  - apply (rep_nodup _ _ HR).
  - eapply subrel_acyclic; [|apply (rep_acyclic _ _ HR)]. intros a b. apply emplaced_up.
Qed.

End WithRep.

Lemma last_sibling_spec R l a x b fuel :
  (forall c, c ∈ l -> exists h, hier R !! c = Some h /\ next h = next_in l c) ->
  NoDup l -> l = a ++ x :: b -> length (x :: b) <= fuel ->
  exists m, last l = Some m /\ last_sibling fuel R x = Ret m.
Proof.
  intros Hl Hnd. revert a x b. induction fuel as [|fuel IH]; intros a x b E Hf; cbn [length] in Hf; [lia|].
  destruct (Hl x) as (h & Hh & Hn); [rewrite E; set_solver|].
  assert (x ∉ a) as Hxa by (rewrite E in Hnd; by apply NoDup_middle in Hnd as [? _]).
  rewrite E, next_in_middle in Hn by done.
  cbn. rewrite Hh, Hn. destruct b as [|y b]; cbn.
  - exists x. rewrite E. by rewrite last_snoc.
  - destruct (Hl y) as (hy & Hy & _); [rewrite E; set_solver|].
    rewrite bool_decide_eq_true_2 by (by eexists). apply (IH (a ++ [x]) y b); [|cbn in *; lia].
    by rewrite E, app_cons_middle.
Qed.

(** [onConstruct] of a node without siblings whose parent is set to [p]. *)
Lemma onConstruct_lookup R kids e h p hp : Rep R kids ->
  hier R !! e = Some h -> parent h = None -> hier R !! p = Some hp -> e ≠ p ->
  exists R1, onConstruct e (upd (set_parent (Some p)) (Some e) R) = Ret R1
    /\ alive R1 = alive R /\ names R1 = names R /\ actives R1 = actives R
    /\ forall c, hier R1 !! c = (fun hc => mkHierarchy
          (if decide (e = c) then Some p else parent hc)
          (if decide (p = c) then head (kids p ++ [e]) else first hc)
          (if decide (last (kids p) = Some c) then Some e else next hc)
          (if decide (e = c) then last (kids p) else prev hc)) <$> hier R !! c.
Proof.
  intros HR He Hpar Hp Hep. destruct (rep_links _ _ HR _ _ He) as [_ Hs]. rewrite Hpar in Hs.
  destruct Hs as [Hprev Hnext]. destruct (rep_links _ _ HR _ _ Hp) as [Hf _].
  assert (e ∉ kids p) as Hek by (intros Hk; pose proof (rep_kid_of HR _ _ _ Hk He); congruence).
  set (R0 := upd (set_parent (Some p)) (Some e) R).
  assert (forall c, c ≠ e -> hier R0 !! c = hier R !! c) as H0.
  { intros c Hc. unfold R0. rewrite upd_lookup, decide_False; congruence. }
  assert (hier R0 !! e = Some (set_parent (Some p) h)) as He0.
  { unfold R0. by rewrite upd_lookup, decide_True, He. }
  assert (alive R0 = alive R) as Ha by apply upd_alive.
  unfold onConstruct, get, get_or_emplace. rewrite He0. cbn [deref]. rewrite bind_Ret. cbn [parent set_parent].
  rewrite Ha, bool_decide_eq_true_2 by (by eapply (rep_alive _ _ HR)).
  rewrite !H0, Hp, bind_Ret, H0, Hp by done. cbn [deref]. rewrite bind_Ret, Hf.
  destruct (kids p) as [|k l] eqn:Ek; cbn [head app].
  - eexists; split; [reflexivity|]. unfold R0. rewrite !upd_alive, !upd_names, !upd_actives.
    repeat (split; [done|]). intros c. rewrite !upd_lookup. cbn.
    destruct (decide (e = c)) as [->|], (decide (p = c)) as [->|]; simplify_eq;
      repeat case_decide; simplify_eq; [rewrite He; by destruct h; simplify_eq/= | by destruct (hier R !! c) as [[]|]..].
  - destruct (last_sibling_spec R0 (k :: l) [] k l (fuel R0)) as (m & Hm & Hrun).
    { rewrite <- Ek. intros c Hc. rewrite H0 by congruence. by apply rep_kid_hier. }
    { rewrite <- Ek. apply (rep_nodup _ _ HR). }
    { done. }
    { unfold fuel, R0, upd. cbn [hier with_hier]. rewrite <- (size_dom (alter _ _ _)), dom_alter, size_dom.
      rewrite <- Ek. pose proof (kids_size HR p). lia. }
    rewrite Hrun, bind_Ret. eexists; split; [reflexivity|]. unfold R0.
    rewrite !upd_alive, !upd_names, !upd_actives. repeat (split; [done|]). intros c. rewrite !upd_lookup.
    assert (m ≠ e) by (intros ->; by apply last_Some_elem in Hm). rewrite Hm.
    destruct (decide (e = c)) as [->|], (decide (p = c)) as [->|]; simplify_eq;
      repeat case_decide; simplify_eq; try (rewrite He; by destruct h; simplify_eq/=);
      destruct (hier R !! c) as [[]|] eqn:Hc; simplify_eq/=; done.
Qed.

Lemma attach_links R kids e p c hc : Rep R kids -> e ≠ p -> e ∉ kids p -> (forall q, e ∉ kids q) ->
  hier R !! c = Some hc ->
  links (attach e p kids) c (mkHierarchy
          (if decide (e = c) then Some p else parent hc)
          (if decide (p = c) then head (kids p ++ [e]) else first hc)
          (if decide (last (kids p) = Some c) then Some e else next hc)
          (if decide (e = c) then last (kids p) else prev hc)).
Proof.
  intros HR Hep Hek Hnk Hc. pose proof (rep_nodup _ _ HR p) as Hnd.
  destruct (rep_links _ _ HR _ _ Hc) as [Hf Hs]. unfold attach. split; cbn.
  - destruct (decide (c = p)) as [->|Hcp]; [by rewrite decide_True|by rewrite decide_False by congruence].
  - destruct (decide (e = c)) as [<-|Hec].
    + rewrite decide_True by done. split; [set_solver|].
      rewrite prev_in_snoc, next_in_middle, decide_True by set_solver. split; [done|]. cbn.
      rewrite decide_False by (intros H; by apply last_Some_elem in H).
      destruct (parent hc) as [q|]; [|tauto]. destruct Hs as [Hq _]. by destruct (Hnk q).
    + destruct (parent hc) as [q|] eqn:Hq.
      * destruct Hs as (Hcq & Hp & Hn). destruct (decide (q = p)) as [->|Hqp].
        -- split; [set_solver|].
           rewrite prev_in_snoc, next_in_snoc, decide_False by set_solver. by rewrite <- Hp, <- Hn.
        -- rewrite (decide_False (P := last (kids p) = Some c)); [done|].
           intros H%last_Some_elem. destruct Hqp. by eapply rep_one_parent.
      * rewrite decide_False; [done|]. intros H%last_Some_elem. pose proof (rep_kid_of HR _ _ _ H Hc). congruence.
Qed.

Lemma attach_Rep R kids e h p hp : Rep R kids ->
  hier R !! e = Some h -> parent h = None -> hier R !! p = Some hp -> ~ rtc (up R) p e ->
  exists R1, onConstruct e (upd (set_parent (Some p)) (Some e) R) = Ret R1
    /\ alive R1 = alive R /\ names R1 = names R /\ actives R1 = actives R
    /\ Rep R1 (attach e p kids).
Proof.
  intros HR He Hpar Hp Hac. assert (e ≠ p) as Hep by (intros ->; apply Hac, rtc_refl).
  assert (forall q, e ∉ kids q) as Hnk.
  { intros q Hq. pose proof (rep_kid_of HR _ _ _ Hq He). congruence. }
  destruct (onConstruct_lookup R kids e h p hp) as (R1 & Hrun & Ha & Hn & Hact & Hlk); try done.
  assert (forall a b, up R1 a b <-> (a ≠ e /\ up R a b) \/ (a = e /\ b = p)) as Hup.
  { intros a b. unfold up. rewrite Hlk. destruct (decide (e = a)) as [<-|Hea].
    - rewrite He. cbn. split; [intros (h' & [= <-] & [= <-]); by right|].
      intros [[? _]|[_ ->]]; [done|]. eexists; split; [reflexivity|done].
    - split; [intros (h' & Hh & Hb)|intros [[_ (h' & Hh & Hb)]|[? _]]; [|done]].
      + apply fmap_Some in Hh as (h0 & Hh & ->). left. split; [done|]. by exists h0.
      + rewrite Hh. eexists; split; [reflexivity|done]. }
  exists R1. do 4 (split; [done|]). split.
  - intros c h' Hc. rewrite Hlk in Hc. apply fmap_Some in Hc as (hc & Hc & _). rewrite Ha.
    by eapply (rep_alive _ _ HR).
  - intros c h' Hc. rewrite Hlk in Hc. apply fmap_Some in Hc as (hc & Hc & ->). by apply attach_links with R.
  - intros q c Hc. rewrite Hup, Hlk. unfold attach in Hc. destruct (decide (q = p)) as [->|Hq].
    + rewrite Hp. split; [|by eexists]. apply elem_of_app in Hc as [Hc|Hc]; [|set_solver].
      left. split; [intros ->; by destruct (Hnk p)|]. by apply (rep_kid _ _ HR).
    + destruct (rep_kid _ _ HR _ _ Hc) as [H1 [hq H2]]. rewrite H2. split; [|by eexists].
      left. split; [intros ->; by destruct (Hnk q)|done].
  - intros q. unfold attach. case_decide; [subst|apply (rep_nodup _ _ HR)].
    apply NoDup_app. split; [apply (rep_nodup _ _ HR)|]. split; [|apply NoDup_singleton].
    intros x Hx ->%list_elem_of_singleton. by destruct (Hnk p).
  - eapply redirect_acyclic; [|exact Hac|apply (rep_acyclic _ _ HR)].
    intros a b Hab. apply Hup in Hab as [[_ ?]|?]; tauto.
Qed.

(** *** The operations refine the forest *)

(** The result of an operation that changes the tree only. *)
Definition tree_result (R : Registry) (kids' : entity -> list entity) (r : outcome Registry) : Prop :=
  exists R', r = Ret R' /\ Rep R' kids' /\ alive R' = alive R /\ names R' = names R /\ actives R' = actives R.

Lemma emplaced_onConstruct R e f p : f = set_parent (Some p) -> e ≠ p -> p ∈ alive R -> is_Some (hier R !! e) ->
  onConstruct e (upd f (Some e) R) = onConstruct e (upd f (Some e) (emplaced p R)).
Proof.
  intros -> Hep Hp [h He]. unfold emplaced. destruct (hier R !! p) eqn:Hhp; [done|].
  unfold onConstruct, get. rewrite !upd_lookup. cbn [hier with_hier].
  rewrite lookup_insert_ne, He, decide_True by done. cbn [deref fmap option_fmap option_map].
  rewrite !bind_Ret. cbn [parent set_parent]. unfold get_or_emplace. rewrite !upd_alive. cbn [alive with_hier].
  rewrite bool_decide_eq_true_2 by done. rewrite !upd_lookup, !decide_False by congruence. cbn [hier with_hier].
  rewrite Hhp, lookup_insert_eq, !bind_Ret.
  replace (with_hier (<[p:=make_default]> (hier (upd (set_parent (Some p)) (Some e) R))) (upd (set_parent (Some p)) (Some e) R))
    with (upd (set_parent (Some p)) (Some e) (with_hier (<[p:=make_default]> (hier R)) R)); [done|].
  unfold upd, with_hier; cbn. by rewrite alter_insert_ne by congruence.
Qed.

Lemma reparent_refines R kids e h p : Rep R kids -> hier R !! e = Some h ->
  match p with None => True | Some q => q ∈ alive R /\ ~ rtc (up R) q e end ->
  tree_result R (match p with None => detach e kids | Some q => attach e q (detach e kids) end) (reparent e p R).
Proof.
  intros HR He Hp. destruct (onDestroy_spec HR _ _ He) as (R1 & Hrun & Ha & Hn & Hact & He1 & Hoth).
  unfold reparent. rewrite Hrun, bind_Ret. set (R2 := upd clear_links (Some e) R1).
  assert (hier R2 !! e = Some (mkHierarchy None (first h) None None)) as He2.
  { unfold R2. by rewrite upd_lookup, decide_True, He1. }
  destruct (detach_Rep HR e h R1 R2) as [HR2 Hup]; [done|done| | |rewrite He2|].
  { intros c Hc. unfold R2. rewrite upd_lookup, decide_False; congruence. }
  { intros c Hc. right. unfold R2. by rewrite upd_alive, Ha. }
  { unfold R2. rewrite upd_alive, Ha. split; [by eapply (rep_alive _ _ HR)|done]. }
  destruct p as [q|]; [|exists R2; unfold R2; by rewrite upd_alive, upd_names, upd_actives].
  destruct Hp as [Hq Hcyc]. assert (e ≠ q) by (intros ->; apply Hcyc, rtc_refl).
  assert (q ∈ alive R2) as Hq2 by (unfold R2; by rewrite upd_alive, Ha).
  rewrite (emplaced_onConstruct R2 e _ q) by (try done; by eexists).
  destruct (@emplaced_frame R2 q) as (Ha3 & Hn3 & Hact3).
  destruct (attach_Rep (emplaced q R2) (detach e kids) e (mkHierarchy None (first h) None None) q
              (default make_default (hier R2 !! q))) as (R3 & Hrun3 & Ha4 & Hn4 & Hact4 & HR3).
  - by apply emplaced_Rep.
  - rewrite emplaced_lookup, decide_False by done. done.
  - done.
  - rewrite emplaced_lookup, decide_True by done. done.
  - intros Hr. apply Hcyc. eapply rtc_subrel; [|exact Hr]. intros a b Hab%emplaced_up. by apply Hup.
  - exists R3. rewrite Ha4, Hn4, Hact4, Ha3, Hn3, Hact3. unfold R2. by rewrite upd_alive, upd_names, upd_actives.
Qed.

(** [emplace<Hierarchy>] on an entity without the component. *)
Lemma emplace_refines R kids e p : Rep R kids -> e ∈ alive R -> hier R !! e = None ->
  match p with None => True | Some q => q ∈ alive R /\ q ≠ e end ->
  tree_result R (match p with None => kids | Some q => attach e q kids end) (Entity.emplace_hierarchy e p R).
Proof.
  intros HR Hea He Hp. unfold Entity.emplace_hierarchy. rewrite bool_decide_eq_true_2 by done.
  assert (emplaced e R = with_hier (<[e := make_default]> (hier R)) R) as Hem by (unfold emplaced; by rewrite He).
  pose proof (emplaced_Rep HR e Hea) as HR1. destruct p as [q|].
  - destruct Hp as [Hq Hqe].
    replace (with_hier (<[e:=make (Some q)]> (hier R)) R) with (upd (set_parent (Some q)) (Some e) (emplaced e R)).
    2:{ rewrite Hem. unfold upd, with_hier. cbn. rewrite alter_insert_eq. done. }
    rewrite (emplaced_onConstruct _ e _ q); [|done|done|by rewrite (proj1 (emplaced_frame e))|].
    2:{ rewrite emplaced_lookup, decide_True by done. by eexists. }
    destruct (@emplaced_frame R e) as (Ha1 & Hn1 & Hact1).
    destruct (@emplaced_frame (emplaced e R) q) as (Ha2 & Hn2 & Hact2).
    edestruct (attach_Rep (emplaced q (emplaced e R)) kids e make_default q) as (R3 & Hrun & Ha & Hn & Hact & HR3).
    + apply emplaced_Rep; [done|by rewrite Ha1].
    + rewrite emplaced_lookup, decide_False, emplaced_lookup, decide_True, He by done. done.
    + done.
    + rewrite emplaced_lookup, decide_True by done. done.
    + intros Hr. apply rtc_inv_r in Hr as [?|(z & _ & Hz)]; [done|].
      apply emplaced_up, emplaced_up in Hz.
      destruct Hz as (hz & Hz1 & Hz2). destruct (rep_parent_hier HR _ _ _ Hz1 Hz2); congruence.
    + exists R3. by rewrite Ha, Hn, Hact, Ha2, Hn2, Hact2, Ha1, Hn1, Hact1.
  - exists (emplaced e R). rewrite Hem. unfold onConstruct, get. cbn [hier with_hier].
    rewrite lookup_insert_eq. split; [done|]. rewrite <- Hem. split; [done|]. apply emplaced_frame.
Qed.

(** [isParent] follows the parents; the handles it has seen are distinct. *)
Lemma isParent_loop_spec R kids q : Rep R kids -> forall n (V : gset entity) par,
  V ⊆ dom (hier R) -> (forall v x, v ∈ V -> par = Some x -> tc (up R) v x) ->
  size (hier R) - size V < n - 1 -> 1 < n ->
  exists b, Entity.isParent_loop n R par (Some q) = Ret b
    /\ (b = true <-> exists x, par = Some x /\ rtc (up R) x q).
Proof.
  intros HR. induction n as [|n IH]; intros V par HV Htc Hsz H1; [lia|]. cbn.
  destruct par as [x|]; [|exists false; naive_solver].
  case_bool_decide as Hq; [simplify_eq; exists true; split; [done|]; split; [eauto using rtc_refl|done]|].
  destruct (hier R !! x) as [hx|] eqn:Hx; cbn.
  - assert (x ∉ V) as HxV by (intros Hv; by apply (rep_acyclic _ _ HR x), Htc).
    assert (V ∪ {[x]} ⊆ dom (hier R)) as HV'.
    { apply union_subseteq. split; [done|]. apply singleton_subseteq_l, elem_of_dom. by eexists. }
    assert (size (V ∪ {[x]}) = S (size V)) as HS by (rewrite size_union, size_singleton by set_solver; lia).
    pose proof (subseteq_size _ _ HV') as Hle. rewrite size_dom, HS in Hle.
    destruct (IH (V ∪ {[x]}) (parent hx)) as (b & Hrun & Hb); [done| |lia|lia|].
    { intros v y Hv Hy. assert (up R x y) as Hxy by (by exists hx).
      apply elem_of_union in Hv as [Hv| ->%elem_of_singleton]; [|by apply tc_once].
      eapply tc_r; [by eapply Htc|done]. }
    exists b. split; [done|]. rewrite Hb. split.
    + intros (y & Hy & Hr). exists x. split; [done|]. eapply rtc_l; [|exact Hr]. by exists hx.
    + intros (y & [= <-] & Hr). apply rtc_inv in Hr as [->|(z & (h & Hh & Hz) & Hr)]; [done|]. simplify_eq. eauto.
  - destruct n as [|n]; [lia|]. cbn. exists false. split; [done|]. split; [done|].
    intros (y & [= <-] & Hr). apply rtc_inv in Hr as [->|(z & (h & Hh & Hz) & Hr)]; [done|]. congruence.
Qed.

Lemma isParent_spec R kids e q : Rep R kids ->
  exists b, Entity.isParent (Entity.mkEntity (Some e) true) (Entity.mkEntity (Some q) true) R = Ret b
    /\ (b = true <-> tc (up R) e q).
Proof.
  intros HR. unfold Entity.isParent. cbn. destruct (hier R !! e) as [h|] eqn:He; cbn.
  - destruct (isParent_loop_spec R kids q HR (S (fuel R)) ∅ (parent h)) as (b & Hrun & Hb);
      [set_solver|set_solver|unfold fuel; rewrite size_empty; lia|unfold fuel; lia|].
    exists b. split; [exact Hrun|]. rewrite Hb. split.
    + intros (x & Hx & Hr). eapply tc_rtc_r; [apply tc_once; by exists h|done].
    + intros Ht. apply tc_first in Ht as (x & (h' & Hh' & Hx) & Hr). simplify_eq. eauto.
  - exists false. split; [done|]. split; [done|]. intros Ht. apply tc_first in Ht as (x & (h' & Hh' & _) & _). congruence.
Qed.

End Forest.

(** ** What the entity operations do to the forest *)
Module Tree.
Import Hierarchy Entity Forest.

(** A handle with its scene. *)
Definition ent (e : entity) : Entity := mkEntity (Some e) true.

Lemma Rep_ext R kids kids' : (forall p, kids' p = kids p) -> Rep R kids -> Rep R kids'.
Proof.
  intros E [H1 H2 H3 H4 H5]. split; [done| | | |done].
  - intros c h Hc. by apply links_ext with kids, H2.
  - intros p c. rewrite E. apply H3.
  - intros p. by rewrite E.
Qed.

Lemma detach_absent R kids e p : Rep R kids -> hier R !! e = None -> detach e kids p = kids p.
Proof.
  intros HR He. apply detach_id. intros Hk. destruct (rep_kid _ _ HR _ _ Hk) as [(h & ? & _) _]. congruence.
Qed.

(** [registry.create] gives a handle that is not alive. *)
Definition create_handle (e : entity) (R : Registry) : Registry :=
  mkRegistry ({[e]} ∪ alive R) (hier R) (names R) (actives R).

Lemma create_Rep R kids e : Rep R kids -> Rep (create_handle e R) kids.
Proof. intros [H1 H2 H3 H4 H5]. split; try done. intros c h Hc. apply elem_of_union_r. by eapply H1. Qed.

Lemma setParent_Rep R kids e p : Rep R kids -> e ∈ alive R -> p ∈ alive R -> p ≠ e -> ~ tc (up R) p e ->
  tree_result R (attach e p (detach e kids)) (setParent (ent e) (ent p) R).
Proof.
  intros HR He Hp Hpe Hcyc. unfold setParent. cbn -[isParent bool_decide].
  destruct (hier R !! e) as [h|] eqn:Hh.
  - rewrite bool_decide_eq_true_2 by congruence.
    destruct (isParent_spec R kids p e HR) as (b & Hrun & Hb). unfold ent. rewrite Hrun, bind_Ret.
    destruct b; [tauto|]. rewrite bool_decide_eq_true_2 by (by apply (rep_self HR)). cbn -[reparent].
    apply (reparent_refines R kids e h (Some p)); [done|done|]. split; [done|].
    intros [->|?]%rtc_tc; done.
  - rewrite bool_decide_eq_true_2 by congruence. cbn -[emplace_hierarchy].
    destruct (emplace_refines R kids e (Some p)) as (R' & Hrun & HR' & Hrest); [done..|].
    exists R'. split; [done|]. split; [|done]. eapply Rep_ext; [|exact HR'].
    intros q. unfold attach. by rewrite (detach_absent R).
Qed.

Lemma setParent_refused R kids e p : Rep R kids -> p = e \/ tc (up R) p e ->
  setParent (ent e) (ent p) R = Ret R.
Proof.
  intros HR Hc. unfold setParent. cbn -[isParent bool_decide].
  destruct (decide (p = e)) as [->|Hpe].
  - destruct (hier R !! e); rewrite bool_decide_eq_false_2 by tauto; done.
  - destruct Hc as [?|Hc]; [done|]. destruct (hier R !! e) as [h|] eqn:He.
    + rewrite bool_decide_eq_true_2 by congruence.
      destruct (isParent_spec R kids p e HR) as (b & Hrun & Hb). unfold ent. rewrite Hrun, bind_Ret.
      destruct b; [done|naive_solver].
    + apply tc_last in Hc as (z & h & Hz & Hp). destruct (rep_parent_hier HR _ _ _ Hz Hp). congruence.
Qed.

(** *** Children *)

Lemma children_loop_spec R kids p : Rep R kids -> forall l a n, kids p = a ++ l -> length l < n ->
  children_loop n R (head l) = Ret l.
Proof.
  intros HR. induction l as [|c l IH]; intros a n Hk Hn; (destruct n as [|n]; [cbn in Hn; lia|]); [done|]. cbn.
  assert (c ∈ kids p) as Hc by (rewrite Hk; set_solver).
  destruct (rep_kid_hier HR _ _ Hc) as (h & Hh & Hnx). rewrite Hk, next_in_middle in Hnx.
  2:{ pose proof (rep_nodup _ _ HR p) as Hnd. rewrite Hk in Hnd. by apply NoDup_middle in Hnd as [? _]. }
  rewrite bool_decide_eq_true_2 by (by eapply (rep_alive _ _ HR)). rewrite Hh, Hnx.
  rewrite (IH (a ++ [c]) n); [done|by rewrite Hk, app_cons_middle|cbn in Hn; lia].
Qed.

Lemma getChildren_Rep R kids p : Rep R kids -> getChildren (ent p) R = Ret (ent <$> kids p).
Proof.
  intros HR. unfold getChildren. cbn -[children_loop]. destruct (hier R !! p) as [h|] eqn:Hp.
  - destruct (rep_links _ _ HR _ _ Hp) as [-> _].
    rewrite (children_loop_spec R kids p HR (kids p) []); [done|done|].
    pose proof (kids_size HR p). unfold fuel. lia.
  - by rewrite (rep_no_hier HR).
Qed.

(** *** Destroying a leaf *)

Lemma destroy_Rep R kids e : Rep R kids -> e ∈ alive R -> kids e = [] ->
  exists R', destroy (ent e) R = Ret R' /\ Rep R' (detach e kids) /\ alive R' = alive R ∖ {[e]}
    /\ names R' = delete e (names R) /\ actives R' = delete e (actives R).
Proof.
  intros HR He Hk. unfold destroy, destroy_handle. cbn. rewrite bool_decide_eq_true_2 by done.
  destruct (hier R !! e) as [h|] eqn:Hh.
  - destruct (onDestroy_spec HR _ _ Hh) as (R1 & Hrun & Ha & Hn & Hact & He1 & Hoth).
    rewrite Hrun. cbn. eexists; split; [reflexivity|]. cbn. rewrite Ha, Hn, Hact.
    split; [|done]. apply (detach_Rep HR e h R1); cbn; [done|done| | |by rewrite lookup_delete_eq].
    + intros c Hc. by rewrite lookup_delete_ne.
    + intros c Hc. destruct (decide (c = e)); set_solver.
  - cbn. eexists; split; [reflexivity|]. cbn. split; [|done].
    apply Rep_ext with kids; [intros q; by apply (detach_absent R)|].
    rewrite delete_id by done. destruct HR as [H1 H2 H3 H4 H5]. split; try done. cbn.
    intros c h Hc. apply elem_of_difference. split; [by eapply H1|]. intros ->%elem_of_singleton. congruence.
Qed.
(** *** Depth and depth-first search *)

(** The tree below [e] has height less than [n]. *)
Fixpoint height_lt (n : nat) (kids : entity -> list entity) (e : entity) : Prop :=
  match n with O => False | S n => forall c, c ∈ kids e -> height_lt n kids c end.

Lemma height_bound_below R kids : Rep R kids -> forall n (V : gset entity) e,
  V ⊆ dom (hier R) -> (forall v, v ∈ V -> tc (up R) e v) -> size (hier R) - size V < n -> height_lt n kids e.
Proof.
  intros HR. induction n as [|n IH]; intros V e HV Htc Hn; [lia|]. intros c Hc.
  destruct (rep_kid _ _ HR _ _ Hc) as [Hup He].
  assert (e ∉ V) as HeV by (intros Hv; by apply (rep_acyclic _ _ HR e), Htc).
  assert (V ∪ {[e]} ⊆ dom (hier R)) as HV'.
  { apply union_subseteq. split; [done|]. by apply singleton_subseteq_l, elem_of_dom. }
  assert (size (V ∪ {[e]}) = S (size V)) as HS by (rewrite size_union, size_singleton by set_solver; lia).
  pose proof (subseteq_size _ _ HV') as Hle. rewrite size_dom, HS in Hle.
  apply (IH (V ∪ {[e]})); [done| |lia].
  intros v [Hv| ->%elem_of_singleton]%elem_of_union; [|by apply tc_once]. eapply tc_l; [done|by apply Htc].
Qed.

Lemma height_bound R kids e : Rep R kids -> height_lt (fuel R) kids e.
Proof.
  intros HR. apply (height_bound_below R kids HR _ ∅); [set_solver|set_solver|].
  unfold fuel. rewrite size_empty. lia.
Qed.

(** The entities below [e] in depth-first order. *)
Fixpoint preorder (n : nat) (kids : entity -> list entity) (e : entity) : list entity :=
  match n with O => [] | S n => flat_map (fun c => c :: preorder n kids c) (kids e) end.

Definition named (R : Registry) (name : cstring) (c : entity) : Prop := names R !! c = Some name.
#[local] Instance named_dec R name c : Decision (named R name c).
Proof. unfold named. apply _. Defined.

Definition found (o : option entity) : Entity := match o with Some c => ent c | None => null end.

Lemma search_children_spec R kids name n p f : Rep R kids ->
  (forall q c, c ∈ kids q -> is_Some (names R !! c)) ->
  (forall c, c ∈ kids p -> f (ent c) = Ret (found (head (filter (named R name) (preorder n kids c))))) ->
  (forall c x, c ∈ kids p -> x ∈ preorder n kids c -> x ∈ alive R) ->
  forall l, l ⊆ kids p ->
  search_children f name (ent <$> l) R
  = Ret (found (head (filter (named R name) (flat_map (fun c => c :: preorder n kids c) l)))).
Proof.
  intros HR Hnm Hf Hal. induction l as [|c l IH]; intros Hl; [done|].
  assert (c ∈ kids p) as Hc by set_solver.
  rewrite fmap_cons. cbn [search_children flat_map app]. destruct (Hnm p c Hc) as [m Hm].
  unfold getName. cbn [ent entityHandle mbind option_bind]. rewrite Hm. cbn [deref]. rewrite bind_Ret.
  case_bool_decide as Hname.
  - rewrite filter_cons_True; [done|]. unfold named. congruence.
  - rewrite filter_cons_False by (unfold named; congruence). rewrite Hf, bind_Ret, filter_app by done.
    destruct (filter (named R name) (preorder n kids c)) as [|x r] eqn:Ex; cbn [head app].
    + cbn [found null valid scene andb]. apply IH. set_solver.
    + cbn [found valid ent scene andb entityHandle]. rewrite valid_alive; [done|].
      apply (Hal c); [done|]. assert (x ∈ x :: r) as Hx by set_solver. rewrite <- Ex in Hx.
      by apply list_elem_of_filter in Hx as [_ ?].
Qed.

Lemma preorder_alive R kids n e x : Rep R kids -> x ∈ preorder n kids e -> x ∈ alive R.
Proof.
  intros HR. revert e. induction n as [|n IH]; intros e Hx; [set_solver|]. cbn in Hx.
  apply list_elem_of_In, in_flat_map in Hx as (c & Hc%list_elem_of_In & [->|Hx%list_elem_of_In]); [|by eapply IH].
  destruct (rep_kid _ _ HR _ _ Hc) as [(h & Hh & _) _]. by eapply (rep_alive _ _ HR).
Qed.

Lemma getChildInChildren_Rep R kids name : Rep R kids ->
  (forall q c, c ∈ kids q -> is_Some (names R !! c)) -> forall n e, height_lt n kids e ->
  getChildInChildren n (ent e) name R = Ret (found (head (filter (named R name) (preorder n kids e)))).
Proof.
  intros HR Hnm. induction n as [|n IH]; intros e He; [done|]. cbn [getChildInChildren preorder].
  rewrite (getChildren_Rep R kids) by done. rewrite bind_Ret.
  apply (search_children_spec R kids name n e); [done|done| | |done].
  - intros c Hc. by apply IH, He.
  - intros c x _. by apply preorder_alive.
Qed.
(** *** Histories *)

Inductive tree_step : relation Registry :=
  | step_create e R : e ∉ alive R -> tree_step R (create_handle e R)
  | step_setParent e p R R' : e ∈ alive R -> p ∈ alive R ->
      setParent (ent e) (ent p) R = Ret R' -> tree_step R R'
  | step_setActive e a R R' : setActive (ent e) a R = Ret R' -> tree_step R R'
  | step_destroy e R R' : e ∈ alive R -> getChildren (ent e) R = Ret [] ->
      destroy (ent e) R = Ret R' -> tree_step R R'.

(** [setParent] between live entities always returns, in a represented state. *)
Lemma setParent_total R kids e p : Rep R kids -> e ∈ alive R -> p ∈ alive R ->
  exists R' kids', setParent (ent e) (ent p) R = Ret R' /\ Rep R' kids'.
Proof.
  intros HR He Hp. destruct (decide (p = e)) as [->|Hpe].
  { exists R, kids. split; [|done]. apply (setParent_refused R kids); [done|by left]. }
  destruct (isParent_spec R kids p e HR) as (b & Hrun & Hb). destruct b.
  - exists R, kids. split; [|done]. apply (setParent_refused R kids); [done|]. right. by apply Hb.
  - destruct (setParent_Rep R kids e p) as (R' & ? & ? & _); try done; [naive_solver|]. eauto.
Qed.

Lemma tree_step_Rep R R' : tree_step R R' -> (exists kids, Rep R kids) -> exists kids, Rep R' kids.
Proof.
  destruct 1 as [e R He|e p R R' He Hp Hrun|e a R R' Hrun|e R R' He Hk Hrun]; intros [kids HR].
  - exists kids. by apply create_Rep.
  - destruct (setParent_total R kids e p) as (R1 & k & Hr & HR1); [done..|]. rewrite Hr in Hrun. simplify_eq. eauto.
  - unfold setActive in Hrun. cbn in Hrun. case_bool_decide; simplify_eq. exists kids. destruct HR. by split.
  - rewrite (getChildren_Rep R kids) in Hk by done. destruct (kids e) eqn:E; [|done].
    destruct (destroy_Rep R kids e) as (R1 & Hr & HR1 & _); [done..|]. rewrite Hr in Hrun. simplify_eq. eauto.
Qed.

Lemma reachable_Rep R : rtc tree_step empty R -> exists kids, Rep R kids.
Proof.
  intros Hr. apply (rtc_invariant tree_step (fun R => exists kids, Rep R kids) empty R); [|by exists (fun _ => []); apply Rep_empty|done].
  intros a b. apply tree_step_Rep.
Qed.

(** A registry with entity 1 and its children 2 and 3. *)
Definition run_or_empty (r : outcome Registry) : Registry := match r with Ret R => R | Exn _ => empty end.
Definition demo0 : Registry := create_handle 3 (create_handle 2 (create_handle 1 empty)).
Definition demo : Registry := run_or_empty (R ← setParent (ent 2) (ent 1) demo0; setParent (ent 3) (ent 1) R).
Definition demo_kids : entity -> list entity := attach 3 1 (detach 3 (attach 2 1 (detach 2 (fun _ => [])))).

Lemma demo_Rep : Rep demo demo_kids.
Proof.
  assert (Rep demo0 (fun _ => [])) as H0 by (do 3 apply create_Rep; apply Rep_empty).
  assert (~ tc (up demo0) 1%N 2%N) as Hn0.
  { intros (z & h & Hz & _)%tc_last. cbn in Hz. by rewrite lookup_empty in Hz. }
  destruct (setParent_Rep demo0 _ 2%N 1%N H0) as (R1 & Hr1 & HR1 & Ha1 & _); try done;
    try (apply (bool_decide_unpack _); by vm_compute).
  assert (~ tc (up R1) 1%N 3%N) as Hn1.
  { intros (z & h & Hz & Hp)%tc_last. destruct (rep_links _ _ HR1 _ _ Hz) as [_ Hs]. rewrite Hp in Hs.
    destruct Hs as [Hs _]. unfold attach, detach in Hs. cbn in Hs. set_solver. }
  destruct (setParent_Rep R1 _ 3%N 1%N HR1) as (R2 & Hr2 & HR2 & _); try done;
    try (rewrite Ha1; apply (bool_decide_unpack _); by vm_compute).
  unfold demo. rewrite Hr1, bind_Ret, Hr2. done.
Qed.

(** *** Theorems *)

(** C1. In every state reached by creating entities, changing parents and
    destroying entities without children, the links represent a forest: child
    lists are finite and without repetition, every child names its parent and its
    neighbours, and no entity is its own ancestor.  In such a state [setParent],
    [isParent] and [getChildren] on live entities return without error. *)
Theorem entity_tree_invariant R : rtc tree_step empty R ->
  exists kids, Rep R kids
    /\ (forall e, getChildren (ent e) R = Ret (ent <$> kids e))
    /\ (forall e p, e ∈ alive R -> p ∈ alive R -> exists R', setParent (ent e) (ent p) R = Ret R')
    /\ (forall e p, exists b, isParent (ent e) (ent p) R = Ret b).
Proof.
  intros Hr. destruct (reachable_Rep R Hr) as [kids HR]. exists kids. split; [done|]. split; [|split].
  - intros e. by apply getChildren_Rep.
  - intros e p He Hp. destruct (setParent_total R kids e p) as (R' & _ & ? & _); eauto.
  - intros e p. destruct (isParent_spec R kids e p HR) as (b & ? & _). eauto.
Qed.

(** C2. [setParent] refines the forest: a request that would make an entity its own
    ancestor, or its own parent, changes nothing; any other request removes the
    entity from its old parent's children and appends it to the new parent's,
    and leaves names, activity and the live handles as they are. *)
Theorem setParent_refines R kids e p : Rep R kids -> e ∈ alive R -> p ∈ alive R ->
  (p = e \/ tc (up R) p e -> setParent (ent e) (ent p) R = Ret R)
  /\ (p ≠ e -> ~ tc (up R) p e -> tree_result R (attach e p (detach e kids)) (setParent (ent e) (ent p) R)).
Proof. intros HR He Hp. split; [by apply (setParent_refused R kids)|]. intros. by apply setParent_Rep. Qed.

(** C3. [isParent] terminates and decides whether the second entity is a proper
    ancestor of the first. *)
Theorem isParent_decides_ancestor R kids e p : Rep R kids ->
  exists b, isParent (ent e) (ent p) R = Ret b /\ (b = true <-> tc (up R) e p).
Proof. apply isParent_spec. Qed.

(** Destroying an entity without children removes it from its parent's children
    and from the registry, and keeps every other entity's place. *)
Theorem destroy_leaf_refines R kids e : Rep R kids -> e ∈ alive R -> kids e = [] ->
  exists R', destroy (ent e) R = Ret R' /\ Rep R' (detach e kids) /\ alive R' = alive R ∖ {[e]}
    /\ getChildren (ent e) R' = Ret [].
Proof.
  intros HR He Hk. destruct (destroy_Rep R kids e) as (R' & Hrun & HR' & Ha & _); [done..|].
  exists R'. do 3 (split; [done|]). rewrite (getChildren_Rep R' _ e HR'). unfold detach. by rewrite Hk.
Qed.

(** [getChildInChildren] returns the first entity in depth-first order below
    [e] that has the name, or the null entity; the depth of the recursion is at
    most the number of [Hierarchy] components. *)
Theorem getChildInChildren_first R kids e name : Rep R kids ->
  (forall q c, c ∈ kids q -> is_Some (names R !! c)) ->
  getChildInChildren (fuel R) (ent e) name R
  = Ret (found (head (filter (named R name) (preorder (fuel R) kids e)))).
Proof. intros HR Hn. apply getChildInChildren_Rep; [done..|]. by apply height_bound. Qed.

(** Destroying an entity that has children leaves their links behind.  Here 1
    has the children 2 and 3 and is destroyed; 2 and 5 move under 4; moving 3
    away then follows its stale link to 2 and cuts 5 off: [getChildren] of 4 no
    longer lists 5, whose parent is still 4. *)
Definition orphaned : outcome Registry :=
  R ← destroy (ent 1) (create_handle 6 (create_handle 5 (create_handle 4 demo)));
  R ← setParent (ent 2) (ent 4) R;
  R ← setParent (ent 5) (ent 4) R;
  setParent (ent 3) (ent 6) R.

(** The children of a destroyed entity keep links that later corrupt the child
    list of another entity: a history of calls that all return after which 5 has
    the parent 4 and is missing from the children of 4. *)
Theorem destroy_parent_corrupts : exists R,
  orphaned = Ret R /\ getParent (ent 5) R = Ret (ent 4) /\ getChildren (ent 4) R = Ret [ent 2].
Proof. exists (run_or_empty orphaned). by vm_compute. Qed.

Lemma demo_tree_reachable : rtc tree_step empty demo.
Proof.
  eapply rtc_l; [apply (step_create 1); by vm_compute|]. eapply rtc_l; [apply (step_create 2); by vm_compute|].
  eapply rtc_l; [apply (step_create 3); by vm_compute|].
  eapply rtc_l; [apply (step_setParent 2 1 _ (run_or_empty (setParent (ent 2) (ent 1) demo0)));
    [apply (bool_decide_unpack _); by vm_compute..|by vm_compute]|].
  eapply rtc_l; [apply (step_setParent 3 1 _ demo);
    [apply (bool_decide_unpack _); by vm_compute..|by vm_compute]|]. apply rtc_refl.
Qed.

Lemma entity_tree_invariant_witness : exists kids, Rep demo kids.
Proof. destruct (entity_tree_invariant demo demo_tree_reachable) as (kids & HR & _). by exists kids. Defined.

Lemma setParent_refines_witness : setParent (ent 2) (ent 2) demo = Ret demo.
Proof.
  apply (setParent_refines demo demo_kids 2 2 demo_Rep); [apply (bool_decide_unpack _); by vm_compute..|by left].
Defined.

Lemma isParent_decides_ancestor_witness :
  exists b, isParent (ent 2) (ent 1) demo = Ret b /\ (b = true <-> tc (up demo) 2%N 1%N).
Proof. exact (isParent_decides_ancestor demo demo_kids 2 1 demo_Rep). Defined.

Lemma destroy_leaf_refines_witness :
  exists R', destroy (ent 2) demo = Ret R' /\ Rep R' (detach 2 demo_kids) /\ alive R' = alive demo ∖ {[2%N]}
    /\ getChildren (ent 2) R' = Ret [].
Proof. apply (destroy_leaf_refines demo demo_kids 2 demo_Rep); [apply (bool_decide_unpack _)|]; by vm_compute. Defined.

Definition demo_named : Registry :=
  mkRegistry (alive demo) (hier demo) {[1%N := str "a"%string; 2%N := str "b"%string; 3%N := str "c"%string]} (actives demo).

Lemma getChildInChildren_first_witness :
  getChildInChildren (fuel demo_named) (ent 1) (str "c"%string) demo_named
  = Ret (found (head (filter (named demo_named (str "c"%string)) (preorder (fuel demo_named) demo_kids 1)))).
Proof.
  apply (getChildInChildren_first demo_named demo_kids).
  - destruct demo_Rep as [H1 H2 H3 H4 H5]. by split.
  - intros q c Hc. apply (rep_kid _ _ demo_Rep) in Hc as [(h & Hh & _) _].
    assert (c ∈ [1; 2; 3]%N) as Hd.
    { apply (rep_alive _ _ demo_Rep) in Hh. apply (elem_of_elements (C := gset entity)) in Hh.
      vm_compute in Hh. set_solver. }
    repeat (apply elem_of_cons in Hd as [->|Hd]; [by eexists|]). set_solver.
Defined.

Example demo_search : getChildInChildren 5 (ent 1) (str "c"%string) demo_named = Ret (ent 3).
Proof. by vm_compute. Qed.

End Tree.
