(* ===== verification/QuadTree.v ===== *)
(** * QuadTree: the search tree of free rectangles

    Models [Engine/QuadTree.h].  The nodes live in an [unordered_map] from keys
    to nodes and are linked by keys, 0 meaning none; [nodes[k]] inserts a default
    node when the key is missing.  [Tree] relates the map to an abstract tree:
    every loop terminates, [add] and [erase] change the contents by exactly one
    key, and [findNode] returns a stored key that satisfies the predicate. *)

From S2P Require Import Prelude.
From stdpp Require Import base decidable list sets gmap.
From Stdlib Require Import ZArith Lia.

Module QuadTree.

Inductive Direction : Type := LEFT | RIGHT | UP | DOWN.

#[export] Instance Direction_eq_dec : EqDecision Direction.
Proof. solve_decision. Defined.

Definition directions : list Direction := [LEFT; RIGHT; UP; DOWN].

Section Quad.
Context {V : Type} (V0 : V).

Record Node := mkNode { value : V; parent : N; left : N; right : N; top : N; bottom : N }.

(** The tree: the map of nodes and the root key. *)
Record QuadTree := mkQuad { nodes : gmap N Node; root : N }.

(** [Node::Node()] *)
Definition Node0 : Node := mkNode V0 0 0 0 0 0.

Definition leaf (n : Node) (dir : Direction) : N :=
  match dir with LEFT => left n | RIGHT => right n | UP => top n | DOWN => bottom n end.

Definition set_leaf (n : Node) (dir : Direction) (key : N) : Node :=
  match dir with
  | LEFT => mkNode (value n) (parent n) key (right n) (top n) (bottom n)
  | RIGHT => mkNode (value n) (parent n) (left n) key (top n) (bottom n)
  | UP => mkNode (value n) (parent n) (left n) (right n) key (bottom n)
  | DOWN => mkNode (value n) (parent n) (left n) (right n) (top n) key
  end.

Definition set_parent (n : Node) (p : N) : Node :=
  mkNode (value n) p (left n) (right n) (top n) (bottom n).

(** [Node::erase]: the first link equal to [key] is cleared. *)
Definition node_erase (key : N) (n : Node) : Node :=
  if decide (left n = key) then set_leaf n LEFT 0
  else if decide (right n = key) then set_leaf n RIGHT 0
  else if decide (top n = key) then set_leaf n UP 0
  else if decide (bottom n = key) then set_leaf n DOWN 0
  else n.

(** [nodes[k]]: the node, in a map where the key is present. *)
Definition touch (k : N) (m : gmap N Node) : gmap N Node :=
  match m !! k with Some _ => m | None => <[k := Node0]> m end.
Definition node_at (m : gmap N Node) (k : N) : Node := default Node0 (m !! k).

Context (comparator : V -> V -> Direction).

(** [Node::addOrNext] on the node [n]: the new node and the link that was there. *)
Definition addOrNext (key : N) (val : V) (n : Node) : Node * N :=
  let dir := comparator val (value n) in
  let dirkey := leaf n dir in
  (if decide (dirkey = 0%N) then set_leaf n dir key else n, dirkey).

(** [while (current)] of [add]: from [current] down; returns the last node. *)
Fixpoint add_loop (fuel : nat) (m : gmap N Node) (key : N) (val : V) (par current : N) : outcome (gmap N Node * N) :=
  match fuel with
  | O => Exn OutOfFuel
  | S fuel =>
      if decide (current = 0%N) then Ret (m, par)
      else
        let m := touch current m in
        let '(n, next) := addOrNext key val (node_at m current) in
        add_loop fuel (<[current := n]> m) key val current next
  end.

(** More steps than there are nodes. *)
Definition fuel (m : gmap N Node) : nat := 2 + size m.

(** [nodes.emplace] keeps a node that is already there. *)
Definition emplace (k : N) (n : Node) (m : gmap N Node) : gmap N Node :=
  match m !! k with Some _ => m | None => <[k := n]> m end.

Definition add (key : N) (val : V) (q : QuadTree) : outcome QuadTree :=
  if decide (root q = 0%N) then
    Ret (mkQuad (emplace key (mkNode val 0 0 0 0 0) (nodes q)) key)
  else
    '(m, par) ← add_loop (fuel (nodes q)) (nodes q) key val 0 (root q);
    Ret (mkQuad (emplace key (mkNode val par 0 0 0 0) m) (root q)).

(** The loop of [readd]: the value is read from the map in every step. *)
Fixpoint readd_loop (fuel : nat) (m : gmap N Node) (key par current : N) : outcome (gmap N Node * N) :=
  match fuel with
  | O => Exn OutOfFuel
  | S fuel =>
      if decide (current = 0%N) then Ret (m, par)
      else
        let m := touch key (touch current m) in
        let '(n, next) := addOrNext key (value (node_at m key)) (node_at m current) in
        readd_loop fuel (<[current := n]> m) key current next
  end.

Definition readd_from (start key : N) (q : QuadTree) : outcome QuadTree :=
  '(m, par) ← readd_loop (fuel (nodes q)) (nodes q) key 0 start;
  let m := touch key m in
  Ret (mkQuad (<[key := set_parent (node_at m key) par]> m) (root q)).

Definition readd (start key : N) (q : QuadTree) : outcome QuadTree :=
  if decide (start = 0%N) then
    if decide (root q = 0%N) then
      let m := touch key (nodes q) in
      Ret (mkQuad (<[key := set_parent (node_at m key) 0]> m) key)
    else readd_from (root q) key q
  else readd_from start key q.

Fixpoint readd_all (start : N) (leaves : list N) (q : QuadTree) : outcome QuadTree :=
  match leaves with
  | [] => Ret q
  | key :: leaves => q ← readd start key q; readd_all start leaves q
  end.

Definition erase (key : N) (q : QuadTree) : outcome QuadTree :=
  match nodes q !! key with
  | None => Ret q
  | Some toerase =>
      let leaves := filter (fun k => k ≠ 0%N) (leaf toerase <$> directions) in
      let par := parent toerase in
      let q :=
        if decide (root q = key) then mkQuad (nodes q) 0
        else match nodes q !! par with
             | Some p => mkQuad (<[par := node_erase key p]> (nodes q)) (root q)
             | None => q
             end in
      readd_all par leaves (mkQuad (delete key (nodes q)) (root q))
  end.

Context (predicate : V -> V -> bool).

(** A recursive result is used when it is a key whose value fits. *)
Definition accept (m : gmap N Node) (val : V) (k : N) : bool :=
  bool_decide (k ≠ 0%N) && predicate val (value (node_at m k)).

Fixpoint findFrom (fuel : nat) (m : gmap N Node) (start : N) (val : V) : outcome (gmap N Node * N) :=
  match fuel with
  | O => Exn OutOfFuel
  | S fuel =>
      if decide (start = 0%N) then Ret (m, 0%N)
      else
        let m := touch start m in
        let fulfilled := predicate val (value (node_at m start)) in
        match comparator val (value (node_at m start)) with
        | RIGHT =>
            '(m, k) ← findFrom fuel m (right (node_at m start)) val;
            Ret (m, if accept m val k then k else start)
        | DOWN =>
            '(m, k) ← findFrom fuel m (bottom (node_at m start)) val;
            if accept m val k then Ret (m, k)
            else if fulfilled then Ret (m, start)
            else
              '(m, k) ← findFrom fuel m (right (node_at m start)) val;
              Ret (m, if accept m val k then k else start)
        | UP =>
            '(m, k) ← findFrom fuel m (top (node_at m start)) val;
            if accept m val k then Ret (m, k)
            else if fulfilled then Ret (m, start)
            else
              '(m, k) ← findFrom fuel m (right (node_at m start)) val;
              Ret (m, if accept m val k then k else start)
        | LEFT =>
            '(m, k) ← findFrom fuel m (left (node_at m start)) val;
            if accept m val k then Ret (m, k)
            else if fulfilled then Ret (m, start)
            else
              '(m, k) ← findFrom fuel m (bottom (node_at m start)) val;
              if accept m val k then Ret (m, k)
              else if fulfilled then Ret (m, start)
              else
                '(m, k) ← findFrom fuel m (top (node_at m start)) val;
                if accept m val k then Ret (m, k)
                else if fulfilled then Ret (m, start)
                else
                  '(m, k) ← findFrom fuel m (right (node_at m start)) val;
                  Ret (m, if accept m val k then k else start)
        end
  end.

Definition findNode (val : V) (q : QuadTree) : outcome (QuadTree * N) :=
  if decide (root q = 0%N) then Ret (q, 0%N)
  else
    '(m, key) ← findFrom (fuel (nodes q)) (nodes q) (root q) val;
    let m := touch key m in
    Ret (mkQuad m (root q), if predicate val (value (node_at m key)) then key else 0%N).

(** [operator[]] *)
Definition at_key (key : N) (q : QuadTree) : QuadTree * V :=
  let m := touch key (nodes q) in (mkQuad m (root q), value (node_at m key)).

Definition clear (q : QuadTree) : QuadTree := mkQuad ∅ 0.
Definition empty : QuadTree := mkQuad ∅ 0.

(** The stored values. *)
Definition contents (q : QuadTree) : gmap N V := value <$> nodes q.

End Quad.
Arguments Node : clear implicits.
Arguments QuadTree : clear implicits.
End QuadTree.

(** ** The abstract tree *)
Module QTree.
Import QuadTree.

Section Quad.
Context {V : Type}.
Abbreviation Node := (QuadTree.Node V).
Implicit Types (m : gmap N Node).

Inductive tree : Type := E | T (k : N) (v : V) (ch : Direction -> tree).

Definition key (t : tree) : N := match t with E => 0%N | T k _ _ => k end.

Fixpoint keys (t : tree) : gset N :=
  match t with
  | E => ∅
  | T k _ ch => {[k]} ∪ (keys (ch LEFT) ∪ keys (ch RIGHT) ∪ keys (ch UP) ∪ keys (ch DOWN))
  end.

(** The nodes of [m] hold the tree [t], below the parent [par]. *)
Fixpoint repr m (par : N) (t : tree) : Prop :=
  match t with
  | E => True
  | T k v ch => exists n, m !! k = Some n /\ value n = v /\ parent n = par
      /\ forall d, leaf n d = key (ch d) /\ repr m k (ch d)
  end.

(** Keys are not 0 and occur once. *)
Fixpoint wf (t : tree) : Prop :=
  match t with
  | E => True
  | T k _ ch => k ≠ 0%N
      /\ forall d, k ∉ keys (ch d) /\ wf (ch d) /\ forall d', d ≠ d' -> keys (ch d) ## keys (ch d')
  end.

Fixpoint height_lt (n : nat) (t : tree) : Prop :=
  match t, n with
  | E, _ => True
  | T _ _ _, O => False
  | T _ _ ch, S n => forall d, height_lt n (ch d)
  end.

Lemma elem_keys x k v ch : x ∈ keys (T k v ch) <-> x = k \/ exists d, x ∈ keys (ch d).
Proof.
  cbn. rewrite !elem_of_union, elem_of_singleton. split.
  - intros [->|[[[?|?]|?]|?]]; eauto.
  - intros [->|[[] ?]]; tauto.
Qed.

Lemma key_elem t : t ≠ E -> key t ∈ keys t.
Proof. destruct t as [|k v ch]; [done|]. intros _. apply elem_keys. by left. Qed.

Lemma key_zero t : wf t -> key t = 0%N <-> t = E.
Proof. destruct t; cbn; [done|]. intros [? _]. split; [|done]. intros ->. done. Qed.

Lemma keys_nonzero t x : wf t -> x ∈ keys t -> x ≠ 0%N.
Proof.
  induction t as [|k v ch IH]; [set_solver|]. intros [Hk Hd] Hx%elem_keys.
  destruct Hx as [->|[d Hx]]; [done|]. apply (IH d); [|done]. apply Hd.
Qed.

Lemma height_mono n n' t : n <= n' -> height_lt n t -> height_lt n' t.
Proof.
  revert n n'. induction t as [|k v ch IH]; intros [|n] [|n'] Hn; cbn; try done; [lia|].
  intros H d. apply (IH d n); [lia|done].
Qed.

Lemma height_size t : wf t -> height_lt (size (keys t)) t.
Proof.
  induction t as [|k v ch IH]; [done|]. intros [Hk Hd].
  assert (forall d, size (keys (ch d)) < size (keys (T k v ch))) as Hs.
  { intros d. apply subset_size. split.
    - intros x Hx. apply elem_keys. eauto.
    - intros Hsub. apply (proj1 (Hd d)). apply Hsub, elem_keys. by left. }
  destruct (size (keys (T k v ch))) as [|s]; [specialize (Hs LEFT); lia|].
  intros d. apply height_mono with (size (keys (ch d))); [specialize (Hs d); lia|]. apply IH, Hd.
Qed.

Lemma repr_frame m m' par t :
  (forall x, x ∈ keys t -> m' !! x = m !! x) -> repr m par t -> repr m' par t.
Proof.
  revert par. induction t as [|k v ch IH]; intros par Hm; [done|].
  intros (n & Hn & Hv & Hp & Hd). exists n. rewrite Hm by (apply elem_keys; by left).
  do 3 (split; [done|]). intros d. split; [apply Hd|]. apply (IH d); [|apply Hd].
  intros x Hx. apply Hm, elem_keys. eauto.
Qed.

Lemma repr_lookup m par t x : repr m par t -> x ∈ keys t -> is_Some (m !! x).
Proof.
  revert par. induction t as [|k v ch IH]; intros par; [set_solver|].
  intros (n & Hn & _ & _ & Hd) [->|[d Hx]]%elem_keys; [by eexists|]. eapply IH; [apply (Hd d)|done].
Qed.

(** A map that holds exactly one tree. *)
Record Tree (q : QuadTree V) (t : tree) : Prop := mkTree {
  tree_root : root q = key t;
  tree_repr : repr (nodes q) 0 t;
  tree_wf : wf t;
  tree_dom : dom (nodes q) = keys t
}.

Lemma tree_fuel q t : Tree q t -> height_lt (fuel (nodes q) - 1) t.
Proof.
  intros [_ _ Hwf Hdom]. apply height_mono with (size (keys t)); [|by apply height_size].
  rewrite <- Hdom, size_dom. unfold fuel. lia.
Qed.

Context (V0 : V).

Lemma touch_id m k : is_Some (m !! k) -> touch V0 k m = m.
Proof. intros [n Hn]. unfold touch. by rewrite Hn. Qed.

Lemma node_at_Some m k n : m !! k = Some n -> node_at V0 m k = n.
Proof. intros Hn. unfold node_at. by rewrite Hn. Qed.

Lemma leaf_set_leaf (n : Node) d d' k : leaf (set_leaf n d k) d' = if decide (d = d') then k else leaf n d'.
Proof. by destruct d, d'. Qed.
Lemma value_set_leaf (n : Node) d k : value (set_leaf n d k) = value n.
Proof. by destruct d. Qed.
Lemma parent_set_leaf (n : Node) d k : parent (set_leaf n d k) = parent n.
Proof. by destruct d. Qed.

(** *** Grafting a tree [s] whose root value is [v] *)
Context (comparator : V -> V -> Direction).

Fixpoint graft (s : tree) (v : V) (t : tree) : tree :=
  match t with
  | E => s
  | T k v0 ch => T k v0 (fun d => if decide (d = comparator v v0) then graft s v (ch d) else ch d)
  end.

Lemma graft_keys s v t x : x ∈ keys (graft s v t) <-> x ∈ keys s \/ x ∈ keys t.
Proof.
  induction t as [|k v0 ch IH]; [set_solver|]. cbn [graft]. rewrite !elem_keys.
  split.
  - intros [->|[d Hd]]; [by right; left|]. destruct (decide (d = comparator v v0)) as [->|]; [|eauto].
    apply IH in Hd as [?|?]; eauto.
  - intros [Hs|[->|[d Hd]]]; [|by left|].
    + right. exists (comparator v v0). rewrite decide_True by done. apply IH. by left.
    + right. exists d. case_decide; [|done]. apply IH. by right.
Qed.

Lemma graft_wf s v t : wf s -> wf t -> keys s ## keys t -> wf (graft s v t).
Proof.
  intros Hs. induction t as [|k v0 ch IH]; intros Ht Hdis; [done|]. destruct Ht as [Hk Hd].
  assert (forall d, keys s ## keys (ch d)) as Hsd.
  { intros d x H1 H2. apply (Hdis x H1), elem_keys. eauto. }
  assert (k ∉ keys s) as Hks by (intros H; apply (Hdis k H), elem_keys; by left).
  split; [done|]. intros d. destruct (Hd d) as (H1 & H2 & H3). split; [|split].
  - case_decide; [|done]. rewrite graft_keys. tauto.
  - case_decide; [by apply IH|done].
  - intros d' Hne x Hx Hx'. destruct (decide (d = comparator v v0)) as [E1|E1],
      (decide (d' = comparator v v0)) as [E2|E2]; [congruence| | |by apply (H3 d' Hne x)].
    + apply graft_keys in Hx as [Hx|Hx]; [by apply (Hsd d' x)|by apply (H3 d' Hne x)].
    + apply graft_keys in Hx' as [Hx'|Hx']; [by apply (Hsd d x)|by apply (H3 _ Hne x)].
Qed.

(** The descent changes one node of the tree, so that the tree with [s] grafted
    on is represented wherever [s] then is, below the last node visited. *)
Definition descends (t : tree) (s : tree) m par (g : tree) (r : outcome (gmap N Node * N)) : Prop :=
  exists m' q, r = Ret (m', q) /\ dom m' = dom m
    /\ (forall x, x ∉ keys t -> m' !! x = m !! x)
    /\ (forall x, (value <$> m' !! x) = (value <$> m !! x))
    /\ (t ≠ E -> q ∈ keys t)
    /\ forall m'', (forall x, x ∈ keys t -> m'' !! x = m' !! x) -> repr m'' q s -> repr m'' par g.

(** The grafted tree, from its top node and the grafted child. *)
Lemma graft_build s v k v0 ch (nd : Node) m par : wf (T k v0 ch) ->
  (forall d, leaf nd d = key (ch d) /\ repr m k (ch d)) ->
  let d := comparator v v0 in
  forall m'' (q : Node), (forall x, x ∈ keys (T k v0 ch) -> x ≠ k -> x ∉ keys (ch d) -> m'' !! x = m !! x) ->
     m'' !! k = Some q -> value q = v0 -> parent q = par ->
     (forall d', leaf q d' = if decide (d' = d) then key (graft s v (ch d)) else leaf nd d') ->
     repr m'' k (graft s v (ch d)) -> repr m'' par (graft s v (T k v0 ch)).
Proof.
  intros [Hk Hd] Hch d m'' q Hold Hq Hqv Hqp Hql Hg. exists q. do 3 (split; [done|]). intros d'. rewrite Hql. fold d.
  destruct (decide (d' = d)) as [->|Hne]; [done|]. split; [apply Hch|].
  apply repr_frame with m; [|apply Hch]. intros x Hx. destruct (Hd d') as (H1 & _ & H3).
  apply Hold; [apply elem_keys; eauto|by intros ->|]. intros Hx'. by apply (H3 d Hne x).
Qed.

Lemma add_loop_spec s v : forall t m par p0 n, key s ≠ 0%N -> wf t -> repr m par t -> (t = E -> p0 = par) ->
  height_lt n t -> 0 < n ->
  descends t s m par (graft s v t) (add_loop V0 comparator (S n) m (key s) v p0 (key t)).
Proof.
  induction t as [|k v0 ch IH]; intros m par p0 n Hs Hwf Hr Hp0 Hh Hn.
  { rewrite (Hp0 eq_refl). exists m, par. done. }
  destruct n as [|n]; [lia|]. destruct Hwf as [Hk Hd]. destruct Hr as (nd & Hnd & Hv & Hpar & Hch).
  set (d := comparator v v0) in *.
  assert (add_loop V0 comparator (S (S n)) m (key s) v p0 k =
    add_loop V0 comparator (S n) (<[k := if decide (key (ch d) = 0%N) then set_leaf nd d (key s) else nd]> m)
      (key s) v k (key (ch d))) as Hstep.
  { cbn [add_loop]. rewrite decide_False by done. rewrite touch_id by (by eexists).
    rewrite (node_at_Some _ _ _ Hnd). unfold addOrNext. rewrite Hv. fold d. by rewrite (proj1 (Hch d)). }
  cbn [key]. rewrite Hstep. clear Hstep.
  pose proof (graft_build s v k v0 ch nd m par (conj Hk Hd) Hch) as Hbuild.
  change (comparator v v0) with d in Hbuild. cbv zeta in Hbuild.
  destruct (decide (key (ch d) = 0%N)) as [Hz|Hz].
  - assert (ch d = E) as Hce by (apply key_zero; [apply Hd|done]).
    exists (<[k := set_leaf nd d (key s)]> m), k. rewrite Hz. split; [done|].
    split; [rewrite dom_insert_L; apply elem_of_dom_2 in Hnd; set_solver|].
    split; [intros x Hx; rewrite lookup_insert_ne; [done|]; intros ->; apply Hx, elem_keys; by left|].
    split. { intros x. destruct (decide (k = x)) as [<-|]; [|by rewrite lookup_insert_ne].
      rewrite lookup_insert_eq, Hnd. cbn. by rewrite value_set_leaf. }
    split; [intros _; apply elem_keys; by left|]. intros m'' Hm Hrs. rewrite Hce in Hbuild.
    apply Hbuild with (set_leaf nd d (key s)).
    + intros x Hx Hxk _. by rewrite Hm, lookup_insert_ne.
    + rewrite Hm by (apply elem_keys; by left). by rewrite lookup_insert_eq.
    + by rewrite value_set_leaf.
    + by rewrite parent_set_leaf.
    + intros d'. rewrite leaf_set_leaf. repeat case_decide; naive_solver.
    + done.
  - assert (ch d ≠ E) as Hce by (intros Hce; apply Hz; by rewrite Hce).
    rewrite insert_id by done.
    destruct n as [|n]; [specialize (Hh d); by destruct (ch d)|].
    destruct (IH d m k k (S n)) as (m' & q & Hrun & Hdom & Hout & Hval & Hq & Hg);
      [done|apply Hd|apply Hch|done|apply Hh|lia|].
    exists m', q. split; [done|]. split; [done|].
    split; [intros x Hx; apply Hout; intros Hx'; apply Hx, elem_keys; eauto|]. split; [done|].
    split; [intros _; apply elem_keys; eauto|]. intros m'' Hm Hrs. apply Hbuild with nd; try done.
    + intros x Hx Hxk Hxd. by rewrite Hm, Hout.
    + rewrite Hm by (apply elem_keys; by left). rewrite Hout; [done|]. apply Hd.
    + intros d'. case_decide; [|done]. subst d'. rewrite (proj1 (Hch d)). by destruct (ch d).
    + apply Hg; [|done]. intros x Hx. apply Hm, elem_keys. eauto.
Qed.

(** *** Grafting below a given node *)
Fixpoint graft_at (p : N) (s : tree) (v : V) (t : tree) : tree :=
  match t with
  | E => E
  | T k v0 ch => if decide (k = p) then graft s v t
      else T k v0 (fun d => if decide (p ∈ keys (ch d)) then graft_at p s v (ch d) else ch d)
  end.

Lemma graft_at_keys p s v t x : p ∈ keys t -> x ∈ keys (graft_at p s v t) <-> x ∈ keys s \/ x ∈ keys t.
Proof.
  induction t as [|k v0 ch IH]; [set_solver|]. intros Hp. cbn [graft_at].
  destruct (decide (k = p)) as [Hkp|Hkp]; [apply graft_keys|].
  apply elem_keys in Hp as [?|[d0 Hp]]; [done|]. rewrite !elem_keys. split.
  - intros [->|[d Hd]]; [by right; left|]. destruct (decide (p ∈ keys (ch d))); [|eauto].
    apply IH in Hd as [?|?]; eauto.
  - intros [Hs|[->|[d Hd]]]; [|by left|].
    + right. exists d0. rewrite decide_True by done. apply IH; eauto.
    + right. exists d. case_decide; [|done]. apply IH; eauto.
Qed.

Lemma graft_at_wf p s v t : wf s -> wf t -> keys s ## keys t -> p ∈ keys t -> wf (graft_at p s v t).
Proof.
  intros Hs. induction t as [|k v0 ch IH]; intros Ht Hdis Hp; [done|]. cbn [graft_at].
  destruct (decide (k = p)) as [Hkp|Hkp]; [by apply graft_wf|]. destruct Ht as [Hk Hd].
  assert (forall d, keys s ## keys (ch d)) as Hsd.
  { intros d x H1 H2. apply (Hdis x H1), elem_keys. eauto. }
  assert (k ∉ keys s) as Hks by (intros H; apply (Hdis k H), elem_keys; by left).
  split; [done|]. intros d. destruct (Hd d) as (H1 & H2 & H3). split; [|split].
  - case_decide; [|done]. rewrite graft_at_keys by done. tauto.
  - case_decide; [by apply IH|done].
  - intros d' Hne x Hx Hx'. destruct (decide (p ∈ keys (ch d))) as [E1|E1],
      (decide (p ∈ keys (ch d'))) as [E2|E2]; [by apply (H3 d' Hne p)| | |by apply (H3 d' Hne x)].
    + apply graft_at_keys in Hx as [Hx|Hx]; [by apply (Hsd d' x)|by apply (H3 d' Hne x)|done].
    + apply graft_at_keys in Hx' as [Hx'|Hx']; [by apply (Hsd d x)|by apply (H3 _ Hne x)|done].
Qed.

Lemma graft_at_key p s v t : p ∈ keys t -> key (graft_at p s v t) = key t.
Proof. destruct t as [|k v0 ch]; [set_solver|]. intros _. cbn. by case_decide. Qed.

Lemma add_loop_at_spec p s v : forall t m par n, key s ≠ 0%N -> wf t -> repr m par t -> p ∈ keys t ->
  height_lt n t -> 0 < n ->
  descends t s m par (graft_at p s v t) (add_loop V0 comparator (S n) m (key s) v 0 p).
Proof.
  induction t as [|k v0 ch IH]; intros m par n Hs Hwf Hr Hp Hh Hn; [set_solver|]. cbn [graft_at].
  destruct (decide (k = p)) as [<-|Hkp].
  { apply (add_loop_spec s v (T k v0 ch)); done. }
  apply elem_keys in Hp as [?|[d Hp]]; [done|]. destruct Hwf as [Hk Hd].
  destruct Hr as (nd & Hnd & Hv & Hpar & Hch). destruct n as [|n]; [lia|].
  destruct (IH d m k (S n)) as (m' & q & Hrun & Hdom & Hout & Hval & Hq & Hg);
    [done|apply Hd|apply Hch|done|apply height_mono with n; [lia|apply Hh]|lia|].
  exists m', q. split; [done|]. split; [done|].
  split; [intros x Hx; apply Hout; intros Hx'; apply Hx, elem_keys; eauto|]. split; [done|].
  assert (ch d ≠ E) by (intros Hce; rewrite Hce in Hp; set_solver).
  split; [intros _; apply elem_keys; eauto|]. intros m'' Hm Hrs. exists nd.
  rewrite Hm by (apply elem_keys; by left). rewrite Hout by apply Hd. do 3 (split; [done|]).
  intros d'. destruct (decide (d' = d)) as [->|Hne].
  - rewrite decide_True by done. rewrite graft_at_key by done. split; [apply Hch|].
    apply Hg; [|done]. intros x Hx. apply Hm, elem_keys. eauto.
  - assert (forall x, x ∈ keys (ch d') -> x ∉ keys (ch d)) as Hdis.
    { intros x H1 H2. by apply (proj2 (proj2 (Hd d')) d Hne x). }
    rewrite decide_False by (intros ?; by apply (Hdis p)). split; [apply Hch|].
    apply repr_frame with m; [|apply Hch]. intros x Hx. rewrite Hm by (apply elem_keys; eauto).
    apply Hout. by apply Hdis.
Qed.

Lemma addOrNext_value c v (n : Node) : value (addOrNext comparator c v n).1 = value n.
Proof. unfold addOrNext. cbn. case_decide; [apply value_set_leaf|done]. Qed.

(** The loop of [readd] reads the same value in every step. *)
Lemma readd_loop_add_loop n : forall m c nd par cur, m !! c = Some nd ->
  readd_loop V0 comparator n m c par cur = add_loop V0 comparator n m c (value nd) par cur.
Proof.
  induction n as [|n IH]; intros m c nd par cur Hc; [done|]. cbn [readd_loop add_loop]. case_decide; [done|].
  assert (touch V0 cur m !! c = Some nd) as Htc.
  { unfold touch. destruct (m !! cur) eqn:Hcur; [done|]. rewrite lookup_insert_ne; congruence. }
  rewrite (touch_id _ c) by (by eexists). rewrite (node_at_Some _ _ _ Htc).
  destruct (addOrNext comparator c (value nd) (node_at V0 (touch V0 cur m) cur)) as [nn nx] eqn:Ea.
  assert (value nn = value (node_at V0 (touch V0 cur m) cur)) as Hvn.
  { pose proof (addOrNext_value c (value nd) (node_at V0 (touch V0 cur m) cur)) as H0. by rewrite Ea in H0. }
  destruct (decide (cur = c)) as [->|Hne].
  - rewrite (node_at_Some _ _ _ Htc) in Hvn. rewrite <- Hvn. apply IH. by rewrite lookup_insert_eq.
  - apply IH. by rewrite lookup_insert_ne.
Qed.

(** *** Detached subtrees waiting to be added again *)
Record Pending (q : QuadTree V) (t : tree) (ss : list tree) : Prop := mkPending {
  pend_root : root q = key t;
  pend_repr : repr (nodes q) 0 t;
  pend_wf : wf t;
  pend_loose : forall s, s ∈ ss -> s ≠ E /\ wf s /\ keys s ## keys t /\ exists par, repr (nodes q) par s;
  pend_disjoint : ForallOrdPairs (fun s s' => keys s ## keys s') ss;
  pend_dom : forall x, x ∈ dom (nodes q) <-> x ∈ keys t \/ exists s, s ∈ ss /\ x ∈ keys s
}.

Lemma repr_reparent m par s q n : wf s -> s ≠ E -> repr m par s -> m !! key s = Some n ->
  repr (<[key s := set_parent n q]> m) q s.
Proof.
  destruct s as [|k v ch]; [done|]. intros [Hk Hd] _ (n' & Hn & Hv & Hp & Hch) Hn'. cbn in Hn'. simplify_eq.
  exists (set_parent n' q). cbn [key]. rewrite lookup_insert_eq. do 3 (split; [done|]).
  intros d. split; [apply (Hch d)|]. apply repr_frame with m; [|apply Hch].
  intros x Hx. rewrite lookup_insert_ne; [done|]. intros ->. by apply (Hd d).
Qed.

Lemma contents_lookup (q : QuadTree V) x : contents q !! x = value <$> nodes q !! x.
Proof. unfold contents. by rewrite lookup_fmap. Qed.

(** [t'] takes over the keys of [t] and [s], and nothing else moves. *)
Lemma Pending_absorb q q' t t' s ss : Pending q t (s :: ss) -> wf t' ->
  (forall x, x ∈ keys t' <-> x ∈ keys s \/ x ∈ keys t) -> root q' = key t' -> repr (nodes q') 0 t' ->
  (forall x, x ∉ keys s -> x ∉ keys t -> nodes q' !! x = nodes q !! x) -> dom (nodes q') = dom (nodes q) ->
  Pending q' t' ss.
Proof.
  intros [Hroot Hrepr Hwf Hloose Hdis Hdom] Hwf' Hk Hroot' Hrepr' Hout Hdom'. split; try done.
  - intros s' Hs'. destruct (Hloose s') as (H1 & H2 & H3 & par & H4); [set_solver|].
    assert (keys s ## keys s') as Hss by (inversion Hdis as [|? ? Hall]; by apply (proj1 (Forall_forall _ _) Hall)).
    split; [done|]. split; [done|]. split; [intros x Hx; rewrite Hk; set_solver|].
    exists par. apply repr_frame with (nodes q); [|done]. intros x Hx. apply Hout; set_solver.
  - by inversion Hdis.
  - intros x. rewrite Hdom', Hdom, Hk. split.
    + intros [?|(y & [->|Hy]%elem_of_cons & ?)]; eauto.
    + intros [[?|?]|(y & Hy & ?)]; [right; exists s; set_solver|by left|right; exists y; set_solver].
Qed.

Lemma readd_from_spec q t s ss start : Pending q t (s :: ss) -> start ∈ keys t ->
  exists q' t', readd_from V0 comparator start (key s) q = Ret q' /\ Pending q' t' ss
    /\ start ∈ keys t' /\ contents q' = contents q.
Proof.
  intros HP Hst. pose proof HP as [Hroot Hrepr Hwf Hloose Hdis Hdom].
  destruct (Hloose s) as (Hs & Hwfs & Hst' & par & Hrs); [set_solver|].
  pose proof (key_elem s Hs) as Hks. destruct (repr_lookup _ _ _ _ Hrs Hks) as [nd Hnd].
  assert (keys t ⊆ dom (nodes q)) as Hsub by (intros x Hx; apply Hdom; by left).
  destruct (add_loop_at_spec start s (value nd) t (nodes q) 0 (S (size (nodes q)))) as
    (m' & p & Hrun & Hdom' & Hout & Hval & Hp & Hg); try done.
  { by apply keys_nonzero with s. }
  { apply height_mono with (size (keys t)); [|by apply height_size].
    apply subseteq_size in Hsub. rewrite size_dom in Hsub. lia. }
  { lia. }
  assert (m' !! key s = Some nd) as Hnd' by (rewrite Hout; [done|]; set_solver).
  unfold readd_from, fuel. cbn [Nat.add]. rewrite (readd_loop_add_loop _ _ _ _ _ _ Hnd), Hrun. cbn.
  rewrite touch_id, (node_at_Some _ _ _ Hnd') by (by eexists).
  assert (repr (<[key s := set_parent nd p]> m') p s) as Hrs'.
  { apply repr_reparent with par; [done|done| |done]. apply repr_frame with (nodes q); [|done].
    intros x Hx. apply Hout. set_solver. }
  eexists _, (graft_at start s (value nd) t). split; [reflexivity|]. split; [|split].
  - eapply Pending_absorb; [exact HP|by apply graft_at_wf| | | | |]; cbn.
    + intros x. by apply graft_at_keys.
    + by rewrite graft_at_key.
    + apply Hg; [|done]. intros x Hx. rewrite lookup_insert_ne; [done|]. set_solver.
    + intros x Hxs Hxt. rewrite lookup_insert_ne by set_solver. by apply Hout.
    + rewrite dom_insert_L, Hdom'. apply elem_of_dom_2 in Hnd. set_solver.
  - apply graft_at_keys; [done|by right].
  - apply map_eq. intros x. rewrite !contents_lookup. cbn. rewrite <- Hval.
    destruct (decide (key s = x)) as [<-|]; [|by rewrite lookup_insert_ne].
    by rewrite lookup_insert_eq, Hnd'.
Qed.

Lemma readd_root_spec q s ss : Pending q E (s :: ss) ->
  exists q', readd V0 comparator 0 (key s) q = Ret q' /\ Pending q' s ss /\ contents q' = contents q.
Proof.
  intros HP. pose proof HP as [Hroot _ _ Hloose _ _]. cbn in Hroot.
  destruct (Hloose s) as (Hs & Hwfs & _ & par & Hrs); [set_solver|].
  pose proof (key_elem s Hs) as Hks. destruct (repr_lookup _ _ _ _ Hrs Hks) as [nd Hnd].
  unfold readd. rewrite Hroot. cbn. rewrite touch_id, (node_at_Some _ _ _ Hnd) by (by eexists).
  eexists; split; [reflexivity|]. split.
  - eapply Pending_absorb; [exact HP|done| | | | |]; cbn; [set_solver|done| | |].
    + by apply repr_reparent with par.
    + intros x Hx _. rewrite lookup_insert_ne; [done|]. set_solver.
    + rewrite dom_insert_L. apply elem_of_dom_2 in Hnd. set_solver.
  - apply map_eq. intros x. rewrite !contents_lookup. cbn.
    destruct (decide (key s = x)) as [<-|]; [|by rewrite lookup_insert_ne]. by rewrite lookup_insert_eq, Hnd.
Qed.

Lemma readd_all_spec start : forall ss q t, Pending q t ss -> start = 0%N \/ start ∈ keys t ->
  exists q' t', readd_all V0 comparator start (key <$> ss) q = Ret q' /\ Tree q' t' /\ contents q' = contents q.
Proof.
  induction ss as [|s ss IH]; intros q t HP Hst.
  { exists q, t. split; [done|]. split; [|done]. destruct HP as [H1 H2 H3 _ _ H6]. split; try done.
    apply set_eq. intros x. rewrite H6. set_solver. }
  pose proof HP as [Hroot Hrepr Hwf _ _ _].
  assert (exists q' t', readd V0 comparator start (key s) q = Ret q' /\ Pending q' t' ss
    /\ (start = 0%N \/ start ∈ keys t') /\ contents q' = contents q) as (q' & t' & Hrun & HP' & Hst' & Hc).
  { destruct (decide (start = 0%N)) as [->|Hn0].
    - destruct (decide (key t = 0%N)) as [Hz|Hz]; rewrite key_zero in Hz by done; [subst t|rename Hz into Hne].
      + destruct (readd_root_spec q s ss HP) as (q' & ? & ? & ?). exists q', s. eauto.
      + unfold readd. rewrite decide_True by done. rewrite Hroot.
        rewrite decide_False by (rewrite key_zero by done; done).
        destruct (readd_from_spec q t s ss (key t) HP (key_elem t Hne)) as (q' & t' & ? & ? & ? & ?). eauto 7.
    - destruct Hst as [?|Hst]; [done|]. unfold readd. rewrite decide_False by done.
      destruct (readd_from_spec q t s ss start HP Hst) as (q' & t' & ? & ? & ? & ?). eauto 7. }
  destruct (IH q' t' HP' Hst') as (q2 & t2 & Hrun2 & HT & Hc2). exists q2, t2.
  rewrite fmap_cons. cbn [readd_all]. rewrite Hrun, bind_Ret. by rewrite Hc2.
Qed.

(** *** Cutting out a node *)
Fixpoint prune (x : N) (t : tree) : tree :=
  match t with
  | E => E
  | T k v ch => if decide (k = x) then E
      else T k v (fun d => if decide (x ∈ keys (ch d)) then prune x (ch d) else ch d)
  end.

(** The links of the erased node's parent are cleared, then the node goes. *)
Definition cut_map (x p : N) m : gmap N Node := delete x (alter (node_erase x) p m).

Record Cut (x : N) m (par : N) (t : tree) (n : Node) (ch : Direction -> tree) : Prop := mkCut {
  cut_node : m !! x = Some n;
  cut_children : forall d, leaf n d = key (ch d) /\ repr m x (ch d) /\ wf (ch d) /\ x ∉ keys (ch d)
    /\ keys (ch d) ## keys (prune x t) /\ forall d', d ≠ d' -> keys (ch d) ## keys (ch d');
  cut_keys : forall y, y ∈ keys t <-> y = x \/ y ∈ keys (prune x t) \/ exists d, y ∈ keys (ch d);
  cut_gone : x ∉ keys (prune x t);
  cut_wf : wf (prune x t);
  cut_top : key t = x -> parent n = par /\ prune x t = E;
  cut_below : key t ≠ x -> key (prune x t) = key t /\ parent n ∈ keys (prune x t)
    /\ forall m1, (forall y, y ∈ keys (prune x t) -> m1 !! y = cut_map x (parent n) m !! y) -> repr m1 par (prune x t)
}.

Lemma leaf_node_erase x (n : Node) d d' : leaf n d = x -> (forall d', leaf n d' = x -> d' = d) ->
  leaf (node_erase x n) d' = if decide (d' = d) then 0%N else leaf n d'.
Proof.
  intros Hd Hu. unfold node_erase.
  destruct (decide (left n = x)) as [H|H1]; [pose proof (Hu LEFT H); subst d; by destruct d'|].
  destruct (decide (right n = x)) as [H|H2]; [pose proof (Hu RIGHT H); subst d; by destruct d'|].
  destruct (decide (top n = x)) as [H|H3]; [pose proof (Hu UP H); subst d; by destruct d'|].
  destruct (decide (bottom n = x)) as [H|H4]; [pose proof (Hu DOWN H); subst d; by destruct d'|].
  by destruct d.
Qed.

Lemma node_erase_frame x (n : Node) : value (node_erase x n) = value n /\ parent (node_erase x n) = parent n.
Proof. unfold node_erase. repeat case_decide; done. Qed.

Lemma cut_here x v ch m par : wf (T x v ch) -> repr m par (T x v ch) -> exists n, Cut x m par (T x v ch) n ch.
Proof.
  intros [Hk Hd] (n & Hn & Hv & Hp & Hch). exists n.
  assert (prune x (T x v ch) = E) as HE by (cbn; by rewrite decide_True).
  split; try rewrite HE; try done; [|intros y; rewrite elem_keys; set_solver].
  intros d. destruct (Hd d) as (H1 & H2 & H3). destruct (Hch d). do 4 (split; [done|]). split; [set_solver|done].
Qed.

Lemma prune_child x k v ch d : k ≠ x -> x ∈ keys (ch d) -> (forall d', d' ≠ d -> x ∉ keys (ch d')) ->
  prune x (T k v ch) = T k v (fun d => if decide (x ∈ keys (ch d)) then prune x (ch d) else ch d)
  /\ forall y, y ∈ keys (prune x (T k v ch)) <-> y = k \/ y ∈ keys (prune x (ch d))
      \/ exists d', d' ≠ d /\ y ∈ keys (ch d').
Proof.
  intros Hkx Hx Hoth. assert (prune x (T k v ch) = T k v (fun d => if decide (x ∈ keys (ch d)) then prune x (ch d) else ch d)) as HE
    by (cbn; by rewrite decide_False). split; [done|]. intros y. rewrite HE, elem_keys. split.
  - intros [->|[d' Hy]]; [by left|]. right. destruct (decide (d' = d)) as [->|Hne].
    + rewrite decide_True in Hy by done. by left.
    + rewrite decide_False in Hy by (by apply Hoth). eauto.
  - intros [->|[Hy|(d' & Hne & Hy)]]; [by left| |].
    + right. exists d. by rewrite decide_True.
    + right. exists d'. rewrite decide_False; [done|]. by apply Hoth.
Qed.

(** The pruned tree above a child [d] that contains [x]. *)
Lemma cut_rebuild x k v ch d (nd n : Node) m m1 par : k ≠ x -> x ≠ 0%N -> x ∈ keys (ch d) -> k ∉ keys (ch d) ->
  (forall d', d' ≠ d -> x ∉ keys (ch d') /\ k ∉ keys (ch d')) ->
  (forall d' y, d' ≠ d -> y ∈ keys (ch d') -> y ∉ keys (ch d)) ->
  (forall y, y ∈ keys (prune x (ch d)) -> y ∈ keys (ch d)) ->
  m !! k = Some nd -> value nd = v -> parent nd = par -> (forall d, leaf nd d = key (ch d) /\ repr m k (ch d)) ->
  (forall y, y = k \/ y ∈ keys (prune x (ch d)) \/ (exists d', d' ≠ d /\ y ∈ keys (ch d')) ->
    m1 !! y = cut_map x (parent n) m !! y) ->
  (key (ch d) = x -> parent n = k /\ prune x (ch d) = E) ->
  (key (ch d) ≠ x -> key (prune x (ch d)) = key (ch d) /\ parent n ∈ keys (prune x (ch d))
    /\ forall m1, (forall y, y ∈ keys (prune x (ch d)) -> m1 !! y = cut_map x (parent n) m !! y) ->
         repr m1 k (prune x (ch d))) ->
  repr m1 par (T k v (fun d => if decide (x ∈ keys (ch d)) then prune x (ch d) else ch d)).
Proof.
  intros Hkx Hx0 Hx Hkd Hoth Hdis Hsub Hnd Hv Hpar Hch Hm1 Htop Hbelow.
  assert (forall d', d' ≠ d -> parent n = k \/ parent n ∈ keys (ch d) -> repr m1 k (ch d')) as Hrest.
  { intros d' Hne Hp. apply repr_frame with m; [|apply Hch]. intros y Hy. destruct (Hoth d' Hne) as [Hxd Hkd'].
    rewrite Hm1 by eauto. unfold cut_map. rewrite lookup_delete_ne by (by intros ->).
    rewrite lookup_alter_ne; [done|]. intros Hpy. rewrite Hpy in Hp.
    destruct Hp as [->|Hp]; [done|]. by apply (Hdis d' y). }
  destruct (decide (key (ch d) = x)) as [Hkey|Hkey].
  - destruct (Htop Hkey) as [Hpn HE]. exists (node_erase x nd). destruct (node_erase_frame x nd) as [-> ->].
    split; [|split; [done|split; [done|]]].
    { rewrite Hm1 by tauto. unfold cut_map. rewrite lookup_delete_ne, Hpn, lookup_alter_eq, Hnd by done. done. }
    assert (forall d', leaf nd d' = x -> d' = d) as Hu.
    { intros d' Hl. destruct (decide (d' = d)); [done|]. destruct (Hoth d'); [done|].
      rewrite (proj1 (Hch d')) in Hl. destruct (ch d') as [|k' v' c'] eqn:Ed; [done|].
      cbn in Hl. subst k'. destruct H. apply elem_keys. by left. }
    intros d'. rewrite (leaf_node_erase x nd d) by (try rewrite (proj1 (Hch d)); done).
    destruct (decide (d' = d)) as [->|Hne]; [by rewrite decide_True, HE|].
    rewrite decide_False by (by apply Hoth). split; [apply Hch|]. apply Hrest; auto.
  - destruct (Hbelow Hkey) as (Hkp & Hpn & Hr). exists nd.
    split; [|split; [done|split; [done|]]].
    { rewrite Hm1 by tauto. unfold cut_map. rewrite lookup_delete_ne, lookup_alter_ne; [done| |done].
      intros Hpk. apply Hkd, Hsub. by rewrite <- Hpk. }
    intros d'. destruct (decide (d' = d)) as [->|Hne].
    + rewrite decide_True, Hkp by done. split; [apply Hch|]. apply Hr. eauto.
    + rewrite decide_False by (by apply Hoth). split; [apply Hch|]. apply Hrest; auto.
Qed.

Lemma cut_spec x : forall t m par, wf t -> repr m par t -> x ∈ keys t -> exists n ch, Cut x m par t n ch.
Proof.
  induction t as [|k v ch IH]; intros m par Hwf Hr Hx; [set_solver|].
  destruct (decide (k = x)) as [->|Hkx].
  { destruct (cut_here x v ch m par Hwf Hr) as [n HC]. eauto. }
  apply elem_keys in Hx as [?|[d Hx]]; [done|]. pose proof Hwf as [Hk Hd].
  destruct Hr as (nd & Hnd & Hv & Hpar & Hch).
  destruct (IH d m k) as (n & c & [Cn Cch Ck Cg Cw Ct Cb]); [apply Hd|apply Hch|done|].
  assert (forall d' y, d' ≠ d -> y ∈ keys (ch d') -> y ∉ keys (ch d)) as Hoth.
  { intros d' y Hne H1 H2. by apply (proj2 (proj2 (Hd d')) d Hne y). }
  assert (forall d', d' ≠ d -> x ∉ keys (ch d')) as Hxo by (intros d' Hne H; by apply (Hoth d' x)).
  destruct (prune_child x k v ch d Hkx Hx Hxo) as [HE HK].
  assert (forall y, y ∈ keys (prune x (ch d)) -> y ∈ keys (ch d)) as Hpsub by (intros y Hy; apply Ck; tauto).
  assert (forall y e, y ∈ keys (c e) -> y ∈ keys (ch d)) as Hcsub by (intros y e Hy; apply Ck; eauto).
  assert (forall d1, x ∈ keys (ch d1) -> d1 = d) as Hdd.
  { intros d1 H1. destruct (decide (d1 = d)); [done|]. by destruct (Hxo d1). }
  assert (forall d1 y, y ∈ keys (if decide (x ∈ keys (ch d1)) then prune x (ch d1) else ch d1) -> y ∈ keys (ch d1)) as Hsub1.
  { intros d1 y. case_decide as Hin; [|done]. rewrite (Hdd d1) by done. apply Hpsub. }
  exists n, c. split; [done| | |rewrite HK; naive_solver| |done|].
  - intros e. destruct (Cch e) as (H1 & H2 & H3 & H4 & H5 & H6). do 4 (split; [done|]). split; [|done].
    intros y Hy Hy'%HK. apply Hcsub in Hy as Hyd. destruct Hy' as [->|[Hy'|(d' & Hne & Hy')]].
    + by apply (proj1 (Hd d)).
    + by apply (H5 y).
    + by apply (Hoth d' y).
  - intros y. rewrite HK, elem_keys. split.
    + intros [->|[d' Hy]]; [tauto|]. destruct (decide (d' = d)) as [->|Hne]; [|right; left; right; right; eauto].
      apply Ck in Hy. naive_solver.
    + intros [->|[[->|[Hy|(d' & _ & Hy)]]|(e & Hy)]]; eauto.
  - rewrite HE. split; [done|]. intros d1. split; [|split].
    + case_decide as Hin; [|apply Hd]. rewrite (Hdd d1) by done. intros H%Hpsub. by apply (proj1 (Hd d)).
    + case_decide as Hin; [|apply Hd]. by rewrite (Hdd d1).
    + intros d2 Hne y H1 H2. apply (proj2 (proj2 (Hd d1)) d2 Hne y); [by apply Hsub1|by apply Hsub1].
  - intros _. rewrite HE. split; [done|]. rewrite <- HE. split.
    + apply HK. destruct (decide (key (ch d) = x)) as [Hkd|Hkd]; [left; by apply Ct|].
      right; left. by apply Cb.
    + intros m1 Hm1. rewrite HE. apply (cut_rebuild x k v ch d nd n m m1 par); try done.
      * apply keys_nonzero with (ch d); [apply Hd|done].
      * apply Hd.
      * intros d' Hne. split; [by apply Hxo|apply Hd].
      * intros y Hy. by apply Hm1, HK.
Qed.

(** *** The operations on the contents *)

Lemma leaves_keys (n : Node) (ch : Direction -> tree) (l : list Direction) : (forall d, leaf n d = key (ch d)) ->
  filter (fun k => k ≠ 0%N) (leaf n <$> l) = key <$> filter (fun s => key s ≠ 0%N) (ch <$> l).
Proof.
  intros Hd. induction l as [|d l IH]; [done|]. rewrite !fmap_cons, !filter_cons, IH, Hd. by case_decide.
Qed.

Lemma FOP_filter {A} (R : relation A) (P : A -> Prop) `{forall x, Decision (P x)} (l : list A) :
  ForallOrdPairs R l -> ForallOrdPairs R (filter P l).
Proof.
  induction 1 as [|x l Hx Hl IH]; [constructor|]. rewrite filter_cons. case_decide; [|done].
  constructor; [|done]. apply Forall_forall. intros y [_ Hy]%list_elem_of_filter.
  by apply (proj1 (Forall_forall _ _) Hx).
Qed.

Lemma cut_Pending q t x n ch m1 : Tree q t -> Cut x (nodes q) 0 t n ch ->
  dom m1 = dom (nodes q) ∖ {[x]} -> repr m1 0 (prune x t) ->
  (forall d y, y ∈ keys (ch d) -> m1 !! y = nodes q !! y) ->
  Pending (mkQuad m1 (key (prune x t))) (prune x t) (filter (fun s => key s ≠ 0%N) (ch <$> directions)).
Proof.
  intros [Hroot Hrepr Hwf Hdom] [Cn Cch Ck Cg Cw Ct Cb] Hd1 Hr1 Hm1. split; try done.
  - intros s [Hs Hin]%list_elem_of_filter. apply list_elem_of_fmap in Hin as (d & -> & _).
    destruct (Cch d) as (H1 & H2 & H3 & H4 & H5 & H6). split; [by intros HE; rewrite HE in Hs|].
    split; [done|]. split; [done|]. exists x. apply repr_frame with (nodes q); [|done]. intros y Hy. by apply (Hm1 d).
  - apply FOP_filter. repeat constructor; by apply (proj2 (proj2 (proj2 (proj2 (proj2 (Cch _)))))).
  - intros y. cbn [nodes]. rewrite Hd1, Hdom, elem_of_difference, elem_of_singleton, Ck. split.
    + intros [[->|[Hy|[d Hy]]] Hne]; [done|by left|]. right. exists (ch d). split; [|done].
      apply list_elem_of_filter. split; [|apply list_elem_of_fmap; exists d; split; [done|destruct d; set_solver]].
      rewrite key_zero by apply Cch. intros HE. rewrite HE in Hy. set_solver.
    + intros [Hy|(s & [_ Hin]%list_elem_of_filter & Hy)]; [split; [tauto|by intros ->]|].
      apply list_elem_of_fmap in Hin as (d & -> & _). split; [eauto|]. intros ->. by apply (Cch d).
Qed.

Lemma erase_Tree q t x : Tree q t ->
  exists q' t', erase V0 comparator x q = Ret q' /\ Tree q' t' /\ contents q' = delete x (contents q).
Proof.
  intros HT. pose proof HT as [Hroot Hrepr Hwf Hdom]. unfold erase.
  destruct (nodes q !! x) as [n|] eqn:Hx.
  2:{ exists q, t. split; [done|]. split; [done|]. rewrite delete_id; [done|]. by rewrite contents_lookup, Hx. }
  assert (x ∈ keys t) as Hxt by (rewrite <- Hdom; by apply elem_of_dom_2 in Hx).
  destruct (cut_spec x t (nodes q) 0 Hwf Hrepr Hxt) as (n' & ch & HC). pose proof HC as [Cn Cch Ck Cg Cw Ct Cb].
  rewrite Hx in Cn. injection Cn as <-. rewrite (leaves_keys n ch) by (intros d; apply Cch).
  set (ss := filter _ (ch <$> directions)). rewrite Hroot.
  destruct (decide (key t = x)) as [Hkx|Hkx].
  - destruct (Ct Hkx) as [Hp HE]. rewrite Hp. cbn [nodes root].
    destruct (readd_all_spec 0 ss (mkQuad (delete x (nodes q)) 0) E) as (q' & t' & Hrun & HT' & Hc); [|by left|].
    + pose proof (cut_Pending q t x n ch (delete x (nodes q)) HT HC) as HP. rewrite HE in HP. apply HP.
      * by rewrite dom_delete_L.
      * done.
      * intros d y Hy. rewrite lookup_delete_ne; [done|]. intros ->. by apply (Cch d).
    + exists q', t'. split; [done|]. split; [done|]. rewrite Hc. unfold contents. cbn. by rewrite fmap_delete.
  - destruct (Cb Hkx) as (Hkp & Hpn & Hrb).
    assert (is_Some (nodes q !! parent n)) as [p Hp].
    { apply elem_of_dom. rewrite Hdom. apply Ck. tauto. }
    rewrite Hp. cbn [nodes root]. rewrite <- Hkp.
    replace (<[parent n := node_erase x p]> (nodes q)) with (alter (node_erase x) (parent n) (nodes q)).
    2:{ apply map_eq. intros y. destruct (decide (parent n = y)) as [<-|];
        [by rewrite lookup_alter_eq, lookup_insert_eq, Hp|by rewrite lookup_alter_ne, lookup_insert_ne]. }
    fold (cut_map x (parent n) (nodes q)).
    destruct (readd_all_spec (parent n) ss (mkQuad (cut_map x (parent n) (nodes q)) (key (prune x t))) (prune x t))
      as (q' & t' & Hrun & HT' & Hc); [|by right|].
    + apply (cut_Pending q t x n ch _ HT HC).
      * unfold cut_map. by rewrite dom_delete_L, dom_alter_L.
      * by apply Hrb.
      * intros d y Hy. unfold cut_map. destruct (Cch d) as (_ & _ & _ & H4 & H5 & _).
        rewrite lookup_delete_ne, lookup_alter_ne; [done| |by intros ->]. intros Hpy. apply (H5 y Hy). by rewrite <- Hpy.
    + exists q', t'. split; [done|]. split; [done|]. rewrite Hc. unfold contents, cut_map. cbn [nodes].
      rewrite fmap_delete. f_equal. apply map_eq. intros y. rewrite !lookup_fmap.
      destruct (decide (parent n = y)) as [<-|]; [|by rewrite lookup_alter_ne].
      rewrite lookup_alter_eq, Hp. cbn. f_equal. apply node_erase_frame.
Qed.

Lemma add_Tree q t c v : Tree q t -> c ≠ 0%N -> contents q !! c = None ->
  exists q', add V0 comparator c v q = Ret q' /\ Tree q' (graft (T c v (fun _ => E)) v t)
    /\ contents q' = <[c := v]> (contents q).
Proof.
  intros HT Hc Hfresh. pose proof HT as [Hroot Hrepr Hwf Hdom].
  rewrite contents_lookup in Hfresh. apply fmap_None in Hfresh.
  assert (c ∉ keys t) as Hct by (rewrite <- Hdom; by apply not_elem_of_dom).
  set (s := T c v (fun _ => E)).
  assert (keys s = {[c]}) as Hks by (unfold s; cbn; set_solver).
  assert (wf s) as Hws by (unfold s; cbn; set_solver).
  assert (wf (graft s v t)) as Hwg by (apply graft_wf; [done..|]; rewrite Hks; set_solver).
  assert (forall m p, m !! c = None -> repr (emplace c (mkNode v p 0 0 0 0) m) p s) as Hrs.
  { intros m p Hm. unfold emplace. rewrite Hm. exists (mkNode v p 0 0 0 0). rewrite lookup_insert_eq.
    do 3 (split; [done|]). intros []; done. }
  unfold add. destruct (decide (root q = 0%N)) as [Hz|Hz].
  - rewrite Hroot, key_zero in Hz by done. subst t. eexists. split; [reflexivity|].
    split; [split; cbn [nodes root]|].
    + done.
    + by apply Hrs.
    + done.
    + unfold emplace. rewrite Hfresh, dom_insert_L, Hdom. cbn [graft]. rewrite Hks. set_solver.
    + unfold contents, emplace. cbn. by rewrite Hfresh, fmap_insert.
  - destruct (add_loop_spec s v t (nodes q) 0 0%N (S (size (nodes q)))) as
      (m' & p & Hrun & Hdom' & Hout & Hval & Hp & Hg); [done|done|done|done|by apply (tree_fuel q t)|lia|].
    unfold fuel. cbn [Nat.add]. rewrite Hroot. cbn [s key] in Hrun. rewrite Hrun. cbn [mbind outcome_bind].
    assert (m' !! c = None) as Hm' by (by rewrite Hout).
    eexists. split; [reflexivity|]. split; [split; cbn [nodes root]|].
    + rewrite Hroot in Hz. by destruct t.
    + apply Hg; [|by apply Hrs]. intros x Hx. unfold emplace. rewrite Hm', lookup_insert_ne; [done|]. by intros ->.
    + done.
    + unfold emplace. rewrite Hm', dom_insert_L, Hdom', Hdom. apply set_eq. intros x. rewrite graft_keys, Hks. set_solver.
    + unfold contents, emplace. cbn. rewrite Hm', fmap_insert. f_equal. apply map_eq. intros x. by rewrite !lookup_fmap.
Qed.

(** Every value below a link compares to the node as the link says. *)
Fixpoint ordered m (t : tree) : Prop :=
  match t with
  | E => True
  | T k v ch => forall d, (forall y, y ∈ keys (ch d) -> comparator (value (node_at V0 m y)) v = d) /\ ordered m (ch d)
  end.

Lemma ordered_ext m m' t : (forall y, y ∈ keys t -> value (node_at V0 m' y) = value (node_at V0 m y)) ->
  ordered m t -> ordered m' t.
Proof.
  induction t as [|k v ch IH]; [done|]. intros Hm Ho d. destruct (Ho d) as [H1 H2]. split.
  - intros y Hy. rewrite Hm by (apply elem_keys; eauto). by apply H1.
  - apply IH; [|done]. intros y Hy. apply Hm, elem_keys. eauto.
Qed.

Lemma ordered_graft m c v t : value (node_at V0 m c) = v -> ordered m t ->
  ordered m (graft (T c v (fun _ => E)) v t).
Proof.
  intros Hc. induction t as [|k v0 ch IH]; intros Ho.
  { intros d. split; [set_solver|done]. }
  intros d. destruct (Ho d) as [H1 H2]. destruct (decide (d = comparator v v0)) as [->|Hne]; [|done].
  split; [|by apply IH]. intros y [Hy|Hy]%graft_keys; [|by apply H1].
  apply elem_keys in Hy as [->|[? Hy]]; [by rewrite Hc|set_solver].
Qed.

(** A tree filled by [add] only. *)
Definition Ordered (q : QuadTree V) : Prop := exists t, Tree q t /\ ordered (nodes q) t.

Fixpoint add_all (l : list (N * V)) (q : QuadTree V) : outcome (QuadTree V) :=
  match l with [] => Ret q | (c, v) :: l => q ← add V0 comparator c v q; add_all l q end.

Lemma node_value q y : is_Some (nodes q !! y) -> contents q !! y = Some (value (node_at V0 (nodes q) y)).
Proof. intros [n Hn]. by rewrite contents_lookup, (node_at_Some _ _ _ Hn), Hn. Qed.

Lemma add_Ordered q c v : Ordered q -> c ≠ 0%N -> contents q !! c = None ->
  exists q', add V0 comparator c v q = Ret q' /\ Ordered q' /\ contents q' = <[c := v]> (contents q).
Proof.
  intros (t & HT & Ho) Hc Hf. destruct (add_Tree q t c v HT Hc Hf) as (q' & Hrun & HT' & Hct).
  exists q'. split; [done|]. split; [|done]. exists (graft (T c v (fun _ => E)) v t). split; [done|].
  assert (forall y w, contents q' !! y = Some w -> value (node_at V0 (nodes q') y) = w) as Hval.
  { intros y w. rewrite contents_lookup. unfold node_at. destruct (nodes q' !! y); naive_solver. }
  apply ordered_graft; [apply Hval; by rewrite Hct, lookup_insert_eq|].
  apply ordered_ext with (nodes q); [|done]. intros y Hy. apply Hval. rewrite Hct.
  assert (is_Some (nodes q !! y)) as Hy' by (by eapply repr_lookup; [apply (tree_repr _ _ HT)|]).
  rewrite lookup_insert_ne; [by apply node_value|]. intros ->.
  rewrite node_value in Hf by done. done.
Qed.

Lemma empty_Tree : Tree empty E.
Proof. split; [done|done|done|]. cbn. by rewrite dom_empty_L. Qed.

Lemma add_all_Ordered l : forall q, Ordered q -> NoDup l.*1 ->
  (forall c, c ∈ l.*1 -> c ≠ 0%N /\ contents q !! c = None) ->
  exists q', add_all l q = Ret q' /\ Ordered q' /\ contents q' = list_to_map l ∪ contents q.
Proof.
  induction l as [|[c v] l IH]; intros q Ho Hnd Hf.
  { exists q. split; [done|]. split; [done|]. by rewrite list_to_map_nil, (left_id_L ∅ (∪)). }
  rewrite fmap_cons, NoDup_cons in Hnd. destruct Hnd as [Hcl Hnd].
  destruct (Hf c) as [Hc0 Hcf]; [rewrite fmap_cons; set_solver|].
  destruct (add_Ordered q c v Ho Hc0 Hcf) as (q1 & Hrun & Ho1 & Hct).
  destruct (IH q1 Ho1 Hnd) as (q2 & Hrun2 & Ho2 & Hct2).
  { intros x Hx. destruct (Hf x) as [Hx0 Hxf]; [rewrite fmap_cons; set_solver|]. split; [done|].
    rewrite Hct, lookup_insert_ne; [done|]. intros ->. done. }
  exists q2. cbn. rewrite Hrun. cbn. split; [done|]. split; [done|].
  rewrite Hct2, Hct. rewrite <- insert_union_r, insert_union_l; [done|]. by apply not_elem_of_list_to_map.
Qed.

(** *** Searching *)

Context (predicate : V -> V -> bool).

Definition fits m (val : V) (y : N) : Prop := predicate val (value (node_at V0 m y)) = true.

(** What the search uses of the comparator: the links it skips hold no value
    that satisfies the predicate. *)
Definition compatible : Prop := forall val w v,
  predicate val w = true ->
  match comparator val v with
  | RIGHT => comparator w v = RIGHT
  | DOWN => comparator w v = DOWN \/ comparator w v = RIGHT
  | UP => comparator w v = UP \/ comparator w v = RIGHT
  | LEFT => predicate val v = true
  end.

(** What a search from the root of [t] may answer. *)
Definition search_ok m val (t : tree) (k : N) : Prop :=
  (t = E -> k = 0%N) /\ (t ≠ E -> k ∈ keys t)
  /\ (compatible -> ordered m t -> forall y, y ∈ keys t -> fits m val y -> fits m val k).

Lemma accept_spec m val t k : wf t -> search_ok m val t k ->
  if accept V0 predicate m val k then k ∈ keys t /\ fits m val k
  else compatible -> ordered m t -> forall y, y ∈ keys t -> ~ fits m val y.
Proof.
  intros Hwf (H0 & H1 & H2). unfold accept. destruct (decide (key t = 0%N)) as [Hz|Hz]; rewrite key_zero in Hz by done.
  - rewrite (H0 Hz). cbn. subst t. set_solver.
  - specialize (H1 Hz). rewrite bool_decide_eq_true_2 by (by apply keys_nonzero with t). cbn.
    destruct (predicate val (value (node_at V0 m k))) eqn:Hp; [done|]. intros Hc Ho y Hy Hf.
    specialize (H2 Hc Ho y Hy Hf). unfold fits in H2. congruence.
Qed.

(** A node whose searched children have no fitting value. *)
Lemma search_ok_node m val k v ch n r : m !! k = Some n -> value n = v ->
  r ∈ keys (T k v ch) ->
  (fits m val r \/ (r = k /\ (compatible -> ordered m (T k v ch) -> forall d y, y ∈ keys (ch d) -> ~ fits m val y))) ->
  search_ok m val (T k v ch) r.
Proof.
  intros Hn Hv Hr H. split; [done|]. split; [done|]. intros Hc Ho y [->|[d Hy]]%elem_keys Hf.
  - destruct H as [?|[-> _]]; done.
  - destruct H as [?|[-> Hno]]; [done|]. by destruct (Hno Hc Ho d y).
Qed.

Lemma findFrom_spec val : forall t m par n, wf t -> repr m par t -> height_lt n t ->
  exists k, findFrom V0 comparator predicate (S n) m (key t) val = Ret (m, k) /\ search_ok m val t k.
Proof.
  induction t as [|k v ch IH]; intros m par n Hwf Hr Hh.
  { exists 0%N. split; [done|]. split; [done|]. split; [done|set_solver]. }
  destruct n as [|n]; [done|]. destruct Hwf as [Hk Hd]. destruct Hr as (nd & Hnd & Hv & Hpar & Hch).
  assert (forall d, exists kd, findFrom V0 comparator predicate (S n) m (leaf nd d) val = Ret (m, kd)
    /\ if accept V0 predicate m val kd then kd ∈ keys (T k v ch) /\ fits m val kd
       else compatible -> ordered m (T k v ch) -> forall y, y ∈ keys (ch d) -> ~ fits m val y) as Hsub.
  { intros d. destruct (IH d m k n) as (kd & Hrun & Hok); [apply Hd|apply Hch|apply Hh|].
    exists kd. split; [by rewrite (proj1 (Hch d))|]. pose proof (accept_spec m val (ch d) kd (proj1 (proj2 (Hd d))) Hok) as Ha.
    destruct (accept V0 predicate m val kd); [split; [apply elem_keys; right; exists d|]; tauto|].
    intros Hc Ho. apply Ha; [done|]. apply Ho. }
  assert (k ∈ keys (T k v ch)) as Hkin by (apply elem_keys; by left).
  pose proof (search_ok_node m val k v ch nd) as Hnode.
  assert (forall d y, compatible -> ordered m (T k v ch) -> y ∈ keys (ch d) -> fits m val y ->
     match comparator val v with RIGHT => d = RIGHT | DOWN => d = DOWN \/ d = RIGHT | UP => d = UP \/ d = RIGHT
     | LEFT => predicate val v = true end) as Hskip.
  { intros d y Hc Ho Hy Hf. specialize (Hc val (value (node_at V0 m y)) v Hf).
    pose proof (proj1 (Ho d) y Hy) as Hyd. destruct (comparator val v); rewrite ?Hyd in Hc; naive_solver. }
  clear IH Hh. revert Hsub. generalize (S n) as n1. intros n1 Hsub. cbn [key findFrom]. rewrite decide_False by done.
  rewrite touch_id by (by eexists). rewrite (node_at_Some _ _ _ Hnd), Hv.
  assert (predicate val v = true <-> fits m val k) as Hfit by (unfold fits; by rewrite (node_at_Some _ _ _ Hnd), Hv).
  change (left nd) with (leaf nd LEFT). change (right nd) with (leaf nd RIGHT).
  change (top nd) with (leaf nd UP). change (bottom nd) with (leaf nd DOWN).
  destruct (Hsub LEFT) as (kl & Hl & Al), (Hsub RIGHT) as (kr & Hr & Ar), (Hsub UP) as (ku & Hu & Au),
    (Hsub DOWN) as (kd & Hd' & Ad).
  do 4 (rewrite ?Hl, ?Hr, ?Hu, ?Hd'; cbn [mbind outcome_bind]; rewrite ?(node_at_Some _ _ _ Hnd);
    try change (right nd) with (leaf nd RIGHT); try change (top nd) with (leaf nd UP);
    try change (bottom nd) with (leaf nd DOWN)).
  destruct (comparator val v) eqn:Hcmp, (accept V0 predicate m val kl), (accept V0 predicate m val kr),
    (accept V0 predicate m val ku), (accept V0 predicate m val kd), (predicate val v) eqn:Hpv;
    eexists; (split; [reflexivity|]); apply Hnode; try done; try tauto; try (left; tauto); right;
    (split; [done|]); intros Hc Ho d y Hy Hf; specialize (Hskip d y Hc Ho Hy Hf); naive_solver.
Qed.

Lemma findNode_Tree q t val : Tree q t ->
  exists k, findNode V0 comparator predicate val q = Ret (q, k)
    /\ (k ≠ 0%N -> k ∈ keys t /\ fits (nodes q) val k)
    /\ (compatible -> ordered (nodes q) t -> k = 0%N -> forall y, y ∈ keys t -> ~ fits (nodes q) val y).
Proof.
  intros HT. pose proof HT as [Hroot Hrepr Hwf Hdom]. unfold findNode.
  destruct (decide (root q = 0%N)) as [Hz|Hz]; rewrite Hroot, key_zero in Hz by done.
  { exists 0%N. subst t. split; [done|]. split; [done|set_solver]. }
  destruct (findFrom_spec val t (nodes q) 0 (S (size (nodes q)))) as (k & Hrun & H0 & H1 & H2);
    [done|done|by apply (tree_fuel q t)|].
  specialize (H1 Hz). destruct (repr_lookup _ _ _ _ Hrepr H1) as [n Hn].
  unfold fuel. cbn [Nat.add]. rewrite Hroot, Hrun. cbn [mbind outcome_bind].
  rewrite touch_id by (by eexists). destruct (predicate val (value (node_at V0 (nodes q) k))) eqn:Hp.
  - exists k. rewrite <- Hroot. split; [by destruct q|]. split; [done|]. intros _ _ ->.
    exfalso. by apply (keys_nonzero t 0%N Hwf).
  - exists 0%N. rewrite <- Hroot. split; [by destruct q|]. split; [done|]. intros Hc Ho _ y Hy Hf.
    specialize (H2 Hc Ho y Hy Hf). unfold fits in H2. congruence.
Qed.

(** The map holds a well-formed tree. *)
Definition Valid (q : QuadTree V) : Prop := exists t, Tree q t.

Lemma Ordered_Valid q : Ordered q -> Valid q.
Proof. intros (t & HT & _). by exists t. Qed.

End Quad.

(** *** Theorems *)

(** C9. [add] of a new key and [erase] of any key terminate on a well-formed tree,
    keep it well formed, and change the stored values exactly as insertion and
    deletion in a finite map; in particular the subtrees an erased node leaves
    behind are all kept. *)
Theorem quadtree_refines_map {V} (V0 : V) comparator q : Valid q ->
  (forall c v, c ≠ 0%N -> contents q !! c = None ->
     exists q', add V0 comparator c v q = Ret q' /\ Valid q' /\ contents q' = <[c := v]> (contents q))
  /\ (forall x, exists q', erase V0 comparator x q = Ret q' /\ Valid q' /\ contents q' = delete x (contents q)).
Proof.
  intros [t HT]. split.
  - intros c v Hc Hf. destruct (add_Tree V0 comparator q t c v HT Hc Hf) as (q' & ? & ? & ?).
    exists q'. split; [done|]. split; [by eexists|done].
  - intros x. destruct (erase_Tree V0 comparator q t x HT) as (q' & t' & ? & ? & ?).
    exists q'. split; [done|]. split; [by exists t'|done].
Qed.

(** [findNode] terminates on a well-formed tree, leaves it unchanged, and
    returns 0 or a stored key whose value satisfies the predicate. *)
Theorem findNode_sound {V} (V0 : V) comparator predicate q val : Valid q ->
  exists k, findNode V0 comparator predicate val q = Ret (q, k)
    /\ (k = 0%N \/ exists v, contents q !! k = Some v /\ predicate val v = true).
Proof.
  intros [t HT]. destruct (findNode_Tree V0 comparator predicate q t val HT) as (k & Hrun & H1 & _).
  exists k. split; [done|]. destruct (decide (k = 0%N)) as [|Hk]; [by left|]. right.
  destruct (H1 Hk) as [Hin Hf]. exists (value (node_at V0 (nodes q) k)). split; [|done].
  apply node_value. by eapply repr_lookup; [apply (tree_repr _ _ HT)|].
Qed.

(** In a tree filled by [add] alone, with distinct non-zero keys, [findNode]
    finds a fitting value whenever there is one, for a comparator and predicate
    that are compatible. *)
Theorem findNode_complete {V} (V0 : V) comparator predicate l val :
  compatible comparator predicate -> NoDup l.*1 -> 0%N ∉ l.*1 ->
  exists q k, add_all V0 comparator l empty = Ret q /\ findNode V0 comparator predicate val q = Ret (q, k)
    /\ (k = 0%N -> forall c v, (c, v) ∈ l -> predicate val v = false).
Proof.
  intros Hc Hnd H0.
  destruct (add_all_Ordered V0 comparator l empty) as (q & Hrun & (t & HT & Ho) & Hct); [|done| |].
  { exists E. split; [apply empty_Tree|done]. }
  { intros c Hin. split; [by intros ->|done]. }
  destruct (findNode_Tree V0 comparator predicate q t val HT) as (k & Hf & _ & H2).
  exists q, k. split; [done|]. split; [done|]. intros Hk c v Hin.
  assert (contents q !! c = Some v) as Hcv.
  { rewrite Hct. apply lookup_union_Some_l. by apply elem_of_list_to_map_1. }
  assert (is_Some (nodes q !! c)) as Hs.
  { rewrite contents_lookup in Hcv. destruct (nodes q !! c); [by eexists|done]. }
  rewrite (node_value V0) in Hcv by done. injection Hcv as <-.
  apply not_true_iff_false. apply (H2 Hc Ho Hk). rewrite <- (tree_dom _ _ HT). by apply elem_of_dom.
Qed.

(** *** A tree of sizes, compared in both dimensions *)

Definition size_compare (a b : N * N) : Direction :=
  match (b.1 <=? a.1)%N, (b.2 <=? a.2)%N with
  | true, true => RIGHT | true, false => DOWN | false, true => UP | false, false => LEFT
  end.
Definition size_fits (a b : N * N) : bool := (a.1 <=? b.1)%N && (a.2 <=? b.2)%N.

Lemma size_compatible : compatible size_compare size_fits.
Proof.
  intros [v1 v2] [w1 w2] [n1 n2]. unfold size_compare, size_fits. cbn.
  rewrite andb_true_iff, !N.leb_le. intros [H1 H2].
  destruct (N.leb_spec n1 v1), (N.leb_spec n2 v2), (N.leb_spec n1 w1), (N.leb_spec n2 w2); auto; try lia.
  all: rewrite ?andb_true_iff, !N.leb_le; lia.
Qed.

Lemma quadtree_refines_map_witness :
  exists q', add (0, 0)%N size_compare 1 (3, 4)%N empty = Ret q' /\ Valid q' /\ contents q' = <[1%N := (3, 4)%N]> (contents empty).
Proof.
  apply (quadtree_refines_map (0, 0)%N size_compare empty); [|done|by vm_compute].
  exists E. apply empty_Tree.
Defined.

Lemma findNode_sound_witness :
  exists k, findNode (0, 0)%N size_compare size_fits (3, 4)%N empty = Ret (empty, k)
    /\ (k = 0%N \/ exists v, contents empty !! k = Some v /\ size_fits (3, 4)%N v = true).
Proof. apply (findNode_sound (0, 0)%N size_compare size_fits). exists E. apply empty_Tree. Defined.

Definition demo_sizes : list (N * (N * N)) := [(1, (4, 4)); (2, (2, 9)); (3, (9, 2)); (4, (1, 1)); (5, (8, 8))]%N.

Lemma findNode_complete_witness : exists q k,
  add_all (0, 0)%N size_compare demo_sizes empty = Ret q /\ findNode (0, 0)%N size_compare size_fits (7, 7)%N q = Ret (q, k)
  /\ (k = 0%N -> forall c v, (c, v) ∈ demo_sizes -> size_fits (7, 7)%N v = false).
Proof.
  apply findNode_complete; [apply size_compatible|apply (bool_decide_unpack _); by vm_compute..].
Defined.

(** Four sizes, of which the first is erased. *)
Definition erased_tree : outcome (QuadTree (N * N)) :=
  q ← add_all (0, 0)%N size_compare [(1, (3, 5)); (2, (5, 5)); (3, (3, 1)); (4, (6, 1))]%N empty;
  erase (0, 0)%N size_compare 1 q.

(** After [erase], subtrees are added again whole and the tree is not ordered
    any more: here the size stored under 4 fits the request, and [findNode]
    answers that nothing does. *)
Theorem erase_breaks_search : exists q,
  erased_tree = Ret q /\ contents q !! 4%N = Some (6, 1)%N /\ size_fits (6, 1)%N (6, 1)%N = true
  /\ findNode (0, 0)%N size_compare size_fits (6, 1)%N q = Ret (q, 0%N).
Proof. eexists. split; [vm_compute; reflexivity|]. split_and!; by vm_compute. Qed.

End QTree.
