(* ===== verification/TextureAtlas.v ===== *)
(** * TextureAtlas: packing sprites into textures

    Models [Engine/TextureAtlas.*], [Engine/TexturePool.*] and [Engine/Quad2D.*].
    The atlas keeps the free rectangles in a store; the class [LeftoverStore]
    states what it relies on, the packing theorem is proved against the class, and
    the quad tree of [QuadTree] is an instance. *)

From S2P Require Import Prelude Strings Float32 QuadTree.
From stdpp Require Import base decidable list sets gmap strings.
From Stdlib Require Import ZArith Lia.
Local Open Scope Z_scope.

(** ** Rectangles *)

(** [LeftOver]: left, right, top and bottom as [int16_t]. *)
Record LeftOver := mkLeftOver { lo_l : Z; lo_r : Z; lo_t : Z; lo_b : Z }.

#[export] Instance LeftOver_eq_dec : EqDecision LeftOver.
Proof. solve_decision. Defined.

(** The constructors; the [int] arguments are narrowed first. *)
Definition leftover (x y w h : Z) : LeftOver :=
  mkLeftOver (i16 x) (i16 (i16 x + i16 w)) (i16 y) (i16 (i16 y + i16 h)).
Definition leftover0 : LeftOver := mkLeftOver 0 0 0 0.

(** Differences of [int16_t] are computed as [int]. *)
Definition lo_width (a : LeftOver) : Z := lo_r a - lo_l a.
Definition lo_height (a : LeftOver) : Z := lo_b a - lo_t a.

(** The comparator and the predicate the atlas gives the tree. *)
Definition lo_compare (first second : LeftOver) : QuadTree.Direction :=
  let wcomp := lo_width second <=? lo_width first in
  let hcomp := lo_height second <=? lo_height first in
  if wcomp && hcomp then QuadTree.RIGHT
  else if wcomp then QuadTree.DOWN
  else if hcomp then QuadTree.UP
  else QuadTree.LEFT.

Definition lo_fits (val leaf : LeftOver) : bool :=
  (lo_width val <=? lo_width leaf) && (lo_height val <=? lo_height leaf).

(** ** The interface of the store *)
Class LeftoverStore (S : Type) := {
  store_empty : S;
  store_find : LeftOver -> S -> outcome (S * N);
  store_get : N -> S -> S * LeftOver;
  store_erase : N -> S -> outcome S;
  store_add : N -> LeftOver -> S -> outcome S;
  (** its meaning as a finite map, and its invariant *)
  store_map : S -> gmap N LeftOver;
  store_ok : S -> Prop;
  store_empty_ok : store_ok store_empty /\ store_map store_empty = ∅;
  store_find_ok val s : store_ok s ->
    exists k, store_find val s = Ret (s, k)
      /\ (k = 0%N \/ exists v, store_map s !! k = Some v /\ lo_fits val v = true);
  store_get_ok k s v : store_ok s -> store_map s !! k = Some v -> store_get k s = (s, v);
  store_erase_ok k s : store_ok s ->
    exists s', store_erase k s = Ret s' /\ store_ok s' /\ store_map s' = delete k (store_map s);
  store_add_ok k v s : store_ok s -> k ≠ 0%N -> store_map s !! k = None ->
    exists s', store_add k v s = Ret s' /\ store_ok s' /\ store_map s' = <[k := v]> (store_map s)
}.

(** The quad tree of [LeftOver]s implements it. *)
#[export, refine] Instance quad_store : LeftoverStore (QuadTree.QuadTree LeftOver) := {|
  store_empty := QuadTree.empty;
  store_find := QuadTree.findNode leftover0 lo_compare lo_fits;
  store_get := QuadTree.at_key leftover0;
  store_erase := QuadTree.erase leftover0 lo_compare;
  store_add := QuadTree.add leftover0 lo_compare;
  store_map := QuadTree.contents;
  store_ok := QTree.Valid
|}.
Proof.
  - split; [exists QTree.E; apply QTree.empty_Tree|]. unfold QuadTree.contents. cbn. apply fmap_empty.
  - intros val s [t HT]. destruct (QTree.findNode_Tree leftover0 lo_compare lo_fits s t val HT) as (k & Hrun & H1 & _).
    exists k. split; [done|]. destruct (decide (k = 0%N)) as [|Hk]; [by left|]. right. destruct (H1 Hk) as [Hin Hf].
    eexists. split; [|exact Hf]. apply QTree.node_value. by eapply QTree.repr_lookup; [apply (QTree.tree_repr _ _ HT)|].
  - intros k s v _ Hk. unfold QuadTree.at_key, QuadTree.contents in *. rewrite lookup_fmap in Hk.
    apply fmap_Some in Hk as (n & Hn & ->). rewrite QTree.touch_id by (by eexists).
    rewrite (QTree.node_at_Some _ _ _ _ Hn). by destruct s.
  - intros k s [t HT]. destruct (QTree.erase_Tree leftover0 lo_compare s t k HT) as (s' & t' & ? & ? & ?).
    exists s'. split; [done|]. split; [by exists t'|done].
  - intros k v s [t HT] Hk Hf. destruct (QTree.add_Tree leftover0 lo_compare s t k v HT Hk Hf) as (s' & ? & ? & ?).
    exists s'. split; [done|]. split; [by eexists|done].
Defined.

(** The search of the tree is complete for these two functions. *)
Lemma lo_compatible : QTree.compatible lo_compare lo_fits.
Proof.
  intros val w v. unfold lo_fits, lo_compare. rewrite andb_true_iff, !Z.leb_le. intros [Hw Hh].
  destruct (Z.leb_spec (lo_width v) (lo_width val)), (Z.leb_spec (lo_height v) (lo_height val)),
    (Z.leb_spec (lo_width v) (lo_width w)), (Z.leb_spec (lo_height v) (lo_height w)); cbn; auto; try lia.
  all: rewrite ?andb_true_iff, !Z.leb_le; lia.
Qed.

(** ** Quads (Quad2D.cpp) *)
Module Quad2D.

(** The atlas sets the texture's size, the extent and the texture coordinates. *)
Record Quad2D := mkQuad2D {
  texWidth : Z; texHeight : Z;           (* of the texture set by setTexture *)
  texCoords : list vec2;
  quad_w : Z; quad_h : Z
}.

Definition getDefaultTexCoords : list vec2 :=
  [mkVec2 F32.zero F32.one; mkVec2 F32.one F32.one; mkVec2 F32.one F32.zero; mkVec2 F32.zero F32.zero].

Definition getTexCoords (mn mx : vec2) : list vec2 :=
  [mkVec2 (v2x mn) (v2y mx); mx; mkVec2 (v2x mx) (v2y mn); mn].

(** The arguments are [uint32_t]; the sums wrap, the quotients are [float]. *)
Definition setTexCoords (tw th x y w h : Z) : Quad2D :=
  let q a b := F32.div (F32.of_Z a) (F32.of_Z b) in
  mkQuad2D tw th
    [mkVec2 (q x tw) (q (u32 (y + h)) th);
     mkVec2 (q (u32 (x + w)) tw) (q (u32 (y + h)) th);
     mkVec2 (q (u32 (x + w)) tw) (q y th);
     mkVec2 (q x tw) (q y th)] w h.

End Quad2D.

(** ** The atlas (TextureAtlas.cpp) *)
Module Atlas.
Import Quad2D.

Definition MINLOSIZE : Z := 4.

Section Atlas.
Context {S : Type} `{LeftoverStore S}.

(** [uploads] is the history of the regions written to the texture. *)
Record TextureAtlas := mkAtlas {
  tex_w : Z; tex_h : Z;
  rlid : N;
  wasted : Z;
  usage : f32;
  offsets : gmap cstring Quad2D;
  leftovers : S;
  border_x : Z; border_y : Z;
  yRange_first : Z; yRange_second : Z;
  uploads : list LeftOver
}.

Definition create (w h : Z) : TextureAtlas :=
  mkAtlas w h 1 0 F32.zero ∅ store_empty 0 0 0 0 [].

Definition with_leftovers (s : S) (A : TextureAtlas) : TextureAtlas :=
  mkAtlas (tex_w A) (tex_h A) (rlid A) (wasted A) (usage A) (offsets A) s
    (border_x A) (border_y A) (yRange_first A) (yRange_second A) (uploads A).

Definition with_wasted (z : Z) (A : TextureAtlas) : TextureAtlas :=
  mkAtlas (tex_w A) (tex_h A) (rlid A) z (usage A) (offsets A) (leftovers A)
    (border_x A) (border_y A) (yRange_first A) (yRange_second A) (uploads A).

Definition with_border (x y : Z) (A : TextureAtlas) : TextureAtlas :=
  mkAtlas (tex_w A) (tex_h A) (rlid A) (wasted A) (usage A) (offsets A) (leftovers A)
    x y (yRange_first A) (yRange_second A) (uploads A).

Definition with_yRange (a b : Z) (A : TextureAtlas) : TextureAtlas :=
  mkAtlas (tex_w A) (tex_h A) (rlid A) (wasted A) (usage A) (offsets A) (leftovers A)
    (border_x A) (border_y A) a b (uploads A).

(** [leftovers.add(rlid, ...); rlid++] *)
Definition add_leftover (lo : LeftOver) (A : TextureAtlas) : outcome TextureAtlas :=
  s ← store_add (rlid A) lo (leftovers A);
  Ret (mkAtlas (tex_w A) (tex_h A) (rlid A + 1) (wasted A) (usage A) (offsets A) s
    (border_x A) (border_y A) (yRange_first A) (yRange_second A) (uploads A)).

Definition add_leftover_if (b : bool) (lo : LeftOver) (A : TextureAtlas) : outcome TextureAtlas :=
  if b then add_leftover lo A else Ret A.

(** The remainder of a free rectangle is split in up to three. *)
Definition split_leftover (x y w h wdelta hdelta : Z) (A : TextureAtlas) : outcome TextureAtlas :=
  if (MINLOSIZE <=? wdelta) && (MINLOSIZE <=? hdelta) then
    A ← add_leftover (leftover (x + w) (y + h) wdelta hdelta) A;
    A ← add_leftover_if (MINLOSIZE <=? w) (leftover x (y + h) w hdelta) A;
    add_leftover_if (MINLOSIZE <=? h) (leftover (x + w) y wdelta h) A
  else if MINLOSIZE <=? wdelta then add_leftover (leftover (x + w) y wdelta (h + hdelta)) A
  else add_leftover_if (MINLOSIZE <=? hdelta) (leftover x (y + h) (w + wdelta) hdelta) A.

(** The first branch of [update]: a free rectangle [lid] was found. *)
Definition place_in_leftover (lid : N) (w h : Z) (A : TextureAtlas) : outcome (TextureAtlas * Z * Z) :=
  let '(s, lo) := store_get lid (leftovers A) in
  let x := lo_l lo in
  let y := lo_t lo in
  let wdelta := lo_width lo - w in
  let hdelta := lo_height lo - h in
  s ← store_erase lid s;
  let A := with_wasted (u64 (wasted A - w * h)) (with_leftovers s A) in
  A ← split_leftover x y w h wdelta hdelta A;
  Ret (A, x, y).

(** The second branch: the sprite goes to the border.  [int] sums are compared
    with the [uint32_t] extent of the texture.  [None] is [return nullptr]. *)
Definition advance_border (w h : Z) (A : TextureAtlas) : option TextureAtlas :=
  if tex_w A <? u32 (border_x A + w) then
    let by' := i16 (border_y A + yRange_second A) in
    if tex_h A <? u32 (by' + h) then None
    else Some (with_yRange 0 0 (with_border 0 by' A))
  else if tex_h A <? u32 (border_y A + h) then None
  else Some A.

Definition place_on_border (w h : Z) (A : TextureAtlas) : outcome (TextureAtlas * Z * Z) :=
  let x := border_x A in
  let y := border_y A in
  let A := with_border (i16 (x + w)) y A in
  let ys := yRange_second A in
  let yf := yRange_first A in
  if ys <? h then
    A ← add_leftover_if ((MINLOSIZE <=? x) && (MINLOSIZE <=? h - ys)) (leftover 0 yf x (h - ys)) A;
    Ret (with_yRange (i16 (y + h)) h (with_wasted (u64 (wasted A + x * (h - ys))) A), x, y)
  else if h <? yf - y then
    A ← add_leftover_if ((MINLOSIZE <=? w) && (MINLOSIZE <=? yf - y - h)) (leftover x (y + h) w (yf - y - h)) A;
    Ret (with_wasted (u64 (wasted A + w * (yf - y - h))) A, x, y)
  else Ret (A, x, y).

(** The tail of [update]: upload, texture coordinates, usage. *)
Definition finish (uniqueName : cstring) (x y w h : Z) (A : TextureAtlas) : TextureAtlas :=
  let used_i := u32 (u32 (tex_w A * border_y A) + border_x A * yRange_second A) in
  let usage' := F64.to_f32 (F64.div (F64.of_Z used_i) (F64.of_Z (u32 (tex_w A * tex_h A)))) in
  mkAtlas (tex_w A) (tex_h A) (rlid A) (wasted A) usage'
    (<[uniqueName := setTexCoords (tex_w A) (tex_h A) (u32 x) (u32 y) (u32 w) (u32 h)]> (offsets A))
    (leftovers A) (border_x A) (border_y A) (yRange_first A) (yRange_second A)
    (uploads A ++ [mkLeftOver x (x + w) y (y + h)]).

(** [update]: the new state, and whether a quad (and not null) is returned. *)
Definition update (uniqueName : cstring) (width height : Z) (A : TextureAtlas) : outcome (TextureAtlas * bool) :=
  if (width <=? 0) || (height <=? 0) then Ret (A, false)
  else
    let w := i16 width in
    let h := i16 height in
    '(s, lid) ← store_find (leftover 0 0 w h) (leftovers A);
    let A := with_leftovers s A in
    if bool_decide (lid ≠ 0%N) then
      '(A, x, y) ← place_in_leftover lid w h A;
      Ret (finish uniqueName x y w h A, true)
    else
      match advance_border w h A with
      | None => Ret (A, false)
      | Some A =>
          '(A, x, y) ← place_on_border w h A;
          Ret (finish uniqueName x y w h A, true)
      end.

(** The overload with pixel data, and the one that loads the image: [image] is
    [ImageCache::get], the extent of the image a file holds. *)
Definition addSprite_data (uniqueName : cstring) (w h : Z) (A : TextureAtlas) : outcome (TextureAtlas * bool) :=
  match offsets A !! uniqueName with
  | Some _ => Ret (A, true)
  | None => update uniqueName w h A
  end.

Definition addSprite_file (image : cstring -> outcome (Z * Z)) (file : cstring) (A : TextureAtlas) :
    outcome (TextureAtlas * bool) :=
  match offsets A !! file with
  | Some _ => Ret (A, true)
  | None =>
      '(w, h) ← image file;
      if (w <=? 0) || (h <=? 0) then Ret (A, false) else update file w h A
  end.

End Atlas.
Arguments TextureAtlas : clear implicits.
End Atlas.

(** ** The packing invariant *)
Module Packing.
Import Quad2D Atlas.

(** Rectangles without a common point. *)
Definition disjoint_rects (a b : LeftOver) : Prop :=
  lo_r a <= lo_l b \/ lo_r b <= lo_l a \/ lo_b a <= lo_t b \/ lo_b b <= lo_t a.

Definition sub_rect (a b : LeftOver) : Prop :=
  lo_l b <= lo_l a /\ lo_r a <= lo_r b /\ lo_t b <= lo_t a /\ lo_b a <= lo_b b.

(** The part of the texture in use: full rows above [by_], and the current row
    of height [ys] up to [bx]. *)
Definition inside (W bx by_ ys : Z) (a : LeftOver) : Prop :=
  0 <= lo_l a <= lo_r a /\ lo_r a <= W /\ 0 <= lo_t a <= lo_b a
  /\ (lo_b a <= by_ \/ (lo_r a <= bx /\ lo_b a <= by_ + ys)).

Definition pairwise (l : list LeftOver) : Prop := ForallOrdPairs disjoint_rects l.

Lemma disjoint_sym a b : disjoint_rects a b -> disjoint_rects b a.
Proof. unfold disjoint_rects. tauto. Qed.

Lemma disjoint_sub a b c : disjoint_rects a b -> sub_rect c b -> disjoint_rects a c.
Proof. unfold disjoint_rects, sub_rect. lia. Qed.

Lemma pairwise_cons a l : pairwise (a :: l) <-> Forall (disjoint_rects a) l /\ pairwise l.
Proof. split; [intros H; by inversion H|intros []; by constructor]. Qed.

#[local] Instance pairwise_proper : Proper ((≡ₚ) ==> iff) pairwise.
Proof.
  assert (forall l l', l ≡ₚ l' -> pairwise l -> pairwise l') as Himp.
  { induction 1 as [|x l l' Hp IH|x y l|l1 l2 l3 _ IH1 _ IH2]; [done| | |by auto].
    - rewrite !pairwise_cons. intros [Hf ?]. rewrite Hp in Hf. auto.
    - rewrite !pairwise_cons, !Forall_cons. intros ([] & []). split_and!; try done. by apply disjoint_sym. }
  intros l l' Hp. split; apply Himp; done.
Qed.

(** A rectangle may be replaced by disjoint rectangles inside it. *)
Lemma pairwise_refine r subs l : Forall (fun s => sub_rect s r) subs -> pairwise subs ->
  pairwise (r :: l) -> pairwise (subs ++ l).
Proof.
  intros Hs Hp. rewrite pairwise_cons. intros [Hr Hl]. induction subs as [|s subs IH]; [done|].
  apply Forall_cons in Hs as [Hs1 Hs2]. apply pairwise_cons in Hp as [Hp1 Hp2]. cbn. apply pairwise_cons.
  split; [|by apply IH]. apply Forall_app. split; [done|]. eapply Forall_impl; [exact Hr|].
  intros x Hx. apply disjoint_sym, disjoint_sub with r; [by apply disjoint_sym|done].
Qed.

Section Pack.
Context {S : Type} `{!LeftoverStore S}.
Implicit Types A : TextureAtlas S.

(** The rectangles the atlas holds: uploaded ones and free ones. *)
Definition owned A : list LeftOver := uploads A ++ (map_to_list (store_map (leftovers A))).*2.

(** All of them, and the [rs] being handled, are disjoint and satisfy [P]. *)
Record Packed (P : LeftOver -> Prop) A (rs : list LeftOver) : Prop := mkPacked {
  pk_store : store_ok (leftovers A);
  pk_keys : (0 < rlid A)%N /\ forall k v, store_map (leftovers A) !! k = Some v -> (0 < k < rlid A)%N;
  pk_inside : Forall P (owned A ++ rs);
  pk_disjoint : pairwise (owned A ++ rs)
}.

Lemma Packed_perm P A A' rs rs' : Packed P A rs -> store_ok (leftovers A') ->
  ((0 < rlid A')%N /\ forall k v, store_map (leftovers A') !! k = Some v -> (0 < k < rlid A')%N) ->
  owned A ++ rs ≡ₚ owned A' ++ rs' -> Packed P A' rs'.
Proof. intros [H1 H2 H3 H4] Ho Hk Hp. split; [done|done| |]; by rewrite <- Hp. Qed.

(** Only the store, the next key and the uploads matter. *)
Definition same_rects A A' : Prop :=
  leftovers A' = leftovers A /\ rlid A' = rlid A /\ uploads A' = uploads A.

Lemma Packed_same P A A' rs : same_rects A A' -> Packed P A rs -> Packed P A' rs.
Proof. intros (E1 & E2 & E3) HP. eapply Packed_perm; [exact HP| | |unfold owned; by rewrite E1, E3]; rewrite E1, ?E2; apply HP. Qed.

Lemma Packed_weaken P A rs r : Packed P A (r :: rs) -> Packed P A rs.
Proof.
  intros [H1 H2 H3 H4]. split; [done|done| |].
  - rewrite <- Permutation_middle in H3. by apply Forall_cons in H3 as [_ ?].
  - rewrite <- Permutation_middle in H4. by apply pairwise_cons in H4 as [_ ?].
Qed.

Lemma Packed_refine P A rs r subs : Packed P A (r :: rs) -> Forall (fun s => sub_rect s r /\ P s) subs -> pairwise subs ->
  Packed P A (subs ++ rs).
Proof.
  intros [H1 H2 H3 H4] Hs Hp. rewrite <- Permutation_middle in H3, H4. apply Forall_cons in H3 as [_ H3].
  split; [done|done| |].
  - apply Forall_app in H3 as [Ho Hrs]. apply Forall_app. split; [done|]. apply Forall_app. split; [|done].
    eapply Forall_impl; [exact Hs|]. by intros s [_ ?].
  - rewrite app_assoc, (Permutation_app_comm (owned A)), <- app_assoc.
    apply pairwise_refine with r; [|done|done]. eapply Forall_impl; [exact Hs|]. naive_solver.
Qed.

(** Adding the reserved rectangle to the store. *)
Lemma add_leftover_Packed P A r rs : Packed P A (r :: rs) ->
  exists A', add_leftover r A = Ret A' /\ Packed P A' rs
    /\ (tex_w A', tex_h A', border_x A', border_y A', yRange_first A', yRange_second A', wasted A', uploads A')
     = (tex_w A, tex_h A, border_x A, border_y A, yRange_first A, yRange_second A, wasted A, uploads A).
Proof.
  intros HP. pose proof HP as [H1 [Hr H2] H3 H4]. unfold add_leftover.
  assert (store_map (leftovers A) !! rlid A = None) as Hf.
  { destruct (store_map (leftovers A) !! rlid A) eqn:E; [|done]. apply H2 in E. lia. }
  destruct (store_add_ok (rlid A) r (leftovers A) H1) as (s' & Hrun & Hok & Hm); [lia|done|].
  rewrite Hrun. cbn. eexists; split; [reflexivity|]. split; [|done].
  eapply Packed_perm; [exact HP|done| |].
  - cbn. split; [lia|]. intros k v. rewrite Hm. intros [[<- _]|[_ Hk]]%lookup_insert_Some; [lia|].
    apply H2 in Hk. lia.
  - unfold owned. cbn. rewrite Hm, map_to_list_insert by done. cbn. rewrite <- !app_assoc.
    apply Permutation_app_head. symmetry. apply Permutation_middle.
Qed.

Lemma add_leftover_if_Packed P A (b : bool) r rs : (if b then Packed P A (r :: rs) else Packed P A rs) ->
  exists A', add_leftover_if b r A = Ret A' /\ Packed P A' rs
    /\ (tex_w A', tex_h A', border_x A', border_y A', yRange_first A', yRange_second A', wasted A', uploads A')
     = (tex_w A, tex_h A, border_x A, border_y A, yRange_first A, yRange_second A, wasted A, uploads A).
Proof. unfold add_leftover_if. destruct b; [apply add_leftover_Packed|]. intros HP. by exists A. Qed.

(** Taking a free rectangle out of the store. *)
Lemma erase_Packed P A k lo : Packed P A [] -> store_map (leftovers A) !! k = Some lo ->
  exists s, store_erase k (leftovers A) = Ret s /\ Packed P (with_leftovers s A) [lo].
Proof.
  intros HP Hk. pose proof HP as [H1 [Hr H2] H3 H4].
  destruct (store_erase_ok k (leftovers A) H1) as (s & Hrun & Hok & Hm). exists s. split; [done|].
  eapply Packed_perm; [exact HP|done| |].
  - cbn. split; [done|]. intros k' v. rewrite Hm. intros [_ ?]%lookup_delete_Some. by eapply H2.
  - unfold owned. cbn. rewrite Hm, app_nil_r, <- (map_to_list_delete _ _ _ Hk). cbn.
    rewrite <- app_assoc, (Permutation_app_comm _ [lo]). done.
Qed.

Lemma finish_Packed P A name x y w h : Packed P A [mkLeftOver x (x + w) y (y + h)] ->
  Packed P (finish name x y w h A) [].
Proof.
  intros HP. pose proof HP as [H1 H2 _ _]. eapply Packed_perm; [exact HP|done|done|].
  unfold owned. cbn. rewrite app_nil_r, <- !app_assoc. apply Permutation_app_head. by rewrite Permutation_app_comm.
Qed.

(** *** Geometry *)

Record Geometry A : Prop := mkGeometry {
  geo_w : tex_w A <= 32767;
  geo_h : tex_h A <= 32767;
  geo_x : 0 <= border_x A <= tex_w A;
  geo_y : 0 <= border_y A;
  geo_row : 0 <= yRange_second A;
  geo_bottom : border_y A + yRange_second A <= tex_h A;
  geo_range : yRange_first A = border_y A + yRange_second A
    \/ (border_x A = 0 /\ yRange_first A = 0 /\ yRange_second A = 0)
}.

Definition in_use A : LeftOver -> Prop := inside (tex_w A) (border_x A) (border_y A) (yRange_second A).

Definition Inv A : Prop := Geometry A /\ Packed (in_use A) A [].

Lemma leftover_exact x y w h : 0 <= x -> 0 <= y -> 0 <= w -> 0 <= h -> x + w <= 32767 -> y + h <= 32767 ->
  leftover x y w h = mkLeftOver x (x + w) y (y + h).
Proof. intros. unfold leftover. by unwrap. Qed.

Lemma inside_bounds A a : Geometry A -> in_use A a ->
  0 <= lo_l a <= lo_r a /\ lo_r a <= tex_w A /\ 0 <= lo_t a <= lo_b a /\ lo_b a <= tex_h A.
Proof. intros [] (H1 & H2 & H3 & H4). destruct H4; lia. Qed.

(** The reserved free rectangle [lo], with the sprite's place cut out: whatever
    remains is disjoint from the place, which stays reserved. *)
Lemma split_leftover_Packed (P : LeftOver -> Prop) A lo w h : Packed P A [lo] ->
  (forall s, lo_l s <= lo_r s -> lo_t s <= lo_b s -> sub_rect s lo -> P s) ->
  0 <= lo_l lo -> 0 <= lo_t lo -> lo_r lo <= 32767 -> lo_b lo <= 32767 ->
  0 <= w <= lo_width lo -> 0 <= h <= lo_height lo ->
  exists A', split_leftover (lo_l lo) (lo_t lo) w h (lo_width lo - w) (lo_height lo - h) A = Ret A'
    /\ Packed P A' [mkLeftOver (lo_l lo) (lo_l lo + w) (lo_t lo) (lo_t lo + h)]
    /\ (tex_w A', tex_h A', border_x A', border_y A', yRange_first A', yRange_second A', wasted A', uploads A')
     = (tex_w A, tex_h A, border_x A, border_y A, yRange_first A, yRange_second A, wasted A, uploads A).
Proof.
  intros HP Hsub Hl Ht Hr Hb Hw Hh. unfold lo_width, lo_height in *. destruct lo as [l r t b]. cbn in *.
  set (place := mkLeftOver l (l + w) t (t + h)).
  assert (forall subs, Forall (fun s => lo_l s <= lo_r s /\ lo_t s <= lo_b s /\ sub_rect s (mkLeftOver l r t b)) subs ->
            pairwise subs -> Packed P A subs) as Href.
  { intros subs Hs Hp. rewrite <- (app_nil_r subs). apply Packed_refine with (mkLeftOver l r t b); [done| |done].
    eapply Forall_impl; [exact Hs|]. intros s (? & ? & ?). split; [done|]. by apply Hsub. }
  unfold split_leftover, MINLOSIZE.
  destruct (Z.leb_spec 4 (r - l - w)), (Z.leb_spec 4 (b - t - h)); cbn [andb].
  - rewrite !leftover_exact by lia.
    destruct (add_leftover_Packed P A (mkLeftOver (l + w) (l + w + (r - l - w)) (t + h) (t + h + (b - t - h)))
      [mkLeftOver l (l + w) (t + h) (t + h + (b - t - h)); mkLeftOver (l + w) (l + w + (r - l - w)) t (t + h); place])
      as (A1 & -> & HP1 & E1).
    { apply Href; unfold place, sub_rect; [repeat constructor; cbn; lia|].
      unfold pairwise; repeat constructor; unfold disjoint_rects; cbn; lia. }
    rewrite bind_Ret.
    destruct (add_leftover_if_Packed P A1 (4 <=? w) (mkLeftOver l (l + w) (t + h) (t + h + (b - t - h)))
      [mkLeftOver (l + w) (l + w + (r - l - w)) t (t + h); place]) as (A2 & -> & HP2 & E2).
    { destruct (4 <=? w); [done|by apply Packed_weaken in HP1]. }
    rewrite bind_Ret.
    destruct (add_leftover_if_Packed P A2 (4 <=? h) (mkLeftOver (l + w) (l + w + (r - l - w)) t (t + h)) [place])
      as (A3 & -> & HP3 & E3).
    { destruct (4 <=? h); [done|by apply Packed_weaken in HP2]. }
    exists A3. split; [done|]. split; [done|]. by rewrite E3, E2, E1.
  - rewrite leftover_exact by lia. apply add_leftover_Packed, Href; unfold place, sub_rect.
    + repeat constructor; cbn; lia.
    + unfold pairwise; repeat constructor; unfold disjoint_rects; cbn; lia.
  - rewrite leftover_exact by lia. apply add_leftover_if_Packed. destruct (Z.leb_spec 4 (b - t - h)); [|lia].
    apply Href; unfold place, sub_rect; [repeat constructor; cbn; lia|].
    unfold pairwise; repeat constructor; unfold disjoint_rects; cbn; lia.
  - apply add_leftover_if_Packed. destruct (Z.leb_spec 4 (b - t - h)); [lia|].
    apply Href; unfold place, sub_rect; [repeat constructor; cbn; lia|]. unfold pairwise; repeat constructor.
Qed.

(** *** The border *)

Lemma advance_border_Inv A w h A' : Inv A -> 0 < w <= tex_w A -> 0 < h <= 32767 ->
  advance_border w h A = Some A' ->
  Inv A' /\ border_x A' + w <= tex_w A' /\ border_y A' + h <= tex_h A'
  /\ tex_w A' = tex_w A /\ tex_h A' = tex_h A.
Proof.
  intros [[] HP] Hw Hh. unfold advance_border. unwrap.
  destruct (Z.ltb_spec (tex_w A) (border_x A + w)); [|destruct (Z.ltb_spec (tex_h A) (border_y A + h)); [done|]].
  - destruct (Z.ltb_spec (tex_h A) (border_y A + yRange_second A + h)); [done|]. intros [= <-]. cbn.
    split; [|lia]. split; [split; cbn; lia|]. apply (Packed_same _ A); [done|].
    destruct HP as [H1 H2 H3 H4]. split; [done|done| |done]. eapply Forall_impl; [exact H3|].
    unfold in_use, inside. cbn. intros a. lia.
  - intros [= <-]. split; [|lia]. split; [by split|done].
Qed.

(** Rectangles outside the part in use may be reserved when it grows. *)
Lemma border_reserve A w h subs : Packed (in_use A) A [] -> 0 < w -> 0 < h ->
  let P := inside (tex_w A) (border_x A + w) (border_y A) (Z.max (yRange_second A) h) in
  Forall (fun s => P s /\ forall a, in_use A a -> disjoint_rects a s) subs -> pairwise subs ->
  Packed P (with_border (border_x A + w) (border_y A) A) subs.
Proof.
  intros [H1 H2 H3 H4] Hw Hh P Hs Hp. rewrite app_nil_r in H3, H4. split; [done|done| |].
  - apply Forall_app. split; [|eapply Forall_impl; [exact Hs|by intros s []]].
    eapply Forall_impl; [exact H3|]. unfold P, in_use, inside. intros a. lia.
  - rewrite Permutation_app_comm. change (owned (with_border _ _ A)) with (owned A).
    induction subs as [|s subs IH]; [done|].
    apply Forall_cons in Hs as [[_ Hs1] Hs]. apply pairwise_cons in Hp as [Hp1 Hp2]. cbn. apply pairwise_cons.
    split; [|by apply IH]. apply Forall_app. split; [done|]. eapply Forall_impl; [exact H3|].
    intros a Ha. by apply disjoint_sym, Hs1.
Qed.

Lemma place_on_border_Packed A w h : Inv A -> 0 < w -> 0 < h ->
  border_x A + w <= tex_w A -> border_y A + h <= tex_h A ->
  exists A', place_on_border w h A = Ret (A', border_x A, border_y A) /\ Geometry A'
    /\ Packed (in_use A') A' [mkLeftOver (border_x A) (border_x A + w) (border_y A) (border_y A + h)]
    /\ tex_w A' = tex_w A /\ tex_h A' = tex_h A.
Proof.
  intros [HG HP] Hw Hh Hx Hy. pose proof HG as []. unfold place_on_border. cbn [border_x border_y with_border].
  set (place := mkLeftOver _ _ _ _). set (ys := yRange_second A) in *. set (yf := yRange_first A) in *.
  set (P := inside (tex_w A) (border_x A + w) (border_y A) (Z.max ys h)).
  unwrap.
  set (A1 := with_border _ _ A). cbn [yRange_first yRange_second A1 with_border]. fold ys yf.
  assert (forall subs, Forall (fun s => P s /\ forall a, in_use A a -> disjoint_rects a s) subs -> pairwise subs ->
            Packed P A1 subs) as Hput by (intros; by apply border_reserve).
  assert (P place /\ forall a, in_use A a -> disjoint_rects a place) as [HPp Hdp].
  { unfold P, place, in_use, inside, disjoint_rects. cbn. fold ys. split; [lia|]. intros a. lia. }
  assert (Packed P A1 [place]) as Hone.
  { apply Hput; [by apply Forall_singleton|unfold pairwise; repeat constructor]. }
  assert (forall lo, P lo -> (forall a, in_use A a -> disjoint_rects a lo) -> disjoint_rects lo place ->
            Packed P A1 [lo; place]) as Htwo.
  { intros lo H1 H2 H3. apply Hput.
    - by rewrite !Forall_cons, Forall_nil.
    - rewrite !pairwise_cons, !Forall_cons, !Forall_nil. split_and!; first [done|constructor]. }
  destruct (Z.ltb_spec ys h); [|destruct (Z.ltb_spec h (yf - border_y A))].
  - destruct (add_leftover_if_Packed P A1 ((MINLOSIZE <=? border_x A) && (MINLOSIZE <=? h - ys))
      (leftover 0 yf (border_x A) (h - ys)) [place]) as (A2 & -> & HP2 & E2).
    { unfold MINLOSIZE. destruct (Z.leb_spec 4 (border_x A)), (Z.leb_spec 4 (h - ys)); cbn [andb]; [|done..].
      rewrite leftover_exact by lia.
      apply Htwo; unfold P, place, in_use, inside, disjoint_rects; cbn; fold ys; lia. }
    rewrite bind_Ret. injection E2 as Ew Eh Ex Ey Eyf Eys Ewa Eu. eexists. split; [reflexivity|]. cbn.
    split; [split; cbn; rewrite ?Ew, ?Eh, ?Ex, ?Ey; cbn; lia|].
    split; [|done]. apply (Packed_same _ A2); [done|]. unfold in_use. cbn. rewrite Ew, Ex, Ey. cbn.
    replace h with (Z.max ys h) at 1 by lia. done.
  - destruct (add_leftover_if_Packed P A1 ((MINLOSIZE <=? w) && (MINLOSIZE <=? yf - border_y A - h))
      (leftover (border_x A) (border_y A + h) w (yf - border_y A - h)) [place]) as (A2 & -> & HP2 & E2).
    { unfold MINLOSIZE. destruct (Z.leb_spec 4 w), (Z.leb_spec 4 (yf - border_y A - h)); cbn [andb]; [|done..].
      rewrite leftover_exact by lia.
      apply Htwo; unfold P, place, in_use, inside, disjoint_rects; cbn; fold ys; lia. }
    rewrite bind_Ret. injection E2 as Ew Eh Ex Ey Eyf Eys Ewa Eu. eexists. split; [reflexivity|]. cbn.
    split; [split; cbn; rewrite ?Ew, ?Eh, ?Ex, ?Ey, ?Eyf, ?Eys; cbn; fold ys yf; lia|].
    split; [|done]. apply (Packed_same _ A2); [done|]. unfold in_use. cbn. rewrite Ew, Ex, Ey, Eys. cbn. fold ys.
    replace ys with (Z.max ys h) at 1 by lia. done.
  - exists A1. split; [done|]. split; [split; cbn; fold ys yf; lia|]. split; [|done].
    unfold in_use. cbn. fold ys. replace ys with (Z.max ys h) by lia.
    exact Hone.
Qed.

(** *** The whole operation *)

Lemma place_in_leftover_Packed A lid lo w h : Inv A -> store_map (leftovers A) !! lid = Some lo ->
  0 < w <= lo_width lo -> 0 < h <= lo_height lo ->
  exists A', place_in_leftover lid w h A = Ret (A', lo_l lo, lo_t lo) /\ Geometry A'
    /\ Packed (in_use A') A' [mkLeftOver (lo_l lo) (lo_l lo + w) (lo_t lo) (lo_t lo + h)]
    /\ tex_w A' = tex_w A /\ tex_h A' = tex_h A.
Proof.
  intros [HG HP] Hlid Hw Hh. unfold place_in_leftover. rewrite (store_get_ok lid _ lo (pk_store _ _ _ HP) Hlid).
  destruct (erase_Packed _ A lid lo HP Hlid) as (s & -> & HP1). rewrite bind_Ret. cbv zeta.
  set (A1 := with_wasted _ _). assert (Packed (in_use A) A1 [lo]) as HP2 by (apply (Packed_same _ (with_leftovers s A)); [by repeat split|exact HP1]).
  assert (in_use A lo) as Hin by (destruct HP2 as [_ _ H3 _]; apply Forall_app in H3 as [_ H3]; by apply (proj1 (Forall_singleton _ _)) in H3).
  pose proof (inside_bounds A lo HG Hin) as Hb. pose proof HG as [].
  destruct (split_leftover_Packed (in_use A) A1 lo w h) as (A2 & -> & HP3 & E); [done| |lia..|].
  { intros r. unfold in_use, inside, sub_rect in *. lia. }
  rewrite bind_Ret. injection E as Ew Eh Ex Ey Eyf Eys Ewa Eu. exists A2. split; [done|].
  split; [split; rewrite ?Ew, ?Eh, ?Ex, ?Ey, ?Eyf, ?Eys; cbn; lia|]. split; [|done].
  unfold in_use. by rewrite Ew, Ex, Ey, Eys.
Qed.

Lemma update_Inv A name width height : Inv A -> 0 < width <= tex_w A -> 0 < height <= 32767 ->
  exists A' b, update name width height A = Ret (A', b) /\ Inv A'
    /\ tex_w A' = tex_w A /\ tex_h A' = tex_h A.
Proof.
  intros HI Hw Hh. pose proof HI as [HG HP]. pose proof HG as []. unfold update.
  destruct (Z.leb_spec width 0), (Z.leb_spec height 0); try lia. cbn [orb].
  unwrap. rewrite leftover_exact by lia.
  destruct (store_find_ok (mkLeftOver 0 (0 + width) 0 (0 + height)) (leftovers A) (pk_store _ _ _ HP)) as (lid & -> & Hlid).
  rewrite bind_Ret. replace (with_leftovers (leftovers A) A) with A by (by destruct A).
  assert (forall A1 x y, Geometry A1 -> Packed (in_use A1) A1 [mkLeftOver x (x + width) y (y + height)] ->
            Inv (finish name x y width height A1)) as Hfin.
  { intros A1 x y HG1 HP1. split; [by destruct HG1; split|]. by apply (finish_Packed _ _ name) in HP1. }
  case_bool_decide as Hz.
  - destruct Hlid as [?|(lo & Hlo & Hfit)]; [done|]. unfold lo_fits in Hfit. cbn in Hfit.
    apply andb_true_iff in Hfit as [Hf1%Z.leb_le Hf2%Z.leb_le]. unfold lo_width, lo_height in Hf1, Hf2. cbn in Hf1, Hf2.
    destruct (place_in_leftover_Packed A lid lo width height) as (A1 & -> & HG1 & HP1 & ? & ?);
      [done|done|unfold lo_width; lia|unfold lo_height; lia|].
    rewrite bind_Ret. eexists _, _. split; [reflexivity|]. split; [by apply Hfin|done].
  - destruct (advance_border width height A) as [A1|] eqn:Hadv; [|exists A, false; done].
    destruct (advance_border_Inv A width height A1) as (HI1 & ? & ? & E1 & E2); [done|done|done|done|].
    destruct (place_on_border_Packed A1 width height) as (A2 & -> & HG2 & HP2 & ? & ?); [done|lia|lia|done|done|].
    rewrite bind_Ret. eexists _, _. split; [reflexivity|]. split; [by apply Hfin|]. cbn. split; congruence.
Qed.

Lemma create_Inv W H : 0 < W <= 32767 -> 0 < H <= 32767 -> Inv (create W H).
Proof.
  intros HW HH. destruct store_empty_ok as [Hok Hm]. split; [split; cbn; lia|].
  assert (owned (create W H) = []) as Ho by (unfold owned; cbn; by rewrite Hm, map_to_list_empty).
  split; [done| | |]; rewrite ?Ho; [|constructor..]. cbn. split; [lia|]. intros k v. by rewrite Hm, lookup_empty.
Qed.

(** A sequence of sprites given by name, width and height. *)
Fixpoint add_sprites (reqs : list (cstring * Z * Z)) (A : TextureAtlas S) : outcome (TextureAtlas S) :=
  match reqs with
  | [] => Ret A
  | (name, w, h) :: reqs => '(A, _) ← addSprite_data name w h A; add_sprites reqs A
  end.

Lemma add_sprites_Inv reqs : forall A, Inv A ->
  Forall (fun '(_, w, h) => 0 < w <= tex_w A /\ 0 < h <= 32767) reqs ->
  exists A', add_sprites reqs A = Ret A' /\ Inv A' /\ tex_w A' = tex_w A /\ tex_h A' = tex_h A.
Proof.
  induction reqs as [|[[name w] h] reqs IH]; intros A HI Hr; [by exists A|].
  apply Forall_cons in Hr as [[Hw Hh] Hr]. cbn.
  assert (exists A' b, addSprite_data name w h A = Ret (A', b) /\ Inv A' /\ tex_w A' = tex_w A /\ tex_h A' = tex_h A)
    as (A1 & b & -> & HI1 & E1 & E2).
  { unfold addSprite_data. destruct (offsets A !! name); [exists A, true; done|]. by apply update_Inv. }
  rewrite bind_Ret. destruct (IH A1 HI1) as (A2 & Hrun & HI2 & E3 & E4); [by rewrite E1|].
  exists A2. split; [done|]. split; [done|]. split; congruence.
Qed.

(** *** Theorems *)

(** C8. Packing is correct for every store that meets the interface: adding any
    sequence of sprites no wider than the texture returns without error, and the
    regions uploaded to the texture are pairwise disjoint and lie inside it. *)
Theorem atlas_packing W H reqs : 0 < W <= 32767 -> 0 < H <= 32767 ->
  Forall (fun '(_, w, h) => 0 < w <= W /\ 0 < h <= 32767) reqs ->
  exists A, add_sprites reqs (create W H) = Ret A
    /\ pairwise (uploads A)
    /\ Forall (fun a => 0 <= lo_l a <= lo_r a /\ lo_r a <= W /\ 0 <= lo_t a <= lo_b a /\ lo_b a <= H) (uploads A).
Proof.
  intros HW HH Hr. destruct (add_sprites_Inv reqs (create W H)) as (A & Hrun & [HG [_ _ H3 H4]] & E1 & E2); [by apply create_Inv|done|].
  exists A. split; [done|]. rewrite app_nil_r in H3, H4. unfold owned in H3, H4. split.
  - clear -H4. induction (uploads A) as [|a l IH]; [constructor|]. cbn in H4. apply pairwise_cons in H4 as [H1 H2].
    apply Forall_app in H1 as [H1 _]. constructor; [done|by apply IH].
  - apply Forall_app in H3 as [H3 _]. eapply Forall_impl; [exact H3|]. intros a Ha.
    pose proof (inside_bounds A a HG Ha) as Hb. cbn in E1, E2. lia.
Qed.

End Pack.

Lemma atlas_packing_witness :
  exists A : TextureAtlas (QuadTree.QuadTree LeftOver),
    add_sprites [(str "a"%string, 10, 12); (str "b"%string, 20, 6); (str "c"%string, 9, 6)] (create 32 32) = Ret A
    /\ pairwise (uploads A)
    /\ Forall (fun a => 0 <= lo_l a <= lo_r a /\ lo_r a <= 32 /\ 0 <= lo_t a <= lo_b a /\ lo_b a <= 32) (uploads A).
Proof. apply (atlas_packing 32 32); [lia|lia|]. repeat constructor; lia. Defined.

(** The place of each of these sprites; the third one reuses the free space
    below the second. *)
Example demo_places :
  (uploads <$> add_sprites (S := QuadTree.QuadTree LeftOver)
     [(str "a"%string, 10, 12); (str "b"%string, 20, 6); (str "c"%string, 9, 6)] (create 32 32))
  = Ret [mkLeftOver 0 10 0 12; mkLeftOver 10 30 0 6; mkLeftOver 10 19 6 12].
Proof. by vm_compute. Qed.

(** A sprite wider than the texture is not refused: the new row is not checked
    against the width, and the upload reaches outside the texture. *)
Theorem wide_sprite_out_of_bounds : exists A : TextureAtlas (QuadTree.QuadTree LeftOver),
  addSprite_data (str "wide"%string) 5000 10 (create 4096 4096) = Ret (A, true)
  /\ uploads A = [mkLeftOver 0 5000 0 10].
Proof. eexists. split; by vm_compute. Qed.

End Packing.

(** ** The pool (TexturePool.cpp)

    [mapping] holds pointers into the vector of atlases.  A pointer is an index
    and the number of the buffer it points into; growing the vector beyond its
    capacity moves the atlases to a new buffer, after which older pointers
    dangle.  [grow] is the capacity the implementation of [std::vector] chooses. *)
Module TexturePool.
Import Quad2D Atlas.

Abbreviation QuadAtlas := (TextureAtlas (QuadTree.QuadTree LeftOver)).

Record TexturePool := mkPool {
  atlas : list QuadAtlas;
  capacity : nat;
  buffer : nat;
  mapping : gmap cstring (nat * nat)   (* buffer, index *)
}.

Definition pool0 : TexturePool := mkPool [] 0 0 ∅.

Section Pool.
Context (grow : nat -> nat) (image : cstring -> outcome (Z * Z)).

(** [atlas.emplace_back()] with the default extent. *)
Definition createTextureAtlas (p : TexturePool) : TexturePool :=
  if decide (length (atlas p) < capacity p)%nat then
    mkPool (atlas p ++ [create 4096 4096]) (capacity p) (buffer p) (mapping p)
  else mkPool (atlas p ++ [create 4096 4096]) (grow (capacity p)) (S (buffer p)) (mapping p).

(** [iter->second->...]: a pointer into an old buffer dangles. *)
Definition deref_atlas (ptr : nat * nat) (p : TexturePool) : outcome (nat * QuadAtlas) :=
  if decide (ptr.1 = buffer p) then a ← vec_at (atlas p) ptr.2; Ret (ptr.2, a) else Exn NullDeref.

Definition set_atlas (i : nat) (a : QuadAtlas) (p : TexturePool) : TexturePool :=
  mkPool (<[i := a]> (atlas p)) (capacity p) (buffer p) (mapping p).

(** Run an operation on [atlas.back()]. *)
Definition on_back (f : QuadAtlas -> outcome (QuadAtlas * bool)) (p : TexturePool) : outcome (TexturePool * bool) :=
  let i := pred (length (atlas p)) in
  a ← vec_at (atlas p) i;
  '(a, quad) ← f a;
  Ret (set_atlas i a p, quad).

Definition ensure_atlas (p : TexturePool) : TexturePool :=
  if decide (atlas p = []) then createTextureAtlas p else p.

Definition map_to_back (name : cstring) (p : TexturePool) : TexturePool :=
  mkPool (atlas p) (capacity p) (buffer p) (<[name := (buffer p, pred (length (atlas p)))]> (mapping p)).

(** [first] is tried on the last atlas; when it is full, [again] on a new one. *)
Definition add_with (name : cstring) (first again : QuadAtlas -> outcome (QuadAtlas * bool)) (p : TexturePool) :
    outcome (TexturePool * bool) :=
  match mapping p !! name with
  | Some ptr =>
      '(i, a) ← deref_atlas ptr p;
      '(a, quad) ← addSprite_file image name a;
      Ret (set_atlas i a p, quad)
  | None =>
      '(p, quad) ← on_back first (ensure_atlas p);
      '(p, quad) ← (if quad : bool then Ret (p, quad) else on_back again (createTextureAtlas p));
      Ret (map_to_back name p, quad)
  end.

Definition addSprite (file : cstring) : TexturePool -> outcome (TexturePool * bool) :=
  add_with file (addSprite_file image file) (addSprite_file image file).

(** In the overload with pixel data, the retry on a new atlas calls the overload
    that takes a file name. *)
Definition addSprite_pixels (uniqueName : cstring) (w h : Z) : TexturePool -> outcome (TexturePool * bool) :=
  add_with uniqueName (addSprite_data uniqueName w h) (addSprite_file image uniqueName).

End Pool.

(** A vector that doubles its capacity, images that fill an atlas, and no images. *)
Definition doubling (n : nat) : nat := Nat.max 1 (2 * n).
Definition full_image (_ : cstring) : outcome (Z * Z) := Ret (4096, 4096).
Definition no_image (_ : cstring) : outcome (Z * Z) := Exn RuntimeError.

(** Two defects of the pool.  The second atlas moves the first one, so asking
    again for a sprite of the first follows a dangling pointer.  And when the last
    atlas is full, the overload with pixel data loads the sprite's name as an image
    file instead of using the data it was given. *)
Theorem pool_defects :
  ('(p, _) ← addSprite doubling full_image (str "a"%string) pool0;
   '(p, _) ← addSprite doubling full_image (str "b"%string) p;
   addSprite doubling full_image (str "a"%string) p) = Exn NullDeref
  /\ ('(p, _) ← addSprite_pixels doubling no_image (str "a"%string) 4096 4096 pool0;
       addSprite_pixels doubling no_image (str "b"%string) 4096 4096 p) = Exn RuntimeError.
Proof. split; by vm_compute. Qed.

End TexturePool.
