(* ===== verification/SceneGraph.v ===== *)
(** * SceneGraph: transforms and their propagation

    Models [Scene/Component/Transform.*] and [Scene/SceneGraph.*].  The matrix
    algebra is glm's and a parameter: a type of matrices and one of vectors with
    the functions the engine calls.  The theorem about [update] says that every
    world matrix ends up as the parent's world matrix times the local matrix. *)

From S2P Require Import Prelude Strings Hierarchy.
From stdpp Require Import base decidable list sets gmap relations.
From Stdlib Require Import ZArith Lia.
Import Registry.

(** ** Transforms (Transform.cpp) *)
Module Transform.

(** What the engine uses of glm: [compose] is translation times rotation times
    scale, [decompose] its partial inverse (scale, orientation, position). *)
Record glm := mkGlm {
  mat : Type; vec : Type;
  mat1 : mat;
  mat_mul : mat -> mat -> mat;
  compose : vec -> vec -> vec -> mat;          (* position, orientation, scale *)
  decompose : mat -> vec * vec * vec;          (* scale, orientation, position *)
  vec0 : vec; vec1 : vec
}.

Section Transform.
Context (G : glm).

Record Transform := mkTransform {
  localMatrix : mat G; worldMatrix : mat G; offsetMatrix : mat G;
  localPosition : vec G; localScale : vec G; localOrientation : vec G;
  initLocalPosition : vec G; initLocalScale : vec G; initLocalOrientation : vec G;
  hasUpdate : bool; dirty : bool
}.

(** The three constructors. *)
Definition make : Transform :=
  mkTransform (mat1 G) (mat1 G) (mat1 G) (vec0 G) (vec1 G) (vec0 G) (vec0 G) (vec1 G) (vec0 G) false false.

Definition make_matrix (m : mat G) : Transform :=
  let '(s, o, p) := decompose G m in
  mkTransform m m (mat1 G) p s o p s o false false.

Definition setLocalPosition (p : vec G) (t : Transform) : Transform :=
  mkTransform (localMatrix t) (worldMatrix t) (offsetMatrix t) p (localScale t) (localOrientation t)
    (initLocalPosition t) (initLocalScale t) (initLocalOrientation t) (hasUpdate t) true.

Definition make_position (p : vec G) : Transform :=
  let t := setLocalPosition p (mkTransform (mat1 G) (mat1 G) (mat1 G) p (vec1 G) (vec0 G)
             (vec0 G) (vec0 G) (vec0 G) false false) in
  mkTransform (localMatrix t) (worldMatrix t) (offsetMatrix t) (localPosition t) (localScale t) (localOrientation t)
    (localPosition t) (localScale t) (localOrientation t) (hasUpdate t) (dirty t).

Definition setLocalScale (s : vec G) (t : Transform) : Transform :=
  mkTransform (localMatrix t) (worldMatrix t) (offsetMatrix t) (localPosition t) s (localOrientation t)
    (initLocalPosition t) (initLocalScale t) (initLocalOrientation t) (hasUpdate t) true.

Definition setLocalOrientation (o : vec G) (t : Transform) : Transform :=
  mkTransform (localMatrix t) (worldMatrix t) (offsetMatrix t) (localPosition t) (localScale t) o
    (initLocalPosition t) (initLocalScale t) (initLocalOrientation t) (hasUpdate t) true.

Definition updateLocalMatrix (t : Transform) : Transform :=
  mkTransform (compose G (localPosition t) (localOrientation t) (localScale t)) (worldMatrix t) (offsetMatrix t)
    (localPosition t) (localScale t) (localOrientation t)
    (initLocalPosition t) (initLocalScale t) (initLocalOrientation t) true false.

Definition refresh (t : Transform) : Transform := if dirty t then updateLocalMatrix t else t.

Definition setWorldMatrix (m : mat G) (t : Transform) : Transform :=
  let t := refresh t in
  mkTransform (localMatrix t) (mat_mul G m (localMatrix t)) (offsetMatrix t)
    (localPosition t) (localScale t) (localOrientation t)
    (initLocalPosition t) (initLocalScale t) (initLocalOrientation t) (hasUpdate t) (dirty t).

(** The getters of the matrices bring the local matrix up to date first. *)
Definition getWorldMatrix (t : Transform) : Transform * mat G := let t := refresh t in (t, worldMatrix t).
Definition getLocalMatrix (t : Transform) : Transform * mat G := let t := refresh t in (t, localMatrix t).

Definition applyTransform (t : Transform) : Transform :=
  let '(s, o, p) := decompose G (localMatrix t) in
  mkTransform (localMatrix t) (worldMatrix t) (offsetMatrix t) p s o
    (initLocalPosition t) (initLocalScale t) (initLocalOrientation t) (hasUpdate t) (dirty t).

Definition setLocalTransform (m : mat G) (t : Transform) : Transform :=
  applyTransform (mkTransform m (worldMatrix t) (offsetMatrix t) (localPosition t) (localScale t) (localOrientation t)
    (initLocalPosition t) (initLocalScale t) (initLocalOrientation t) true (dirty t)).

Definition getScaleFromMatrix (m : mat G) : vec G := let '(s, _, _) := decompose G m in s.

Definition setOffsetTransform (m : mat G) (t : Transform) : Transform :=
  mkTransform (localMatrix t) (worldMatrix t) m (localPosition t) (localScale t) (localOrientation t)
    (initLocalPosition t) (initLocalScale t) (initLocalOrientation t) (hasUpdate t) (dirty t).

Definition resetTransform (t : Transform) : Transform :=
  mkTransform (localMatrix t) (worldMatrix t) (offsetMatrix t)
    (initLocalPosition t) (initLocalScale t) (initLocalOrientation t)
    (initLocalPosition t) (initLocalScale t) (initLocalOrientation t) (hasUpdate t) true.

(** The archive holds position, orientation and scale. *)
Definition save (t : Transform) : vec G * vec G * vec G := (localPosition t, localOrientation t, localScale t).
Definition load (a : vec G * vec G * vec G) (t : Transform) : Transform :=
  let '(p, o, s) := a in
  mkTransform (localMatrix t) (worldMatrix t) (offsetMatrix t) p s o p s o (hasUpdate t) true.

(** The local matrix a transform stands for. *)
Definition local (t : Transform) : mat G := localMatrix (refresh t).

End Transform.
End Transform.

(** ** The scene graph (SceneGraph.cpp) *)
Module SceneGraph.
Import Transform.

Section Graph.
Context (G : glm).
Abbreviation pool := (gmap entity (Transform G)).

(** [updateTransform] of one entity: its own world matrix. *)
Definition visit (R : Registry) (e : entity) (T : pool) : pool :=
  match hier R !! e, T !! e with
  | Some h, Some t =>
      match parent h with
      | Some p =>
          match T !! p with
          | Some tp =>
              let '(tp, m) := getWorldMatrix G tp in
              alter (setWorldMatrix G m) e (<[p := tp]> T)
          | None => T
          end
      | None => <[e := setWorldMatrix G (mat1 G) t]> T
      end
  | _, _ => T
  end.

(** The loop over the children, with the recursive call as a parameter. *)
Fixpoint children_loop (rec : entity -> pool -> outcome pool) (n : nat) (R : Registry) (child : option entity) (T : pool) :
    outcome pool :=
  match n with
  | O => Exn OutOfFuel
  | S n =>
      match child with
      | None => Ret T
      | Some c =>
          let next := hier R !! c ≫= next in
          T ← rec c T;
          children_loop rec n R next T
      end
  end.

Fixpoint updateTransform (n : nat) (R : Registry) (e : entity) (T : pool) : outcome pool :=
  match n with
  | O => Exn OutOfFuel
  | S n =>
      match hier R !! e with
      | None => Ret T
      | Some h => children_loop (updateTransform n R) (Hierarchy.fuel R) R (first h) (visit R e T)
      end
  end.

(** The second loop of [update], over the entities [view] with both components. *)
Fixpoint update_roots (R : Registry) (view : list entity) (T : pool) : outcome pool :=
  match view with
  | [] => Ret T
  | e :: view =>
      T ← match hier R !! e with
          | Some h => if decide (parent h = None) then updateTransform (Hierarchy.fuel R) R e T else Ret T
          | None => Ret T
          end;
      update_roots R view T
  end.

(** [flat] are the entities with a transform and no hierarchy, [view] those with
    both, in the order the registry enumerates them. *)
Definition update (R : Registry) (flat view : list entity) (T : pool) : outcome pool :=
  let T := fold_left (fun T e => alter (setWorldMatrix G (mat1 G)) e T) flat T in
  update_roots R view T.

End Graph.
End SceneGraph.

(** ** Propagation *)
Module Propagation.
Import Transform SceneGraph Forest Tree.

Section Graph.
Context (G : glm).
Abbreviation pool := (gmap entity (Transform G)).
Context (R : Registry) (kids : entity -> list entity) (HR : Rep R kids).

(** The world matrix and the local matrix of an entity, if it has a transform. *)
Definition world_of (T : pool) (e : entity) : option (mat G) := worldMatrix G <$> T !! e.
Definition local_of (T : pool) (e : entity) : option (mat G) := local G <$> T !! e.

(** The matrix an entity's local matrix is multiplied with. *)
Definition base_of (T : pool) (e : entity) : option (mat G) :=
  match hier R !! e ≫= parent with Some p => world_of T p | None => Some (mat1 G) end.

(** World matrix = base times local matrix. *)
Definition settled (T : pool) (e : entity) : Prop :=
  exists b l, base_of T e = Some b /\ local_of T e = Some l /\ world_of T e = Some (mat_mul G b l).

(** *** One visit *)

Lemma refresh_local (t : Transform G) : local G (refresh G t) = local G t /\ worldMatrix G (refresh G t) = worldMatrix G t.
Proof. unfold local, refresh. destruct t as [? ? ? ? ? ? ? ? ? ? []]; done. Qed.

Lemma setWorldMatrix_spec m (t : Transform G) :
  local G (setWorldMatrix G m t) = local G t /\ worldMatrix G (setWorldMatrix G m t) = mat_mul G m (local G t).
Proof. unfold local, setWorldMatrix, refresh. destruct t as [? ? ? ? ? ? ? ? ? ? []]; done. Qed.

Lemma visit_local e (T : pool) x : local_of (visit G R e T) x = local_of T x.
Proof.
  unfold local_of, visit. destruct (hier R !! e) as [h|]; [|done]. destruct (T !! e) as [t|] eqn:Ht; [|done].
  destruct (parent h) as [p|].
  - destruct (T !! p) as [tp|] eqn:Hp; [|done]. cbn.
    destruct (decide (e = x)) as [<-|Hex]; [rewrite lookup_alter_eq|rewrite lookup_alter_ne by done].
    + destruct (decide (p = e)) as [->|]; [rewrite lookup_insert_eq|rewrite lookup_insert_ne by done].
      * rewrite Hp. cbn [fmap option_fmap option_map]. f_equal. rewrite (proj1 (setWorldMatrix_spec _ _)). apply refresh_local.
      * rewrite Ht. cbn. f_equal. apply setWorldMatrix_spec.
    + destruct (decide (p = x)) as [->|]; [rewrite lookup_insert_eq|by rewrite lookup_insert_ne].
      rewrite Hp. cbn. f_equal. apply refresh_local.
  - destruct (decide (e = x)) as [<-|]; [|by rewrite lookup_insert_ne].
    rewrite lookup_insert_eq, Ht. cbn. f_equal. apply setWorldMatrix_spec.
Qed.

Lemma visit_other e (T : pool) x : x ≠ e -> world_of (visit G R e T) x = world_of T x.
Proof.
  intros Hx. unfold world_of, visit. destruct (hier R !! e) as [h|]; [|done]. destruct (T !! e) as [t|]; [|done].
  destruct (parent h) as [p|]; [|by rewrite lookup_insert_ne].
  destruct (T !! p) as [tp|] eqn:Hp; [|done]. cbn. rewrite lookup_alter_ne by done.
  destruct (decide (p = x)) as [->|]; [rewrite lookup_insert_eq|by rewrite lookup_insert_ne].
  rewrite Hp. cbn. f_equal. apply refresh_local.
Qed.

Lemma visit_self e h (T : pool) b l : hier R !! e = Some h -> base_of T e = Some b -> local_of T e = Some l ->
  world_of (visit G R e T) e = Some (mat_mul G b l).
Proof.
  intros Hh Hb Hl. unfold base_of in Hb. rewrite Hh in Hb. cbn in Hb. unfold local_of in Hl.
  apply fmap_Some in Hl as (t & Ht & ->). unfold world_of, visit. rewrite Hh, Ht.
  destruct (parent h) as [p|] eqn:Hp.
  - assert (p ≠ e) as Hpe by (intros ->; by apply (rep_self HR _ _ Hh)).
    unfold world_of in Hb. apply fmap_Some in Hb as (tp & Htp & ->). rewrite Htp. cbn [getWorldMatrix].
    rewrite lookup_alter_eq, lookup_insert_ne, Ht by done. cbn [fmap option_fmap option_map]. f_equal.
    rewrite (proj2 (setWorldMatrix_spec _ _)). f_equal. apply refresh_local.
  - rewrite lookup_insert_eq. cbn. f_equal. injection Hb as <-. apply setWorldMatrix_spec.
Qed.

(** *** Sequences of visits *)

(** Every entity of the list comes after its parent, or its parent is in [V]. *)
Fixpoint parents_first (V L : list entity) : Prop :=
  match L with
  | [] => True
  | e :: L => is_Some (hier R !! e) /\ (forall p, up R e p -> p ∈ V) /\ parents_first (e :: V) L
  end.

Definition visits (L : list entity) (T : pool) : pool := fold_left (fun T e => visit G R e T) L T.

Definition upward_closed (V : list entity) : Prop := forall x p, x ∈ V -> up R x p -> p ∈ V.

Lemma visit_settled V e T : upward_closed V -> (forall x, x ∈ V -> settled T x) ->
  is_Some (hier R !! e) -> is_Some (T !! e) -> (forall p, up R e p -> p ∈ V) ->
  upward_closed (e :: V) /\ forall x, x ∈ e :: V -> settled (visit G R e T) x.
Proof.
  intros Hcl Hset [h Hh] [t Ht] Hpar.
  assert (upward_closed (e :: V)) as Hcl'.
  { intros x p [->|Hx]%elem_of_cons Hxp; apply elem_of_cons; right; [by apply Hpar|by eapply Hcl]. }
  split; [done|].
  assert (exists b, base_of T e = Some b /\ base_of (visit G R e T) e = Some b) as (b & Hb & Hb').
  { unfold base_of. rewrite Hh. cbn. destruct (parent h) as [p|] eqn:Hp; [|eauto].
    assert (p ≠ e) as Hpe by (intros ->; by apply (rep_self HR _ _ Hh)).
    rewrite visit_other by done. destruct (Hset p) as (? & ? & _ & _ & Hw); [apply Hpar; by exists h|]. eauto. }
  assert (local_of T e = Some (local G t)) as Hl by (unfold local_of; by rewrite Ht).
  pose proof (visit_self e h T b (local G t) Hh Hb Hl) as Hself.
  assert (settled (visit G R e T) e) as He by (exists b, (local G t); by rewrite visit_local).
  intros x [->|Hx]%elem_of_cons; [done|]. destruct (decide (x = e)) as [->|Hxe]; [done|].
  destruct (Hset x Hx) as (bx & lx & Hbx & Hlx & Hwx). exists bx, lx.
  rewrite visit_local, visit_other by done. split; [|done]. unfold base_of in Hbx |- *.
  destruct (hier R !! x ≫= parent) as [q|] eqn:Hq; [|done].
  destruct (decide (q = e)) as [->|]; [|by rewrite visit_other].
  assert (e ∈ V) as HeV.
  { apply Hcl with x; [done|]. apply bind_Some in Hq as (hx & ? & ?). by exists hx. }
  destruct (Hset e HeV) as (be & le & Hbe & Hle & Hwe). rewrite Hself, <- Hbx, Hwe. congruence.
Qed.

Lemma visit_dom e T x : is_Some (T !! x) -> is_Some (visit G R e T !! x).
Proof.
  intros Hx. assert (is_Some (local_of (visit G R e T) x)) as Hl.
  { rewrite visit_local. unfold local_of. by apply fmap_is_Some. }
  unfold local_of in Hl. by apply fmap_is_Some in Hl.
Qed.

Lemma visits_settled L : forall V T, upward_closed V -> (forall x, x ∈ V -> settled T x) -> parents_first V L ->
  (forall x, is_Some (hier R !! x) -> is_Some (T !! x)) ->
  forall x, x ∈ V \/ x ∈ L -> settled (visits L T) x.
Proof.
  induction L as [|e L IH]; intros V T Hcl Hset Hpf HT x Hx; [set_solver|].
  destruct Hpf as (Hh & Hpar & Hpf). destruct (visit_settled V e T) as [Hcl' Hset']; [done|done|done|by apply HT|done|].
  apply (IH (e :: V)); [done|done|done| |set_solver]. intros y Hy. by apply visit_dom, HT.
Qed.

Lemma visits_local L : forall T x, local_of (visits L T) x = local_of T x.
Proof. induction L as [|e L IH]; intros T x; [done|]. cbn. fold (visits L (visit G R e T)). by rewrite IH, visit_local. Qed.

Lemma parents_first_app V L1 L2 : parents_first V (L1 ++ L2) <-> parents_first V L1 /\ parents_first (rev L1 ++ V) L2.
Proof.
  revert V. induction L1 as [|e L1 IH]; intros V; cbn; [tauto|]. rewrite IH, <- app_assoc. cbn. tauto.
Qed.

Lemma parents_first_mono V V' L : V ⊆ V' -> parents_first V L -> parents_first V' L.
Proof.
  revert V V'. induction L as [|e L IH]; intros V V' HV; [done|]. intros (H1 & H2 & H3).
  split; [done|]. split; [intros p Hp; by apply HV, H2|]. eapply IH; [|exact H3]. set_solver.
Qed.

Lemma preorder_parents_first n : forall e V, is_Some (hier R !! e) -> (forall p, up R e p -> p ∈ V) ->
  parents_first V (e :: preorder n kids e).
Proof.
  induction n as [|n IH]; intros e V He Hp; [done|]. split; [done|]. split; [done|]. cbn [preorder].
  assert (forall l W, l ⊆ kids e -> e ∈ W -> parents_first W (flat_map (fun c => c :: preorder n kids c) l)) as Hl.
  { induction l as [|c l IHl]; intros W Hsub HW; [done|]. cbn [flat_map]. apply parents_first_app.
    assert (c ∈ kids e) as Hc by set_solver. destruct (rep_kid _ _ HR _ _ Hc) as [Hup Hk]. split.
    - apply IH; [by destruct Hup as (h & ? & _); eexists|]. intros q Hq. by rewrite (up_fun _ _ _ _ Hq Hup).
    - apply IHl; set_solver. }
  apply Hl; [done|set_solver].
Qed.

(** *** The whole traversal *)

Lemma fold_visits_flat_map {A} (f : A -> list entity) (l : list A) T :
  fold_left (fun T a => visits (f a) T) l T = visits (flat_map f l) T.
Proof. revert T. induction l as [|a l IH]; intros T; [done|]. cbn. unfold visits. rewrite fold_left_app. apply IH. Qed.

Lemma children_loop_visits rec f p : (forall c T, c ∈ kids p -> rec c T = Ret (visits (f c) T)) ->
  forall l a n T, kids p = a ++ l -> length l < n ->
  children_loop G rec n R (head l) T = Ret (visits (flat_map f l) T).
Proof.
  intros Hrec. induction l as [|c l IH]; intros a n T Hk Hn; (destruct n as [|n]; [cbn in Hn; lia|]); [done|].
  assert (c ∈ kids p) as Hc by (rewrite Hk; set_solver).
  destruct (rep_kid_hier HR _ _ Hc) as (h & Hh & Hnx). rewrite Hk, next_in_middle in Hnx.
  2:{ pose proof (rep_nodup _ _ HR p) as Hnd. rewrite Hk in Hnd. by apply NoDup_middle in Hnd as [? _]. }
  cbn [head children_loop]. rewrite Hh. cbn [mbind option_bind]. rewrite Hnx, Hrec, bind_Ret by done.
  rewrite (IH (a ++ [c])); [|by rewrite Hk, app_cons_middle|cbn in Hn; lia].
  cbn [flat_map]. unfold visits. by rewrite fold_left_app.
Qed.

Lemma updateTransform_visits n : forall e T, height_lt n kids e -> is_Some (hier R !! e) ->
  updateTransform G n R e T = Ret (visits (e :: preorder n kids e) T).
Proof.
  induction n as [|n IH]; intros e T Hh [h He]; [done|]. cbn [updateTransform preorder]. rewrite He.
  destruct (rep_links _ _ HR _ _ He) as [-> _].
  rewrite (children_loop_visits _ (fun c => c :: preorder n kids c) e) with (a := []); [done| |done|].
  - intros c T' Hc. apply IH; [by apply Hh|]. destruct (rep_kid _ _ HR _ _ Hc) as [(hc & ? & _) _]. by eexists.
  - pose proof (kids_size HR e). unfold Hierarchy.fuel. lia.
Qed.

Definition root_visits (e : entity) : list entity :=
  match hier R !! e with
  | Some h => if decide (parent h = None) then e :: preorder (Hierarchy.fuel R) kids e else []
  | None => []
  end.

Lemma update_roots_visits view : forall T, update_roots G R view T = Ret (visits (flat_map root_visits view) T).
Proof.
  induction view as [|e view IH]; intros T; [done|]. cbn [update_roots flat_map]. unfold root_visits at 1.
  destruct (hier R !! e) as [h|] eqn:He; [|rewrite bind_Ret; apply IH].
  destruct (decide (parent h = None)) as [Hp|Hp]; [|rewrite bind_Ret; apply IH].
  rewrite updateTransform_visits, bind_Ret, IH; [|by apply height_bound|by eexists].
  unfold visits. by rewrite fold_left_app.
Qed.

Lemma roots_parents_first view : forall V, parents_first V (flat_map root_visits view).
Proof.
  induction view as [|e view IH]; intros V; [done|]. cbn [flat_map]. apply parents_first_app. split; [|apply IH].
  unfold root_visits. destruct (hier R !! e) as [h|] eqn:He; [|done]. case_decide as Hp; [|done].
  apply preorder_parents_first; [by eexists|]. intros p (h' & ? & ?). congruence.
Qed.

Lemma descendant_preorder n : forall e x, height_lt n kids e -> tc (up R) x e -> x ∈ preorder n kids e.
Proof.
  induction n as [|n IH]; intros e x Hh Hx; [done|]. cbn.
  assert (exists c, rtc (up R) x c /\ up R c e) as (c & Hxc & Hce).
  { clear -Hx. induction Hx as [x y H|x z y H Ht IH]; [exists x; split; [apply rtc_refl|done]|].
    destruct IH as (c & H1 & H2). exists c. split; [by eapply rtc_l|done]. }
  assert (c ∈ kids e) as Hc.
  { destruct Hce as (h & Hh' & Hp). destruct (rep_links _ _ HR _ _ Hh') as [_ Hs]. rewrite Hp in Hs. tauto. }
  apply list_elem_of_In, in_flat_map. exists c. split; [by apply list_elem_of_In|]. apply list_elem_of_In.
  apply rtc_tc in Hxc as [->|Hxc]; [set_solver|]. apply elem_of_cons. right. apply IH; [by apply Hh|done].
Qed.

Lemma root_exists n : forall (V : gset entity) x, V ⊆ dom (hier R) -> (forall v, v ∈ V -> tc (up R) v x) ->
  is_Some (hier R !! x) -> size (hier R) - size V < n ->
  exists r h, rtc (up R) x r /\ hier R !! r = Some h /\ parent h = None.
Proof.
  induction n as [|n IH]; intros V x HV Htc [h Hx] Hn; [lia|]. destruct (parent h) as [p|] eqn:Hp; [|exists x, h; eauto using rtc_refl].
  assert (up R x p) as Hxp by (by exists h).
  assert (x ∉ V) as HxV by (intros Hv; by apply (rep_acyclic _ _ HR x), Htc).
  assert (V ∪ {[x]} ⊆ dom (hier R)) as HV'.
  { apply union_subseteq. split; [done|]. apply singleton_subseteq_l, elem_of_dom. by eexists. }
  assert (size (V ∪ {[x]}) = S (size V)) as HS by (rewrite size_union, size_singleton by set_solver; lia).
  pose proof (subseteq_size _ _ HV') as Hle. rewrite size_dom, HS in Hle.
  destruct (IH (V ∪ {[x]}) p) as (r & hr & Hr & ? & ?); [done| |by eapply (rep_parent_hier HR)|lia|].
  { intros v [Hv| ->%elem_of_singleton]%elem_of_union; [|by apply tc_once]. eapply tc_r; [by apply Htc|done]. }
  exists r, hr. split; [by eapply rtc_l|done].
Qed.

Lemma roots_cover view x : (forall e, is_Some (hier R !! e) -> e ∈ view) -> is_Some (hier R !! x) ->
  x ∈ flat_map root_visits view.
Proof.
  intros Hview Hx. destruct (root_exists (S (size (hier R))) ∅ x) as (r & h & Hr & Hh & Hp); [set_solver|set_solver|done|lia|].
  apply list_elem_of_In, in_flat_map. exists r. split; [apply list_elem_of_In, Hview; by eexists|]. apply list_elem_of_In.
  unfold root_visits. rewrite Hh, decide_True by done.
  apply rtc_tc in Hr as [->|Hr]; [set_solver|]. apply elem_of_cons. right. apply descendant_preorder; [by apply height_bound|done].
Qed.

Lemma visits_other L : forall T x, x ∉ L -> world_of (visits L T) x = world_of T x.
Proof.
  induction L as [|e L IH]; intros T x Hx; [done|]. cbn. fold (visits L (visit G R e T)).
  rewrite IH by set_solver. apply visit_other. set_solver.
Qed.

Lemma parents_first_hier L : forall V x, parents_first V L -> x ∈ L -> is_Some (hier R !! x).
Proof. induction L as [|e L IH]; intros V x Hp Hx; [set_solver|]. destruct Hp as (? & _ & ?). apply elem_of_cons in Hx as [->|?]; eauto. Qed.

(** The first loop of [update]. *)
Definition flat_pass (flat : list entity) (T : pool) : pool :=
  fold_left (fun T e => alter (setWorldMatrix G (mat1 G)) e T) flat T.

Lemma flat_pass_spec flat : forall T,
  (forall x, local_of (flat_pass flat T) x = local_of T x)
  /\ forall x, x ∈ flat \/ world_of T x = mat_mul G (mat1 G) <$> local_of T x ->
      world_of (flat_pass flat T) x = mat_mul G (mat1 G) <$> local_of T x.
Proof.
  induction flat as [|e flat IH]; intros T; [split; [done|]; intros x [?|?]; [set_solver|done]|]. cbn.
  set (T1 := alter _ e T). destruct (IH T1) as [H1 H2].
  assert (forall x, local_of T1 x = local_of T x) as HL.
  { intros x. unfold local_of, T1. destruct (decide (e = x)) as [<-|]; [|by rewrite lookup_alter_ne].
    rewrite lookup_alter_eq. destruct (T !! e); cbn [fmap option_fmap option_map]; [|done]. f_equal. apply setWorldMatrix_spec. }
  split; [intros x; by rewrite <- HL|]. intros x Hx. rewrite <- HL. apply H2. rewrite HL.
  destruct (decide (e = x)) as [<-|Hex].
  - right. unfold world_of, local_of, T1. rewrite lookup_alter_eq.
    destruct (T !! e); cbn [fmap option_fmap option_map]; [|done]. by rewrite (proj2 (setWorldMatrix_spec _ _)).
  - unfold world_of at 1, T1. rewrite lookup_alter_ne by done. set_solver.
Qed.

Lemma flat_pass_dom flat T x : is_Some (flat_pass flat T !! x) <-> is_Some (T !! x).
Proof.
  destruct (flat_pass_spec flat T) as [H1 _]. specialize (H1 x). unfold local_of in H1.
  destruct (flat_pass flat T !! x), (T !! x); cbn in H1; try done; split; intros; by eexists.
Qed.

Lemma update_settles flat view T :
  (forall e, is_Some (hier R !! e) -> is_Some (T !! e)) ->
  (forall e, e ∈ flat <-> is_Some (T !! e) /\ hier R !! e = None) ->
  (forall e, e ∈ view <-> is_Some (T !! e) /\ is_Some (hier R !! e)) ->
  exists T', update G R flat view T = Ret T' /\ (forall e, local_of T' e = local_of T e)
    /\ forall e, is_Some (T !! e) -> settled T' e.
Proof.
  intros Htot Hflat Hview. unfold update. fold (flat_pass flat T). rewrite update_roots_visits.
  destruct (flat_pass_spec flat T) as [Hloc Hwld]. set (L := flat_map root_visits view).
  eexists. split; [reflexivity|]. split; [intros e; by rewrite visits_local, Hloc|]. intros e He.
  pose proof (roots_parents_first view []) as Hpf. fold L in Hpf.
  destruct (hier R !! e) as [h|] eqn:Hh.
  - apply (visits_settled L [] (flat_pass flat T)).
    + intros x p Hx. set_solver.
    + set_solver.
    + done.
    + intros x Hx. by apply flat_pass_dom, Htot.
    + right. apply roots_cover; [|by eexists]. intros x Hx. apply Hview. auto.
  - assert (e ∉ L) as HeL by (intros HeL; destruct (parents_first_hier L [] e Hpf HeL); congruence).
    assert (e ∈ flat) as Hef by (by apply Hflat). specialize (Hwld e (or_introl Hef)).
    destruct He as [t Ht]. exists (mat1 G), (local G t). unfold base_of. rewrite Hh. split; [done|].
    assert (local_of T e = Some (local G t)) as Hl by (unfold local_of; by rewrite Ht).
    split; [by rewrite visits_local, Hloc|]. rewrite visits_other by done. by rewrite Hwld, Hl.
Qed.

End Graph.

(** *** Theorems *)

(** C16. One [SceneGraph::update] over a represented tree whose entities all have a
    transform terminates, keeps every local matrix, and leaves every entity with
    its world matrix equal to its parent's world matrix (the identity without a
    parent) times its local matrix, whatever the order in which the registry
    enumerates the entities. *)
Theorem update_propagates G R kids flat view T : Rep R kids ->
  (forall e, is_Some (hier R !! e) -> is_Some (T !! e)) ->
  (forall e, e ∈ flat <-> is_Some (T !! e) /\ hier R !! e = None) ->
  (forall e, e ∈ view <-> is_Some (T !! e) /\ is_Some (hier R !! e)) ->
  exists T', update G R flat view T = Ret T' /\ (forall e, local_of G T' e = local_of G T e)
    /\ forall e, is_Some (T !! e) -> settled G R T' e.
Proof. intros HR. by apply (update_settles G R kids HR). Qed.

(** Transforms on a line: positions add up. *)
Definition line : glm := mkGlm Z Z 0%Z Z.add (fun p o s => p) (fun m => (1, 0, m)%Z) 0%Z 1%Z.

Definition demo_pool : gmap entity (Transform line) :=
  {[ 1%N := make_position line 5%Z; 2%N := make_position line 7%Z; 3%N := make line; 9%N := make_position line 4%Z ]}.

Lemma demo_hier_dom e : is_Some (hier demo !! e) -> e ∈ [1; 2; 3]%N.
Proof.
  intros [h Hh]. apply (rep_alive _ _ demo_Rep) in Hh. apply (elem_of_elements (C := gset entity)) in Hh.
  vm_compute in Hh. set_solver.
Qed.

Lemma demo_pool_dom e : is_Some (demo_pool !! e) <-> e ∈ [1; 2; 3; 9]%N.
Proof.
  rewrite <- elem_of_dom. unfold demo_pool. rewrite !dom_insert_L, dom_singleton_L. set_solver.
Qed.

Lemma update_propagates_witness : exists T', update line demo [9%N] [3%N; 2%N; 1%N] demo_pool = Ret T'
  /\ (forall e, local_of line T' e = local_of line demo_pool e)
  /\ forall e, is_Some (demo_pool !! e) -> settled line demo T' e.
Proof.
  apply (update_propagates line demo demo_kids); [apply demo_Rep| | |].
  - intros e He%demo_hier_dom. apply demo_pool_dom. set_solver.
  - intros e. rewrite demo_pool_dom. split.
    + intros ->%list_elem_of_singleton. split; [set_solver|by vm_compute].
    + intros [He Hn]. repeat (apply elem_of_cons in He as [->|He]; [first [set_solver|by vm_compute in Hn]|]). set_solver.
  - intros e. rewrite demo_pool_dom. split.
    + intros He. split; [set_solver|].
      repeat (apply elem_of_cons in He as [->|He]; [eexists; by vm_compute|]). set_solver.
    + intros [_ He%demo_hier_dom]. set_solver.
Defined.

Example demo_update :
  (fun T => (world_of line T 1%N, world_of line T 2%N, world_of line T 9%N)) <$> update line demo [9%N] [3%N; 2%N; 1%N] demo_pool
  = Ret (Some 5, Some 12, Some 4)%Z.
Proof. by vm_compute. Qed.

End Propagation.
