(* ===== verification/Scene.v ===== *)
(** * Scene: scenes, entity names, scene switching and sprite animation

    Models [Scene/Entity/EntityManager.*], [Scene/Scene.*], [Scene/SceneManager.*],
    [Scene/System/SystemManager.*] and the animation of [Scene/Component/Sprite.*]. *)

From S2P Require Import Prelude Strings Float32 Hierarchy.
From stdpp Require Import base decidable list sets gmap strings pretty.
From Stdlib Require Import ZArith Lia.
Import Registry.

(** ** Entities by name (EntityManager.cpp) *)
Module EntityManager.
Import Entity.

Section Manager.
(** [registry.create()] and the order in which a view of [NameComponent]
    enumerates the entities. *)
Context (new_handle : gset entity -> entity) (view_names : gmap entity cstring -> list entity).

Definition create (R : Registry) : Registry * Entity :=
  let e := new_handle (alive R) in
  (mkRegistry ({[e]} ∪ alive R) (hier R) (names R) (actives R), mkEntity (Some e) true).

Definition create_named (name : cstring) (R : Registry) : Registry * Entity :=
  let e := new_handle (alive R) in
  (mkRegistry ({[e]} ∪ alive R) (hier R) (<[e := name]> (names R)) (actives R), mkEntity (Some e) true).

(** The first entity of the view that has the name. *)
Fixpoint find_name (name : cstring) (view : list entity) (R : Registry) : outcome Entity :=
  match view with
  | [] => Ret null
  | e :: view =>
      n ← deref (names R !! e);
      if decide (n = name) then Ret (mkEntity (Some e) true) else find_name name view R
  end.

Definition getEntityByName (name : cstring) (R : Registry) : outcome Entity :=
  find_name name (view_names (names R)) R.

(** Every handle in [order] is destroyed; [registry.clear] does the same again. *)
Fixpoint clear_loop (order : list entity) (R : Registry) : outcome Registry :=
  match order with
  | [] => Ret R
  | e :: order => R ← destroy_handle e R; clear_loop order R
  end.

Definition clear (order : Registry -> list entity) (R : Registry) : outcome Registry :=
  R ← clear_loop (order R) R; clear_loop (order R) R.

End Manager.
End EntityManager.

(** ** The components of entities (Component.h, Transform.h, Camera.h, Light.h, MeshRenderer.h)

    A component is what its [save] and [load] exchange with an archive; what it
    keeps besides (matrices, flags, textures) is made again by [load].  The entity
    every component repeats in its [entity] field is left out.  [entt] keeps the
    components of one type in a pool, in the order in which they came. *)
Module Components.

Inductive Kind :=
  | TRANSFORM | NAME | ACTIVE | HIERARCHY | CAMERA | LIGHT | CONTROLLER | MODEL | MESH_RENDERER | ENVIRONMENT
  | SPRITE | ANIMATED_SPRITE | LUA | MONO.
#[export] Instance Kind_eq_dec : EqDecision Kind.
Proof. solve_decision. Defined.
Definition all_kinds : list Kind :=
  [TRANSFORM; NAME; ACTIVE; HIERARCHY; CAMERA; LIGHT; CONTROLLER; MODEL; MESH_RENDERER; ENVIRONMENT; SPRITE; ANIMATED_SPRITE; LUA; MONO].
Definition kind_code (k : Kind) : nat := match list_find (fun k' => k' = k) all_kinds with Some (i, _) => i | None => 0 end.
#[export] Instance Kind_countable : Countable Kind.
Proof. refine (inj_countable' kind_code (fun i => default TRANSFORM (all_kinds !! i)) _). by intros []. Defined.

Abbreviation vec := (list f32).
Inductive Component :=
  | CTransform (localPosition localOrientation localScale : vec)
  | CName (name : cstring)
  | CActive (active : bool)
  | CHierarchy (h : Hierarchy)
  | CCamera (scale aspectRatio fov near far : f32)
  | CLight (color position direction : vec) (radius intensity type angle : f32)
  | CController (type : Z)
  | CModel (filePath : cstring) (type : Z)
  (* the mesh with its name and material, and what [load] has read *)
  | CMeshRenderer (mesh : option (cstring * N)) (meshName : cstring) (material : option N)
  | CEnvironment (filePath : cstring)
  | CSprite | CAnimatedSprite | CLua | CMono.

Definition kind_of (c : Component) : Kind :=
  match c with
  | CTransform _ _ _ => TRANSFORM | CName _ => NAME | CActive _ => ACTIVE | CHierarchy _ => HIERARCHY
  | CCamera _ _ _ _ _ => CAMERA | CLight _ _ _ _ _ _ _ => LIGHT | CController _ => CONTROLLER | CModel _ _ => MODEL
  | CMeshRenderer _ _ _ => MESH_RENDERER | CEnvironment _ => ENVIRONMENT
  | CSprite => SPRITE | CAnimatedSprite => ANIMATED_SPRITE | CLua => LUA | CMono => MONO
  end.

(** [Transform()]. *)
Definition transform0 : Component :=
  CTransform [F32.zero; F32.zero; F32.zero] [F32.zero; F32.zero; F32.zero] [F32.one; F32.one; F32.one].

(** The pools, but for names, flags and links, which the registry of [Hierarchy] has. *)
Abbreviation Pools := (gmap Kind (list (entity * Component))).
Definition pool (k : Kind) (P : Pools) : list (entity * Component) := default [] (P !! k).
(** What is left when only the entities of [A] are. *)
Definition restrict (A : gset entity) (P : Pools) : Pools := (fun l => filter (fun x => x.1 ∈ A) l) <$> P.

(** The dependencies a scene declares: these components need a transform. *)
Definition depends (k : Kind) : bool :=
  match k with CAMERA | LIGHT | MESH_RENDERER | MODEL | SPRITE | ANIMATED_SPRITE => true | _ => false end.

Lemma pool_insert k l P k' : pool k' (<[k := l]> P) = if decide (k = k') then l else pool k' P.
Proof. unfold pool. rewrite lookup_insert. by case_decide. Qed.
Lemma pool_restrict k A P : pool k (restrict A P) = filter (fun x => x.1 ∈ A) (pool k P).
Proof. unfold pool, restrict. rewrite lookup_fmap. by destruct (P !! k). Qed.
Lemma pool_restrict_empty k P : pool k (restrict ∅ P) = [].
Proof.
  rewrite pool_restrict. induction (pool k P) as [|x l IH]; [done|]. rewrite filter_cons_False; [done|]. by intros ?%elem_of_empty.
Qed.
End Components.

(** ** Scenes (Scene.cpp) *)
Module Scene.
Import Entity EntityManager Components.

(** [serialized] and [loaded] are the histories of files written and read;
    [connected] tells whether [Hierarchy::onConstruct] is called. *)
Record Scene := mkScene {
  registry : Registry;
  pools : Pools;
  connected : bool;
  scene_name : cstring;
  filePath : cstring;
  dirty : bool;
  gameView : bool;
  overrideCamera : option entity;
  serialized : list cstring;
  loaded : list cstring
}.

Definition make (name : cstring) : Scene := mkScene Registry.empty ∅ true name [] false false None [] [].

(** The registry, and the same when entities may be gone: their components are too. *)
Definition set_registry (R : Registry) (s : Scene) : Scene :=
  mkScene R (pools s) (connected s) (scene_name s) (filePath s) (dirty s) (gameView s) (overrideCamera s) (serialized s) (loaded s).
Definition set_pools (P : Pools) (s : Scene) : Scene :=
  mkScene (registry s) P (connected s) (scene_name s) (filePath s) (dirty s) (gameView s) (overrideCamera s) (serialized s) (loaded s).
Definition with_registry (R : Registry) (s : Scene) : Scene :=
  mkScene R (restrict (alive R) (pools s)) (connected s) (scene_name s) (filePath s) (dirty s) (gameView s) (overrideCamera s) (serialized s) (loaded s).

Definition set_name (n : cstring) (s : Scene) : Scene :=
  mkScene (registry s) (pools s) (connected s) n (filePath s) (dirty s) (gameView s) (overrideCamera s) (serialized s) (loaded s).
Definition set_dirty (s : Scene) : Scene :=
  mkScene (registry s) (pools s) (connected s) (scene_name s) (filePath s) true (gameView s) (overrideCamera s) (serialized s) (loaded s).

Definition setPath (p : cstring) (s : Scene) : Scene :=
  mkScene (registry s) (pools s) (connected s) (scene_name s) p (dirty s) (gameView s) (overrideCamera s) (serialized s) (loaded s).

(** [view<Camera>]. *)
Definition cameras (s : Scene) : list entity := fst <$> pool CAMERA (pools s).

(** [SceneGraph::disconnectOnConstruct]. *)
Definition disconnectOnConstruct (disable : bool) (s : Scene) : Scene :=
  mkScene (registry s) (pools s) (negb disable) (scene_name s) (filePath s) (dirty s) (gameView s) (overrideCamera s) (serialized s) (loaded s).

(** *** Adding a component to an entity *)
Definition contains (k : Kind) (e : entity) (s : Scene) : bool :=
  match k with
  | NAME => bool_decide (is_Some (names (registry s) !! e))
  | ACTIVE => bool_decide (is_Some (actives (registry s) !! e))
  | HIERARCHY => bool_decide (is_Some (hier (registry s) !! e))
  | _ => bool_decide (e ∈ fst <$> pool k (pools s))
  end.
Definition put (e : entity) (c : Component) (s : Scene) : Scene :=
  let R := registry s in
  match c with
  | CName n => set_registry (mkRegistry (alive R) (hier R) (<[e := n]> (names R)) (actives R)) s
  | CActive b => set_registry (mkRegistry (alive R) (hier R) (names R) (<[e := b]> (actives R))) s
  | CHierarchy h => set_registry (mkRegistry (alive R) (<[e := h]> (hier R)) (names R) (actives R)) s
  | _ => set_pools (<[kind_of c := pool (kind_of c) (pools s) ++ [(e, c)]]> (pools s)) s
  end.

(** [registry.emplace<T>] with what is called on construction: [entt] asserts that
    the entity is valid and has no such component; links are made for a
    [Hierarchy] while that is connected, and a transform is added where one is
    needed. *)
Definition emplace (e : entity) (c : Component) (s : Scene) : outcome Scene :=
  if negb (bool_decide (e ∈ alive (registry s))) || contains (kind_of c) e s then Exn LogicError
  else
    let s := put e c s in
    match kind_of c with
    | HIERARCHY => if connected s then R ← Hierarchy.onConstruct e (registry s); Ret (set_registry R s) else Ret s
    | k => Ret (if depends k && negb (contains TRANSFORM e s) then put e transform0 s else s)
    end.

Definition saveTo (win32 : bool) (path : cstring) (s : Scene) : Scene :=
  if dirty s then
    let fp := if bool_decide (path ≠ []) && bool_decide (path ≠ filePath s)
              then path ++ StringUtils.delimiter win32 ++ scene_name s ++ str ".scene"%string else filePath s in
    let fp := if bool_decide (fp = []) then scene_name s ++ str ".scene"%string else fp in
    mkScene (registry s) (pools s) (connected s) (scene_name s) fp false (gameView s) (overrideCamera s) (serialized s ++ [fp]) (loaded s)
  else s.

Section Scene.
Context (new_handle : gset entity -> entity) (view_names : gmap entity cstring -> list entity).

(** [load] is [Serialization::loadScene], which reads a file into the scene. *)
Definition loadFrom (load : cstring -> Scene -> outcome Scene) (order : Registry -> list entity) (s : Scene) : outcome Scene :=
  if bool_decide (filePath s = []) then Ret s
  else
    R ← EntityManager.clear order (registry s);
    let s := disconnectOnConstruct true (with_registry R s) in
    s ← load (filePath s) s;
    let s := disconnectOnConstruct false s in
    Ret (mkScene (registry s) (pools s) (connected s) (scene_name s) (filePath s) (dirty s) (gameView s) (overrideCamera s)
           (serialized s) (loaded s ++ [filePath s])).

Definition createEntity (s : Scene) : Scene * Entity :=
  let '(R, e) := EntityManager.create new_handle (registry s) in (with_registry R (set_dirty s), e).

(** The names tried: the name itself, then "name(1)", "name(2)" and so on. *)
Definition candidate (name : cstring) (i : N) : cstring :=
  if decide (i = 0%N) then name else name ++ str "("%string ++ str (pretty i) ++ str ")"%string.

Fixpoint unique_loop (fuel : nat) (R : Registry) (name : cstring) (i : N) : outcome N :=
  match fuel with
  | O => Exn OutOfFuel
  | S fuel =>
      e ← getEntityByName view_names (candidate name i) R;
      if valid e R then unique_loop fuel R name (i + 1) else Ret i
  end.

Definition createEntity_named (name : cstring) (s : Scene) : outcome (Scene * Entity) :=
  let s := set_dirty s in
  i ← unique_loop (S (size (names (registry s)))) (registry s) name 0;
  let '(R, e) := EntityManager.create_named new_handle (candidate name i) (registry s) in
  Ret (with_registry R s, e).

(** [copyComponents] only logs that it is not implemented. *)
Definition copyComponents (from to_ : Entity) (R : Registry) : Registry := R.

Definition duplicateEntity (x : Entity) (s : Scene) : Scene :=
  let '(R, e) := EntityManager.create new_handle (registry s) in
  with_registry (copyComponents x e R) (set_dirty s).

Definition duplicateEntity_under (x par : Entity) (s : Scene) : outcome Scene :=
  let '(R, e) := EntityManager.create new_handle (registry s) in
  R ← (if scene par && bool_decide (entityHandle par ≠ None) then setParent e par R else Ret R);
  Ret (with_registry (copyComponents x e R) (set_dirty s)).

(** The first camera entity in the game view, the override otherwise. *)
Definition getCamera (s : Scene) : option entity :=
  match cameras s with
  | c :: _ => if gameView s then Some c else overrideCamera s
  | [] => overrideCamera s
  end.

End Scene.

(** *** Unique names *)

Definition taken (R : Registry) (name : cstring) : Prop := exists e, names R !! e = Some name.

Lemma str_inj s1 s2 : str s1 = str s2 -> s1 = s2.
Proof.
  unfold str. intros H. rewrite <- (String.string_of_list_ascii_of_string s1), H. apply String.string_of_list_ascii_of_string.
Qed.

Lemma candidate_inj name i j : candidate name i = candidate name j -> i = j.
Proof.
  unfold candidate. intros H. repeat case_decide; subst; [done| | |].
  - apply (f_equal length) in H. rewrite !length_app in H. cbn in H. lia.
  - apply (f_equal length) in H. rewrite !length_app in H. cbn in H. lia.
  - apply app_inv_head in H. cbn in H. injection H as H. apply app_inv_tail in H. by apply str_inj, (inj pretty) in H.
Qed.

(** Not all of the first [size + 1] candidates are taken. *)
Lemma candidate_free R name : ~ (forall j, (j < N.of_nat (S (size (names R))))%N -> taken R (candidate name j)).
Proof.
  intros Hall. set (n := size (names R)) in *.
  assert (forall k, k <= S n -> exists l : list entity, NoDup l /\ length l = k
    /\ forall e, e ∈ l -> exists j, (j < N.of_nat k)%N /\ names R !! e = Some (candidate name j)) as Hl.
  { induction k as [|k IH]; intros Hk; [exists []; split; [apply NoDup_nil_2|split; [done|set_solver]]|].
    destruct IH as (l & Hnd & Hlen & Hin); [lia|]. destruct (Hall (N.of_nat k)) as [e He]; [lia|].
    exists (e :: l). split; [apply NoDup_cons; split; [|done]|split; [cbn; lia|]].
    - intros Hel. destruct (Hin e Hel) as (j & Hj & He'). rewrite He in He'. injection He' as E. apply candidate_inj in E. lia.
    - intros x [->|Hx]%elem_of_cons; [exists (N.of_nat k); split; [lia|done]|].
      destruct (Hin x Hx) as (j & ? & ?). exists j. split; [lia|done]. }
  destruct (Hl (S n)) as (l & Hnd & Hlen & Hin); [lia|].
  assert (length l <= n) as Hle; [|lia].
  unfold n. rewrite <- size_dom, <- (size_list_to_set (C := gset entity)) by done. apply subseteq_size.
  intros e He%elem_of_list_to_set. destruct (Hin e He) as (j & _ & Hj). by apply elem_of_dom_2 in Hj.
Qed.

Section Names.
(** What [entt] promises: a view enumerates the entities that have the component. *)
Context (view_names : gmap entity cstring -> list entity).
Context (Hview : forall m e, e ∈ view_names m <-> is_Some (m !! e)).

Lemma find_name_spec name view R : (forall e, e ∈ view -> is_Some (names R !! e)) ->
  (exists e, find_name name view R = Ret (mkEntity (Some e) true) /\ names R !! e = Some name)
  \/ (find_name name view R = Ret null /\ forall e, e ∈ view -> names R !! e ≠ Some name).
Proof.
  induction view as [|e view IH]; intros Hv; [right; split; [done|set_solver]|]. cbn.
  destruct (Hv e) as [n Hn]; [set_solver|]. rewrite Hn. cbn. destruct (decide (n = name)) as [->|Hne].
  - left. eauto.
  - destruct IH as [IH|[IH1 IH2]]; [set_solver|by left|right]. split; [done|].
    intros x [->|Hx]%elem_of_cons; [congruence|by apply IH2].
Qed.

Lemma getEntityByName_spec name R : dom (names R) ⊆ alive R ->
  exists e, getEntityByName view_names name R = Ret e /\ (valid e R = true <-> taken R name).
Proof.
  intros Hal. unfold getEntityByName.
  destruct (find_name_spec name (view_names (names R)) R) as [(e & Hrun & Hn)|[Hrun Hno]].
  { intros e He. by apply Hview. }
  - exists (mkEntity (Some e) true). split; [done|]. cbn. rewrite bool_decide_eq_true. split; [by exists e|].
    intros _. apply Hal. by apply elem_of_dom_2 in Hn.
  - exists null. split; [done|]. split; [done|]. intros [e He]. destruct (Hno e); [apply Hview; by eexists|done].
Qed.

Lemma unique_loop_spec R name : dom (names R) ⊆ alive R -> forall n i,
  (exists k, unique_loop view_names n R name i = Ret k /\ ~ taken R (candidate name k)
     /\ forall j, (i <= j < k)%N -> taken R (candidate name j))
  \/ (forall j, (i <= j < i + N.of_nat n)%N -> taken R (candidate name j)).
Proof.
  intros Hal. induction n as [|n IH]; intros i; [right; lia|]. cbn [unique_loop].
  destruct (getEntityByName_spec (candidate name i) R Hal) as (e & -> & He). rewrite bind_Ret.
  destruct (valid e R) eqn:Hv.
  - destruct (IH (i + 1)%N) as [(k & Hrun & Hfree & Hbelow)|Hall].
    + left. exists k. split; [done|]. split; [done|]. intros j Hj. destruct (decide (j = i)) as [->|]; [by apply He|apply Hbelow; lia].
    + right. intros j Hj. destruct (decide (j = i)) as [->|]; [by apply He|apply Hall; lia].
  - left. exists i. split; [done|]. split; [|lia]. intros Ht. apply He in Ht. congruence.
Qed.

End Names.

(** [createEntity(name)] terminates and gives the new entity a name no entity
    had: the requested one when it is free, otherwise the first free one of
    "name(1)", "name(2)", ...; every other entity keeps its name, and the scene is
    marked dirty. *)
Theorem createEntity_unique (new_handle : gset entity -> entity) (view_names : gmap entity cstring -> list entity) name s :
  (forall A, new_handle A ∉ A) -> (forall m e, e ∈ view_names m <-> is_Some (m !! e)) ->
  dom (names (registry s)) ⊆ alive (registry s) ->
  exists s' e i, createEntity_named new_handle view_names name s = Ret (s', mkEntity (Some e) true)
    /\ e ∉ alive (registry s) /\ dirty s' = true
    /\ names (registry s') = <[e := candidate name i]> (names (registry s))
    /\ ~ taken (registry s) (candidate name i)
    /\ forall j, (j < i)%N -> taken (registry s) (candidate name j).
Proof.
  intros Hf Hv Hal. unfold createEntity_named. cbn [registry set_dirty].
  destruct (unique_loop_spec view_names Hv (registry s) name Hal (S (size (names (registry s)))) 0) as [(k & -> & Hfree & Hb)|Hall].
  - rewrite bind_Ret. eexists _, _, k. split; [reflexivity|]. split; [apply Hf|]. split; [done|]. split; [done|].
    split; [done|]. intros j Hj. apply Hb. lia.
  - destruct (candidate_free (registry s) name). intros j Hj. apply Hall. lia.
Qed.

Definition demo_scene : Scene :=
  with_registry (mkRegistry {[1%N; 2%N]} ∅ {[1%N := str "cube"%string; 2%N := str "cube(1)"%string]} ∅) (make (str "s"%string)).

Lemma createEntity_unique_witness :
  exists s' e i, createEntity_named fresh (fun m => (map_to_list m).*1) (str "cube"%string) demo_scene = Ret (s', mkEntity (Some e) true)
    /\ e ∉ alive (registry demo_scene) /\ dirty s' = true
    /\ names (registry s') = <[e := candidate (str "cube"%string) i]> (names (registry demo_scene))
    /\ ~ taken (registry demo_scene) (candidate (str "cube"%string) i)
    /\ forall j, (j < i)%N -> taken (registry demo_scene) (candidate (str "cube"%string) j).
Proof.
  apply createEntity_unique.
  - intros A. apply is_fresh.
  - intros m e. rewrite list_elem_of_fmap. split.
    + intros ([x n] & -> & H%elem_of_map_to_list). by eexists.
    + intros [n H]. exists (e, n). split; [done|]. by apply elem_of_map_to_list.
  - apply (bool_decide_unpack _). by vm_compute.
Defined.

Example demo_name :
  (fun '(s, e) => entityHandle e ≫= fun h => names (registry s) !! h) <$> createEntity_named fresh (fun m => (map_to_list m).*1) (str "cube"%string) demo_scene
  = Ret (Some (str "cube(2)"%string)).
Proof. by vm_compute. Qed.

End Scene.

(** ** Switching scenes (SceneManager.cpp)

    Scenes are heap objects: [allScenes] owns one per name, [currentScene] is a
    raw pointer.  Assigning to an existing name frees the scene it owned. *)
Module SceneManager.
Import Scene.

Record SceneManager := mkManager {
  heap : gmap N Scene;               (* the scenes that exist, by address *)
  allScenes : gmap cstring (option N);  (* shared_ptr, possibly null *)
  currentScene : option N;
  switchingScenes : bool;
  currentName : cstring
}.

Definition manager0 : SceneManager := mkManager ∅ ∅ None false [].

Definition switchScene (name : cstring) (m : SceneManager) : SceneManager :=
  match allScenes m !! name with
  | Some _ => mkManager (heap m) (allScenes m) (currentScene m) true name
  | None => mkManager (heap m) (allScenes m) (currentScene m) false (currentName m)
  end.

Definition getSceneByName (name : cstring) (m : SceneManager) : option N :=
  match allScenes m !! name with Some p => p | None => None end.

Section Manager.
(** Handles, addresses, views, and the reader of scene files. *)
Context (new_handle : gset entity -> entity) (view_names : gmap entity cstring -> list entity).
Context (new_address : gset N -> N).
Context (load : cstring -> Scene -> outcome Scene) (order : Registry -> list entity).

(** The camera [addScene] makes. *)
Definition main_camera : Components.Component :=
  Components.CCamera (F32.of_Z 100) (F32.lit 4 3) (F32.of_Z 45) (F32.lit 1 100) (F32.of_Z 100).

(** [addScene]: the scene gets a main camera when it has none. *)
Definition addScene (name : cstring) (sc : Scene) (m : SceneManager) : outcome SceneManager :=
  let a := new_address (dom (heap m)) in
  let h := match allScenes m !! name with Some (Some old) => delete old (heap m) | _ => heap m end in
  sc ← (match cameras sc with
        | [] => '(sc, e) ← createEntity_named new_handle view_names (str "Main Camera"%string) sc;
                e ← deref (Entity.entityHandle e);
                Scene.emplace e main_camera sc
        | _ :: _ => Ret sc
        end);
  Ret (mkManager (<[a := sc]> h) (<[name := Some a]> (allScenes m)) (currentScene m) (switchingScenes m) (currentName m)).

Definition addSceneFromFile (win32 : bool) (path : cstring) (m : SceneManager) : outcome SceneManager :=
  let name := StringUtils.removeExtension (StringUtils.getFileName win32 path) in
  addScene path (setPath path (make name)) m.

(** [allScenes[currentName].get()]: a missing name is inserted with null. *)
Definition load_current (m : SceneManager) : outcome SceneManager :=
  match allScenes m !! currentName m with
  | Some (Some a) =>
      sc ← deref (heap m !! a);
      sc ← loadFrom load order sc;
      Ret (mkManager (<[a := sc]> (heap m)) (allScenes m) (Some a) false (currentName m))
  | Some None | None => Exn NullDeref
  end.

(** The calls to [onClean], [onInit] and [onSceneCreated] do not touch the
    manager; [onClean] goes through [currentScene]. *)
Definition apply (m : SceneManager) : outcome SceneManager :=
  if negb (switchingScenes m) && bool_decide (currentScene m ≠ None) then Ret m
  else
    m ← (if negb (switchingScenes m) && bool_decide (allScenes m = ∅) then
           addScene (str "default"%string) (make (str "default"%string))
             (mkManager (heap m) (allScenes m) (currentScene m) (switchingScenes m) (str "default"%string))
         else Ret m);
    _ ← (match currentScene m with Some a => sc ← deref (heap m !! a); Ret tt | None => Ret tt end);
    load_current m.

End Manager.

(** Every scene that is owned exists, and each has one owner. *)
Record Owned (m : SceneManager) : Prop := mkOwned {
  own_heap : forall name p, allScenes m !! name = Some p -> exists a, p = Some a /\ is_Some (heap m !! a);
  own_once : forall n1 n2 p, allScenes m !! n1 = Some p -> allScenes m !! n2 = Some p -> n1 = n2
}.

(** Every component belongs to a live entity. *)
Record Bounded (R : Registry) : Prop := mkBounded {
  bounded_hier : dom (hier R) ⊆ alive R;
  bounded_names : dom (names R) ⊆ alive R;
  bounded_actives : dom (actives R) ⊆ alive R
}.

Lemma destroy_handle_frame e R : e ∈ alive R -> exists R', Entity.destroy_handle e R = Ret R'
  /\ alive R' = alive R ∖ {[e]} /\ (Bounded R -> Bounded R').
Proof.
  intros He. unfold Entity.destroy_handle. rewrite bool_decide_eq_true_2 by done.
  assert (exists R1, match hier R !! e with Some _ => Hierarchy.onDestroy e R | None => Ret R end = Ret R1
    /\ alive R1 = alive R /\ dom (hier R1) = dom (hier R) /\ names R1 = names R /\ actives R1 = actives R) as (R1 & -> & Ha & Hh & Hn & Hc).
  { destruct (hier R !! e) as [h|] eqn:Hh; [|by eexists]. unfold Hierarchy.onDestroy, Registry.get. rewrite Hh. cbn.
    eexists; split; [reflexivity|]. repeat case_match; rewrite ?upd_alive, ?upd_dom, ?upd_names, ?upd_actives; done. }
  cbn. eexists. split; [reflexivity|]. cbn. rewrite Ha. split; [done|].
  intros [B1 B2 B3]. split; cbn; rewrite dom_delete_L, ?Ha, ?Hh, ?Hn, ?Hc; set_solver.
Qed.

Lemma clear_loop_total order : forall R, NoDup order -> (forall e, e ∈ order -> e ∈ alive R) ->
  exists R', EntityManager.clear_loop order R = Ret R' /\ alive R' = alive R ∖ list_to_set order /\ (Bounded R -> Bounded R').
Proof.
  induction order as [|e order IH]; intros R Hnd Hal; [exists R; split_and!; [done|cbn; set_solver|done]|].
  apply NoDup_cons in Hnd as [He Hnd]. cbn [EntityManager.clear_loop].
  destruct (destroy_handle_frame e R) as (R1 & -> & Ha & HB); [apply Hal; set_solver|]. rewrite bind_Ret.
  destruct (IH R1) as (R2 & -> & Ha2 & HB2); [done|rewrite Ha; set_solver|].
  exists R2. split_and!; [done|rewrite Ha2, Ha; cbn; set_solver|auto].
Qed.

(** What [entt] promises of [each]: every live entity once. *)
Definition enumerates (order : Registry -> list entity) : Prop := forall R, NoDup (order R) /\ forall e, e ∈ order R <-> e ∈ alive R.

(** Clearing never fails, and leaves nothing. *)
Lemma clear_total order R : enumerates order -> exists R', EntityManager.clear order R = Ret R' /\ alive R' = ∅ /\ (Bounded R -> R' = Registry.empty).
Proof.
  intros Ho. unfold EntityManager.clear. destruct (Ho R) as [Hnd Hin].
  destruct (clear_loop_total (order R) R) as (R1 & -> & Ha & HB); [done|intros e; by apply Hin|]. rewrite bind_Ret.
  assert (alive R1 = ∅) as Ha1 by (rewrite Ha; apply set_eq; intros e; specialize (Hin e); set_solver).
  assert (order R1 = []) as ->.
  { destruct (order R1) as [|e l] eqn:E; [done|]. destruct (Ho R1) as [_ Hi]. exfalso. assert (e ∈ alive R1) by (apply Hi; rewrite E; by left). set_solver. }
  cbn. exists R1. split_and!; [done|done|]. intros [H1 H2 H3]%HB. rewrite Ha1 in *. destruct R1 as [A h n c]. cbn in *. unfold Registry.empty.
  f_equal; [done|apply dom_empty_inv_L; set_solver..].
Qed.

Lemma switch_Owned name m : Owned m -> Owned (switchScene name m).
Proof. intros [H1 H2]. unfold switchScene. destruct (allScenes m !! name); by split. Qed.

Lemma load_current_spec load order m : Owned m -> is_Some (allScenes m !! currentName m) ->
  (forall p s, exists s', load p s = Ret s') -> enumerates order ->
  exists m' a, load_current load order m = Ret m' /\ getSceneByName (currentName m) m' = Some a
    /\ currentScene m' = Some a /\ is_Some (heap m' !! a) /\ switchingScenes m' = false /\ Owned m'.
Proof.
  intros [H1 H2] [p Hp] Hload Hord. destruct (H1 _ _ Hp) as (a & -> & [sc Hsc]). unfold load_current. rewrite Hp, Hsc. cbn [deref].
  rewrite bind_Ret.
  assert (exists sc', loadFrom load order sc = Ret sc') as [sc' ->].
  { unfold loadFrom. case_bool_decide; [by eexists|]. destruct (clear_total order (registry sc) Hord) as (R' & -> & _).
    rewrite bind_Ret. set (s1 := disconnectOnConstruct true _). destruct (Hload (filePath s1) s1) as [s2 ->]. rewrite bind_Ret. by eexists. }
  rewrite bind_Ret. eexists _, a. split; [reflexivity|]. unfold getSceneByName. cbn. rewrite Hp, lookup_insert_eq.
  split; [done|]. split; [done|]. split; [by eexists|]. split; [done|]. split; [|done].
  intros n q Hq. destruct (H1 n q Hq) as (b & -> & Hb). exists b. split; [done|]. cbn.
  destruct (decide (a = b)) as [->|]; [rewrite lookup_insert_eq; by eexists|by rewrite lookup_insert_ne].
Qed.

(** [switchScene] to a known scene followed by [apply] makes that scene the
    current one, and [apply] then does nothing until the next switch; an unknown
    name leaves the current scene in place. *)
Theorem switch_then_apply new_handle view_names new_address load order name m :
  Owned m -> (forall a, currentScene m = Some a -> is_Some (heap m !! a)) ->
  (forall p s, exists s', load p s = Ret s') -> enumerates order ->
  match allScenes m !! name with
  | Some _ => exists m' a, apply new_handle view_names new_address load order (switchScene name m) = Ret m'
      /\ getSceneByName name m' = Some a /\ currentScene m' = Some a /\ is_Some (heap m' !! a) /\ Owned m'
      /\ apply new_handle view_names new_address load order m' = Ret m'
  | None => currentScene m ≠ None -> apply new_handle view_names new_address load order (switchScene name m) = Ret (switchScene name m)
  end.
Proof.
  intros HO Hcur Hload Hord. destruct (allScenes m !! name) as [p|] eqn:Hp.
  - assert (switchScene name m = mkManager (heap m) (allScenes m) (currentScene m) true name) as Hsw by (unfold switchScene; by rewrite Hp).
    destruct (load_current_spec load order (switchScene name m)) as (m' & a & Hrun & Hg & Hc & Hh & Hs & HO'); [by apply switch_Owned|rewrite Hsw; by eexists|done|done|].
    rewrite Hsw in Hg. exists m', a. split; [|split; [done|split; [done|split; [done|split; [done|]]]]].
    + unfold apply. rewrite Hsw in *. cbn [switchingScenes negb andb]. rewrite bind_Ret. cbn [currentScene heap].
      destruct (currentScene m) as [c|] eqn:Ec; [|done]. destruct (Hcur c) as [sc Hsc]; [done|]. rewrite Hsc. done.
    + unfold apply. rewrite Hs, bool_decide_eq_true_2 by congruence. done.
  - intros Hne. unfold switchScene. rewrite Hp. unfold apply. cbn [switchingScenes currentScene negb].
    by rewrite bool_decide_eq_true_2.
Qed.

(** A concrete system for the examples. *)
Definition names_view (m : gmap entity cstring) : list entity := (map_to_list m).*1.
Definition no_file (p : cstring) (s : Scene) : outcome Scene := Ret (set_name p s).
Definition live_order (R : Registry) : list entity := elements (alive R).
Lemma live_order_enumerates : enumerates live_order.
Proof. intros R. unfold live_order. split; [apply NoDup_elements|]. intros e. by rewrite elem_of_elements. Qed.
Definition demo_apply : SceneManager -> outcome SceneManager := apply fresh names_view fresh no_file live_order.
Definition demo_add (n : String.string) (m : SceneManager) : outcome SceneManager :=
  addScene fresh names_view fresh (str n) (make (str n)) m.
Definition manager_or_empty (r : outcome SceneManager) : SceneManager := match r with Ret m => m | Exn _ => manager0 end.
Definition demo_manager : SceneManager := manager_or_empty (m ← demo_add "a"%string manager0; demo_add "b"%string m).

Lemma demo_Owned : Owned demo_manager.
Proof.
  assert (allScenes demo_manager = {[str "a"%string := Some 0%N; str "b"%string := Some 1%N]}) as E by (by vm_compute).
  split; rewrite E.
  - intros n p [[<- <-]|[_ [<- <-]%lookup_singleton_Some]]%lookup_insert_Some; eexists; (split; [reflexivity|]);
      apply (bool_decide_unpack _); by vm_compute.
  - intros n1 n2 p [[<- <-]|[_ [<- <-]%lookup_singleton_Some]]%lookup_insert_Some
      [[<- ?]|[_ [<- ?]%lookup_singleton_Some]]%lookup_insert_Some; done.
Qed.

Lemma switch_then_apply_witness : exists m' a,
  apply fresh names_view fresh no_file live_order (switchScene (str "b"%string) demo_manager) = Ret m'
  /\ getSceneByName (str "b"%string) m' = Some a /\ currentScene m' = Some a /\ is_Some (heap m' !! a) /\ Owned m'
  /\ apply fresh names_view fresh no_file live_order m' = Ret m'.
Proof.
  apply (switch_then_apply fresh names_view fresh no_file live_order (str "b"%string) demo_manager).
  - apply demo_Owned.
  - intros a Ha. by vm_compute in Ha.
  - intros p s. by eexists.
  - apply live_order_enumerates.
Defined.

(** Adding scenes and applying without a switch dereferences null: the current
    name is still empty, and looking it up inserts a null scene.  Replacing the
    current scene under its name leaves [currentScene] dangling, which the next
    switch dereferences. *)
Theorem apply_null_scene :
  demo_apply demo_manager = Exn NullDeref
  /\ (m ← demo_apply (switchScene (str "a"%string) demo_manager); m ← demo_add "a"%string m;
      demo_apply (switchScene (str "b"%string) m)) = Exn NullDeref.
Proof. split; by vm_compute. Qed.

End SceneManager.

(** ** Systems (SystemManager)

    Systems are kept by the hash of their type.  [emplace] keeps the first system
    of a type; the assertion against a second one is a debug check. *)
Module SystemManager.

Definition SystemManager (S : Type) := gmap Z S.

Definition addSystem {S} (typeName : Z) (s : S) (m : SystemManager S) : SystemManager S * S :=
  match m !! typeName with Some old => (m, old) | None => (<[typeName := s]> m, s) end.
Definition removeSystem {S} (typeName : Z) (m : SystemManager S) : SystemManager S := delete typeName m.
Definition getSystem {S} (typeName : Z) (m : SystemManager S) : option S := m !! typeName.
Definition hasSystem {S} (typeName : Z) (m : SystemManager S) : bool := bool_decide (is_Some (m !! typeName)).

(** [onUpdate] and [onImGui] call every system, in the map's order. *)
Definition call_all {S W} (order : list Z) (f : S -> W -> W) (m : SystemManager S) (w : W) : W :=
  fold_left (fun w k => match m !! k with Some s => f s w | None => w end) order w.

End SystemManager.

(** ** Animated sprites (Sprite.cpp) *)
Module AnimatedSprite.
Local Open Scope Z_scope.

Record AnimationFrame := mkFrame { frame_width : Z; frame_height : Z; delay : f32; uniqueKey : cstring }.

Record AnimatedSprite := mkAnim {
  currentFrame : Z;       (* uint32_t *)
  frameTimer : f32;
  loop : bool;
  animationFrames : list AnimationFrame
}.

Definition size_ (a : AnimatedSprite) : Z := Z.of_nat (length (animationFrames a)).

(** [getCurrentFrame]: null when the index is out of range. *)
Definition getCurrentFrame (a : AnimatedSprite) : option AnimationFrame :=
  if currentFrame a <? size_ a then animationFrames a !! Z.to_nat (currentFrame a) else None.

Definition getDelay (a : AnimatedSprite) : f32 :=
  match getCurrentFrame a with Some f => delay f | None => F32.zero end.
Definition getWidth (a : AnimatedSprite) : Z := match getCurrentFrame a with Some f => frame_width f | None => 0 end.
Definition getHeight (a : AnimatedSprite) : Z := match getCurrentFrame a with Some f => frame_height f | None => 0 end.

Definition onUpdate (dt : f32) (a : AnimatedSprite) : AnimatedSprite :=
  let timer := F32.add (frameTimer a) dt in
  match getCurrentFrame a with
  | Some frame =>
      if F32.leb (delay frame) timer then
        let next := u32 (currentFrame a + 1) in
        let next := if size_ a <=? next then (if loop a then 0 else size_ a - 1) else next in
        mkAnim next F32.zero (loop a) (animationFrames a)
      else mkAnim (currentFrame a) timer (loop a) (animationFrames a)
  | None => mkAnim (currentFrame a) timer (loop a) (animationFrames a)
  end.

Fixpoint updates (n : nat) (dt : f32) (a : AnimatedSprite) : AnimatedSprite :=
  match n with O => a | S n => onUpdate dt (updates n dt a) end.

(** The frame shown after [n] ticks that each last long enough. *)
Definition shown (a : AnimatedSprite) (n : nat) : Z :=
  if loop a then Z.of_nat n mod size_ a else Z.min (Z.of_nat n) (size_ a - 1).

(** An animation whose frames last no longer than a tick shows its frames one
    after the other from the first: around and around when it loops, otherwise up
    to the last frame, where it stays.  The index never leaves the frames. *)
Theorem animation_plays frames lp dt n :
  frames ≠ [] -> Z.of_nat (length frames) < 4294967296 ->
  Forall (fun f => F32.leb (delay f) (F32.add F32.zero dt) = true) frames ->
  updates n dt (mkAnim 0 F32.zero lp frames) = mkAnim (shown (mkAnim 0 F32.zero lp frames) n) F32.zero lp frames.
Proof.
  intros Hne Hlen Hd. assert (0 < Z.of_nat (length frames)) as Hpos by (destruct frames; [done|cbn; lia]).
  induction n as [|n IH]; [unfold shown, size_; cbn -[Z.of_nat]; destruct lp; [by rewrite Zmod_0_l|f_equal; lia]|].
  cbn [updates]. rewrite IH. unfold onUpdate, getCurrentFrame, shown, size_. cbn [currentFrame animationFrames loop frameTimer].
  set (len := Z.of_nat (length frames)) in *. set (c := if lp then _ else _).
  assert (0 <= c < len) as Hc by (unfold c; destruct lp; [apply Z.mod_pos_bound; lia|lia]).
  destruct (Z.ltb_spec c len); [|lia].
  destruct (lookup_lt_is_Some_2 frames (Z.to_nat c)) as [f Hf]; [lia|]. rewrite Hf.
  rewrite (proj1 (Forall_forall _ _) Hd f) by (by apply list_elem_of_lookup_2 in Hf).
  f_equal. destruct (decide (c + 1 = 4294967296)) as [Hw|Hw]; [lia|]. rewrite u32_small by lia.
  destruct (Z.leb_spec len (c + 1)) as [Hl|Hl]; unfold c in *; destruct lp.
  - assert (Z.of_nat n mod len = len - 1) as Hm by lia.
    rewrite Nat2Z.inj_succ, <- Z.add_1_r, Zplus_mod, Hm.
    destruct (decide (len = 1)) as [->|]; [by rewrite !Zmod_1_r|]. rewrite (Z.mod_small 1) by lia.
    replace (len - 1 + 1) with len by lia. by rewrite Z_mod_same_full.
  - lia.
  - rewrite Nat2Z.inj_succ, <- Z.add_1_r, Zplus_mod. rewrite (Z.mod_small 1) by lia. symmetry. apply Z.mod_small. lia.
  - lia.
Qed.

Definition demo_frames : list AnimationFrame := replicate 3 (mkFrame 8 8 (F32.lit 1 10) []).

Lemma animation_plays_witness :
  updates 7 (F32.lit 1 5) (mkAnim 0 F32.zero true demo_frames) = mkAnim 1 F32.zero true demo_frames.
Proof.
  change 1 with (shown (mkAnim 0 F32.zero true demo_frames) 7).
  apply (animation_plays demo_frames true (F32.lit 1 5) 7); [done|done|]. repeat constructor.
Defined.

End AnimatedSprite.
