(* ===== verification/SceneFiles.v ===== *)
(** * SceneFiles: scenes saved to files and loaded again

    Models [Others/Serialization.cpp] with the [save] and [load] functions of the
    components, the snapshots of [entt] it drives, [Scene::saveTo] and
    [Scene::loadFrom] over the files of [FileSystem] and the scenes of [Scene].
    Only the text of the archive is a parameter: [cereal] prints a list of named
    values, and reads it again. *)

From S2P Require Import Prelude Strings Float32 FileSystem Hierarchy Scene.
From stdpp Require Import base decidable list sets gmap strings.
From Stdlib Require Import Ascii ZArith Lia.
Import Registry.

Module Serialization.
Import FileSystem Components.

(** ** Archives

    What goes into an archive, one after the other: values with a name, which is
    empty where the source gives none. *)
Inductive Scalar :=
  | SString (s : cstring) | SInt (z : Z) | SBool (b : bool) | SFloat (x : f32) | SVec (v : vec)
  | SEntity (e : option entity)
  | SMaterial (m : N).   (* what [Material::save] writes *)
Abbreviation Item := (cstring * Scalar)%type.

Definition as_string (x : Scalar) : option cstring := match x with SString s => Some s | _ => None end.
Definition as_int (x : Scalar) : option Z := match x with SInt z => Some z | _ => None end.
Definition as_bool (x : Scalar) : option bool := match x with SBool b => Some b | _ => None end.
Definition as_float (x : Scalar) : option f32 := match x with SFloat f => Some f | _ => None end.
Definition as_vec (x : Scalar) : option vec := match x with SVec v => Some v | _ => None end.
Definition as_entity (x : Scalar) : option (option entity) := match x with SEntity e => Some e | _ => None end.
Definition as_material (x : Scalar) : option N := match x with SMaterial m => Some m | _ => None end.

(** The next value; the archive throws when its name or type is another. *)
Definition read {A} (as_ : Scalar -> option A) (name : cstring) (l : list Item) : outcome (A * list Item) :=
  match l with
  | (n, x) :: l =>
      if bool_decide (n = name) then match as_ x with Some a => Ret (a, l) | None => Exn RuntimeError end else Exn RuntimeError
  | [] => Exn RuntimeError
  end.

(** ** The components *)

(** [save]; the mesh of a renderer is dereferenced. *)
Definition save_fields (c : Component) : outcome (list Item) :=
  match c with
  | CTransform p o s => Ret [(str "Position", SVec p); (str "Rotation", SVec o); (str "Scale", SVec s)]
  | CName n => Ret [(str "Name", SString n)]
  | CActive b => Ret [(str "Active", SBool b)]
  | CHierarchy h =>
      Ret [(str "First", SEntity (first h)); (str "Next", SEntity (next h)); (str "Previous", SEntity (prev h)); (str "Parent", SEntity (parent h))]
  | CCamera scale aspect fov near far =>
      Ret [(str "Scale", SFloat scale); (str "Aspect", SFloat aspect); (str "FOV", SFloat fov); (str "Near", SFloat near); (str "Far", SFloat far)]
  | CLight color position direction radius intensity type angle =>
      Ret [([], SVec color); ([], SVec position); ([], SVec direction); ([], SFloat radius); ([], SFloat intensity); ([], SFloat type); ([], SFloat angle)]
  | CController type => Ret [(str "ControllerType", SInt type)]
  | CModel filePath type => Ret [([], SString filePath); ([], SInt type)]
  | CMeshRenderer mesh _ _ => '(name, material) ← deref mesh; Ret [([], SString name); (str "material", SMaterial material)]
  | CEnvironment filePath => Ret [([], SString filePath)]
  | CSprite | CAnimatedSprite | CLua | CMono => Ret []
  end.

(** [load] into a component just made. *)
Definition load_fields (k : Kind) (l : list Item) : outcome (Component * list Item) :=
  match k with
  | TRANSFORM =>
      '(p, l) ← read as_vec (str "Position") l; '(o, l) ← read as_vec (str "Rotation") l; '(s, l) ← read as_vec (str "Scale") l;
      Ret (CTransform p o s, l)
  | NAME => '(n, l) ← read as_string (str "Name") l; Ret (CName n, l)
  | ACTIVE => '(b, l) ← read as_bool (str "Active") l; Ret (CActive b, l)
  | HIERARCHY =>
      '(f, l) ← read as_entity (str "First") l; '(n, l) ← read as_entity (str "Next") l;
      '(p, l) ← read as_entity (str "Previous") l; '(par, l) ← read as_entity (str "Parent") l;
      Ret (CHierarchy (mkHierarchy par f n p), l)
  | CAMERA =>
      '(scale, l) ← read as_float (str "Scale") l; '(aspect, l) ← read as_float (str "Aspect") l; '(fov, l) ← read as_float (str "FOV") l;
      '(near, l) ← read as_float (str "Near") l; '(far, l) ← read as_float (str "Far") l;
      Ret (CCamera scale aspect fov near far, l)
  | LIGHT =>
      '(color, l) ← read as_vec [] l; '(position, l) ← read as_vec [] l; '(direction, l) ← read as_vec [] l;
      '(radius, l) ← read as_float [] l; '(intensity, l) ← read as_float [] l; '(type, l) ← read as_float [] l; '(angle, l) ← read as_float [] l;
      Ret (CLight color position direction radius intensity type angle, l)
  | CONTROLLER => '(type, l) ← read as_int (str "ControllerType") l; Ret (CController type, l)
  | MODEL => '(filePath, l) ← read as_string [] l; '(type, l) ← read as_int [] l; Ret (CModel filePath type, l)
  | MESH_RENDERER =>
      '(meshName, l) ← read as_string [] l; '(material, l) ← read as_material (str "material") l;
      Ret (CMeshRenderer None meshName (Some material), l)
  | ENVIRONMENT => '(filePath, l) ← read as_string [] l; Ret (CEnvironment filePath, l)
  | SPRITE => Ret (CSprite, l) | ANIMATED_SPRITE => Ret (CAnimatedSprite, l) | LUA => Ret (CLua, l) | MONO => Ret (CMono, l)
  end.

(** ** Snapshots *)

Definition ALL_COMPONENTS : list Kind :=
  [TRANSFORM; NAME; ACTIVE; HIERARCHY; CAMERA; LIGHT; CONTROLLER; MODEL; MESH_RENDERER; ENVIRONMENT].

Section Archive.
(** The order of the entities and of the components of the registry in memory. *)
Context (order : Registry -> list entity) (data : forall A, gmap entity A -> list (entity * A)).

(** The pool of one type. *)
Definition members (k : Kind) (s : Scene.Scene) : list (entity * Component) :=
  let R := Scene.registry s in
  match k with
  | NAME => prod_map id CName <$> data cstring (names R)
  | ACTIVE => prod_map id CActive <$> data bool (actives R)
  | HIERARCHY => prod_map id CHierarchy <$> data Hierarchy (hier R)
  | _ => pool k (Scene.pools s)
  end.

(** [snapshot.entities] and [snapshot.component]. *)
Definition count {A} (l : list A) : Item := ([], SInt (u32 (Z.of_nat (length l)))).
Definition save_entities (s : Scene.Scene) : list Item :=
  count (order (Scene.registry s)) :: ((fun e => ([], SEntity (Some e))) <$> order (Scene.registry s)).
Fixpoint save_members (l : list (entity * Component)) : outcome (list Item) :=
  match l with
  | [] => Ret []
  | (e, c) :: l => fields ← save_fields c; rest ← save_members l; Ret (([], SEntity (Some e)) :: fields ++ rest)
  end.
Definition save_component (k : Kind) (s : Scene.Scene) : outcome (list Item) :=
  items ← save_members (members k s); Ret (count (members k s) :: items).
Fixpoint save_components (ks : list Kind) (s : Scene.Scene) : outcome (list Item) :=
  match ks with
  | [] => Ret []
  | k :: ks => items ← save_component k s; rest ← save_components ks s; Ret (items ++ rest)
  end.

(** The loader: [Archiving] is what is left to read, and the scene. *)
Abbreviation Archiving := (list Item * Scene.Scene)%type.

Fixpoint read_entities (n : nat) (l : list Item) : outcome (list entity * list Item) :=
  match n with
  | O => Ret ([], l)
  | S n => '(e, l) ← read as_entity [] l; e ← deref e; '(all, l) ← read_entities n l; Ret (e :: all, l)
  end.
(** [registry.assign] asserts that there is no component left. *)
Definition no_components (s : Scene.Scene) : bool :=
  bool_decide (names (Scene.registry s) = ∅) && bool_decide (actives (Scene.registry s) = ∅) && bool_decide (hier (Scene.registry s) = ∅)
  && bool_decide (Forall (fun k => pool k (Scene.pools s) = []) all_kinds).
Definition with_alive (A : gset entity) (s : Scene.Scene) : Scene.Scene :=
  let R := Scene.registry s in Scene.set_registry (mkRegistry A (hier R) (names R) (actives R)) s.
Definition load_entities (x : Archiving) : outcome Archiving :=
  let '(l, s) := x in
  '(n, l) ← read as_int [] l;
  '(all, l) ← read_entities (Z.to_nat n) l;
  if no_components s then Ret (l, with_alive (list_to_set all) s) else Exn LogicError.

(** [snapshot_loader.component]: an entity that is missing is created. *)
Definition load_member (k : Kind) (x : Archiving) : outcome Archiving :=
  let '(l, s) := x in
  '(e, l) ← read as_entity [] l; e ← deref e;
  '(c, l) ← load_fields k l;
  let s := if bool_decide (e ∈ alive (Scene.registry s)) then s else with_alive ({[e]} ∪ alive (Scene.registry s)) s in
  s ← Scene.emplace e c s; Ret (l, s).
Fixpoint load_members (n : nat) (k : Kind) (x : Archiving) : outcome Archiving :=
  match n with O => Ret x | S n => x ← load_member k x; load_members n k x end.
Definition load_component (k : Kind) (x : Archiving) : outcome Archiving :=
  '(n, l) ← read as_int [] (fst x); load_members (Z.to_nat n) k (l, snd x).

(** ** Serialization *)

(** What [serialize] puts into the archive. *)
Definition archive_of (s : Scene.Scene) : outcome (list Item) :=
  components ← save_components ALL_COMPONENTS s;
  Ret (([], SInt 1) :: ([], SString (Scene.scene_name s)) :: save_entities s ++ components).
(** What [loadScene] does with it. *)
Definition load_archive (items : list Item) (s : Scene.Scene) : outcome Scene.Scene :=
  '(version, l) ← read as_int [] items;
  '(name, l) ← read as_string [] l;
  x ← load_entities (l, Scene.set_name name s);
  '(_, s) ← foldM load_component ALL_COMPONENTS x;
  Ret s.

(** The text of an archive, and how it is read. *)
Context (print : list Item -> cstring) (parse : cstring -> outcome (list Item)).

Definition serialize (s : Scene.Scene) (d : disk) : outcome disk :=
  items ← archive_of s;
  let '(d, f) := File_open d (Scene.filePath s) true in
  '(d, _) ← File_write d f (print items); Ret d.

(** [Scene::saveTo] with the file it writes. *)
Definition save (win32 : bool) (path : cstring) (s : Scene.Scene) (d : disk) : outcome (Scene.Scene * disk) :=
  if Scene.dirty s then let s' := Scene.saveTo win32 path s in d ← serialize s' d; Ret (s', d) else Ret (s, d).
End Archive.
End Serialization.

(** ** Properties *)
Module SerializationProps.
Import FileSystem Components Serialization SceneManager Tree.


(** *** Components *)












(** *** The scenes that are saved *)


Section Roundtrip.
Context (order : Registry -> list entity) (data : forall A, gmap entity A -> list (entity * A)).
Context (Horder : enumerates order) (Hdata : forall A (m : gmap entity A), data A m ≡ₚ map_to_list m).















(** *** Files *)
Context (print : list Item -> cstring) (parse : cstring -> outcome (list Item)).




End Roundtrip.

(** *** An example

    A scene with a root, a child with a camera and a light, a renderer and a sprite is
    saved, and loaded into another. *)
Definition scene_or (t : Scene.Scene) (r : outcome Scene.Scene) : Scene.Scene := match r with Ret s => s | Exn _ => t end.
Definition built : Scene.Scene :=
  Scene.set_dirty (scene_or (Scene.make [])
   (let s := Scene.with_registry (run_or_empty (Entity.setParent (ent 2) (ent 1) (create_handle 2 (create_handle 1 Registry.empty)))) (Scene.make (str "s")) in
    s ← Scene.emplace 2 main_camera s; s ← Scene.emplace 1 (CMeshRenderer (Some (str "cube", 5%N)) [] None) s;
    s ← Scene.emplace 1 (CName (str "root")) s; Scene.emplace 2 CSprite s)).
Definition map_data (A : Type) (m : gmap entity A) : list (entity * A) := map_to_list m.
Definition built_items : list Item := match archive_of live_order map_data built with Ret l => l | Exn _ => [] end.
Definition to_text (x : list Item) : cstring := replicate (if decide (length x = 0) then 0 else 1) "x"%char.



(** Only making entities marks a scene as changed: another change, here the end of an
    entity, is not saved once the scene was. *)
Definition saved_once : Scene.Scene * disk := match save live_order map_data to_text false [] built ∅ with Ret x => x | Exn _ => (built, ∅) end.
Lemma change_not_saved : exists R, Entity.destroy (ent 2) (Scene.registry (fst saved_once)) = Ret R /\ 2%N ∉ alive R
  /\ save live_order map_data to_text false [] (Scene.with_registry R (fst saved_once)) (snd saved_once) = Ret (Scene.with_registry R (fst saved_once), snd saved_once).
Proof.
  exists (run_or_empty (Entity.destroy (ent 2) (Scene.registry (fst saved_once)))). split; [by vm_compute|]. split; [apply (bool_decide_unpack _); by vm_compute|].
  unfold save. replace (Scene.dirty _) with false by (by vm_compute). done.
Qed.

(** A renderer that was loaded and not drawn yet has no mesh to be saved through. *)
Definition loaded_again : Scene.Scene := scene_or (Scene.make []) (load_archive built_items (Scene.disconnectOnConstruct true (Scene.make []))).
Lemma loaded_scene_not_savable : Scene.registry loaded_again = Scene.registry built /\ archive_of live_order map_data loaded_again = Exn NullDeref.
Proof. by vm_compute. Qed.

(** Links are not to be made while a file is read: made then, the child is linked to a
    parent whose own links are still to come, and these are refused. *)
Lemma linked_while_loading : load_archive built_items (Scene.make []) = Exn LogicError.
Proof. by vm_compute. Qed.
End SerializationProps.
