(* ===== verification/EntityPanel.v ===== *)
(** * EntityPanel: the panel of the editor that shows the entity tree

    Models [Code/Editor/src/HierarchyWindow.*]: what the panel draws, dropping an
    entity on another or on the panel, pasting, and deleting an entity with
    everything below it.  What the user does is an argument of each operation.  It
    works on the registry of [Hierarchy] and is proved against its forests. *)

From S2P Require Import Prelude Strings Hierarchy Scene.
From stdpp Require Import base decidable list sets gmap relations strings.
From Stdlib Require Import ZArith Lia.
Import Registry.

(** ** The panel (HierarchyWindow.cpp) *)
Module EntityPanel.
Import Hierarchy Entity.

(** The walk from the parent of [child]. *)
Definition isParentOfEntity (e child : entity) (R : Registry) : outcome bool :=
  match try_get R (Some child) with
  | Some h => isParent_loop (S (fuel R)) R (parent h) (Some e)
  | None => Ret false
  end.

(** *** Deleting *)

(** The loop over the children; the next one is read before a child goes. *)
Fixpoint destroy_loop (f : entity -> Registry -> outcome Registry) (m : nat) (child : option entity) (R : Registry) : outcome Registry :=
  match m with
  | O => Exn OutOfFuel
  | S m =>
      match child with
      | None => Ret R
      | Some c =>
          let next := try_get R (Some c) ≫= next in
          R ← f c R;
          destroy_loop f m next R
      end
  end.
Fixpoint destroyEntity (n : nat) (e : entity) (R : Registry) : outcome Registry :=
  match n with
  | O => Exn OutOfFuel
  | S n =>
      R ← match try_get R (Some e) with Some h => destroy_loop (destroyEntity n) (fuel R) (first h) R | None => Ret R end;
      destroy_handle e R
  end.

(** *** Dropping *)

(** Whether an entity may be dropped on a node, and the drop. *)
Definition acceptable (e node : entity) (R : Registry) : outcome bool :=
  match try_get R (Some e) with
  | Some h => b ← isParentOfEntity e node R; Ret (bool_decide (e ≠ node) && negb b && bool_decide (parent h ≠ Some node))
  | None => Ret (bool_decide (e ≠ node))
  end.
Definition drop_on_node (e node : entity) (R : Registry) : outcome Registry :=
  a ← acceptable e node R;
  if a : bool then
    match try_get R (Some e) with
    | Some _ => reparent e (Some node) R
    | None => emplace_hierarchy e (Some node) R
    end
  else Ret R.

(** The target above the nodes. *)
Definition drop_on_top (e : entity) (R : Registry) : outcome Registry :=
  match try_get R (Some e) with Some _ => reparent e None R | None => Ret R end.

(** [removeComponent<Hierarchy>]. *)
Definition remove_hierarchy (e : entity) (R : Registry) : outcome Registry :=
  R ← onDestroy e R; Ret (with_hier (delete e (hier R)) R).
(** The target below the nodes: only for an entity with a parent. *)
Definition drop_on_panel (e : entity) (R : Registry) : outcome Registry :=
  match try_get R (Some e) with
  | Some h => if bool_decide (parent h ≠ None) then R ← reparent e None R; remove_hierarchy e R else Ret R
  | None => Ret R
  end.

(** *** The menu of a node *)
Section Menu.
Context (new_handle : gset entity -> entity).

(** The node goes when what is pasted was cut. *)
Definition paste (copied : option entity) (cut : bool) (node : entity) (s : Scene.Scene) : outcome Scene.Scene :=
  match copied with
  | Some c =>
      if Registry.valid (Scene.registry s) (Some c) then
        s ← Scene.duplicateEntity_under new_handle (mkEntity (Some c) true) (mkEntity (Some node) true) s;
        if cut then R ← destroyEntity (fuel (Scene.registry s)) node (Scene.registry s); Ret (Scene.with_registry R s) else Ret s
      else Ret s
  | None => Ret s
  end.
Definition delete_node (node : entity) (s : Scene.Scene) : outcome Scene.Scene :=
  R ← destroyEntity (fuel (Scene.registry s)) node (Scene.registry s); Ret (Scene.with_registry R s).
Definition add_child (node : entity) (s : Scene.Scene) : outcome Scene.Scene :=
  let '(R, e) := EntityManager.create new_handle (Scene.registry s) in
  R ← setParent e (mkEntity (Some node) true) R; Ret (Scene.with_registry R s).
End Menu.

(** *** Drawing *)
Section Draw.
(** The filter, the text of a handle, and the nodes the user has opened. *)
Context (pass : cstring -> bool) (to_string : entity -> cstring) (opened : entity -> bool).

(** The loop over the children of an open node. *)
Fixpoint draw_loop (f : entity -> Registry -> outcome (list entity)) (m : nat) (child : option entity) (R : Registry) : outcome (list entity) :=
  match m with
  | O => Exn OutOfFuel
  | S m =>
      match child with
      | Some c =>
          if Registry.valid R (Some c) then
            l ← f c R;
            k ← draw_loop f m (try_get R (Some c) ≫= next) R;
            Ret (l ++ k)
          else Ret []
      | None => Ret []
      end
  end.
(** The nodes drawn, in order, when the user does nothing else. *)
Fixpoint drawNode (n : nat) (node : entity) (R : Registry) : outcome (list entity) :=
  match n with
  | O => Exn OutOfFuel
  | S n =>
      if Registry.valid R (Some node) && pass (default (to_string node) (names R !! node)) then
        match try_get R (Some node) with
        | Some h =>
            if opened node && bool_decide (first h ≠ None) then l ← draw_loop (drawNode n) (fuel R) (first h) R; Ret (node :: l)
            else Ret [node]
        | None => Ret [node]
        end
      else Ret []
  end.

(** [registry.each] visits the handles in an order of its own. *)
Definition is_root (R : Registry) (e : entity) : bool :=
  match try_get R (Some e) with Some h => bool_decide (parent h = None) | None => true end.
Definition draw_panel (order : list entity) (R : Registry) : outcome (list entity) :=
  foldM (fun e l => if Registry.valid R (Some e) && is_root R e then k ← drawNode (fuel R) e R; Ret (l ++ k) else Ret l) order [].
End Draw.
End EntityPanel.

(** ** Properties *)
Module PanelProps.
Import Hierarchy Entity Forest Tree EntityPanel.

Lemma tc_end {A} (P : relation A) x y : tc P x y -> exists z, rtc P x z /\ P z y.
Proof. induction 1 as [x y H|x y z H _ (w & Hw & Hz)]; [by exists x; split; [apply rtc_refl|]|exists w; split; [by eapply rtc_l|done]]. Qed.

Lemma flat_map_bind {A B} (f : A -> list B) l : flat_map f l = l ≫= f.
Proof. induction l as [|x l IH]; [done|]. cbn. by rewrite IH. Qed.
(** *** What is below an entity *)
Section Below.
Context (R : Registry) (kids : entity -> list entity) (HR : Rep R kids).

Lemma up_kid c p : up R c p <-> c ∈ kids p.
Proof.
  split; [|apply (rep_kid _ _ HR)]. intros (h & Hh & Hp). destruct (rep_links _ _ HR _ _ Hh) as [_ Hs]. rewrite Hp in Hs. tauto.
Qed.

Lemma preorder_below n : forall e x, x ∈ preorder n kids e -> tc (up R) x e.
Proof.
  induction n as [|n IH]; intros e x Hx; [by apply elem_of_nil in Hx|]. cbn in Hx.
  apply list_elem_of_In, in_flat_map in Hx as (c & Hc%list_elem_of_In & [<-|Hx%list_elem_of_In]); apply up_kid in Hc; [by apply tc_once|].
  eapply tc_r; [by apply IH|done].
Qed.
Lemma below_preorder n : forall e x, height_lt n kids e -> tc (up R) x e -> x ∈ preorder n kids e.
Proof.
  induction n as [|n IH]; intros e x Hn Hx; [done|]. cbn in *. apply tc_end in Hx as (z & Hxz & Hz). apply up_kid in Hz.
  apply list_elem_of_In, in_flat_map. exists z. split; [by apply list_elem_of_In|]. apply rtc_tc in Hxz as [->|Hxz]; [by left|]. right. apply list_elem_of_In. by apply IH; [apply Hn|].
Qed.

(** The entity and everything below it. *)
Definition below (e : entity) : gset entity := list_to_set (e :: preorder (fuel R) kids e).
Lemma elem_of_below x e : x ∈ below e <-> rtc (up R) x e.
Proof.
  unfold below. rewrite elem_of_list_to_set, elem_of_cons, rtc_tc. split; (intros [->|H]; [by left|right]).
  - by eapply preorder_below.
  - apply below_preorder; [by apply height_bound|done].
Qed.

(** A parent is not below its child, nor is one child below another. *)
Lemma parent_not_below c p : up R c p -> p ∉ below c.
Proof. rewrite elem_of_below. intros Hc Hp. apply (rep_acyclic _ _ HR p). eapply tc_rtc_l; [exact Hp|]. by apply tc_once. Qed.
Lemma chains_meet x a b : rtc (up R) x a -> rtc (up R) x b -> rtc (up R) a b \/ rtc (up R) b a.
Proof.
  intros H. revert b. induction H as [x|x y a Hxy Hya IH]; intros b Hb; [by left|].
  apply rtc_inv in Hb as [<-|(z & Hz & Hb)]; [right; by eapply rtc_l|]. rewrite (up_fun R x y z Hxy Hz) in *. by apply IH.
Qed.
Lemma siblings_apart x a b p : up R a p -> up R b p -> rtc (up R) x a -> rtc (up R) x b -> a = b.
Proof.
  assert (forall a b, up R a p -> up R b p -> rtc (up R) a b -> a = b) as H.
  { intros a' b' Ha Hb Hab. apply rtc_tc in Hab as [->|Hab]; [done|]. apply tc_first in Hab as (z & Hz & Hzb). rewrite (up_fun R _ _ _ Hz Ha) in Hzb.
    exfalso. apply (parent_not_below _ _ Hb), elem_of_below. done. }
  intros Ha Hb Hxa Hxb. destruct (chains_meet x a b Hxa Hxb); [by apply H|symmetry; by apply H].
Qed.

(** *** Deleting *)

(** The forest without some entities. *)
Definition without (D : gset entity) (q : entity) : list entity := if decide (q ∈ D) then [] else filter (fun c => c ∉ D) (kids q).
Definition closed (D : gset entity) : Prop := forall c p, up R c p -> p ∈ D -> c ∈ D.
Record gone (D : gset entity) (R1 : Registry) : Prop := mkGone { gone_rep : Rep R1 (without D); gone_alive : alive R1 = alive R ∖ D }.

Lemma closed_rtc D x y : closed D -> rtc (up R) x y -> y ∈ D -> x ∈ D.
Proof. intros HD. induction 1 as [|x y z Hxy _ IH]; [done|]. intros Hz. eapply HD; [exact Hxy|by apply IH]. Qed.
Lemma closed_below D e : closed D -> closed (D ∪ below e).
Proof. intros HD c p Hc [Hp|Hp]%elem_of_union; apply elem_of_union; [left; by eapply HD|right]. apply elem_of_below in Hp. apply elem_of_below. by eapply rtc_l. Qed.

Lemma without_app (D B : gset entity) l c l' : filter (fun x => x ∉ D) l = c :: l' -> c ∈ B -> (forall x, x ∈ l' -> x ∉ B) -> filter (fun x : entity => x ∉ D ∪ B) l = l'.
Proof.
  intros E Hc Hl. assert (filter (fun x : entity => x ∉ D ∪ B) l = filter (fun x => x ∉ B) (filter (fun x => x ∉ D) l)) as ->.
  { rewrite list_filter_filter. apply list_filter_iff. intros x. set_solver. }
  rewrite E, filter_cons_False by auto. apply filter_all, Forall_forall. done.
Qed.

Lemma loop_gone e f l : forall D R1 m,
  (forall D c R1, c ∈ kids e -> gone D R1 -> closed D -> c ∉ D -> exists R2, f c R1 = Ret R2 /\ gone (D ∪ below c) R2) ->
  gone D R1 -> closed D -> e ∉ D -> filter (fun c => c ∉ D) (kids e) = l -> (length l < m)%nat ->
  exists R2 D', destroy_loop f m (head l) R1 = Ret R2 /\ gone D' R2 /\ closed D' /\ forall x, x ∈ D' <-> x ∈ D \/ exists c, c ∈ l /\ rtc (up R) x c.
Proof.
  induction l as [|c l IH]; intros D R1 m Hf Hg HD He Hl Hm; (destruct m as [|m]; [cbn in Hm; lia|]).
  - exists R1, D. split_and!; try done. intros x. split; [by left|]. intros [?|(c & Hc & _)]; [done|by apply elem_of_nil in Hc].
  - assert (c ∈ without D e) as Hcw by (unfold without; rewrite decide_False, Hl by done; by left).
    assert (c ∉ D /\ c ∈ kids e) as [HcD Hck] by (apply (list_elem_of_filter (fun c => c ∉ D)); rewrite Hl; by left).
    destruct (rep_kid_hier (gone_rep _ _ Hg) _ _ Hcw) as (h & Hh & Hnx).
    unfold without in Hnx. rewrite decide_False, Hl in Hnx by done. cbn in Hnx. rewrite decide_True in Hnx by done.
    cbn [destroy_loop head]. unfold try_get. cbn [mbind option_bind]. rewrite Hh. cbn [mbind option_bind]. rewrite Hnx.
    destruct (Hf D c R1 Hck Hg HD HcD) as (R2 & -> & Hg2). rewrite bind_Ret.
    assert (NoDup (c :: l)) as Hnd by (rewrite <- Hl; apply NoDup_filter, (rep_nodup _ _ HR)). apply NoDup_cons in Hnd as [Hcl _].
    destruct (IH (D ∪ below c) R2 m) as (R3 & D' & -> & Hg3 & HD3 & Hx); [done|done|by apply closed_below| | |cbn in Hm; lia|].
    + intros [?|Hb]%elem_of_union; [done|]. by apply (parent_not_below c e); [apply up_kid|].
    + apply (without_app D _ _ c); [done|apply elem_of_below, rtc_refl|]. intros x Hxl Hxb. apply elem_of_below in Hxb.
      assert (x ∈ kids e) as Hxk by (apply (list_elem_of_filter (fun c => c ∉ D)); rewrite Hl; by right).
      apply Hcl. rewrite <- (siblings_apart x x c e); [done|by apply up_kid|by apply up_kid|apply rtc_refl|done].
    + exists R3, D'. split_and!; try done. intros x. rewrite Hx, elem_of_union, elem_of_below. setoid_rewrite elem_of_cons. naive_solver.
Qed.

Lemma below_kids x e : x ∈ below e <-> x = e \/ exists c, c ∈ kids e /\ rtc (up R) x c.
Proof.
  rewrite elem_of_below, rtc_tc. split; (intros [->|H]; [by left|right]).
  - apply tc_end in H as (c & Hx & Hc). exists c. by rewrite <- up_kid.
  - destruct H as (c & Hc%up_kid & Hx). by eapply tc_rtc_l; [|apply tc_once].
Qed.

Lemma destroy_gone n : forall D e R1, gone D R1 -> closed D -> e ∈ alive R -> e ∉ D -> height_lt n kids e ->
  exists R2, destroyEntity n e R1 = Ret R2 /\ gone (D ∪ below e) R2.
Proof.
  induction n as [|n IH]; intros D e R1 Hg HD He HeD Hn; [done|]. cbn [destroyEntity].
  assert (exists R2 D', match try_get R1 (Some e) with Some h => destroy_loop (destroyEntity n) (fuel R1) (first h) R1 | None => Ret R1 end = Ret R2
    /\ gone D' R2 /\ closed D' /\ forall x, x ∈ D' <-> x ∈ D \/ exists c, c ∈ filter (fun c => c ∉ D) (kids e) /\ rtc (up R) x c) as (R2 & D' & -> & Hg2 & HD2 & Hx).
  { assert (without D e = filter (fun c => c ∉ D) (kids e)) as Hw by (unfold without; by rewrite decide_False).
    change (try_get R1 (Some e)) with (hier R1 !! e). destruct (hier R1 !! e) as [h|] eqn:Hh.
    - destruct (rep_links _ _ (gone_rep _ _ Hg) _ _ Hh) as [-> _]. rewrite Hw. apply (loop_gone e); [|done|done|done|done|].
      + intros D1 c R3 Hc Hg3 HD3 HcD. apply IH; [done|done| |done|by apply Hn]. apply up_kid in Hc as (hc & Hhc & _). by eapply (rep_alive _ _ HR).
      + pose proof (kids_size (gone_rep _ _ Hg) e) as Hs. rewrite Hw in Hs. unfold fuel. lia.
    - exists R1, D. split_and!; try done. intros x. rewrite <- Hw, (rep_no_hier (gone_rep _ _ Hg) _ Hh). split; [by left|].
      intros [?|(c & Hc & _)]; [done|by apply elem_of_nil in Hc]. }
  rewrite bind_Ret.
  assert (e ∉ D') as HeD'.
  { rewrite Hx. intros [?|(c & Hc & Hr)]; [done|]. apply list_elem_of_filter in Hc as [_ Hc]. apply (parent_not_below c e); [by apply up_kid|by apply elem_of_below]. }
  assert (forall c, c ∈ kids e -> c ∈ D') as Hall.
  { intros c Hc. apply Hx. destruct (decide (c ∈ D)); [by left|right]. exists c. split; [by apply list_elem_of_filter|apply rtc_refl]. }
  assert (D ∪ below e = D' ∪ {[e]}) as ->.
  { apply set_eq. intros x. rewrite !elem_of_union, elem_of_singleton, below_kids, Hx. split.
    - intros [?|[->|(c & Hc & Hr)]]; [by left; left|by right|]. left. destruct (decide (c ∈ D)) as [HcD|HcD]; [left; by eapply closed_rtc|right].
      exists c. split; [by apply list_elem_of_filter|done].
    - intros [[?|(c & Hc & Hr)]| ->]; [by left| |by right; left]. right. right. exists c. apply list_elem_of_filter in Hc. tauto. }
  destruct Hg2 as [HR2 Ha2]. assert (without D' e = []) as He0.
  { unfold without. rewrite decide_False by done. apply filter_none, Forall_forall. intros c Hc H. by apply H, Hall. }
  destruct (destroy_Rep R2 (without D') e HR2) as (R3 & E & HR3 & Ha3 & _); [rewrite Ha2; by apply elem_of_difference|done|].
  exists R3. split; [exact E|]. split; [|rewrite Ha3, Ha2; set_solver]. eapply Rep_ext; [|exact HR3]. intros q. unfold detach, without.
  destruct (decide (q ∈ D')) as [Hq|Hq]; [rewrite decide_True by set_solver; done|].
  destruct (decide (q = e)) as [->|Hqe].
  - rewrite decide_True by set_solver. symmetry. unfold without in He0. rewrite decide_False in He0 by done. by rewrite He0.
  - rewrite decide_False by set_solver. rewrite list_filter_filter. apply list_filter_iff. intros x. set_solver.
Qed.

(** *** The forest that is left *)
Lemma without_detach e q : q ∉ below e -> filter (fun c => c ∉ below e) (kids q) = detach e kids q.
Proof.
  intros Hq. apply filter_ext_elem. intros c Hc%up_kid. rewrite elem_of_below. split.
  - intros H ->. apply H, rtc_refl.
  - intros Hce H. apply rtc_inv in H as [->|(z & Hz & H)]; [done|]. rewrite (up_fun R _ _ _ Hz Hc) in H. by apply Hq, elem_of_below.
Qed.

Lemma destroyed e : e ∈ alive R -> exists R' kids', destroyEntity (fuel R) e R = Ret R' /\ Rep R' kids'
  /\ (forall x, x ∈ alive R' <-> x ∈ alive R /\ ~ rtc (up R) x e) /\ (forall q, q ∈ alive R' -> kids' q = detach e kids q).
Proof.
  intros He. destruct (destroy_gone (fuel R) ∅ e R) as (R' & E & Hrep & Ha).
  - split; [|set_solver]. eapply Rep_ext; [|exact HR]. intros q. unfold without. rewrite decide_False by set_solver. apply filter_all, Forall_forall. set_solver.
  - intros c p _ H. set_solver.
  - done.
  - set_solver.
  - by apply height_bound.
  - exists R', (without (∅ ∪ below e)). split_and!; [done|done| |].
    + intros x. rewrite Ha, <- elem_of_below. set_solver.
    + intros q Hq. rewrite Ha in Hq. unfold without. rewrite decide_False by set_solver. rewrite <- without_detach by set_solver. apply list_filter_iff. set_solver.
Qed.

(** *** Drawing *)

(** From every entity the parents lead to a root. *)
Lemma root_above n : forall (V : gset entity) x, V ⊆ dom (hier R) -> (forall v, v ∈ V -> tc (up R) v x) -> (size (hier R) - size V < n)%nat ->
  exists r, rtc (up R) x r /\ forall p, ~ up R r p.
Proof.
  induction n as [|n IH]; intros V x HV Htc Hn; [lia|]. destruct (hier R !! x) as [h|] eqn:Hh; [destruct (parent h) as [p|] eqn:Hp|].
  - assert (up R x p) as Hup by (by exists h).
    assert (x ∉ V) as HxV by (intros Hv; by apply (rep_acyclic _ _ HR x), Htc).
    assert (V ∪ {[x]} ⊆ dom (hier R)) as HV' by (apply union_subseteq; split; [done|]; apply singleton_subseteq_l, elem_of_dom; by eexists).
    assert (size (V ∪ {[x]}) = S (size V)) as HS by (rewrite size_union, size_singleton by set_solver; lia).
    pose proof (subseteq_size _ _ HV') as Hle. rewrite size_dom, HS in Hle.
    destruct (IH (V ∪ {[x]}) p) as (r & Hr & Hroot); [done| |lia|exists r; split; [by eapply rtc_l|done]].
    intros v [Hv| ->%elem_of_singleton]%elem_of_union; [|by apply tc_once]. eapply tc_r; [by apply Htc|done].
  - exists x. split; [apply rtc_refl|]. intros p (h' & Hh' & Hp'). congruence.
  - exists x. split; [apply rtc_refl|]. intros p (h' & Hh' & Hp'). congruence.
Qed.
Lemma is_root_spec e : is_root R e = true <-> forall p, ~ up R e p.
Proof.
  unfold is_root, try_get. cbn. destruct (hier R !! e) as [h|] eqn:Hh.
  - rewrite bool_decide_eq_true. split; [intros Hp p (h' & Hh' & Hp'); congruence|]. intros H. destruct (parent h) as [p|] eqn:Hp; [|done]. exfalso. apply (H p). by exists h.
  - split; [|done]. intros _ p (h' & Hh' & _). congruence.
Qed.

Lemma trees_nodup n : forall e, height_lt n kids e -> NoDup (e :: preorder n kids e).
Proof.
  induction n as [|n IH]; intros e Hn; [done|]. apply NoDup_cons. split.
  { intros H%preorder_below. by apply (rep_acyclic _ _ HR e). }
  cbn in *. rewrite flat_map_bind. apply NoDup_bind; [|intros c Hc; by apply IH, Hn|apply (rep_nodup _ _ HR)].
  intros a b x Ha%up_kid Hb%up_kid Hxa Hxb. apply (siblings_apart x a b e Ha Hb); apply rtc_tc.
  - apply elem_of_cons in Hxa as [->|H]; [by left|right; by eapply preorder_below].
  - apply elem_of_cons in Hxb as [->|H]; [by left|right; by eapply preorder_below].
Qed.

Definition everything (x : cstring) : bool := true.
Definition all_open (e : entity) : bool := true.

Lemma draw_loop_spec to_string p f l : forall a m, kids p = a ++ l -> (length l < m)%nat ->
  (forall c, c ∈ kids p -> exists k, drawNode everything to_string all_open f c R = Ret k) -> 
  draw_loop (drawNode everything to_string all_open f) m (head l) R = Ret (l ≫= fun c => match drawNode everything to_string all_open f c R with Ret k => k | Exn _ => [] end).
Proof.
  induction l as [|c l IH]; intros a m Hk Hm Hf; (destruct m as [|m]; [cbn in Hm; lia|]); [done|].
  assert (c ∈ kids p) as Hc by (rewrite Hk; set_solver). destruct (rep_kid_hier HR _ _ Hc) as (h & Hh & Hnx). rewrite Hk, next_in_middle in Hnx.
  2:{ pose proof (rep_nodup _ _ HR p) as Hnd. rewrite Hk in Hnd. by apply NoDup_middle in Hnd as [? _]. }
  cbn [draw_loop head]. rewrite valid_alive by (by eapply (rep_alive _ _ HR)). destruct (Hf c Hc) as [k Ek]. rewrite Ek, bind_Ret.
  change (try_get R (Some c)) with (hier R !! c). rewrite Hh. cbn [mbind option_bind]. rewrite Hnx, (IH (a ++ [c])), bind_Ret;
    [cbn; by rewrite Ek|by rewrite Hk, <- app_assoc|cbn in Hm; lia|done].
Qed.
Lemma node_drawn to_string n : forall e, e ∈ alive R -> height_lt n kids e -> drawNode everything to_string all_open n e R = Ret (e :: preorder n kids e).
Proof.
  induction n as [|n IH]; intros e He Hn; [done|]. cbn [drawNode preorder]. rewrite valid_alive by done. cbn [andb everything].
  change (try_get R (Some e)) with (hier R !! e). destruct (hier R !! e) as [h|] eqn:Hh; [|by rewrite (rep_no_hier HR)].
  destruct (rep_links _ _ HR _ _ Hh) as [Hfirst _]. cbn [all_open andb].
  assert (forall c, c ∈ kids e -> drawNode everything to_string all_open n c R = Ret (c :: preorder n kids c)) as Hc.
  { intros c Hc. apply IH; [|by apply Hn]. apply up_kid in Hc as (hc & Hhc & _). by eapply (rep_alive _ _ HR). }
  case_bool_decide as Hf.
  - rewrite Hfirst, (draw_loop_spec to_string e n (kids e) []), bind_Ret; [|done|pose proof (kids_size HR e); unfold fuel; lia|intros c Hck; rewrite (Hc c Hck); by eexists].
    rewrite (flat_map_bind (fun c => c :: preorder n kids c)). do 2 f_equal. apply list_bind_ext_elem. intros c Hck. by rewrite (Hc c Hck).
  - rewrite Hfirst in Hf. by destruct (kids e).
Qed.

Definition tree (e : entity) : list entity := e :: preorder (fuel R) kids e.
Lemma panel_drawn to_string order : draw_panel everything to_string all_open order R = Ret (filter (fun e => e ∈ alive R /\ is_root R e = true) order ≫= tree).
Proof.
  unfold draw_panel. assert (forall acc, foldM (fun e l => if Registry.valid R (Some e) && is_root R e then k ← drawNode everything to_string all_open (fuel R) e R; Ret (l ++ k) else Ret l) order acc
    = Ret (acc ++ (filter (fun e => e ∈ alive R /\ is_root R e = true) order ≫= tree))) as H; [|apply H].
  induction order as [|e order IH]; intros acc; [cbn; by rewrite app_nil_r|]. cbn [foldM]. destruct (decide (e ∈ alive R /\ is_root R e = true)) as [[He Hr]|Hno].
  - rewrite valid_alive, Hr by done. cbn [andb]. rewrite node_drawn, !bind_Ret by (done || by apply height_bound). rewrite IH, filter_cons_True by done. cbn [mbind list_bind]. unfold tree at 2. by rewrite <- app_assoc.
  - assert (Registry.valid R (Some e) && is_root R e = false) as ->.
    { apply andb_false_iff. destruct (is_root R e); [left|by right]. apply bool_decide_eq_false_2. tauto. }
    rewrite bind_Ret, filter_cons_False by done. apply IH.
Qed.
End Below.

(** *** Theorems *)

(** C4. Deleting a node of the panel removes the entity and everything below it, in
    any tree; it returns without error, the links of the registry represent the
    forest that is left, and every other entity keeps its children in their order,
    but for the deleted one. *)
Theorem delete_removes_subtree R kids e : Rep R kids -> e ∈ alive R ->
  exists R' kids', destroyEntity (fuel R) e R = Ret R' /\ Rep R' kids'
  /\ (forall x, x ∈ alive R' <-> x ∈ alive R /\ ~ rtc (up R) x e) /\ (forall q, q ∈ alive R' -> kids' q = detach e kids q).
Proof. intros HR. by apply destroyed. Qed.

(** C5. With every node open and no filter, the panel shows each entity of the scene
    exactly once: the roots in the order of the registry, each followed by the
    trees of its children in their order. *)
Theorem panel_shows_all R kids to_string order : Rep R kids -> order ≡ₚ elements (alive R) -> exists l,
  draw_panel everything to_string all_open order R = Ret l /\ l ≡ₚ elements (alive R)
  /\ l = filter (fun e => is_root R e = true) order ≫= fun e => e :: preorder (fuel R) kids e.
Proof.
  intros HR Ho. assert (forall e, e ∈ order <-> e ∈ alive R) as Hin by (intros e; by rewrite Ho, elem_of_elements).
  exists (filter (fun e => e ∈ alive R /\ is_root R e = true) order ≫= tree R kids). split; [by apply panel_drawn|].
  assert (filter (fun e => e ∈ alive R /\ is_root R e = true) order = filter (fun e => is_root R e = true) order) as ->
    by (apply filter_ext_elem; intros e He%Hin; tauto). split; [|done].
  apply NoDup_Permutation; [|apply NoDup_elements|].
  - apply NoDup_bind.
    + intros a b x Ha Hb Hxa Hxb. apply list_elem_of_filter in Ha as [Ha _], Hb as [Hb _].
      pose proof (proj1 (is_root_spec R a) Ha) as Hra. pose proof (proj1 (is_root_spec R b) Hb) as Hrb. assert (forall e, x ∈ tree R kids e -> rtc (up R) x e) as Hx.
      { intros e H. apply (elem_of_below R kids HR). by apply elem_of_list_to_set. }
      destruct (chains_meet R x a b (Hx _ Hxa) (Hx _ Hxb)) as [H|H]; apply rtc_inv in H as [->|(z & Hz & _)]; try done; exfalso; [by eapply Hra|by eapply Hrb].
    + intros e _. apply (trees_nodup R kids HR). by apply height_bound.
    + apply NoDup_filter. rewrite Ho. apply NoDup_elements.
  - intros x. rewrite elem_of_elements, list_elem_of_bind. split.
    + intros (e & Hx & He). apply list_elem_of_filter in He as [_ He%Hin]. apply elem_of_cons in Hx as [->|Hx]; [done|]. by eapply preorder_alive.
    + intros Hx. destruct (root_above R kids HR (S (size (hier R))) ∅ x) as (r & Hr & Hroot); [set_solver|set_solver|rewrite size_empty; lia|].
      exists r. split; [apply (elem_of_list_to_set (C := gset entity)); by apply (elem_of_below R kids HR)|]. apply list_elem_of_filter. split; [by apply is_root_spec|].
      apply Hin. apply rtc_inv_r in Hr as [->|(z & _ & Hz)]; [done|]. apply (up_kid R kids HR) in Hz. destruct (rep_kid _ _ HR _ _ Hz) as [_ [h Hh]]. by eapply (rep_alive _ _ HR).
Qed.

(** *** Dropping *)
Lemma isParentOfEntity_spec R kids e node : Rep R kids -> exists b, isParentOfEntity e node R = Ret b /\ (b = true <-> tc (up R) node e).
Proof. apply (isParent_spec R kids node e). Qed.

(** Dropping an entity on a node makes it the last child of the node, and leaves
    every other entity in its place; on itself, on its parent, or on an entity
    below it, nothing happens. *)
Lemma drop_refines R kids e node : Rep R kids -> e ∈ alive R -> node ∈ alive R ->
  (e = node \/ tc (up R) node e \/ up R e node -> drop_on_node e node R = Ret R)
  /\ (e <> node -> ~ tc (up R) node e -> ~ up R e node -> tree_result R (attach e node (detach e kids)) (drop_on_node e node R)).
Proof.
  intros HR He Hn. unfold drop_on_node, acceptable. change (try_get R (Some e)) with (hier R !! e).
  destruct (isParentOfEntity_spec R kids e node HR) as (b & Hb & Hspec). destruct (hier R !! e) as [h|] eqn:Hh.
  - rewrite Hb, !bind_Ret. split.
    + intros H. assert (bool_decide (e ≠ node) && negb b && bool_decide (parent h ≠ Some node) = false) as ->; [|done].
      destruct H as [->|[H|(h' & Hh' & Hp)]].
      * by rewrite bool_decide_eq_false_2 by tauto.
      * apply Hspec in H as ->. by rewrite andb_false_r.
      * rewrite Hh in Hh'. injection Hh' as <-. by rewrite (bool_decide_eq_false_2 (parent h ≠ Some node)), andb_false_r by tauto.
    + intros Hne Hbelow Hup. assert (bool_decide (e ≠ node) && negb b && bool_decide (parent h ≠ Some node) = true) as ->.
      { rewrite !bool_decide_eq_true_2; [destruct b; [exfalso; by apply Hbelow, Hspec|done]| |done]. intros Hp. apply Hup. by exists h. }
      apply (reparent_refines R kids e h (Some node) HR Hh). split; [done|]. intros [->|H]%rtc_tc; done.
  - rewrite bind_Ret. split.
    + intros [->|[H|(h' & Hh' & _)]]; [by rewrite bool_decide_eq_false_2 by tauto| |congruence].
      apply tc_last in H as (z & Hz). apply (up_kid R kids HR) in Hz. rewrite (rep_no_hier HR _ Hh) in Hz. by apply elem_of_nil in Hz.
    + intros Hne _ _. rewrite bool_decide_eq_true_2 by done. destruct (emplace_refines R kids e (Some node)) as (R' & E & HR' & Hrest); [done|done|done|by split|].
      exists R'. split; [exact E|]. split; [|done]. eapply Rep_ext; [|exact HR']. intros q. unfold attach. by rewrite (detach_absent R).
Qed.

(** On the target above the nodes an entity becomes a root, with its children. *)
Lemma drop_on_top_refines R kids e : Rep R kids -> e ∈ alive R -> tree_result R (detach e kids) (drop_on_top e R).
Proof.
  intros HR He. unfold drop_on_top. change (try_get R (Some e)) with (hier R !! e). destruct (hier R !! e) as [h|] eqn:Hh; [by apply (reparent_refines R kids e h None)|].
  exists R. split; [done|]. split; [|done]. eapply Rep_ext; [|exact HR]. intros q. by apply (detach_absent R).
Qed.

(** On the panel below the nodes it loses its component as well: with children,
    they keep a parent that has no list, and the panel no longer shows them.  Here
    1 has the children 2 and 3 and is dropped there from under 4. *)
Definition nested : Registry := run_or_empty (setParent (ent 1) (ent 4) (create_handle 4 demo)).
Lemma panel_drop_hides_children : exists R, drop_on_panel 1 nested = Ret R /\ getParent (ent 2) R = Ret (ent 1)
  /\ draw_panel everything (fun _ => []) all_open [1; 2; 3; 4]%N nested = Ret [4; 1; 2; 3]%N
  /\ draw_panel everything (fun _ => []) all_open [1; 2; 3; 4]%N R = Ret [1; 4]%N.
Proof. exists (run_or_empty (drop_on_panel 1 nested)). by vm_compute. Qed.

(** A filter hides a node that passes when one above it does not. *)
Lemma filter_hides_below : draw_panel (fun s => bool_decide (s = [])) (fun e => if bool_decide (e = 1%N) then str "a" else []) all_open [1; 2; 3]%N demo = Ret [].
Proof. by vm_compute. Qed.
(** *** Pasting *)
Lemma up_alive R kids a b : Rep R kids -> up R a b -> b ∈ alive R.
Proof. intros HR H. apply (up_kid R kids HR) in H. destruct (rep_kid _ _ HR _ _ H) as [_ [h Hh]]. by eapply (rep_alive _ _ HR). Qed.
Lemma below_pasted R R1 kids h node x : Rep R kids -> Rep R1 (attach h node (detach h kids)) -> h ∉ alive R -> x ∈ alive R ->
  rtc (up R1) x node <-> rtc (up R) x node.
Proof.
  intros HR HR1 Hh Hx. assert (forall a b, a ∈ alive R -> up R1 a b <-> up R a b) as Hup.
  { intros a b Ha. rewrite (up_kid R1 _ HR1), (up_kid R kids HR). assert (a ≠ h) as Hah by congruence. unfold attach, detach.
    destruct (decide (b = node)); rewrite ?elem_of_app, list_elem_of_filter, ?list_elem_of_singleton; naive_solver. }
  clear HR1. split; intros H; revert Hx; induction H as [|a b c Hab _ IH]; intros Ha; try apply rtc_refl; apply Hup in Hab as Hab'; try done;
    (eapply rtc_l; [done|]; apply IH; by eapply up_alive).
Qed.

(** Pasting what was cut moves nothing: a new entity is made below the node, and
    the node is deleted with everything below it, the new entity among it. *)
Lemma cut_paste_deletes_target new_handle kids s c node (R := Scene.registry s) : Rep R kids -> new_handle (alive R) ∉ alive R -> c ∈ alive R -> node ∈ alive R ->
  exists s' kids', paste new_handle (Some c) true node s = Ret s' /\ Rep (Scene.registry s') kids'
  /\ forall x, x ∈ alive (Scene.registry s') <-> x ∈ alive R /\ ~ rtc (up R) x node.
Proof.
  intros HR Hf Hc Hn. unfold paste. fold R. rewrite valid_alive by done. unfold Scene.duplicateEntity_under, EntityManager.create. fold R. cbn -[setParent destroyEntity fuel].
  set (h := new_handle (alive R)) in *. change (mkRegistry _ _ _ _) with (create_handle h R).
  destruct (setParent_Rep (create_handle h R) kids h node) as (R1 & E & HR1 & Ha & _); [by apply create_Rep|set_solver|set_solver|congruence| |].
  { intros H. apply tc_last in H as (z & Hz). change (up R z h) in Hz. by apply Hf, (up_alive R kids z). }
  unfold ent in E. rewrite E, !bind_Ret. unfold Scene.copyComponents. change (Scene.registry (Scene.with_registry R1 (Scene.set_dirty s))) with R1.
  destruct (destroyed R1 _ HR1 node) as (R2 & kids2 & E2 & HR2 & Ha2 & _); [rewrite Ha; set_solver|]. rewrite E2, bind_Ret.
  exists (Scene.with_registry R2 (Scene.with_registry R1 (Scene.set_dirty s))), kids2. split_and!; [done|done|]. intros x. cbn. rewrite Ha2, Ha. split.
  - intros [[->%elem_of_singleton|Hx]%elem_of_union Hb]; [|split; [done|by rewrite <- (below_pasted R R1 kids h)]].
    exfalso. apply Hb, rtc_once, (up_kid R1 _ HR1). unfold attach. rewrite decide_True by done. set_solver.
  - intros [Hx Hb]. split; [set_solver|by rewrite (below_pasted R R1 kids h)].
Qed.

(** *** Witnesses *)
Lemma delete_removes_subtree_witness : exists R' kids', destroyEntity (fuel demo) 1 demo = Ret R' /\ Rep R' kids'
  /\ (forall x, x ∈ alive R' <-> x ∈ alive demo /\ ~ rtc (up demo) x 1%N) /\ (forall q, q ∈ alive R' -> kids' q = detach 1 demo_kids q).
Proof. apply (delete_removes_subtree demo demo_kids 1 demo_Rep). apply (bool_decide_unpack _). by vm_compute. Defined.

Lemma panel_shows_all_witness : exists l, draw_panel everything (fun _ => []) all_open [3; 1; 2]%N demo = Ret l /\ l ≡ₚ elements (alive demo)
  /\ l = filter (fun e => is_root demo e = true) [3; 1; 2]%N ≫= fun e => e :: preorder (fuel demo) demo_kids e.
Proof. apply (panel_shows_all demo demo_kids (fun _ => []) [3; 1; 2]%N demo_Rep). apply (bool_decide_unpack _). by vm_compute. Defined.
End PanelProps.
