(* ===== verification/MonoScripts.v ===== *)
(** * MonoScripts: scripts in the Mono runtime

    Models [Scripts/Mono]: the names of classes ([MonoHelper.cpp]), the members a
    class keeps ([MapleMonoClass.cpp]), the classes an assembly keeps
    ([MapleMonoAssembly.cpp]), the virtual machine with its assemblies
    ([MonoVirtualMachine.cpp]) and the scripts of an entity ([MonoScript.cpp],
    [MonoComponent.cpp], [MonoSystem.cpp]).  What the runtime answers is a
    parameter.  A [shared_ptr] to a wrapper is an address; what a wrapper keeps is
    in a heap of its own. *)

From S2P Require Import Prelude Strings FileSystem.
From stdpp Require Import base decidable list sets gmap strings.
From Stdlib Require Import Ascii ZArith Lia.
Local Open Scope Z_scope.

(** ** The runtime *)
Module Mono.

(** What the engine asks about images, classes, methods, fields and properties.
    [depth] and [height] bound the chains of enclosing and of nested classes. *)
Record Runtime := mkRuntime {
  class_from_name : N -> cstring -> cstring -> option N;
  class_image : N -> N;
  class_namespace : N -> cstring;
  class_name : N -> cstring;
  nesting_type : N -> option N;
  nested_types : N -> list N;
  type_table : N -> list N;
  custom_attrs : N -> option (list N);
  depth : N -> nat;
  height : N -> nat;
  class_methods : N -> list N;
  method_name : N -> cstring;
  method_signature : N -> cstring;
  method_from_name : N -> cstring -> Z -> option N;
  class_fields : N -> list N;
  field_name : N -> cstring;
  field_from_name : N -> cstring -> option N;
  class_properties : N -> list N;
  property_name : N -> cstring;
  property_from_name : N -> cstring -> option N
}.

(** Wrappers of methods, fields and properties: an address and what is wrapped. *)
Record Pool := mkPool { fresh : N; wrapped : gmap N N }.
Definition make_shared (x : N) (p : Pool) : Pool * N := (mkPool (fresh p + 1) (<[fresh p := x]> (wrapped p)), fresh p).

(** [unordered_map::emplace] keeps what is there. *)
Definition emplace `{Countable K} {V} (k : K) (v : V) (m : gmap K V) : gmap K V * V :=
  match m !! k with Some w => (m, w) | None => (<[k := v]> m, v) end.
End Mono.

(** ** Names of classes (MonoHelper.cpp) *)
Module MonoHelper.
Import Mono.

Section Names.
Context (M : Runtime).

Fixpoint nesting_loop (n : nat) (nestingClass : N) (typeName : cstring) : outcome (cstring * cstring) :=
  match n with
  | O => Exn OutOfFuel
  | S n =>
      match nesting_type M nestingClass with
      | Some nextNestingClass => nesting_loop n nextNestingClass (str "+" ++ class_name M nestingClass ++ typeName)
      | None => Ret (class_namespace M nestingClass, class_name M nestingClass ++ typeName)
      end
  end.
Definition getClassName (monoClass : N) : outcome (cstring * cstring) :=
  match nesting_type M monoClass with
  | None => Ret (class_namespace M monoClass, class_name M monoClass)
  | Some nestingClass => nesting_loop (depth M monoClass) nestingClass (str "+" ++ class_name M monoClass)
  end.
End Names.

(** [std::getline] until the end. *)
Fixpoint getlines_from (line : cstring) (s : cstring) : list cstring :=
  match s with
  | [] => match line with [] => [] | _ => [line] end
  | c :: s => if Ascii.eqb c "010"%char then line :: getlines_from [] s else getlines_from (line ++ [c]) s
  end.
Definition getlines (s : cstring) : list cstring := getlines_from [] s.

(** The compiler succeeded when no line of its output has the word [error]. *)
Definition compile_ok (output : cstring) : bool :=
  forallb (fun line => StringUtils.isEmptyOrWhitespace line || negb (StringUtils.contains line (str "error"))) (getlines output).
Definition compile_command (files : list cstring) (dllReference : cstring) : cstring :=
  str "..\Toolchains\mono\roslyn\csc.exe" ++ str " -target:library -nologo"
  ++ (match dllReference with [] => [] | _ => str " -reference:" ++ dllReference end)
  ++ str " -out:MapleAssembly.dll " ++ (files ≫= fun f => f ++ str " ").
(** [execute] runs a command and gives its output. *)
Definition compileScript (execute : cstring -> cstring) (files : list cstring) (dllReference : cstring) : bool :=
  compile_ok (execute (compile_command files dllReference)).
End MonoHelper.

(** ** The members of a class (MapleMonoClass.cpp) *)
Module MonoClass.
Import Mono.

(** Its pointer to the assembly is never used. *)
Record MapleMonoClass := mkMapleMonoClass {
  clazz : N;
  nameSpace : cstring;
  typeName : cstring;
  fullName : cstring;
  methods : gmap (cstring * Z) N;
  fields : gmap cstring N;
  properties : gmap cstring N;
  hasCachedFields : bool;
  cachedFieldList : list (option N);
  hasCachedProperties : bool;
  cachedPropertyList : list (option N);
  hasCachedMethods : bool;
  cachedMethodList : list (option N)
}.
Definition make (nameSpace typeName : cstring) (monoClass : N) : MapleMonoClass :=
  mkMapleMonoClass monoClass nameSpace typeName (nameSpace ++ str "." ++ typeName) ∅ ∅ ∅ false [] false [] false [].

Definition with_methods (m : gmap (cstring * Z) N) (k : MapleMonoClass) : MapleMonoClass :=
  mkMapleMonoClass (clazz k) (nameSpace k) (typeName k) (fullName k) m (fields k) (properties k)
    (hasCachedFields k) (cachedFieldList k) (hasCachedProperties k) (cachedPropertyList k) (hasCachedMethods k) (cachedMethodList k).
Definition with_fields (m : gmap cstring N) (k : MapleMonoClass) : MapleMonoClass :=
  mkMapleMonoClass (clazz k) (nameSpace k) (typeName k) (fullName k) (methods k) m (properties k)
    (hasCachedFields k) (cachedFieldList k) (hasCachedProperties k) (cachedPropertyList k) (hasCachedMethods k) (cachedMethodList k).
Definition with_properties (m : gmap cstring N) (k : MapleMonoClass) : MapleMonoClass :=
  mkMapleMonoClass (clazz k) (nameSpace k) (typeName k) (fullName k) (methods k) (fields k) m
    (hasCachedFields k) (cachedFieldList k) (hasCachedProperties k) (cachedPropertyList k) (hasCachedMethods k) (cachedMethodList k).
Definition with_field_list (b : bool) (l : list (option N)) (k : MapleMonoClass) : MapleMonoClass :=
  mkMapleMonoClass (clazz k) (nameSpace k) (typeName k) (fullName k) (methods k) (fields k) (properties k)
    b l (hasCachedProperties k) (cachedPropertyList k) (hasCachedMethods k) (cachedMethodList k).
Definition with_property_list (b : bool) (l : list (option N)) (k : MapleMonoClass) : MapleMonoClass :=
  mkMapleMonoClass (clazz k) (nameSpace k) (typeName k) (fullName k) (methods k) (fields k) (properties k)
    (hasCachedFields k) (cachedFieldList k) b l (hasCachedMethods k) (cachedMethodList k).
Definition with_method_list (b : bool) (l : list (option N)) (k : MapleMonoClass) : MapleMonoClass :=
  mkMapleMonoClass (clazz k) (nameSpace k) (typeName k) (fullName k) (methods k) (fields k) (properties k)
    (hasCachedFields k) (cachedFieldList k) (hasCachedProperties k) (cachedPropertyList k) b l.

Section Members.
Context (M : Runtime).
Abbreviation answer := (MapleMonoClass * Pool * option N)%type.

(** The method is stored twice: the second wrapper is made for nothing. *)
Definition getMethod (name : cstring) (numParams : Z) (k : MapleMonoClass) (p : Pool) : answer :=
  let id := (name, numParams) in
  match methods k !! id with
  | Some m => (k, p, Some m)
  | None =>
      match method_from_name M (clazz k) name (i32 numParams) with
      | None => (k, p, None)
      | Some method =>
          let '(p, newMethod) := make_shared method p in
          let ms := <[id := newMethod]> (methods k) in
          let '(p, other) := make_shared method p in
          let '(ms, m) := emplace id other ms in
          (with_methods ms k, p, Some m)
      end
  end.

(** The loop over the methods of the class. *)
Fixpoint find_exact (name signature : cstring) (l : list N) : option N :=
  match l with
  | [] => None
  | method :: l =>
      if bool_decide (name = method_name M method) && bool_decide (signature = Mono.method_signature M method) then Some method
      else find_exact name signature l
  end.
Definition exact_id (name signature : cstring) : cstring * Z := (name ++ str "(" ++ signature ++ str ")", 0).
Definition getMethodExact (name signature : cstring) (k : MapleMonoClass) (p : Pool) : answer :=
  let id := exact_id name signature in
  match methods k !! id with
  | Some m => (k, p, Some m)
  | None =>
      match find_exact name signature (class_methods M (clazz k)) with
      | None => (k, p, None)
      | Some method =>
          let '(p, other) := make_shared method p in
          let '(ms, m) := emplace id other (methods k) in
          (with_methods ms k, p, Some m)
      end
  end.

Definition getField (name : cstring) (k : MapleMonoClass) (p : Pool) : answer :=
  match fields k !! name with
  | Some f => (k, p, Some f)
  | None =>
      match field_from_name M (clazz k) name with
      | None => (k, p, None)
      | Some field =>
          let '(p, other) := make_shared field p in
          let '(fs, f) := emplace name other (fields k) in
          (with_fields fs k, p, Some f)
      end
  end.
Definition getProperty (name : cstring) (k : MapleMonoClass) (p : Pool) : answer :=
  match properties k !! name with
  | Some q => (k, p, Some q)
  | None =>
      match property_from_name M (clazz k) name with
      | None => (k, p, None)
      | Some property =>
          let '(p, other) := make_shared property p in
          let '(ps, q) := emplace name other (properties k) in
          (with_properties ps k, p, Some q)
      end
  end.
Definition hasField (name : cstring) (k : MapleMonoClass) : bool := bool_decide (is_Some (field_from_name M (clazz k) name)).

(** The loops that ask for each member in turn. *)
Fixpoint collect (ask : N -> MapleMonoClass -> Pool -> answer) (l : list N) (k : MapleMonoClass) (p : Pool) : MapleMonoClass * Pool * list (option N) :=
  match l with
  | [] => (k, p, [])
  | x :: l => let '(k, p, a) := ask x k p in let '(k, p, rest) := collect ask l k p in (k, p, a :: rest)
  end.
Definition getAllFields (k : MapleMonoClass) (p : Pool) : MapleMonoClass * Pool * list (option N) :=
  if hasCachedFields k then (k, p, cachedFieldList k)
  else let '(k, p, l) := collect (fun f => getField (field_name M f)) (class_fields M (clazz k)) k p in (with_field_list true l k, p, l).
Definition getAllProperties (k : MapleMonoClass) (p : Pool) : MapleMonoClass * Pool * list (option N) :=
  if hasCachedProperties k then (k, p, cachedPropertyList k)
  else let '(k, p, l) := collect (fun q => getProperty (property_name M q)) (class_properties M (clazz k)) k p in (with_property_list true l k, p, l).
Definition getAllMethods (k : MapleMonoClass) (p : Pool) : MapleMonoClass * Pool * list (option N) :=
  if hasCachedMethods k then (k, p, cachedMethodList k)
  else let '(k, p, l) := collect (fun m => getMethodExact (method_name M m) (Mono.method_signature M m)) (class_methods M (clazz k)) k p in
    (with_method_list true l k, p, l).
End Members.
End MonoClass.

(** ** The classes of an assembly (MapleMonoAssembly.cpp) *)
Module MonoAssembly.
Import Mono MonoHelper MonoClass.

Record MapleMonoAssembly := mkMapleMonoAssembly {
  asm_name : cstring;
  asm_path : cstring;
  monoImage : option N;
  monoAssembly : option N;
  loaded : bool;
  dependency : bool;
  classes : gmap (cstring * cstring) N;
  classesByRaw : gmap N N;
  haveCachedClassList : bool;
  cachedClassList : list N
}.
Definition make_assembly (path name : cstring) : MapleMonoAssembly := mkMapleMonoAssembly name path None None false false ∅ ∅ false [].
Definition with_classes (cs : gmap (cstring * cstring) N) (rs : gmap N N) (a : MapleMonoAssembly) : MapleMonoAssembly :=
  mkMapleMonoAssembly (asm_name a) (asm_path a) (monoImage a) (monoAssembly a) (loaded a) (dependency a) cs rs (haveCachedClassList a) (cachedClassList a).
Definition with_list (b : bool) (l : list N) (a : MapleMonoAssembly) : MapleMonoAssembly :=
  mkMapleMonoAssembly (asm_name a) (asm_path a) (monoImage a) (monoAssembly a) (loaded a) (dependency a) (classes a) (classesByRaw a) b l.
Definition with_image (img asm : option N) (ld dep : bool) (a : MapleMonoAssembly) : MapleMonoAssembly :=
  mkMapleMonoAssembly (asm_name a) (asm_path a) img asm ld dep (classes a) (classesByRaw a) (haveCachedClassList a) (cachedClassList a).

(** The wrappers of classes, and of their members. *)
Record Heap := mkHeap { next_class : N; class_at : gmap N MapleMonoClass; pool : Pool }.
Definition new_class (ns name : cstring) (r : N) (h : Heap) : Heap * N :=
  (mkHeap (next_class h + 1) (<[next_class h := make ns name r]> (class_at h)) (pool h), next_class h).

Section Assembly.
Context (M : Runtime).
Abbreviation found := (MapleMonoAssembly * Heap * option N)%type.

(** [getClass] by name, by the class of the runtime, and by both. *)
Definition getClass (ns name : cstring) (a : MapleMonoAssembly) (h : Heap) : outcome found :=
  match classes a !! (ns, name) with
  | Some c => Ret (a, h, Some c)
  | None =>
      img ← deref (monoImage a);
      match class_from_name M img ns name with
      | None => Ret (a, h, None)
      | Some monoClass =>
          let '(h, newClass) := new_class ns name monoClass h in
          Ret (with_classes (<[(ns, name) := newClass]> (classes a)) (<[monoClass := newClass]> (classesByRaw a)) a, h, Some newClass)
      end
  end.
Definition getClass_raw (rawMonoClass : option N) (a : MapleMonoAssembly) (h : Heap) : outcome found :=
  match rawMonoClass with
  | None => Ret (a, h, None)
  | Some r =>
      match classesByRaw a !! r with
      | Some c => Ret (a, h, Some c)
      | None =>
          '(ns, name) ← getClassName M r;
          if bool_decide (Some (class_image M r) ≠ monoImage a) then Ret (a, h, None)
          else
            let '(h, newClass) := new_class ns name r h in
            Ret (with_classes (<[(ns, name) := newClass]> (classes a)) (<[r := newClass]> (classesByRaw a)) a, h, Some newClass)
      end
  end.
Definition isGenericClass (name : cstring) : bool := bool_decide ("`"%char ∈ name).
Definition getClass_nested (ns name : cstring) (rawMonoClass : option N) (a : MapleMonoAssembly) (h : Heap) : found :=
  match rawMonoClass with
  | None => (a, h, None)
  | Some r =>
      match classesByRaw a !! r with
      | Some c => (a, h, Some c)
      | None =>
          let '(h, newClass) := new_class ns name r h in
          (with_classes (if isGenericClass name then classes a else <[(ns, name) := newClass]> (classes a)) (<[r := newClass]> (classesByRaw a)) a,
           h, Some newClass)
      end
  end.

(** [hasAttribute] uses its argument only when the class has attributes. *)
Definition hasAttribute (c : N) (attribute : option N) (h : Heap) : outcome bool :=
  k ← deref (class_at h !! c);
  match custom_attrs M (clazz k) with
  | None => Ret false
  | Some attrs => c ← deref attribute; k ← deref (class_at h !! c); Ret (bool_decide (clazz k ∈ attrs))
  end.

(** *** All classes *)
Abbreviation walk := (MapleMonoAssembly * Heap * list N * list N)%type.

(** One nested class: into the list, and to be walked. *)
Definition visit_nested (attribute : option N) (ns outer : cstring) (raw : N) (s : walk) : outcome walk :=
  let '(a, h, acc, todo) := s in
  let nestedType := outer ++ str "+" ++ class_name M raw in
  let '(a, h, nestedClass) := getClass_nested ns nestedType (Some raw) a h in
  match nestedClass with
  | None => Ret (a, h, acc, todo)
  | Some c => b ← hasAttribute c attribute h; Ret (if b : bool then (a, h, acc, todo) else (a, h, acc ++ [c], c :: todo))
  end.
Fixpoint nested_walk (n : nat) (attribute : option N) (ns : cstring) (s : walk) : outcome walk :=
  let '(a, h, acc, todo) := s in
  match todo with
  | [] => Ret s
  | c :: todo =>
      match n with
      | O => Exn OutOfFuel
      | S n =>
          k ← deref (class_at h !! c);
          s ← foldM (visit_nested attribute ns (typeName k)) (nested_types M (clazz k)) (a, h, acc, todo);
          nested_walk n attribute ns s
      end
  end.

(** The classes nested in a class, to any depth. *)
Fixpoint nested_below (n : nat) (r : N) : list N :=
  match n with O => [] | S n => nested_types M r ≫= fun c => c :: nested_below n c end.

Definition visit_row (attribute : option N) (monoClass : N) (s : MapleMonoAssembly * Heap * list N) : outcome (MapleMonoAssembly * Heap * list N) :=
  let '(a, h, acc) := s in
  '(ns, type) ← getClassName M monoClass;
  '(a, h, curClass) ← getClass ns type a h;
  match curClass with
  | None => Ret (a, h, acc)
  | Some c =>
      b ← hasAttribute c attribute h;
      if b : bool then Ret (a, h, acc)
      else
        k ← deref (class_at h !! c);
        '(a, h, acc, _) ← nested_walk (S (length (nested_below (Mono.height M (clazz k)) (clazz k)))) attribute ns (a, h, acc, [c]);
        Ret (a, h, acc ++ [c])
  end.
(** The first row is the module itself. *)
Definition getAllClasses (attribute : option N) (a : MapleMonoAssembly) (h : Heap) : outcome (MapleMonoAssembly * Heap * list N) :=
  if haveCachedClassList a then Ret (a, h, cachedClassList a)
  else
    img ← deref (monoImage a);
    '(a, h, l) ← foldM (visit_row attribute) (drop 1 (type_table M img)) (with_list false [] a, h, []);
    Ret (with_list true l a, h, l).

(** *** Loading *)
Definition unload (a : MapleMonoAssembly) : MapleMonoAssembly :=
  if loaded a then
    let a := with_list false [] (with_classes ∅ ∅ a) in
    if dependency a then a else with_image None None false (dependency a) a
  else a.
(** [open_image] and [load_image] are the calls that open an image from its bytes
    and load the assembly of an image. *)
Context (open_image : FileSystem.bytes -> option N) (load_image : N -> option N).
Definition load (d : FileSystem.disk) (a : MapleMonoAssembly) : outcome MapleMonoAssembly :=
  let a := if loaded a then unload a else a in
  let '(d, f) := FileSystem.File_open d (asm_path a ++ asm_name a) false in
  '(buffer, _) ← FileSystem.getBuffer d f;
  match open_image buffer with
  | None => Ret a
  | Some image =>
      match load_image image with
      | None => Ret (with_image (monoImage a) None (loaded a) (dependency a) a)
      | Some asm => Ret (with_image (Some image) (Some asm) true false a)
      end
  end.
(** The assembly is stored in a variable of the function, not in the member. *)
Definition loadFromImage (image : N) (a : MapleMonoAssembly) : MapleMonoAssembly := with_image (Some image) (monoAssembly a) true true a.
End Assembly.
End MonoAssembly.

(** ** The virtual machine (MonoVirtualMachine.cpp) *)
Module MonoVM.
Import Mono MonoClass MonoAssembly.

Record MonoVirtualMachine := mkVM {
  domain : option N;
  scriptDomain : option N;
  corlibAssembly : option N;
  assemblies : gmap cstring (option N);
  assembly_at : gmap N MapleMonoAssembly;
  next_assembly : N;
  heap : Heap
}.
Definition with_assembly (i : N) (a : MapleMonoAssembly) (h : Heap) (v : MonoVirtualMachine) : MonoVirtualMachine :=
  mkVM (domain v) (scriptDomain v) (corlibAssembly v) (assemblies v) (<[i := a]> (assembly_at v)) (next_assembly v) h.
Definition with_scriptDomain (d : option N) (v : MonoVirtualMachine) : MonoVirtualMachine :=
  mkVM (domain v) d (corlibAssembly v) (assemblies v) (assembly_at v) (next_assembly v) (heap v).
Definition with_assemblies (l : gmap cstring (option N)) (v : MonoVirtualMachine) : MonoVirtualMachine :=
  mkVM (domain v) (scriptDomain v) (corlibAssembly v) l (assembly_at v) (next_assembly v) (heap v).
(** A new assembly under its name. *)
Definition add_assembly (path name : cstring) (v : MonoVirtualMachine) : MonoVirtualMachine * N :=
  let i := next_assembly v in
  (mkVM (domain v) (scriptDomain v) (corlibAssembly v) (<[name := Some i]> (assemblies v)) (<[i := make_assembly path name]> (assembly_at v)) (i + 1) (heap v), i).

Definition empty_vm : MonoVirtualMachine := mkVM None None None ∅ ∅ 0 (mkHeap 0 ∅ (mkPool 0 ∅)).

Section Machine.
Context (M : Runtime).
(** The order of [unordered_map]. *)
Context (order : gmap cstring (option N) -> list cstring).

(** [init], once the runtime has given its domain and accepted it. *)
Definition init (jit : option N) (domain_set : bool) (corlib : N) (v : MonoVirtualMachine) : MonoVirtualMachine :=
  let v := mkVM jit (scriptDomain v) (corlibAssembly v) (assemblies v) (assembly_at v) (next_assembly v) (heap v) in
  match jit with
  | None => v
  | Some _ =>
      if domain_set then
        let i := next_assembly v in
        mkVM jit (scriptDomain v) (Some i) (<[str "corlib" := Some i]> (assemblies v))
          (<[i := loadFromImage corlib (make_assembly (str "corlib") (str "corlib"))]> (assembly_at v)) (i + 1) (heap v)
      else v
  end.

(** [assemblies[name]] adds a null pointer for a name that is missing. *)
Definition getAssembly (name : cstring) (v : MonoVirtualMachine) : MonoVirtualMachine * option N :=
  match assemblies v !! name with
  | Some p => (v, p)
  | None => (with_assemblies (<[name := None]> (assemblies v)) v, None)
  end.

(** The loops over the assemblies. *)
Fixpoint find_loop (ask : MapleMonoAssembly -> Heap -> outcome (MapleMonoAssembly * Heap * option N)) (names : list cstring) (v : MonoVirtualMachine)
    : outcome (MonoVirtualMachine * option N) :=
  match names with
  | [] => Ret (v, None)
  | name :: names =>
      i ← deref (default None (assemblies v !! name));
      a ← deref (assembly_at v !! i);
      '(a, h, monoClass) ← ask a (heap v);
      let v := with_assembly i a h v in
      match monoClass with Some c => Ret (v, Some c) | None => find_loop ask names v end
  end.
Definition findClass (ns type : cstring) (v : MonoVirtualMachine) : outcome (MonoVirtualMachine * option N) :=
  find_loop (getClass M ns type) (order (assemblies v)) v.
Definition findClass_raw (clazz : N) (v : MonoVirtualMachine) : outcome (MonoVirtualMachine * option N) :=
  find_loop (getClass_raw M (Some clazz)) (order (assemblies v)) v.

(** [getAllClasses] of an assembly of the machine: the attribute of generated
    classes is looked up in [corlib]. *)
Definition getAllClasses_of (i : N) (v : MonoVirtualMachine) : outcome (MonoVirtualMachine * list N) :=
  a ← deref (assembly_at v !! i);
  if haveCachedClassList a then Ret (v, cachedClassList a)
  else
    let '(v, corlib) := getAssembly (str "corlib") v in
    j ← deref corlib;
    b ← deref (assembly_at v !! j);
    '(b, h, attribute) ← getClass M (str "System.Runtime.CompilerServices") (str "CompilerGeneratedAttribute") b (heap v);
    let v := with_assembly j b h v in
    a ← deref (assembly_at v !! i);
    '(a, h, l) ← getAllClasses M attribute a (heap v);
    Ret (with_assembly i a h v, l).

Context (open_image : FileSystem.bytes -> option N) (load_image : N -> option N).

(** [initializeAssembly]; no script registers itself to be told. *)
Definition initializeAssembly (d : FileSystem.disk) (i : N) (v : MonoVirtualMachine) : outcome MonoVirtualMachine :=
  a ← deref (assembly_at v !! i);
  if loaded a then Ret v else a ← load open_image load_image d a; Ret (with_assembly i a (heap v) v).

(** [new_domain] is the domain the runtime makes for the scripts, if it can;
    [domain_set] whether it enters it. *)
Definition enter_domain (new_domain : option N) (domain_set : bool) (v : MonoVirtualMachine) : outcome MonoVirtualMachine :=
  match scriptDomain v with
  | Some _ => Ret v
  | None =>
      match new_domain with
      | None => Exn RuntimeError
      | Some d => if domain_set then Ret (with_scriptDomain (Some d) v) else Exn RuntimeError
      end
  end.
Definition loadAssembly (d : FileSystem.disk) (new_domain : option N) (domain_set : bool) (path name : cstring) (v : MonoVirtualMachine)
    : outcome (MonoVirtualMachine * option N) :=
  v ← enter_domain new_domain domain_set v;
  let '(v, p) := match assemblies v !! name with
    | Some p => (v, p)
    | None => let '(v, i) := add_assembly path name v in (v, Some i)
    end in
  i ← deref p;
  v ← initializeAssembly d i v;
  Ret (v, p).

(** The assemblies are unloaded in order, then forgotten but for [corlib]. *)
Fixpoint unload_loop (names : list cstring) (v : MonoVirtualMachine) : outcome MonoVirtualMachine :=
  match names with
  | [] => Ret v
  | name :: names =>
      i ← deref (default None (assemblies v !! name));
      a ← deref (assembly_at v !! i);
      unload_loop names (with_assembly i (unload a) (heap v) v)
  end.
Definition unloadScriptDomain (v : MonoVirtualMachine) : outcome MonoVirtualMachine :=
  let v := with_scriptDomain None v in
  v ← unload_loop (order (assemblies v)) v;
  Ret (with_assemblies {[str "corlib" := corlibAssembly v]} v).
End Machine.
End MonoVM.

(** ** Scripts (MonoScript.cpp, MonoComponent.cpp, MonoSystem.cpp) *)
Module MonoScript.
Import Mono MonoClass MonoAssembly MonoVM.

(** What the runtime is asked about objects: a field is set to the handle of the
    entity or to what the pointer to its transform points to. *)
Inductive Value := Handle (e : N) | TransformAt (t : option N).
Inductive call :=
  | CreateObject (domain : option N) (monoClass object : N)
  | SetField (object field : N) (v : Value)
  | Construct (object : N)
  | Invoke (method object : N) (dt : option N).

Record MonoScript := mkMonoScript {
  script_name : cstring;
  className : cstring;
  scriptObject : option N;
  updateFunc : option N;
  startFunc : option N;
  destoryFunc : option N
}.
(** The component and the transform of its entity. *)
Record MonoComponent := mkMonoComponent { entity : N; transform : option N; scripts : gmap cstring MonoScript }.
Definition with_scripts (l : gmap cstring MonoScript) (m : MonoComponent) : MonoComponent := mkMonoComponent (entity m) (transform m) l.

Section Scripts.
Context (M : Runtime) (order : gmap cstring (option N) -> list cstring) (script_order : gmap cstring MonoScript -> list cstring) (win32 : bool).
(** The object the runtime makes of a class. *)
Context (new_object : N -> list call -> N).

(** [MapleMonoObject::setValue]. *)
Definition setValue (k : MapleMonoClass) (object : N) (v : Value) (name : cstring) : list call :=
  match field_from_name M (clazz k) name with Some field => [SetField object field v] | None => [] end.

Definition loadFunction (e : N) (t : option N) (s : MonoScript) (v : MonoVirtualMachine) (log : list call)
    : outcome (MonoScript * MonoVirtualMachine * list call) :=
  '(v, found) ← findClass M order [] (className s) v;
  match found with
  | None => Ret (s, v, log)
  | Some c =>
      k ← deref (class_at (heap v) !! c);
      let object := new_object (clazz k) log in
      let log := log ++ [CreateObject (scriptDomain v) (clazz k) object] in
      let '(k, p, _) := getAllMethods M k (pool (heap v)) in
      let '(k, p, start) := getMethodExact M (str "OnStart") [] k p in
      let '(k, p, update) := getMethodExact M (str "OnUpdate") (str "single") k p in
      let '(k, p, destory) := getMethodExact M (str "OnDestory") [] k p in
      let h := mkHeap (next_class (heap v)) (<[c := k]> (class_at (heap v))) p in
      let v := mkVM (domain v) (scriptDomain v) (corlibAssembly v) (assemblies v) (assembly_at v) (next_assembly v) h in
      Ret (mkMonoScript (script_name s) (className s) (Some object) update start destory, v,
        log ++ setValue k object (Handle e) (str "_internal_entity_handle")
            ++ setValue k object (TransformAt t) (str "_internal_entity_handle") ++ [Construct object])
  end.
(** The constructor. *)
Definition make_script (e : N) (t : option N) (name : cstring) (v : MonoVirtualMachine) (log : list call) : outcome (MonoScript * MonoVirtualMachine * list call) :=
  loadFunction e t (mkMonoScript name (StringUtils.getFileNameWithoutExtension win32 name) None None None None) v log.

(** [invokeVirtual] of a function that is there, on the object of the script. *)
Definition invoke (func : option N) (s : MonoScript) (dt : option N) (v : MonoVirtualMachine) : outcome (list call) :=
  match func with
  | None => Ret []
  | Some m => object ← deref (scriptObject s); method ← deref (wrapped (pool (heap v)) !! m); Ret [Invoke method object dt]
  end.
Definition script_onStart (s : MonoScript) (v : MonoVirtualMachine) : outcome (list call) := invoke (startFunc s) s None v.
Definition script_onUpdate (dt : N) (s : MonoScript) (v : MonoVirtualMachine) : outcome (list call) := invoke (updateFunc s) s (Some dt) v.
Definition script_destroy (s : MonoScript) (v : MonoVirtualMachine) : outcome (list call) := invoke (destoryFunc s) s None v.

Definition addScript (name : cstring) (m : MonoComponent) (v : MonoVirtualMachine) (log : list call) : outcome (MonoComponent * MonoVirtualMachine * list call) :=
  match scripts m !! name with
  | Some _ => Ret (m, v, log)
  | None => '(s, v, log) ← make_script (entity m) (transform m) name v log; Ret (with_scripts (<[name := s]> (scripts m)) m, v, log)
  end.
Definition remove (script : cstring) (m : MonoComponent) (v : MonoVirtualMachine) (log : list call) : outcome (MonoComponent * list call) :=
  match scripts m !! script with
  | None => Ret (m, log)
  | Some s => l ← script_destroy s v; Ret (with_scripts (delete script (scripts m)) m, log ++ l)
  end.

(** [MonoSystem::onStart] and [onUpdate], and the handler of [RecompileScriptsEvent]. *)
Fixpoint run_scripts (run : MonoScript -> MonoVirtualMachine -> outcome (list call)) (m : MonoComponent) (names : list cstring) (v : MonoVirtualMachine)
    : outcome (list call) :=
  match names with
  | [] => Ret []
  | name :: names => s ← deref (scripts m !! name); l ← run s v; rest ← run_scripts run m names v; Ret (l ++ rest)
  end.
Fixpoint run_components (run : MonoScript -> MonoVirtualMachine -> outcome (list call)) (view : list MonoComponent) (v : MonoVirtualMachine) : outcome (list call) :=
  match view with
  | [] => Ret []
  | m :: view => l ← run_scripts run m (script_order (scripts m)) v; rest ← run_components run view v; Ret (l ++ rest)
  end.
Definition onStart (play : bool) (view : list MonoComponent) (v : MonoVirtualMachine) : outcome (list call) :=
  if play then run_components script_onStart view v else Ret [].
Definition onUpdate (play : bool) (dt : N) (view : list MonoComponent) (v : MonoVirtualMachine) : outcome (list call) :=
  if play then run_components (script_onUpdate dt) view v else Ret [].

Fixpoint reload_scripts (names : list cstring) (m : MonoComponent) (v : MonoVirtualMachine) (log : list call) : outcome (MonoComponent * MonoVirtualMachine * list call) :=
  match names with
  | [] => Ret (m, v, log)
  | name :: names =>
      s ← deref (scripts m !! name);
      '(s, v, log) ← loadFunction (entity m) (transform m) s v log;
      reload_scripts names (with_scripts (<[name := s]> (scripts m)) m) v log
  end.
Fixpoint compileHandler (view : list MonoComponent) (v : MonoVirtualMachine) (log : list call) : outcome (list MonoComponent * MonoVirtualMachine * list call) :=
  match view with
  | [] => Ret ([], v, log)
  | m :: view =>
      '(m, v, log) ← reload_scripts (script_order (scripts m)) m v log;
      '(view, v, log) ← compileHandler view v log;
      Ret (m :: view, v, log)
  end.
End Scripts.
End MonoScript.

(** ** Properties *)
Module MonoProps.
Import Mono MonoHelper MonoClass MonoAssembly MonoVM MonoScript.

(** *** Names *)
Section Names.
Context (M : Runtime).
(** A class is nested to a finite depth. *)
Definition nesting_finite : Prop := forall r p, nesting_type M r = Some p -> (depth M p < depth M r)%nat.
Context (Hdeep : nesting_finite).

Lemma nesting_loop_suffix n : forall c s t, nesting_loop M n c (s ++ t) = (x ← nesting_loop M n c s; Ret (fst x, snd x ++ t)).
Proof.
  induction n as [|n IH]; intros c s t; [done|]. cbn -[str]. destruct (nesting_type M c) as [p|]; [|by cbn; rewrite app_assoc].
  by rewrite !app_assoc, IH.
Qed.
Lemma nesting_loop_total n : forall c s, (depth M c < n)%nat -> exists ns t, forall m, (n <= m)%nat -> nesting_loop M m c s = Ret (ns, t).
Proof.
  induction n as [|n IH]; intros c s Hn; [lia|]. destruct (nesting_type M c) as [p|] eqn:Hp.
  - destruct (IH p (str "+" ++ class_name M c ++ s)) as (ns & t & H); [pose proof (Hdeep _ _ Hp); lia|]. exists ns, t.
    intros [|m] Hm; [lia|]. cbn -[str]. rewrite Hp. apply H. lia.
  - exists (class_namespace M c), (class_name M c ++ s). intros [|m] Hm; [lia|]. cbn. by rewrite Hp.
Qed.

(** The name of a nested class is that of the class around it, a plus sign and its
    own; its namespace is that of the outermost class. *)
Lemma getClassName_nested r p : nesting_type M r = Some p ->
  exists ns t, getClassName M p = Ret (ns, t) /\ getClassName M r = Ret (ns, t ++ str "+" ++ class_name M r).
Proof.
  intros Hp. pose proof (Hdeep _ _ Hp) as Hd. unfold getClassName. rewrite Hp. destruct (depth M r) as [|n]; [lia|]. cbn -[str].
  destruct (nesting_type M p) as [q|] eqn:Hq; [|by eexists _, _].
  pose proof (Hdeep _ _ Hq). destruct (nesting_loop_total (depth M p) q (str "+" ++ class_name M p)) as (ns & t & H1); [lia|].
  exists ns, t. split; [by apply H1|]. rewrite app_assoc, nesting_loop_suffix, H1 by lia. done.
Qed.
Lemma getClassName_total r : exists ns t, getClassName M r = Ret (ns, t).
Proof.
  destruct (nesting_type M r) as [p|] eqn:Hp; [|unfold getClassName; rewrite Hp; by eexists _, _].
  destruct (getClassName_nested r p Hp) as (ns & t & _ & H). by eexists _, _.
Qed.
End Names.

(** *** Members *)
Section Members.
Context (M : Runtime).

Definition bounded (p : Pool) : Prop := forall m, is_Some (wrapped p !! m) -> (m < fresh p)%N.
Definition keeps `{Countable K} (good : K -> N -> Prop) (c : gmap K N) (p : Pool) : Prop :=
  forall id m, c !! id = Some m -> exists x, wrapped p !! m = Some x /\ good id x.

Lemma make_shared_spec x p : bounded p ->
  bounded (fst (make_shared x p)) /\ wrapped p ⊆ wrapped (fst (make_shared x p)) /\ wrapped (fst (make_shared x p)) !! snd (make_shared x p) = Some x.
Proof.
  intros Hp. assert (wrapped p !! fresh p = None) as Hn.
  { destruct (wrapped p !! fresh p) eqn:E; [|done]. assert (is_Some (wrapped p !! fresh p)) as H by by eexists. apply Hp in H. lia. }
  split_and!; cbn; [|by apply insert_subseteq|by rewrite lookup_insert_eq].
  intros m. cbn. destruct (decide (m = fresh p)) as [->|Hm]; [rewrite lookup_insert_eq; lia|]. rewrite lookup_insert_ne by done. intros H%Hp. lia.
Qed.
Lemma keeps_mono `{Countable K} good (c : gmap K N) p p' : wrapped p ⊆ wrapped p' -> keeps good c p -> keeps good c p'.
Proof. intros Hs Hk id m Hm. destruct (Hk id m Hm) as (x & Hx & Hg). exists x. split; [by eapply lookup_weaken|done]. Qed.
Lemma keeps_insert `{Countable K} good (c : gmap K N) p id m x : keeps good c p -> wrapped p !! m = Some x -> good id x -> keeps good (<[id := m]> c) p.
Proof.
  intros Hk Hm Hg i n. destruct (decide (i = id)) as [->|Hne]; [rewrite lookup_insert_eq; intros [= <-]; by eexists|]. rewrite lookup_insert_ne by done. apply Hk.
Qed.

(** A method name has no parenthesis, so the two kinds of keys differ. *)
Definition plain (name : cstring) : Prop := "("%char ∉ name.
Definition good_method (r : N) (id : cstring * Z) (x : N) : Prop :=
  (forall name n, plain name -> id = (name, n) -> method_from_name M r name (i32 n) = Some x)
  /\ (forall name signature, plain name -> id = exact_id name signature -> find_exact M name signature (class_methods M r) = Some x).
Record sound (k : MapleMonoClass) (p : Pool) : Prop := mkSound {
  sound_pool : bounded p;
  sound_methods : keeps (good_method (clazz k)) (methods k) p;
  sound_fields : keeps (fun name x => field_from_name M (clazz k) name = Some x) (fields k) p;
  sound_properties : keeps (fun name x => property_from_name M (clazz k) name = Some x) (properties k) p
}.

Inductive request := Method (name : cstring) (numParams : Z) | Exact (name signature : cstring) | Field (name : cstring) | Property (name : cstring).
Definition ask (q : request) : MapleMonoClass -> Pool -> MapleMonoClass * Pool * option N :=
  match q with Method name n => getMethod M name n | Exact name s => getMethodExact M name s | Field name => getField M name | Property name => getProperty M name end.
Definition well_formed (q : request) : Prop := match q with Method name _ | Exact name _ => plain name | _ => True end.
(** What the runtime answers, without a cache. *)
Definition reference (r : N) (q : request) : option N :=
  match q with
  | Method name n => method_from_name M r name (i32 n)
  | Exact name s => find_exact M name s (class_methods M r)
  | Field name => field_from_name M r name
  | Property name => property_from_name M r name
  end.
Definition cached (q : request) (k : MapleMonoClass) : option N :=
  match q with Method name n => methods k !! (name, n) | Exact name s => methods k !! exact_id name s | Field name => fields k !! name | Property name => properties k !! name end.

Lemma first_paren (a b c d : cstring) : plain a -> plain b -> a ++ str "(" ++ c = b ++ str "(" ++ d -> a = b /\ c = d.
Proof.
  unfold plain. revert b. induction a as [|x a IH]; intros [|y b] Ha Hb; cbn; intros H; injection H as H; subst; try done.
  - exfalso. apply Hb. by left.
  - exfalso. apply Ha. by left.
  - rewrite not_elem_of_cons in Ha, Hb. destruct (IH b) as [-> ->]; tauto.
Qed.
Lemma exact_inj a b c d : plain a -> plain b -> exact_id a c = exact_id b d -> a = b /\ c = d.
Proof.
  intros Ha Hb [= H]. apply first_paren in H as [-> H]; [|done|done]. split; [done|]. by apply app_inj_2 in H as [H _].
Qed.
Lemma exact_not_plain a c name n : plain name -> exact_id a c <> (name, n).
Proof. intros Hp [= H _]. apply Hp. rewrite <- H. apply elem_of_app. right. by left. Qed.

Definition grows (k k' : MapleMonoClass) (p p' : Pool) : Prop :=
  clazz k' = clazz k /\ wrapped p ⊆ wrapped p' /\ forall q x, cached q k = Some x -> cached q k' = Some x.
Lemma grows_refl k p : grows k k p p.
Proof. by split_and!. Qed.
Lemma grows_trans k1 k2 k3 p1 p2 p3 : grows k1 k2 p1 p2 -> grows k2 k3 p2 p3 -> grows k1 k3 p1 p3.
Proof. intros (H1 & H2 & H3) (H4 & H5 & H6). split_and!; [congruence|by etrans|auto]. Qed.

(** The shape the lookups share; [post] is what else is done to the pool. *)
Definition cache_ask `{Countable K} (post : N -> Pool -> Pool) (id : K) (target : option N) (c : gmap K N) (p : Pool) : gmap K N * Pool * option N :=
  match c !! id with
  | Some m => (c, p, Some m)
  | None => match target with None => (c, p, None) | Some x => let '(p, o) := make_shared x p in (<[id := o]> c, post x p, Some o) end
  end.
Definition twice (x : N) (p : Pool) : Pool := fst (make_shared x p).
Definition once (x : N) (p : Pool) : Pool := p.
Lemma cache_step `{Countable K} (post : N -> Pool -> Pool) (good : K -> N -> Prop) id target (c : gmap K N) p :
  (forall x p, bounded p -> bounded (post x p) /\ wrapped p ⊆ wrapped (post x p)) -> bounded p -> keeps good c p -> (forall x, good id x <-> target = Some x) ->
  exists c' p' a, cache_ask post id target c p = (c', p', a) /\ bounded p' /\ wrapped p ⊆ wrapped p' /\ keeps good c' p'
  /\ (a ≫= fun m => wrapped p' !! m) = target /\ (forall m, a = Some m -> c' !! id = Some m) /\ (forall i x, c !! i = Some x -> c' !! i = Some x).
Proof.
  intros Hpost Hb Hk Hg. unfold cache_ask. destruct (c !! id) as [m|] eqn:E.
  - exists c, p, (Some m). destruct (Hk _ _ E) as (x & Hx & Hgx). split_and!; try done; [cbn; rewrite Hx; symmetry; by apply Hg|congruence].
  - destruct target as [x|]; [|exists c, p, None; by split_and!].
    destruct (make_shared_spec x p Hb) as (Hb1 & Hs1 & Hw1). destruct (make_shared x p) as [p1 m1]. cbn in *. destruct (Hpost x p1 Hb1) as [Hb2 Hs2].
    exists (<[id := m1]> c), (post x p1), (Some m1). assert (wrapped (post x p1) !! m1 = Some x) as Hw by (by eapply lookup_weaken).
    split_and!; try done; [by etrans|apply (keeps_insert _ _ _ _ _ x); [apply (keeps_mono _ _ p); [by transitivity (wrapped p1)|done]|done|by apply Hg]|intros m [= <-]; by rewrite lookup_insert_eq|].
    intros i y Hi. rewrite lookup_insert_ne; [done|congruence].
Qed.
Lemma post_once x p : bounded p -> bounded (once x p) /\ wrapped p ⊆ wrapped (once x p).
Proof. done. Qed.
Lemma post_twice x p : bounded p -> bounded (twice x p) /\ wrapped p ⊆ wrapped (twice x p).
Proof. intros Hp. by destruct (make_shared_spec x p Hp) as (? & ? & _). Qed.

Lemma getMethod_cache name n k p :
  getMethod M name n k p = let '(c, p, a) := cache_ask twice (name, n) (method_from_name M (clazz k) name (i32 n)) (methods k) p in (with_methods c k, p, a).
Proof.
  unfold getMethod, cache_ask. destruct (methods k !! (name, n)); [by destruct k|]. destruct (method_from_name _ _ _ _); [|by destruct k].
  unfold twice. cbn. unfold emplace. by rewrite lookup_insert_eq.
Qed.
Lemma getMethodExact_cache name s k p :
  getMethodExact M name s k p = let '(c, p, a) := cache_ask once (exact_id name s) (find_exact M name s (class_methods M (clazz k))) (methods k) p in (with_methods c k, p, a).
Proof. unfold getMethodExact, cache_ask, emplace. destruct (methods k !! exact_id name s) eqn:E; [by destruct k|]. destruct (find_exact _ _ _ _); [done|by destruct k]. Qed.
Lemma getField_cache name k p :
  getField M name k p = let '(c, p, a) := cache_ask once name (field_from_name M (clazz k) name) (fields k) p in (with_fields c k, p, a).
Proof. unfold getField, cache_ask, emplace. destruct (fields k !! name) eqn:E; [by destruct k|]. destruct (field_from_name _ _ _); [done|by destruct k]. Qed.
Lemma getProperty_cache name k p :
  getProperty M name k p = let '(c, p, a) := cache_ask once name (property_from_name M (clazz k) name) (properties k) p in (with_properties c k, p, a).
Proof. unfold getProperty, cache_ask, emplace. destruct (properties k !! name) eqn:E; [by destruct k|]. destruct (property_from_name _ _ _); [done|by destruct k]. Qed.

Lemma good_plain r name n x : plain name -> good_method r (name, n) x <-> method_from_name M r name (i32 n) = Some x.
Proof.
  intros Hp. split; [intros [H _]; by apply (H name n)|]. intros H. split; [by intros ? ? _ [= <- <-]|]. intros a c _ E. exfalso. by eapply exact_not_plain.
Qed.
Lemma good_exact r name s x : plain name -> good_method r (exact_id name s) x <-> find_exact M name s (class_methods M r) = Some x.
Proof.
  intros Hp. split; [intros [_ H]; by apply (H name s)|]. intros H. split; [intros a n Ha E; exfalso; by eapply exact_not_plain|].
  intros a c Ha E. by destruct (exact_inj _ _ _ _ Hp Ha E) as [<- <-].
Qed.

(** One request: a sound answer, kept for the next time. *)
Lemma ask_sound q k p : sound k p -> well_formed q -> exists k' p' a, ask q k p = (k', p', a) /\ sound k' p' /\ grows k k' p p'
  /\ (a ≫= fun m => wrapped p' !! m) = reference (clazz k) q /\ (forall m, a = Some m -> cached q k' = Some m).
Proof.
  intros [Hb Hm Hf Hp] Hq. destruct q as [name n|name s|name|name]; cbn [ask reference cached well_formed] in *.
  - destruct (cache_step twice _ (name, n) (method_from_name M (clazz k) name (i32 n)) _ p post_twice Hb Hm) as (c & p' & a & E & Hb' & Hs & Hk & Ha & Hc & Hg);
      [intros x; by apply good_plain|]. exists (with_methods c k), p', a. rewrite getMethod_cache, E. split_and!; try done.
    + split; cbn; eauto using keeps_mono.
    + split_and!; [done|done|]. intros [] y; cbn; auto.
  - destruct (cache_step once _ (exact_id name s) (find_exact M name s (class_methods M (clazz k))) _ p post_once Hb Hm) as (c & p' & a & E & Hb' & Hs & Hk & Ha & Hc & Hg);
      [intros x; by apply good_exact|]. exists (with_methods c k), p', a. rewrite getMethodExact_cache, E. split_and!; try done.
    + split; cbn; eauto using keeps_mono.
    + split_and!; [done|done|]. intros [] y; cbn; auto.
  - destruct (cache_step once _ name (field_from_name M (clazz k) name) _ p post_once Hb Hf) as (c & p' & a & E & Hb' & Hs & Hk & Ha & Hc & Hg); [done|].
    exists (with_fields c k), p', a. rewrite getField_cache, E. split_and!; try done.
    + split; cbn; eauto using keeps_mono.
    + split_and!; [done|done|]. intros [] y; cbn; auto.
  - destruct (cache_step once _ name (property_from_name M (clazz k) name) _ p post_once Hb Hp) as (c & p' & a & E & Hb' & Hs & Hk & Ha & Hc & Hg); [done|].
    exists (with_properties c k), p', a. rewrite getProperty_cache, E. split_and!; try done.
    + split; cbn; eauto using keeps_mono.
    + split_and!; [done|done|]. intros [] y; cbn; auto.
Qed.

Lemma cached_wrapped q k p m : sound k p -> cached q k = Some m -> is_Some (wrapped p !! m).
Proof.
  intros [_ Hm Hf Hp]. destruct q; cbn; intros H; [apply Hm in H|apply Hm in H|apply Hf in H|apply Hp in H]; destruct H as (x & Hx & _); by exists x.
Qed.

(** A sequence of requests. *)
Fixpoint ask_all (qs : list request) (k : MapleMonoClass) (p : Pool) : MapleMonoClass * Pool * list (option N) :=
  match qs with
  | [] => (k, p, [])
  | q :: qs => let '(k, p, a) := ask q k p in let '(k, p, l) := ask_all qs k p in (k, p, a :: l)
  end.
Definition unwrap_in (p : Pool) (a : option N) : option N := a ≫= fun m => wrapped p !! m.
Lemma unwrap_grows k k' p p' a x : grows k k' p p' -> unwrap_in p a = Some x -> unwrap_in p' a = Some x.
Proof. intros (_ & Hs & _). destruct a as [m|]; [|done]. cbn. intros H. by eapply lookup_weaken. Qed.
Lemma ask_all_sound qs : forall k p, sound k p -> Forall well_formed qs -> exists k' p' l, ask_all qs k p = (k', p', l) /\ sound k' p' /\ grows k k' p p'
  /\ unwrap_in p' <$> l = reference (clazz k) <$> qs /\ Forall2 (fun q a => forall m, a = Some m -> cached q k' = Some m) qs l.
Proof.
  induction qs as [|q qs IH]; intros k p Hk Hq; [exists k, p, []; split_and!; try done; apply grows_refl|]. apply Forall_cons in Hq as [Hq Hqs].
  destruct (ask_sound q k p Hk Hq) as (k1 & p1 & a & E & Hk1 & Hg1 & Ha & Hc). destruct (IH k1 p1 Hk1 Hqs) as (k2 & p2 & l & E2 & Hk2 & Hg2 & Hl & Hc2).
  exists k2, p2, (a :: l). cbn [ask_all]. rewrite E, E2. split_and!; [done|done|by eapply grows_trans| |].
  - cbn. rewrite Hl. destruct Hg1 as (-> & _ & _). f_equal. rewrite <- Ha. destruct a as [m|]; [|done]. cbn.
    destruct (cached_wrapped q k1 p1 m Hk1 (Hc _ eq_refl)) as [x Hx]. rewrite Hx. by eapply (unwrap_grows _ _ _ _ (Some m)).
  - constructor; [|done]. intros m Hm. apply Hg2. by apply Hc.
Qed.

(** C34. Of a class just made, every sequence of requests for methods, fields and
    properties gets what the runtime would answer each time, and the same request
    always the same object. *)
Theorem members_as_asked ns name r p qs : bounded p -> Forall well_formed qs -> exists k p' l, ask_all qs (make ns name r) p = (k, p', l)
  /\ unwrap_in p' <$> l = reference r <$> qs /\ forall i j q, qs !! i = Some q -> qs !! j = Some q -> l !! i = l !! j.
Proof.
  intros Hp Hq. destruct (ask_all_sound qs (make ns name r) p) as (k & p' & l & E & Hk & _ & Hl & Hc); [by split|done|].
  exists k, p', l. split_and!; [done|done|]. intros i j q Hi Hj.
  destruct (Forall2_lookup_l _ _ _ _ _ Hc Hi) as (a & Ha & Hca), (Forall2_lookup_l _ _ _ _ _ Hc Hj) as (b & Hb & Hcb). rewrite Ha, Hb. f_equal.
  assert (forall i a, qs !! i = Some q -> l !! i = Some a -> unwrap_in p' a = reference r q) as Hraw.
  { intros i' a' Hi' Ha'. assert ((unwrap_in p' <$> l) !! i' = (reference r <$> qs) !! i') as E' by (by rewrite Hl). rewrite !list_lookup_fmap, Hi', Ha' in E'. by injection E'. }
  pose proof (Hraw i a Hi Ha) as Ra. pose proof (Hraw j b Hj Hb) as Rb.
  destruct a as [m|], b as [n|]; [rewrite <- (Hca m), <- (Hcb n) by done; done| | |done]; exfalso.
  - destruct (cached_wrapped q k p' m Hk (Hca _ eq_refl)) as [x Hx]. cbn in Ra, Rb. congruence.
  - destruct (cached_wrapped q k p' n Hk (Hcb _ eq_refl)) as [x Hx]. cbn in Ra, Rb. congruence.
Qed.

(** *** All members *)
Lemma collect_ask (f : N -> request) l : forall k p, collect (fun x => ask (f x)) l k p = ask_all (f <$> l) k p.
Proof. induction l as [|x l IH]; intros k p; [done|]. cbn. destruct (ask (f x) k p) as [[k1 p1] a]. by rewrite IH. Qed.

(** [getAllMethods] wraps each method of the class, in order, when no two have the
    same name and signature; asked again it gives the same list. *)
Lemma find_exact_self l m : m ∈ l -> (forall m', m' ∈ l -> method_name M m' = method_name M m -> Mono.method_signature M m' = Mono.method_signature M m -> m' = m) ->
  find_exact M (method_name M m) (Mono.method_signature M m) l = Some m.
Proof.
  induction l as [|x l IH]; [by intros ?%elem_of_nil|]. intros Hm Hu. cbn. case_bool_decide as Hn; [case_bool_decide as Hs|]; cbn.
  - f_equal. apply Hu; [by left|done|done].
  - apply elem_of_cons in Hm as [->|Hm]; [done|]. apply IH; [done|]. intros m' H'. apply Hu. by right.
  - apply elem_of_cons in Hm as [->|Hm]; [done|]. apply IH; [done|]. intros m' H'. apply Hu. by right.
Qed.
Lemma getAllMethods_lists k p : sound k p -> hasCachedMethods k = false ->
  (forall m, m ∈ class_methods M (clazz k) -> plain (method_name M m)) ->
  (forall m m', m ∈ class_methods M (clazz k) -> m' ∈ class_methods M (clazz k) -> method_name M m' = method_name M m -> Mono.method_signature M m' = Mono.method_signature M m -> m' = m) ->
  exists k' p' l, getAllMethods M k p = (k', p', l) /\ sound k' p' /\ grows k k' p p' /\ unwrap_in p' <$> l = Some <$> class_methods M (clazz k) /\ getAllMethods M k' p' = (k', p', l).
Proof.
  intros Hk Hf Hplain Hu. unfold getAllMethods. rewrite Hf.
  rewrite (collect_ask (fun m => Exact (method_name M m) (Mono.method_signature M m))).
  destruct (ask_all_sound ((fun m => Exact (method_name M m) (Mono.method_signature M m)) <$> class_methods M (clazz k)) k p Hk) as (k1 & p1 & l & E & Hk1 & Hg & Hl & _).
  { apply Forall_fmap, Forall_forall. intros m Hm. by apply Hplain. }
  rewrite E. exists (with_method_list true l k1), p1, l. split_and!; [done| | | |done].
  - by destruct Hk1 as [H1 H2 H3 H4].
  - destruct Hg as (H1 & H2 & H3). split_and!; [done|done|]. intros [] x; cbn; apply (H3 (Method _ _)) || apply (H3 (Exact _ _)) || apply (H3 (Field _)) || apply (H3 (Property _)).
  - rewrite Hl, <- list_fmap_compose. apply list_fmap_ext. intros i m Hm%list_elem_of_lookup_2. cbn. apply find_exact_self; [done|]. intros m' Hm'. by apply Hu.
Qed.
End Members.

(** *** Classes *)
Section Classes.
Context (M : Runtime) (definition : N -> bool).

(** The runtime's own separator of nested classes is not used in names. *)
Definition plain_class (n : cstring) : Prop := "/"%char ∉ n.
(** What metadata guarantee: [definition] singles out the classes that are defined
    in an image, from arrays and instances of generic classes. *)
Record Metadata : Prop := mkMetadata {
  meta_deep : nesting_finite M;
  meta_found : forall img ns n r, plain_class n -> class_from_name M img ns n = Some r ->
    definition r = true /\ class_image M r = img /\ getClassName M r = Ret (ns, n);
  meta_top : forall r, definition r = true -> nesting_type M r = None -> is_Some (class_from_name M (class_image M r) (class_namespace M r) (class_name M r));
  meta_distinct : forall r r', definition r = true -> definition r' = true -> class_image M r = class_image M r' -> getClassName M r = getClassName M r' -> r = r';
  meta_nested : forall p r, r ∈ nested_types M p ->
    nesting_type M r = Some p /\ class_image M r = class_image M p /\ definition r = true /\ (Mono.height M r < Mono.height M p)%nat;
  meta_table : forall img r, r ∈ type_table M img ->
    definition r = true /\ class_image M r = img /\ forall ns n, getClassName M r = Ret (ns, n) -> plain_class n
}.
Context (Hmeta : Metadata) (img : N).

Definition own (r : N) : Prop := definition r = true /\ class_image M r = img.
Definition wraps (h : Heap) (c r : N) : Prop := exists k, class_at h !! c = Some k /\ clazz k = r /\ getClassName M r = Ret (nameSpace k, typeName k).
Record Inv (a : MapleMonoAssembly) (h : Heap) : Prop := mkInv {
  inv_image : monoImage a = Some img;
  inv_heap : forall c, is_Some (class_at h !! c) -> (c < next_class h)%N;
  inv_classes : forall ns n c, classes a !! (ns, n) = Some c -> exists r, wraps h c r /\ getClassName M r = Ret (ns, n) /\ own r /\ classesByRaw a !! r = Some c;
  inv_raw : forall r c, classesByRaw a !! r = Some c -> wraps h c r /\ own r /\ forall ns n, getClassName M r = Ret (ns, n) -> isGenericClass n = false -> classes a !! (ns, n) = Some c
}.
Definition extends (a a' : MapleMonoAssembly) (h h' : Heap) : Prop := classes a ⊆ classes a' /\ class_at h ⊆ class_at h' /\ (next_class h <= next_class h')%N.
Lemma class_extends_refl a h : extends a a h h.
Proof. split_and!; [done|done|lia]. Qed.
Lemma class_extends_trans a1 a2 a3 h1 h2 h3 : extends a1 a2 h1 h2 -> extends a2 a3 h2 h3 -> extends a1 a3 h1 h3.
Proof. intros (H1 & H2 & H3) (H4 & H5 & H6). split_and!; [by etrans|by etrans|lia]. Qed.
Lemma wraps_mono h h' c r : class_at h ⊆ class_at h' -> wraps h c r -> wraps h' c r.
Proof. intros Hs (k & Hk & H). exists k. split; [by eapply lookup_weaken|done]. Qed.

Lemma new_class_spec ns n r h : (forall c, is_Some (class_at h !! c) -> (c < next_class h)%N) -> getClassName M r = Ret (ns, n) ->
  class_at h ⊆ class_at (fst (new_class ns n r h)) /\ wraps (fst (new_class ns n r h)) (next_class h) r /\ (next_class h < next_class (fst (new_class ns n r h)))%N
  /\ forall c, is_Some (class_at (fst (new_class ns n r h)) !! c) -> (c < next_class (fst (new_class ns n r h)))%N.
Proof.
  intros Hh Hn. assert (class_at h !! next_class h = None) as Hf.
  { destruct (class_at h !! next_class h) eqn:E; [|done]. assert (next_class h < next_class h)%N by (apply Hh; by eexists). lia. }
  split_and!; cbn; [by apply insert_subseteq|exists (make ns n r); cbn; by rewrite lookup_insert_eq|lia|].
  intros c. destruct (decide (c = next_class h)) as [->|Hne]; [lia|]. rewrite lookup_insert_ne by done. intros H%Hh. lia.
Qed.

(** A class registered under its name, if [b], and by its pointer. *)
Definition register (b : bool) (ns n : cstring) (r c : N) (a : MapleMonoAssembly) : MapleMonoAssembly :=
  with_classes (if b then <[(ns, n) := c]> (classes a) else classes a) (<[r := c]> (classesByRaw a)) a.
Lemma register_Inv b ns n r a h : Inv a h -> own r -> getClassName M r = Ret (ns, n) -> classes a !! (ns, n) = None -> (b = false -> isGenericClass n = true) ->
  Inv (register b ns n r (next_class h) a) (fst (new_class ns n r h)) /\ extends a (register b ns n r (next_class h) a) h (fst (new_class ns n r h)).
Proof.
  intros [Hi Hh Hc Hr] Hown Hn Hnone Hb. destruct (new_class_spec ns n r h Hh Hn) as (Hs & Hw & Hlt & Hh').
  set (h' := fst (new_class ns n r h)) in *. split.
  - split; [done|done| |].
    + intros ns' n' c. cbn. assert (classes a !! (ns', n') = Some c -> (ns', n') <> (ns, n)) as Hne by congruence.
      assert (classes a !! (ns', n') = Some c -> exists r0, wraps h' c r0 /\ getClassName M r0 = Ret (ns', n') /\ own r0 /\ <[r:=next_class h]> (classesByRaw a) !! r0 = Some c) as Hold.
      { intros H. destruct (Hc _ _ _ H) as (r0 & Hw0 & Hn0 & Ho0 & Hr0). exists r0. split_and!; [by eapply wraps_mono|done|done|].
        rewrite lookup_insert_ne; [done|]. intros ->. apply Hne; congruence. }
      destruct b; [|done]. destruct (decide ((ns', n') = (ns, n))) as [E|E]; [|by rewrite lookup_insert_ne].
      rewrite E, lookup_insert_eq. intros [= <-]. injection E as -> ->. exists r. split_and!; [done|done|apply Hown|by rewrite lookup_insert_eq].
    + intros r0 c. cbn. destruct (decide (r0 = r)) as [->|Hne].
      * rewrite lookup_insert_eq. intros [= <-]. split_and!; [done|apply Hown|]. intros ns' n' E Hg. rewrite Hn in E. injection E as <- <-.
        destruct b; [by rewrite lookup_insert_eq|]. rewrite Hb in Hg by done. done.
      * rewrite lookup_insert_ne by done. intros H. destruct (Hr _ _ H) as (Hw0 & Ho0 & Hreg). split_and!; [by eapply wraps_mono|apply Ho0|].
        intros ns' n' E Hg. specialize (Hreg _ _ E Hg). destruct b; [|done]. rewrite lookup_insert_ne; [done|congruence].
  - split_and!; [|done|lia]. cbn. destruct b; [by apply insert_subseteq|done].
Qed.

(** Requests for a class, by name and by pointer. *)
Inductive class_request := ByName (ns n : cstring) | ByPointer (r : N).
Definition ask_class (q : class_request) : MapleMonoAssembly -> Heap -> outcome (MapleMonoAssembly * Heap * option N) :=
  match q with ByName ns n => getClass M ns n | ByPointer r => getClass_raw M (Some r) end.
Definition askable (q : class_request) : Prop := match q with ByName _ n => plain_class n | ByPointer r => definition r = true end.
(** What the answer has to be, and when there may be none. *)
Definition meets (q : class_request) (r : N) : Prop := match q with ByName ns n => getClassName M r = Ret (ns, n) | ByPointer r' => r = r' end.
Definition absent (q : class_request) : Prop := match q with ByName ns n => class_from_name M img ns n = None | ByPointer r => class_image M r <> img end.

Lemma same_name a h ns n c r : Inv a h -> classes a !! (ns, n) = Some c -> own r -> getClassName M r = Ret (ns, n) -> classesByRaw a !! r = Some c.
Proof.
  intros HI Hc [Hd Hi] Hn. destruct (inv_classes _ _ HI _ _ _ Hc) as (r0 & _ & Hn0 & [Hd0 Hi0] & Hr). assert (r = r0) as ->; [|done].
  apply (meta_distinct Hmeta); [done|done|congruence|congruence].
Qed.

(** Requests by name and by pointers to definitions: classes found before stay
    where they are. *)
Lemma definition_requests q a h : Inv a h -> askable q -> exists a' h' c, ask_class q a h = Ret (a', h', c) /\ Inv a' h' /\ extends a a' h h'
  /\ match c with
     | Some c => (exists r, wraps h' c r /\ own r /\ meets q r) /\ ask_class q a' h' = Ret (a', h', Some c)
     | None => absent q /\ a' = a /\ h' = h
     end.
Proof.
  intros HI Hq. destruct q as [ns n|r]; cbn in Hq |- *.
  - unfold getClass. destruct (classes a !! (ns, n)) as [c|] eqn:Ec.
    + exists a, h, (Some c). destruct (inv_classes _ _ HI _ _ _ Ec) as (r & Hw & Hn & Ho & _).
      split_and!; [done|done|apply class_extends_refl|by exists r|by rewrite Ec].
    + rewrite (inv_image _ _ HI). cbn [deref]. rewrite bind_Ret. destruct (class_from_name M img ns n) as [r|] eqn:Er.
      * destruct (meta_found Hmeta _ _ _ _ Hq Er) as (Hd & Hi & Hn). destruct (register_Inv true ns n r a h HI (conj Hd Hi) Hn Ec) as [HI' He]; [done|].
        eexists _, _, (Some (next_class h)). split_and!; [done|apply HI'|apply He| |].
        -- exists r. split_and!; [by eapply new_class_spec; [apply (inv_heap _ _ HI)|]|done|done].
        -- cbn. by rewrite lookup_insert_eq.
      * exists a, h, None. split_and!; try done; apply class_extends_refl.
  - destruct (classesByRaw a !! r) as [c|] eqn:Ec.
    + exists a, h, (Some c). destruct (inv_raw _ _ HI _ _ Ec) as (Hw & Ho & _). split_and!; [done|done|apply class_extends_refl|by exists r|by rewrite Ec].
    + destruct (getClassName_total M (meta_deep Hmeta) r) as (ns & n & Hn). rewrite Hn, bind_Ret. cbn -[new_class]. rewrite (inv_image _ _ HI).
      destruct (decide (class_image M r = img)) as [Hi|Hi].
      * rewrite bool_decide_eq_false_2 by (intros H; apply H; by rewrite Hi).
        destruct (register_Inv true ns n r a h HI (conj Hq Hi) Hn) as [HI' He]; [|done|].
        { destruct (classes a !! (ns, n)) as [c|] eqn:E; [|done]. rewrite (same_name a h ns n c r) in Ec; done. }
        eexists _, _, (Some (next_class h)). split_and!; [done|apply HI'|apply He| |].
        -- exists r. split_and!; [by eapply new_class_spec; [apply (inv_heap _ _ HI)|]|done|done].
        -- cbn. by rewrite lookup_insert_eq.
      * rewrite bool_decide_eq_true_2 by congruence. exists a, h, None. split_and!; try done; apply class_extends_refl.
Qed.

(** What holds whatever pointers were asked for, instances of generic classes
    included, which have the name of the generic class. *)
Record Kept (a : MapleMonoAssembly) (h : Heap) : Prop := mkKept {
  kept_image : monoImage a = Some img;
  kept_heap : forall c, is_Some (class_at h !! c) -> (c < next_class h)%N;
  kept_classes : forall ns n c, classes a !! (ns, n) = Some c -> exists r, wraps h c r /\ getClassName M r = Ret (ns, n) /\ class_image M r = img;
  kept_raw : forall r c, classesByRaw a !! r = Some c -> wraps h c r /\ class_image M r = img;
  kept_named : forall r c ns n, classesByRaw a !! r = Some c -> getClassName M r = Ret (ns, n) -> isGenericClass n = false -> is_Some (classes a !! (ns, n))
}.
Lemma Inv_Kept a h : Inv a h -> Kept a h.
Proof.
  intros [Hi Hh Hc Hr]. split; [done|done| | |].
  - intros ns n c H. destruct (Hc _ _ _ H) as (r & Hw & Hn & [_ Ho] & _). by exists r.
  - intros r c H. destruct (Hr _ _ H) as (Hw & [_ Ho] & _). done.
  - intros r c ns n H Hn Hg. destruct (Hr _ _ H) as (_ & _ & H'). by eexists; apply H'.
Qed.
Lemma register_Kept ns n r a h : Kept a h -> class_image M r = img -> getClassName M r = Ret (ns, n) ->
  Kept (register true ns n r (next_class h) a) (fst (new_class ns n r h)).
Proof.
  intros [Hi Hh Hc Hr Hkn] Himg Hn. destruct (new_class_spec ns n r h Hh Hn) as (Hs & Hw & Hlt & Hh').
  set (h' := fst (new_class ns n r h)) in *. split; [done|done| | |]; cbn.
  - intros ns' n' c. rewrite lookup_insert. case_decide as E; [injection E as <- <-; intros [= <-]; by exists r|].
    intros H. destruct (Hc _ _ _ H) as (r0 & Hw0 & ?). exists r0. split; [by eapply wraps_mono|done].
  - intros r0 c. rewrite lookup_insert. case_decide as E; [subst; by intros [= <-]|].
    intros H. destruct (Hr _ _ H) as (Hw0 & ?). split; [by eapply wraps_mono|done].
  - intros r0 c ns' n'. rewrite !lookup_insert. case_decide as E; [subst|]; intros H Hn' Hg; case_decide as E2; try by eexists.
    + destruct E2. congruence.
    + by eapply Hkn.
Qed.

(** The requests the engine can make: any pointer, any name without the separator. *)
Definition any_request (q : class_request) : Prop := match q with ByName _ n => plain_class n | ByPointer _ => True end.
(** The name [nm] was taken over by another class: one asked for by its pointer for
    the first time. *)
Definition taken_over (q : class_request) (a a' : MapleMonoAssembly) (nm : cstring * cstring) (c : option N) : Prop :=
  exists r, q = ByPointer r /\ getClassName M r = Ret nm /\ class_image M r = img /\ classesByRaw a !! r = None /\ classes a' !! nm = c.

Lemma any_requests q a h : Kept a h -> any_request q -> exists a' h' c, ask_class q a h = Ret (a', h', c) /\ Kept a' h' /\ class_at h ⊆ class_at h'
  /\ match c with
     | Some c => (exists r, wraps h' c r /\ class_image M r = img /\ meets q r) /\ ask_class q a' h' = Ret (a', h', Some c)
     | None => absent q /\ a' = a /\ h' = h
     end
  /\ (forall nm x, classes a !! nm = Some x -> classes a' !! nm = Some x \/ taken_over q a a' nm c)
  /\ (forall r x, classesByRaw a !! r = Some x -> classesByRaw a' !! r = Some x \/ exists ns n, q = ByName ns n /\ isGenericClass n = true).
Proof.
  intros HI Hq. destruct q as [ns n|r]; cbn in Hq |- *.
  - unfold getClass. destruct (classes a !! (ns, n)) as [c|] eqn:Ec.
    + exists a, h, (Some c). destruct (kept_classes _ _ HI _ _ _ Ec) as (r & Hw & Hn & Ho). split_and!; try done; [by exists r|by rewrite Ec|by left|by left].
    + rewrite (kept_image _ _ HI). cbn [deref]. rewrite bind_Ret. destruct (class_from_name M img ns n) as [r|] eqn:Er.
      * destruct (meta_found Hmeta _ _ _ _ Hq Er) as (_ & Hi & Hn). destruct (new_class_spec ns n r h (kept_heap _ _ HI) Hn) as (Hs & Hw & _).
        eexists _, _, (Some (next_class h)). split_and!; [done|by apply register_Kept|done|by exists r|cbn; by rewrite lookup_insert_eq| |]; cbn.
        -- intros nm x H. left. rewrite lookup_insert_ne; [done|congruence].
        -- intros r0 x H. destruct (decide (r0 = r)) as [->|Hne]; [|left; by rewrite lookup_insert_ne].
           right. exists ns, n. split; [done|]. apply not_false_iff_true. intros Hg.
           destruct (kept_named _ _ HI _ _ _ _ H Hn Hg) as [y Hy]. congruence.
      * exists a, h, None. split_and!; try done; by left.
  - destruct (classesByRaw a !! r) as [c|] eqn:Ec.
    + exists a, h, (Some c). destruct (kept_raw _ _ HI _ _ Ec) as (Hw & Ho). split_and!; try done; [by exists r|by rewrite Ec|by left|by left].
    + destruct (getClassName_total M (meta_deep Hmeta) r) as (ns & n & Hn). rewrite Hn, bind_Ret. cbn -[new_class]. rewrite (kept_image _ _ HI).
      destruct (decide (class_image M r = img)) as [Hi|Hi].
      * rewrite bool_decide_eq_false_2 by (intros H; apply H; by rewrite Hi). destruct (new_class_spec ns n r h (kept_heap _ _ HI) Hn) as (Hs & Hw & _).
        eexists _, _, (Some (next_class h)). split_and!; [done|by apply register_Kept|done|by exists r|cbn; by rewrite lookup_insert_eq| |]; cbn.
        -- intros nm x H. rewrite lookup_insert. case_decide as E; [right|by left]. exists r. subst nm. split_and!; try done. cbn. by rewrite lookup_insert_eq.
        -- intros r0 x H. left. rewrite lookup_insert_ne; [done|congruence].
      * rewrite bool_decide_eq_true_2 by congruence. exists a, h, None. split_and!; try done; by left.
Qed.

(** C33. In an assembly that is loaded every request for a class, by a name or by any
    pointer, is answered with a wrapper of a class of the image that has that name
    or is that pointer, with the same one the next time, and with none only if the
    image has no such class; a name found before keeps its wrapper unless a
    pointer to another class of that name is asked for the first time (an instance
    of a generic class, which takes the name over), and a pointer keeps its own
    unless the name of a generic class is asked.  Among requests by name and by
    pointers to definitions, the answer to a name is the definition, and nothing
    found before is lost. *)
Theorem class_requests q a h : Kept a h -> any_request q -> exists a' h' c, ask_class q a h = Ret (a', h', c) /\ Kept a' h' /\ class_at h ⊆ class_at h'
  /\ match c with
     | Some c => (exists r, wraps h' c r /\ class_image M r = img /\ meets q r) /\ ask_class q a' h' = Ret (a', h', Some c)
     | None => absent q /\ a' = a /\ h' = h
     end
  /\ (forall nm x, classes a !! nm = Some x -> classes a' !! nm = Some x \/ taken_over q a a' nm c)
  /\ (forall r x, classesByRaw a !! r = Some x -> classesByRaw a' !! r = Some x \/ exists ns n, q = ByName ns n /\ isGenericClass n = true)
  /\ (Inv a h -> askable q -> Inv a' h' /\ extends a a' h h' /\ forall c0, c = Some c0 -> exists r, wraps h' c0 r /\ own r /\ meets q r).
Proof.
  intros HK Hq. destruct (any_requests q a h HK Hq) as (a' & h' & c & E & HK' & Hs & Hc & Hn & Hr).
  exists a', h', c. split_and!; [done..|]. intros HI Ha. destruct (definition_requests q a h HI Ha) as (a2 & h2 & c2 & E2 & HI' & He & Hc2).
  rewrite E in E2. injection E2 as <- <- <-. split_and!; [done|apply He..|]. intros c0 ->. apply Hc2.
Qed.

(** The lookup of a nested class, whose name the caller puts together. *)
Lemma nested_found ns t p r a h : Inv a h -> own p -> getClassName M p = Ret (ns, t) -> r ∈ nested_types M p ->
  own r /\ getClassName M r = Ret (ns, t ++ str "+" ++ class_name M r)
  /\ exists a' h' c, getClass_nested ns (t ++ str "+" ++ class_name M r) (Some r) a h = (a', h', Some c) /\ Inv a' h' /\ extends a a' h h' /\ wraps h' c r.
Proof.
  intros HI [Hd Hi] Hp Hr. destruct (meta_nested Hmeta _ _ Hr) as (Hnest & Himg & Hdef & _).
  destruct (getClassName_nested M (meta_deep Hmeta) r p Hnest) as (ns' & t' & Hp' & Hn). rewrite Hp in Hp'. injection Hp' as <- <-.
  assert (own r) as Ho by (split; [done|congruence]). split; [exact Ho|split; [exact Hn|]]. unfold getClass_nested. set (n := t ++ str "+" ++ class_name M r) in *.
  destruct (classesByRaw a !! r) as [c|] eqn:Ec.
  - exists a, h, c. split_and!; [done|done|apply class_extends_refl|by apply (inv_raw _ _ HI)].
  - assert (classes a !! (ns, n) = None) as Hnone.
    { destruct (classes a !! (ns, n)) as [c|] eqn:E; [|done]. rewrite (same_name a h ns n c r) in Ec; done. }
    destruct (register_Inv (negb (isGenericClass n)) ns n r a h HI Ho Hn Hnone) as [HI' He]; [by destruct (isGenericClass n)|].
    exists (register (negb (isGenericClass n)) ns n r (next_class h) a), (fst (new_class ns n r h)), (next_class h).
    split_and!; [unfold register; cbn; by destruct (isGenericClass n)|apply HI'|apply He|by eapply new_class_spec; [apply (inv_heap _ _ HI)|]].
Qed.

(** *** All classes *)

(** The class of the attribute that marks generated classes. *)
Definition generated (g r : N) : bool := match custom_attrs M r with None => false | Some attrs => bool_decide (g ∈ attrs) end.
Definition attribute_of (h : Heap) (attribute : option N) (g : N) : Prop := exists c k, attribute = Some c /\ class_at h !! c = Some k /\ clazz k = g.
Definition kept (g : N) (l : list N) : list N := filter (fun r => generated g r = false) l.

Lemma attribute_mono h h' attribute g : class_at h ⊆ class_at h' -> attribute_of h attribute g -> attribute_of h' attribute g.
Proof. intros Hs (c & k & Ha & Hk & Hg). exists c, k. split_and!; [done|by eapply lookup_weaken|done]. Qed.
Lemma hasAttribute_spec h c r attribute g : wraps h c r -> attribute_of h attribute g -> hasAttribute M c attribute h = Ret (generated g r).
Proof.
  intros (k & Hk & <- & _) (ca & ka & -> & Hka & <-). unfold hasAttribute, generated. rewrite Hk. cbn [deref]. rewrite bind_Ret.
  destruct (custom_attrs M (clazz k)); [|done]. cbn [deref]. rewrite bind_Ret, Hka. done.
Qed.

(** The tree below a class, for a choice of its nested classes. *)
Fixpoint tree_of (kids : N -> list N) (n : nat) (r : N) : list N := match n with O => [] | S n => kids r ≫= fun c => c :: tree_of kids n c end.
Lemma nested_below_tree n r : nested_below M n r = tree_of (nested_types M) n r.
Proof. revert r. induction n as [|n IH]; intros r; [done|]. cbn. apply list_bind_ext_elem. intros c _. by rewrite IH. Qed.
Definition shown (g : N) (r : N) : list N := tree_of (fun r => kept g (nested_types M r)) (Mono.height M r) r.

Lemma tree_stable (kids : N -> list N) : (forall p r, r ∈ kids p -> r ∈ nested_types M p) ->
  forall n m r, (Mono.height M r <= n)%nat -> (Mono.height M r <= m)%nat -> tree_of kids n r = tree_of kids m r.
Proof.
  intros Hk. assert (forall r, Mono.height M r = 0%nat -> kids r = []) as H0.
  { intros r H0. destruct (kids r) as [|c l] eqn:E; [done|]. destruct (meta_nested Hmeta r c) as (_ & _ & _ & H); [apply Hk; rewrite E; by left|lia]. }
  induction n as [|n IH]; intros [|m] r Hn Hm; cbn; rewrite ?H0 by lia; try done.
  apply list_bind_ext_elem. intros c Hc. f_equal. destruct (meta_nested Hmeta r c) as (_ & _ & _ & H); [by apply Hk|]. apply IH; lia.
Qed.
Lemma tree_unfold (kids : N -> list N) r : (forall p r, r ∈ kids p -> r ∈ nested_types M p) ->
  tree_of kids (Mono.height M r) r = kids r ≫= fun c => c :: tree_of kids (Mono.height M c) c.
Proof.
  intros Hk. transitivity (tree_of kids (S (Mono.height M r)) r); [apply tree_stable; [done|lia|lia]|]. cbn. apply list_bind_ext_elem. intros c Hc. f_equal.
  apply tree_stable; [done| |lia]. destruct (meta_nested Hmeta r c) as (_ & _ & _ & H); [by apply Hk|lia].
Qed.
Lemma kept_nested g p r : r ∈ kept g (nested_types M p) -> r ∈ nested_types M p.
Proof. by intros [_ H]%list_elem_of_filter. Qed.

Lemma bind_cons_perm {A} (f : A -> list A) l : (l ≫= fun c => c :: f c) ≡ₚ l ++ (l ≫= f).
Proof. induction l as [|x l IH]; [done|]. cbn. rewrite IH. constructor. rewrite !app_assoc. apply Permutation_app_tail, Permutation_app_comm. Qed.

Lemma visit_all attribute g ns t p : own p -> getClassName M p = Ret (ns, t) -> forall rs a h acc todo,
  Inv a h -> attribute_of h attribute g -> (forall r, r ∈ rs -> r ∈ nested_types M p) -> exists a' h' cs,
  foldM (visit_nested M attribute ns t) rs (a, h, acc, todo) = Ret (a', h', acc ++ cs, reverse cs ++ todo)
  /\ Inv a' h' /\ extends a a' h h' /\ Forall2 (wraps h') cs (kept g rs).
Proof.
  intros Hp Hn. induction rs as [|r rs IH]; intros a h acc todo HI Ha Hrs.
  { exists a, h, []. cbn. rewrite app_nil_r. split_and!; [done|done|apply class_extends_refl|constructor]. }
  destruct (nested_found ns t p r a h HI Hp Hn) as (_ & _ & a1 & h1 & c & E & HI1 & He1 & Hw); [apply Hrs; by left|].
  assert (attribute_of h1 attribute g) as Ha1 by (eapply attribute_mono; [apply He1|done]).
  assert (visit_nested M attribute ns t r (a, h, acc, todo) = Ret (if generated g r then (a1, h1, acc, todo) else (a1, h1, acc ++ [c], c :: todo))) as Hv
    by (unfold visit_nested; by rewrite E, (hasAttribute_spec h1 c r attribute g Hw Ha1)).
  cbn [foldM]. rewrite Hv, bind_Ret. clear Hv.
  unfold kept. destruct (generated g r) eqn:Eg.
  - destruct (IH a1 h1 acc todo HI1 Ha1) as (a2 & h2 & cs & -> & HI2 & He2 & Hcs); [intros x Hx; apply Hrs; by right|].
    exists a2, h2, cs. split_and!; [done|done|by eapply class_extends_trans|]. by rewrite filter_cons_False by congruence.
  - destruct (IH a1 h1 (acc ++ [c]) (c :: todo) HI1 Ha1) as (a2 & h2 & cs & -> & HI2 & He2 & Hcs); [intros x Hx; apply Hrs; by right|].
    exists a2, h2, (c :: cs). rewrite reverse_cons, <- !app_assoc. split_and!; [done|done|by eapply class_extends_trans|]. rewrite filter_cons_True by done.
    constructor; [|done]. eapply wraps_mono; [apply He2|done].
Qed.
Lemma wraps_all h h' cs rs : class_at h ⊆ class_at h' -> Forall2 (wraps h) cs rs -> Forall2 (wraps h') cs rs.
Proof. intros Hs H. eapply Forall2_impl; [exact H|]. intros c r. by apply wraps_mono. Qed.

Lemma walk_all attribute g ns n : forall a h acc todo rs ts, Inv a h -> attribute_of h attribute g -> Forall2 (wraps h) acc rs -> Forall2 (wraps h) todo ts ->
  (forall t, t ∈ ts -> own t /\ exists tn, getClassName M t = Ret (ns, tn)) ->
  (length (ts ≫= fun t => t :: tree_of (nested_types M) (Mono.height M t) t) <= n)%nat -> exists a' h' acc' rs',
  nested_walk M n attribute ns (a, h, acc, todo) = Ret (a', h', acc', []) /\ Inv a' h' /\ extends a a' h h' /\ Forall2 (wraps h') acc' rs'
  /\ rs' ≡ₚ rs ++ (ts ≫= shown g).
Proof.
  induction n as [|n IH]; intros a h acc todo rs ts HI Ha Hacc Htodo Hts Hn; inversion Htodo as [|c t todo1 ts1 Hct Htodo1]; subst; cbn in Hn; try lia.
  1, 2: exists a, h, acc, rs; cbn; rewrite app_nil_r; split_and!; [done|done|apply class_extends_refl|done|done].
  cbn [nested_walk]. destruct Hct as (k & Hk & <- & Hkn). rewrite Hk. cbn [deref]. rewrite bind_Ret. set (t := clazz k) in *.
  destruct (Hts t) as [Hown (tn & Htn)]; [by left|]. rewrite Hkn in Htn. injection Htn as <- <-.
  destruct (visit_all attribute g (nameSpace k) (typeName k) t Hown Hkn (nested_types M t) a h acc todo1 HI Ha) as (a1 & h1 & cs & -> & HI1 & He1 & Hcs); [done|].
  rewrite bind_Ret. set (K := kept g (nested_types M t)) in *.
  assert (forall r, r ∈ K -> r ∈ nested_types M t) as HK by (intros r; apply kept_nested).
  destruct (IH a1 h1 (acc ++ cs) (reverse cs ++ todo1) (rs ++ K) (reverse K ++ ts1)) as (a2 & h2 & acc2 & rs2 & -> & HI2 & He2 & Hacc2 & Hperm).
  - done.
  - eapply attribute_mono; [apply He1|done].
  - apply Forall2_app; [eapply wraps_all; [apply He1|done]|done].
  - apply Forall2_app; [by apply Forall2_reverse|eapply wraps_all; [apply He1|done]].
  - intros r [Hr|Hr]%elem_of_app; [|apply Hts; by right]. apply elem_of_reverse, HK in Hr.
    destruct (nested_found (nameSpace k) (typeName k) t r a h HI Hown Hkn Hr) as (Hor & Hnr & _). split; [done|by eexists].
  - rewrite bind_app, length_app. rewrite length_app in Hn.
    enough (length (reverse K ≫= fun t => t :: tree_of (nested_types M) (Mono.height M t) t) <= length (tree_of (nested_types M) (Mono.height M t) t))%nat by lia.
    rewrite (bind_Permutation _ _ _ (reverse_Permutation K)), tree_unfold by done. apply sublist_length, bind_sublist, sublist_filter.
  - exists a2, h2, acc2, rs2. split_and!; [done|done|by eapply class_extends_trans|done|]. rewrite Hperm, bind_app, <- !app_assoc. apply Permutation_app_head. cbn.
    rewrite app_assoc. apply Permutation_app_tail. unfold shown at 2. rewrite tree_unfold by apply kept_nested. fold K.
    rewrite bind_cons_perm. apply Permutation_app_head. apply bind_Permutation, reverse_Permutation.
Qed.

Lemma shown_own g n : forall r x, own r -> x ∈ tree_of (fun r => kept g (nested_types M r)) n r -> own x /\ generated g x = false.
Proof.
  induction n as [|n IH]; intros r x [Hd Hi]; [by intros ?%elem_of_nil|]. cbn. intros (c & Hx & [Hg Hc]%list_elem_of_filter)%list_elem_of_bind.
  destruct (meta_nested Hmeta _ _ Hc) as (_ & Himg & Hdef & _). apply elem_of_cons in Hx as [->|Hx]; [split; [split; congruence|done]|]. apply (IH c); [split; congruence|done].
Qed.

Definition covers (g : N) (rows rs : list N) : Prop :=
  forall r x, r ∈ rows -> nesting_type M r = None -> generated g r = false -> x ∈ r :: shown g r -> x ∈ rs.
Definition within (g : N) (rs : list N) : Prop := forall x, x ∈ rs -> own x /\ generated g x = false.

Lemma row_done attribute g r a h acc rs : (forall ns n, getClassName M r = Ret (ns, n) -> plain_class n) -> own r ->
  Inv a h -> attribute_of h attribute g -> Forall2 (wraps h) acc rs -> within g rs -> exists a' h' acc' rs',
  visit_row M attribute r (a, h, acc) = Ret (a', h', acc') /\ Inv a' h' /\ extends a a' h h' /\ Forall2 (wraps h') acc' rs' /\ within g rs' /\ rs ⊆ rs' /\ covers g [r] rs'.
Proof.
  intros Hplain Hown HI Ha Hacc Hin. unfold visit_row. destruct (getClassName_total M (meta_deep Hmeta) r) as (ns & n & Hn). rewrite Hn, bind_Ret.
  destruct (definition_requests (ByName ns n) a h HI) as (a1 & h1 & c & E & HI1 & He1 & Hc); [by apply Hplain in Hn|]. cbn in E. rewrite E, bind_Ret.
  assert (Forall2 (wraps h1) acc rs) as Hacc1 by (eapply wraps_all; [apply He1|done]).
  assert (attribute_of h1 attribute g) as Ha1 by (eapply attribute_mono; [apply He1|done]). destruct c as [c|].
  - destruct Hc as [(r' & Hw & [Hd Hi] & Hn') _]. assert (r' = r) as -> by (destruct Hown; apply (meta_distinct Hmeta); [done|done|congruence|cbn in Hn'; congruence]).
    rewrite (hasAttribute_spec h1 c r attribute g Hw Ha1), bind_Ret. destruct (generated g r) eqn:Eg.
    + exists a1, h1, acc, rs. split_and!; try done. intros r0 x ->%list_elem_of_singleton _ H. congruence.
    + pose proof Hw as (k & Hk & Hkr & Hkn). rewrite Hk. cbn [deref]. rewrite bind_Ret, Hkr.
      destruct (walk_all attribute g ns (S (length (nested_below M (Mono.height M r) r))) a1 h1 acc [c] rs [r]) as (a2 & h2 & acc2 & rs2 & E2 & HI2 & He2 & Hacc2 & Hperm).
      * done.
      * done.
      * done.
      * by constructor.
      * intros t ->%list_elem_of_singleton. split; [done|by eexists].
      * cbn. rewrite app_nil_r, nested_below_tree. lia.
      * rewrite E2, bind_Ret. cbn in Hperm. rewrite app_nil_r in Hperm. exists a2, h2, (acc2 ++ [c]), (rs2 ++ [r]). split_and!; [done|done|by eapply class_extends_trans| | | |].
        -- apply Forall2_app; [done|]. constructor; [eapply wraps_mono; [apply He2|done]|done].
        -- intros x [Hx| ->%list_elem_of_singleton]%elem_of_app; [|done]. rewrite Hperm in Hx. apply elem_of_app in Hx as [Hx|Hx]; [by apply Hin|]. by eapply shown_own.
        -- intros x Hx. apply elem_of_app. left. rewrite Hperm. apply elem_of_app. by left.
        -- intros r0 x ->%list_elem_of_singleton _ _ Hx. apply elem_of_app. apply elem_of_cons in Hx as [->|Hx]; [right; by left|left]. rewrite Hperm. apply elem_of_app. by right.
  - destruct Hc as (Hnone & -> & ->). exists a, h, acc, rs. split_and!; try done. intros r0 x ->%list_elem_of_singleton Htop _ _. destruct Hown as [Hd Hi].
    destruct (meta_top Hmeta r Hd Htop) as [r' Hr']. unfold getClassName in Hn. rewrite Htop in Hn. injection Hn as <- <-. cbn in Hnone. congruence.
Qed.
Lemma rows_done attribute g rows : forall a h acc rs, (forall r, r ∈ rows -> own r /\ forall ns n, getClassName M r = Ret (ns, n) -> plain_class n) ->
  Inv a h -> attribute_of h attribute g -> Forall2 (wraps h) acc rs -> within g rs -> exists a' h' acc' rs',
  foldM (visit_row M attribute) rows (a, h, acc) = Ret (a', h', acc') /\ Inv a' h' /\ extends a a' h h' /\ Forall2 (wraps h') acc' rs' /\ within g rs' /\ rs ⊆ rs' /\ covers g rows rs'.
Proof.
  induction rows as [|r rows IH]; intros a h acc rs Hrows HI Ha Hacc Hin.
  - exists a, h, acc, rs. split_and!; try done. by intros r x ?%elem_of_nil.
  - destruct (Hrows r) as [Ho Hp]; [by left|]. destruct (row_done attribute g r a h acc rs Hp Ho HI Ha Hacc Hin) as (a1 & h1 & acc1 & rs1 & E & HI1 & He1 & Hacc1 & Hin1 & Hs1 & Hc1).
    destruct (IH a1 h1 acc1 rs1) as (a2 & h2 & acc2 & rs2 & E2 & HI2 & He2 & Hacc2 & Hin2 & Hs2 & Hc2); [intros x Hx; apply Hrows; by right|done|eapply attribute_mono; [apply He1|done]|done|done|].
    exists a2, h2, acc2, rs2. cbn [foldM]. rewrite E, bind_Ret. split_and!; try done; [by eapply class_extends_trans|by etrans|].
    intros r0 x [->|Hr]%elem_of_cons Htop Hg Hx; [apply Hs2, (Hc1 r x); [by left|done|done|done]|by apply (Hc2 r0 x)].
Qed.

Lemma with_list_Inv b l a h : Inv a h -> Inv (with_list b l a) h.
Proof. intros [H1 H2 H3 H4]. by split. Qed.

(** [getAllClasses] returns, and lists classes of the image that were not generated
    by the compiler, among them every such class of the type table and everything
    nested in it; asked again it gives the same list. *)
Theorem all_classes_listed attribute g a h : Inv a h -> haveCachedClassList a = false -> attribute_of h attribute g -> exists a' h' l rs,
  getAllClasses M attribute a h = Ret (a', h', l) /\ Inv a' h' /\ Forall2 (wraps h') l rs /\ within g rs /\ covers g (drop 1 (type_table M img)) rs
  /\ getAllClasses M attribute a' h' = Ret (a', h', l).
Proof.
  intros HI Hf Ha. unfold getAllClasses. rewrite Hf, (inv_image _ _ HI). cbn [deref]. rewrite bind_Ret.
  destruct (rows_done attribute g (drop 1 (type_table M img)) (with_list false [] a) h [] []) as (a1 & h1 & acc1 & rs1 & E & HI1 & _ & Hacc1 & Hin1 & _ & Hc1).
  - intros r Hr. destruct (meta_table Hmeta img r) as (Hd & Hi & Hp); [rewrite <- (take_drop 1 (type_table M img)); apply elem_of_app; by right|]. by split.
  - by apply with_list_Inv.
  - done.
  - constructor.
  - by intros x ?%elem_of_nil.
  - rewrite E, bind_Ret. exists (with_list true acc1 a1), h1, acc1, rs1. split_and!; [done|by apply with_list_Inv|done|done|done|done].
Qed.
End Classes.

(** *** Loading scripts again *)
Section Machine.
Context (M : Runtime) (order : gmap cstring (option N) -> list cstring) (open_image : FileSystem.bytes -> option N) (load_image : N -> option N).
Context (Horder : forall m name, name ∈ order m <-> is_Some (m !! name)).

(** Every name has an assembly. *)
Definition named (v : MonoVirtualMachine) (name : cstring) (i : N) (a : MapleMonoAssembly) : Prop := assemblies v !! name = Some (Some i) /\ assembly_at v !! i = Some a.
Definition all_named (v : MonoVirtualMachine) : Prop := forall name, is_Some (assemblies v !! name) -> exists i a, named v name i a.

Lemma unload_twice a : unload (unload a) = unload a.
Proof. destruct a as [nm pt im asm [] [] cs rs hc l]; done. Qed.
Lemma unload_loop_spec names : forall v, (forall name, name ∈ names -> exists i a, named v name i a) -> exists v', unload_loop names v = Ret v'
  /\ assemblies v' = assemblies v /\ heap v' = heap v /\ corlibAssembly v' = corlibAssembly v /\ scriptDomain v' = scriptDomain v /\ next_assembly v' = next_assembly v
  /\ (forall i, assembly_at v' !! i = assembly_at v !! i \/ assembly_at v' !! i = unload <$> assembly_at v !! i)
  /\ (forall name i, name ∈ names -> assemblies v !! name = Some (Some i) -> assembly_at v' !! i = unload <$> assembly_at v !! i).
Proof.
  induction names as [|name names IH]; intros v Hv; [exists v; split_and!; try done; [by left|by intros ? ? ?%elem_of_nil]|].
  destruct (Hv name) as (i & a & Hi & Ha); [by left|]. cbn. rewrite Hi. cbn. rewrite Ha. cbn. set (v1 := with_assembly i (unload a) (heap v) v).
  assert (forall j, assembly_at v1 !! j = if decide (j = i) then Some (unload a) else assembly_at v !! j) as Hv1.
  { intros j. unfold v1. cbn. destruct (decide (j = i)) as [->|Hj]; [by rewrite lookup_insert_eq|by rewrite lookup_insert_ne]. }
  destruct (IH v1) as (v' & E & H1 & H2 & H3 & H4 & H5 & Hany & Hall).
  { intros n Hn. destruct (Hv n) as (j & b & Hj & Hb); [by right|]. exists j. unfold named. change (assemblies v1) with (assemblies v). rewrite Hv1.
    destruct (decide (j = i)); [by exists (unload a)|by exists b]. }
  assert (forall j, assembly_at v' !! j = unload <$> assembly_at v !! j \/ j <> i /\ assembly_at v' !! j = assembly_at v !! j) as Hcase.
  { intros j. destruct (Hany j) as [->| ->]; rewrite Hv1; destruct (decide (j = i)) as [->|Hj]; rewrite ?Ha; cbn; rewrite ?unload_twice; auto. }
  exists v'. split_and!; try done; [intros j; destruct (Hcase j) as [?|[_ ?]]; auto|]. intros n j Hn Hj. apply elem_of_cons in Hn as [->|Hn].
  - rewrite Hi in Hj. injection Hj as <-. by destruct (Hcase i) as [?|[? _]].
  - rewrite (Hall n j Hn Hj), Hv1. destruct (decide (j = i)) as [->|]; [by rewrite Ha; cbn; rewrite unload_twice|done].
Qed.

Lemma find_loop_cons request name names v i a : named v name i a -> find_loop request (name :: names) v =
  ('(a, h, c) ← request a (heap v); match c with Some c => Ret (with_assembly i a h v, Some c) | None => find_loop request names (with_assembly i a h v) end).
Proof. intros [Hi Ha]. cbn. rewrite Hi. cbn. by rewrite Ha. Qed.

(** Lookups where nothing is kept make the wrapper of the first class found. *)
Lemma find_fresh ns n names : forall v, (forall name, name ∈ names -> exists i a img, named v name i a /\ classes a = ∅ /\ monoImage a = Some img) ->
  exists v' c, find_loop (getClass M ns n) names v = Ret (v', c)
  /\ match c with
     | Some c => c = next_class (heap v) /\ exists name i a img r, name ∈ names /\ named v name i a /\ monoImage a = Some img /\ class_from_name M img ns n = Some r
         /\ class_at (heap v') !! c = Some (make ns n r)
     | None => v' = v /\ forall name i a img, name ∈ names -> named v name i a -> monoImage a = Some img -> class_from_name M img ns n = None
     end.
Proof.
  induction names as [|name names IH]; intros v Hv; [exists v, None; split_and!; try done; by intros ? ? ? ? ?%elem_of_nil|].
  destruct (Hv name) as (i & a & img & [Hi Ha] & Hcs & Himg); [by left|]. rewrite (find_loop_cons _ _ _ _ i a) by done.
  unfold getClass at 2. rewrite Hcs, lookup_empty, Himg. cbn [deref]. rewrite bind_Ret. destruct (class_from_name M img ns n) as [r|] eqn:Er; cbn -[find_loop].
  - eexists _, (Some (next_class (heap v))). split; [done|]. split; [done|]. exists name, i, a, img, r. split_and!; [by left|by split|done|done|]. cbn. by rewrite lookup_insert_eq.
  - assert (with_assembly i a (heap v) v = v) as -> by (destruct v; unfold with_assembly; cbn in *; by rewrite insert_id).
    destruct (IH v) as (v' & c & E & Hc); [intros x Hx; apply Hv; by right|]. exists v', c. split; [exact E|]. destruct c as [c|].
    + destruct Hc as [-> (x & j & b & im & r & Hx & H)]. split; [done|]. exists x, j, b, im, r. split; [by right|done].
    + destruct Hc as [-> Hc]. split; [done|]. intros x j b im [->|Hx]%elem_of_cons [Hj Hb] Him; [|by apply (Hc x j b im)]. congruence.
Qed.

Lemma open_read (d : FileSystem.disk) path content : d !! path = Some (FileSystem.IFile content) -> Z.of_nat (length content) < 2 ^ 31 ->
  exists f, FileSystem.getBuffer d (snd (FileSystem.File_open d path false)) = Ret (content, f).
Proof.
  intros Hd Hl. unfold FileSystem.File_open. rewrite Hd. cbn -[Z.of_nat length]. unfold FileSystem.getBuffer, FileSystem.readBytes. cbn -[Z.of_nat length wrapS]. unwrap.
  rewrite decide_False by lia. cbn -[Z.of_nat length]. rewrite Hd. cbn -[Z.of_nat length]. rewrite drop_0, Nat2Z.id, firstn_all, Nat.sub_diag. cbn. rewrite app_nil_r. by eexists.
Qed.

(** Loading an assembly under a new name, in a new domain. *)
Lemma load_new v d dom path name content img asm : scriptDomain v = None -> assemblies v !! name = None ->
  d !! (path ++ name) = Some (FileSystem.IFile content) -> Z.of_nat (length content) < 2 ^ 31 -> open_image content = Some img -> load_image img = Some asm ->
  let i := next_assembly v in let a := make_assembly path name in
  loadAssembly open_image load_image d (Some dom) true path name v =
  Ret (mkVM (domain v) (Some dom) (corlibAssembly v) (<[name := Some i]> (assemblies v)) (<[i := with_image (Some img) (Some asm) true false a]> (<[i := a]> (assembly_at v))) (i + 1) (heap v), Some i).
Proof.
  intros Hs Hn Hd Hlen Hopen Hload i a. destruct (open_read d (path ++ name) content Hd Hlen) as (f & Ef).
  unfold loadAssembly, enter_domain. rewrite Hs, bind_Ret. cbn [with_scriptDomain assemblies]. rewrite Hn. cbn. fold i.
  unfold initializeAssembly. cbn. rewrite lookup_insert_eq. cbn. unfold load. cbn [loaded make_assembly asm_path asm_name].
  destruct (FileSystem.File_open d (path ++ name) false) as [d' f'] eqn:Eo. cbn [snd] in Ef.
  assert (d' = d) as -> by (unfold FileSystem.File_open in Eo; rewrite Hd in Eo; congruence). rewrite Ef. cbn. by rewrite Hopen, Hload.
Qed.

(** C35. Compiling again unloads every assembly and loads one: afterwards a class is
    looked for in the new image and in [corlib], and what is found is a wrapper made
    since, never one of a class of the domain that was left. *)
Theorem reload_finds_new_classes v j b cimg d dom path name content img asm :
  all_named v -> assemblies v !! str "corlib" = Some (Some j) -> corlibAssembly v = Some j -> assembly_at v !! j = Some b ->
  loaded b = true -> dependency b = true -> monoImage b = Some cimg ->
  name <> str "corlib" -> d !! (path ++ name) = Some (FileSystem.IFile content) -> Z.of_nat (length content) < 2 ^ 31 -> open_image content = Some img -> load_image img = Some asm ->
  (forall i a, assembly_at v !! i = Some a -> (i < next_assembly v)%N) ->
  exists v1 v2 i, unloadScriptDomain order v = Ret v1 /\ assemblies v1 = {[str "corlib" := Some j]}
  /\ loadAssembly open_image load_image d (Some dom) true path name v1 = Ret (v2, Some i) /\ scriptDomain v2 = Some dom
  /\ forall ns n, exists v3 c, findClass M order ns n v2 = Ret (v3, c)
     /\ match c with
        | Some c => c = next_class (heap v)
            /\ exists r, class_at (heap v3) !! c = Some (make ns n r) /\ (class_from_name M img ns n = Some r \/ class_from_name M cimg ns n = Some r)
        | None => class_from_name M img ns n = None /\ class_from_name M cimg ns n = None
        end.
Proof.
  intros Hv Hc Hcor Hb Hld Hdep Hcimg Hne Hd Hlen Hopen Hload Hbound.
  destruct (unload_loop_spec (order (assemblies v)) (with_scriptDomain None v)) as (v1 & E1 & H1 & H2 & H3 & H4 & H5 & Hany & Hall).
  { intros n Hn%Horder. destruct (Hv n Hn) as (i & a & Hia). by exists i, a. }
  assert (assembly_at v1 !! j = Some (unload b)) as Hj1.
  { rewrite (Hall (str "corlib") j); [cbn; by rewrite Hb|apply Horder; by eexists|done]. }
  set (i := next_assembly v). set (v1' := with_assemblies {[str "corlib" := Some j]} v1).
  set (a2 := with_image (Some img) (Some asm) true false (make_assembly path name)).
  set (v2 := mkVM (domain v1) (Some dom) (corlibAssembly v1) {[name := Some i; str "corlib" := Some j]} (<[i := a2]> (<[i := make_assembly path name]> (assembly_at v1))) (i + 1) (heap v1)).
  cbn [with_scriptDomain assemblies heap corlibAssembly scriptDomain next_assembly assembly_at] in *.
  assert (unloadScriptDomain order v = Ret v1') as Eu by (unfold unloadScriptDomain; change (assemblies (with_scriptDomain None v)) with (assemblies v); by rewrite E1, bind_Ret, H3, Hcor).
  assert (loadAssembly open_image load_image d (Some dom) true path name v1' = Ret (v2, Some i)) as El.
  { unfold v2, i. rewrite <- H5. apply (load_new v1' d dom path name content); [exact H4|by apply lookup_singleton_ne|done|done|done|done]. }
  exists v1', v2, i. split_and!; [done|done|done|done|]. intros ns n.
  assert (i <> j) as Hij by (intros <-; specialize (Hbound i b Hb); unfold i in Hbound; lia).
  assert (named v2 name i a2) as Hn1 by (split; cbn; by rewrite lookup_insert_eq).
  assert (named v2 (str "corlib") j (unload b)) as Hn2.
  { split; cbn -[str]; [rewrite lookup_insert_ne by done; apply lookup_singleton_eq|by rewrite !lookup_insert_ne by done]. }
  assert (classes (unload b) = ∅ /\ monoImage (unload b) = Some cimg) as [Hub1 Hub2] by (unfold unload; rewrite Hld; cbn; by rewrite Hdep).
  assert (forall x, x ∈ order (assemblies v2) <-> x = name \/ x = str "corlib") as Hnames.
  { intros x. rewrite Horder. cbn -[str]. destruct (decide (x = name)) as [->|Hx]; [rewrite lookup_insert_eq; split; [by left|by eexists]|].
    rewrite lookup_insert_ne by done. destruct (decide (x = str "corlib")) as [->|Hx']; [rewrite lookup_singleton_eq; split; [by right|by eexists]|].
    rewrite lookup_singleton_ne by done. split; [by intros [? ?]|tauto]. }
  destruct (find_fresh ns n (order (assemblies v2)) v2) as (v3 & c & E & Hres).
  { intros x [->| ->]%Hnames; [exists i, a2, img|exists j, (unload b), cimg]; by split_and!. }
  exists v3, c. split; [exact E|]. assert (heap v2 = heap v) as Hh by done. destruct c as [c|].
  - destruct Hres as [-> (x & k & a & im & r & Hx & [Hk Ha] & Him & Hr & Hat)]. split; [by rewrite Hh|]. exists r. split; [done|].
    assert (monoImage a2 = Some img) as Ha2 by done. apply Hnames in Hx as [->| ->]; [left|right]; destruct Hn1, Hn2; congruence.
  - destruct Hres as [_ Hres]. split; [by apply (Hres name i a2); [apply Hnames; left| |]|by apply (Hres (str "corlib") j (unload b)); [apply Hnames; right| |]].
Qed.
End Machine.

(** *** An example *)

(** Image 7 has the classes [Outer], 1, with [Inner], 2, nested in it, and the
    generic class [List`1], 4, of which 5 is an instance; image 8 is [corlib] with
    the attribute of generated classes, 9.  [Outer] has two methods. *)
Definition demo_names : list (N * (cstring * cstring)) :=
  [(0%N, ([], str "<Module>")); (1%N, ([], str "Outer")); (2%N, ([], str "Inner")); (4%N, ([], str "List`1")); (5%N, ([], str "List`1"));
   (9%N, (str "System.Runtime.CompilerServices", str "CompilerGeneratedAttribute"))].
Definition demo_name (r : N) : cstring * cstring := default ([], []) (FileSystem.assoc_lookup r demo_names).
Definition demo_image (r : N) : N := if bool_decide (r = 9%N) then 8%N else 7%N.
Definition demo_tops : list N := [0; 1; 4; 9]%N.
Definition demo_found (img : N) (ns n : cstring) : option N := head (filter (fun r => demo_image r = img /\ demo_name r = (ns, n)) demo_tops).
Definition demo_runtime : Runtime := mkRuntime demo_found demo_image (fun r => fst (demo_name r)) (fun r => snd (demo_name r))
  (fun r => if bool_decide (r = 2%N) then Some 1%N else None) (fun r => if bool_decide (r = 1%N) then [2%N] else [])
  (fun img => if bool_decide (img = 7%N) then [0; 1; 2; 4]%N else []) (fun _ => Some [])
  (fun r => if bool_decide (r = 2%N) then 1%nat else 0%nat) (fun r => if bool_decide (r = 1%N) then 1%nat else 0%nat)
  (fun r => if bool_decide (r = 1%N) then [11; 12]%N else []) (fun m => if bool_decide (m = 11%N) then str "OnStart" else str "OnUpdate")
  (fun m => if bool_decide (m = 11%N) then [] else str "single") (fun _ _ _ => None)
  (fun _ => []) (fun _ => []) (fun _ _ => None) (fun _ => []) (fun _ => []) (fun _ _ => None).
Definition demo_definition (r : N) : bool := bool_decide (r ∈ [0; 1; 2; 4; 9]%N).

Lemma demo_metadata : Metadata demo_runtime demo_definition.
Proof.
  split.
  - intros r p. cbn. case_bool_decide as Hr; [|done]. intros [= <-]. subst. vm_compute. lia.
  - intros img ns n r _ H. cbn in H. apply head_Some_elem, list_elem_of_filter in H as [[Hi Hn] H].
    unfold demo_tops in H. repeat (apply elem_of_cons in H as [->|H]; [vm_compute in Hn, Hi; injection Hn as <- <-; subst img; by vm_compute|]). by apply elem_of_nil in H.
  - intros r H%bool_decide_eq_true. repeat (apply elem_of_cons in H as [->|H]; [intros Htop; vm_compute in Htop |- *; by (eexists || done)|]). by apply elem_of_nil in H.
  - intros r r' H%bool_decide_eq_true H'%bool_decide_eq_true.
    repeat (apply elem_of_cons in H as [->|H]; [repeat (apply elem_of_cons in H' as [->|H']; [by vm_compute|]); by apply elem_of_nil in H'|]). by apply elem_of_nil in H.
  - intros p r. cbn. case_bool_decide as Hp; [|by intros ?%elem_of_nil]. intros ->%list_elem_of_singleton. subst. vm_compute. split_and!; try done; lia.
  - intros img r. cbn. case_bool_decide as Hi; [|by intros ?%elem_of_nil]. subst.
    intros H. repeat (apply elem_of_cons in H as [->|H]; [split_and!; [done|done|]; intros ns n Hr; vm_compute in Hr; injection Hr as <- <-; unfold plain_class; apply (bool_decide_unpack _); by vm_compute|]). by apply elem_of_nil in H.
Qed.

Definition demo_heap : Heap := mkHeap 1 {[0%N := make (str "System.Runtime.CompilerServices") (str "CompilerGeneratedAttribute") 9%N]} (mkPool 0 ∅).
Definition demo_assembly : MapleMonoAssembly := with_image (Some 7%N) (Some 70%N) true false (make_assembly (str "./") (str "MapleAssembly.dll")).
Lemma demo_assembly_Inv : Inv demo_runtime demo_definition 7 demo_assembly demo_heap.
Proof.
  split; [done| |done|done]. intros c. cbn. destruct (decide (c = 0%N)) as [->|Hc]; [lia|]. rewrite lookup_singleton_ne by done. by intros [? ?].
Qed.

(** An instance of a generic class, 5, asked for by its pointer. *)
Lemma class_requests_witness : exists a' h' c, ask_class demo_runtime (ByPointer 5) demo_assembly demo_heap = Ret (a', h', c)
  /\ Kept demo_runtime 7 a' h'
  /\ match c with
     | Some c => (exists r, wraps demo_runtime h' c r /\ class_image demo_runtime r = 7%N /\ meets demo_runtime (ByPointer 5) r)
         /\ ask_class demo_runtime (ByPointer 5) a' h' = Ret (a', h', Some c)
     | None => absent demo_runtime 7 (ByPointer 5) /\ a' = demo_assembly /\ h' = demo_heap
     end.
Proof.
  destruct (class_requests demo_runtime demo_definition demo_metadata 7 (ByPointer 5) demo_assembly demo_heap) as (a' & h' & c & H1 & H2 & _ & H3 & _).
  - apply (Inv_Kept demo_runtime demo_definition), demo_assembly_Inv.
  - exact I.
  - exists a', h', c. exact (conj H1 (conj H2 H3)).
Defined.

Lemma all_classes_listed_witness : exists a' h' l rs, getAllClasses demo_runtime (Some 0%N) demo_assembly demo_heap = Ret (a', h', l)
  /\ Inv demo_runtime demo_definition 7 a' h' /\ Forall2 (wraps demo_runtime h') l rs /\ within demo_runtime demo_definition 7 9 rs
  /\ covers demo_runtime 9 [1; 2; 4]%N rs /\ getAllClasses demo_runtime (Some 0%N) a' h' = Ret (a', h', l).
Proof.
  apply (all_classes_listed demo_runtime demo_definition demo_metadata 7 (Some 0%N) 9); [apply demo_assembly_Inv|done|]. by eexists 0%N, _.
Defined.

Lemma members_as_asked_witness : exists k p' l,
  ask_all demo_runtime [Exact (str "OnStart") []; Exact (str "OnUpdate") (str "single"); Exact (str "OnStart") []] (make [] (str "Outer") 1) (mkPool 0 ∅) = (k, p', l)
  /\ unwrap_in p' <$> l = [Some 11%N; Some 12%N; Some 11%N]
  /\ forall i j q, [Exact (str "OnStart") []; Exact (str "OnUpdate") (str "single"); Exact (str "OnStart") []] !! i = Some q ->
       [Exact (str "OnStart") []; Exact (str "OnUpdate") (str "single"); Exact (str "OnStart") []] !! j = Some q -> l !! i = l !! j.
Proof.
  apply (members_as_asked demo_runtime [] (str "Outer") 1 (mkPool 0 ∅) [Exact (str "OnStart") []; Exact (str "OnUpdate") (str "single"); Exact (str "OnStart") []]).
  - intros m [? H]. cbn in H. by rewrite lookup_empty in H.
  - repeat constructor; cbn; unfold plain; apply (bool_decide_unpack _); by vm_compute.
Defined.

(** A nested class is in the list once for its row of the type table and once for
    each class around it: here 2, which is nested in 1. *)
Definition demo_listed : MapleMonoAssembly * Heap * list N :=
  match getAllClasses demo_runtime (Some 0%N) demo_assembly demo_heap with Ret x => x | Exn _ => (demo_assembly, demo_heap, []) end.
Lemma nested_class_listed_twice : getAllClasses demo_runtime (Some 0%N) demo_assembly demo_heap = Ret demo_listed
  /\ (fun c => clazz <$> class_at (snd (fst demo_listed)) !! c) <$> snd demo_listed = [Some 2%N; Some 1%N; Some 2%N; Some 4%N].
Proof. by vm_compute. Qed.

(** A lookup by pointer stores an instance of a generic class under the name of the
    generic class, which later lookups by that name then find. *)
Definition demo_instance : MapleMonoAssembly * Heap := match getClass_raw demo_runtime (Some 5%N) demo_assembly demo_heap with Ret (a, h, _) => (a, h) | Exn _ => (demo_assembly, demo_heap) end.
Lemma instance_shadows_generic : let '(a, h) := demo_instance in
  getClass_raw demo_runtime (Some 5%N) demo_assembly demo_heap = Ret (a, h, Some 1%N)
  /\ getClass demo_runtime [] (str "List`1") a h = Ret (a, h, Some 1%N) /\ clazz <$> class_at h !! 1%N = Some 5%N
  /\ class_from_name demo_runtime 7 [] (str "List`1") = Some 4%N.
Proof. by vm_compute. Qed.

(** *** The machine of the example *)
Definition by_name (m : gmap cstring (option N)) : list cstring := fst <$> map_to_list m.
Lemma by_name_keys m name : name ∈ by_name m <-> is_Some (m !! name).
Proof.
  unfold by_name. rewrite list_elem_of_fmap. split.
  - intros ([n p] & -> & H). apply elem_of_map_to_list in H. by eexists.
  - intros [p H]. exists (name, p). split; [done|]. by apply elem_of_map_to_list.
Qed.
Definition demo_vm : MonoVirtualMachine := init (Some 1%N) true 8 empty_vm.
Definition demo_open (b : FileSystem.bytes) : option N := match b with [] => None | _ => Some 7%N end.
Definition demo_disk : FileSystem.disk := {[str "./MapleAssembly.dll" := FileSystem.IFile (str "MZ"); str "./Empty.dll" := FileSystem.IFile []]}.

Lemma reload_finds_new_classes_witness : exists v1 v2 i, unloadScriptDomain by_name demo_vm = Ret v1 /\ assemblies v1 = {[str "corlib" := Some 0%N]}
  /\ loadAssembly demo_open Some demo_disk (Some 3%N) true (str "./") (str "MapleAssembly.dll") v1 = Ret (v2, Some i) /\ scriptDomain v2 = Some 3%N
  /\ forall ns n, exists v3 c, findClass demo_runtime by_name ns n v2 = Ret (v3, c)
     /\ match c with
        | Some c => c = next_class (heap demo_vm)
            /\ exists r, class_at (heap v3) !! c = Some (make ns n r) /\ (class_from_name demo_runtime 7 ns n = Some r \/ class_from_name demo_runtime 8 ns n = Some r)
        | None => class_from_name demo_runtime 7 ns n = None /\ class_from_name demo_runtime 8 ns n = None
        end.
Proof.
  apply (reload_finds_new_classes demo_runtime by_name demo_open Some by_name_keys demo_vm 0
    (loadFromImage 8 (make_assembly (str "corlib") (str "corlib"))) 8 demo_disk 3 (str "./") (str "MapleAssembly.dll") (str "MZ") 7 7); try done.
  - intros name [p H]. change (assemblies demo_vm) with ({[str "corlib" := Some 0%N]} : gmap cstring (option N)) in H.
    apply lookup_singleton_Some in H as [<- <-]. by eexists 0%N, _.
  - intros i a H. change (assembly_at demo_vm) with ({[0%N := loadFromImage 8 (make_assembly (str "corlib") (str "corlib"))]} : gmap N MapleMonoAssembly) in H.
    apply lookup_singleton_Some in H as [<- <-]. by vm_compute.
Defined.

(** An assembly whose image cannot be opened stays among the assemblies, and the
    next lookup of a class that is not in [corlib] goes through a null image; so
    does one after a name that is missing was asked for. *)
Definition demo_failed : outcome (MonoVirtualMachine * option N) := loadAssembly demo_open Some demo_disk (Some 3%N) true (str "./") (str "Empty.dll") demo_vm.
Lemma failed_load_breaks_lookups : snd <$> demo_failed = Ret (Some 1%N) /\ ('(v, _) ← demo_failed; findClass demo_runtime by_name [] (str "Outer") v) = Exn NullDeref.
Proof. by vm_compute. Qed.
Lemma missing_assembly_breaks_lookups : snd (getAssembly (str "Missing.dll") demo_vm) = None
  /\ findClass demo_runtime by_name [] (str "Outer") demo_vm = Ret (demo_vm, None)
  /\ findClass demo_runtime by_name [] (str "Outer") (fst (getAssembly (str "Missing.dll") demo_vm)) = Exn NullDeref.
Proof. by vm_compute. Qed.

(** The handler of [RecompileScriptsEvent], when it runs before the assembly is
    loaded again, leaves a script with the functions of the classes that were. *)
Definition demo_script : MonoScript := mkMonoScript (str "Outer.cs") (str "Outer") (Some 50%N) (Some 1%N) (Some 0%N) None.
Definition demo_unloaded : MonoVirtualMachine := match unloadScriptDomain by_name demo_vm with Ret v => v | Exn _ => empty_vm end.
Lemma early_handler_keeps_old_functions : unloadScriptDomain by_name demo_vm = Ret demo_unloaded
  /\ loadFunction demo_runtime by_name (fun _ _ => 51%N) 6 None demo_script demo_unloaded [] = Ret (demo_script, demo_unloaded, []).
Proof. by vm_compute. Qed.
End MonoProps.
