(* ===== verification/LuaScripts.v ===== *)
(** * LuaScripts: scripts in Lua and the values kept beside a scene

    Models [Scripts/Lua]: the file with the values of a script's fields
    ([MetaFile.cpp]), the component that runs a script ([LuaComponent.cpp]), its
    system ([LuaSystem.cpp]) and the search path of the interpreter
    ([LuaVirtualMachine.cpp]).  A table is its fields in the order [lua_next] visits
    them; userdata are objects at addresses.  What scripts do is a parameter. *)

From S2P Require Import Prelude Strings FileSystem Float32.
From stdpp Require Import base decidable list sets gmap strings.
From Stdlib Require Import Ascii ZArith Lia.
Local Open Scope Z_scope.

(** ** Values *)
Module Lua.

(** Only the text of a key that is not a string is used. *)
Inductive Key := KString (s : cstring) | KOther (text : cstring).
Definition tostring (k : Key) : cstring := match k with KString s | KOther s => s end.
Inductive LuaValue :=
  | LNumber (x : f64)
  | LString (s : cstring)
  | LBool (b : bool)
  | LTable
  | LUserdata (a : N)
  | LOther.
Abbreviation Table := (list (Key * LuaValue)).
(** The objects of the engine that scripts hold; an [Entity] has a handle and a scene. *)
Inductive Userdata := UVec2 (v : list f32) | UVec3 (v : list f32) | UVec4 (v : list f32) | UEntity (handle : Z) (scene : option N) | UOther.
Abbreviation Objects := (gmap N Userdata).

#[export] Instance Key_eq_dec : EqDecision Key.
Proof. solve_decision. Defined.

(** Assignment to a field that is there; assigning a new field while the table is
    traversed leaves the traversal undefined. *)
Definition set_field (name : cstring) (v : LuaValue) (t : Table) : outcome Table :=
  if bool_decide (KString name ∈ fst <$> t) then Ret ((fun kv => if bool_decide (fst kv = KString name) then (fst kv, v) else kv) <$> t) else Exn OutOfBounds.
(** The same outside of a traversal. *)
Definition put_field (name : cstring) (v : LuaValue) (t : Table) : Table :=
  if bool_decide (KString name ∈ fst <$> t) then (fun kv => if bool_decide (fst kv = KString name) then (fst kv, v) else kv) <$> t else t ++ [(KString name, v)].
Definition get_field (k : Key) (t : Table) : LuaValue := default LOther (snd <$> (list_find (fun kv => fst kv = k) t ≫= fun x => Some (snd x))).
End Lua.

(** ** The file of values (MetaFile.cpp) *)
Module MetaFile.
Import Lua.

(** What the archive holds under a name; a float is written with all its digits. *)
Inductive Json := JNumber (x : f32) | JString (s : cstring) | JBool (b : bool) | JVec (v : list f32) | JInt (z : Z).
Abbreviation Archive := (list (cstring * Json)).

(** One field of [save]: nothing for a table, a function or the entity itself. *)
Definition save_value (U : Objects) (name : cstring) (v : LuaValue) : option Json :=
  match v with
  | LNumber x => Some (JNumber (F64.to_f32 x))
  | LString s => Some (JString s)
  | LBool b => Some (JBool b)
  | LTable => None
  | LUserdata a =>
      match U !! a with
      | Some (UVec2 v) | Some (UVec3 v) | Some (UVec4 v) => Some (JVec v)
      | Some (UEntity handle _) => if bool_decide (name ≠ str "entity") then Some (JInt handle) else None
      | _ => None
      end
  | LOther => None
  end.
Definition save_field (U : Objects) (kv : Key * LuaValue) : option (cstring * Json) :=
  let name := tostring (fst kv) in
  if bool_decide (name = str "__cname") || bool_decide (name = str "__index") then None else (fun j => (name, j)) <$> save_value U name (snd kv).
(** [comp->table] may be null. *)
Definition save (table : option Table) (U : Objects) : Archive := match table with Some t => omap (save_field U) t | None => [] end.

(** A name that is missing or a value of another kind is an exception. *)
Definition find_name (name : cstring) (a : Archive) : outcome Json :=
  match list_find (fun x => fst x = name) a with Some (_, (_, j)) => Ret j | None => Exn RuntimeError end.
Definition read_float (j : Json) : outcome f32 := match j with JNumber x => Ret x | JInt z => Ret (F32.of_Z z) | _ => Exn RuntimeError end.
Definition read_string (j : Json) : outcome cstring := match j with JString s => Ret s | _ => Exn RuntimeError end.
Definition read_bool (j : Json) : outcome bool := match j with JBool b => Ret b | _ => Exn RuntimeError end.
Definition read_vec (n : nat) (j : Json) : outcome (list f32) :=
  match j with JVec v => if (n <=? length v)%nat then Ret (take n v) else Exn RuntimeError | _ => Exn RuntimeError end.
Definition read_handle (j : Json) : outcome Z := match j with JInt z => Ret z | _ => Exn RuntimeError end.

(** One field of [load], by the kind of the value the script has there. *)
Definition load_field (a : Archive) (scene : option N) (k : Key) (s : Table * Objects) : outcome (Table * Objects) :=
  let '(t, U) := s in
  let name := tostring k in
  match get_field k t with
  | LNumber _ => j ← find_name name a; x ← read_float j; t ← set_field name (LNumber (F64.of_f32 x)) t; Ret (t, U)
  | LString _ => j ← find_name name a; x ← read_string j; t ← set_field name (LString x) t; Ret (t, U)
  | LBool _ => j ← find_name name a; x ← read_bool j; t ← set_field name (LBool x) t; Ret (t, U)
  | LUserdata o =>
      match U !! o with
      | Some (UVec2 _) => j ← find_name name a; v ← read_vec 2 j; Ret (t, <[o := UVec2 v]> U)
      | Some (UVec3 _) => j ← find_name name a; v ← read_vec 3 j; Ret (t, <[o := UVec3 v]> U)
      | Some (UVec4 _) => j ← find_name name a; v ← read_vec 4 j; Ret (t, <[o := UVec4 v]> U)
      | Some (UEntity _ _) =>
          if bool_decide (name ≠ str "entity") then j ← find_name name a; e ← read_handle j; Ret (t, <[o := UEntity e scene]> U) else Ret (t, U)
      | _ => Ret (t, U)
      end
  | LTable | LOther => Ret (t, U)
  end.
(** An archive to which nothing was written is an empty file, which is not read;
    [None] is a file that cannot be opened. *)
Definition load (file : option Archive) (scene : option N) (t : Table) (U : Objects) : outcome (Table * Objects) :=
  match file with
  | None | Some [] => Ret (t, U)
  | Some a => foldM (load_field a scene) (fst <$> t) (t, U)
  end.
End MetaFile.

(** ** The component and the system (LuaComponent.cpp, LuaSystem.cpp) *)
Module LuaComponent.
Import Lua.

(** What [fromStack] refers to: a table, or another value such as the message of an
    error. *)
Inductive LuaRef := RTable (t : Table) | RValue.

Record LuaComponent := mkLuaComponent {
  file : cstring;
  className : cstring;
  scene : option N;
  entity : Z;
  table : option LuaRef;
  onInitFunc : option N;
  onUpdateFunc : option N
}.
Definition with_file (f c : cstring) (l : LuaComponent) : LuaComponent := mkLuaComponent f c (scene l) (entity l) (table l) (onInitFunc l) (onUpdateFunc l).
Definition with_table (t : option LuaRef) (l : LuaComponent) : LuaComponent :=
  mkLuaComponent (file l) (className l) (scene l) (entity l) t (onInitFunc l) (onUpdateFunc l).
Definition with_functions (i u : option N) (l : LuaComponent) : LuaComponent := mkLuaComponent (file l) (className l) (scene l) (entity l) (table l) i u.

Section Component.
Context (win32 : bool).
(** What is on the stack after a file was run; the instance its [new] makes, with
    its two functions, unless that raises an error; what a call of a function
    leaves; where a new object is put. *)
Context (dofile : cstring -> LuaRef) (instantiate : LuaRef -> option (Table * option N * option N)).
Context (run : N -> Table -> Objects -> Table * Objects) (new_object : Objects -> N).
(** The values beside each script. *)
Context (meta : cstring -> option MetaFile.Archive).

Definition setFilePath (fileName : cstring) (l : LuaComponent) : LuaComponent :=
  with_file fileName (StringUtils.removeExtension (StringUtils.getFileName win32 fileName)) l.

(** The field [entity] is assigned; only a table has fields. *)
Definition set_entity (l : LuaComponent) (U : Objects) : outcome (LuaComponent * Objects) :=
  match table l with
  | Some (RTable t) => let o := new_object U in Ret (with_table (Some (RTable (put_field (str "entity") (LUserdata o) t))) l, <[o := UEntity (entity l) (scene l)]> U)
  | Some RValue => Exn RuntimeError
  | None => Exn NullDeref
  end.
(** The reference is replaced before the instance is made, the functions after. *)
Definition loadScript (l : LuaComponent) (U : Objects) : LuaComponent * Objects :=
  let top := dofile (file l) in
  let l := with_table (Some top) l in
  match instantiate top with
  | None => (l, U)
  | Some (t, i, u) =>
      match set_entity (with_functions i u (with_table (Some (RTable t)) l)) U with Ret s => s | Exn _ => (l, U) end
  end.
Definition init (l : LuaComponent) (U : Objects) : LuaComponent * Objects :=
  loadScript (with_file (file l) (StringUtils.removeExtension (StringUtils.getFileName win32 (file l))) l) U.
Definition isLoaded (l : LuaComponent) : bool := bool_decide (is_Some (table l)).

(** Errors of the function itself are caught. *)
Definition call (f : N) (l : LuaComponent) (U : Objects) : outcome (LuaComponent * Objects) :=
  r ← deref (table l);
  match r with
  | RTable t => let '(t, U) := run f t U in Ret (with_table (Some (RTable t)) l, U)
  | RValue => Ret (l, U)
  end.
Definition onInit (l : LuaComponent) (U : Objects) : outcome (LuaComponent * Objects) :=
  '(l, U) ← match table l with Some _ => set_entity l U | None => Ret (l, U) end;
  match onInitFunc l with
  | None => Ret (l, U)
  | Some f =>
      '(l, U) ← call f l U;
      match table l with
      | Some (RTable t) => '(t, U) ← MetaFile.load (meta (file l ++ str ".meta")) (scene l) t U; Ret (with_table (Some (RTable t)) l, U)
      | _ => Ret (l, U)
      end
  end.
Definition onUpdate (l : LuaComponent) (U : Objects) : outcome (LuaComponent * Objects) :=
  match onUpdateFunc l with None => Ret (l, U) | Some f => call f l U end.

(** [LuaSystem::onUpdate] over the view of the components. *)
Fixpoint update_view (view : list LuaComponent) (U : Objects) : outcome (list LuaComponent * Objects) :=
  match view with
  | [] => Ret ([], U)
  | l :: view => '(l, U) ← onUpdate l U; '(view, U) ← update_view view U; Ret (l :: view, U)
  end.
Definition system_onUpdate (play : bool) (view : list LuaComponent) (U : Objects) : outcome (list LuaComponent * Objects) :=
  if play then update_view view U else Ret (view, U).

(** [saveNewFile]: the text written, and the component before it is loaded. *)
Definition LF : cstring := ["010"%char].
Definition defaultScript : cstring :=
  LF ++ LF ++ str "#name = {}" ++ LF ++ LF ++ str "function #name:OnInit()" ++ LF ++ str "end" ++ LF ++ LF ++ str "function #name:OnUpdate(dt)" ++ LF ++ str "end" ++ LF ++ LF
  ++ str "return #name" ++ LF ++ LF.
Definition saveNewFile (clazzName : cstring) (l : LuaComponent) (U : Objects) : outcome (cstring * cstring * LuaComponent * Objects) :=
  text ← StringUtils.replace_str defaultScript (str "#name") clazzName;
  let path := str "scripts/" ++ clazzName ++ str ".lua" in
  let '(l, U) := loadScript (setFilePath path (with_file (file l) clazzName l)) U in
  Ret (path, text, l, U).
End Component.
End LuaComponent.

(** ** The search path (LuaVirtualMachine.cpp) *)
Module LuaVM.
Import FileSystem.

Definition addSystemPath (path searched : cstring) : cstring := searched ++ str ";" ++ path.
(** [addPath] goes down every directory below the one it is given. *)
Fixpoint addPath (dir : fs_tree) (searched : cstring) : cstring :=
  match dir with
  | TFile _ => searched
  | TDir path entries =>
      fold_left (fun searched entry => match entry with TDir _ _ => addPath entry searched | TFile _ => searched end) entries
        (addSystemPath (path ++ str "/?.lua") searched)
  end.
End LuaVM.

(** ** Properties *)
Module LuaProps.
Import Lua MetaFile.

(** *** Fields *)
Lemma get_field_middle k v a b : k ∉ fst <$> a -> get_field k (a ++ (k, v) :: b) = v.
Proof.
  intros Hk. unfold get_field. assert (list_find (fun kv : Key * LuaValue => fst kv = k) (a ++ (k, v) :: b) = Some (length a, (k, v))) as ->; [|done].
  apply list_find_Some. split_and!; [by apply list_lookup_middle|done|]. intros i [k' v'] Hi Hlt E. cbn in E. subst k'. rewrite lookup_app_l in Hi by done.
  apply Hk, list_elem_of_fmap. exists (k, v'). split; [done|]. by eapply list_elem_of_lookup_2.
Qed.
Lemma update_others k v (l : Table) : k ∉ fst <$> l -> (fun kv => if bool_decide (fst kv = k) then (fst kv, v) else kv) <$> l = l.
Proof.
  induction l as [|[k' v'] l IH]; [done|]. cbn. rewrite not_elem_of_cons. intros [Hk Hl]. rewrite bool_decide_eq_false_2 by congruence. by rewrite IH.
Qed.
Lemma set_field_middle name v' v a b : KString name ∉ fst <$> a -> KString name ∉ fst <$> b ->
  set_field name v' (a ++ (KString name, v) :: b) = Ret (a ++ (KString name, v') :: b).
Proof.
  intros Ha Hb. unfold set_field. rewrite bool_decide_eq_true_2 by (rewrite fmap_app; apply elem_of_app; right; by left).
  rewrite fmap_app. cbn. by rewrite bool_decide_eq_true_2, !update_others.
Qed.

(** Tables whose keys are distinct strings. *)
Definition named_fields (t : Table) : Prop := NoDup (fst <$> t) /\ forall k v, (k, v) ∈ t -> exists name, k = KString name.

Lemma find_saved t U name v j : named_fields t -> (KString name, v) ∈ t -> save_field U (KString name, v) = Some (name, j) -> find_name name (save (Some t) U) = Ret j.
Proof.
  intros [Hnd Hs] Hin Hj. unfold find_name, save. apply list_elem_of_split in Hin as (a & b & ->). rewrite omap_app. cbn. rewrite Hj.
  assert (list_find (fun x : cstring * Json => fst x = name) (omap (save_field U) a ++ (name, j) :: omap (save_field U) b) = Some (length (omap (save_field U) a), (name, j))) as ->; [|done].
  apply list_find_Some. split_and!; [by apply list_lookup_middle|done|]. intros i [n' j'] Hi Hlt E. cbn in E. subst n'. rewrite lookup_app_l in Hi by done.
  apply list_elem_of_lookup_2, list_elem_of_omap in Hi as ([k' v'] & Hin & Hf). rewrite fmap_app in Hnd. apply NoDup_app in Hnd as (_ & Hd & _).
  destruct (Hs k' v') as [n' ->]; [apply elem_of_app; by left|]. unfold save_field in Hf. cbn in Hf. case_match; [done|]. destruct (save_value U n' v'); [|done]. injection Hf as -> ->.
  apply (Hd (KString name)); [apply list_elem_of_fmap; by exists (KString name, v')|by left].
Qed.

(** *** Round trip *)
Inductive Kind := KindNumber | KindString | KindBool | KindVec2 | KindVec3 | KindVec4 | KindEntity.
(** The kind of a field that is kept, if it is. *)
Definition kind (U : Objects) (k : Key) (v : LuaValue) : option Kind :=
  match v with
  | LNumber _ => Some KindNumber
  | LString _ => Some KindString
  | LBool _ => Some KindBool
  | LUserdata o =>
      match U !! o with
      | Some (UVec2 _) => Some KindVec2 | Some (UVec3 _) => Some KindVec3 | Some (UVec4 _) => Some KindVec4
      | Some (UEntity _ _) => if bool_decide (tostring k ≠ str "entity") then Some KindEntity else None
      | _ => None
      end
  | LTable | LOther => None
  end.
Definition well_sized (U : Objects) : Prop :=
  forall o u, U !! o = Some u -> match u with UVec2 v => length v = 2%nat | UVec3 v => length v = 3%nat | UVec4 v => length v = 4%nat | _ => True end.
Definition objects_of (t : Table) : list N := omap (fun kv => match snd kv with LUserdata o => Some o | _ => None end) t.

(** What a field is after loading: a number goes through a float, strings and
    booleans are as saved, an object stays where it is and gets what was saved, and
    an entity also gets the scene. *)
Definition restored (U0 U U' : Objects) (scene : option N) (k : Key) (v0 v v' : LuaValue) : Prop :=
  match kind U k v, v0 with
  | Some KindNumber, LNumber x => v' = LNumber (F64.of_f32 (F64.to_f32 x))
  | Some KindNumber, _ => False
  | Some KindString, _ | Some KindBool, _ => v' = v0
  | Some _, LUserdata o0 => v' = v /\ exists o, v = LUserdata o /\ U' !! o = match U0 !! o0 with Some (UEntity e _) => Some (UEntity e scene) | u => u end
  | Some _, _ => False
  | None, _ => v' = v /\ forall o, v = LUserdata o -> U' !! o = U !! o
  end.

Section Roundtrip.
Context (t0 : Table) (U0 U : Objects) (scene : option N).
Context (Hn0 : named_fields t0) (Hsize : well_sized U0).

Definition reserved (name : cstring) : Prop := name = str "__cname" \/ name = str "__index".
(** The saved script had the fields of this one, of the same kinds. *)
Definition had (k : Key) (v : LuaValue) : Prop := forall q, kind U k v = Some q -> exists v0, (k, v0) ∈ t0 /\ kind U0 k v0 = Some q.

(** What is saved of a field that is kept. *)
Lemma kind_saved name v0 q : kind U0 (KString name) v0 = Some q -> exists j, save_value U0 name v0 = Some j /\
  match q with
  | KindNumber => exists x, v0 = LNumber x /\ j = JNumber (F64.to_f32 x)
  | KindString => exists s, v0 = LString s /\ j = JString s
  | KindBool => exists b, v0 = LBool b /\ j = JBool b
  | KindVec2 => exists o l, v0 = LUserdata o /\ U0 !! o = Some (UVec2 l) /\ j = JVec l
  | KindVec3 => exists o l, v0 = LUserdata o /\ U0 !! o = Some (UVec3 l) /\ j = JVec l
  | KindVec4 => exists o l, v0 = LUserdata o /\ U0 !! o = Some (UVec4 l) /\ j = JVec l
  | KindEntity => exists o e sc, v0 = LUserdata o /\ U0 !! o = Some (UEntity e sc) /\ j = JInt e
  end.
Proof.
  destruct v0 as [x|s|b| |o|]; cbn; try (intros [= <-]; eexists; split; [done|by eexists]); try done.
  destruct (U0 !! o) as [[l|l|l|e sc|]|] eqn:E; try (intros [= <-]; eexists; split; [done|by eexists _, _]); try done.
  case_bool_decide; [|done]. intros [= <-]. eexists. split; [done|by eexists _, _, _].
Qed.
Lemma kept_found name v q : had (KString name) v -> ~ reserved name -> kind U (KString name) v = Some q -> exists v0 j,
  (KString name, v0) ∈ t0 /\ find_name name (save (Some t0) U0) = Ret j /\ kind U0 (KString name) v0 = Some q /\ save_value U0 name v0 = Some j.
Proof.
  intros Hh Hr Hk. destruct (Hh q Hk) as (v0 & Hin & Hk0). destruct (kind_saved _ _ _ Hk0) as (j & Hj & _). exists v0, j. split_and!; try done.
  apply (find_saved t0 U0 name v0 j Hn0 Hin). unfold save_field. cbn [fst snd tostring]. unfold reserved in Hr. rewrite !bool_decide_eq_false_2 by tauto. cbn. by rewrite Hj.
Qed.
Lemma read_vec_all n l : length l = n -> read_vec n (JVec l) = Ret l.
Proof. intros <-. unfold read_vec. by rewrite Nat.leb_refl, firstn_all. Qed.

(** Loading one field: the field and at most its object change. *)
Lemma load_one name v a b W : KString name ∉ fst <$> a -> KString name ∉ fst <$> b -> ~ reserved name -> had (KString name) v ->
  (forall o, v = LUserdata o -> W !! o = U !! o) -> exists v' W',
  load_field (save (Some t0) U0) scene (KString name) (a ++ (KString name, v) :: b, W) = Ret (a ++ (KString name, v') :: b, W')
  /\ (exists v0, (kind U (KString name) v <> None -> (KString name, v0) ∈ t0) /\ forall W2, (forall o, v = LUserdata o -> W2 !! o = W' !! o) -> restored U0 U W2 scene (KString name) v0 v v')
  /\ (forall o, v <> LUserdata o -> W' !! o = W !! o).
Proof.
  intros Ha Hb Hr Hhad HW. unfold load_field. rewrite (get_field_middle _ _ _ _ Ha). cbn zeta. cbn [tostring].
  destruct (kind U (KString name) v) as [q|] eqn:Eq; unfold restored; rewrite ?Eq.
  - destruct (kept_found name v q Hhad Hr Eq) as (v0 & j & Hin & Hf & Hk0 & Hj). destruct (kind_saved _ _ _ Hk0) as (j' & Hj' & Hq). rewrite Hj in Hj'. injection Hj' as <-.
    destruct v as [x|s|y| |o|]; cbn in Eq; try done; [injection Eq as <-..|].
    1-3: destruct Hq as (x0 & -> & ->); rewrite Hf, !bind_Ret; cbn [read_float read_string read_bool];
      rewrite bind_Ret, (set_field_middle name _ _ a b Ha Hb), bind_Ret; eexists _, W; split; [done|]; split; [by eexists|done].
    rewrite (HW o eq_refl). destruct (U !! o) as [[l|l|l|e sc|]|] eqn:EU; try done.
    1-3: injection Eq as <-; destruct Hq as (o0 & l0 & -> & HU0 & ->); rewrite Hf, bind_Ret, read_vec_all, bind_Ret by (by apply (Hsize _ _ HU0));
      eexists _, _; split; [done|]; split; [exists (LUserdata o0); split; [done|]; intros W2 HW2; split; [done|]; exists o; split; [done|];
        by rewrite (HW2 o eq_refl), lookup_insert_eq, HU0|intros o' Ho'; rewrite lookup_insert_ne; [done|congruence]].
    case_bool_decide as Hent; [|done]. injection Eq as <-. destruct Hq as (o0 & e0 & sc0 & -> & HU0 & ->). rewrite Hf, !bind_Ret. cbn [read_handle]. rewrite bind_Ret, (bool_decide_eq_true_2 (name ≠ str "entity")) by done.
    eexists _, _; split; [done|]; split; [exists (LUserdata o0); split; [done|]; intros W2 HW2; split; [done|]; exists o; split; [done|];
        by rewrite (HW2 o eq_refl), lookup_insert_eq, HU0|intros o' Ho'; rewrite lookup_insert_ne; [done|congruence]].
  - exists v, W. split; [|split; [exists LOther; split; [done|]; intros W2 HW2; split; [done|]; intros o Ho; by rewrite (HW2 o Ho), (HW o Ho)|done]].
    destruct v as [x|s|y| |o|]; cbn -[str] in Eq; try done. rewrite (HW o eq_refl). destruct (U !! o) as [[l|l|l|e sc|]|]; try done. by destruct (bool_decide (name ≠ str "entity")).
Qed.

Lemma load_rest b : forall a W, named_fields (a ++ b) -> (forall name v, (KString name, v) ∈ b -> ~ reserved name /\ had (KString name) v) ->
  NoDup (objects_of b) -> (forall o, o ∈ objects_of b -> W !! o = U !! o) -> exists b' W',
  foldM (load_field (save (Some t0) U0) scene) (fst <$> b) (a ++ b, W) = Ret (a ++ b', W') /\ fst <$> b' = fst <$> b
  /\ (forall i k v, b !! i = Some (k, v) -> exists v0 v', b' !! i = Some (k, v') /\ (kind U k v <> None -> (k, v0) ∈ t0) /\ restored U0 U W' scene k v0 v v')
  /\ (forall o, o ∉ objects_of b -> W' !! o = W !! o).
Proof.
  induction b as [|[k v] b IH]; intros a W Hn Hb Hnd HW; [by exists [], W|].
  destruct (proj2 Hn k v) as [name ->]; [apply elem_of_app; right; by left|]. destruct (Hb name v) as [Hr Hh]; [by left|].
  assert (KString name ∉ fst <$> a /\ KString name ∉ fst <$> b) as [Hna Hnb].
  { destruct Hn as [Hn _]. rewrite fmap_app in Hn. cbn in Hn. by apply NoDup_middle in Hn. }
  assert (forall o, v = LUserdata o -> objects_of ((KString name, v) :: b) = o :: objects_of b) as Hobj by (by intros o ->).
  assert (forall o, o ∈ objects_of b -> o ∈ objects_of ((KString name, v) :: b)) as Hsub by (intros o Ho; unfold objects_of; cbn; destruct v; try done; by right).
  destruct (load_one name v a b W Hna Hnb Hr Hh) as (v' & W1 & E & (v0 & Hin & Hres) & Hoth).
  { intros o Ho. apply HW. rewrite (Hobj o Ho). by left. }
  destruct (IH (a ++ [(KString name, v')]) W1) as (b' & W2 & E2 & Hk2 & Hf2 & Ho2).
  - rewrite <- app_assoc. cbn. destruct Hn as [H1 H2]. split; [rewrite !fmap_app in *; done|]. intros k0 u0 Hu. apply elem_of_app in Hu as [Hu|Hu]; [apply (H2 k0 u0), elem_of_app; by left|].
    apply elem_of_cons in Hu as [[= -> ->]|Hu]; [by exists name|]. apply (H2 k0 u0), elem_of_app. right. by right.
  - intros n u Hu. apply Hb. by right.
  - destruct v; try done. rewrite (Hobj a0 eq_refl) in Hnd. by apply NoDup_cons in Hnd as [_ ?].
  - intros o Ho. rewrite Hoth; [apply HW; by apply Hsub|]. intros Hv. rewrite (Hobj o Hv) in Hnd. by apply NoDup_cons in Hnd as [? _].
  - exists ((KString name, v') :: b'), W2. cbn [fmap list_fmap foldM fst]. rewrite E, bind_Ret. rewrite <- !app_assoc in E2. cbn [app] in E2. rewrite E2. split_and!; [done|cbn; by rewrite Hk2| |].
    + intros [|i] k0 u0 Hi; cbn in Hi; [|by apply Hf2]. injection Hi as <- <-. exists v0, v'. split_and!; [done|done|]. apply Hres. intros o Ho. apply Ho2.
      rewrite (Hobj o Ho) in Hnd. by apply NoDup_cons in Hnd as [? _].
    + intros o Ho. rewrite Ho2 by (intros H; by apply Ho, Hsub). apply Hoth. intros Hv. apply Ho. rewrite (Hobj o Hv). by left.
Qed.
End Roundtrip.

(** C36. The values saved for a script are there again when they are loaded into another
    instance of it, field by field: its fields have to be strings, objects not
    shared between fields, and each field that is kept one that was saved with the
    same kind. *)
Theorem meta_roundtrip t0 U0 t U scene : named_fields t0 -> well_sized U0 -> named_fields t ->
  (forall name v, (KString name, v) ∈ t -> ~ reserved name /\ had t0 U0 U (KString name) v) -> NoDup (objects_of t) -> exists t' U',
  load (Some (save (Some t0) U0)) scene t U = Ret (t', U') /\ fst <$> t' = fst <$> t
  /\ (forall i k v, t !! i = Some (k, v) -> exists v0 v', t' !! i = Some (k, v') /\ (kind U k v <> None -> (k, v0) ∈ t0) /\ restored U0 U U' scene k v0 v v')
  /\ (forall o, o ∉ objects_of t -> U' !! o = U !! o).
Proof.
  intros Hn0 Hs Hn Hh Hnd. destruct (load_rest t0 U0 U scene Hn0 Hs t [] U) as (t' & U' & E & Hk & Hf & Ho); [done|done|done|done|].
  unfold load. destruct (save (Some t0) U0) as [|x a] eqn:Ea; [|by exists t', U'].
  exists t, U. split_and!; try done. intros i k v Hi. assert ((k, v) ∈ t) as Hin by (by eapply list_elem_of_lookup_2). destruct (proj2 Hn k v Hin) as [name ->].
  destruct (Hh name v Hin) as [Hr Hhad]. exists LOther, v. destruct (kind U (KString name) v) as [q|] eqn:Eq.
  - destruct (kept_found t0 U0 U Hn0 name v q Hhad Hr Eq) as (v0 & j & _ & Hfind & _). by rewrite Ea in Hfind.
  - split_and!; [done|done|]. unfold restored. by rewrite Eq.
Qed.

(** *** Errors *)
Lemma get_update_other k name v (l : Table) : k <> KString name -> get_field k ((fun kv => if bool_decide (fst kv = KString name) then (fst kv, v) else kv) <$> l) = get_field k l.
Proof.
  intros Hk. induction l as [|[k' v'] l IH]; [done|]. unfold get_field in *. cbn. destruct (decide (k' = KString name)) as [->|Hne].
  - rewrite bool_decide_eq_true_2 by done. cbn. rewrite !decide_False by congruence. destruct (list_find _ (_ <$> l)) as [[]|], (list_find _ l) as [[]|]; done.
  - rewrite bool_decide_eq_false_2 by done. cbn. destruct (decide (k' = k)); [done|]. destruct (list_find _ (_ <$> l)) as [[]|], (list_find _ l) as [[]|]; done.
Qed.
Lemma load_field_other a scene k k' t U t' U' : load_field a scene k' (t, U) = Ret (t', U') -> k <> KString (tostring k') -> get_field k t' = get_field k t.
Proof.
  intros H Hk. assert (forall name v t t', set_field name v t = Ret t' -> k <> KString name -> get_field k t' = get_field k t) as Hset.
  { intros name v u u' Hu Hn. unfold set_field in Hu. case_bool_decide; [|done]. injection Hu as <-. by apply get_update_other. }
  unfold load_field in H. destruct (get_field k' t) as [x|x|x| |o|]; [| | |congruence| |congruence].
  1-3: apply bind_Ret_inv in H as (j & _ & H); apply bind_Ret_inv in H as (y & _ & H); apply bind_Ret_inv in H as (u & Hu & H); injection H as <- <-; by eapply Hset.
  destruct (U !! o) as [[l|l|l|e sc|]|]; try congruence; [..|case_bool_decide; [|congruence]];
    apply bind_Ret_inv in H as (j & _ & H); apply bind_Ret_inv in H as (y & _ & H); congruence.
Qed.

(** C37. When a script has got a new number, string or boolean since its values were
    saved, loading them ends in an exception, which nothing catches. *)
Theorem new_field_throws a scene t U name v : named_fields t -> (KString name, v) ∈ t -> (exists x, v = LNumber x) \/ (exists s, v = LString s) \/ (exists b, v = LBool b) ->
  a <> [] -> name ∉ fst <$> a -> exists e, load (Some a) scene t U = Exn e.
Proof.
  intros [Hnd Hs] Hin Hv Ha Hna. destruct (load (Some a) scene t U) as [[t' U']|e] eqn:E; [exfalso|by exists e].
  assert (foldM (load_field a scene) (fst <$> t) (t, U) = Ret (t', U')) as E' by (by destruct a). clear E.
  assert (get_field (KString name) t = v) as Hg.
  { apply list_elem_of_split in Hin as (l1 & l2 & ->). apply get_field_middle. rewrite fmap_app in Hnd. cbn in Hnd. by apply NoDup_middle in Hnd as [? _]. }
  assert (KString name ∈ fst <$> t) as Hk by (apply list_elem_of_fmap; by exists (KString name, v)).
  assert (forall k, k ∈ fst <$> t -> exists n, k = KString n) as Hall by (intros k ([k' v'] & -> & H)%list_elem_of_fmap; by apply (Hs k' v')).
  revert Hg E' Hk Hall Hnd. generalize (fst <$> t). intros ks. clear Hin Hs. revert t U. induction ks as [|k ks IH]; intros t U Hg E' Hk Hall Hnd; [by apply elem_of_nil in Hk|].
  cbn in E'. apply bind_Ret_inv in E' as ([t1 U1] & E1 & E'). apply NoDup_cons in Hnd as [Hnk Hnd]. destruct (Hall k) as [n ->]; [by left|].
  destruct (decide (n = name)) as [->|Hne].
  - unfold load_field in E1. rewrite Hg in E1. cbn in E1. assert (find_name name a = Exn RuntimeError) as Hf.
    { unfold find_name. destruct (list_find _ a) as [[i [n' j]]|] eqn:El; [|done]. apply list_find_Some in El as (Hi & <- & _). exfalso. apply Hna, list_elem_of_fmap.
      exists (n', j). split; [done|]. by eapply list_elem_of_lookup_2. }
    destruct Hv as [[x ->]|[[x ->]|[x ->]]]; by rewrite Hf in E1.
  - apply elem_of_cons in Hk as [[= ->]|Hk]; [done|]. apply (IH t1 U1); [|done|done|intros k Hk'; apply Hall; by right|done].
    rewrite (load_field_other a scene (KString name) (KString n) t U t1 U1 E1); [done|cbn; congruence].
Qed.

(** A script whose [new] raises an error keeps the functions it had, and counts as
    loaded. *)
Lemma broken_script_keeps_functions dofile instantiate new_object (l : LuaComponent.LuaComponent) U : instantiate (dofile (LuaComponent.file l)) = None ->
  let l' := fst (LuaComponent.loadScript dofile instantiate new_object l U) in
  LuaComponent.onInitFunc l' = LuaComponent.onInitFunc l /\ LuaComponent.onUpdateFunc l' = LuaComponent.onUpdateFunc l /\ LuaComponent.isLoaded l' = true.
Proof. intros H. unfold LuaComponent.loadScript. by rewrite H. Qed.

(** *** The search path *)
Import FileSystem LuaVM.
Fixpoint tree_directories (t : fs_tree) : list cstring := match t with TFile _ => [] | TDir p entries => p :: concat (tree_directories <$> entries) end.

(** The path gets one pattern for every directory below the one given, itself
    included, in the order they are visited. *)
Theorem addPath_every_directory t searched :
  addPath t searched = searched ++ (tree_directories t ≫= fun p => str ";" ++ p ++ str "/?.lua").
Proof.
  revert searched. induction t as [p|p es IH] using fs_tree_ind'; intros searched; [by cbn; rewrite app_nil_r|].
  cbn [addPath tree_directories]. change ((p :: concat (tree_directories <$> es)) ≫= ?f) with (f p ++ (concat (tree_directories <$> es) ≫= f)).
  unfold addSystemPath. rewrite (app_assoc searched (_ ++ _ ++ _)). generalize (searched ++ str ";" ++ p ++ str "/?.lua"). clear searched.
  induction IH as [|e es He _ IH]; intros s; [by cbn; rewrite app_nil_r|]. cbn [fold_left fmap list_fmap concat]. rewrite IH, bind_app. destruct e as [q|q qs]; [done|].
  by rewrite He, <- app_assoc.
Qed.

(** *** An example *)
Definition demo_fields : Table :=
  [(KString (str "speed"), LNumber (F64.of_f32 F32.one)); (KString (str "name"), LString (str "player")); (KString (str "offset"), LUserdata 1%N);
   (KString (str "target"), LUserdata 2%N); (KString (str "OnUpdate"), LOther)].
Definition demo_objects : Objects := {[1%N := UVec2 [F32.one; F32.zero]; 2%N := UEntity 7 (Some 3%N)]}.
Definition demo_fresh : Objects := {[1%N := UVec2 [F32.zero; F32.zero]; 2%N := UEntity 0 None]}.
Lemma demo_named : named_fields demo_fields.
Proof.
  split; [apply (bool_decide_unpack _); by vm_compute|]. intros k v H. unfold demo_fields in H.
  repeat (apply elem_of_cons in H as [[= -> ->]|H]; [by eexists|]). by apply elem_of_nil in H.
Qed.
Lemma demo_sized : well_sized demo_objects.
Proof. intros o u H. unfold demo_objects in H. apply lookup_insert_Some in H as [[<- <-]|[_ H]]; [done|]. by apply lookup_singleton_Some in H as [<- <-]. Qed.

Lemma meta_roundtrip_witness : exists t' U',
  load (Some (save (Some demo_fields) demo_objects)) (Some 9%N) demo_fields demo_fresh = Ret (t', U') /\ fst <$> t' = fst <$> demo_fields
  /\ (forall i k v, demo_fields !! i = Some (k, v) -> exists v0 v', t' !! i = Some (k, v') /\ (kind demo_fresh k v <> None -> (k, v0) ∈ demo_fields)
       /\ restored demo_objects demo_fresh U' (Some 9%N) k v0 v v')
  /\ (forall o, o ∉ objects_of demo_fields -> U' !! o = demo_fresh !! o).
Proof.
  apply (meta_roundtrip demo_fields demo_objects demo_fields demo_fresh (Some 9%N) demo_named demo_sized demo_named).
  - intros name v H. split.
    + intros Hr. unfold demo_fields in H. repeat (apply elem_of_cons in H as [[= -> _]|H]; [destruct Hr as [Hr|Hr]; by vm_compute in Hr|]). by apply elem_of_nil in H.
    + intros q Hq. exists v. split; [exact H|]. rewrite <- Hq. unfold demo_fields in H.
      repeat (apply elem_of_cons in H as [[= -> ->]|H]; [by vm_compute|]). by apply elem_of_nil in H.
  - apply (bool_decide_unpack _). by vm_compute.
Defined.

Lemma new_field_throws_witness : exists e, load (Some [(str "speed", JNumber F32.one)]) None demo_fields demo_fresh = Exn e.
Proof.
  apply (new_field_throws [(str "speed", JNumber F32.one)] None demo_fields demo_fresh (str "name") (LString (str "player")) demo_named); [by right; left|right; left; by eexists|done|].
  apply (bool_decide_unpack _). by vm_compute.
Defined.

(** Fields that [save] leaves out by name are asked for by [load]. *)
Lemma reserved_field_throws : let t := [(KString (str "__cname"), LString (str "Player")); (KString (str "speed"), LNumber (F64.of_f32 F32.one))] in
  load (Some (save (Some t) ∅)) None t ∅ = Exn RuntimeError.
Proof. by vm_compute. Qed.
End LuaProps.
