(* ===== verification/AssetPanel.v ===== *)
(** * AssetPanel: the panel of the editor that shows the files

    Models [Code/Editor/src/AssetsWindow.*]: reading a directory into nodes, moving
    between the folders, reading a folder again, and what is shown.  Nodes are kept
    at addresses: the window holds plain pointers to nodes that their parents own.
    The disk is the trees of [FileSystem]. *)

From S2P Require Import Prelude Strings FileSystem.
From stdpp Require Import base decidable list sets gmap strings.
From Stdlib Require Import Ascii ZArith Lia.

(** ** The window (AssetsWindow.cpp) *)
Module AssetPanel.
Import BasicString StringUtils FileSystem.

(** *** Names *)

(** [find_first_not_of] from a position, which may be [npos]. *)
Definition find_not (d : ascii) (s : cstring) (pos : option nat) : option nat :=
  match pos with Some p => Nat.add p <$> find_first_not_of [d] (drop p s) | None => None end.
(** The loop that collects what lies between the delimiters. *)
Fixpoint pieces_loop (n : nat) (d : ascii) (s : cstring) (end_ : option nat) (out : list cstring) : outcome (list cstring) :=
  match n with
  | O => Exn OutOfFuel
  | S n =>
      match find_not d s end_ with
      | None => Ret out
      | Some start =>
          let e := find [d] s start in
          let piece := match e with Some e => take (e - start) (drop start s) | None => drop start s end in
          pieces_loop n d s e (out ++ [piece])
      end
  end.
Definition pieces (d : ascii) (s : cstring) : outcome (list cstring) := pieces_loop (S (length s)) d s (Some 0) [].
(** [out[out.size() - 1]] of an empty vector is outside of it. *)
Definition last_piece (out : list cstring) : outcome cstring := match last out with Some x => Ret x | None => Exn OutOfBounds end.
Definition parseFilename (s : cstring) (delim : ascii) : outcome cstring := out ← pieces delim s; last_piece out.
Definition parseFiletype (filename : cstring) : outcome cstring := out ← pieces "."%char filename; last_piece out.
(** [directories] has room for a hundred. *)
Definition getDirectories (delim : ascii) (path : cstring) : outcome (list cstring) :=
  out ← pieces delim path; if decide (length out <= 100) then Ret out else Exn OutOfBounds.
Definition stripExtras (filename : cstring) : cstring :=
  if decide (11 < length filename) then take 8 filename ++ str "..." else replicate ((12 - length filename) / 2) " "%char ++ filename.

(** The number of an extension. *)
Definition assetTypes : list cstring := [str "fbx"; str "obj"; str "wav"; str "mp3"; str "png"; str "jpg"; str "bmp"; str "scene"; str "ogg"; str "lua"].
Definition getParsedAssetID (extension : cstring) : Z := match list_find (fun t => extension = t) assetTypes with Some (i, _) => Z.of_nat i | None => (-1)%Z end.

(** *** Nodes *)
Record FileInfo := mkFileInfo {
  fileName : cstring;
  fileType : cstring;
  absolutePath : cstring;
  isFile : bool;
  type : FileType;
  parent : option N;
  children : gmap cstring N
}.
Definition with_children (c : gmap cstring N) (f : FileInfo) : FileInfo := mkFileInfo (fileName f) (fileType f) (absolutePath f) (isFile f) (type f) (parent f) c.
Record Nodes := mkNodes { next_node : N; node_at : gmap N FileInfo }.
Definition new_node (f : FileInfo) (h : Nodes) : Nodes * N := (mkNodes (next_node h + 1) (<[next_node h := f]> (node_at h)), next_node h).
(** [parent->children[name] = node]. *)
Definition set_child (p : N) (name : cstring) (i : N) (h : Nodes) : outcome Nodes :=
  f ← deref (node_at h !! p); Ret (mkNodes (next_node h) (<[p := with_children (<[name := i]> (children f)) f]> (node_at h))).

Section Window.
(** The delimiter of paths. *)
Context (delim : ascii).

(** One entry of the directory iterator. *)
Definition is_file (e : fs_tree) : bool := match e with TFile _ => true | TDir _ _ => false end.
Definition entry_type (e : fs_tree) (dirData : cstring) : FileType := match e with TFile _ => getFileType dirData | TDir _ _ => Folder end.
Fixpoint read_entry (e : fs_tree) (p : N) (h : Nodes) : outcome Nodes :=
  dirData ← parseFilename (tree_path e) delim;
  fileExt ← parseFiletype dirData;
  let '(h, fileInfo) := new_node (mkFileInfo dirData fileExt (tree_path e) (is_file e) (entry_type e dirData) (Some p) ∅) h in
  h ← match e with TDir _ entries => foldM (fun e h => read_entry e fileInfo h) entries h | TFile _ => Ret h end;
  set_child p dirData fileInfo h.
(** The iterator throws when the path is not a directory. *)
Definition readDirectory (dir : option fs_tree) (p : N) (h : Nodes) : outcome Nodes :=
  match dir with Some (TDir _ entries) => foldM (fun e h => read_entry e p h) entries h | _ => Exn RuntimeError end.

(** *** The window *)
Record AssetsWindow := mkAssetsWindow { nodes : Nodes; rootDir : N; currentDir : N; lastDir : N; isInListView : bool; showHiddenFiles : bool }.
Definition with_dirs (c l : N) (w : AssetsWindow) : AssetsWindow := mkAssetsWindow (nodes w) (rootDir w) c l (isInListView w) (showHiddenFiles w).
Definition with_nodes (h : Nodes) (w : AssetsWindow) : AssetsWindow := mkAssetsWindow h (rootDir w) (currentDir w) (lastDir w) (isInListView w) (showHiddenFiles w).

(** What is on the disk under a path. *)
Context (disk : cstring -> option fs_tree).

(** The constructor; the root is a member of the window. *)
Definition root : FileInfo := mkFileInfo [] [] [] false Normal None ∅.
Definition make : outcome AssetsWindow :=
  h ← readDirectory (disk (str ".")) 0%N (mkNodes 1 {[0%N := root]});
  f ← deref (node_at h !! 0%N);
  Ret (mkAssetsWindow (mkNodes (next_node h) (<[0%N := mkFileInfo (fileName f) (fileType f) (str ".") (isFile f) (type f) (parent f) (children f)]> (node_at h)))
    0 0 0 true false).

(** A click on a folder, and the two arrows. *)
Definition open_folder (i : N) (w : AssetsWindow) : AssetsWindow := with_dirs i i w.
Definition go_back (w : AssetsWindow) : outcome AssetsWindow :=
  f ← deref (node_at (nodes w) !! currentDir w);
  Ret (match parent f with Some p => with_dirs p (currentDir w) w | None => w end).
Definition go_forward (w : AssetsWindow) : AssetsWindow := with_dirs (lastDir w) (lastDir w) w.

(** Clearing the children frees everything below. *)
Fixpoint below (n : nat) (h : Nodes) (i : N) : list N :=
  match n with
  | O => []
  | S n => match node_at h !! i with Some f => (snd <$> map_to_list (children f)) ≫= fun c => c :: below n h c | None => [] end
  end.
Definition clear_children (i : N) (h : Nodes) : outcome Nodes :=
  f ← deref (node_at h !! i);
  let freed := below (size (node_at h)) h i in
  Ret (mkNodes (next_node h) (<[i := with_children ∅ f]> (foldr (fun c m => delete c m) (node_at h) freed))).
Definition refresh (w : AssetsWindow) : outcome AssetsWindow :=
  h ← clear_children (currentDir w) (nodes w);
  f ← deref (node_at h !! currentDir w);
  h ← readDirectory (disk (absolutePath f)) (currentDir w) h;
  Ret (with_nodes h w).

(** Whether a folder of the tree at the left has folders below, and the folders drawn there. *)
Definition folder_children (order : gmap cstring N -> list (cstring * N)) (h : Nodes) (f : FileInfo) : outcome (list N) :=
  foldM (fun x out => c ← deref (node_at h !! snd x); Ret (if isFile c then out else out ++ [snd x])) (order (children f)) [].
Definition containsFolder (order : gmap cstring N -> list (cstring * N)) (h : Nodes) (f : FileInfo) : outcome bool := l ← folder_children order h f; Ret (negb (bool_decide (l = []))).

(** The files shown: [filter] is the text filter; the order is that of [std::map]. *)
Definition shown_files (order : gmap cstring N -> list (cstring * N)) (filter : cstring -> bool) (w : AssetsWindow) : outcome (list (cstring * N)) :=
  f ← deref (node_at (nodes w) !! currentDir w);
  Ret (base.filter (fun x => Is_true ((showHiddenFiles w || negb (isHiddenFile (fst x))) && filter (fst x))) (order (children f))).
End Window.
End AssetPanel.

(** ** Properties *)
Module AssetProps.
Import BasicString Split StringUtils FileSystem AssetPanel.

(** *** Names *)
Lemma find_not_app d a b : find_not d (a ++ b) (Some (length a)) = Nat.add (length a) <$> find_first_not_of [d] b.
Proof. unfold find_not. by rewrite drop_app_length. Qed.
Lemma find_not_skip d a b : find_not d (a ++ d :: b) (Some (length a)) = find_not d (a ++ d :: b) (Some (S (length a))).
Proof.
  rewrite find_not_app. assert (S (length a) = length (a ++ [d])) as -> by (rewrite length_app; cbn; lia).
  replace (a ++ d :: b) with ((a ++ [d]) ++ b) by (by rewrite <- app_assoc). rewrite find_not_app, length_app. unfold find_first_not_of. cbn [list_find].
  rewrite decide_False by set_solver. destruct (list_find _ b) as [[i c]|]; [|done]. cbn. f_equal. lia.
Qed.
Lemma pieces_skip n d a b out : pieces_loop n d (a ++ d :: b) (Some (length a)) out = pieces_loop n d ((a ++ [d]) ++ b) (Some (length (a ++ [d]))) out.
Proof.
  rewrite <- app_assoc. cbn [app]. rewrite length_app, Nat.add_1_r. destruct n as [|n]; [done|]. cbn [pieces_loop]. by rewrite find_not_skip.
Qed.

(** The pieces are the parts between the delimiters that are not empty. *)
Lemma pieces_tokens d s ps : tokens [d] s ps -> forall n a out, length s < n ->
  pieces_loop n d (a ++ s) (Some (length a)) out = Ret (out ++ filter (fun p => p <> []) ps).
Proof.
  induction 1 as [s Hs|p s ps Hp Ht IH]; intros n a out Hn.
  - destruct n as [|n]; [lia|]. cbn [pieces_loop]. rewrite find_not_app. destruct s as [|c s]; [cbn; by rewrite app_nil_r|].
    assert (c <> d) as Hc by (intros ->; cbn in Hs; rewrite decide_True in Hs by (by exists s); done).
    unfold find_first_not_of. cbn [list_find]. rewrite decide_True by set_solver. cbn [fmap option_fmap option_map fst]. rewrite Nat.add_0_r, find_app, Hs. cbn [fmap option_fmap option_map].
    rewrite drop_app_length. destruct n as [|n]; [cbn in Hn; lia|]. by cbn.
  - destruct p as [|c p].
    + cbn [app] in *. rewrite pieces_skip, IH by (cbn in Hn; lia). by rewrite filter_cons_False by tauto.
    + assert (c <> d) as Hc by (intros ->; cbn in Hp; by rewrite decide_True in Hp by (by eexists)).
      destruct n as [|n]; [lia|]. cbn [pieces_loop]. rewrite find_not_app. unfold find_first_not_of. cbn [app list_find]. rewrite decide_True by set_solver.
      cbn [fmap option_fmap option_map fst]. rewrite Nat.add_0_r. change (c :: p ++ d :: s) with ((c :: p) ++ [d] ++ s). rewrite find_app, Hp. cbn [fmap option_fmap option_map].
      rewrite drop_app_length. replace (length a + length (c :: p) - length a) with (length (c :: p)) by lia. rewrite take_app_length.
      rewrite app_assoc. replace (length a + length (c :: p)) with (length (a ++ c :: p)) by (by rewrite length_app). change ([d] ++ s) with (d :: s).
      rewrite pieces_skip, IH by (cbn in Hn; rewrite length_app in Hn; cbn in Hn; lia). rewrite filter_cons_True by done. by rewrite <- app_assoc.
Qed.

(** The name of a file is the last part of its path that is not empty; of a path
    without one, such as of dots alone for the type, there is none. *)
Theorem parse_filename_last s delim : exists ps, split s [delim] = Ret ps
  /\ parseFilename s delim = match last (filter (fun p => p <> []) ps) with Some x => Ret x | None => Exn OutOfBounds end.
Proof.
  unfold split, split_into. destruct (split_loop_tokens [delim] (S (length s)) s []) as (ps & Ht & E); [done|lia|]. exists ps. split; [exact E|].
  unfold parseFilename, pieces. pose proof (pieces_tokens delim s ps Ht (S (length s)) [] []) as H. cbn [app length] in H. by rewrite H by lia.
Qed.

Lemma stripExtras_short filename : length (stripExtras filename) <= 12.
Proof.
  unfold stripExtras. destruct (decide (11 < length filename)) as [H|H]; [rewrite length_app, length_take; change (length (str "...")) with 3; lia|].
  rewrite length_app, length_replicate. pose proof (Nat.div_mod (12 - length filename) 2). lia.
Qed.

(** *** What is on the disk *)
Section Tree.
Context (delim : ascii).

Definition entry_name (e : fs_tree) : cstring := match parseFilename (tree_path e) delim with Ret n => n | Exn _ => [] end.
(** Every path has a name with a type, and no two entries of a directory the same. *)
Definition has_name (e : fs_tree) : Prop := exists n x, parseFilename (tree_path e) delim = Ret n /\ parseFiletype n = Ret x.
Fixpoint well_named (t : fs_tree) : Prop :=
  has_name t /\ match t with TFile _ => True | TDir _ es => NoDup (entry_name <$> es) /\ foldr (fun e P => well_named e /\ P) True es end.
Definition all_named (es : list fs_tree) : Prop := NoDup (entry_name <$> es) /\ Forall well_named es.
Lemma well_named_dir p es : well_named (TDir p es) -> has_name (TDir p es) /\ all_named es.
Proof. cbn. intros (H1 & H2 & H3). split; [done|]. split; [done|]. clear -H3. induction es as [|e es IH]; [done|]. destruct H3. constructor; auto. Qed.

(** The entry under a list of names. *)
Definition find_entry (n : cstring) (es : list fs_tree) : option fs_tree := snd <$> list_find (fun e => entry_name e = n) es.
Fixpoint tree_at (t : fs_tree) (names : list cstring) : option fs_tree :=
  match names with
  | [] => Some t
  | n :: names => match t with TFile _ => None | TDir _ es => find_entry n es ≫= fun e => tree_at e names end
  end.
(** The node under a list of names. *)
Fixpoint walk (h : Nodes) (i : N) (names : list cstring) : option N :=
  match names with [] => Some i | n :: names => f ← node_at h !! i; c ← children f !! n; walk h c names end.

Definition describes (h : Nodes) (i : N) (e : fs_tree) : Prop := exists f, node_at h !! i = Some f /\
  fileName f = entry_name e /\ absolutePath f = tree_path e /\ isFile f = is_file e /\ type f = entry_type e (entry_name e).
Definition corresponds (h : Nodes) (i : N) (e : fs_tree) : Prop := forall names,
  match tree_at e names with Some e' => exists j, walk h i names = Some j /\ describes h j e' | None => walk h i names = None end.
(** In a range of nodes every child is in the range and knows its parent. *)
Definition linked (h : Nodes) (lo hi : N) : Prop := forall j f n k, (lo <= j < hi)%N -> node_at h !! j = Some f -> children f !! n = Some k ->
  (lo <= k < hi)%N /\ exists g, node_at h !! k = Some g /\ parent g = Some j.
Definition agree (h h' : Nodes) (lo hi : N) : Prop := forall j, (lo <= j < hi)%N -> node_at h' !! j = node_at h !! j.

Lemma walk_agree h h' lo hi names : agree h h' lo hi -> linked h lo hi -> forall i, (lo <= i < hi)%N ->
  walk h' i names = walk h i names /\ forall j, walk h i names = Some j -> (lo <= j < hi)%N.
Proof.
  intros Ha Hl. induction names as [|n names IH]; intros i Hi; [split; [done|]; intros j [= <-]; done|]. cbn. rewrite (Ha i Hi).
  destruct (node_at h !! i) as [f|] eqn:Ef; [|done]. cbn. destruct (children f !! n) as [c|] eqn:Ec; [|done]. cbn. apply IH. by eapply Hl.
Qed.
Lemma corresponds_agree h h' lo hi i e : agree h h' lo hi -> linked h lo hi -> (lo <= i < hi)%N -> corresponds h i e -> corresponds h' i e.
Proof.
  intros Ha Hl Hi Hc names. destruct (walk_agree h h' lo hi names Ha Hl i Hi) as [Hw Hin]. specialize (Hc names). rewrite Hw. destruct (tree_at e names) as [e'|]; [|done].
  destruct Hc as (j & Hj & f & Hf & Hd). exists j. split; [done|]. exists f. split; [by rewrite (Ha j (Hin j Hj))|done].
Qed.
Lemma linked_agree h h' lo hi : agree h h' lo hi -> linked h lo hi -> linked h' lo hi.
Proof.
  intros Ha Hl j f n k Hj Hf Hc. rewrite (Ha j Hj) in Hf. destruct (Hl j f n k Hj Hf Hc) as [Hk Hg]. split; [done|]. by rewrite (Ha k Hk).
Qed.

(** The children after the entries were added. *)
Definition kids_over (m : gmap cstring N) (es : list fs_tree) (ids : list N) : gmap cstring N := foldl (fun m x => <[entry_name (fst x) := snd x]> m) m (zip es ids).
Lemma kids_lookup es ids : forall m n, NoDup (entry_name <$> es) -> length es = length ids ->
  kids_over m es ids !! n = match list_find (fun e => entry_name e = n) es with Some (i, _) => ids !! i | None => m !! n end.
Proof.
  revert ids. induction es as [|e es IH]; intros [|i ids] m n Hnd Hl; try done. cbn in Hl |- *. apply NoDup_cons in Hnd as [He Hnd].
  change (foldl _ _ (zip es ids)) with (kids_over (<[entry_name e := i]> m) es ids). rewrite IH by (done || lia). destruct (decide (entry_name e = n)) as [<-|Hn].
  - destruct (list_find _ es) as [[k x]|] eqn:E; [|by rewrite lookup_insert_eq]. exfalso. apply list_find_Some in E as (Hk & Hx & _). apply He, list_elem_of_fmap.
    exists x. split; [done|by eapply list_elem_of_lookup_2].
  - rewrite lookup_insert_ne by done. by destruct (list_find _ es) as [[k x]|].
Qed.

Definition bounded (h : Nodes) : Prop := forall j, is_Some (node_at h !! j) -> (j < next_node h)%N.
(** What reading adds below a node: a range of nodes that are linked, for each entry
    the node that corresponds to it; other nodes stay. *)
Record added (h h' : Nodes) (p : N) (P : FileInfo) (es : list fs_tree) (ids : list N) : Prop := mkAdded {
  added_next : (next_node h <= next_node h')%N;
  added_bounded : bounded h';
  added_parent : node_at h' !! p = Some (with_children (kids_over (children P) es ids) P);
  added_rest : forall j, (j < next_node h)%N -> j <> p -> node_at h' !! j = node_at h !! j;
  added_linked : linked h' (next_node h) (next_node h');
  added_ids : Forall2 (fun e i => (next_node h <= i < next_node h')%N /\ corresponds h' i e /\ exists g, node_at h' !! i = Some g /\ parent g = Some p) es ids
}.

Lemma file_corresponds h i p f : node_at h !! i = Some f -> describes h i (TFile p) -> children f = ∅ -> corresponds h i (TFile p).
Proof. intros Hf Hd Hc [|n names]; cbn; [by exists i|]. by rewrite Hf; cbn; rewrite Hc, lookup_empty. Qed.
Lemma dir_corresponds h i p es f ids (Q : fs_tree -> N -> Prop) : node_at h !! i = Some f -> describes h i (TDir p es) -> children f = kids_over ∅ es ids -> NoDup (entry_name <$> es) ->
  Forall2 (fun e i => corresponds h i e) es ids -> corresponds h i (TDir p es).
Proof.
  intros Hf Hd Hc Hnd Hids [|n names]; [by exists i|]. cbn. rewrite Hf. cbn. rewrite Hc, (kids_lookup es ids ∅ n Hnd (Forall2_length _ _ _ Hids)).
  unfold find_entry. destruct (list_find _ es) as [[k e]|] eqn:E; [|by rewrite lookup_empty]. apply list_find_Some in E as (Hk & _ & _). cbn.
  destruct (Forall2_lookup_l _ _ _ _ _ Hids Hk) as (c & Hck & Hcor). rewrite Hck. cbn. apply Hcor.
Qed.

Lemma added_nil h p P : bounded h -> node_at h !! p = Some P -> added h h p P [] [].
Proof. intros Hb HP. split; [lia|done| |done|intros j f n k Hj; lia|constructor]. rewrite HP. by destruct P. Qed.
Lemma added_cons h h1 h2 p P e es i ids : bounded h -> node_at h !! p = Some P -> added h h1 p P [e] [i] ->
  added h1 h2 p (with_children (kids_over (children P) [e] [i]) P) es ids -> added h h2 p P (e :: es) (i :: ids).
Proof.
  intros Hb HP [H1 H2 H3 H4 H5 H6] [G1 G2 G3 G4 G5 G6]. assert (p < next_node h)%N as Hp by (apply Hb; by eexists).
  assert (agree h1 h2 (next_node h) (next_node h1)) as Ha by (intros j Hj; apply G4; lia).
  pose proof (linked_agree h1 h2 _ _ Ha H5) as L1. split; [lia|done|by rewrite G3| | |].
  - intros j Hj Hjp. rewrite G4 by lia. by apply H4.
  - intros j f n k Hj Hf Hc. destruct (decide (j < next_node h1)%N) as [Hlt|Hge].
    + destruct (L1 j f n k) as [Hk Hg]; [lia|done|done|]. split; [lia|done].
    + destruct (G5 j f n k) as [Hk Hg]; [lia|done|done|]. split; [lia|done].
  - inversion H6 as [|? ? ? ? (Hi & Hc & g & Hg & Hgp) _]; subst. constructor.
    + split; [lia|]. split; [by apply (corresponds_agree h1 h2 (next_node h) (next_node h1))|]. exists g. split; [by rewrite (Ha i Hi)|done].
    + eapply Forall2_impl; [exact G6|]. intros e' i' (Hi' & Hc' & Hg'). split; [lia|done].
Qed.

(** A new node with what was read below it, put among the children of its parent. *)
Lemma added_entry h h1 h2 p P e f es ids : bounded h -> node_at h !! p = Some P -> children f = ∅ -> parent f = Some p -> NoDup (entry_name <$> es) ->
  fileName f = entry_name e -> absolutePath f = tree_path e -> isFile f = is_file e -> type f = entry_type e (entry_name e) ->
  match e with TFile _ => es = [] | TDir _ l => es = l end ->
  added (fst (new_node f h)) h1 (next_node h) f es ids -> set_child p (entry_name e) (next_node h) h1 = Ret h2 -> added h h2 p P [e] [next_node h].
Proof.
  intros Hb HP Hf Hfp Hnd Hn Ha Hi Ht Hes [H1 H2 H3 H4 H5 H6] Hset. cbn [new_node fst next_node node_at] in *. set (i := next_node h) in *.
  assert (p < i)%N as Hp by (apply Hb; by eexists). assert (node_at h1 !! p = Some P) as HP1 by (rewrite H4 by lia; by rewrite lookup_insert_ne by lia).
  unfold set_child in Hset. rewrite HP1 in Hset. cbn in Hset. injection Hset as <-. rewrite Hf in H3. set (f1 := with_children (kids_over ∅ es ids) f) in *.
  assert (forall j, (i <= j)%N -> <[p:=with_children (<[entry_name e:=i]> (children P)) P]> (node_at h1) !! j = node_at h1 !! j) as Hsame by (intros j Hj; rewrite lookup_insert_ne by lia; done).
  split; cbn [next_node node_at].
  - lia.
  - intros j. cbn. destruct (decide (j = p)) as [->|Hj]; [lia|]. rewrite lookup_insert_ne by done. apply H2.
  - by rewrite lookup_insert_eq.
  - intros j Hj Hjp. rewrite lookup_insert_ne by done. rewrite H4 by lia. by rewrite lookup_insert_ne by lia.
  - intros j g n k Hj. cbn [node_at]. rewrite Hsame by lia. intros Hg Hc. destruct (decide (j = i)) as [->|Hji].
    + rewrite H3 in Hg. injection Hg as <-. cbn in Hc. rewrite (kids_lookup es ids ∅ n Hnd (Forall2_length _ _ _ H6)) in Hc.
      destruct (list_find _ es) as [[x e']|] eqn:E; [|by rewrite lookup_empty in Hc]. destruct (Forall2_lookup_r _ _ _ _ _ H6 Hc) as (y & _ & Hk & _ & g & Hg & Hgp).
      split; [lia|]. exists g. rewrite Hsame by lia. done.
    + destruct (H5 j g n k) as [Hk (g' & Hg' & Hgp)]; [lia|done|done|]. split; [lia|]. exists g'. rewrite Hsame by lia. done.
  - constructor; [|constructor]. split; [lia|]. assert (<[p:=with_children (<[entry_name e:=i]> (children P)) P]> (node_at h1) !! i = Some f1) as Hf1 by (by rewrite Hsame by lia).
    split; [|by exists f1]. destruct e as [q|q l]; subst.
    + apply (file_corresponds _ i q f1); [done|by exists f1|]. cbn. by inversion H6; subst.
    + apply (dir_corresponds _ i q l f1 ids (fun _ _ => True)); [done|by exists f1|done|done|].
      eapply Forall2_impl; [exact H6|]. intros e' i' (Hi' & Hc' & _).
      eapply (corresponds_agree h1 _ (next_node h + 1) (next_node h1)); [intros j Hj; cbn; apply Hsame; lia|done|lia|done].
Qed.
End Tree.

(** *** Reading *)
Section Reading.
Context (delim : ascii).

Lemma read_all es : Forall (fun e => well_named delim e -> forall p h P, bounded h -> node_at h !! p = Some P -> exists h', read_entry delim e p h = Ret h' /\ added delim h h' p P [e] [next_node h]) es ->
  Forall (well_named delim) es -> forall p h P, bounded h -> node_at h !! p = Some P -> exists h' ids, foldM (fun e h => read_entry delim e p h) es h = Ret h' /\ added delim h h' p P es ids.
Proof.
  induction 1 as [|e es He _ IH]; intros Hn p h P Hb HP; [exists h, []; split; [done|by apply added_nil]|]. apply Forall_cons in Hn as [Hne Hn].
  destruct (He Hne p h P Hb HP) as (h1 & E1 & A1). destruct (IH Hn p h1 _ (added_bounded _ _ _ _ _ _ _ A1) (added_parent _ _ _ _ _ _ _ A1)) as (h2 & ids & E2 & A2).
  exists h2, (next_node h :: ids). cbn. rewrite E1, bind_Ret. split; [exact E2|]. by apply (added_cons delim h h1 h2).
Qed.
Lemma bounded_new f h : bounded h -> bounded (fst (new_node f h)).
Proof.
  intros Hb j. cbn. destruct (decide (j = next_node h)) as [->|Hj]; [lia|]. rewrite lookup_insert_ne by done. intros H%Hb. lia.
Qed.
Lemma set_child_there p name i h P : node_at h !! p = Some P -> exists h', set_child p name i h = Ret h'.
Proof. intros HP. unfold set_child. rewrite HP. by eexists. Qed.

Lemma read_entry_spec e : well_named delim e -> forall p h P, bounded h -> node_at h !! p = Some P -> exists h', read_entry delim e p h = Ret h' /\ added delim h h' p P [e] [next_node h].
Proof.
  induction e as [q|q es IH] using fs_tree_ind'; intros Hw p h P Hb HP.
  - destruct Hw as [(n & x & Hn & Hx) _]. assert (entry_name delim (TFile q) = n) as En by (unfold entry_name; by rewrite Hn).
    cbn [read_entry]. rewrite Hn, bind_Ret, Hx, bind_Ret. cbn [tree_path is_file entry_type]. set (f := mkFileInfo _ _ _ _ _ _ _). cbn -[set_child].
    assert (p <> next_node h) as Hp by (intros ->; assert (next_node h < next_node h)%N by (apply Hb; by eexists); lia).
    destruct (set_child_there p n (next_node h) (fst (new_node f h)) P) as [h2 Hset]; [cbn; by rewrite lookup_insert_ne|]. exists h2. split; [exact Hset|].
    eapply (added_entry delim h (fst (new_node f h)) h2 p P (TFile q) f [] []); try solve [done|by rewrite En|apply NoDup_nil_2].
    apply added_nil; [by apply bounded_new|cbn; by rewrite lookup_insert_eq].
  - apply well_named_dir in Hw as [(n & x & Hn & Hx) [Hnd Hes]]. assert (entry_name delim (TDir q es) = n) as En by (unfold entry_name; by rewrite Hn).
    cbn [read_entry]. rewrite Hn, bind_Ret, Hx, bind_Ret. cbn [tree_path is_file entry_type]. set (f := mkFileInfo _ _ _ _ _ _ _). cbn -[set_child foldM].
    assert (p <> next_node h) as Hp by (intros ->; assert (next_node h < next_node h)%N by (apply Hb; by eexists); lia).
    destruct (read_all es IH Hes (next_node h) (fst (new_node f h)) f) as (h1 & ids & E1 & A1); [by apply bounded_new|cbn; by rewrite lookup_insert_eq|].
    cbn [new_node fst] in E1. rewrite E1, bind_Ret.
    destruct (set_child_there p n (next_node h) h1 P) as [h2 Hset].
    { assert (p < next_node h)%N by (apply Hb; by eexists). rewrite (added_rest _ _ _ _ _ _ _ A1); [cbn; by rewrite lookup_insert_ne|cbn; lia|done]. }
    exists h2. split; [exact Hset|]. eapply (added_entry delim h h1 h2 p P (TDir q es) f es ids); solve [done|by rewrite En].
Qed.
Lemma read_entries es p h P : all_named delim es -> bounded h -> node_at h !! p = Some P ->
  exists h' ids, foldM (fun e h => read_entry delim e p h) es h = Ret h' /\ added delim h h' p P es ids.
Proof. intros [_ Hes]. apply read_all; [|done]. apply Forall_forall. intros e _ He p' h' P'. by apply read_entry_spec. Qed.

(** Below a node the entries of a directory, as deep as they are. *)
Definition mirrors (h : Nodes) (p : N) (es : list fs_tree) : Prop := forall n names,
  match find_entry delim n es ≫= fun e => tree_at delim e names with
  | Some e => exists j, walk h p (n :: names) = Some j /\ describes delim h j e
  | None => walk h p (n :: names) = None
  end.
Definition knows_parent (h : Nodes) (j : N) : Prop := forall f n k, node_at h !! j = Some f -> children f !! n = Some k -> exists g, node_at h !! k = Some g /\ parent g = Some j.

Lemma added_mirrors h h1 h2 p P es ids f : added delim h h1 p P es ids -> NoDup (entry_name delim <$> es) -> agree h1 h2 (next_node h) (next_node h1) ->
  node_at h2 !! p = Some f -> children f = kids_over delim ∅ es ids -> mirrors h2 p es /\ knows_parent h2 p /\ forall j, (next_node h <= j < next_node h1)%N -> knows_parent h2 j.
Proof.
  intros A Hnd Ha Hf Hc. pose proof (added_ids _ _ _ _ _ _ _ A) as Hids. pose proof (linked_agree h1 h2 _ _ Ha (added_linked _ _ _ _ _ _ _ A)) as L. split; [|split].
  - intros n names. cbn [walk]. rewrite Hf. cbn. rewrite Hc, (kids_lookup delim es ids ∅ n Hnd (Forall2_length _ _ _ Hids)).
    unfold find_entry. destruct (list_find _ es) as [[k e]|] eqn:E; [|by rewrite lookup_empty]. apply list_find_Some in E as (Hk & _ & _). cbn.
    destruct (Forall2_lookup_l _ _ _ _ _ Hids Hk) as (c & Hck & Hcr & Hcor & _). rewrite Hck. cbn.
    apply (corresponds_agree delim h1 h2 (next_node h) (next_node h1) c e Ha (added_linked _ _ _ _ _ _ _ A) Hcr Hcor).
  - intros f' n k Hf' Hk. rewrite Hf in Hf'. injection Hf' as <-. rewrite Hc, (kids_lookup delim es ids ∅ n Hnd (Forall2_length _ _ _ Hids)) in Hk.
    destruct (list_find _ es) as [[x e]|]; [|by rewrite lookup_empty in Hk]. destruct (Forall2_lookup_r _ _ _ _ _ Hids Hk) as (e' & _ & Hr & _ & g & Hg & Hgp). exists g. by rewrite (Ha k Hr).
  - intros j Hj f' n k Hf' Hk. by destruct (L j f' n k Hj Hf' Hk) as [_ Hg].
Qed.

(** C6. The window shows the project directory: under each list of names the node of the
    entry on the disk, nothing else, and every node knows its parent. *)
Theorem directory_mirrored disk q es (Hd : disk (str ".") = Some (TDir q es)) (Hn : all_named delim es) : exists w, make delim disk = Ret w
  /\ mirrors (nodes w) (rootDir w) es /\ (forall j, knows_parent (nodes w) j) /\ currentDir w = rootDir w /\ lastDir w = rootDir w.
Proof.
  set (h := mkNodes 1 {[0%N := root]}).
  assert (bounded h) as Hb by (intros j; unfold h; cbn; destruct (decide (j = 0%N)) as [->|Hj]; [lia|rewrite lookup_singleton_ne by done; by intros [? ?]]).
  destruct (read_entries es 0%N h root Hn Hb (lookup_singleton_eq _ _)) as (h' & ids & E & A). pose proof (added_parent _ _ _ _ _ _ _ A) as HP. unfold make, readDirectory. rewrite Hd. fold h. rewrite E, bind_Ret, HP.
  cbn [deref]. rewrite bind_Ret. eexists. split; [reflexivity|]. cbn [nodes rootDir currentDir lastDir].
  match goal with |- mirrors ?x _ _ /\ _ => set (h2 := x) end.
  assert (agree h' h2 (next_node h) (next_node h')) as Ha by (intros j Hj; cbn in Hj |- *; by rewrite lookup_insert_ne by lia).
  destruct (added_mirrors h h' h2 0%N root es ids _ A (proj1 Hn) Ha (lookup_insert_eq _ _ _) eq_refl) as (H1 & H2 & H3).
  split; [exact H1|]. split; [|done]. intros j. destruct (decide (j = 0%N)) as [->|Hj]; [exact H2|]. destruct (decide (j < next_node h')%N) as [Hl|Hl]; [apply H3; cbn; lia|].
  intros f n k Hf. cbn in Hf. rewrite lookup_insert_ne in Hf by done. exfalso. apply Hl, (added_bounded _ _ _ _ _ _ _ A). by eexists.
Qed.

(** *** Moving and reading again *)
Inductive action := Open (i : N) | Back | Forward.
Definition act (a : action) (w : AssetsWindow) : outcome AssetsWindow :=
  match a with Open i => Ret (open_folder i w) | Back => go_back w | Forward => Ret (go_forward w) end.
Definition live (w : AssetsWindow) : Prop := is_Some (node_at (nodes w) !! currentDir w) /\ is_Some (node_at (nodes w) !! lastDir w).
Definition parents_live (h : Nodes) : Prop := forall j f p, node_at h !! j = Some f -> parent f = Some p -> is_Some (node_at h !! p).

(** However one moves between the folders, the folder shown is a node, and the left
    arrow then the right one shows the same folder. *)
Theorem moving_is_safe acts w (Hp : parents_live (nodes w)) (Hl : live w) (Ho : forall i, Open i ∈ acts -> is_Some (node_at (nodes w) !! i)) :
  exists w', foldM act acts w = Ret w' /\ nodes w' = nodes w /\ live w'
  /\ forall w2, go_back w' = Ret w2 -> currentDir w2 <> currentDir w' -> currentDir (go_forward w2) = currentDir w'.
Proof.
  assert (forall w', exists v : unit, forall w2, go_back w' = Ret w2 -> currentDir w2 <> currentDir w' -> currentDir (go_forward w2) = currentDir w') as Hback.
  { intros w'. exists tt. intros w2. unfold go_back. destruct (node_at (nodes w') !! currentDir w') as [f|]; [|done]. cbn [deref]. rewrite bind_Ret. by destruct (parent f); intros [= <-]. }
  revert w Hp Hl Ho. induction acts as [|a acts IH]; intros w Hp Hl Ho; [exists w; repeat split; try done; try apply Hl; by destruct (Hback w)|].
  assert (exists w1, act a w = Ret w1 /\ nodes w1 = nodes w /\ live w1) as (w1 & E & Hn & Hl1).
  { destruct a as [i| |]; cbn [act].
    - eexists. split; [reflexivity|]. split; [done|]. split; apply Ho; by left.
    - unfold go_back. destruct (proj1 Hl) as [f Hf]. rewrite Hf. cbn [deref]. rewrite bind_Ret. eexists. split; [reflexivity|]. destruct (parent f) as [p|] eqn:Ep; [|by split].
      split; [done|]. split; [by eapply Hp|by exists f].
    - eexists. split; [reflexivity|]. split; [done|]. split; apply Hl. }
  destruct (IH w1) as (w' & E' & Hn' & H'); [by rewrite Hn|done|intros i Hi; rewrite Hn; apply Ho; by right|]. exists w'. cbn. rewrite E, bind_Ret. split; [exact E'|]. split; [congruence|exact H'].
Qed.

(** What reading a folder again leaves. *)
Lemma free_lookup (l : list N) (m : gmap N FileInfo) j : foldr (fun c m => delete c m) m l !! j = if decide (j ∈ l) then None else m !! j.
Proof.
  induction l as [|c l IH]; cbn; [by rewrite decide_False by set_solver|]. destruct (decide (j = c)) as [->|Hj]; [rewrite lookup_delete_eq, decide_True by set_solver; done|].
  rewrite lookup_delete_ne, IH by done. by destruct (decide (j ∈ l)); [rewrite decide_True by set_solver|rewrite decide_False by set_solver].
Qed.
Lemma child_below n h i f name k : node_at h !! i = Some f -> children f !! name = Some k -> k ∈ below (S n) h i.
Proof.
  intros Hf Hk. cbn. rewrite Hf. apply list_elem_of_bind. exists k. split; [by left|]. apply list_elem_of_fmap. exists (name, k). split; [done|]. by apply elem_of_map_to_list.
Qed.
Lemma refresh_spec w f disk q es : bounded (nodes w) -> node_at (nodes w) !! currentDir w = Some f -> disk (absolutePath f) = Some (TDir q es) -> all_named delim es ->
  exists h w' ids, clear_children (currentDir w) (nodes w) = Ret h /\ refresh delim disk w = Ret w' /\ added delim h (nodes w') (currentDir w) (with_children ∅ f) es ids
  /\ next_node h = next_node (nodes w) /\ currentDir w' = currentDir w /\ lastDir w' = lastDir w.
Proof.
  intros Hb Hf Hd Hn. unfold refresh, clear_children. rewrite Hf. cbn [deref]. rewrite !bind_Ret. set (h := mkNodes _ _).
  assert (node_at h !! currentDir w = Some (with_children ∅ f)) as Hh by apply lookup_insert_eq. rewrite Hh. cbn [deref]. rewrite bind_Ret. cbn [with_children absolutePath]. unfold readDirectory. rewrite Hd.
  destruct (read_entries es (currentDir w) h (with_children ∅ f) Hn) as (h' & ids & E & A).
  - intros j. cbn. destruct (decide (j = currentDir w)) as [->|Hj]; [intros _; apply Hb; by exists f|]. rewrite lookup_insert_ne, free_lookup by done. case_decide; [by intros [? ?]|apply Hb].
  - exact Hh.
  - exists h, (with_nodes h' w), ids. rewrite E, bind_Ret. done.
Qed.

(** Reading a folder again, the window shows what the disk has there now. *)
Theorem refresh_mirrors w f disk q es (Hb : bounded (nodes w)) (Hf : node_at (nodes w) !! currentDir w = Some f) (Hd : disk (absolutePath f) = Some (TDir q es)) (Hn : all_named delim es) :
  exists w', refresh delim disk w = Ret w' /\ mirrors (nodes w') (currentDir w') es /\ knows_parent (nodes w') (currentDir w').
Proof.
  destruct (refresh_spec w f disk q es Hb Hf Hd Hn) as (h & w' & ids & _ & E & A & _ & Ec & _). exists w'. split; [done|]. rewrite Ec.
  destruct (added_mirrors h (nodes w') (nodes w') (currentDir w) (with_children ∅ f) es ids (with_children (kids_over delim ∅ es ids) (with_children ∅ f)) A (proj1 Hn)) as (H1 & H2 & _); [done|by apply A|done|done].
Qed.

(** The folder one came back from is freed with the children of the folder read again:
    the right arrow then leads to a node that is gone. *)
Lemma refresh_dangles w f name disk q es order flt : bounded (nodes w) -> node_at (nodes w) !! currentDir w = Some f -> children f !! name = Some (lastDir w) ->
  is_Some (node_at (nodes w) !! lastDir w) -> lastDir w <> currentDir w -> disk (absolutePath f) = Some (TDir q es) -> all_named delim es ->
  exists w', refresh delim disk w = Ret w' /\ shown_files order flt (go_forward w') = Exn NullDeref.
Proof.
  intros Hb Hf Hk Hl Hne Hd Hn. destruct (refresh_spec w f disk q es Hb Hf Hd Hn) as (h & w' & ids & Eh & E & A & Hnext & _ & El). exists w'. split; [done|].
  unfold shown_files, go_forward. cbn [with_dirs nodes currentDir]. rewrite El. rewrite (added_rest _ _ _ _ _ _ _ A) by (rewrite ?Hnext; auto).
  unfold clear_children in Eh. rewrite Hf in Eh. cbn [deref] in Eh. rewrite bind_Ret in Eh. injection Eh as <-. cbn [node_at]. rewrite lookup_insert_ne, free_lookup by done.
  rewrite decide_True; [done|]. destruct (size (node_at (nodes w))) as [|n] eqn:Es; [|by eapply child_below].
  apply map_size_empty_inv in Es. rewrite Es in Hf. by rewrite lookup_empty in Hf.
Qed.
End Reading.

(** *** On a small disk *)
Definition small : list fs_tree := [TFile (str "./a.txt"); TDir (str "./dir") [TFile (str "./dir/b.png")]].
Definition small_disk (path : cstring) : option fs_tree := if decide (path = str ".") then Some (TDir path small) else None.
Lemma has_nameb_spec delim e : match parseFilename (tree_path e) delim with Ret n => match parseFiletype n with Ret _ => true | _ => false end | _ => false end = true -> has_name delim e.
Proof. unfold has_name. destruct (parseFilename _ _) as [n|] eqn:E; [|done]. destruct (parseFiletype n) as [x|] eqn:E2; [|done]. by exists n, x. Qed.
Lemma small_named : all_named "/"%char small.
Proof.
  split; [by apply (bool_decide_eq_true_1 _); vm_compute|]. repeat constructor; try (by apply has_nameb_spec; vm_compute). by apply (bool_decide_eq_true_1 _); vm_compute.
Qed.
Lemma directory_mirrored_witness : exists w, make "/"%char small_disk = Ret w /\ mirrors "/"%char (nodes w) (rootDir w) small.
Proof.
  destruct (directory_mirrored "/"%char small_disk (str ".") small eq_refl small_named) as (w & H1 & H2 & _). exists w. split; [exact H1|exact H2].
Defined.
Definition small_nodes : Nodes := mkNodes 2 {[0%N := mkFileInfo [] [] (str ".") false Normal None {[str "dir" := 1%N]}; 1%N := mkFileInfo (str "dir") (str "dir") (str "./dir") false Folder (Some 0%N) ∅]}.
Definition small_window : AssetsWindow := mkAssetsWindow small_nodes 0 0 0 true false.
Lemma small_lookup j f : node_at small_nodes !! j = Some f -> (j = 0%N \/ j = 1%N) /\ (parent f = None \/ parent f = Some 0%N).
Proof. unfold small_nodes. cbn [node_at]. intros [[<- <-]|[_ [<- <-]%lookup_singleton_Some]]%lookup_insert_Some; cbn; auto. Qed.
Lemma moving_is_safe_witness : exists w', foldM act [Open 1%N; Back; Forward; Back; Back] small_window = Ret w' /\ live w'.
Proof.
  destruct (moving_is_safe [Open 1%N; Back; Forward; Back; Back] small_window) as (w' & H1 & _ & H2 & _).
  - intros j f p Hf Hp. destruct (small_lookup j f Hf) as [_ [E|E]]; rewrite E in Hp; [done|]. injection Hp as <-. by eexists.
  - split; by eexists.
  - intros i Hi. assert (i = 1%N) as -> by set_solver. by eexists.
  - exists w'. split; [exact H1|exact H2].
Defined.
Lemma refresh_mirrors_witness : exists w', refresh "/"%char small_disk small_window = Ret w' /\ mirrors "/"%char (nodes w') (currentDir w') small.
Proof.
  destruct (refresh_mirrors "/"%char small_window (mkFileInfo [] [] (str ".") false Normal None {[str "dir" := 1%N]}) small_disk (str ".") small) as (w' & H1 & H2 & _).
  - intros j [f Hf]. destruct (small_lookup j f Hf) as [[->| ->] _]; cbn; lia.
  - reflexivity.
  - reflexivity.
  - exact small_named.
  - exists w'. split; [exact H1|exact H2].
Defined.
(** After the left arrow and reading again, the right arrow shows a folder that is gone. *)
Example arrow_dangles : (w ← make "/"%char small_disk; w ← go_back (open_folder 2 w); w ← refresh "/"%char small_disk w; shown_files map_to_list (fun _ => true) (go_forward w)) = Exn NullDeref.
Proof. vm_compute. reflexivity. Qed.
(** A name of dots alone has no type. *)
Example dots_no_type : parseFiletype (str "..") = Exn OutOfBounds.
Proof. reflexivity. Qed.
End AssetProps.
