(* ===== verification/Application.v ===== *)
(** * Application: the main-thread queue and the frame

    Models the part of [Application.cpp] that is the engine's own control flow:
    [postOnMainThread] and [executeAll], the order of the steps of a frame, and
    window resizing.  Callbacks are values of a parameter: what one answers, what
    it does to the rest of the program and what it posts itself. *)

From S2P Require Import Prelude.
From stdpp Require Import base decidable list sets gmap.
From Stdlib Require Import ZArith Lia.

(** ** The queue *)
Module MainThread.
Section MainThread.
Context {W : Type}.

(** Callbacks are numbered.  A callback run in the state [W] gives its answer, the
    new state, and the posts it makes (an empty [std::function] is [None]). *)
Abbreviation callback := N.
Context (run_callback : callback -> W -> bool * W * list (option callback)).

(** [executeQueue] with the promises as numbers; [values] are the promises that
    have been set, in order, and [dropped] those destroyed unset. *)
Record Queue := mkQueue {
  executeQueue : list (N * option callback);
  next_promise : N;
  values : list (N * bool);
  dropped : list N;
  world : W
}.

Definition postOnMainThread (c : option callback) (q : Queue) : Queue :=
  mkQueue (executeQueue q ++ [(next_promise q, c)]) (next_promise q + 1) (values q) (dropped q) (world q).

(** One turn of the loop of [executeAll]: the front is moved out and run; an
    empty function leaves its promise unset. *)
Definition execute_one (p : N) (c : option callback) (q : Queue) : Queue :=
  match c with
  | Some c =>
      let '(answer, w, posts) := run_callback c (world q) in
      let q := fold_left (fun q c => postOnMainThread c q) posts
                 (mkQueue (executeQueue q) (next_promise q) (values q) (dropped q) w) in
      mkQueue (executeQueue q) (next_promise q) (values q ++ [(p, answer)]) (dropped q) (world q)
  | None => mkQueue (executeQueue q) (next_promise q) (values q) (dropped q ++ [p]) (world q)
  end.

Fixpoint executeAll (fuel : nat) (q : Queue) : outcome Queue :=
  match fuel with
  | O => Exn OutOfFuel
  | S fuel =>
      match executeQueue q with
      | [] => Ret q
      | (p, c) :: rest =>
          executeAll fuel (execute_one p c (mkQueue rest (next_promise q) (values q) (dropped q) (world q)))
      end
  end.

(** The callbacks a post leads to: itself and what it posts, to the depth [n]. *)
Fixpoint posts_within (n : nat) (c : option callback) : Prop :=
  match c with
  | None => True
  | Some c =>
      match n with
      | O => False
      | S n => forall w, let '(_, _, posts) := run_callback c w in Forall (posts_within n) posts
      end
  end.

(** Promises are numbered in the order of posting: those set so far and those
    waiting are in increasing order, below the next number. *)
Definition InOrder (q : Queue) : Prop :=
  ForallOrdPairs N.lt ((values q).*1 ++ (executeQueue q).*1)
  /\ forall p, p ∈ (values q).*1 ++ (executeQueue q).*1 -> (p < next_promise q)%N.

Lemma post_InOrder c q : InOrder q -> InOrder (postOnMainThread c q).
Proof.
  intros [H1 H2]. unfold InOrder. cbn. rewrite fmap_app, app_assoc. split.
  - apply FOP_app. split; [done|]. split; [repeat constructor|]. intros x y Hx Hy.
    cbn in Hy. apply list_elem_of_singleton in Hy as ->. by apply H2.
  - intros p [Hp| ->%list_elem_of_singleton]%elem_of_app; [apply H2 in Hp; lia|cbn; lia].
Qed.

Lemma posts_spec l : forall q, let q' := fold_left (fun q c => postOnMainThread c q) l q in
  values q' = values q /\ (exists new, executeQueue q' = executeQueue q ++ new /\ new.*2 = l)
  /\ (InOrder q -> InOrder q').
Proof.
  induction l as [|c l IH]; intros q; cbn; [split; [done|]; split; [exists []; by rewrite app_nil_r|done]|].
  destruct (IH (postOnMainThread c q)) as (H1 & (new & H2 & H3) & H4). split; [done|].
  split; [|intros; by apply H4, post_InOrder].
  exists ((next_promise q, c) :: new). cbn in H2. rewrite <- app_assoc in H2. split; [done|]. cbn. by rewrite H3.
Qed.

(** One turn: the promise of a real callback is set; what is posted is appended. *)
Lemma execute_one_spec n p c rest q : executeQueue q = (p, c) :: rest -> posts_within (S n) c -> InOrder q ->
  exists new, let q' := execute_one p c (mkQueue rest (next_promise q) (values q) (dropped q) (world q)) in
    executeQueue q' = rest ++ new /\ Forall (posts_within n) new.*2 /\ InOrder q'
    /\ (c ≠ None -> p ∈ (values q').*1) /\ (forall x, x ∈ (values q).*1 -> x ∈ (values q').*1).
Proof.
  intros Hq Hw [Ho Hlt]. rewrite Hq in Ho, Hlt. cbn in Ho, Hlt. destruct c as [c|].
  - cbn [execute_one world]. specialize (Hw (world q)). cbn in Hw.
    destruct (run_callback c (world q)) as [[answer w] posts].
    set (q1 := mkQueue rest (next_promise q) (values q) (dropped q) w).
    destruct (posts_spec posts q1) as (Hv & (new & Hnew & Hl) & _). cbn [values executeQueue q1] in Hv, Hnew.
    exists new. cbv zeta. cbn [executeQueue values next_promise dropped]. fold q1. split; [done|]. split; [by rewrite Hl|].
    split; [|rewrite fmap_app, Hv; cbn; split; [set_solver|intros x Hx; set_solver]].
    set (q2 := mkQueue rest (next_promise q) (values q ++ [(p, answer)]) (dropped q) w).
    assert (InOrder q2) as H2.
    { unfold InOrder. cbn. rewrite fmap_app, <- app_assoc. cbn. done. }
    destruct (posts_spec posts q2) as (Hv2 & (new2 & Hnew2 & Hl2) & Hio). specialize (Hio H2).
    assert (forall l a b, executeQueue a = executeQueue b -> next_promise a = next_promise b ->
      executeQueue (fold_left (fun q c => postOnMainThread c q) l a) = executeQueue (fold_left (fun q c => postOnMainThread c q) l b)
      /\ next_promise (fold_left (fun q c => postOnMainThread c q) l a) = next_promise (fold_left (fun q c => postOnMainThread c q) l b)) as Hsame.
    { induction l as [|x l IH]; intros a b E1 E2; [done|]. cbn. apply IH; cbn; congruence. }
    destruct (Hsame posts q1 q2 eq_refl eq_refl) as [E1 E2]. unfold InOrder in *. cbn [values executeQueue next_promise].
    rewrite Hv, E1, E2. by rewrite Hv2 in Hio.
  - exists []. cbn. rewrite app_nil_r. split; [done|]. split; [constructor|]. split; [|done]. split.
    + apply FOP_app in Ho as (H1 & H2 & H3). apply FOP_app. inversion H2; subst. split; [done|]. split; [done|].
      intros x y Hx Hy. apply H3; set_solver.
    + cbn. intros x Hx. apply Hlt. set_solver.
Qed.
(** A generation: the callbacks that were in the queue run, and the queue then
    holds what they posted. *)
Lemma generation n : forall l1 l2 q, executeQueue q = l1 ++ l2 -> Forall (posts_within (S n)) l1.*2 ->
  Forall (posts_within n) l2.*2 -> InOrder q ->
  exists q', (forall fuel, executeAll (length l1 + fuel) q = executeAll fuel q')
    /\ Forall (posts_within n) (executeQueue q').*2 /\ InOrder q'
    /\ (forall x, x ∈ (values q).*1 -> x ∈ (values q').*1)
    /\ (forall p c, (p, Some c) ∈ l1 -> p ∈ (values q').*1)
    /\ exists new, executeQueue q' = l2 ++ new.
Proof.
  induction l1 as [|[p c] l1 IH]; intros l2 q Hq H1 H2 Ho.
  { exists q. split; [done|]. rewrite Hq. split; [done|]. split; [done|]. split; [done|]. split; [set_solver|].
    exists []. by rewrite app_nil_r. }
  apply Forall_cons in H1 as [Hc H1]. cbn [fst snd] in Hc.
  destruct (execute_one_spec n p c (l1 ++ l2) q Hq Hc Ho) as (new & Hq1 & Hnew & Ho1 & Hp & Hv).
  set (q1 := execute_one p c _) in *. rewrite <- app_assoc in Hq1.
  destruct (IH (l2 ++ new) q1 Hq1 H1) as (q' & Hrun & Hw & Ho' & Hv' & Hreal & new' & Hend); [|done|].
  { rewrite fmap_app. by apply Forall_app. }
  exists q'. split; [|split; [done|split; [done|split; [auto|split]]]].
  - intros fuel. cbn [length Nat.add executeAll]. rewrite Hq. cbn [app]. apply Hrun.
  - intros p' c' [[= -> <-]|Hin]%elem_of_cons; [apply Hv', Hp; done|by eapply Hreal].
  - exists (new ++ new'). by rewrite Hend, app_assoc.
Qed.

Lemma posts_within_S n c : posts_within n c -> posts_within (S n) c.
Proof.
  revert c. induction n as [|n IH]; intros [c|]; [done|done| |done]. cbn. intros H w. specialize (H w).
  destruct (run_callback c w) as [[? ?] posts]. eapply Forall_impl; [exact H|]. apply IH.
Qed.

(** Empty functions are popped and their promises dropped. *)
Lemma drain_empty l : forall q, executeQueue q = l -> Forall (posts_within 0) l.*2 -> InOrder q ->
  exists fuel q', executeAll fuel q = Ret q' /\ executeQueue q' = [] /\ InOrder q'
    /\ forall x, x ∈ (values q).*1 -> x ∈ (values q').*1.
Proof.
  induction l as [|[p [c|]] l IH]; intros q Hq Hw Ho.
  - exists 1, q. cbn. by rewrite Hq.
  - by apply Forall_cons in Hw as [[] _].
  - apply Forall_cons in Hw as [_ Hw].
    destruct (execute_one_spec 0 p None l q Hq I Ho) as (new & _ & _ & Ho1 & _ & Hv1).
    destruct (IH (execute_one p None (mkQueue l (next_promise q) (values q) (dropped q) (world q)))) as (f & q2 & Hr & He & Ho2 & Hv2);
      [done|done|done|].
    exists (S f), q2. cbn [executeAll]. rewrite Hq. split; [exact Hr|]. split; [done|]. split; [done|]. auto.
Qed.

Lemma executeAll_runs n : forall q, InOrder q -> Forall (posts_within n) (executeQueue q).*2 ->
  exists fuel q', executeAll fuel q = Ret q' /\ executeQueue q' = [] /\ InOrder q'
    /\ (forall x, x ∈ (values q).*1 -> x ∈ (values q').*1)
    /\ (forall p c, (p, Some c) ∈ executeQueue q -> p ∈ (values q').*1).
Proof.
  induction n as [|n IH]; intros q Ho Hw.
  - destruct (generation 0 (executeQueue q) [] q) as (q' & Hrun & Hw' & Ho' & Hv & Hreal & new & Hend).
    { by rewrite app_nil_r. }
    { eapply Forall_impl; [exact Hw|]. intros c. apply posts_within_S. }
    { constructor. }
    { done. }
    destruct (drain_empty (executeQueue q') q' eq_refl Hw' Ho') as (f & q2 & Hr & He & Ho2 & Hv2).
    exists (length (executeQueue q) + f), q2. rewrite Hrun. split; [done|]. split; [done|]. split; [done|]. split; [auto|eauto].
  - destruct (generation n (executeQueue q) [] q) as (q' & Hrun & Hw' & Ho' & Hv & Hreal & _); [by rewrite app_nil_r|done|constructor|done|].
    destruct (IH q' Ho' Hw') as (f & q2 & Hr & He & Ho2 & Hv2 & _).
    exists (length (executeQueue q) + f), q2. rewrite Hrun. split; [done|]. split; [done|]. split; [done|]. split; [auto|eauto].
Qed.

End MainThread.
Arguments Queue : clear implicits.

(** [executeAll] terminates whenever callbacks post only to a bounded depth: the
    queue is then empty, every callback that was waiting has run and its promise
    is set, and promises are set in the order in which the callbacks were posted. *)
Theorem executeAll_fifo {W} (run_callback : N -> W -> bool * W * list (option N)) n q :
  InOrder q -> Forall (posts_within run_callback n) (executeQueue q).*2 ->
  exists fuel q', executeAll run_callback fuel q = Ret q' /\ executeQueue q' = []
    /\ ForallOrdPairs N.lt (values q').*1
    /\ (forall p c, (p, Some c) ∈ executeQueue q -> p ∈ (values q').*1).
Proof.
  intros Ho Hw. destruct (executeAll_runs run_callback n q Ho Hw) as (f & q' & Hr & He & [Ho' _] & _ & Hreal).
  exists f, q'. split; [done|]. split; [done|]. split; [|done]. rewrite He, app_nil_r in Ho'. done.
Qed.

(** Callback 0 adds one to a counter; callback 1 does so too and posts 0 and an
    empty function; callback 2 posts itself. *)
Definition demo_run (c : N) (w : nat) : bool * nat * list (option N) :=
  match c with
  | 0%N => (true, S w, [])
  | 1%N => (true, S w, [Some 0%N; None])
  | _ => (false, w, [Some 2%N])
  end.

Definition demo_queue : Queue nat :=
  postOnMainThread (Some 0%N) (postOnMainThread None (postOnMainThread (Some 1%N) (mkQueue [] 0 [] [] 0))).

Lemma executeAll_fifo_witness : exists fuel q', executeAll demo_run fuel demo_queue = Ret q' /\ executeQueue q' = []
  /\ ForallOrdPairs N.lt (values q').*1
  /\ (forall p c, (p, Some c) ∈ executeQueue demo_queue -> p ∈ (values q').*1).
Proof.
  apply (executeAll_fifo demo_run 2).
  - unfold demo_queue. do 3 apply post_InOrder. split; [constructor|]. cbn. set_solver.
  - repeat constructor.
Defined.

(** The promises set and dropped in that run: a post without a function is never
    answered. *)
Example demo_execute :
  (fun q => (values q, dropped q, world q)) <$> executeAll demo_run 10 demo_queue
  = Ret ([(0, true); (2, true); (3, true)]%N, [1; 4]%N, 3).
Proof. by vm_compute. Qed.

(** A callback that posts itself again keeps [executeAll], and the frame it
    belongs to, from ending. *)
Theorem executeAll_livelock fuel w :
  executeAll demo_run fuel (postOnMainThread (Some 2%N) (mkQueue [] 0 [] [] w)) = Exn OutOfFuel.
Proof.
  change (mkQueue [] 0 [] [] w) with (@mkQueue nat [] 0 [] [] w).
  assert (forall p v d, executeAll demo_run fuel (mkQueue [(p, Some 2%N)] (p + 1) v d w) = Exn OutOfFuel) as H; [|apply (H 0%N)].
  induction fuel as [|fuel IH]; intros p v d; [done|]. cbn. apply IH.
Qed.

End MainThread.
