(* ===== verification/Input.v ===== *)
(** * Input: the state of keyboard and mouse

    Models [Devices/Input.*], the window callbacks of [Window/WindowWin.cpp] that
    feed it through the event dispatcher, and the order in which a frame of
    [Application.cpp] clears and fills it.  The theorems say when a handler stays
    inside its tables, that the tables say what happened last to each key and
    button, and in which part of a frame a key press can be seen. *)

From S2P Require Import Prelude Float32 Event.
From stdpp Require Import functions.
From stdpp Require Import base decidable list sets gmap.
From Stdlib Require Import ZArith SpecFloat Lia.
Import Events.
Local Open Scope Z_scope.

(** ** Key codes *)
Module KeyCode.

(** [enum class Id : uint16_t]: any 16-bit value can be cast to it. *)
Definition Id_cast (key : Z) : Z := wrapU 16 key.

Definition ButtonLeft : Z := 0.
Definition ButtonMiddle : Z := 1.
Definition ButtonRight : Z := 2.

End KeyCode.

(** ** The native events of GLFW and the callbacks of the window *)
Module WindowWin.

Definition GLFW_RELEASE : Z := 0.
Definition GLFW_PRESS : Z := 1.
Definition GLFW_REPEAT : Z := 2.
Definition GLFW_MOUSE_BUTTON_LEFT : Z := 0.
Definition GLFW_MOUSE_BUTTON_RIGHT : Z := 1.
Definition GLFW_MOUSE_BUTTON_MIDDLE : Z := 2.
Definition GLFW_KEY_UNKNOWN : Z := -1.

Inductive Native : Type :=
  | WindowSize (w h : Z)
  | MouseButton (btnId state : Z) (x y : f64)
  | CursorPos (x y : f64)
  | Scroll (xOffset yOffset x y : f64)       (* with the cursor position *)
  | Char (keycode : Z)
  | Key (key action : Z).

Definition position (x y : f64) : vec2 := mkVec2 (F64.to_f32 x) (F64.to_f32 y).

Definition button (btnId : Z) : Z :=
  if btnId =? GLFW_MOUSE_BUTTON_LEFT then 0
  else if btnId =? GLFW_MOUSE_BUTTON_MIDDLE then 1
  else if btnId =? GLFW_MOUSE_BUTTON_RIGHT then 2
  else -1.

(** The events a native event makes the window post. *)
Definition registerNativeEvent (n : Native) : list Event :=
  match n with
  | WindowSize w h => [WindowResizeEvent w h]
  | MouseButton b state x y =>
      (if (state =? GLFW_PRESS) || (state =? GLFW_REPEAT) then [MouseClickEvent (button b) (position x y)] else [])
      ++ (if state =? GLFW_RELEASE then [MouseReleaseEvent (button b) (position x y)] else [])
  | CursorPos x y => [MouseMoveEvent (position x y)]
  | Scroll xo yo x y => [MouseScrolledEvent (F64.to_f32 xo) (F64.to_f32 yo) (position x y)]
  | Char keycode => [CharInputEvent (KeyCode.Id_cast keycode) (wrapS 8 keycode)]
  | Key key action =>
      if action =? GLFW_PRESS then [KeyPressedEvent (KeyCode.Id_cast key) 0]
      else if action =? GLFW_RELEASE then [KeyReleasedEvent (KeyCode.Id_cast key)]
      else if action =? GLFW_REPEAT then [KeyPressedEvent (KeyCode.Id_cast key) 1]
      else []
  end.
End WindowWin.

(** ** The input state *)
Module Input.

Definition MAX_KEYS : nat := 1024.
Definition MAX_BUTTONS : nat := 32.

Record Input := mkInput {
  keyPressed : list bool;
  keyHeld : list bool;
  mouseHeld : list bool;
  mouseClicked : list bool;
  scrollOffset : f32;
  mouseOnScreen : bool;
  windowFocus : bool;
  mousePosition : vec2
}.

(** [table[int32_t(key)] = a]. *)
Definition store (l : list bool) (key : Z) (a : bool) : outcome (list bool) :=
  _ ← at_Z l key; Ret (<[Z.to_nat key := a]> l).

Definition setKeyPressed (key : Z) (a : bool) (i : Input) : outcome Input :=
  l ← store (keyPressed i) key a;
  Ret (mkInput l (keyHeld i) (mouseHeld i) (mouseClicked i) (scrollOffset i) (mouseOnScreen i) (windowFocus i) (mousePosition i)).
Definition setKeyHeld (key : Z) (a : bool) (i : Input) : outcome Input :=
  l ← store (keyHeld i) key a;
  Ret (mkInput (keyPressed i) l (mouseHeld i) (mouseClicked i) (scrollOffset i) (mouseOnScreen i) (windowFocus i) (mousePosition i)).
Definition setMouseHeld (key : Z) (a : bool) (i : Input) : outcome Input :=
  l ← store (mouseHeld i) key a;
  Ret (mkInput (keyPressed i) (keyHeld i) l (mouseClicked i) (scrollOffset i) (mouseOnScreen i) (windowFocus i) (mousePosition i)).
Definition setMouseClicked (key : Z) (a : bool) (i : Input) : outcome Input :=
  l ← store (mouseClicked i) key a;
  Ret (mkInput (keyPressed i) (keyHeld i) (mouseHeld i) l (scrollOffset i) (mouseOnScreen i) (windowFocus i) (mousePosition i)).
Definition setScrollOffset (o : f32) (i : Input) : Input :=
  mkInput (keyPressed i) (keyHeld i) (mouseHeld i) (mouseClicked i) o (mouseOnScreen i) (windowFocus i) (mousePosition i).
Definition setMousePosition (p : vec2) (i : Input) : Input :=
  mkInput (keyPressed i) (keyHeld i) (mouseHeld i) (mouseClicked i) (scrollOffset i) (mouseOnScreen i) (windowFocus i) p.
Definition setMouseOnScreen (b : bool) (i : Input) : Input :=
  mkInput (keyPressed i) (keyHeld i) (mouseHeld i) (mouseClicked i) (scrollOffset i) b (windowFocus i) (mousePosition i).
Definition setWindowFocus (b : bool) (i : Input) : Input :=
  mkInput (keyPressed i) (keyHeld i) (mouseHeld i) (mouseClicked i) (scrollOffset i) (mouseOnScreen i) b (mousePosition i).

Definition isKeyPressed (key : Z) (i : Input) : outcome bool := at_Z (keyPressed i) key.
Definition isKeyHeld (key : Z) (i : Input) : outcome bool := at_Z (keyHeld i) key.
Definition isMouseClicked (key : Z) (i : Input) : outcome bool := at_Z (mouseClicked i) key.
Definition isMouseHeld (key : Z) (i : Input) : outcome bool := at_Z (mouseHeld i) key.

(** [memset(table, 0, n)] over a table of [n] bytes. *)
Definition reset (i : Input) : Input :=
  mkInput (replicate MAX_KEYS false) (replicate MAX_KEYS false) (replicate MAX_BUTTONS false) (replicate MAX_BUTTONS false)
    F32.zero true true (mousePosition i).
Definition resetPressed (i : Input) : Input :=
  mkInput (replicate MAX_KEYS false) (keyHeld i) (mouseHeld i) (replicate MAX_BUTTONS false)
    F32.zero (mouseOnScreen i) (windowFocus i) (mousePosition i).

(** The constructor sets up the handler and resets the tables; the position is
    whatever the memory held. *)
Definition Input_new (junk : vec2) : Input :=
  reset (mkInput [] [] [] [] F32.zero false false junk).

Definition onKeyPressed (keyCode repeatCount : Z) (i : Input) : outcome Input :=
  i ← setKeyPressed keyCode (repeatCount <? 1) i; setKeyHeld keyCode true i.
Definition onKeyReleased (keyCode : Z) (i : Input) : outcome Input :=
  i ← setKeyPressed keyCode false i; setKeyHeld keyCode false i.
Definition onMousePressed (buttonId : Z) (i : Input) : outcome Input :=
  i ← setMouseClicked buttonId true i; setMouseHeld buttonId true i.
Definition onMouseReleased (buttonId : Z) (i : Input) : outcome Input :=
  i ← setMouseClicked buttonId false i; setMouseHeld buttonId false i.
Definition onMouseScrolled (yOffset : f32) (i : Input) : outcome Input := Ret (setScrollOffset yOffset i).
Definition onMouseMoved (position : vec2) (i : Input) : outcome Input := Ret (setMousePosition position i).

(** The members the constructor binds; every handler answers false. *)
Definition bound : list Slot :=
  [mouseScrollHandler; mouseClickHandler; mouseRelaseHandler; mouseMoveHandler; keyPressedHandler; keyReleasedHandler].

Definition handle (ev : Event) (i : Input) : outcome Input :=
  match ev with
  | KeyPressedEvent k r => onKeyPressed k r i
  | KeyReleasedEvent k => onKeyReleased k i
  | MouseClickEvent b _ => onMousePressed b i
  | MouseReleaseEvent b _ => onMouseReleased b i
  | MouseScrolledEvent _ y _ => onMouseScrolled y i
  | MouseMoveEvent p => onMouseMoved p i
  | _ => Ret i
  end.
End Input.

(** ** What the handlers do to the tables *)
Module InputProps.
Import WindowWin Input.

(** The tables have their declared sizes. *)
Record WF (i : Input) : Prop := mkWF {
  wf_pressed : length (keyPressed i) = MAX_KEYS;
  wf_held : length (keyHeld i) = MAX_KEYS;
  wf_mouse : length (mouseHeld i) = MAX_BUTTONS;
  wf_clicked : length (mouseClicked i) = MAX_BUTTONS
}.

Definition in_range (ev : Event) : bool :=
  match ev with
  | KeyPressedEvent k _ | KeyReleasedEvent k => (0 <=? k) && (k <? 1024)
  | MouseClickEvent b _ | MouseReleaseEvent b _ => (0 <=? b) && (b <? 32)
  | _ => true
  end.

Lemma store_spec l key a :
  store l key a = if (0 <=? key) && (key <? Z.of_nat (length l)) then Ret (<[Z.to_nat key := a]> l) else Exn OutOfBounds.
Proof.
  unfold store, at_Z, vec_at. destruct (Z.leb_spec 0 key); [|done]. cbn [andb].
  destruct (l !! Z.to_nat key) as [x|] eqn:E.
  - apply lookup_lt_Some in E. by rewrite (proj2 (Z.ltb_lt _ _)) by lia.
  - apply lookup_ge_None in E. by rewrite (proj2 (Z.ltb_ge _ _)) by lia.
Qed.

(** The effect of an event whose code is in range. *)
Definition after (ev : Event) (i : Input) : Input :=
  match ev with
  | KeyPressedEvent k r =>
      mkInput (<[Z.to_nat k := r <? 1]> (keyPressed i)) (<[Z.to_nat k := true]> (keyHeld i)) (mouseHeld i) (mouseClicked i)
        (scrollOffset i) (mouseOnScreen i) (windowFocus i) (mousePosition i)
  | KeyReleasedEvent k =>
      mkInput (<[Z.to_nat k := false]> (keyPressed i)) (<[Z.to_nat k := false]> (keyHeld i)) (mouseHeld i) (mouseClicked i)
        (scrollOffset i) (mouseOnScreen i) (windowFocus i) (mousePosition i)
  | MouseClickEvent b _ =>
      mkInput (keyPressed i) (keyHeld i) (<[Z.to_nat b := true]> (mouseHeld i)) (<[Z.to_nat b := true]> (mouseClicked i))
        (scrollOffset i) (mouseOnScreen i) (windowFocus i) (mousePosition i)
  | MouseReleaseEvent b _ =>
      mkInput (keyPressed i) (keyHeld i) (<[Z.to_nat b := false]> (mouseHeld i)) (<[Z.to_nat b := false]> (mouseClicked i))
        (scrollOffset i) (mouseOnScreen i) (windowFocus i) (mousePosition i)
  | MouseScrolledEvent _ y _ => setScrollOffset y i
  | MouseMoveEvent p => setMousePosition p i
  | _ => i
  end.

Lemma handle_spec ev i : WF i -> handle ev i = if in_range ev then Ret (after ev i) else Exn OutOfBounds.
Proof.
  intros [H1 H2 H3 H4]. destruct ev; try done;
    cbn [handle in_range after]; unfold onKeyPressed, onKeyReleased, onMousePressed, onMouseReleased;
    unfold setMouseClicked, setKeyPressed, setKeyHeld, setMouseHeld; rewrite store_spec, ?H1, ?H4;
    unfold MAX_KEYS, MAX_BUTTONS; destruct (_ && _) eqn:E; try done;
    cbn [mbind outcome_bind keyHeld mouseHeld]; rewrite store_spec, ?H2, ?H3;
    unfold MAX_KEYS, MAX_BUTTONS; by rewrite E.
Qed.

Lemma after_WF ev i : WF i -> WF (after ev i).
Proof. intros []. by destruct ev; constructor; cbn; rewrite ?length_insert. Qed.

Definition demo_input : Input := Input_new (mkVec2 F32.zero F32.zero).

Lemma reset_WF i : WF (reset i).
Proof. by constructor; cbn; rewrite ?length_replicate. Qed.
Lemma resetPressed_WF i : WF i -> WF (resetPressed i).
Proof. intros []. by constructor; cbn; rewrite ?length_replicate. Qed.

(** ** The specification: what happened last *)

(** The last answer [f] gives on a list of events, or the value before it. *)
Definition latest {A} (f : Event -> option A) (evs : list Event) (old : A) : A := default old (last (omap f evs)).

Lemma latest_cons {A} (f : Event -> option A) ev evs old :
  latest f (ev :: evs) old = latest f evs (default old (f ev)).
Proof.
  unfold latest. cbn. destruct (f ev) as [a|]; [|done]. rewrite last_cons. by destruct (last (omap f evs)).
Qed.

Lemma latest_app {A} (f : Event -> option A) l1 l2 old : latest f (l1 ++ l2) old = latest f l2 (latest f l1 old).
Proof. revert old. induction l1 as [|e l1 IH]; intros old; [done|]. cbn [app]. by rewrite !latest_cons, IH. Qed.

Definition press (k : Z) (ev : Event) : option bool :=
  match ev with
  | KeyPressedEvent k' r => if decide (k' = k) then Some (r <? 1) else None
  | KeyReleasedEvent k' => if decide (k' = k) then Some false else None
  | _ => None
  end.
Definition hold (k : Z) (ev : Event) : option bool :=
  match ev with
  | KeyPressedEvent k' _ => if decide (k' = k) then Some true else None
  | KeyReleasedEvent k' => if decide (k' = k) then Some false else None
  | _ => None
  end.
Definition click (b : Z) (ev : Event) : option bool :=
  match ev with
  | MouseClickEvent b' _ => if decide (b' = b) then Some true else None
  | MouseReleaseEvent b' _ => if decide (b' = b) then Some false else None
  | _ => None
  end.
Definition scroll (ev : Event) : option f32 := match ev with MouseScrolledEvent _ y _ => Some y | _ => None end.
Definition moved (ev : Event) : option vec2 := match ev with MouseMoveEvent p => Some p | _ => None end.

(** [i'] is what [evs] make of [i]: every key, button, the wheel and the cursor
    are as the last event that concerns them says. *)
Record tracks (evs : list Event) (i i' : Input) : Prop := mkTracks {
  tr_pressed : forall k, 0 <= k -> keyPressed i' !! Z.to_nat k = latest (press k) evs <$> keyPressed i !! Z.to_nat k;
  tr_held : forall k, 0 <= k -> keyHeld i' !! Z.to_nat k = latest (hold k) evs <$> keyHeld i !! Z.to_nat k;
  tr_clicked : forall b, 0 <= b -> mouseClicked i' !! Z.to_nat b = latest (click b) evs <$> mouseClicked i !! Z.to_nat b;
  tr_mouse : forall b, 0 <= b -> mouseHeld i' !! Z.to_nat b = latest (click b) evs <$> mouseHeld i !! Z.to_nat b;
  tr_scroll : scrollOffset i' = latest scroll evs (scrollOffset i);
  tr_moved : mousePosition i' = latest moved evs (mousePosition i);
  tr_window : mouseOnScreen i' = mouseOnScreen i /\ windowFocus i' = windowFocus i
}.

Lemma tracks_nil i : tracks [] i i.
Proof. constructor; try done; intros; by destruct (_ !! _). Qed.

Lemma tracks_cons ev evs i i1 i' : tracks [ev] i i1 -> tracks evs i1 i' -> tracks (ev :: evs) i i'.
Proof.
  intros [P1 H1 C1 M1 S1 V1 W1] [P2 H2 C2 M2 S2 V2 W2].
  constructor; [intros z Hz..| | |];
    [rewrite (P2 z Hz), (P1 z Hz)|rewrite (H2 z Hz), (H1 z Hz)|rewrite (C2 z Hz), (C1 z Hz)|rewrite (M2 z Hz), (M1 z Hz)
    |rewrite S2, S1|rewrite V2, V1|destruct W1, W2; split; congruence];
    try (destruct (_ !! Z.to_nat z); cbn; [|done]; f_equal); by rewrite !latest_cons.
Qed.

Lemma insert_latest (l : list bool) key k b : 0 <= key < Z.of_nat (length l) -> 0 <= k ->
  <[Z.to_nat key := b]> l !! Z.to_nat k = (if decide (key = k) then const b else id) <$> l !! Z.to_nat k.
Proof.
  intros Hkey Hk. destruct (decide (key = k)) as [->|Hne].
  - rewrite list_lookup_insert_eq by lia. destruct (lookup_lt_is_Some_2 l (Z.to_nat k)) as [x ->]; [lia|done].
  - rewrite list_lookup_insert_ne by lia. by destruct (l !! Z.to_nat k).
Qed.

Lemma latest_one {A} (f : Event -> option A) ev old : latest f [ev] old = default old (f ev).
Proof. by rewrite latest_cons. Qed.

Lemma after_tracks ev i : WF i -> in_range ev = true -> tracks [ev] i (after ev i).
Proof.
  intros [H1 H2 H3 H4] Hin. unfold MAX_KEYS, MAX_BUTTONS in *.
  destruct ev; cbn [in_range] in Hin; constructor; cbn; try done; intros z Hz;
    rewrite ?insert_latest by lia; destruct (_ !! Z.to_nat z); cbn; rewrite ?latest_one; cbn; try done;
    by destruct (decide (_ = z)).
Qed.

Lemma handle_all evs i : WF i -> Forall in_range evs ->
  exists i', foldM handle evs i = Ret i' /\ WF i' /\ tracks evs i i'.
Proof.
  intros HI Hevs. revert i HI. induction Hevs as [|ev evs Hev _ IH]; intros i HI; cbn [foldM].
  - exists i. auto using tracks_nil.
  - apply Is_true_true_1 in Hev. rewrite handle_spec, Hev, bind_Ret by done.
    destruct (IH (after ev i) (after_WF ev i HI)) as (i' & E & HI' & HT). exists i'. split; [done|]. split; [done|].
    eapply tracks_cons; [by apply after_tracks|done].
Qed.

(** ** Through the dispatcher *)
Section Frame.
Context {V : Type} (h0 : N) (others : N -> Slot -> Event -> V -> bool * V * list Dispatcher.Call).

(** The functions the constructor binds; every other handler keeps to itself. *)
Definition callback (h : N) (sl : Slot) (ev : Event) (w : outcome Input * V) : bool * (outcome Input * V) * list Dispatcher.Call :=
  if decide (h = h0) then (false, (i ← w.1; handle ev i, w.2), [])
  else let '(ans, v, calls) := others h sl ev w.2 in (ans, (w.1, v), calls).

Definition post_all (d : N) (evs : list Event) (s : Dispatcher.Sys (outcome Input * V)) : Dispatcher.Sys (outcome Input * V) :=
  fold_left (fun s ev => fst (Dispatcher.postEvent d (Some ev) s)) evs s.

(** [window->onUpdate(); dispatcher.dispatchEvents();] *)
Definition poll_and_dispatch (fuel : nat) (d : N) (natives : list Native) (s : Dispatcher.Sys (outcome Input * V)) :
    outcome (Dispatcher.Sys (outcome Input * V)) :=
  Dispatcher.dispatchEvents callback fuel d (post_all d (natives ≫= registerNativeEvent) s).

(** The other handlers of the engine listen to script events only. *)
Definition alone (s : Dispatcher.Sys (outcome Input * V)) : Prop :=
  Dispatcher.slots (Dispatcher.handlers s h0) = bound /\
  forall h sl, h ≠ h0 -> sl ∈ Dispatcher.slots (Dispatcher.handlers s h) -> sl = compileHandler \/ sl = deferredTypeHandler.

Definition of_window (ev : Event) : Prop :=
  match ev with RecompileScriptsEvent _ | DeferredTypeEvent _ => False | _ => True end.

Lemma native_of_window n : Forall of_window (registerNativeEvent n).
Proof.
  destruct n as [w h|b st x y|x y|xo yo x y|c|k a]; cbn; repeat constructor.
  - destruct (_ || _), (_ =? _); repeat constructor.
  - destruct (a =? _); [repeat constructor|]. destruct (a =? _); [repeat constructor|]. destruct (a =? _); repeat constructor.
Qed.

Lemma window_slot ev sl : of_window ev -> slot_of (getType ev) = Some sl -> sl ≠ compileHandler /\ sl ≠ deferredTypeHandler.
Proof. destruct ev; cbn; try done; intros _ [= <-]; done. Qed.

Lemma unbound ev sl m : slot_of (getType ev) = Some sl -> sl ∉ bound -> (m ≫= handle ev) = m.
Proof.
  destruct ev; cbn; try discriminate; intros [= <-] Hb; try (by destruct m);
    destruct Hb; unfold bound; rewrite !elem_of_cons; tauto.
Qed.

Lemma unserved ev m : slot_of (getType ev) = None -> (m ≫= handle ev) = m.
Proof. by destruct ev, m. Qed.

(** Handlers without a function for the event leave everything alone. *)
Lemma dispatch_skip d hs ev (s : Dispatcher.Sys (outcome Input * V)) :
  (forall h sl, h ∈ hs -> slot_of (getType ev) = Some sl -> sl ∉ Dispatcher.slots (Dispatcher.handlers s h)) ->
  Dispatcher.dispatch_loop callback d hs ev s = (false, s).
Proof.
  induction hs as [|h hs IH]; intros Hs; [done|]. cbn [Dispatcher.dispatch_loop].
  assert (Dispatcher.dispatch_loop callback d hs ev s = (false, s)) as E by (apply IH; set_solver).
  destruct (decide (h ∈ _)); [done|]. destruct (slot_of (getType ev)) as [sl|]; [|done].
  rewrite decide_False; [done|]. apply Hs; [by left|done].
Qed.

Definition with_world (s : Dispatcher.Sys (outcome Input * V)) inv w : Dispatcher.Sys (outcome Input * V) :=
  Dispatcher.mkSys (Dispatcher.handlers s) (Dispatcher.dispatchers s) (Dispatcher.nextPromise s) (Dispatcher.fulfilled s) inv w.

Lemma dispatch_one d hs ev s m v : alone s -> of_window ev -> NoDup hs -> h0 ∈ hs ->
  Dispatcher.eventHandlerDeleteSet (Dispatcher.dispatchers s d) = ∅ -> Dispatcher.world s = (m, v) ->
  exists inv, Dispatcher.dispatch_loop callback d hs ev s = (false, with_world s inv (m ≫= handle ev, v)).
Proof.
  intros [Hb Ho] Hev Hnd Hin Hdel Hw.
  assert (forall m', m' = m -> s = with_world s (Dispatcher.invoked s) (m', v)) as Hsame by (intros m' ->; rewrite <- Hw; by destruct s).
  destruct (slot_of (getType ev)) as [sl|] eqn:Esl; cycle 1.
  { exists (Dispatcher.invoked s). rewrite dispatch_skip by congruence. by rewrite <- Hsame by by apply unserved. }
  assert (forall h, h ≠ h0 -> sl ∉ Dispatcher.slots (Dispatcher.handlers s h)) as Hother.
  { intros h Hne Hsl. destruct (window_slot ev sl Hev Esl). by destruct (Ho h sl Hne Hsl). }
  destruct (decide (sl ∈ bound)) as [Hsl|Hsl]; cycle 1.
  { exists (Dispatcher.invoked s). rewrite dispatch_skip.
    - by rewrite <- Hsame by by eapply unbound.
    - intros h sl' Hh E. rewrite Esl in E. injection E as <-. destruct (decide (h = h0)) as [->|Hne]; [by rewrite Hb|by apply Hother]. }
  induction Hnd as [|h hs Hh Hnd IH]; [by apply elem_of_nil in Hin|]. cbn [Dispatcher.dispatch_loop].
  rewrite decide_False by (rewrite Hdel; apply not_elem_of_empty). rewrite Esl.
  destruct (decide (h = h0)) as [->|Hne].
  - rewrite decide_True by (by rewrite Hb). unfold Dispatcher.invoke, callback at 1. rewrite decide_True by done. rewrite Hw.
    cbn [fold_left fst snd]. eexists. apply dispatch_skip. intros h sl' Hin' E. rewrite Esl in E. injection E as <-. cbn. apply Hother. by intros ->.
  - rewrite decide_False by (by apply Hother). apply IH. apply elem_of_cons in Hin as [->|]; done.
Qed.

(** Draining a queue of window events runs the handlers of [Input] on them in order. *)
Lemma drain_input d evs s m v ps : alone s -> Forall of_window evs ->
  Dispatcher.eventQueue (Dispatcher.dispatchers s d) = zip ps (Some <$> evs) -> length ps = length evs ->
  NoDup (Dispatcher.eventHandlers (Dispatcher.dispatchers s d)) -> h0 ∈ Dispatcher.eventHandlers (Dispatcher.dispatchers s d) ->
  Dispatcher.eventHandlerDeleteSet (Dispatcher.dispatchers s d) = ∅ -> Dispatcher.world s = (m, v) ->
  exists s', Dispatcher.drain callback (S (length evs)) d s = Ret s' /\ Dispatcher.world s' = (m ≫= foldM handle evs, v).
Proof.
  intros Ha Hevs. revert s ps m Ha. induction Hevs as [|ev evs Hev _ IH]; intros s ps m Ha Hq Hlen Hnd Hin Hdel Hw.
  - cbn [Dispatcher.drain length]. destruct ps; [|done]. rewrite Hq. cbn. exists s. split; [done|]. rewrite Hw. by destruct m.
  - destruct ps as [|p ps]; [done|]. cbn [length]. remember (S (length evs)) as n eqn:En.
    cbn [Dispatcher.drain]. rewrite Hq. cbn [fmap list_fmap zip zip_with].
    cbn [Dispatcher.dispatchEvent]. rewrite Dispatcher.dispatchers_set_dispatcher, decide_True by done.
    cbn [Dispatcher.eventHandlers].
    match goal with |- context [Dispatcher.dispatch_loop callback d _ ev ?s1] => set (s1' := s1) end.
    destruct (dispatch_one d _ ev s1' m v Ha Hev Hnd Hin) as (inv & ->).
    { unfold s1'. by rewrite Dispatcher.dispatchers_set_dispatcher, decide_True. }
    { done. }
    subst n. match goal with |- context [Dispatcher.drain callback _ d ?s2] => set (s2' := s2) end.
    assert (Dispatcher.dispatchers s2' d = Dispatcher.mkDispatcher (Dispatcher.eventHandlers (Dispatcher.dispatchers s d))
      (Dispatcher.eventHandlerAddSet (Dispatcher.dispatchers s d)) (Dispatcher.eventHandlerDeleteSet (Dispatcher.dispatchers s d))
      (zip ps (Some <$> evs))) as Ed.
    { unfold s2', s1'. cbn. unfold insert, fn_insert. by rewrite decide_True. }
    destruct (IH s2' ps (m ≫= handle ev)) as (s' & -> & Hw'); rewrite ?Ed; cbn; try done.
    { cbn in Hlen. lia. }
    exists s'. split; [done|]. rewrite Hw'. by destruct m.
Qed.

Lemma post_all_spec d evs s : let s' := post_all d evs s in
  Dispatcher.handlers s' = Dispatcher.handlers s /\ Dispatcher.world s' = Dispatcher.world s /\
  (Dispatcher.Inv d s -> Dispatcher.Inv d s') /\
  exists ps, length ps = length evs /\
    Dispatcher.eventQueue (Dispatcher.dispatchers s' d) = Dispatcher.eventQueue (Dispatcher.dispatchers s d) ++ zip ps (Some <$> evs).
Proof.
  revert s. induction evs as [|ev evs IH]; intros s; cbn zeta in *.
  - split_and!; [done..|]. exists []. by rewrite app_nil_r.
  - cbn [post_all fold_left]. change (fold_left _ evs ?x) with (post_all d evs x).
    destruct (IH (fst (Dispatcher.postEvent d (Some ev) s))) as (-> & -> & HI & ps & Hl & Hq).
    split_and!; [done|done|intros H; by apply HI, Dispatcher.postEvent_Inv|].
    exists (Dispatcher.nextPromise s :: ps). split; [cbn; lia|]. rewrite Hq. cbn. unfold insert, fn_insert.
    rewrite decide_True by done. cbn. by rewrite <- app_assoc.
Qed.

Lemma poll_ok d natives s i v : Dispatcher.Inv d s -> Dispatcher.eventDispatcher (Dispatcher.handlers s h0) = Some d ->
  alone s -> Dispatcher.eventQueue (Dispatcher.dispatchers s d) = [] -> Dispatcher.world s = (i, v) ->
  let evs := natives ≫= registerNativeEvent in
  exists s', poll_and_dispatch (S (length evs)) d natives s = Ret s' /\
    Dispatcher.world s' = (i ≫= foldM handle evs, v).
Proof.
  intros HI Hown Ha Hq Hw evs. unfold poll_and_dispatch, Dispatcher.dispatchEvents. fold evs.
  destruct (post_all_spec d evs s) as (Eh & Ew & HI1 & ps & Hl & Eq). specialize (HI1 HI). rewrite Hq in Eq. cbn [app] in Eq.
  destruct (Dispatcher.flush_pending d (post_all d evs s)) as (Hadd & Hdel & Hqueue).
  pose proof (Dispatcher.flush_Inv d _ d HI1) as [Hnd _ Ho].
  change (Dispatcher.handlers (Dispatcher.flush d (post_all d evs s))) with (Dispatcher.handlers (post_all d evs s)) in Ho.
  rewrite Eh in Ho. apply (drain_input d evs _ _ _ ps); try done.
  - unfold alone. change (Dispatcher.handlers (Dispatcher.flush d (post_all d evs s))) with (Dispatcher.handlers (post_all d evs s)).
    by rewrite Eh.
  - unfold evs. clear. induction natives as [|n ns IH]; cbn; [constructor|]. apply Forall_app. split; [apply native_of_window|done].
  - by rewrite Hqueue.
  - apply Ho in Hown as [Hin|[Hin _]]; [rewrite Hadd in Hin; set_solver|done].
  - change (Dispatcher.world (Dispatcher.flush d (post_all d evs s))) with (Dispatcher.world (post_all d evs s)). by rewrite Ew.
Qed.
End Frame.

(** ** The frames of the main loop

    [start] clears the pressed keys, runs the systems (scripts), polls the window,
    dispatches its events and updates the scene.  A frame yields the state the
    systems see and the state the scene sees. *)
Definition frame (natives : list Native) (i : Input) : outcome (Input * Input) :=
  let seen_by_systems := resetPressed i in
  seen_by_scene ← foldM handle (natives ≫= registerNativeEvent) seen_by_systems;
  Ret (seen_by_systems, seen_by_scene).

Fixpoint frames (fs : list (list Native)) (i : Input) : outcome (list (Input * Input)) :=
  match fs with
  | [] => Ret []
  | f :: fs => ab ← frame f i; l ← frames fs ab.2; Ret (ab :: l)
  end.

Definition events (f : list Native) : list Event := f ≫= registerNativeEvent.

Lemma tracks_read evs i i' k x : tracks evs i i' -> 0 <= k -> keyPressed i !! Z.to_nat k = Some x ->
  isKeyPressed k i' = Ret (latest (press k) evs x).
Proof. intros HT Hk Hx. apply at_Z_Some; [done|]. by rewrite (tr_pressed _ _ _ HT), Hx. Qed.

Lemma tracks_read_held evs i i' k x : tracks evs i i' -> 0 <= k -> keyHeld i !! Z.to_nat k = Some x ->
  keyHeld i' !! Z.to_nat k = Some (latest (hold k) evs x).
Proof. intros HT Hk Hx. by rewrite (tr_held _ _ _ HT), Hx. Qed.

Lemma frame_ok f i : WF i -> Forall in_range (events f) ->
  exists i', frame f i = Ret (resetPressed i, i') /\ WF i' /\ tracks (events f) (resetPressed i) i'.
Proof.
  intros HI Hf. destruct (handle_all (events f) (resetPressed i) (resetPressed_WF i HI) Hf) as (i' & E & HI' & HT).
  exists i'. unfold frame. fold (events f). by rewrite E.
Qed.

Lemma no_press k i : 0 <= k < 1024 -> keyPressed (resetPressed i) !! Z.to_nat k = Some false.
Proof. intros Hk. apply lookup_replicate_2. unfold MAX_KEYS. lia. Qed.

(** C31. A handler of [Input] stays inside its tables exactly for the key codes from
    0 to 1023 and the buttons from 0 to 31; it then keeps the sizes of the tables, which
    the constructor sets up. *)
Theorem handle_in_bounds ev i : WF i ->
  (if in_range ev then exists i', handle ev i = Ret i' /\ WF i' else handle ev i = Exn OutOfBounds) /\
  (forall junk, WF (Input_new junk)).
Proof.
  intros HI. split; [|intros; apply reset_WF]. rewrite (handle_spec ev i HI). destruct (in_range ev); [|done].
  eauto using after_WF.
Qed.

Lemma handle_in_bounds_witness :
  (exists i', handle (KeyPressedEvent 65 0) demo_input = Ret i' /\ WF i') /\ (forall junk, WF (Input_new junk)).
Proof. apply (handle_in_bounds (KeyPressedEvent 65 0)), reset_WF. Defined.

(** C30. From the window to the tables: with the handler of [Input] attached to the
    dispatcher, the other handlers listening to script events only, and codes that
    are inside the tables, polling the window and dispatching leaves the tables as the last event that
    concerns each key, button, wheel or cursor says. *)
Theorem window_input_tracks {V} h0 (others : N -> Slot -> Event -> V -> bool * V * list Dispatcher.Call) d natives s i v :
  Dispatcher.Inv d s -> Dispatcher.eventDispatcher (Dispatcher.handlers s h0) = Some d -> alone h0 s ->
  Dispatcher.eventQueue (Dispatcher.dispatchers s d) = [] -> Dispatcher.world s = (Ret i, v) ->
  WF i -> Forall in_range (events natives) ->
  exists s' i', poll_and_dispatch h0 others (S (length (events natives))) d natives s = Ret s' /\
    Dispatcher.world s' = (Ret i', v) /\ WF i' /\ tracks (events natives) i i'.
Proof.
  intros HI Hown Ha Hq Hw Hi Hin.
  destruct (poll_ok h0 others d natives s (Ret i) v HI Hown Ha Hq Hw) as (s' & E & Hw').
  destruct (handle_all (events natives) i Hi Hin) as (i' & E' & HI' & HT). exists s', i'. split; [done|]. split; [|done].
  rewrite Hw', bind_Ret. fold (events natives). by rewrite E'.
Qed.

(** A handler of [Input] at address 1, attached to dispatcher 7. *)
Definition demo_others (h : N) (sl : Slot) (ev : Event) (v : nat) : bool * nat * list Dispatcher.Call := (false, v, []).
Definition demo_start : Dispatcher.Sys (outcome Input * nat) :=
  Dispatcher.mkSys (fun h => Dispatcher.mkHandler 0 (if decide (h = 1%N) then bound else []) None)
    (fun _ => Dispatcher.mkDispatcher [] ∅ ∅ []) 0 [] [] (Ret demo_input, 0%nat).
Definition demo_sys : Dispatcher.Sys (outcome Input * nat) := Dispatcher.addEventHandler 7 1 demo_start.

Lemma demo_sys_ok : Dispatcher.Inv 7 demo_sys /\ alone 1 demo_sys.
Proof.
  split; [apply Dispatcher.addEventHandler_Inv, Dispatcher.initial_Inv; by split|].
  assert (forall h, Dispatcher.slots (Dispatcher.handlers demo_sys h) = if decide (h = 1%N) then bound else []) as Hs.
  { intros h. unfold demo_sys, Dispatcher.addEventHandler, Dispatcher.set_dispatcher, Dispatcher.set_owner, Dispatcher.set_handler.
    cbn. unfold insert, fn_insert. destruct (decide (1%N = h)) as [<-|Hne]; cbn; [done|]. by rewrite decide_False. }
  split; [by rewrite Hs|]. intros h sl Hne. rewrite Hs, decide_False by done. by intros ?%elem_of_nil.
Qed.

Lemma window_input_tracks_witness :
  exists s' i', poll_and_dispatch 1 demo_others 3 7 [Key 65 GLFW_PRESS; Key 65 GLFW_RELEASE] demo_sys = Ret s' /\
    Dispatcher.world s' = (Ret i', 0%nat) /\ WF i' /\
    tracks [KeyPressedEvent 65 0; KeyReleasedEvent 65] demo_input i'.
Proof.
  apply (window_input_tracks 1 demo_others 7 [Key 65 GLFW_PRESS; Key 65 GLFW_RELEASE] demo_sys demo_input 0%nat);
    [apply demo_sys_ok|reflexivity|apply demo_sys_ok|reflexivity|reflexivity|apply reset_WF|].
  vm_compute. repeat constructor.
Defined.

(** Which part of a frame sees a key: the systems never see one pressed, because
    the tables are cleared right before they run and filled after; the scene
    sees the last press or release of its own frame, and the systems see as held
    what all earlier frames left held. *)
Theorem key_presses_seen fs i : WF i -> Forall (fun f => Forall in_range (events f)) fs ->
  exists obs, frames fs i = Ret obs /\ length obs = length fs /\
    forall n f a b k h, fs !! n = Some f -> obs !! n = Some (a, b) -> 0 <= k < 1024 -> isKeyHeld k i = Ret h ->
      isKeyPressed k a = Ret false /\
      isKeyPressed k b = Ret (latest (press k) (events f) false) /\
      isKeyHeld k a = Ret (latest (hold k) (take n fs ≫= events) h).
Proof.
  intros HI Hfs. revert i HI. induction Hfs as [|f fs Hf _ IH]; intros i HI.
  - exists []. split_and!; [done|done|]. intros n f a b k h Hn. by rewrite lookup_nil in Hn.
  - destruct (frame_ok f i HI Hf) as (i1 & E & HI1 & HT). destruct (IH i1 HI1) as (obs & Eo & Hlen & Hobs).
    exists ((resetPressed i, i1) :: obs). cbn [frames]. rewrite E, bind_Ret. cbn [snd]. rewrite Eo, bind_Ret.
    split; [done|]. split; [cbn; lia|]. intros [|n] f' a b k h Hn Ho Hk Hh.
    + injection Hn as <-. injection Ho as <- <-. split_and!.
      * apply at_Z_Some; [lia|]. by apply no_press.
      * eapply tracks_read; [done|lia|]. by apply no_press.
      * done.
    + cbn in Hn, Ho. destruct (at_Z_lookup (keyHeld i) k) as (h1 & Eh & Hh1); [rewrite (wf_held _ HI); unfold MAX_KEYS; lia|].
      unfold isKeyHeld in Hh. rewrite Eh in Hh. injection Hh as ->.
      cbn [take mbind list_bind]. rewrite latest_app. apply (Hobs n f' a b k); [done..|].
      apply at_Z_Some; [lia|]. eapply tracks_read_held; [done|lia|done].
Qed.

Lemma key_presses_seen_witness :
  exists obs, frames [[Key 65 GLFW_PRESS]; []] demo_input = Ret obs /\ length obs = 2%nat /\
    forall n f a b k h, [[Key 65 GLFW_PRESS]; []] !! n = Some f -> obs !! n = Some (a, b) -> 0 <= k < 1024 ->
      isKeyHeld k demo_input = Ret h ->
      isKeyPressed k a = Ret false /\
      isKeyPressed k b = Ret (latest (press k) (events f) false) /\
      isKeyHeld k a = Ret (latest (hold k) (take n [[Key 65 GLFW_PRESS]; []] ≫= events) h).
Proof. apply (key_presses_seen [[Key 65 GLFW_PRESS]; []]); [apply reset_WF|]. by repeat constructor. Defined.

(** A key without a code and a button beyond the third reach the tables as the
    indices 65535 and -1. *)
Theorem native_codes_out_of_range i : WF i ->
  foldM handle (events [Key GLFW_KEY_UNKNOWN GLFW_PRESS]) i = Exn OutOfBounds /\
  (forall b x y, 3 <= b -> foldM handle (events [MouseButton b GLFW_PRESS x y]) i = Exn OutOfBounds).
Proof.
  intros HI. split.
  { change (events [Key GLFW_KEY_UNKNOWN GLFW_PRESS]) with [KeyPressedEvent 65535 0]. cbn [foldM]. by rewrite handle_spec. }
  intros b x y Hb.
  assert (events [MouseButton b GLFW_PRESS x y] = [MouseClickEvent (-1) (position x y)]) as ->.
  { unfold events. cbn [mbind list_bind registerNativeEvent app]. unfold button.
    by rewrite !(proj2 (Z.eqb_neq b _)) by (unfold GLFW_MOUSE_BUTTON_LEFT, GLFW_MOUSE_BUTTON_RIGHT, GLFW_MOUSE_BUTTON_MIDDLE; lia). }
  cbn [foldM]. by rewrite handle_spec.
Qed.

Lemma native_codes_out_of_range_witness :
  foldM handle (events [Key GLFW_KEY_UNKNOWN GLFW_PRESS]) demo_input = Exn OutOfBounds.
Proof. apply (native_codes_out_of_range demo_input), reset_WF. Defined.
End InputProps.
