(* ===== verification/Renderer2D.v ===== *)
(** * Renderer2D: batches of sprites

    Models [Engine/Renderer/Renderer2D.*].  The commands of a frame are written as
    quads into vertex buffers and drawn in batches; a batch holds a bounded number
    of quads and of textures.  The abstract specification is the cutting of the
    commands into pieces that respect the bounds.  Command buffers are the list of
    the draws recorded, executed after the last of them with the one descriptor
    set they all bind; frame buffers and pipelines are graphics I/O. *)

From S2P Require Import Prelude Float32 Geometry GpuBuffers.
From stdpp Require Import base decidable list gmap sets sorting.
From Stdlib Require Import ZArith Lia.
Local Open Scope Z_scope.
Import Glm.

Module Renderer2D.
Import VulkanBuffer VertexBuffer IndexBuffer.

(** ** Configuration *)
Record Config2D := mkConfig {
  maxQuads : Z; quadsSize : Z; bufferSize : Z; indiciesSize : Z; maxTextures : Z; maxBatchDrawCalls : Z
}.

Definition sizeof_Vertex2D : Z := 40.

Definition config0 : Config2D :=
  mkConfig 10000 (sizeof_Vertex2D * 4) (10000 * sizeof_Vertex2D * 4) (10000 * 6) 16 10.
Definition setMaxQuads (quads : Z) (c : Config2D) : Config2D :=
  mkConfig quads (quadsSize c) (u32 (quads * sizeof_Vertex2D * 4)) (u32 (quads * 6)) (maxTextures c) (maxBatchDrawCalls c).

(** ** Data *)

(** [Quad2D] with its texture; the pointer of a texture is a number. *)
Record Quad2D := mkQuad {
  texture : option N; color : vec4; offset : vec2; texCoords : vec2 * vec2 * vec2 * vec2; quad_width : Z; quad_height : Z
}.

Record Vertex2D := mkVertex2D { vertex : vec3; uv : vec3; vcolor : vec4 }.

(** A draw call: the vertex buffer bound and the number of indices.  Every draw
    binds the renderer's one descriptor set, so it is not part of the draw. *)
Record Draw := mkDraw { d_buffer : nat; d_count : Z }.

(** Matrices are glm's: [mul_point m p] is the position [m * vec4(p.x, p.y, 0, 1)],
    [depth m] is [m[3][2]]. *)
Record glm2 := mkGlm2 {
  mat : Type; mul_point : mat -> vec2 -> vec3; depth : mat -> f32; mul : mat -> mat -> mat; inverse : mat -> mat
}.

Section Renderer.
Context (G : glm2).

(** [quad] is a pointer: the quad is a member of a sprite. *)
Record Command2D := mkCommand { quad : N; transform : mat G }.

Record Renderer := mkRenderer {
  commands : list Command2D;
  projView : option (mat G);            (* systemVsUniformBuffer *)
  uniformBuffer : option (mat G);
  vertexBuffers : list (VertexBuffer Vertex2D);
  indexBuffer : IndexBuffer;
  textures : list (option N);
  descriptorSet : DescriptorSet.DescriptorSet N;
  buffer : nat * Z;                     (* the write pointer: a vertex buffer and an offset *)
  config : Config2D;
  indexCount : Z;
  textureCount : Z;
  batchDrawCallIndex : Z;
  draws : list Draw                     (* recorded in the command buffer *)
}.

Definition with_commands (c : list Command2D) (r : Renderer) : Renderer :=
  mkRenderer c (projView r) (uniformBuffer r) (vertexBuffers r) (indexBuffer r) (textures r) (descriptorSet r)
    (buffer r) (config r) (indexCount r) (textureCount r) (batchDrawCallIndex r) (draws r).
Definition with_uniforms (p u : option (mat G)) (r : Renderer) : Renderer :=
  mkRenderer (commands r) p u (vertexBuffers r) (indexBuffer r) (textures r) (descriptorSet r)
    (buffer r) (config r) (indexCount r) (textureCount r) (batchDrawCallIndex r) (draws r).
Definition with_buffers (v : list (VertexBuffer Vertex2D)) (b : nat * Z) (r : Renderer) : Renderer :=
  mkRenderer (commands r) (projView r) (uniformBuffer r) v (indexBuffer r) (textures r) (descriptorSet r)
    b (config r) (indexCount r) (textureCount r) (batchDrawCallIndex r) (draws r).
Definition with_textures (t : list (option N)) (n : Z) (r : Renderer) : Renderer :=
  mkRenderer (commands r) (projView r) (uniformBuffer r) (vertexBuffers r) (indexBuffer r) t (descriptorSet r)
    (buffer r) (config r) (indexCount r) n (batchDrawCallIndex r) (draws r).
Definition with_descriptor (d : DescriptorSet.DescriptorSet N) (r : Renderer) : Renderer :=
  mkRenderer (commands r) (projView r) (uniformBuffer r) (vertexBuffers r) (indexBuffer r) (textures r) d
    (buffer r) (config r) (indexCount r) (textureCount r) (batchDrawCallIndex r) (draws r).
Definition with_counts (i b : Z) (r : Renderer) : Renderer :=
  mkRenderer (commands r) (projView r) (uniformBuffer r) (vertexBuffers r) (indexBuffer r) (textures r) (descriptorSet r)
    (buffer r) (config r) i (textureCount r) b (draws r).
Definition with_draws (ib : IndexBuffer) (d : list Draw) (r : Renderer) : Renderer :=
  mkRenderer (commands r) (projView r) (uniformBuffer r) (vertexBuffers r) ib (textures r) (descriptorSet r)
    (buffer r) (config r) (indexCount r) (textureCount r) (batchDrawCallIndex r) d.

(** ** Construction *)

(** [indices[i .. i + 5]] for [i = 0, 6, ...]; each is a store into the array. *)
Fixpoint index_loop (fuel : nat) (size i off : Z) (l : list Z) : outcome (list Z) :=
  match fuel with
  | O => Exn OutOfFuel
  | S fuel =>
    if i <? size then
      if i + 5 <? size
      then index_loop fuel size (u32 (i + 6)) (u32 (off + 4))
             (l ++ [off + 0; u32 (off + 1); u32 (off + 2); u32 (off + 2); u32 (off + 3); off + 0])
      else Exn OutOfBounds
    else Ret l
  end.

(** A vertex buffer has a cell per vertex. *)
Definition init_buffers (c : Config2D) : outcome (list (VertexBuffer Vertex2D)) :=
  mapM (fun _ : nat => VertexBuffer.resize (bufferSize c / sizeof_Vertex2D) None VertexBuffer.create) (seq 0 (Z.to_nat (maxBatchDrawCalls c))).

(** The constructor gives the sixteen texture slots; [init] the buffers. *)
Definition init (c : Config2D) : outcome Renderer :=
  vbs ← init_buffers c;
  idx ← index_loop (S (Z.to_nat (indiciesSize c))) (indiciesSize c) 0 0 [];
  ib ← IndexBuffer.create idx (indiciesSize c);
  Ret (mkRenderer [] None None vbs ib (replicate 16 None) DescriptorSet.make (0%nat, 0) c 0 0 0 []).

(** ** Vertex buffers by index *)
Definition set_vb (v : VertexBuffer Vertex2D) (r : Renderer) : Renderer :=
  with_buffers (<[Z.to_nat (batchDrawCallIndex r) := v]> (vertexBuffers r)) (buffer r) r.

(** Mapping the current buffer sets the write pointer to its start. *)
Definition map_current (r : Renderer) : outcome Renderer :=
  v ← at_Z (vertexBuffers r) (batchDrawCallIndex r); v ← getPointer v;
  let r := set_vb v r in
  Ret (with_buffers (vertexBuffers r) (Z.to_nat (batchDrawCallIndex r), 0) r).

Definition release_current (r : Renderer) : outcome Renderer :=
  v ← at_Z (vertexBuffers r) (batchDrawCallIndex r); v ← releasePointer v; Ret (set_vb v r).

(** ** Frames *)

Definition begin (r : Renderer) : outcome Renderer := map_current (with_textures (textures r) 0 r).

Definition updateDesciptorSet (r : Renderer) : outcome Renderer :=
  if textureCount r =? 0 then Ret r
  else d ← DescriptorSet.update_images [DescriptorSet.mkImageInfo (textures r) 0] (descriptorSet r);
       Ret (with_descriptor d r).

(** The draw is recorded with the bound buffer. *)
Definition drawIndexed (n : Z) (r : Renderer) : Renderer :=
  with_draws (indexBuffer r) (draws r ++ [mkDraw (Z.to_nat (batchDrawCallIndex r)) n]) r.

Definition present (r : Renderer) : outcome Renderer :=
  if indexCount r =? 0 then release_current r
  else
    r ← updateDesciptorSet r;
    let r := with_draws (setCount (indexCount r) (indexBuffer r)) (draws r) r in
    r ← release_current r;
    let r := drawIndexed (indexCount r) r in
    Ret (with_counts 0 (u32 (batchDrawCallIndex r + 1)) r).

Definition flush (r : Renderer) : outcome Renderer :=
  r ← present r; map_current (with_textures (textures r) 0 r).

Definition find_texture (t : N) (r : Renderer) : option nat :=
  fst <$> list_find (fun x => x = Some t) (take (Z.to_nat (textureCount r)) (textures r)).

(** Slots are counted from 1. *)
Definition submitTexture (t : N) (r : Renderer) : outcome (Renderer * Z) :=
  match find_texture t r with
  | Some i => Ret (r, Z.of_nat i + 1)
  | None =>
    r ← if maxTextures (config r) <=? textureCount r then flush r else Ret r;
    ts ← DescriptorSet.pool_set (Z.to_nat (textureCount r)) (Some t) (textures r);
    let n := u32 (textureCount r + 1) in
    Ret (with_textures ts n r, n)
  end.

(** [*buffer = v; buffer++]. *)
Definition emit (v : Vertex2D) (r : Renderer) : outcome Renderer :=
  vb ← vec_at (vertexBuffers r) (fst (buffer r));
  vb ← VertexBuffer.store (snd (buffer r)) v vb;
  Ret (with_buffers (<[fst (buffer r) := vb]> (vertexBuffers r)) (fst (buffer r), snd (buffer r) + 1) r).

(** The four corners of a quad. *)
Definition corners (q : Quad2D) : list (vec2 * vec2) :=
  let mn := offset q in
  let mx := add2 mn (mkVec2 (F32.of_Z (quad_width q)) (F32.of_Z (quad_height q))) in
  let '(uv0, uv1, uv2, uv3) := texCoords q in
  [(mkVec2 (v2x mn) (v2y mn), uv0); (mkVec2 (v2x mx) (v2y mn), uv1);
   (mkVec2 (v2x mx) (v2y mx), uv2); (mkVec2 (v2x mn) (v2y mx), uv3)].

Definition quad_vertices (q : Quad2D) (m : mat G) (slot : Z) : list Vertex2D :=
  (fun c : vec2 * vec2 => mkVertex2D (mul_point G m (fst c)) (mkVec3 (v2x (snd c)) (v2y (snd c)) (F32.of_Z slot)) (color q)) <$> corners q.

Definition submit_command (quads : gmap N Quad2D) (c : Command2D) (r : Renderer) : outcome Renderer :=
  r ← if indiciesSize (config r) <=? indexCount r then flush r else Ret r;
  q ← deref (quads !! quad c);
  '(r, slot) ← match texture q with Some t => submitTexture t r | None => Ret (r, -1) end;
  r ← foldM emit (quad_vertices q (transform c) slot) r;
  Ret (with_counts (u32 (indexCount r + 6)) (batchDrawCallIndex r) r).

Definition submitQuad (quads : gmap N Quad2D) (r : Renderer) : outcome Renderer :=
  foldM (submit_command quads) (commands r) (with_uniforms (projView r) (projView r) r).

Definition end_ (r : Renderer) : Renderer := with_counts (indexCount r) 0 r.

Definition renderScene (quads : gmap N Quad2D) (r : Renderer) : outcome Renderer :=
  r ← begin r; r ← submitQuad quads r; r ← present r; Ret (end_ r).

(** ** Scenes *)

Definition submit (q : option N) (m : mat G) (r : Renderer) : Renderer :=
  match q with Some q => with_commands (commands r ++ [mkCommand q m]) r | None => r end.

(** [camera] is the projection and the world matrix of the scene's camera; the
    two groups are the sprites and the animated sprites with their world
    matrices; [sort] is std::sort. *)
Definition beginScene (sort : (Command2D -> Command2D -> bool) -> list Command2D -> list Command2D)
    (camera : option (mat G * mat G)) (sprites animated : list (N * mat G)) (r : Renderer) : Renderer :=
  match camera with
  | None => r
  | Some (proj, world) =>
    let r := with_uniforms (Some (mul G proj (inverse G world))) (uniformBuffer r) r in
    let r := with_commands [] r in
    let r := fold_left (fun r x => submit (Some (fst x)) (snd x) r) sprites r in
    let r := fold_left (fun r x => submit (Some (fst x)) (snd x) r) animated r in
    with_commands (sort (fun a b => F32.ltb (depth G (transform a)) (depth G (transform b))) (commands r)) r
  end.

(** ** What the device draws

    A corner is a position with the interpolated data; the vertex shader
    (Assets/shaders/sources/Batch2D.vert) takes the texture from the third
    texture coordinate.  The draws are executed when the command buffer is
    submitted, after the last of them is recorded: all of them read the
    descriptor set as the last batch left it. *)
Definition Corner : Type := vec3 * vec2 * vec4 * option N.

Definition textureID (v : Vertex2D) : Z := F32.to_Z (F32.sub (v3z (uv v)) (F32.lit 1 2)).

Definition shade (images : gmap (Z * nat) (option N)) (v : Vertex2D) : option Corner :=
  let corner t := (vertex v, mkVec2 (v3x (uv v)) (v3y (uv v)), vcolor v, t) in
  if textureID v <? 0 then Some (corner None)
  else match images !! (0, Z.to_nat (textureID v)) with
       | Some (Some t) => Some (corner (Some t))
       | _ => None
       end.

(** Index [k] of a draw, with these images bound: the index, the vertex, the corner. *)
Definition fetch (r : Renderer) (images : gmap (Z * nat) (option N)) (d : Draw) (k : nat) : option Corner :=
  i ← mjoin (cells (ib_base (indexBuffer r)) !! k);
  vb ← vertexBuffers r !! d_buffer d;
  v ← mjoin (cells (base vb) !! Z.to_nat i);
  shade images v.

Definition draw_image (r : Renderer) (images : gmap (Z * nat) (option N)) (d : Draw) : option (list Corner) :=
  mapM (fetch r images d) (seq 0 (Z.to_nat (d_count d))).
Definition execute (r : Renderer) (images : gmap (Z * nat) (option N)) : option (list Corner) :=
  (@concat Corner) <$> mapM (draw_image r images) (draws r).
Definition frame (r : Renderer) : option (list Corner) := execute r (DescriptorSet.images (descriptorSet r)).
End Renderer.
End Renderer2D.

(** ** The specification: cutting the commands into batches *)
Module Batches.
Import Renderer2D.

Definition tex (q : Quad2D) : gset N := match texture q with Some t => {[t]} | None => ∅ end.
Definition tex_set (l : list Quad2D) : gset N := ⋃ (tex <$> l).

(** The textures of a batch in the order in which they get their slots. *)
Definition add_slot (ts : list N) (q : Quad2D) : list N :=
  match texture q with Some t => if decide (t ∈ ts) then ts else ts ++ [t] | None => ts end.
Definition slots (l : list Quad2D) : list N := fold_left add_slot l [].

(** What the slots hold after the batches: each the texture of the last batch
    that has so many. *)
Definition last_slots {M} (ps : list (list (Quad2D * M))) (j : nat) : option N :=
  last (omap (fun p => slots (fst <$> p) !! j) ps).

(** A quad of a batch with textures [texs], seen when the slots hold [view]. *)
Definition resolve (view : nat -> option N) (texs : list N) (q : Quad2D) : option N :=
  match texture q with Some t => x ← list_find (t =.) texs; view (fst x) | None => None end.
Definition seen {M} (view : nat -> option N) (texs : list N) (x : Quad2D * M) : Quad2D * M :=
  let q := fst x in
  (mkQuad (resolve view texs q) (color q) (offset q) (texCoords q) (quad_width q) (quad_height q), snd x).

(** Every batch finds its own textures in the slots. *)
Definition own_slots {M} (view : nat -> option N) (ps : list (list (Quad2D * M))) : Prop :=
  forall p j t, p ∈ ps -> slots (fst <$> p) !! j = Some t -> view j = Some t.

Section Bounds.
Context (mq mt : nat).

(** A batch: at most [mq] quads with at most [mt] textures. *)
Definition piece_ok (l : list Quad2D) : Prop := (length l <= mq)%nat /\ (size (tex_set l) <= mt)%nat.

(** With [n] quads and textures [T] in the current batch, [q] does not fit. *)
Definition full (n : nat) (T : gset N) (q : Quad2D) : bool := bool_decide (mq <= n \/ mt < size (T ∪ tex q))%nat.

(** The batches: the current one is closed when the next quad does not fit. *)
Fixpoint batches {M} (cur xs : list (Quad2D * M)) : list (list (Quad2D * M)) :=
  match xs with
  | [] => match cur with [] => [] | _ => [cur] end
  | x :: xs => if full (length cur) (tex_set (fst <$> cur)) (fst x) then cur :: batches [x] xs else batches (cur ++ [x]) xs
  end.

(** How many batches are closed before the last while [qs] are added greedily. *)
Fixpoint flushes (n : nat) (T : gset N) (qs : list Quad2D) : nat :=
  match qs with
  | [] => 0
  | q :: qs => if full n T q then S (flushes 1 (tex q) qs) else flushes (S n) (T ∪ tex q) qs
  end.

Lemma full_mono n n' T T' q : (n' <= n)%nat -> T' ⊆ T -> full n' T' q = true -> full n T q = true.
Proof.
  unfold full. rewrite !bool_decide_eq_true. intros Hn HT [H|H]; [left; lia|right].
  assert (size (T' ∪ tex q) <= size (T ∪ tex q))%nat by (apply subseteq_size; set_solver). lia.
Qed.

(** More in the current batch costs at least as much and at most one more. *)
Lemma flushes_mono qs : forall n n' T T', (n' <= n)%nat -> T' ⊆ T ->
  (flushes n' T' qs <= flushes n T qs /\ flushes n T qs <= S (flushes n' T' qs))%nat.
Proof.
  induction qs as [|q qs IH]; intros n n' T T' Hn HT; cbn; [lia|].
  destruct (full n' T' q) eqn:E'; [rewrite (full_mono n n' T T' q Hn HT E'); lia|].
  destruct (full n T q); [|apply IH; [lia|set_solver]].
  destruct (IH (S n') 1%nat (T' ∪ tex q) (tex q)); [lia|set_solver|]. lia.
Qed.

Lemma tex_set_cons q l : tex_set (q :: l) = tex q ∪ tex_set l.
Proof. done. Qed.

(** What fits in the current batch is added to it. *)
Lemma flushes_fit p : forall n T rest, (n + length p <= mq)%nat -> (size (T ∪ tex_set p) <= mt)%nat ->
  flushes n T (p ++ rest) = flushes (n + length p) (T ∪ tex_set p) rest.
Proof.
  induction p as [|q p IH]; intros n T rest Hn HT.
  - cbn. rewrite Nat.add_0_r. f_equal. unfold tex_set. cbn. by rewrite (right_id_L ∅ (∪)).
  - cbn [app flushes length] in *. rewrite tex_set_cons, (assoc_L (∪)) in *.
    assert (full n T q = false) as ->.
    { unfold full. apply bool_decide_eq_false.
      assert (size (T ∪ tex q) <= size (T ∪ tex q ∪ tex_set p))%nat by (apply subseteq_size; set_solver). lia. }
    rewrite IH by (done || lia). f_equal. lia.
Qed.

(** Greedy cutting is optimal. *)
Lemma greedy_least ps : Forall piece_ok ps -> (flushes 0 ∅ (concat ps) <= length ps - 1)%nat.
Proof.
  induction 1 as [|p ps [Hp1 Hp2] Hps IH]; cbn; [lia|].
  rewrite flushes_fit by (rewrite ?(left_id_L ∅ (∪)); lia).
  destruct ps as [|p' ps]; [cbn; lia|].
  destruct (flushes_mono (concat (p' :: ps)) (0 + length p) 0 (∅ ∪ tex_set p) ∅) as [_ H]; [lia|set_solver|]. cbn [length] in *. lia.
Qed.

Lemma tex_size q : (size (tex q) <= 1)%nat.
Proof. unfold tex. destruct (texture q); [by rewrite size_singleton|by rewrite size_empty; lia]. Qed.

Lemma tex_set_app l1 l2 : tex_set (l1 ++ l2) = tex_set l1 ∪ tex_set l2.
Proof. unfold tex_set. by rewrite fmap_app, union_list_app_L. Qed.

Lemma tex_set_single q : tex_set [q] = tex q.
Proof. unfold tex_set. cbn. by rewrite (right_id_L ∅ (∪)). Qed.

(** And it is a cutting. *)
Lemma batches_cut {M} xs : (0 < mq)%nat -> (0 < mt)%nat -> forall cur : list (Quad2D * M), piece_ok (fst <$> cur) ->
  concat (batches cur xs) = cur ++ xs /\ Forall (fun p => piece_ok (fst <$> p)) (batches cur xs).
Proof.
  intros Hq Ht. induction xs as [|x xs IH]; intros cur Hcur; cbn.
  - destruct cur; cbn; rewrite ?app_nil_r; split; [done|apply Forall_nil_2|done|by apply Forall_singleton].
  - destruct (full _ _ _) eqn:E.
    + destruct (IH [x]) as [Hc Hp].
      { split; [cbn; lia|]. change ([x].*1) with [fst x]. rewrite tex_set_single. pose proof (tex_size (fst x)). lia. }
      cbn. rewrite Hc. split; [done|]. by constructor.
    + unfold full in E. apply bool_decide_eq_false in E.
      destruct (IH (cur ++ [x])) as [Hc Hp]; [|by rewrite Hc, <- app_assoc].
      split; [rewrite length_fmap, length_app; cbn; lia|]. rewrite fmap_app, tex_set_app. change ([x].*1) with [fst x]. rewrite tex_set_single. lia.
Qed.

Lemma batches_length {M} xs : forall cur : list (Quad2D * M), cur <> [] ->
  length (batches cur xs) = S (flushes (length cur) (tex_set (fst <$> cur)) (fst <$> xs)).
Proof.
  induction xs as [|x xs IH]; intros cur Hne; cbn; [by destruct cur|].
  destruct (full _ _ _); [cbn [length]; rewrite IH by done; change ([x].*1) with [fst x]; by rewrite tex_set_single|].
  rewrite IH by (by destruct cur). rewrite length_app, fmap_app, tex_set_app. change ([x].*1) with [fst x].
  by rewrite tex_set_single, Nat.add_1_r.
Qed.

Lemma full_empty q : (0 < mq)%nat -> (0 < mt)%nat -> full 0 ∅ q = false.
Proof. intros Hq Ht. apply bool_decide_eq_false. rewrite (left_id_L ∅ (∪)). pose proof (tex_size q). lia. Qed.

Lemma batches_count {M} (xs : list (Quad2D * M)) : (0 < mq)%nat -> (0 < mt)%nat -> xs <> [] ->
  length (batches [] xs) = S (flushes 0 ∅ (fst <$> xs)).
Proof.
  intros Hq Ht Hne. destruct xs as [|x xs]; [done|]. cbn. change (tex_set []) with (∅ : gset N). rewrite full_empty by done.
  rewrite batches_length by done. change ([x].*1) with [fst x]. by rewrite tex_set_single, (left_id_L ∅ (∪)).
Qed.

(** No cutting is shorter. *)
Lemma batches_least {M} (xs : list (Quad2D * M)) ps : (0 < mq)%nat -> (0 < mt)%nat -> concat ps = fst <$> xs -> Forall piece_ok ps ->
  (length (batches [] xs) <= length ps)%nat.
Proof.
  intros Hq Ht Hc Hps. destruct (decide (xs = [])) as [->|Hne]; [cbn; lia|]. rewrite batches_count by done.
  pose proof (greedy_least ps Hps) as Hl. rewrite Hc in Hl. destruct ps as [|p ps]; [|cbn in *; lia].
  by destruct xs.
Qed.
End Bounds.

Lemma elem_of_add_slot t q : forall ts, t ∈ add_slot ts q <-> t ∈ ts \/ t ∈ tex q.
Proof. intros ts. unfold add_slot, tex. destruct (texture q) as [u|]; [case_decide|]; set_solver. Qed.

Lemma slots_app l1 l2 : slots (l1 ++ l2) = fold_left add_slot l2 (slots l1).
Proof. apply fold_left_app. Qed.

Lemma slots_set l : list_to_set (slots l) = tex_set l.
Proof.
  induction l as [|q l IH] using rev_ind; [done|]. rewrite slots_app, tex_set_app, tex_set_single, <- IH. cbn.
  apply set_eq. intros t. rewrite elem_of_union, !elem_of_list_to_set. apply elem_of_add_slot.
Qed.

Lemma slots_NoDup l : NoDup (slots l).
Proof.
  induction l as [|q l IH] using rev_ind; [constructor|]. rewrite slots_app. cbn. unfold add_slot.
  destruct (texture q) as [t|]; [|done]. case_decide; [done|]. apply NoDup_app. split_and!; [done|set_solver|apply NoDup_singleton].
Qed.

Lemma slots_all l q t : q ∈ l -> texture q = Some t -> t ∈ slots l.
Proof.
  intros Hq Ht. apply (elem_of_list_to_set (C := gset N)). rewrite slots_set. unfold tex_set. apply elem_of_union_list.
  exists (tex q). split; [by apply list_elem_of_fmap_2|]. unfold tex. rewrite Ht. set_solver.
Qed.

Lemma find_slot (texs : list N) i t : NoDup texs -> texs !! i = Some t -> list_find (t =.) texs = Some (i, t).
Proof.
  intros Hnd Hi. apply list_find_Some. split_and!; [done..|]. intros j u Hj Hlt ->. assert (i = j) by (by eapply NoDup_lookup). lia.
Qed.

Lemma last_slots_snoc {M} ps (p : list (Quad2D * M)) j :
  last_slots (ps ++ [p]) j = match slots (fst <$> p) !! j with Some t => Some t | None => last_slots ps j end.
Proof. unfold last_slots. rewrite omap_app. cbn. destruct (slots _ !! j); [by rewrite last_snoc|by rewrite app_nil_r]. Qed.

(** A slot some batch has holds something. *)
Lemma last_slots_some {M} ps (p : list (Quad2D * M)) j t : p ∈ ps -> slots (fst <$> p) !! j = Some t -> is_Some (last_slots ps j).
Proof.
  intros Hp Hj. unfold last_slots. apply last_is_Some. intros Hn.
  assert (t ∈ omap (fun p => slots (fst <$> p) !! j) ps) as Hin by (apply list_elem_of_omap; eauto). rewrite Hn in Hin. by apply not_elem_of_nil in Hin.
Qed.

Lemma seen_ext {M} view view' (p : list (Quad2D * M)) (x : Quad2D * M) :
  (forall j, (j < length (slots (fst <$> p)))%nat -> view j = view' j) -> seen view (slots (fst <$> p)) x = seen view' (slots (fst <$> p)) x.
Proof.
  intros Hv. unfold seen, resolve. destruct (texture (fst x)) as [t|]; [|done].
  destruct (list_find _ _) as [[i u]|] eqn:E; [|done]. apply list_find_Some in E as (E & _ & _). cbn. rewrite Hv; [done|]. by eapply lookup_lt_Some.
Qed.

Lemma seen_own {M} view p (x : Quad2D * M) : x ∈ p -> (forall j t, slots (fst <$> p) !! j = Some t -> view j = Some t) ->
  seen view (slots (fst <$> p)) x = x.
Proof.
  intros Hx Hv. destruct x as [[t c o uvs w h] m]. unfold seen, resolve. cbn. destruct t as [t|]; [|done].
  assert (t ∈ slots (fst <$> p)) as Ht by (eapply slots_all; [by apply (list_elem_of_fmap_2 fst)|done]).
  apply list_elem_of_lookup in Ht as [i Hi]. rewrite (find_slot _ i) by (done || apply slots_NoDup). cbn. by rewrite (Hv i t).
Qed.

(** One batch finds its own textures. *)
Lemma own_single {M} (ps : list (list (Quad2D * M))) : (length ps <= 1)%nat -> own_slots (last_slots ps) ps.
Proof.
  intros Hl q j t Hq Hj. destruct ps as [|p [|? ?]]; [by apply not_elem_of_nil in Hq| |cbn in Hl; lia].
  apply list_elem_of_singleton in Hq as ->. unfold last_slots. cbn. by rewrite Hj.
Qed.
End Batches.

(** ** A frame, step by step *)
Module Frames.
Import VulkanBuffer VertexBuffer IndexBuffer GpuBufferProps Renderer2D Batches.

Abbreviation cells_of := (list (option Vertex2D)).

(** The six indices of a quad. *)
Definition quad_indices (i : nat) : list Z :=
  let o := 4 * Z.of_nat i in [o; o + 1; o + 2; o + 2; o + 3; o].
Definition corner_order : list nat := [0; 1; 2; 2; 3; 0]%nat.

Section Frame.
Context (G : glm2) (mq : nat) (Hmq : (0 < mq)%nat) (Hmq32 : 160 * Z.of_nat mq < 2 ^ 32).
Abbreviation Renderer := (Renderer G).

(** What a quad puts on the screen: its corners in the order of the two triangles. *)
Definition quad_corners (q : Quad2D) (m : mat G) : list Corner :=
  (fun c : vec2 * vec2 => (mul_point G m (fst c), snd c, color q, texture q)) <$> corners q.
Definition quad_image (x : Quad2D * mat G) : list Corner := omap (quad_corners (fst x) (snd x) !!.) corner_order.

(** What batches put on the screen when the slots hold [view]. *)
Definition piece_image (view : nat -> option N) (p : list (Quad2D * mat G)) : list Corner :=
  p ≫= fun x => quad_image (seen view (slots (fst <$> p)) x).
Definition paint (view : nat -> option N) (ps : list (list (Quad2D * mat G))) : list Corner := ps ≫= piece_image view.

Lemma paint_ext view view' ps :
  (forall p j, p ∈ ps -> (j < length (slots (fst <$> p)))%nat -> view j = view' j) -> paint view ps = paint view' ps.
Proof.
  intros Hv. apply list_bind_ext_elem. intros p Hp. apply list_bind_ext_elem. intros x _. by rewrite (seen_ext view view') by eauto.
Qed.

Lemma paint_own view ps : own_slots view ps -> paint view ps = concat ps ≫= quad_image.
Proof.
  clear Hmq Hmq32 mq.
  intros Ho. unfold paint. induction ps as [|p ps IH]; [done|]. cbn. rewrite bind_app, IH by (intros q j t Hq; apply Ho; set_solver).
  f_equal. apply list_bind_ext_elem. intros x Hx. rewrite seen_own; [done..|]. intros j t. apply Ho. set_solver.
Qed.

(** What stays true from the constructor on. *)
Record Static (r : Renderer) : Prop := mkStatic {
  st_config : config G r = setMaxQuads (Z.of_nat mq) config0;
  st_vbs : length (vertexBuffers G r) = 10%nat;
  st_index : cells (ib_base (indexBuffer G r)) = Some <$> (seq 0 mq ≫= quad_indices);
  st_textures : length (textures G r) = 16%nat;
  st_prefix : exists ts n, textures G r = (Some <$> ts) ++ replicate n None;
  st_pools : DescriptorProps.pools_ok (descriptorSet G r)
}.

Definition closed (r : Renderer) (i : nat) : Prop :=
  exists m c n, vertexBuffers G r !! i = Some (closed_vb m c n) /\ length c = (4 * mq)%nat.

Abbreviation Pieces := (list (list (Quad2D * mat G))).

(** The images a set has at the slots of the sampler array. *)
Definition view_of (images : gmap (Z * nat) (option N)) (j : nat) : option N := mjoin (images !! (0, j)).

(** Whatever images are bound when the draws are executed: if every slot in use
    holds one, the draws show the pieces with the textures these slots hold. *)
Definition shows (r : Renderer) (ps : Pieces) : Prop :=
  forall images, (forall p j, p ∈ ps -> (j < length (slots (fst <$> p)))%nat -> is_Some (view_of images j)) ->
    execute G r images = Some (paint (view_of images) ps).

(** The descriptor set holds the slots of the pieces recorded. *)
Definition written (r : Renderer) (ps : Pieces) : Prop :=
  forall j t, last_slots ps j = Some t -> view_of (DescriptorSet.images (descriptorSet G r)) j = Some t.
(** So does the list of textures, from slot [n] on. *)
Definition held (r : Renderer) (ps : Pieces) (n : nat) : Prop :=
  forall j t, (n <= j)%nat -> last_slots ps j = Some t -> textures G r !! j = Some (Some t).

(** What is recorded after [b] batches, the pieces [ps]. *)
Record Recorded (r : Renderer) (ps : Pieces) (b n : nat) : Prop := mkRecorded {
  rc_shows : shows r ps;
  rc_written : written r ps;
  rc_held : held r ps n;
  rc_draws : Forall (fun d => (d_buffer d < b)%nat) (draws G r)
}.

(** Between two batches: [b] batches are recorded and show [ps]. *)
Record Between (r : Renderer) (ps : Pieces) (b : nat) : Prop := mkBetween {
  bt_static : Static r;
  bt_closed : forall i, (i < 10)%nat -> closed r i;
  bt_recorded : Recorded r ps b 0;
  bt_batch : batchDrawCallIndex G r = Z.of_nat b;
  bt_count : indexCount G r = 0
}.

Definition vertices (cur : list (Quad2D * mat G * Z)) : list Vertex2D :=
  cur ≫= fun x => quad_vertices G (fst (fst x)) (snd (fst x)) (snd x).

Definition quads_of (cur : list (Quad2D * mat G * Z)) : list Quad2D := fst <$> (fst <$> cur).

(** The slot of a quad says where its texture is. *)
Definition slot_ok (texs : list N) (x : Quad2D * mat G * Z) : Prop :=
  match texture (fst (fst x)) with
  | None => snd x = -1
  | Some t => exists i, snd x = Z.of_nat i + 1 /\ texs !! i = Some t
  end.

(** Inside batch [b], with [cur] written and [texs] in the texture slots. *)
Record InBatch (r : Renderer) (ps : Pieces) (b : nat) (cur : list (Quad2D * mat G * Z)) (texs : list N) : Prop := mkInBatch {
  ib_static : Static r;
  ib_lt : (b < 10)%nat;
  ib_closed : forall i, (i < 10)%nat -> i <> b -> closed r i;
  ib_open : exists m c n, vertexBuffers G r !! b = Some (open_vb m c n) /\ length c = (4 * mq)%nat
              /\ take (length (vertices cur)) c = Some <$> vertices cur;
  ib_buffer : buffer G r = (b, 4 * Z.of_nat (length cur));
  ib_recorded : Recorded r ps b (length texs);
  ib_batch : batchDrawCallIndex G r = Z.of_nat b;
  ib_count : indexCount G r = 6 * Z.of_nat (length cur);
  ib_cur : (length cur <= mq)%nat;
  ib_texs : take (length texs) (textures G r) = Some <$> texs;
  ib_ntexs : textureCount G r = Z.of_nat (length texs) /\ (length texs <= 16)%nat;
  ib_nodup : NoDup texs;
  ib_slots : Forall (slot_ok texs) cur
}.

(** What the steps inside [submitQuad] leave alone. *)
Definition kept (r r' : Renderer) : Prop :=
  commands G r' = commands G r /\ projView G r' = projView G r /\ uniformBuffer G r' = uniformBuffer G r.

Lemma kept_trans r1 r2 r3 : kept r1 r2 -> kept r2 r3 -> kept r1 r3.
Proof. unfold kept. intuition congruence. Qed.

Lemma corners_length q : length (corners q) = 4%nat.
Proof. unfold corners. by destruct (texCoords q) as [[[? ?] ?] ?]. Qed.

Lemma quad_vertices_length q m s : length (quad_vertices G q m s) = 4%nat.
Proof. unfold quad_vertices. by rewrite length_fmap, corners_length. Qed.

Lemma vertices_length cur : length (vertices cur) = (4 * length cur)%nat.
Proof.
  unfold vertices. rewrite (bind_length _ _ 4); [lia|]. intros x _. apply quad_vertices_length.
Qed.

(** *** What a recorded draw shows *)

(** The frame depends on the index buffer, the draws and the vertex buffers drawn. *)
Definition vb_cells (r : Renderer) (i : nat) : option cells_of := (fun v => cells (base v)) <$> vertexBuffers G r !! i.

Lemma fetch_vb_cells r images d k : fetch G r images d k =
  (i ← mjoin (cells (ib_base (indexBuffer G r)) !! k); c ← vb_cells r (d_buffer d); v ← mjoin (c !! Z.to_nat i); shade images v).
Proof. unfold fetch, vb_cells. destruct (mjoin _); [|done]. cbn. by destruct (vertexBuffers G r !! d_buffer d). Qed.

Lemma draw_image_ext r r' images d : cells (ib_base (indexBuffer G r')) = cells (ib_base (indexBuffer G r)) ->
  vb_cells r' (d_buffer d) = vb_cells r (d_buffer d) -> draw_image G r' images d = draw_image G r images d.
Proof.
  intros Hi Hv. unfold draw_image. apply mapM_ext_elem. intros k _. by rewrite !fetch_vb_cells, Hi, Hv.
Qed.

(** The draws recorded are untouched by a step that keeps the buffers they use. *)
Lemma recorded_ext r r' ps b n : Recorded r ps b n -> cells (ib_base (indexBuffer G r')) = cells (ib_base (indexBuffer G r)) ->
  draws G r' = draws G r -> (forall i, (i < b)%nat -> vb_cells r' i = vb_cells r i) ->
  descriptorSet G r' = descriptorSet G r -> textures G r' = textures G r -> Recorded r' ps b n.
Proof.
  intros [Hs Hw Hh Hd] Hi Hdr Hv Hds Ht. split; [|unfold written; by rewrite Hds|unfold held; by rewrite Ht|by rewrite Hdr].
  intros images Him. rewrite <- (Hs images Him). unfold execute. rewrite Hdr. f_equal. apply mapM_ext_elem. intros d Hin.
  rewrite Forall_forall in Hd. by apply draw_image_ext; auto.
Qed.

(** One more draw. *)
Lemma shows_app r r' d ps p : cells (ib_base (indexBuffer G r')) = cells (ib_base (indexBuffer G r)) ->
  vertexBuffers G r' = vertexBuffers G r -> draws G r' = draws G r ++ [d] -> shows r ps ->
  (forall images, (forall j, (j < length (slots (fst <$> p)))%nat -> is_Some (view_of images j)) ->
    draw_image G r images d = Some (piece_image (view_of images) p)) ->
  shows r' (ps ++ [p]).
Proof.
  intros Hi Hv Hd Hs Hx images Him. unfold execute. rewrite Hd, mapM_app.
  assert (forall d, draw_image G r' images d = draw_image G r images d) as He by (intros; apply draw_image_ext; [done|unfold vb_cells; by rewrite Hv]).
  rewrite !(mapM_ext_elem (draw_image G r' images) (draw_image G r images)) by (intros; apply He).
  assert (mapM (draw_image G r images) [d] = Some [piece_image (view_of images) p]) as ->.
  { apply mapM_Some_2, Forall2_cons. split; [|constructor]. apply Hx. intros j. apply Him. set_solver. }
  pose proof (Hs images ltac:(intros q j Hq; apply Him; set_solver)) as Hf. unfold execute in Hf.
  destruct (mapM (draw_image G r images) (draws G r)) as [ls|]; [|done]. cbn in *. injection Hf as Hf.
  unfold paint. by rewrite bind_app, concat_app, Hf.
Qed.

Lemma slot_id i : (i < 16)%nat -> F32.to_Z (F32.sub (F32.of_Z (Z.of_nat i + 1)) (F32.lit 1 2)) = Z.of_nat i.
Proof. intros Hi. do 16 (destruct i as [|i]; [by vm_compute|]). lia. Qed.

Lemma slot_none : F32.to_Z (F32.sub (F32.of_Z (-1)) (F32.lit 1 2)) = -1.
Proof. by vm_compute. Qed.

(** The shader sees the texture that the quad's slot holds. *)
Lemma shade_ok images texs q m s p u : slot_ok texs (q, m, s) -> NoDup texs -> (length texs <= 16)%nat ->
  (forall j, (j < length texs)%nat -> is_Some (view_of images j)) ->
  shade images (mkVertex2D p (mkVec3 (v2x u) (v2y u) (F32.of_Z s)) (color q)) = Some (p, u, color q, resolve (view_of images) texs q).
Proof.
  unfold slot_ok, shade, textureID, resolve. cbn [fst snd uv vertex vcolor v3z v3x v3y]. intros Hs Hnd Ht Hi.
  assert (mkVec2 (v2x u) (v2y u) = u) as -> by (by destruct u).
  destruct (texture q) as [t|].
  - destruct Hs as (i & -> & Hl). pose proof (lookup_lt_Some _ _ _ Hl) as Hlt.
    rewrite slot_id by lia. rewrite (proj2 (Z.ltb_ge _ _)) by lia. rewrite Nat2Z.id, (find_slot texs i t) by done. cbn.
    destruct (Hi i Hlt) as [u' Hu]. rewrite Hu. unfold view_of in Hu. by destruct (images !! (0, i)) as [[?|]|]; cbn in Hu; simplify_eq.
  - subst s. by rewrite slot_none.
Qed.

Lemma quad_indices_lookup i j o : corner_order !! j = Some o -> quad_indices i !! j = Some (4 * Z.of_nat i + Z.of_nat o).
Proof. unfold corner_order, quad_indices. do 6 (destruct j as [|j]; [cbn; intros [= <-]; f_equal; lia|]). done. Qed.

Lemma draw_ok r b c cur texs images : texs = slots (quads_of cur) -> Static r -> vb_cells r b = Some c ->
  take (length (vertices cur)) c = Some <$> vertices cur -> (length cur <= mq)%nat ->
  Forall (slot_ok texs) cur -> (length texs <= 16)%nat ->
  (forall j, (j < length texs)%nat -> is_Some (view_of images j)) ->
  draw_image G r images (mkDraw b (6 * Z.of_nat (length cur))) = Some (piece_image (view_of images) (fst <$> cur)).
Proof.
  intros Htx Hst Hc Htake Hlen Hslots Ht Himg. unfold draw_image. cbn [d_count].
  replace (Z.to_nat (6 * Z.of_nat (length cur))) with (6 * length cur)%nat by lia.
  unfold piece_image. change ((fst <$> (fst <$> cur))) with (quads_of cur). rewrite <- Htx, list_fmap_bind.
  assert (NoDup texs) as Hnd by (rewrite Htx; apply slots_NoDup).
  apply (mapM_blocks _ (fun x => quad_image (seen (view_of images) texs (fst x))) 6 cur 0). intros i [[q m] s] Hi. rewrite Nat.add_0_l.
  pose proof (lookup_lt_Some _ _ _ Hi) as Hi'.
  assert (forall j o, corner_order !! j = Some o -> (o < 4)%nat ->
    fetch G r images (mkDraw b (6 * Z.of_nat (length cur))) (6 * i + j)%nat
    = quad_corners (fst (seen (view_of images) texs (q, m))) m !! o) as Hf.
  { intros j o Ho Ho4. rewrite fetch_vb_cells. cbn [d_buffer]. rewrite Hc. rewrite (st_index r Hst), list_lookup_fmap.
    rewrite (bind_lookup quad_indices _ 6 i j i) by (done || (by rewrite lookup_seq_lt by lia) || by (apply lookup_lt_Some in Ho)).
    rewrite (quad_indices_lookup _ _ _ Ho). cbn [fmap option_fmap option_map mjoin option_join mbind option_bind].
    replace (Z.to_nat (4 * Z.of_nat i + Z.of_nat o)) with (4 * i + o)%nat by lia.
    assert (vertices cur !! (4 * i + o)%nat = quad_vertices G q m s !! o) as Hv.
    { unfold vertices. apply (bind_lookup (fun x => quad_vertices G (fst (fst x)) (snd (fst x)) (snd x)) cur 4 i o (q, m, s)); [|done..].
      intros x _. apply quad_vertices_length. }
    assert (c !! (4 * i + o)%nat = Some <$> (quad_vertices G q m s !! o)) as ->.
    { rewrite <- Hv, <- list_lookup_fmap, <- Htake. symmetry. apply lookup_take_lt. rewrite vertices_length. lia. }
    unfold quad_vertices, quad_corners. change (corners (fst (seen _ texs (q, m)))) with (corners q). rewrite !list_lookup_fmap.
    destruct (lookup_lt_is_Some_2 (corners q) o) as [[p u] ->]; [rewrite corners_length; lia|]. cbn [fmap option_fmap option_map mjoin option_join mbind option_bind fst snd].
    apply (shade_ok _ texs q m s); [|done..]. rewrite Forall_forall in Hslots. apply Hslots. by eapply list_elem_of_lookup_2. }
  assert (exists c0 c1 c2 c3, quad_corners (fst (seen (view_of images) texs (q, m))) m = [c0; c1; c2; c3]) as (c0 & c1 & c2 & c3 & E).
  { unfold quad_corners. change (corners (fst (seen _ texs (q, m)))) with (corners q). unfold corners. destruct (texCoords q) as [[[u0 u1] u2] u3]. cbn. eauto. }
  unfold quad_image. cbn [fst snd]. change (snd (seen _ texs (q, m))) with m. rewrite E in *.
  pose proof (Hf 0%nat 0%nat eq_refl) as F0. pose proof (Hf 1%nat 1%nat eq_refl) as F1. pose proof (Hf 2%nat 2%nat eq_refl) as F2.
  pose proof (Hf 3%nat 2%nat eq_refl) as F3. pose proof (Hf 4%nat 3%nat eq_refl) as F4. pose proof (Hf 5%nat 0%nat eq_refl) as F5.
  rewrite <- (Nat.add_0_r (6 * i)), <- fmap_add_seq. apply mapM_Some_2. cbn [seq fmap list_fmap omap list_omap corner_order lookup list_lookup].
  repeat (apply Forall2_cons; split); [apply F0|apply F1|apply F2|apply F3|apply F4|apply F5|apply Forall2_nil]; lia.
Qed.

(** *** The steps *)

Lemma updateDesciptorSet_ok r (texs : list N) : Static r -> textureCount G r = Z.of_nat (length texs) ->
  exists d, updateDesciptorSet G r = Ret (with_descriptor G d r) /\ DescriptorProps.pools_ok d
    /\ (texs = [] /\ d = descriptorSet G r \/ forall j t, textures G r !! j = Some (Some t) -> view_of (DescriptorSet.images d) j = Some t).
Proof.
  intros Hst Hn. unfold updateDesciptorSet. rewrite Hn. destruct (Z.eqb_spec (Z.of_nat (length texs)) 0) as [E|E].
  - exists (descriptorSet G r). split; [by destruct r|]. split; [apply Hst|]. left. split; [by destruct texs|done].
  - destruct (st_prefix r Hst) as (ts & n & Hts). pose proof (st_textures r Hst) as Hlen.
    rewrite Hts, length_app, length_fmap, length_replicate in Hlen.
    destruct (DescriptorProps.set_update_ok [] [] 0 ts n [] (descriptorSet G r)) as (d & Ed & Hd & _ & Hi & _);
      [apply Hst|done|apply NoDup_singleton|constructor|cbn; unfold DescriptorSet.MAX_IMAGE_INFOS; lia|cbn; unfold DescriptorSet.MAX_WRITE_DESCTIPTORS; lia|].
    rewrite Hts. unfold DescriptorSet.update_images. unfold DescriptorSet.update, DescriptorSet.updateInternal, DescriptorProps.infos_of in Ed |- *.
    cbn [zip_with app DescriptorSet.buffer_writes] in Ed. exists d. split; [|split; [done|right]].
    + destruct (DescriptorSet.image_writes _ 0 _ []) as [[ip ws]|e]; [|done]. rewrite bind_Ret in Ed. rewrite !bind_Ret.
      rewrite bind_Ret in Ed. by injection Ed as ->.
    + intros j t Hl. unfold view_of. rewrite (Hi j t); [done|].
      apply lookup_app_Some in Hl as [Hl|[_ Hl]].
      * apply list_lookup_fmap_Some in Hl as (t' & Hl & [= ->]). done.
      * apply lookup_replicate in Hl as [Hl _]. done.
Qed.

(** The slots after one more batch. *)
Lemma update_written r d ps b cur texs : Recorded r ps b (length texs) -> texs = slots (quads_of cur) ->
  take (length texs) (textures G r) = Some <$> texs ->
  (texs = [] /\ d = descriptorSet G r \/ forall j t, textures G r !! j = Some (Some t) -> view_of (DescriptorSet.images d) j = Some t) ->
  (forall j t, last_slots (ps ++ [fst <$> cur]) j = Some t -> view_of (DescriptorSet.images d) j = Some t)
  /\ held r (ps ++ [fst <$> cur]) 0.
Proof.
  intros [_ Hw Hh _] Htx Htake Hd.
  assert (held r (ps ++ [fst <$> cur]) 0) as Hheld.
  { intros j t _. rewrite last_slots_snoc. fold (quads_of cur). rewrite <- Htx. destruct (texs !! j) as [u|] eqn:E.
    - intros [= ->]. pose proof (lookup_lt_Some _ _ _ E). rewrite <- (lookup_take_lt _ (length texs)) by done.
      by rewrite Htake, list_lookup_fmap, E.
    - apply Hh. by apply lookup_ge_None. }
  split; [|done]. intros j t Hj. destruct Hd as [[-> ->]|Hd]; [|apply Hd; by apply (Hheld j t ltac:(lia))].
  apply Hw. rewrite last_slots_snoc in Hj. fold (quads_of cur) in Hj. by rewrite <- Htx in Hj.
Qed.

Lemma closed_others r r' b v : (forall i, (i < 10)%nat -> i <> b -> closed r i) -> vertexBuffers G r' = <[b := v]> (vertexBuffers G r) ->
  forall i, (i < 10)%nat -> i <> b -> closed r' i.
Proof.
  intros Hc Hv i Hi Hne. destruct (Hc i Hi Hne) as (m & c & n & E & L). exists m, c, n. split; [|done].
  by rewrite Hv, list_lookup_insert_ne by done.
Qed.

(** Closing a batch releases its buffer and keeps the others. *)
Lemma release_ok r b cur : Static r -> (b < 10)%nat -> (forall i, (i < 10)%nat -> i <> b -> closed r i) ->
  (exists m c n, vertexBuffers G r !! b = Some (open_vb m c n) /\ length c = (4 * mq)%nat
     /\ take (length (vertices cur)) c = Some <$> vertices cur) -> batchDrawCallIndex G r = Z.of_nat b ->
  exists m c n, release_current G r = Ret (set_vb G (closed_vb m c n) r) /\ length c = (4 * mq)%nat
    /\ take (length (vertices cur)) c = Some <$> vertices cur /\ vb_cells r b = Some c
    /\ forall i, (i < 10)%nat -> closed (set_vb G (closed_vb m c n) r) i.
Proof.
  intros Hst Hlt Hcl (m & c & n & Eo & Lc & Htake) Hb.
  exists m, c, n. split_and!; [|done|done|unfold vb_cells; by rewrite Eo|].
  - unfold release_current. rewrite Hb. rewrite (at_Z_Some _ _ (open_vb m c n)) by (rewrite ?Nat2Z.id; done || lia).
    rewrite bind_Ret, releasePointer_open. done.
  - intros i Hi. unfold closed, set_vb, with_buffers. cbn [vertexBuffers]. rewrite Hb, Nat2Z.id.
    destruct (decide (i = b)) as [->|Hne].
    + rewrite list_lookup_insert_eq by (rewrite (st_vbs r Hst); lia). eauto.
    + rewrite list_lookup_insert_ne by done. by apply Hcl.
Qed.

Lemma set_vb_cells r b v i : batchDrawCallIndex G r = Z.of_nat b -> vb_cells r b = Some (cells (base v)) ->
  vb_cells (set_vb G v r) i = vb_cells r i.
Proof.
  intros Hb Hc. unfold vb_cells, set_vb, with_buffers in *. cbn [vertexBuffers]. rewrite Hb, Nat2Z.id.
  destruct (decide (i = b)) as [->|Hne]; [|by rewrite list_lookup_insert_ne].
  destruct (vertexBuffers G r !! b) as [w|] eqn:E; [|done].
  rewrite list_lookup_insert_eq by (by eapply lookup_lt_Some). done.
Qed.

Lemma static_set_vb r v : Static r -> Static (set_vb G v r).
Proof. intros [? ? ? ? ? ?]. split; try done. unfold set_vb. cbn. by rewrite length_insert. Qed.

(** An empty batch is not drawn. *)
Lemma present_empty r ps b : InBatch r ps b [] [] -> exists r', present G r = Ret r' /\ Between r' ps b /\ kept r r'.
Proof.
  intros [Hst Hlt Hcl Ho _ Hrec Hb Hcnt _ _ _ _ _].
  destruct (release_ok r b [] Hst Hlt Hcl Ho Hb) as (m & c & n & E & Lc & _ & Hc & Hcl').
  unfold present. rewrite Hcnt. cbn [length Nat.add Z.of_nat Z.mul Z.eqb]. exists (set_vb G (closed_vb m c n) r).
  split; [done|]. split; [|by split_and!]. split; try done; [by apply static_set_vb|].
  apply (recorded_ext r _ ps b 0); try done. intros i Hi. by apply (set_vb_cells r b).
Qed.

(** Presenting a batch records one draw, which shows it. *)
Lemma present_full r ps b cur texs : InBatch r ps b cur texs -> texs = slots (quads_of cur) -> cur <> [] ->
  exists r', present G r = Ret r' /\ Between r' (ps ++ [fst <$> cur]) (S b) /\ kept r r'.
Proof.
  intros [Hst Hlt Hclo Ho _ Hrec Hb Hcnt Hcur Htexs [Hnt Hnt16] _ Hsl] Htx Hne.
  unfold present. assert (indexCount G r =? 0 = false) as -> by (rewrite Hcnt; apply Z.eqb_neq; destruct cur; [done|cbn; lia]).
  destruct (updateDesciptorSet_ok r texs Hst Hnt) as (d & -> & Hd & Himg). rewrite bind_Ret.
  set (r1 := with_draws G _ _ _).
  assert (Static r1) as Hst1 by (destruct Hst; by split).
  destruct (release_ok r1 b cur Hst1 Hlt Hclo Ho Hb) as (m & c & n & E & Lc & Htake & Hc & Hcl).
  rewrite E, bind_Ret. set (r2 := set_vb G (closed_vb m c n) r1) in *.
  set (r3 := drawIndexed G (indexCount G r2) r2).
  eexists. split; [reflexivity|]. split; [|by split_and!].
  assert (Static r2) as Hst2 by (by apply static_set_vb).
  assert (shows r2 ps) as Hsh.
  { apply (recorded_ext r (with_descriptor G (descriptorSet G r) r2) ps b (length texs)); try done.
    intros j Hj. change (vb_cells (set_vb G (closed_vb m c n) r1) j = vb_cells r1 j). by apply (set_vb_cells r1 b). }
  destruct (update_written r d ps b cur texs Hrec Htx Htexs Himg) as [Hw Hh].
  split; try done.
  - destruct Hst2. by split.
  - split; [|exact Hw|exact Hh|].
    + eapply (shows_app r2); [done..|exact Hsh|]. intros images Him. cbn [batchDrawCallIndex indexCount]. change (batchDrawCallIndex G r2) with (batchDrawCallIndex G r).
      change (indexCount G r2) with (indexCount G r). rewrite Hb, Nat2Z.id, Hcnt.
      apply (draw_ok r2 b c cur texs); try done; [unfold r2; by rewrite (set_vb_cells r1 b)|]. by rewrite Htx.
    + cbn. apply Forall_app. split; [eapply Forall_impl; [apply Hrec|cbn; lia]|]. apply Forall_singleton. cbn. rewrite Hb. lia.
  - cbn. rewrite Hb. unwrap. lia.
Qed.

(** Mapping the next buffer starts an empty batch; there are ten. *)
Lemma map_ok r ps b : Between r ps b -> (b < 10)%nat ->
  exists r', map_current G (with_textures G (textures G r) 0 r) = Ret r' /\ InBatch r' ps b [] [] /\ kept r r'.
Proof.
  intros [Hst Hcl Hrec Hb Hcnt] Hlt. destruct (Hcl b Hlt) as (m & c & n & Ec & Lc).
  unfold map_current. cbn [vertexBuffers batchDrawCallIndex with_textures]. rewrite Hb.
  rewrite (at_Z_Some _ _ (closed_vb m c n)) by (rewrite ?Nat2Z.id; done || lia).
  rewrite bind_Ret, getPointer_closed, bind_Ret. eexists. split; [reflexivity|]. split; [|by split_and!].
  assert (length (vertexBuffers G r) = 10%nat) as Hlen by apply Hst.
  set (r' := with_buffers G _ _ _).
  assert (vertexBuffers G r' = <[b := open_vb m c n]> (vertexBuffers G r)) as Hv by (cbn; by rewrite Hb, Nat2Z.id).
  split; try done.
  - destruct Hst. split; try done. by rewrite Hv, length_insert.
  - apply (closed_others r r' b (open_vb m c n)); [|done]. intros i Hi _. by apply Hcl.
  - exists m, c, n. rewrite Hv, list_lookup_insert_eq by lia. done.
  - unfold r'. cbn [buffer with_buffers]. unfold set_vb. cbn. by rewrite Hb, Nat2Z.id.
  - apply (recorded_ext r _ ps b 0); try done. intros i Hi. unfold vb_cells. rewrite Hv.
    by rewrite list_lookup_insert_ne by lia.
  - cbn. lia.
  - cbn. split; [done|lia].
  - constructor.
Qed.

Lemma map_fail r ps : Between r ps 10 -> map_current G (with_textures G (textures G r) 0 r) = Exn OutOfBounds.
Proof.
  intros [Hst _ _ Hb _]. unfold map_current. cbn [vertexBuffers batchDrawCallIndex with_textures]. rewrite Hb.
  unfold at_Z, vec_at. cbn [Z.leb]. rewrite (proj2 (Z.leb_le _ _)) by lia.
  rewrite lookup_ge_None_2 by (rewrite (st_vbs r Hst); lia). done.
Qed.

Lemma flush_step r ps b cur texs : InBatch r ps b cur texs -> texs = slots (quads_of cur) -> cur <> [] ->
  if decide (S b < 10)%nat
  then exists r', flush G r = Ret r' /\ InBatch r' (ps ++ [fst <$> cur]) (S b) [] [] /\ kept r r'
  else flush G r = Exn OutOfBounds.
Proof.
  intros HI Htx Hne. destruct (present_full r ps b cur texs HI Htx Hne) as (r1 & E1 & HB & K1). unfold flush. rewrite E1, bind_Ret.
  case_decide as Hlt.
  - destruct (map_ok r1 _ (S b) HB Hlt) as (r2 & E2 & HI2 & K2). exists r2. split_and!; [done|done|by eapply kept_trans].
  - pose proof (ib_lt _ _ _ _ _ HI). assert (S b = 10)%nat as Hb by lia. rewrite Hb in HB. by eapply map_fail.
Qed.

(** *** Textures *)
Lemma find_texture_spec r ps b cur texs t : InBatch r ps b cur texs ->
  match find_texture G t r with
  | Some i => texs !! i = Some t
  | None => t ∉ texs
  end.
Proof.
  intros [_ _ _ _ _ _ _ _ _ Htexs [Hnt _] _ _]. unfold find_texture. rewrite Hnt, Nat2Z.id, Htexs.
  destruct (list_find _ _) as [[i x]|] eqn:E; cbn.
  - apply list_find_Some in E as (E & -> & _). apply list_lookup_fmap_Some in E as (t' & E & [= ->]). done.
  - apply list_find_None in E. rewrite Forall_fmap, Forall_forall in E. intros Hin. by apply (E t Hin).
Qed.

Lemma slot_ok_app texs t x : slot_ok texs x -> slot_ok (texs ++ [t]) x.
Proof.
  unfold slot_ok. destruct (texture _); [|done]. intros (i & Hs & Hi). exists i. split; [done|].
  apply lookup_app_Some. by left.
Qed.

Lemma prefix_insert (l : list (option N)) ts n texs t : l = (Some <$> ts) ++ replicate n None -> take (length texs) l = Some <$> texs ->
  (length texs < length l)%nat ->
  (exists ts' n', <[length texs := Some t]> l = (Some <$> ts') ++ replicate n' None)
  /\ take (length (texs ++ [t])) (<[length texs := Some t]> l) = Some <$> (texs ++ [t]).
Proof.
  intros -> Htake Hlt. split.
  - assert (length texs <= length ts)%nat as Hle.
    { destruct (decide (length texs <= length ts)%nat) as [|Hgt]; [done|exfalso].
      assert (((Some <$> ts) ++ replicate n None) !! length ts = Some None) as Hn.
      { rewrite lookup_app_r by (by rewrite length_fmap). rewrite length_fmap, Nat.sub_diag.
        rewrite length_app, length_fmap, length_replicate in Hlt. apply lookup_replicate. split; [done|lia]. }
      rewrite <- (lookup_take_lt _ (length texs)) in Hn by lia. rewrite Htake, list_lookup_fmap in Hn.
      by destruct (texs !! length ts). }
    destruct (decide (length texs < length ts)%nat) as [Hl|Hl].
    + exists (<[length texs := t]> ts), n. rewrite insert_app_l by (by rewrite length_fmap). f_equal. by rewrite list_fmap_insert.
    + assert (length texs = length ts) as E by lia. rewrite length_app, length_fmap, length_replicate in Hlt.
      destruct n as [|n]; [lia|]. exists (ts ++ [t]), n. rewrite E. rewrite <- (length_fmap Some ts) at 1.
      rewrite <- (Nat.add_0_r (length (Some <$> ts))), insert_app_r. cbn. rewrite fmap_app, <- app_assoc. done.
  - rewrite length_app. cbn [length]. rewrite Nat.add_1_r, (take_S_r _ _ (Some t)) by (by apply list_lookup_insert_eq).
    rewrite take_insert_ge by lia. rewrite Htake, fmap_app. done.
Qed.

Lemma add_texture r ps b cur texs t : InBatch r ps b cur texs -> t ∉ texs -> (length texs < 16)%nat ->
  exists ts, DescriptorSet.pool_set (Z.to_nat (textureCount G r)) (Some t) (textures G r) = Ret ts
    /\ InBatch (with_textures G ts (u32 (textureCount G r + 1)) r) ps b cur (texs ++ [t]).
Proof.
  intros [Hst Hlt Hcl Ho Hbuf [Hsh Hw Hh Hdr] Hb Hcnt Hcur Htexs [Hnt Hnt16] Hnd Hsl] Hnin H16.
  destruct (st_prefix r Hst) as (ts & n & Hts). pose proof (st_textures r Hst) as Hlen.
  destruct (prefix_insert _ _ _ texs t Hts Htexs) as [Hp Ht]; [lia|].
  unfold DescriptorSet.pool_set. rewrite Hnt, Nat2Z.id, decide_True by lia. eexists. split; [reflexivity|].
  split; try done.
  - destruct Hst. split; try done. cbn. by rewrite length_insert.
  - split; try done. intros j u Hj Hl. rewrite length_app in Hj. cbn in Hj |- *. rewrite list_lookup_insert_ne by lia. apply Hh; [lia|done].
  - cbn. rewrite length_app. cbn. unwrap. lia.
  - apply NoDup_app. split_and!; [done|set_solver|apply NoDup_singleton].
  - eapply Forall_impl; [exact Hsl|]. intros x. apply slot_ok_app.
Qed.

Lemma submitTexture_found r ps b cur texs t : InBatch r ps b cur texs -> t ∈ texs ->
  exists i, submitTexture G t r = Ret (r, Z.of_nat i + 1) /\ texs !! i = Some t.
Proof.
  intros HI Hin. pose proof (find_texture_spec _ _ _ _ _ t HI) as Hf. unfold submitTexture.
  destruct (find_texture G t r) as [i|]; [eauto|done].
Qed.

Lemma submitTexture_new r ps b cur texs t : InBatch r ps b cur texs -> t ∉ texs -> (length texs < 16)%nat ->
  exists r', submitTexture G t r = Ret (r', Z.of_nat (length texs) + 1) /\ InBatch r' ps b cur (texs ++ [t]) /\ kept r r'.
Proof.
  intros HI Hnin H16. pose proof (find_texture_spec _ _ _ _ _ t HI) as Hf. unfold submitTexture.
  destruct (find_texture G t r) as [i|]; [by apply list_elem_of_lookup_2 in Hf|].
  destruct (ib_ntexs _ _ _ _ _ HI) as [Hnt _].
  assert (maxTextures (config G r) = 16) as -> by (by rewrite (st_config r (ib_static _ _ _ _ _ HI))).
  rewrite (proj2 (Z.leb_gt _ _)) by lia. rewrite bind_Ret.
  destruct (add_texture r ps b cur texs t HI Hnin H16) as (ts & -> & HI'). rewrite bind_Ret.
  eexists. split; [|split; [exact HI'|by split_and!]]. rewrite Hnt. unwrap. done.
Qed.

Lemma submitTexture_full r ps b cur texs t : InBatch r ps b cur texs -> texs = slots (quads_of cur) -> t ∉ texs -> length texs = 16%nat -> cur <> [] ->
  if decide (S b < 10)%nat
  then exists r', submitTexture G t r = Ret (r', 1) /\ InBatch r' (ps ++ [fst <$> cur]) (S b) [] [t] /\ kept r r'
  else submitTexture G t r = Exn OutOfBounds.
Proof.
  intros HI Htx Hnin H16 Hne. pose proof (find_texture_spec _ _ _ _ _ t HI) as Hf. unfold submitTexture.
  destruct (find_texture G t r) as [i|]; [by apply list_elem_of_lookup_2 in Hf; case_decide|].
  destruct (ib_ntexs _ _ _ _ _ HI) as [Hnt _].
  assert (maxTextures (config G r) = 16) as -> by (by rewrite (st_config r (ib_static _ _ _ _ _ HI))).
  rewrite (proj2 (Z.leb_le _ _)) by lia.
  pose proof (flush_step r ps b cur texs HI Htx Hne) as Hfl. case_decide; [|by rewrite Hfl].
  destruct Hfl as (r1 & -> & HI1 & K1). rewrite bind_Ret.
  destruct (add_texture r1 _ (S b) [] [] t HI1) as (ts & -> & HI'); [set_solver|cbn; lia|]. rewrite bind_Ret.
  destruct (ib_ntexs _ _ _ _ _ HI1) as [-> _]. eexists. split; [reflexivity|].
  split; [|by eapply kept_trans; [exact K1|by split_and!]]. destruct (ib_ntexs _ _ _ _ _ HI1) as [E _]. by rewrite E in HI'.
Qed.

(** *** Vertices *)
Lemma emit_ok b n m v r c off : vertexBuffers G r !! b = Some (open_vb m c n) -> buffer G r = (b, Z.of_nat off) -> (off < length c)%nat ->
  emit G v r = Ret (with_buffers G (<[b := open_vb m (<[off := Some v]> c) n]> (vertexBuffers G r)) (b, Z.of_nat (S off)) r).
Proof.
  intros Hv Hbuf Hl. unfold emit. rewrite Hbuf. cbn [fst snd]. unfold vec_at. rewrite Hv, bind_Ret.
  rewrite store_open, bind_Ret, Nat2Z.id by lia. by replace (Z.of_nat off + 1) with (Z.of_nat (S off)) by lia.
Qed.

Lemma emit_list b n m vs : forall r c off, vertexBuffers G r !! b = Some (open_vb m c n) -> buffer G r = (b, Z.of_nat off) ->
  (off + length vs <= length c)%nat ->
  foldM (emit G) vs r = Ret (with_buffers G (<[b := open_vb m (VulkanBuffer.overwrite off (Some <$> vs) c) n]> (vertexBuffers G r))
                               (b, Z.of_nat (off + length vs)) r).
Proof.
  induction vs as [|v vs IH]; intros r c off Hv Hbuf Hl; cbn [foldM length fmap list_fmap].
  - rewrite GpuBufferProps.overwrite_nil, list_insert_id, Nat.add_0_r by done. rewrite <- Hbuf. by destruct r.
  - cbn [length] in Hl. rewrite (emit_ok b n m v r c off) by (done || lia). rewrite bind_Ret.
    rewrite (IH _ (<[off := Some v]> c) (S off)).
    + rewrite GpuBufferProps.overwrite_cons by lia. unfold with_buffers. cbn. rewrite list_insert_insert_eq.
      by replace (S (off + length vs)) with (off + S (length vs))%nat by lia.
    + cbn. rewrite list_lookup_insert_eq; [done|by eapply lookup_lt_Some].
    + done.
    + rewrite length_insert. lia.
Qed.

Lemma emit_quad r ps b cur texs q m s : InBatch r ps b cur texs -> (length cur < mq)%nat -> slot_ok texs (q, m, s) ->
  exists r', (r ← foldM (emit G) (quad_vertices G q m s) r; Ret (with_counts G (u32 (indexCount G r + 6)) (batchDrawCallIndex G r) r)) = Ret r'
    /\ InBatch r' ps b (cur ++ [(q, m, s)]) texs /\ kept r r'.
Proof.
  intros [Hst Hlt Hcl (mm & c & n & Eo & Lc & Htake) Hbuf Hrec Hb Hcnt Hcur Htexs Hnt Hnd Hsl] Hlen Hslot.
  pose proof (vertices_length cur) as Hvl. pose proof (quad_vertices_length q m s) as Hql.
  rewrite (emit_list b n mm _ r c (4 * length cur)); [|done|rewrite Hbuf; f_equal; lia|rewrite Hql; lia].
  rewrite bind_Ret. eexists. split; [reflexivity|]. split; [|by split_and!].
  set (c' := VulkanBuffer.overwrite _ _ _). set (r' := with_counts G _ _ _).
  assert (vertexBuffers G r' = <[b := open_vb mm c' n]> (vertexBuffers G r)) as Hv by done.
  assert (length c' = (4 * mq)%nat) as Lc' by (unfold c'; rewrite GpuBufferProps.overwrite_length; rewrite ?length_fmap; lia).
  split; try done.
  - destruct Hst. split; try done. by rewrite Hv, length_insert.
  - by apply (closed_others r r' b (open_vb mm c' n)).
  - exists mm, c', n. rewrite Hv, list_lookup_insert_eq by (rewrite (st_vbs r Hst); lia). split_and!; [done|done|].
    unfold vertices. rewrite bind_app. fold (vertices cur). cbn. rewrite app_nil_r, length_app, Hvl, Hql, fmap_app, <- Htake.
    apply list_eq. intros k. unfold c'. destruct (decide (k < 4 * length cur + 4)%nat) as [Hk|Hk].
    + rewrite lookup_take_lt, GpuBufferProps.overwrite_lookup by (rewrite ?length_fmap; lia). rewrite length_fmap, Hql.
      case_decide as Hd.
      * rewrite lookup_app_r by (rewrite length_take; lia). rewrite length_take. f_equal. lia.
      * rewrite lookup_app_l by (rewrite length_take; lia). rewrite lookup_take_lt by lia. done.
    + rewrite !lookup_ge_None_2; [done|rewrite length_app, length_take, length_fmap; lia|rewrite length_take; lia].
  - cbn. rewrite length_app. cbn. f_equal. lia.
  - apply (recorded_ext r _ ps b (length texs)); try done. intros i Hi. unfold vb_cells. rewrite Hv. by rewrite list_lookup_insert_ne by lia.
  - cbn. rewrite Hcnt, length_app. cbn. unwrap. lia.
  - rewrite length_app. cbn. lia.
  - apply Forall_app. split; [done|]. by apply Forall_singleton.
Qed.

(** *** Commands *)

Definition textures_of (texs : list N) : gset N := list_to_set texs.
(** The slots are those of the quads of the batch. *)
Definition synced (cur : list (Quad2D * mat G * Z)) (texs : list N) : Prop := texs = slots (quads_of cur).

Lemma synced_set cur texs : synced cur texs -> textures_of texs = tex_set (quads_of cur).
Proof. intros ->. apply slots_set. Qed.

Lemma synced_app cur texs x : synced cur texs -> synced (cur ++ [x]) (add_slot texs (fst (fst x))).
Proof. unfold synced, quads_of. intros ->. by rewrite !fmap_app, slots_app. Qed.

Lemma textures_of_app texs t : textures_of (texs ++ [t]) = textures_of texs ∪ {[t]}.
Proof. unfold textures_of. rewrite list_to_set_app_L. cbn. by rewrite (right_id_L ∅ (∪)). Qed.

Lemma textures_size texs : NoDup texs -> base.size (textures_of texs) = length texs.
Proof. apply size_list_to_set. Qed.

(** Giving a quad its slot and writing it, when the batch is not full of quads. *)
Definition place (q : Quad2D) (m : mat G) (r : Renderer) : outcome Renderer :=
  '(r, slot) ← match texture q with Some t => submitTexture G t r | None => Ret (r, -1) end;
  r ← foldM (emit G) (quad_vertices G q m slot) r;
  Ret (with_counts G (u32 (indexCount G r + 6)) (batchDrawCallIndex G r) r).

Lemma place_fits r ps b cur texs q m : InBatch r ps b cur texs -> synced cur texs -> (length cur < mq)%nat ->
  (base.size (textures_of texs ∪ tex q) <= 16)%nat ->
  exists r' s texs', place q m r = Ret r' /\ InBatch r' ps b (cur ++ [(q, m, s)]) texs'
    /\ synced (cur ++ [(q, m, s)]) texs' /\ kept r r'.
Proof.
  intros HI Hs Hlen Hfit. pose proof (fun s => synced_app cur texs (q, m, s) Hs) as Hs'. cbn [fst] in Hs'.
  unfold place, tex, add_slot in *. destruct (texture q) as [t|] eqn:Et.
  - destruct (decide (t ∈ texs)) as [Hin|Hnin].
    + destruct (submitTexture_found r ps b cur texs t HI Hin) as (i & E & Hi). rewrite E, bind_Ret.
      destruct (emit_quad r ps b cur texs q m (Z.of_nat i + 1) HI Hlen) as (r' & E' & HI' & K); [unfold slot_ok; cbn; rewrite Et; eauto|].
      exists r', (Z.of_nat i + 1), texs. split_and!; [exact E'|done|apply Hs'|done].
    + assert (length texs < 16)%nat as H16.
      { rewrite size_union in Hfit by (unfold textures_of; set_solver). rewrite size_singleton, textures_size in Hfit by apply HI. lia. }
      destruct (submitTexture_new r ps b cur texs t HI Hnin H16) as (r1 & E & HI1 & K1). rewrite E, bind_Ret.
      destruct (emit_quad r1 ps b cur (texs ++ [t]) q m (Z.of_nat (length texs) + 1) HI1 Hlen) as (r' & E' & HI' & K).
      { unfold slot_ok. cbn. rewrite Et. exists (length texs). split; [done|]. apply list_lookup_middle. done. }
      exists r', (Z.of_nat (length texs) + 1), (texs ++ [t]). split_and!; [exact E'|done|apply Hs'|by eapply kept_trans].
  - rewrite bind_Ret. destruct (emit_quad r ps b cur texs q m (-1) HI Hlen) as (r' & E' & HI' & K); [unfold slot_ok; cbn; by rewrite Et|].
    exists r', (-1), texs. split_and!; [exact E'|done|apply Hs'|done].
Qed.

Lemma place_flushes r ps b cur texs q m : InBatch r ps b cur texs -> synced cur texs -> (length cur < mq)%nat ->
  (16 < base.size (textures_of texs ∪ tex q))%nat ->
  if decide (S b < 10)%nat
  then exists r' s texs', place q m r = Ret r' /\ InBatch r' (ps ++ [fst <$> cur]) (S b) [(q, m, s)] texs'
         /\ synced [(q, m, s)] texs' /\ kept r r'
  else place q m r = Exn OutOfBounds.
Proof.
  intros HI Hs Hlen Hfull. pose proof (ib_nodup _ _ _ _ _ HI) as Hnd. destruct (ib_ntexs _ _ _ _ _ HI) as [_ Hnt].
  assert (exists t, texture q = Some t /\ t ∉ texs /\ length texs = 16%nat) as (t & Et & Hnin & H16).
  { unfold tex in Hfull. destruct (texture q) as [t|]; [|rewrite (right_id_L ∅ (∪)), textures_size in Hfull by done; lia].
    exists t. split; [done|]. destruct (decide (t ∈ texs)) as [Hin|Hnin].
    - assert (textures_of texs ∪ {[t]} = textures_of texs) as E by (unfold textures_of; set_solver).
      rewrite E, textures_size in Hfull by done. lia.
    - split; [done|]. rewrite size_union in Hfull by (unfold textures_of; set_solver).
      rewrite size_singleton, textures_size in Hfull by done. lia. }
  assert (cur <> []) as Hne by (intros ->; by rewrite Hs in H16).
  unfold place. rewrite Et. pose proof (submitTexture_full r ps b cur texs t HI Hs Hnin H16 Hne) as Hst.
  case_decide; [|by rewrite Hst]. destruct Hst as (r1 & E & HI1 & K1). rewrite E, bind_Ret.
  destruct (emit_quad r1 _ (S b) [] [t] q m 1 HI1) as (r' & E' & HI' & K);
    [cbn; lia|unfold slot_ok; cbn; rewrite Et; by exists 0%nat|].
  exists r', 1, [t]. split_and!; [exact E'|done| |by eapply kept_trans].
  unfold synced, slots, quads_of. cbn. unfold add_slot. by rewrite Et.
Qed.

(** One command against the specification. *)
Lemma submit_command_step quads r ps b cur texs c q : InBatch r ps b cur texs -> synced cur texs -> quads !! quad G c = Some q ->
  if full mq 16 (length cur) (textures_of texs) q then
    if decide (S b < 10)%nat
    then exists r' s texs', submit_command G quads c r = Ret r' /\ InBatch r' (ps ++ [fst <$> cur]) (S b) [(q, transform G c, s)] texs'
           /\ synced [(q, transform G c, s)] texs' /\ kept r r'
    else submit_command G quads c r = Exn OutOfBounds
  else exists r' s texs', submit_command G quads c r = Ret r' /\ InBatch r' ps b (cur ++ [(q, transform G c, s)]) texs'
         /\ synced (cur ++ [(q, transform G c, s)]) texs' /\ kept r r'.
Proof.
  intros HI Hs Hq.
  assert (submit_command G quads c r = (r ← (if indiciesSize (config G r) <=? indexCount G r then flush G r else Ret r); place q (transform G c) r)) as ->.
  { unfold submit_command, place. destruct (if _ : bool then _ else _) as [r0|]; [|done]. cbn [mbind outcome_bind]. by rewrite Hq. }
  assert (indiciesSize (config G r) = 6 * Z.of_nat mq) as ->.
  { rewrite (st_config r (ib_static _ _ _ _ _ HI)). cbn. unwrap. lia. }
  rewrite (ib_count _ _ _ _ _ HI). unfold full. destruct (Z.leb_spec (6 * Z.of_nat mq) (6 * Z.of_nat (length cur))) as [Hge|Hlt].
  - rewrite bool_decide_true by lia. assert (cur <> []) as Hne by (destruct cur; [cbn in Hge; lia|done]).
    pose proof (flush_step r ps b cur texs HI Hs Hne) as Hfl. case_decide; [|by rewrite Hfl].
    destruct Hfl as (r1 & -> & HI1 & K1). rewrite bind_Ret.
    destruct (place_fits r1 _ (S b) [] [] q (transform G c) HI1) as (r' & s & texs' & E & HI' & Hs' & K); [done|cbn; lia| |].
    + unfold textures_of. cbn. rewrite (left_id_L ∅ (∪)). pose proof (tex_size q). lia.
    + exists r', s, texs'. split_and!; [done|done|done|by eapply kept_trans].
  - rewrite bind_Ret. case_bool_decide as Hf.
    + apply (place_flushes r ps b cur texs); try done; lia.
    + apply (place_fits r ps b cur texs); try done; lia.
Qed.

(** All commands: the batches of the specification. *)
Lemma submit_all quads cmds : forall xs r ps b cur texs, InBatch r ps b cur texs -> synced cur texs ->
  Forall2 (fun c (x : Quad2D * mat G) => quads !! quad G c = Some (fst x) /\ transform G c = snd x) cmds xs ->
  let n := flushes mq 16 (length cur) (textures_of texs) (fst <$> xs) in
  if decide (b + n < 10)%nat
  then exists r' ps' cur' texs', foldM (submit_command G quads) cmds r = Ret r' /\ InBatch r' ps' (b + n) cur' texs' /\ synced cur' texs'
         /\ ps' ++ batches mq 16 (fst <$> cur') [] = ps ++ batches mq 16 (fst <$> cur) xs /\ kept r r'
  else foldM (submit_command G quads) cmds r = Exn OutOfBounds.
Proof.
  induction cmds as [|c cmds IH]; intros xs r ps b cur texs HI Hs Hx; inversion Hx as [|? x ? xs' [Hq Ht] Hxs]; subst; cbn [fmap list_fmap flushes foldM batches].
  - rewrite Nat.add_0_r, decide_True by apply HI. exists r, ps, cur, texs. split_and!; done.
  - pose proof (submit_command_step quads r ps b cur texs c (fst x) HI Hs Hq) as Hstep. rewrite Ht in Hstep.
    rewrite (synced_set cur texs Hs) in Hstep |- *. fold (quads_of cur). rewrite length_fmap. assert ((fst x, snd x) = x) as Hxx by (by destruct x).
    destruct (full mq 16 (length cur) _ (fst x)).
    + destruct (decide (S b < 10)%nat) as [Hb|Hb]; [|rewrite Hstep, decide_False by lia; done].
      destruct Hstep as (r1 & s & texs1 & -> & HI1 & Hs1 & K1). rewrite bind_Ret.
      specialize (IH xs' r1 _ (S b) _ texs1 HI1 Hs1 Hxs). cbn [length] in IH.
      assert (textures_of texs1 = tex (fst x)) as E by (rewrite (synced_set _ _ Hs1); apply (tex_set_single (fst x))). rewrite E in IH.
      rewrite Nat.add_succ_r. cbn [Nat.add] in IH. cbv zeta in IH. case_decide; [|done].
      destruct IH as (r' & ps' & cur' & texs' & E' & HI' & Hs' & HD & K). exists r', ps', cur', texs'.
      split_and!; [done..| |by eapply kept_trans]. etrans; [exact HD|]. rewrite <- app_assoc. cbn [fmap list_fmap fst]. by rewrite Hxx.
    + destruct Hstep as (r1 & s & texs1 & -> & HI1 & Hs1 & K1). rewrite bind_Ret.
      specialize (IH xs' r1 _ b _ texs1 HI1 Hs1 Hxs). rewrite length_app in IH. cbn [length] in IH. rewrite Nat.add_1_r in IH.
      assert (textures_of texs1 = tex_set (quads_of cur) ∪ tex (fst x)) as E.
      { rewrite (synced_set _ _ Hs1). unfold quads_of. rewrite !fmap_app, tex_set_app. f_equal. apply (tex_set_single (fst x)). }
      rewrite E in IH. cbv zeta in IH. case_decide; [|done].
      destruct IH as (r' & ps' & cur' & texs' & E' & HI' & Hs' & HD & K). exists r', ps', cur', texs'.
      split_and!; [done..| |by eapply kept_trans]. etrans; [exact HD|]. rewrite fmap_app. cbn [fmap list_fmap fst]. by rewrite Hxx.
Qed.

(** Between frames. *)
Record Idle (r : Renderer) : Prop := mkIdle {
  id_static : Static r;
  id_closed : forall i, (i < 10)%nat -> closed r i;
  id_batch : batchDrawCallIndex G r = 0;
  id_count : indexCount G r = 0
}.

(** The quads the commands point to, with their transforms. *)
Definition commanded (quads : gmap N Quad2D) (cmds : list (Command2D G)) (xs : list (Quad2D * mat G)) : Prop :=
  Forall2 (fun c x => quads !! quad G c = Some (fst x) /\ transform G c = snd x) cmds xs.

Lemma InBatch_uniforms r ps b cur texs p u : InBatch r ps b cur texs -> InBatch (with_uniforms G p u r) ps b cur texs.
Proof. intros [[? ? ? ? ? ?] ? ? ? ? [? ? ? ?] ? ? ? ? ? ? ?]. by split. Qed.

(** What is on the screen once the recorded draws are executed. *)
Lemma frame_recorded r ps b n : Recorded r ps b n -> frame G r = Some (paint (last_slots ps) ps).
Proof.
  intros [Hs Hw _ _]. unfold frame.
  assert (forall p j, p ∈ ps -> (j < length (slots (fst <$> p)))%nat ->
    exists t, last_slots ps j = Some t /\ view_of (DescriptorSet.images (descriptorSet G r)) j = Some t) as Hv.
  { intros p j Hp Hj. destruct (lookup_lt_is_Some_2 _ _ Hj) as [u Hu]. destruct (last_slots_some ps p j u Hp Hu) as [t Ht]. eauto. }
  rewrite (Hs (DescriptorSet.images (descriptorSet G r))).
  - f_equal. apply paint_ext. intros p j Hp Hj. destruct (Hv p j Hp Hj) as (t & -> & ->). done.
  - intros p j Hp Hj. destruct (Hv p j Hp Hj) as (t & _ & ->). done.
Qed.

(** A frame: the batches, or the failure when there are more than ten. *)
Definition frame_done (quads : gmap N Quad2D) (r : Renderer) (xs : list (Quad2D * mat G)) : Prop :=
  exists r', renderScene G quads r = Ret r'
    /\ frame G r' = Some (paint (last_slots (batches mq 16 [] xs)) (batches mq 16 [] xs)) /\ Idle r'
    /\ commands G r' = commands G r /\ uniformBuffer G r' = projView G r.

Lemma renderScene_greedy quads r xs : Idle r -> draws G r = [] -> commanded quads (commands G r) xs ->
  if decide (length (batches mq 16 [] xs) <= 10)%nat then frame_done quads r xs else renderScene G quads r = Exn OutOfBounds.
Proof.
  intros [Hst Hcl Hb Hc] Hd Hx.
  assert (Between r [] 0) as HB.
  { split; try done. split; [|done|done|rewrite Hd; constructor]. intros images _. unfold execute. by rewrite Hd. }
  destruct (map_ok r [] 0 HB) as (r1 & E1 & HI1 & (Kc & Kp & Ku)); [lia|].
  unfold frame_done, renderScene, begin, submitQuad. rewrite E1, bind_Ret, Kc. cbn [commands with_uniforms].
  apply InBatch_uniforms with (p := projView G r1) (u := projView G r1) in HI1.
  pose proof (submit_all quads (commands G r) xs _ [] 0 [] [] HI1 eq_refl Hx) as Hall. cbn [length Nat.add] in Hall.
  change (textures_of []) with (∅ : gset N) in Hall. cbv zeta in Hall.
  assert (flushes mq 16 0 ∅ (fst <$> xs) < 10 <-> length (batches mq 16 [] xs) <= 10)%nat as Hlen.
  { destruct (decide (xs = [])) as [->|Hne]; [cbn; lia|]. rewrite batches_count by (done || lia). lia. }
  case_decide; [rewrite decide_True by tauto|rewrite decide_False by tauto; by rewrite Hall].
  destruct Hall as (r2 & ps & cur & texs & E2 & HI2 & Hs2 & HD & (K2c & K2p & K2u)). rewrite E2, bind_Ret. cbn [app fmap list_fmap] in HD, K2c, K2p, K2u.
  assert (forall r3 b, present G r2 = Ret r3 -> Between r3 (batches mq 16 [] xs) b -> kept r2 r3 -> exists r',
    (r ← present G r2; Ret (end_ G r)) = Ret r' /\ frame G r' = Some (paint (last_slots (batches mq 16 [] xs)) (batches mq 16 [] xs)) /\ Idle r'
      /\ commands G r' = commands G r /\ uniformBuffer G r' = projView G r) as Hend.
  { intros r3 b -> [[? ? ? ? ? ?] ? Hf ? ?] (K3c & K3p & K3u). rewrite bind_Ret. eexists. split; [reflexivity|].
    split; [exact (frame_recorded r3 _ b 0 Hf)|]. split; [by split|]. cbn. rewrite K3c, K3u, K2c, K2u, Kp. done. }
  destruct (decide (cur = [])) as [->|Hne].
  - rewrite Hs2 in HI2. destruct (present_empty _ _ _ HI2) as (r3 & E3 & HB3 & K3). cbn in HD. rewrite app_nil_r in HD. subst ps. by eapply Hend.
  - destruct (present_full _ _ _ _ _ HI2 Hs2 Hne) as (r3 & E3 & HB3 & K3). destruct cur as [|x cur]; [done|].
    cbn [batches fmap list_fmap] in HD. cbn [fmap list_fmap] in HB3. rewrite HD in HB3. by eapply Hend.
Qed.

(** *** The constructor *)

Lemma index_loop_spec fuel : forall k l, (k <= mq)%nat -> (mq - k < fuel)%nat ->
  index_loop fuel (6 * Z.of_nat mq) (6 * Z.of_nat k) (4 * Z.of_nat k) l = Ret (l ++ (seq k (mq - k) ≫= quad_indices)).
Proof.
  induction fuel as [|fuel IH]; intros k l Hk Hf; [lia|]. cbn [index_loop].
  destruct (Z.ltb_spec (6 * Z.of_nat k) (6 * Z.of_nat mq)) as [Hlt|Hge].
  - rewrite (proj2 (Z.ltb_lt _ _)) by lia. unwrap.
    replace (6 * Z.of_nat k + 6) with (6 * Z.of_nat (S k)) by lia. replace (4 * Z.of_nat k + 4) with (4 * Z.of_nat (S k)) by lia.
    rewrite IH by lia. rewrite <- app_assoc. replace (mq - k)%nat with (S (mq - S k)) by lia.
    cbn [seq mbind list_bind]. unfold quad_indices at 2. cbn zeta. by rewrite Z.add_0_r.
  - assert (k = mq) as -> by lia. by rewrite Nat.sub_diag, app_nil_r.
Qed.

Lemma index_pattern_length n : length (seq 0 n ≫= quad_indices) = (n * 6)%nat.
Proof. by rewrite (bind_length _ _ 6), length_seq. Qed.

Lemma init_idle : exists r, init G (setMaxQuads (Z.of_nat mq) config0) = Ret r /\ Idle r /\ draws G r = [] /\ commands G r = [].
Proof.
  assert (indiciesSize (setMaxQuads (Z.of_nat mq) config0) = 6 * Z.of_nat mq) as Hi by (cbn; unwrap; lia).
  assert (bufferSize (setMaxQuads (Z.of_nat mq) config0) / sizeof_Vertex2D = 4 * Z.of_nat mq) as Hs.
  { cbn. unfold sizeof_Vertex2D. unwrap. replace (Z.of_nat mq * 40 * 4) with (4 * Z.of_nat mq * 40) by lia. apply Z.div_mul. lia. }
  assert (length (replicate (Z.to_nat (4 * Z.of_nat mq)) (None : option Vertex2D)) = (4 * mq)%nat) as Hl by (rewrite length_replicate; lia).
  unfold init, init_buffers. rewrite Hs, Hi.
  pose proof (resize_create (A := Vertex2D) (4 * Z.of_nat mq)) as Hv.
  cbn [maxBatchDrawCalls setMaxQuads config0]. change (Z.to_nat 10) with 10%nat. cbn [seq mapM]. rewrite Hv, !bind_Ret.
  pose proof (index_loop_spec (S (Z.to_nat (6 * Z.of_nat mq))) 0 [] ltac:(lia) ltac:(lia)) as Hidx. 
  change (6 * Z.of_nat 0) with 0 in Hidx. change (4 * Z.of_nat 0) with 0 in Hidx.
  rewrite Hidx, bind_Ret, Nat.sub_0_r. cbn [app].
  pose proof (index_pattern_length mq) as Hpl.
  unfold IndexBuffer.create, VulkanBuffer.make. change VulkanBuffer.init with (@VulkanBuffer.resize Z).
  rewrite GpuBufferProps.init_ok by (cbn; done || lia). rewrite !bind_Ret. eexists. split; [reflexivity|]. split; [|done].
  split; [| |done|done].
  - split; try done.
    + cbn. rewrite take_ge by lia. done.
    + by exists [], 16%nat.
  - intros i Hlt. unfold closed. cbn [vertexBuffers]. exists 1%N, (replicate (Z.to_nat (4 * Z.of_nat mq)) None), (4 * Z.of_nat mq).
    split; [|done]. do 10 (destruct i as [|i]; [done|]). lia.
Qed.
End Frame.
End Frames.

(** ** Properties *)
Module RendererProps.
Import GpuBufferProps Renderer2D Batches Frames.

(** *** When a frame shows what was asked *)

Lemma quad_image_six G x : exists c0 c1 c2 c3, quad_corners G (fst x) (snd x) = [c0; c1; c2; c3] /\ quad_image G x = [c0; c1; c2; c2; c3; c0].
Proof. unfold quad_image, quad_corners, corners. destruct (texCoords (fst x)) as [[[? ?] ?] ?]. cbn. by repeat eexists. Qed.

Lemma quad_image_texture G x y : quad_image G x = quad_image G y -> texture (fst x) = texture (fst y).
Proof. unfold quad_image, quad_corners, corners. destruct (texCoords (fst x)) as [[[? ?] ?] ?], (texCoords (fst y)) as [[[? ?] ?] ?]. cbn. by intros [= _ _ _ -> _]. Qed.

Lemma bind_inj {A B} (f g : A -> list B) n l : (forall x, length (f x) = n /\ length (g x) = n) -> l ≫= f = l ≫= g ->
  forall x, x ∈ l -> f x = g x.
Proof.
  intros Hl. induction l as [|a l IH]; intros E x Hx; [by apply not_elem_of_nil in Hx|]. cbn in E.
  destruct (Hl a) as [H1 H2]. apply app_inj_1 in E as [Ea El]; [|congruence]. apply elem_of_cons in Hx as [->|Hx]; auto.
Qed.

(** Every slot of a batch is that of one of its quads. *)
Lemma slots_quad l j t : slots l !! j = Some t -> exists q, q ∈ l /\ texture q = Some t.
Proof.
  intros Hj. apply list_elem_of_lookup_2, (elem_of_list_to_set (C := gset N)) in Hj. rewrite slots_set in Hj.
  apply elem_of_union_list in Hj as (X & HX & Ht). apply list_elem_of_fmap in HX as (q & -> & Hq). exists q. split; [done|].
  unfold tex in Ht. destruct (texture q); set_solver.
Qed.

(** The screen shows every quad with its own texture exactly when every batch
    finds its textures in the slots. *)
Lemma paint_own_iff G view ps : paint G view ps = (concat ps ≫= quad_image G) <-> own_slots view ps.
Proof.
  split; [|apply paint_own]. intros E p j t Hp Hj.
  assert (forall x, length (quad_image G x) = 6%nat) as H6.
  { intros x. by destruct (quad_image_six G x) as (? & ? & ? & ? & _ & ->). }
  assert (forall p, p ∈ ps -> piece_image G view p = p ≫= quad_image G) as Hpiece.
  { clear p j t Hp Hj. induction ps as [|p ps IH]; intros q Hq; [by apply not_elem_of_nil in Hq|].
    cbn in E. rewrite bind_app in E. apply app_inj_1 in E as [E1 E2].
    - apply elem_of_cons in Hq as [->|Hq]; [done|by apply IH].
    - unfold piece_image. by rewrite !(bind_length _ _ 6) by (intros; apply H6). }
  destruct (slots_quad _ _ _ Hj) as (q & Hq & Ht). apply list_elem_of_fmap in Hq as (x & -> & Hx).
  pose proof (bind_inj _ _ 6 p ltac:(intros; split; apply H6) (Hpiece p Hp) x Hx) as Hi.
  apply quad_image_texture in Hi. cbn in Hi. unfold resolve in Hi. rewrite Ht, (find_slot _ j) in Hi by (done || apply slots_NoDup). done.
Qed.

(** C10. A frame of the 2D renderer, against its specification.  Between frames,
    with every quad alive, the commands are cut into batches of at most [mq] quads
    and sixteen textures: all commands, in order, and no cutting is shorter.  With
    at most ten batches [renderScene] succeeds, the uniform buffer holds the
    camera's matrix, the renderer is ready for the next frame, and the draws
    executed put every quad on the screen in order with its own corners and
    colour.  The texture a quad is drawn with is the one its slot holds after the
    last batch that has so many textures, since all batches share one descriptor
    set; so the frame shows the quads as they are exactly when every batch finds
    its textures there, as when there is one batch.  With more than ten batches
    the frame fails on the list of vertex buffers. *)
Theorem renderScene_refines_batches (G : glm2) (mq : nat) (quads : gmap N Quad2D) (r : Renderer G) (xs : list (Quad2D * mat G)) :
  (0 < mq)%nat -> 160 * Z.of_nat mq < 2 ^ 32 -> Idle G mq r -> draws G r = [] -> commanded G quads (commands G r) xs ->
  let ps := batches mq 16 [] xs in
  (concat ps = xs /\ Forall (fun p => piece_ok mq 16 (fst <$> p)) ps
    /\ forall ps', concat ps' = fst <$> xs -> Forall (piece_ok mq 16) ps' -> (length ps <= length ps')%nat)
  /\ ((length ps <= 10)%nat -> exists r', renderScene G quads r = Ret r'
        /\ frame G r' = Some (paint G (last_slots ps) ps)
        /\ (frame G r' = Some (xs ≫= quad_image G) <-> own_slots (last_slots ps) ps)
        /\ ((length ps <= 1)%nat -> frame G r' = Some (xs ≫= quad_image G))
        /\ Idle G mq r' /\ commands G r' = commands G r /\ uniformBuffer G r' = projView G r)
  /\ ((10 < length ps)%nat -> renderScene G quads r = Exn OutOfBounds).
Proof.
  intros Hmq H32 HI Hd Hx ps. pose proof (renderScene_greedy G mq Hmq H32 quads r xs HI Hd Hx) as Hg. fold ps in Hg.
  assert (piece_ok mq 16 (fst <$> ([] : list (Quad2D * mat G)))) as H0 by (split; cbn; unfold tex_set; cbn; rewrite ?size_empty; lia).
  destruct (batches_cut mq 16 xs Hmq ltac:(lia) [] H0) as [Hc Hp]. fold ps in Hc, Hp. cbn [app] in Hc. split_and!; [done..| | |].
  - intros ps' Hc' Hp'. by apply (batches_least mq 16); [|lia|..].
  - intros Hl. rewrite decide_True in Hg by done. destruct Hg as (r' & E & Hf & HI' & Hcm & Hu). fold ps in Hf.
    assert (frame G r' = Some (xs ≫= quad_image G) <-> own_slots (last_slots ps) ps) as Hiff.
    { rewrite Hf, <- Hc, <- (paint_own_iff G (last_slots ps) ps). split; [by intros [= ->]|by intros ->]. }
    exists r'. split_and!; try done. intros H1. by apply Hiff, own_single.
  - intros Hl. rewrite decide_False in Hg by lia. exact Hg.
Qed.

(** *** Scenes *)

Lemma Idle_commands G mq c r : Idle G mq r -> Idle G mq (with_commands G c r).
Proof. intros [[? ? ? ? ? ?] ? ? ?]. by split. Qed.
Lemma Idle_uniforms G mq p u r : Idle G mq r -> Idle G mq (with_uniforms G p u r).
Proof. intros [[? ? ? ? ? ?] ? ? ?]. by split. Qed.

(** A strict weak order on the elements of a list: what std::sort requires. *)
Definition strict_weak {A} (cmp : A -> A -> bool) (l : list A) : Prop :=
  (forall a, a ∈ l -> cmp a a = false)
  /\ (forall a b c, a ∈ l -> b ∈ l -> c ∈ l -> cmp a b = true -> cmp b c = true -> cmp a c = true)
  /\ (forall a b c, a ∈ l -> b ∈ l -> c ∈ l -> cmp a b = false -> cmp b c = false -> cmp a c = false).

Lemma strict_weak_mono {A} (cmp : A -> A -> bool) (l l' : list A) : l' ⊆ l -> strict_weak cmp l -> strict_weak cmp l'.
Proof.
  intros Hl (Hi & Ht & Hc). split_and!; intros; [apply Hi|eapply Ht|eapply Hc]; try eassumption; by apply Hl.
Qed.

(** What std::sort promises then. *)
Definition sorts {A} (sort : (A -> A -> bool) -> list A -> list A) : Prop :=
  forall cmp l, strict_weak cmp l ->
    sort cmp l ≡ₚ l /\ forall i j a b, (i < j)%nat -> sort cmp l !! i = Some a -> sort cmp l !! j = Some b -> cmp b a = false.

Lemma submits_commands G (xs : list (N * mat G)) : forall r,
  fold_left (fun r x => submit G (Some (fst x)) (snd x) r) xs r
  = with_commands G (commands G r ++ ((fun x => mkCommand G (fst x) (snd x)) <$> xs)) r.
Proof.
  induction xs as [|x xs IH]; intros r; cbn [fold_left fmap list_fmap]; [rewrite app_nil_r; by destruct r|].
  rewrite IH. unfold submit, with_commands. cbn. by rewrite <- app_assoc.
Qed.

Lemma beginScene_commands G sort proj world sprites animated r :
  beginScene G sort (Some (proj, world)) sprites animated r
  = with_commands G (sort (fun a b => F32.ltb (depth G (transform G a)) (depth G (transform G b)))
                       ((fun x => mkCommand G (fst x) (snd x)) <$> sprites ++ animated))
      (with_uniforms G (Some (mul G proj (inverse G world))) (uniformBuffer G r) r).
Proof. unfold beginScene. rewrite !submits_commands. cbn. by rewrite fmap_app. Qed.

Lemma depth_strict_weak G (cmds : list (Command2D G)) : Forall (fun c => is_nan (depth G (transform G c)) = false) cmds ->
  strict_weak (fun a b => F32.ltb (depth G (transform G a)) (depth G (transform G b))) cmds.
Proof.
  rewrite Forall_forall. intros Hn. split_and!.
  - intros a _. apply ltb_irrefl.
  - intros a b c _ _ _. apply ltb_trans.
  - intros a b c Ha Hb Hc. by apply ltb_cotrans; apply Hn.
Qed.

Lemma tex_set_mono l1 l2 : l1 ⊆ l2 -> tex_set l1 ⊆ tex_set l2.
Proof.
  intros Hl t. unfold tex_set. rewrite !elem_of_union_list. intros (X & HX & Ht). exists X. split; [|done].
  apply list_elem_of_fmap in HX as (q & -> & Hq). apply list_elem_of_fmap. exists q. split; [done|]. by apply Hl.
Qed.

(** From the scene to the screen: with a camera, the next frame shows every
    sprite and animated sprite of the scene once, with its own quad, texture and
    world transform, in the order of increasing depth, seen through the camera's
    matrix, provided they fit in one batch: at most [mq] with at most sixteen
    textures; no depth is NaN. *)
Theorem scene_drawn_in_depth_order (G : glm2) (mq : nat) sort (quads : gmap N Quad2D) (r : Renderer G) proj world
    (sprites animated : list (N * mat G)) (qs : list Quad2D) :
  (0 < mq)%nat -> 160 * Z.of_nat mq < 2 ^ 32 -> sorts sort -> Idle G mq r -> draws G r = [] ->
  Forall2 (fun x q => quads !! fst x = Some q) (sprites ++ animated) qs ->
  Forall (fun x => is_nan (depth G (snd x)) = false) (sprites ++ animated) ->
  (length qs <= mq)%nat -> (size (tex_set qs) <= 16)%nat ->
  exists r' ys, renderScene G quads (beginScene G sort (Some (proj, world)) sprites animated r) = Ret r'
    /\ frame G r' = Some (ys ≫= quad_image G)
    /\ ys ≡ₚ zip qs (snd <$> sprites ++ animated)
    /\ (forall i j x y, (i < j)%nat -> ys !! i = Some x -> ys !! j = Some y -> F32.leb (depth G (snd x)) (depth G (snd y)) = true)
    /\ uniformBuffer G r' = Some (mul G proj (inverse G world)) /\ Idle G mq r'.
Proof.
  intros Hmq H32 Hsort HI Hd Hq Hnan Hlen Htex. rewrite beginScene_commands.
  set (cmp := fun a b => _). set (cs := _ <$> sprites ++ animated).
  assert (Forall (fun c => is_nan (depth G (transform G c)) = false) cs) as Hcs by (by apply Forall_fmap).
  destruct (Hsort cmp cs (depth_strict_weak G cs Hcs)) as [Hperm Hord]. set (r1 := with_commands _ _ _).
  assert (commanded G quads cs (zip qs (snd <$> sprites ++ animated))) as Hcomm.
  { unfold commanded, cs. clear -Hq. induction Hq as [|x q xs qs Hx _ IH]; cbn; constructor; done. }
  destruct (Permutation_Forall2 (symmetry Hperm) Hcomm) as (ys & Hys & Hcomm').
  assert (length qs = length (sprites ++ animated)) as Hlq by (symmetry; by eapply Forall2_length).
  assert (fst <$> ys ≡ₚ qs) as Hfst.
  { rewrite <- Hys. rewrite fst_zip; [done|]. rewrite length_fmap. lia. }
  assert (length (fst <$> ys) <= mq)%nat as Hl' by (by rewrite Hfst).
  assert (tex_set (fst <$> ys) ⊆ tex_set qs) as Ht' by (apply tex_set_mono; intros q; by rewrite Hfst).
  assert (Idle G mq r1) as HI1 by (by apply Idle_commands, Idle_uniforms).
  assert (length (batches mq 16 [] ys) <= 1)%nat as H1.
  { apply (batches_least mq 16 ys [fst <$> ys]); [done|lia|cbn; by rewrite app_nil_r|]. apply Forall_singleton.
    split; [done|]. apply subseteq_size in Ht'. lia. }
  assert (piece_ok mq 16 (fst <$> ([] : list (Quad2D * mat G)))) as H0 by (split; cbn; unfold tex_set; cbn; rewrite ?size_empty; lia).
  destruct (batches_cut mq 16 ys Hmq ltac:(lia) [] H0) as [Hall _]. cbn [app] in Hall.
  pose proof (renderScene_greedy G mq Hmq H32 quads r1 ys HI1 Hd Hcomm') as Hg. rewrite decide_True in Hg by lia.
  destruct Hg as (r' & E & Hf & HI' & _ & Hu). rewrite (paint_own _ _ _ (own_single _ H1)), Hall in Hf.
  exists r', ys. split_and!; try done.
  intros i j x y Hij Hi Hj.
  destruct (Forall2_lookup_r _ _ _ _ _ Hcomm' Hi) as (a & Ha & _ & <-).
  destruct (Forall2_lookup_r _ _ _ _ _ Hcomm' Hj) as (b & Hb & _ & <-).
  rewrite Forall_forall in Hcs. rewrite leb_negb_ltb.
  - pose proof (Hord i j a b Hij Ha Hb) as Hc. unfold cmp in Hc. by rewrite Hc.
  - apply Hcs. rewrite <- Hperm. by eapply list_elem_of_lookup_2.
  - apply Hcs. rewrite <- Hperm. by eapply list_elem_of_lookup_2.
Qed.

(** *** Concrete scenes *)

(** Matrices that translate. *)
Definition translations : glm2 :=
  mkGlm2 vec3 (fun m p => mkVec3 (F32.add (v3x m) (v2x p)) (F32.add (v3y m) (v2y p)) (v3z m)) v3z (fun a b => add3 a b)
    (fun a => sub3 zero3 a).
Definition at_depth (z : Z) : vec3 := mkVec3 F32.zero F32.zero (F32.of_Z z).

Definition demo_quad (t : option N) : Quad2D := mkQuad t zero4 zero2 (zero2, zero2, zero2, zero2) 8 8.
(** Quad [i] has texture [i]. *)
Definition demo_quads (n : nat) : gmap N Quad2D :=
  list_to_map ((fun i => (N.of_nat i, demo_quad (Some (N.of_nat i)))) <$> seq 0 n).
Definition demo_sprites (n : nat) : list (N * vec3) := (fun i => (N.of_nat i, at_depth (Z.of_nat i))) <$> seq 0 n.

Definition ret_or {A} (d : A) (o : outcome A) : A := match o with Ret a => a | Exn _ => d end.
Definition demo_renderer (mq : Z) : Renderer translations :=
  ret_or (mkRenderer translations [] None None [] (IndexBuffer.mkIndexBuffer VulkanBuffer.buffer0 0) [] DescriptorSet.make (0%nat, 0) config0 0 0 0 [])
    (init translations (setMaxQuads mq config0)).

Lemma demo_idle mq : (0 < mq)%nat -> 160 * Z.of_nat mq < 2 ^ 32 ->
  Idle translations mq (demo_renderer (Z.of_nat mq)) /\ draws translations (demo_renderer (Z.of_nat mq)) = [].
Proof.
  intros Hmq H32. destruct (init_idle translations mq Hmq H32) as (r & E & HI & Hd & _). unfold demo_renderer. by rewrite E.
Qed.

(** Insertion sort is a std::sort. *)
Fixpoint insert_by {A} (cmp : A -> A -> bool) (a : A) (l : list A) : list A :=
  match l with [] => [a] | b :: l => if cmp b a then b :: insert_by cmp a l else a :: b :: l end.
Definition sort_by {A} (cmp : A -> A -> bool) (l : list A) : list A := foldr (insert_by cmp) [] l.

Lemma insert_by_perm {A} (cmp : A -> A -> bool) a l : insert_by cmp a l ≡ₚ a :: l.
Proof. induction l as [|b l IH]; cbn; [done|]. destruct (cmp b a); [|done]. rewrite IH. apply perm_swap. Qed.

Lemma sort_by_perm {A} (cmp : A -> A -> bool) (l : list A) : sort_by cmp l ≡ₚ l.
Proof. induction l as [|a l IH]; cbn; [done|]. by rewrite insert_by_perm, IH. Qed.

Lemma insert_by_sorted {A} (cmp : A -> A -> bool) a l : strict_weak cmp (a :: l) ->
  ForallOrdPairs (fun x y => cmp y x = false) l -> ForallOrdPairs (fun x y => cmp y x = false) (insert_by cmp a l).
Proof.
  intros Hw Hl. induction Hl as [|b l Hb Hl IH]; cbn; [repeat constructor|].
  destruct (cmp b a) eqn:E.
  - destruct Hw as (Hirr & Htr & Hco). constructor.
    + rewrite insert_by_perm. constructor; [|done]. destruct (cmp a b) eqn:E'; [|done].
      rewrite <- (Hirr a) by set_solver. symmetry. eapply Htr; [..|exact E'|exact E]; set_solver.
    + apply IH. eapply (strict_weak_mono _ (a :: b :: l)); [set_solver|by split_and!].
  - constructor; [|by constructor]. constructor; [done|]. rewrite Forall_forall in Hb |- *. intros x Hx.
    destruct Hw as (_ & _ & Hco). eapply (Hco x b a); [set_solver..|by apply Hb|done].
Qed.

Lemma sort_by_sorts {A} : sorts (A := A) sort_by.
Proof.
  intros cmp l Hw. split; [apply sort_by_perm|].
  assert (ForallOrdPairs (fun x y => cmp y x = false) (sort_by cmp l)) as Hs.
  { induction l as [|a l IH]; cbn; [constructor|]. apply insert_by_sorted.
    - eapply strict_weak_mono; [|exact Hw]. intros x. rewrite !elem_of_cons.
      change (foldr (insert_by cmp) [] l) with (sort_by cmp l). by rewrite sort_by_perm.
    - apply IH. eapply strict_weak_mono; [|exact Hw]. set_solver. }
  clear Hw. induction Hs as [|a l' Ha Hs IH]; intros i j x y Hij Hi Hj; [done|].
  destruct i as [|i], j as [|j]; try lia; cbn in Hi, Hj.
  - injection Hi as <-. rewrite Forall_forall in Ha. apply Ha. by eapply list_elem_of_lookup_2.
  - apply (IH i j); [lia|done..].
Qed.

(** Two batches of one quad: the first is drawn with the texture of the second. *)
Lemma renderScene_refines_batches_witness :
  let r := with_commands translations [mkCommand translations 1 (at_depth 5); mkCommand translations 0 (at_depth 7)] (demo_renderer 1) in
  exists r', renderScene translations (demo_quads 2) r = Ret r'
    /\ frame translations r' = Some (quad_image translations (demo_quad (Some 0%N), at_depth 5) ++ quad_image translations (demo_quad (Some 0%N), at_depth 7)).
Proof.
  intros r. destruct (demo_idle 1) as [HI Hd]; [lia|lia|].
  destruct (renderScene_refines_batches translations 1 (demo_quads 2) r [(demo_quad (Some 1%N), at_depth 5); (demo_quad (Some 0%N), at_depth 7)])
    as (_ & H & _); [lia|lia|by apply Idle_commands|done|by repeat constructor|].
  destruct H as (r' & E & Hf & _); [by apply (bool_decide_unpack _)|].
  exists r'. split; [exact E|]. rewrite Hf. reflexivity.
Defined.

Lemma scene_drawn_in_depth_order_witness : exists r' ys,
  renderScene translations (demo_quads 2)
    (beginScene translations sort_by (Some (at_depth 0, at_depth 0)) [(1%N, at_depth 7)] [(0%N, at_depth 5)] (demo_renderer 2)) = Ret r'
  /\ frame translations r' = Some (ys ≫= quad_image translations)
  /\ ys ≡ₚ [(demo_quad (Some 1%N), at_depth 7); (demo_quad (Some 0%N), at_depth 5)]
  /\ (forall i j x y, (i < j)%nat -> ys !! i = Some x -> ys !! j = Some y -> F32.leb (v3z (snd x)) (v3z (snd y)) = true).
Proof.
  destruct (demo_idle 2) as [HI Hd]; [lia|lia|].
  destruct (scene_drawn_in_depth_order translations 2 sort_by (demo_quads 2) (demo_renderer 2) (at_depth 0) (at_depth 0)
    [(1%N, at_depth 7)] [(0%N, at_depth 5)] [demo_quad (Some 1%N); demo_quad (Some 0%N)])
    as (r' & ys & E & Hf & Hp & Ho & _); [lia|lia|exact sort_by_sorts|exact HI|exact Hd|by repeat constructor|by repeat constructor|cbn; lia| |].
  - by apply (bool_decide_unpack _).
  - exists r', ys. split; [exact E|]. split; [exact Hf|]. split; [exact Hp|exact Ho].
Defined.

Lemma dangling_command G quads c r : indexCount G r < indiciesSize (config G r) -> quads !! quad G c = None ->
  submit_command G quads c r = Exn NullDeref.
Proof. intros Hc Hq. unfold submit_command. rewrite (proj2 (Z.leb_gt _ _)) by done. by rewrite bind_Ret, Hq. Qed.

(** Two things the frames share by mistake.  All batches of a frame bind the
    same descriptor set and every batch rewrites it, so in a frame of seventeen
    textures, which needs two batches, the first quad is drawn with the texture
    of the last.  And a scene without a camera keeps the commands of the scene
    before: rendering it follows their pointers, which dangle when that scene's
    sprites are gone. *)
Theorem renderer_shared_state :
  (let o := renderScene translations (demo_quads 17)
              (beginScene translations sort_by (Some (at_depth 0, at_depth 0)) (demo_sprites 17) [] (demo_renderer 20)) in
   let six i := replicate 6 (Some (N.of_nat i)) in
   match o with Ret r => map snd <$> frame translations r | Exn _ => None end = Some (six 16%nat ++ (seq 1 16 ≫= six)))
  /\ (forall G mq sort quads sprites animated (r : Renderer G) c cmds, (0 < mq)%nat -> 160 * Z.of_nat mq < 2 ^ 32 ->
        Idle G mq r -> commands G r = c :: cmds -> quads !! quad G c = None ->
        renderScene G quads (beginScene G sort None sprites animated r) = Exn NullDeref).
Proof.
  split.
  - by vm_compute.
  - intros G mq sort quads sprites animated r c cmds Hmq H32 [Hst Hcl Hb Hcnt] Hc Hq. cbn [beginScene].
    unfold renderScene, begin. destruct (Hcl 0%nat) as (m & cc & n & Ec & _); [lia|].
    unfold map_current. cbn [vertexBuffers batchDrawCallIndex with_textures]. rewrite Hb.
    rewrite (at_Z_Some _ _ (closed_vb m cc n)) by (done || lia). rewrite bind_Ret, getPointer_closed, !bind_Ret.
    unfold submitQuad. cbn [commands with_uniforms with_buffers set_vb with_textures]. rewrite Hc. cbn [foldM].
    rewrite (dangling_command G quads c); [done| |done].
    cbn [config indexCount with_uniforms with_buffers set_vb with_textures].
    rewrite Hcnt, (st_config G mq r Hst). cbn. unwrap. lia.
Qed.

Lemma renderer_shared_state_witness :
  renderScene translations ∅ (beginScene translations sort_by None [] []
    (with_commands translations [mkCommand translations 1 (at_depth 5)] (demo_renderer 1))) = Exn NullDeref.
Proof.
  apply (proj2 renderer_shared_state translations 1%nat sort_by ∅ [] [] _ (mkCommand translations 1 (at_depth 5)) []);
    [lia|lia|apply Idle_commands; apply (demo_idle 1); lia|done|done].
Defined.
End RendererProps.
