(* ===== verification/LineRenderer.v ===== *)
(** * LineRenderer: debug lines

    Models [Engine/Renderer/LineRenderer.*], [DebugRenderer.*] and
    [Math/Frustum.*].  The lines submitted since the last frame are written into
    the first vertex buffer and drawn at once.  As in [Renderer2D] the command
    buffer is the list of draws. *)

From S2P Require Import Prelude Float32 Geometry GpuBuffers.
From stdpp Require Import base decidable list gmap.
From Stdlib Require Import ZArith Lia.
Local Open Scope Z_scope.
Import Glm.

Module LineRenderer.
Import VulkanBuffer VertexBuffer IndexBuffer.

(** ** Constants *)
Definition sizeof_LineVertex : Z := 28.
Definition MAX_LINES : Z := 10000.
Definition MAX_LINE_VERTICES : Z := MAX_LINES * 2.
Definition MAX_LINE_INDICES : Z := MAX_LINES * 6.
Definition MAX_BATCH_DRAW_CALLS : Z := 100.
Definition RENDERER_LINE_SIZE : Z := sizeof_LineVertex * 4.
Definition RENDERER_BUFFER_SIZE : Z := RENDERER_LINE_SIZE * MAX_LINE_VERTICES.

(** ** State *)
Record LineVertex := mkLineVertex { vertex : vec3; lcolor : vec4 }.
Record Line := mkLine { l_start : vec3; l_end : vec3; l_color : vec4 }.

Section Renderer.
Context {mat : Type} (mul : mat -> mat -> mat) (inverse : mat -> mat).

Record LineRenderer := mkLineRenderer {
  projView : option mat;               (* systemUniformBuffer *)
  uniformBuffer : option mat;
  vertexBuffers : list (VertexBuffer LineVertex);
  indexBuffer : IndexBuffer;
  buffer : nat * Z;
  lines : list Line;
  batchDrawCallIndex : Z;
  lineIndexCount : Z;
  draws : list (nat * Z)               (* the buffer bound and the number of indices *)
}.

Definition with_uniforms (p u : option mat) (r : LineRenderer) : LineRenderer :=
  mkLineRenderer p u (vertexBuffers r) (indexBuffer r) (buffer r) (lines r) (batchDrawCallIndex r) (lineIndexCount r) (draws r).
Definition with_buffers (v : list (VertexBuffer LineVertex)) (b : nat * Z) (r : LineRenderer) : LineRenderer :=
  mkLineRenderer (projView r) (uniformBuffer r) v (indexBuffer r) b (lines r) (batchDrawCallIndex r) (lineIndexCount r) (draws r).
Definition with_lines (l : list Line) (r : LineRenderer) : LineRenderer :=
  mkLineRenderer (projView r) (uniformBuffer r) (vertexBuffers r) (indexBuffer r) (buffer r) l (batchDrawCallIndex r) (lineIndexCount r) (draws r).
Definition with_counts (b n : Z) (r : LineRenderer) : LineRenderer :=
  mkLineRenderer (projView r) (uniformBuffer r) (vertexBuffers r) (indexBuffer r) (buffer r) (lines r) b n (draws r).
Definition with_draws (ib : IndexBuffer) (d : list (nat * Z)) (r : LineRenderer) : LineRenderer :=
  mkLineRenderer (projView r) (uniformBuffer r) (vertexBuffers r) ib (buffer r) (lines r) (batchDrawCallIndex r) (lineIndexCount r) d.

(** ** Construction: createUniformBuffer makes the buffers too. *)
Definition createUniformBuffer : outcome LineRenderer :=
  vbs ← mapM (fun _ : nat => VertexBuffer.resize (RENDERER_BUFFER_SIZE / sizeof_LineVertex) None VertexBuffer.create) (seq 0 100);
  ib ← IndexBuffer.create (seqZ 0 MAX_LINE_INDICES) MAX_LINE_INDICES;
  Ret (mkLineRenderer None None vbs ib (0%nat, 0) [] 0 0 []).

(** ** Frames *)
Definition submit (p1 p2 : vec3) (color : vec4) (r : LineRenderer) : LineRenderer := with_lines (lines r ++ [mkLine p1 p2 color]) r.
Definition clear (r : LineRenderer) : LineRenderer := with_lines [] r.

(** [*buffer = v; buffer++]. *)
Definition emit (v : LineVertex) (r : LineRenderer) : outcome LineRenderer :=
  vb ← vec_at (vertexBuffers r) (fst (buffer r));
  vb ← store (snd (buffer r)) v vb;
  Ret (with_buffers (<[fst (buffer r) := vb]> (vertexBuffers r)) (fst (buffer r), snd (buffer r) + 1) r).

Definition submit_line (l : Line) (r : LineRenderer) : outcome LineRenderer :=
  r ← emit (mkLineVertex (l_start l) (l_color l)) r;
  r ← emit (mkLineVertex (l_end l) (l_color l)) r;
  Ret (with_counts (batchDrawCallIndex r) (u32 (lineIndexCount r + 2)) r).

Definition submitLines (r : LineRenderer) : outcome LineRenderer := foldM submit_line (lines r) r.

Definition set_vb (v : VertexBuffer LineVertex) (r : LineRenderer) : LineRenderer :=
  with_buffers (<[Z.to_nat (batchDrawCallIndex r) := v]> (vertexBuffers r)) (buffer r) r.

Definition map_current (r : LineRenderer) : outcome LineRenderer :=
  v ← at_Z (vertexBuffers r) (batchDrawCallIndex r); v ← getPointer v;
  let r := set_vb v r in
  Ret (with_buffers (vertexBuffers r) (Z.to_nat (batchDrawCallIndex r), 0) r).

Definition present (r : LineRenderer) : outcome LineRenderer :=
  v ← at_Z (vertexBuffers r) (batchDrawCallIndex r); v ← releasePointer v;
  let r := set_vb v r in
  let r := with_draws (setCount (lineIndexCount r) (indexBuffer r)) (draws r) r in
  let r := with_draws (indexBuffer r) (draws r ++ [(Z.to_nat (batchDrawCallIndex r), lineIndexCount r)]) r in
  Ret (with_counts (u32 (batchDrawCallIndex r + 1)) 0 r).

Definition end_ (r : LineRenderer) : LineRenderer := with_lines [] (with_counts 0 0 r).

(** Nothing calls it: the call in [submitLines] is commented out. *)
Definition flush (r : LineRenderer) : outcome LineRenderer := r ← present r; map_current (with_lines [] r).

Definition renderScene (r : LineRenderer) : outcome LineRenderer :=
  let r := with_uniforms (projView r) (projView r) r in
  r ← map_current r; r ← submitLines r; r ← present r; Ret (end_ r).

(** The pair of the scene's camera; both pointers are tested. *)
Definition beginScene (camera : option mat * option mat) (r : LineRenderer) : LineRenderer :=
  match camera with
  | (Some proj, Some world) => with_uniforms (Some (mul proj (inverse world))) (uniformBuffer r) r
  | _ => r
  end.

(** ** What the device draws: a line for every two indices. *)
Definition fetch (r : LineRenderer) (b k : nat) : option LineVertex :=
  i ← mjoin (cells (ib_base (indexBuffer r)) !! k);
  vb ← vertexBuffers r !! b;
  mjoin (cells (base vb) !! Z.to_nat i).

Definition draw_vertices (r : LineRenderer) (d : nat * Z) : option (list LineVertex) := mapM (fetch r (fst d)) (seq 0 (Z.to_nat (snd d))).
Definition frame (r : LineRenderer) : option (list LineVertex) := (@concat LineVertex) <$> mapM (draw_vertices r) (draws r).
End Renderer.
End LineRenderer.

(** ** The frustum (Math/Frustum.cpp) *)
Module Frustum.

Definition frustumCorners : list vec3 :=
  let v x y z := mkVec3 (F32.of_Z x) (F32.of_Z y) (F32.of_Z z) in
  [v 1 1 0; v 1 (-1) 0; v (-1) (-1) 0; v (-1) 1 0; v 1 1 1; v 1 (-1) 1; v (-1) (-1) 1; v (-1) 1 1].

(** [unproject c] is [(inverse(projection) * c) / w]. *)
Definition from (unproject : vec3 -> vec3) : list vec3 := unproject <$> frustumCorners.
End Frustum.

(** ** Shapes (DebugRenderer.cpp) *)
Module DebugRenderer.
Import LineRenderer.

Section Debug.
Context {mat : Type}.
Abbreviation R := (@LineRenderer.LineRenderer mat).

Definition white : vec4 := splat4 F32.one.

Definition drawLine (s e : vec3) (color : vec4) (r : R) : R := submit s e color r.

(** Lines between the elements of a list. *)
Definition drawPairs (vs : list vec3) (color : vec4) (ps : list (nat * nat)) (r : R) : outcome R :=
  foldM (fun p r => a ← vec_at vs (fst p); b ← vec_at vs (snd p); Ret (drawLine a b color r)) ps r.

Definition drawFrustum (vertices : list vec3) (r : R) : outcome R :=
  drawPairs vertices white
    [(0, 1); (1, 2); (2, 3); (3, 0); (4, 5); (5, 6); (6, 7); (7, 4); (0, 4); (1, 5); (2, 6); (3, 7)]%nat r.

(** The coordinates are [int32_t], converted to [float]. *)
Definition drawRect (x y width height : Z) (r : R) : R :=
  let right := i32 (x + width) in let bottom := i32 (y + height) in
  let v a b := mkVec3 (F32.of_Z a) (F32.of_Z b) F32.zero in
  let r := drawLine (v x y) (v right y) white r in
  let r := drawLine (v right y) (v right bottom) white r in
  let r := drawLine (v right bottom) (v x bottom) white r in
  drawLine (v x bottom) (v x y) white r.

Definition drawBox (box : BoundingBox.BoundingBox) (color : vec4) (r : R) : R :=
  let uuu := BoundingBox.bmax box in
  let lll := BoundingBox.bmin box in
  let ull := mkVec3 (v3x uuu) (v3y lll) (v3z lll) in
  let uul := mkVec3 (v3x uuu) (v3y uuu) (v3z lll) in
  let ulu := mkVec3 (v3x uuu) (v3y lll) (v3z uuu) in
  let luu := mkVec3 (v3x lll) (v3y uuu) (v3z uuu) in
  let llu := mkVec3 (v3x lll) (v3y lll) (v3z uuu) in
  let lul := mkVec3 (v3x lll) (v3y uuu) (v3z lll) in
  let r := drawLine luu uuu color r in
  let r := drawLine lul uul color r in
  let r := drawLine llu ulu color r in
  let r := drawLine lll ull color r in
  let r := drawLine lul lll color r in
  let r := drawLine uul ull color r in
  let r := drawLine luu llu color r in
  let r := drawLine uuu ulu color r in
  let r := drawLine lll llu color r in
  let r := drawLine ull ulu color r in
  let r := drawLine lul luu color r in
  drawLine uul uuu color r.
End Debug.
End DebugRenderer.

(** ** Properties *)
Module LineProps.
Import VulkanBuffer VertexBuffer IndexBuffer GpuBufferProps LineRenderer.

Definition vertices (ls : list Line) : list LineVertex :=
  ls ≫= fun l => [mkLineVertex (l_start l) (l_color l); mkLineVertex (l_end l) (l_color l)].

Section Frame.
Context {mat : Type}.
Abbreviation R := (@LineRenderer.LineRenderer mat).

Definition capacity : Z := RENDERER_BUFFER_SIZE / sizeof_LineVertex.

(** Between frames. *)
Record Idle (r : R) : Prop := mkIdle {
  id_vbs : exists m c n, vertexBuffers r !! 0%nat = Some (closed_vb m c n) /\ Z.of_nat (length c) = capacity;
  id_index : cells (ib_base (indexBuffer r)) = Some <$> seqZ 0 MAX_LINE_INDICES;
  id_batch : batchDrawCallIndex r = 0;
  id_count : lineIndexCount r = 0
}.

Lemma capacity_val : capacity = 80000.
Proof. done. Qed.

Lemma line_vertices_length ls : length (vertices ls) = (2 * length ls)%nat.
Proof. unfold vertices. rewrite (bind_length _ _ 2); [lia|done]. Qed.

Lemma emit_line_ok m n v (r : R) c off : vertexBuffers r !! 0%nat = Some (open_vb m c n) -> buffer r = (0%nat, Z.of_nat off) -> (off < length c)%nat ->
  emit v r = Ret (with_buffers (<[0%nat := open_vb m (<[off := Some v]> c) n]> (vertexBuffers r)) (0%nat, Z.of_nat (S off)) r).
Proof.
  intros Hv Hbuf Hl. unfold emit. rewrite Hbuf. cbn [fst snd]. unfold vec_at. rewrite Hv, bind_Ret.
  rewrite store_open, bind_Ret, Nat2Z.id by lia. by replace (Z.of_nat off + 1) with (Z.of_nat (S off)) by lia.
Qed.

Lemma emit_full m n v (r : R) c off : vertexBuffers r !! 0%nat = Some (open_vb m c n) -> buffer r = (0%nat, Z.of_nat off) -> (length c <= off)%nat ->
  emit v r = Exn OutOfBounds.
Proof.
  intros Hv Hbuf Hl. unfold emit. rewrite Hbuf. cbn [fst snd]. unfold vec_at. rewrite Hv, bind_Ret.
  by rewrite store_open_full by lia.
Qed.

(** The state after writing vertices [vs] from [off]. *)
Definition written (m : N) (c : list (option LineVertex)) (n : Z) (vs : list LineVertex) (off : nat) (r : R) : R :=
  with_counts (batchDrawCallIndex r) (Z.of_nat (off + length vs))
    (with_buffers (<[0%nat := open_vb m (overwrite off (Some <$> vs) c) n]> (vertexBuffers r)) (0%nat, Z.of_nat (off + length vs)) r).

Lemma submit_line_ok m n l (r : R) c off : vertexBuffers r !! 0%nat = Some (open_vb m c n) -> buffer r = (0%nat, Z.of_nat off) ->
  lineIndexCount r = Z.of_nat off -> (S (S off) <= length c)%nat -> Z.of_nat (length c) < 2 ^ 31 ->
  submit_line l r = Ret (written m c n (vertices [l]) off r).
Proof.
  intros Hv Hbuf Hn Hl H31. unfold submit_line. rewrite (emit_line_ok m n _ r c off) by (done || lia). rewrite bind_Ret.
  assert (0 < length (vertexBuffers r))%nat as H0 by (by eapply lookup_lt_Some).
  rewrite (emit_line_ok m n _ _ (<[off := Some (mkLineVertex (l_start l) (l_color l))]> c) (S off));
    [|cbn; by rewrite list_lookup_insert_eq|done|rewrite length_insert; lia].
  rewrite bind_Ret. unfold written. cbn [vertices mbind list_bind app length fmap list_fmap].
  rewrite <- overwrite_cons, overwrite_single by (rewrite ?length_insert; lia).
  unfold with_counts, with_buffers. cbn. rewrite Hn, list_insert_insert_eq. unwrap. by replace (Z.of_nat off + 2) with (Z.of_nat (off + 2)) by lia; replace (S (S off)) with (off + 2)%nat by lia.
Qed.

Lemma submit_lines_ok m n ls : forall (r : R) c off, vertexBuffers r !! 0%nat = Some (open_vb m c n) -> buffer r = (0%nat, Z.of_nat off) ->
  lineIndexCount r = Z.of_nat off -> (off + length (vertices ls) <= length c)%nat -> Z.of_nat (length c) < 2 ^ 31 ->
  foldM submit_line ls r = Ret (written m c n (vertices ls) off r).
Proof.
  induction ls as [|l ls IH]; intros r c off Hv Hbuf Hn Hl H31.
  - cbn [foldM]. unfold written. cbn. rewrite overwrite_nil, list_insert_id, Nat.add_0_r by done.
    rewrite <- Hbuf, <- Hn. by destruct r.
  - change (vertices (l :: ls)) with (vertices [l] ++ vertices ls) in *.
    assert (length (vertices [l]) = 2%nat) as H2 by done. rewrite length_app, H2 in Hl.
    cbn [foldM]. rewrite (submit_line_ok m n l r c off) by (done || lia). rewrite bind_Ret.
    assert (0 < length (vertexBuffers r))%nat as H0 by (by eapply lookup_lt_Some).
    rewrite (IH _ (overwrite off (Some <$> vertices [l]) c) (off + 2)%nat).
    + unfold written, with_counts, with_buffers. cbn -[overwrite vertices]. rewrite list_insert_insert_eq, length_app, H2.
      rewrite fmap_app, <- overwrite_app by (rewrite !length_fmap, H2; lia). rewrite length_fmap, H2. by rewrite Nat.add_assoc.
    + cbn -[overwrite vertices]. by rewrite list_lookup_insert_eq.
    + done.
    + done.
    + rewrite overwrite_length by (rewrite length_fmap, H2; lia). lia.
    + rewrite overwrite_length by (rewrite length_fmap, H2; lia). lia.
Qed.

Lemma submit_lines_full m n ls : forall (r : R) c off, vertexBuffers r !! 0%nat = Some (open_vb m c n) -> buffer r = (0%nat, Z.of_nat off) ->
  lineIndexCount r = Z.of_nat off -> (off <= length c)%nat -> (length c < off + length (vertices ls))%nat -> Z.of_nat (length c) < 2 ^ 31 ->
  foldM submit_line ls r = Exn OutOfBounds.
Proof.
  induction ls as [|l ls IH]; intros r c off Hv Hbuf Hn Ho Hl H31; [cbn in Hl; lia|].
  change (vertices (l :: ls)) with (vertices [l] ++ vertices ls) in *.
  assert (length (vertices [l]) = 2%nat) as H2 by done. rewrite length_app, H2 in Hl.
  assert (0 < length (vertexBuffers r))%nat as H0 by (by eapply lookup_lt_Some).
  cbn [foldM]. destruct (decide (S (S off) <= length c)%nat) as [Hle|Hgt].
  - rewrite (submit_line_ok m n l r c off) by (done || lia). rewrite bind_Ret.
    apply (IH _ (overwrite off (Some <$> vertices [l]) c) (off + 2)%nat); [|done|done|..];
      rewrite ?overwrite_length by (rewrite length_fmap, H2; lia); try lia.
    cbn -[overwrite vertices]. by rewrite list_lookup_insert_eq.
  - unfold submit_line. destruct (decide (off < length c)%nat) as [Hlt|Hge].
    + rewrite (emit_line_ok m n _ r c off) by (done || lia). rewrite bind_Ret.
      rewrite (emit_full m n _ _ (<[off := Some (mkLineVertex (l_start l) (l_color l))]> c) (S off)); [done| |done|rewrite length_insert; lia].
      cbn. by rewrite list_lookup_insert_eq.
    + by rewrite (emit_full m n _ r c off) by (done || lia).
Qed.

(** The vertices a draw of the first [k] vertices fetches. *)
Lemma draw_vertices_ok (r : R) c k (vs : list LineVertex) : cells (ib_base (indexBuffer r)) = Some <$> seqZ 0 MAX_LINE_INDICES ->
  ((fun v => cells (base v)) <$> vertexBuffers r !! 0%nat) = Some c -> take (length vs) c = Some <$> vs -> k = Z.of_nat (length vs) ->
  draw_vertices r (0%nat, k) = if decide (k <= MAX_LINE_INDICES) then Some vs else None.
Proof.
  intros Hi Hv Htake ->. unfold draw_vertices. cbn [fst snd]. rewrite Nat2Z.id.
  assert (forall k v, Z.of_nat k < MAX_LINE_INDICES -> vs !! k = Some v -> fetch r 0 k = Some v) as Hf.
  { intros k v Hk Hkv. unfold fetch. rewrite Hi, list_lookup_fmap, lookup_seqZ_lt by done. cbn.
    destruct (vertexBuffers r !! 0%nat) as [w|]; [|done]. cbn in Hv. injection Hv as Hv. cbn [mbind option_bind]. rewrite Hv. replace (Z.to_nat (0 + Z.of_nat k)) with k by lia.
    assert (c !! k = Some (Some v)) as ->; [|done].
    rewrite <- (lookup_take_lt _ (length vs)) by (by eapply lookup_lt_Some). by rewrite Htake, list_lookup_fmap, Hkv. }
  case_decide as Hle.
  - rewrite <- (Nat.mul_1_l (length vs)). rewrite (mapM_blocks _ (fun v => [v]) 1 vs 0).
    + f_equal. clear. induction vs as [|v vs IH]; cbn; [done|]. by f_equal.
    + intros j v Hj. pose proof (lookup_lt_Some _ _ _ Hj). cbn. rewrite Nat.add_0_r, (Hf j v) by (done || lia). done.
  - apply mapM_None_2, Exists_exists. exists (Z.to_nat MAX_LINE_INDICES). split.
    + apply list_elem_of_In, in_seq. unfold MAX_LINE_INDICES, MAX_LINES in *. lia.
    + unfold fetch. rewrite Hi, list_lookup_fmap, (lookup_ge_None_2 (seqZ 0 MAX_LINE_INDICES)) by (rewrite length_seqZ; lia). done.
Qed.

Lemma frame_single (r : R) d : draws r = [d] -> frame r = draw_vertices r d.
Proof. intros Hd. unfold frame. rewrite Hd. cbn. destruct (draw_vertices r d); cbn; [by rewrite app_nil_r|done]. Qed.

(** One frame, by the number of lines. *)
Lemma renderScene_spec (r : R) : Idle r -> draws r = [] ->
  if decide (2 * Z.of_nat (length (lines r)) <= capacity)
  then exists r', renderScene r = Ret r' /\ Idle r' /\ lines r' = [] /\ uniformBuffer r' = projView r
         /\ frame r' = if decide (2 * Z.of_nat (length (lines r)) <= MAX_LINE_INDICES) then Some (vertices (lines r)) else None
  else renderScene r = Exn OutOfBounds.
Proof.
  intros [(m & c & n & Hv & Hc) Hix Hb Hn] Hd. unfold renderScene, map_current. cbn [vertexBuffers with_uniforms batchDrawCallIndex].
  rewrite Hb. rewrite (at_Z_Some _ _ (closed_vb m c n)) by (done || lia). rewrite bind_Ret, getPointer_closed, !bind_Ret.
  assert (0 < length (vertexBuffers r))%nat as H0 by (by eapply lookup_lt_Some).
  match goal with |- context [submitLines ?x] => set (r1 := x) end.
  assert (vertexBuffers r1 = <[0%nat := open_vb m c n]> (vertexBuffers r)) as Hv1.
  { unfold r1, set_vb. cbn. by rewrite Hb. }
  assert (vertexBuffers r1 !! 0%nat = Some (open_vb m c n)) as Hv1' by (by rewrite Hv1, list_lookup_insert_eq).
  assert (buffer r1 = (0%nat, Z.of_nat 0)) as Hbuf1 by (unfold r1, set_vb; cbn; by rewrite ?Hb).
  pose proof (line_vertices_length (lines r)) as Hvl. rewrite capacity_val in *.
  unfold submitLines. change (lines r1) with (lines r). case_decide as Hle.
  - rewrite (submit_lines_ok m n (lines r) r1 c 0) by (done || exact Hn || lia). rewrite bind_Ret.
    set (c' := overwrite 0 (Some <$> vertices (lines r)) c). match goal with |- context [present ?x] => set (r2 := x) end.
    assert (length c' = length c) as Hc' by (unfold c'; rewrite overwrite_length; rewrite ?length_fmap; lia).
    assert (vertexBuffers r2 !! 0%nat = Some (open_vb m c' n)) as Hv2.
    { unfold r2, written. cbn [vertexBuffers with_counts with_buffers]. rewrite Hv1, list_insert_insert_eq. by rewrite list_lookup_insert_eq. }
    unfold present. change (batchDrawCallIndex r2) with (batchDrawCallIndex r). rewrite Hb.
    rewrite (at_Z_Some _ _ (open_vb m c' n)) by (done || lia). rewrite bind_Ret, releasePointer_open, !bind_Ret.
    match goal with |- context [end_ ?x] => set (r3 := end_ x) end. exists r3. split; [reflexivity|].
    assert (vertexBuffers r3 !! 0%nat = Some (closed_vb m c' n)) as Hv3.
    { unfold r3, end_, set_vb. cbn -[r2]. change (batchDrawCallIndex r2) with (batchDrawCallIndex r). rewrite Hb. apply list_lookup_insert_eq.
      by eapply lookup_lt_Some. }
    split_and!; [|done|done|].
    + split; [exists m, c', n; by rewrite Hc'|exact Hix|done|done].
    + assert (draws r3 = [(0%nat, Z.of_nat (length (vertices (lines r))))]) as Hd3.
      { unfold r3, end_. cbn -[r2 vertices]. change (draws r2) with (draws r).
        change (batchDrawCallIndex r2) with (batchDrawCallIndex r). change (lineIndexCount r2) with (Z.of_nat (length (vertices (lines r)))). by rewrite Hd, Hb. }
      rewrite (frame_single r3 _ Hd3). rewrite Hvl. replace (2 * Z.of_nat (length (lines r))) with (Z.of_nat (length (vertices (lines r)))) by lia.
      rewrite <- Hvl. apply (draw_vertices_ok r3 c'); [exact Hix|by rewrite Hv3| |done].
      unfold c'. rewrite overwrite_0. rewrite <- (length_fmap Some) at 1. apply take_app_length.
  - by rewrite (submit_lines_full m n (lines r) r1 c 0) by (done || exact Hn || lia).
Qed.
End Frame.

(** Debug lines.  Between frames, with at most 30000 lines submitted, the
    frame draws each line once, in the order of submission with its colour, and
    empties the list.  The loop never flushes: beyond 30000 the draw reads past
    the index buffer, and beyond 40000 the vertices are written past the vertex
    buffer. *)
Theorem lines_drawn {mat} (r : @LineRenderer.LineRenderer mat) : Idle r -> draws r = [] ->
  (Z.of_nat (length (lines r)) <= 30000 -> exists r', renderScene r = Ret r' /\ frame r' = Some (vertices (lines r))
     /\ Idle r' /\ lines r' = [] /\ uniformBuffer r' = projView r)
  /\ (30000 < Z.of_nat (length (lines r)) <= 40000 -> exists r', renderScene r = Ret r' /\ frame r' = None)
  /\ (40000 < Z.of_nat (length (lines r)) -> renderScene r = Exn OutOfBounds).
Proof.
  intros HI Hd. pose proof (renderScene_spec r HI Hd) as Hs. rewrite capacity_val in Hs. split_and!; intros Hn.
  - rewrite decide_True in Hs by lia. destruct Hs as (r' & E & HI' & Hl & Hu & Hf). exists r'.
    rewrite Hf, decide_True by (unfold MAX_LINE_INDICES, MAX_LINES; lia). done.
  - rewrite decide_True in Hs by lia. destruct Hs as (r' & E & _ & _ & _ & Hf). exists r'.
    rewrite Hf, decide_False by (unfold MAX_LINE_INDICES, MAX_LINES; lia). done.
  - by rewrite decide_False in Hs by lia.
Qed.

(** *** The constructor *)
Lemma mapM_const {A B} (x : B) (l : list A) : mapM (M := outcome) (fun _ => Ret x) l = Ret (replicate (length l) x).
Proof. induction l as [|a l IH]; cbn; [done|]. by rewrite IH. Qed.

(** The buffers, for any sizes. *)
Lemma create_buffers cap n : 0 <= cap -> 0 <= n -> exists vbs ib,
  mapM (fun _ : nat => VertexBuffer.resize cap None (VertexBuffer.create (A := LineVertex))) (seq 0 100) = Ret vbs
  /\ IndexBuffer.create (seqZ 0 n) n = Ret ib
  /\ (exists m c k, vbs !! 0%nat = Some (closed_vb m c k) /\ Z.of_nat (length c) = cap)
  /\ cells (ib_base ib) = Some <$> seqZ 0 n.
Proof.
  intros Hc Hn. rewrite resize_create, mapM_const.
  unfold IndexBuffer.create, VulkanBuffer.make. change VulkanBuffer.init with (@VulkanBuffer.resize Z).
  assert (length (seqZ 0 n) = Z.to_nat n) as Hl by apply length_seqZ.
  rewrite init_ok; [|rewrite Hl; lia|done]. rewrite !bind_Ret.
  eexists _, _. split_and!; [reflexivity|reflexivity| |].
  - eexists _, _, _. split; [reflexivity|]. rewrite length_replicate. by apply Z2Nat.id.
  - cbn [ib_base cells]. rewrite take_ge; [reflexivity|]. by rewrite Hl.
Qed.

Lemma createUniformBuffer_idle {mat} : exists r : @LineRenderer.LineRenderer mat,
  createUniformBuffer = Ret r /\ Idle r /\ draws r = [] /\ lines r = [].
Proof.
  destruct (create_buffers capacity MAX_LINE_INDICES) as (vbs & ib & Ev & Ei & Hv & Hi).
  { by apply Z.div_pos. } { done. }
  unfold createUniformBuffer. fold capacity. rewrite Ev, bind_Ret, Ei, bind_Ret.
  eexists. split; [reflexivity|]. split; [|split; reflexivity]. split; [exact Hv|exact Hi|reflexivity|reflexivity].
Qed.

Lemma Idle_lines {mat} ls (r : @LineRenderer.LineRenderer mat) : Idle r -> Idle (with_lines ls r).
Proof. intros [? ? ? ?]. by split. Qed.

Lemma lines_drawn_witness : exists (r r' : @LineRenderer.LineRenderer unit) p q,
  renderScene r = Ret r' /\ frame r' = Some [mkLineVertex p zero4; mkLineVertex q zero4] /\ lines r' = [].
Proof.
  destruct (@createUniformBuffer_idle unit) as (r & _ & HI & Hd & _).
  set (l := mkLine zero3 (splat3 F32.one) zero4).
  destruct (lines_drawn (with_lines [l] r) (Idle_lines [l] r HI) Hd) as [H _].
  destruct H as (r' & E & Hf & _ & Hl & _); [cbn; lia|].
  exists (with_lines [l] r), r', zero3, (splat3 F32.one). split; [exact E|]. split; [exact Hf|exact Hl].
Defined.
End LineProps.

(** ** Shapes are drawn by their edges *)
Module ShapeProps.
Import LineRenderer DebugRenderer.

(** The corners of a cuboid, and the pairs that differ in one coordinate. *)
Definition Corner : Type := bool * bool * bool.
Definition all_corners : list Corner := x ← [false; true]; y ← [false; true]; z ← [false; true]; [(x, y, z)].
Definition adjacent (p : Corner * Corner) : bool :=
  let '((x, y, z), (x', y', z')) := p in
  match xorb x x', xorb y y', xorb z z' with
  | true, false, false | false, true, false | false, false, true => true
  | _, _, _ => false
  end.
Definition edges : list (Corner * Corner) := filter adjacent (a ← all_corners; b ← all_corners; [(a, b)]).

(** [ps] has each edge once, in one of its directions. *)
Definition edges_once (ps : list (Corner * Corner)) : Prop := ps ++ ((fun p => (snd p, fst p)) <$> ps) ≡ₚ edges.

Definition box_corner (b : BoundingBox.BoundingBox) (c : Corner) : vec3 :=
  let '(x, y, z) := c in
  let pick (s : bool) f := if s then f (BoundingBox.bmax b) else f (BoundingBox.bmin b) in
  mkVec3 (pick x v3x) (pick y v3y) (pick z v3z).

(** The clip space of the frustum: x and y from -1 to 1, z from 0 to 1. *)
Definition clip_corner (c : Corner) : vec3 :=
  let '(x, y, z) := c in
  mkVec3 (F32.of_Z (if x then 1 else -1)) (F32.of_Z (if y then 1 else -1)) (F32.of_Z (if z then 1 else 0)).

Definition edge_line (corner : Corner -> vec3) (color : vec4) (p : Corner * Corner) : Line := mkLine (corner (fst p)) (corner (snd p)) color.

(** [drawBox] submits the twelve edges of the box, each once: the pairs of
    corners that differ in one coordinate; [drawFrustum] submits those of the
    unprojected clip cuboid, [drawRect] the four sides of the rectangle in
    order; all after the lines submitted before. *)
Theorem shapes_edges {mat} (r : @LineRenderer.LineRenderer mat) (b : BoundingBox.BoundingBox) (color : vec4) (unproject : vec3 -> vec3) x y w h :
  (exists ps, edges_once ps /\ lines (drawBox b color r) = lines r ++ (edge_line (box_corner b) color <$> ps))
  /\ (exists ps r', edges_once ps /\ drawFrustum (Frustum.from unproject) r = Ret r'
        /\ lines r' = lines r ++ (edge_line (fun c => unproject (clip_corner c)) white <$> ps))
  /\ (let v a b := mkVec3 (F32.of_Z a) (F32.of_Z b) F32.zero in
      let c := [v x y; v (i32 (x + w)) y; v (i32 (x + w)) (i32 (y + h)); v x (i32 (y + h)); v x y] in
      lines (drawRect x y w h r) = lines r ++ zip_with (fun p q => mkLine p q white) c (drop 1 c)).
Proof.
  split_and!.
  - exists [((false, true, true), (true, true, true)); ((false, true, false), (true, true, false));
            ((false, false, true), (true, false, true)); ((false, false, false), (true, false, false));
            ((false, true, false), (false, false, false)); ((true, true, false), (true, false, false));
            ((false, true, true), (false, false, true)); ((true, true, true), (true, false, true));
            ((false, false, false), (false, false, true)); ((true, false, false), (true, false, true));
            ((false, true, false), (false, true, true)); ((true, true, false), (true, true, true))].
    split; [apply (bool_decide_unpack _); by vm_compute|].
    destruct b as [[? ? ?] [? ? ?]]. cbn. by rewrite <- !app_assoc.
  - exists [((true, true, false), (true, false, false)); ((true, false, false), (false, false, false));
            ((false, false, false), (false, true, false)); ((false, true, false), (true, true, false));
            ((true, true, true), (true, false, true)); ((true, false, true), (false, false, true));
            ((false, false, true), (false, true, true)); ((false, true, true), (true, true, true));
            ((true, true, false), (true, true, true)); ((true, false, false), (true, false, true));
            ((false, false, false), (false, false, true)); ((false, true, false), (false, true, true))].
    eexists. split; [apply (bool_decide_unpack _); by vm_compute|]. split; [reflexivity|]. cbn -[F32.of_Z]. by rewrite <- !app_assoc.
  - cbn -[F32.of_Z i32]. by rewrite <- !app_assoc.
Qed.
End ShapeProps.
