(* ===== verification/Camera.v ===== *)
(** * Camera: projections and the controller of the editor's camera

    Models [Engine/Camera.*], [Engine/CameraController.*] and
    [Scene/Component/CameraControllerComponent.*] over the transforms of
    [SceneGraph], the input of [Input] and the frustum of [LineRenderer].  glm's
    matrices and angles, and [std::pow], are parameters.  The theorems say that
    the cached projection cannot be told from one computed when asked for, except
    by [sendRay], and what a frame of the controller may do. *)

From S2P Require Import Prelude Strings Float32 Geometry SceneGraph Input LineRenderer.
From stdpp Require Import base decidable list strings.
From Stdlib Require Import ZArith SpecFloat Lia.
Local Open Scope Z_scope.
Import Glm.

(** ** What the camera uses of glm *)
Module CameraGlm.
Record glm := mkGlm {
  mat : Type;
  ident : mat;
  mul : mat -> mat -> mat;
  mul4 : mat -> vec4 -> vec4;
  inverse : mat -> mat;
  ortho : f32 -> f32 -> f32 -> f32 -> f32 -> f32 -> mat;   (* left right bottom top near far *)
  perspective : f32 -> f32 -> f32 -> f32 -> mat;           (* fov aspect near far *)
  radians : f32 -> f32;
  degrees : f32 -> f32;
  compose : vec3 -> vec3 -> vec3 -> mat;                   (* position, orientation, scale *)
  decompose : mat -> vec3 * vec3 * vec3;
  rotate : mat -> vec3 -> vec3;                            (* quat_cast(m) * v *)
  column3 : mat -> vec3                                    (* m[3] *)
}.

(** The transforms of the scene graph over these matrices. *)
Definition transform_glm (G : glm) : Transform.glm :=
  Transform.mkGlm (mat G) vec3 (ident G) (mul G) (compose G) (decompose G) zero3 (splat3 F32.one).

Definition xyz (v : vec4) : vec3 := mkVec3 (v4x v) (v4y v) (v4z v).
(** [v / v.w], as a vector of three. *)
Definition over_w (v : vec4) : vec3 := mkVec3 (F32.div (v4x v) (v4w v)) (F32.div (v4y v) (v4w v)) (F32.div (v4z v) (v4w v)).
Definition point4 (v : vec3) : vec4 := mkVec4 (v3x v) (v3y v) (v3z v) F32.one.
Definition map3 (f : f32 -> f32) (v : vec3) : vec3 := mkVec3 (f (v3x v)) (f (v3y v)) (f (v3z v)).
End CameraGlm.
Import CameraGlm.

(** ** Cameras (Camera.h, Camera.cpp) *)
Module Camera.

Section Camera.
Context (G : glm).

Record Camera := mkCamera {
  aspectRatio : f32; scale : f32; zoom : f32;
  projMatrix : mat G; projectionDirty : bool;
  mouseSensitivity : f32; orthographic : bool;
  fov : f32; near_ : f32; far_ : f32;
  frustum : list vec3
}.

Definition tenth : f32 := F32.lit 1 10.

(** The constructors; the last ignores pitch, yaw and position. [f0] is the
    frustum's memory. *)
Definition make_default (f0 : list vec3) : Camera :=
  mkCamera F32.zero (F32.of_Z 100) F32.one (ident G) false tenth false F32.zero F32.zero F32.zero f0.
Definition make_perspective (f0 : list vec3) (fov near far aspect : f32) : Camera :=
  mkCamera aspect (F32.of_Z 100) F32.one (ident G) true tenth false fov near far f0.
Definition make_orthographic (f0 : list vec3) (aspect scale : f32) : Camera :=
  mkCamera aspect scale F32.one (ident G) true tenth true F32.zero F32.one (F32.of_Z 3200000) f0.
Definition make_at (f0 : list vec3) (pitch yaw : f32) (position : vec3) (fov near far aspect : f32) : Camera :=
  mkCamera aspect (F32.of_Z 100) F32.one (ident G) true tenth false fov near far f0.

Definition with_projection (m : mat G) (d : bool) (c : Camera) : Camera :=
  mkCamera (aspectRatio c) (scale c) (zoom c) m d (mouseSensitivity c) (orthographic c) (fov c) (near_ c) (far_ c) (frustum c).
Definition with_frustum (f : list vec3) (c : Camera) : Camera :=
  mkCamera (aspectRatio c) (scale c) (zoom c) (projMatrix c) (projectionDirty c) (mouseSensitivity c) (orthographic c)
    (fov c) (near_ c) (far_ c) f.
(** Every setter of a parameter marks the projection dirty. *)
Definition with_params (aspect scale fov near far : f32) (ortho_ : bool) (c : Camera) : Camera :=
  mkCamera aspect scale (zoom c) (projMatrix c) true (mouseSensitivity c) ortho_ fov near far (frustum c).

Definition setMouseSensitivity (v : f32) (c : Camera) : Camera :=
  mkCamera (aspectRatio c) (scale c) (zoom c) (projMatrix c) (projectionDirty c) v (orthographic c) (fov c) (near_ c) (far_ c) (frustum c).
Definition setOrthographic (o : bool) (c : Camera) : Camera := with_params (aspectRatio c) (scale c) (fov c) (near_ c) (far_ c) o c.
Definition setAspectRatio (y : f32) (c : Camera) : Camera := with_params y (scale c) (fov c) (near_ c) (far_ c) (orthographic c) c.
Definition setFar (f : f32) (c : Camera) : Camera := with_params (aspectRatio c) (scale c) (fov c) (near_ c) f (orthographic c) c.
Definition setNear (n : f32) (c : Camera) : Camera := with_params (aspectRatio c) (scale c) (fov c) n (far_ c) (orthographic c) c.
Definition setScale (s : f32) (c : Camera) : Camera := with_params (aspectRatio c) s (fov c) (near_ c) (far_ c) (orthographic c) c.
Definition setFov (f : f32) (c : Camera) : Camera := with_params (aspectRatio c) (scale c) f (near_ c) (far_ c) (orthographic c) c.

Definition updateProjectionMatrix (c : Camera) : Camera :=
  let m := if orthographic c
    then ortho G (F32.mul (aspectRatio c) (F32.opp (scale c))) (F32.mul (aspectRatio c) (scale c)) (F32.opp (scale c)) (scale c) (near_ c) (far_ c)
    else perspective G (radians G (fov c)) (aspectRatio c) (near_ c) (far_ c) in
  with_projection m (projectionDirty c) c.

(** The first lines of both getters. *)
Definition clean (c : Camera) : Camera :=
  if projectionDirty c then let c := updateProjectionMatrix c in with_projection (projMatrix c) false c else c.

Definition getProjectionMatrix (c : Camera) : Camera * mat G := let c := clean c in (c, projMatrix c).

(** [Frustum::from]: each corner through the inverse. *)
Definition frustum_of (m : mat G) : list vec3 := Frustum.from (fun v => over_w (mul4 G (inverse G m) (point4 v))).

Definition getFrustum (viewMatrix : mat G) (c : Camera) : Camera * list vec3 :=
  let c := clean c in
  let f := frustum_of (mul G (projMatrix c) viewMatrix) in
  (with_frustum f c, f).

Definition ray_through (m : mat G) (x y : f32) (invertY : bool) : Ray.Ray :=
  let two := F32.of_Z 2 in
  let x := F32.sub (F32.mul two x) F32.one in
  let y := F32.sub (F32.mul two y) F32.one in
  let y := if invertY then F32.mul y (F32.of_Z (-1)) else y in
  let pos := over_w (mul4 G m (mkVec4 x y F32.zero F32.one)) in
  let pos2 := over_w (mul4 G m (mkVec4 x y F32.one F32.one)) in
  Ray.mkRay pos (normalize3 (sub3 pos2 pos)).

(** A const member: the matrix is used as it is. *)
Definition sendRay (x y : f32) (viewMatrix : mat G) (invertY : bool) (c : Camera) : Ray.Ray :=
  ray_through (inverse G (mul G (projMatrix c) viewMatrix)) x y invertY.

(** The archive: scale, aspect, field of view, near and far. *)
Definition save (c : Camera) : f32 * f32 * f32 * f32 * f32 := (scale c, aspectRatio c, fov c, near_ c, far_ c).
Definition load (a : f32 * f32 * f32 * f32 * f32) (c : Camera) : Camera :=
  let '(s, asp, fv, n, f) := a in with_params asp s fv n f (orthographic c) c.
End Camera.
End Camera.

(** ** Controllers (CameraController.h, CameraController.cpp) *)
Module CameraController.
Import Transform Input.Input.

Section Controller.
Context (G : CameraGlm.glm) (pow : f32 -> f32 -> f32).
Abbreviation TG := (transform_glm G).
Abbreviation Transform := (Transform.Transform TG).
Abbreviation Cam := (Camera.Camera G).

Record Controller := mkController {
  velocity : vec3; rotateVelocity : vec2; focalPoint : vec3;
  zoomVelocity : f32; cameraSpeed : f32; distance : f32; zoom : f32;
  projectionOffset : vec2; previousCurserPos : vec2;
  mouseSensitivity : f32; zoomDampeningFactor : f32; dampeningFactor : f32; rotateDampeningFactor : f32;
  _2DMode : bool
}.

(** [EditorCameraController]. *)
Definition make : Controller :=
  mkController zero3 zero2 zero3 F32.zero F32.zero F32.zero F32.one zero2 zero2
    (F32.lit 1 100000) (F32.lit 1 100000) (F32.lit 1 100000) (F32.lit 1 10000000) false.

Definition set_moving (v : vec3) (speed : f32) (c : Controller) : Controller :=
  mkController v (rotateVelocity c) (focalPoint c) (zoomVelocity c) speed (distance c) (zoom c) (projectionOffset c)
    (previousCurserPos c) (mouseSensitivity c) (zoomDampeningFactor c) (dampeningFactor c) (rotateDampeningFactor c) (_2DMode c).
Definition set_turning (v : vec2) (sens : f32) (cursor : vec2) (c : Controller) : Controller :=
  mkController (velocity c) v (focalPoint c) (zoomVelocity c) (cameraSpeed c) (distance c) (zoom c) (projectionOffset c)
    cursor sens (zoomDampeningFactor c) (dampeningFactor c) (rotateDampeningFactor c) (_2DMode c).
Definition set_zooming (z : f32) (c : Controller) : Controller :=
  mkController (velocity c) (rotateVelocity c) (focalPoint c) z (cameraSpeed c) (distance c) (zoom c) (projectionOffset c)
    (previousCurserPos c) (mouseSensitivity c) (zoomDampeningFactor c) (dampeningFactor c) (rotateDampeningFactor c) (_2DMode c).
Definition setTwoDMode (b : bool) (c : Controller) : Controller :=
  mkController (velocity c) (rotateVelocity c) (focalPoint c) (zoomVelocity c) (cameraSpeed c) (distance c) (zoom c) (projectionOffset c)
    (previousCurserPos c) (mouseSensitivity c) (zoomDampeningFactor c) (dampeningFactor c) (rotateDampeningFactor c) b.

(** The keys that are read. *)
Definition A : Z := 65.
Definition D : Z := 68.
Definition E : Z := 69.
Definition Q : Z := 81.
Definition S : Z := 83.
Definition W : Z := 87.
Definition LeftShift : Z := 340.

Definition FORWARD : vec3 := mkVec3 F32.zero F32.zero F32.one.
Definition RIGHT : vec3 := mkVec3 F32.one F32.zero F32.zero.
Definition UP : vec3 := mkVec3 F32.zero F32.one F32.zero.
Definition getForwardDirection (t : Transform) : vec3 := rotate G (worldMatrix TG t) FORWARD.
Definition getRightDirection (t : Transform) : vec3 := rotate G (worldMatrix TG t) RIGHT.
Definition getUpDirection (t : Transform) : vec3 := rotate G (worldMatrix TG t) UP.

(** [MathUtils::equals] of vectors: every component. *)
Definition equals3 (l r : vec3) : bool :=
  let e := splat3 MathUtils.EPS in let u := add3 l e in let d := sub3 l e in
  F32.leb (v3x r) (v3x u) && F32.leb (v3y r) (v3y u) && F32.leb (v3z r) (v3z u)
  && F32.leb (v3x d) (v3x r) && F32.leb (v3y d) (v3y r) && F32.leb (v3z d) (v3z r).

(** [if (isKeyHeld(key)) velocity += v]. *)
Definition push (i : Input) (key : Z) (v : vec3) (vel : vec3) : outcome vec3 :=
  b ← isKeyHeld key i; Ret (if b : bool then add3 vel v else vel).
Definition pull (i : Input) (key : Z) (v : vec3) (vel : vec3) : outcome vec3 :=
  b ← isKeyHeld key i; Ret (if b : bool then sub3 vel v else vel).

(** [if (!equals(velocity, 0))]: move and slow down. *)
Definition drift (dt : f32) (t : Transform) (c : Controller) : Transform * Controller :=
  if equals3 (velocity c) zero3 then (t, c)
  else (setLocalPosition TG (add3 (localPosition TG t) (scale3 (velocity c) dt)) t,
        set_moving (scale3 (velocity c) (pow (dampeningFactor c) dt)) (cameraSpeed c) c).

Definition handleKeyboard (i : Input) (dt : f32) (t : Transform) (c : Controller) : outcome (Transform * Controller) :=
  if _2DMode c then
    let speed := F32.mul dt (F32.of_Z 20) in
    v ← pull i A (scale3 RIGHT speed) (velocity c);
    v ← push i D (scale3 RIGHT speed) v;
    v ← push i W (scale3 UP speed) v;
    v ← pull i S (scale3 UP speed) v;
    Ret (drift dt t (set_moving v speed c))
  else
    shift ← isKeyHeld LeftShift i;
    let speed := F32.mul (F32.of_Z (if shift : bool then 2000 else 100)) dt in
    right ← isMouseHeld KeyCode.ButtonRight i;
    v ← if right : bool then
          v ← pull i W (scale3 (getForwardDirection t) speed) (velocity c);
          v ← push i S (scale3 (getForwardDirection t) speed) v;
          v ← pull i A (scale3 (getRightDirection t) speed) v;
          v ← push i D (scale3 (getRightDirection t) speed) v;
          v ← pull i Q (scale3 (getUpDirection t) speed) v;
          push i E (scale3 (getUpDirection t) speed) v
        else Ret (velocity c);
    Ret (drift dt t (set_moving v speed c)).

Definition least_scale : f32 := F32.lit 15 100.

Definition updateScroll (i : Input) (offset dt : f32) (t : Transform) (camera : option Cam) (c : Controller)
    : outcome (Transform * option Cam * Controller) :=
  let nonzero := negb (F32.eqb offset F32.zero) in
  if _2DMode c then
    shift ← isKeyHeld LeftShift i;
    let multiplier := F32.of_Z (if shift : bool then 200 else 100) in
    let z := if nonzero then F32.add (zoomVelocity c) (F32.mul (F32.mul dt offset) multiplier) else zoomVelocity c in
    let c := set_zooming z c in
    if MathUtils.equals z F32.zero then Ret (t, camera, c)
    else
      cam ← deref camera;
      let scale := F32.sub (Camera.scale G cam) z in
      if F32.ltb scale least_scale
      then Ret (t, Some (Camera.setScale G least_scale cam), set_zooming F32.zero c)
      else Ret (t, Some (Camera.setScale G scale cam), set_zooming (F32.mul z (pow (zoomDampeningFactor c) dt)) c)
  else
    let z := if nonzero then F32.sub (zoomVelocity c) (F32.mul (F32.mul dt offset) (F32.of_Z 10)) else zoomVelocity c in
    let c := set_zooming z c in
    if MathUtils.equals z F32.zero then Ret (t, camera, c)
    else Ret (setLocalPosition TG (add3 (localPosition TG t) (scale3 (getForwardDirection t) z)) t, camera,
              set_zooming (F32.mul z (pow (zoomDampeningFactor c) dt)) c).

(** [std::max(std::min(pitch, 89), -89)]. *)
Definition clamp_pitch (p : f32) : f32 :=
  let hi := F32.of_Z 89 in let lo := F32.of_Z (-89) in
  let p := if F32.ltb hi p then hi else p in
  if F32.ltb p lo then lo else p.

Definition handleMouse (i : Input) (dt xpos ypos : f32) (t : Transform) (camera : option Cam) (c : Controller)
    : outcome (Transform * option Cam * Controller) :=
  right ← isMouseHeld KeyCode.ButtonRight i;
  let cursor := mkVec2 xpos ypos in
  let moved := sub2 cursor (previousCurserPos c) in
  '(t, c) ←
    if _2DMode c then
      if right : bool then
        let half := F32.lit 1 2 in
        let p := localPosition TG t in
        let p := mkVec3 (F32.sub (v3x p) (F32.mul (F32.mul (v2x moved) F32.one) half))
                        (F32.add (v3y p) (F32.mul (F32.mul (v2y moved) F32.one) half)) (v3z p) in
        Ret (setLocalPosition TG p t, set_turning (rotateVelocity c) F32.one (previousCurserPos c) c)
      else Ret (t, c)
    else
      let c := if right : bool
               then let sens := F32.lit 1 100 in
                    set_turning (add2 (rotateVelocity c) (scale2 moved sens)) sens (previousCurserPos c) c
               else c in
      let euler := map3 (degrees G) (localOrientation TG t) in
      let pitch := clamp_pitch (F32.sub (v3x euler) (v2y (rotateVelocity c))) in
      let yaw := F32.sub (v3y euler) (v2x (rotateVelocity c)) in
      Ret (setLocalOrientation TG (map3 (radians G) (mkVec3 pitch yaw F32.zero)) t, c);
  let c := set_turning (scale2 (rotateVelocity c) (pow (rotateDampeningFactor c) dt)) (mouseSensitivity c) cursor c in
  updateScroll i (scrollOffset i) dt t camera c.

(** Both calls of a frame, as the editor and the scene make them. *)
Definition frame (i : Input) (dt : f32) (t : Transform) (camera : option Cam) (c : Controller)
    : outcome (Transform * option Cam * Controller) :=
  '(t, camera, c) ← handleMouse i dt (v2x (mousePosition i)) (v2y (mousePosition i)) t camera c;
  '(t, c) ← handleKeyboard i dt t c;
  Ret (t, camera, c).
End Controller.
End CameraController.

(** ** The component (CameraControllerComponent.cpp) *)
Module CameraControllerComponent.
Import CameraController.

Inductive ControllerType := FPS | EditorCamera | Custom.

Definition stringToType (type : cstring) : ControllerType :=
  if bool_decide (type = str "FPS") then FPS else if bool_decide (type = str "Editor") then EditorCamera else Custom.
Definition typeToString (type : ControllerType) : cstring :=
  match type with FPS => str "FPS" | EditorCamera => str "Editor" | Custom => str "Custom" end.

Record Component := mkComponent { type : ControllerType; cameraController : option Controller }.

Definition component0 : Component := mkComponent FPS None.
(** Only the editor's controller exists; the others leave the old one in place. *)
Definition setControllerType (ty : ControllerType) (c : Component) : Component :=
  mkComponent ty (match ty with EditorCamera => Some make | _ => cameraController c end).
Definition make_component (ty : ControllerType) : Component := setControllerType ty component0.
Definition save (c : Component) : ControllerType := type c.
Definition load (ty : ControllerType) (c : Component) : Component := setControllerType ty c.

(** [Scene::updateCameraController]: every entity with the component and a
    transform, while the scene is active and played.  The camera of such a
    controller is never set. *)
Definition updateCameraController (G : glm) (pow : f32 -> f32 -> f32) (i : Input.Input.Input) (dt : f32) (playing : bool)
    (l : list (Component * Transform.Transform (transform_glm G))) : outcome (list (Component * Transform.Transform (transform_glm G))) :=
  mapM (fun '(con, t) =>
    match cameraController con with
    | Some c =>
        if playing then
          '(t, _, c) ← CameraController.frame G pow i dt t None c;
          Ret (mkComponent (type con) (Some c), t)
        else Ret (con, t)
    | None => Ret (con, t)
    end) l.

Lemma string_of_type (ty : ControllerType) : stringToType (typeToString ty) = ty.
Proof. by destruct ty. Qed.
End CameraControllerComponent.

(** ** Properties of the camera *)
Module CameraProps.
Import Camera.

Section Refinement.
Context (G : glm).
Abbreviation Cam := (Camera G).

(** What the projection is made of. *)
Record Params := mkParams { p_aspect : f32; p_scale : f32; p_fov : f32; p_near : f32; p_far : f32; p_ortho : bool }.
Definition params (c : Cam) : Params := mkParams (aspectRatio G c) (scale G c) (fov G c) (near_ G c) (far_ G c) (orthographic G c).

Definition projection (p : Params) : mat G :=
  if p_ortho p
  then ortho G (F32.mul (p_aspect p) (F32.opp (p_scale p))) (F32.mul (p_aspect p) (p_scale p)) (F32.opp (p_scale p)) (p_scale p) (p_near p) (p_far p)
  else perspective G (radians G (p_fov p)) (p_aspect p) (p_near p) (p_far p).

(** The operations of a camera and what they return. *)
Inductive Op :=
  | OSens (v : f32) | OOrtho (b : bool) | OAspect (v : f32) | OFar (v : f32) | ONear (v : f32) | OScale (v : f32) | OFov (v : f32)
  | OLoad (a : f32 * f32 * f32 * f32 * f32)
  | OProjection | OFrustum (view : mat G) | ORay (x y : f32) (view : mat G) (invertY : bool).
Inductive Obs := Silent | SeenMatrix (m : mat G) | SeenFrustum (f : list vec3) | SeenRay (r : Ray.Ray).

Definition step (o : Op) (c : Cam) : Cam * Obs :=
  match o with
  | OSens v => (setMouseSensitivity G v c, Silent)
  | OOrtho b => (setOrthographic G b c, Silent)
  | OAspect v => (setAspectRatio G v c, Silent)
  | OFar v => (setFar G v c, Silent)
  | ONear v => (setNear G v c, Silent)
  | OScale v => (setScale G v c, Silent)
  | OFov v => (setFov G v c, Silent)
  | OLoad a => (load G a c, Silent)
  | OProjection => let '(c, m) := getProjectionMatrix G c in (c, SeenMatrix m)
  | OFrustum view => let '(c, f) := getFrustum G view c in (c, SeenFrustum f)
  | ORay x y view b => (c, SeenRay (sendRay G x y view b c))
  end.

Fixpoint run (ops : list Op) (c : Cam) : list Obs :=
  match ops with [] => [] | o :: ops => let '(c, b) := step o c in b :: run ops c end.

(** The camera without a cache: the parameters, and the matrix last asked for,
    which is all that [sendRay] knows. *)
Definition change (o : Op) (p : Params) : Params :=
  match o with
  | OOrtho b => mkParams (p_aspect p) (p_scale p) (p_fov p) (p_near p) (p_far p) b
  | OAspect v => mkParams v (p_scale p) (p_fov p) (p_near p) (p_far p) (p_ortho p)
  | OFar v => mkParams (p_aspect p) (p_scale p) (p_fov p) (p_near p) v (p_ortho p)
  | ONear v => mkParams (p_aspect p) (p_scale p) (p_fov p) v (p_far p) (p_ortho p)
  | OScale v => mkParams (p_aspect p) v (p_fov p) (p_near p) (p_far p) (p_ortho p)
  | OFov v => mkParams (p_aspect p) (p_scale p) v (p_near p) (p_far p) (p_ortho p)
  | OLoad (s, a, f, n, fa) => mkParams a s f n fa (p_ortho p)
  | _ => p
  end.

Definition spec_step (o : Op) (s : Params * mat G) : Params * mat G * Obs :=
  let '(p, m) := s in
  match o with
  | OProjection => (p, projection p, SeenMatrix (projection p))
  | OFrustum view => (p, projection p, SeenFrustum (frustum_of G (mul G (projection p) view)))
  | ORay x y view b => (p, m, SeenRay (ray_through G (inverse G (mul G m view)) x y b))
  | _ => (change o p, m, Silent)
  end.

Fixpoint spec_run (ops : list Op) (s : Params * mat G) : list Obs :=
  match ops with [] => [] | o :: ops => let '(s, b) := spec_step o s in b :: spec_run ops s end.

(** The invariant: a clean projection is that of the parameters. *)
Definition coherent (c : Cam) : Prop := projectionDirty G c = false -> projMatrix G c = projection (params c).

Lemma clean_spec c : coherent c -> projMatrix G (clean G c) = projection (params c) /\ params (clean G c) = params c /\ projectionDirty G (clean G c) = false.
Proof.
  unfold coherent, clean. intros H. destruct (projectionDirty G c) eqn:E; [|by rewrite H].
  split_and!; [|done|done]. unfold updateProjectionMatrix, projection, params. cbn. by destruct (orthographic G c).
Qed.

Lemma step_refines o c : coherent c ->
  let '(c', b) := step o c in coherent c' /\ spec_step o (params c, projMatrix G c) = (params c', projMatrix G c', b).
Proof.
  intros H. destruct (clean_spec c H) as (Em & Ep & Ed).
  destruct o as [v|b|v|v|v|v|v|[[[[s a] f] n] fa]| |view|x y view b]; try (split; [done|done]).
  - unfold step, getProjectionMatrix, spec_step. split; [intros _; by rewrite Em, Ep|]. by rewrite Em, Ep.
  - unfold step, getFrustum, spec_step. split.
    + intros _. change (projMatrix G (clean G c) = projection (params (clean G c))). by rewrite Em, Ep.
    + change (params (with_frustum G _ (clean G c))) with (params (clean G c)).
      change (projMatrix G (with_frustum G _ (clean G c))) with (projMatrix G (clean G c)). by rewrite Em, Ep.
Qed.

Lemma run_refines ops : forall c, coherent c -> run ops c = spec_run ops (params c, projMatrix G c).
Proof.
  induction ops as [|o ops IH]; intros c Hc; [done|]. cbn [run spec_run]. pose proof (step_refines o c Hc) as Hs.
  destruct (step o c) as [c' b]. destruct Hs as [Hc' ->]. f_equal. by apply IH.
Qed.
End Refinement.

(** C20. The cached projection.  Every constructor with arguments gives a coherent camera; the
    default one is clean with the identity for its projection, whatever its
    parameters would give.  From a coherent camera any sequence of setters, loads and queries returns what a camera
    without a cache would: each projection and frustum is that of the parameters
    at that moment.  A ray, however, is sent through the matrix last asked for,
    whatever has been set since. *)
Theorem camera_refines_uncached (G : glm) (c : Camera G) (ops : list (Op G)) : coherent G c ->
  run G ops c = spec_run G ops (params G c, projMatrix G c)
  /\ (forall f fv n fa a, coherent G (make_perspective G f fv n fa a)) /\ (forall f a s, coherent G (make_orthographic G f a s))
  /\ (forall f p y x fv n fa a, coherent G (make_at G f p y x fv n fa a))
  /\ (forall f, run G [OProjection G] (make_default G f) = [SeenMatrix G (ident G)]).
Proof. intros Hc. split; [by apply run_refines|done]. Qed.

(** A matrix here is a list of the numbers it was made from. *)
Definition demo_glm : glm :=
  mkGlm (list f32) [] app (fun _ v => v) id (fun l r b t n f => [l; r; b; t; n; f]) (fun fv a n f => [fv; a; n; f]) id id
    (fun _ _ _ => []) (fun _ => (zero3, zero3, zero3)) (fun _ v => v) (fun _ => zero3).

Lemma camera_refines_uncached_witness :
  let c := make_perspective demo_glm [] F32.one F32.one F32.infinity F32.one in
  let v := F32.of_Z 2 in
  run demo_glm [OProjection demo_glm; OFov demo_glm v; OProjection demo_glm] c =
    [SeenMatrix demo_glm [F32.one; F32.one; F32.one; F32.infinity]; Silent demo_glm; SeenMatrix demo_glm [v; F32.one; F32.one; F32.infinity]].
Proof.
  intros c v. destruct (camera_refines_uncached demo_glm c [OProjection demo_glm; OFov demo_glm v; OProjection demo_glm]) as [H _]; [done|].
  rewrite H. reflexivity.
Defined.

(** An orthographic camera that is saved comes back as whatever the new one is. *)
Lemma load_keeps_orthographic (G : glm) (c c0 : Camera G) :
  params G (load G (save G c) c0) =
    mkParams (aspectRatio G c) (scale G c) (fov G c) (near_ G c) (far_ G c) (orthographic G c0).
Proof. done. Qed.
End CameraProps.

(** ** Properties of the controller *)
Module ControllerProps.
Import CameraController Input.Input InputProps.

Section Frame.
Context (G : CameraGlm.glm) (pow : f32 -> f32 -> f32) (i : Input) (Hi : WF i).
Abbreviation TG := (transform_glm G).
Abbreviation Tr := (Transform.Transform TG).
Abbreviation Cam := (Camera.Camera G).
Implicit Types (t : Tr) (c : Controller) (cam : option Cam).

Lemma key_read k : 0 <= k < 1024 -> exists b, isKeyHeld k i = Ret b.
Proof.
  intros Hk. destruct (at_Z_lookup (keyHeld i) k) as (b & E & _); [|by exists b]. rewrite (wf_held _ Hi). unfold MAX_KEYS. lia.
Qed.
Lemma button_read : exists b, isMouseHeld KeyCode.ButtonRight i = Ret b.
Proof.
  destruct (at_Z_lookup (mouseHeld i) KeyCode.ButtonRight) as (b & E & _); [|by exists b]. rewrite (wf_mouse _ Hi). unfold MAX_BUTTONS, KeyCode.ButtonRight. lia.
Qed.

Lemma push_total k v vel : 0 <= k < 1024 -> exists u, push i k v vel = Ret u.
Proof. intros Hk. destruct (key_read k Hk) as [b E]. unfold push. rewrite E. by eexists. Qed.
Lemma pull_total k v vel : 0 <= k < 1024 -> exists u, pull i k v vel = Ret u.
Proof. intros Hk. destruct (key_read k Hk) as [b E]. unfold pull. rewrite E. by eexists. Qed.

(** What no operation of a controller touches. *)
Record same_frame (t t' : Tr) : Prop := mkSameFrame {
  sf_local : Transform.localMatrix TG t' = Transform.localMatrix TG t;
  sf_world : Transform.worldMatrix TG t' = Transform.worldMatrix TG t;
  sf_scale : Transform.localScale TG t' = Transform.localScale TG t;
  sf_dirty : t' = t \/ Transform.dirty TG t' = true
}.

Lemma same_frame_refl t : same_frame t t.
Proof. constructor; auto. Qed.
Lemma same_frame_trans t1 t2 t3 : same_frame t1 t2 -> same_frame t2 t3 -> same_frame t1 t3.
Proof. intros [L W S D] [L' W' S' D']. constructor; [congruence..|]. destruct D' as [->|D']; auto. Qed.
Lemma same_frame_position p t : same_frame t (Transform.setLocalPosition TG p t).
Proof. constructor; auto. Qed.
Lemma same_frame_orientation o t : same_frame t (Transform.setLocalOrientation TG o t).
Proof. constructor; auto. Qed.

(** The pushes of the keys are total, so the keyboard leaves only the question
    whether the camera drifts. *)
Definition orientation (t : Tr) : vec3 := Transform.localOrientation TG t.

Lemma drift_spec dt t c t' c' : drift G pow dt t c = (t', c') ->
  same_frame t t' /\ orientation t' = orientation t /\ _2DMode c' = _2DMode c /\ previousCurserPos c' = previousCurserPos c
  /\ (velocity c' = velocity c \/ velocity c' = scale3 (velocity c) (pow (dampeningFactor c) dt)).
Proof.
  unfold drift. destruct (equals3 _ _); intros [= <- <-]; split_and!; auto using same_frame_refl, same_frame_position.
Qed.

(** The keys are released. *)
Definition idle : Prop := forall k b, isKeyHeld k i = Ret b -> b = false.

(** A chain of pushes and pulls returns, and keeps the velocity when no key is held. *)
Definition keeps (m : outcome vec3) (vel : vec3) : Prop := exists v, m = Ret v /\ (idle -> v = vel).

Lemma keeps_bind m f vel : keeps m vel -> (forall v, (idle -> v = vel) -> keeps (f v) vel) -> keeps (m ≫= f) vel.
Proof. intros (v & -> & Hv) Hf. by apply Hf. Qed.
Lemma keeps_push k d v vel : 0 <= k < 1024 -> (idle -> v = vel) -> keeps (push i k d v) vel.
Proof.
  intros Hk Hv. destruct (key_read k Hk) as [b E]. unfold push. rewrite E, bind_Ret. eexists. split; [done|].
  intros H. rewrite (H k b E). auto.
Qed.
Lemma keeps_pull k d v vel : 0 <= k < 1024 -> (idle -> v = vel) -> keeps (pull i k d v) vel.
Proof.
  intros Hk Hv. destruct (key_read k Hk) as [b E]. unfold pull. rewrite E, bind_Ret. eexists. split; [done|].
  intros H. rewrite (H k b E). auto.
Qed.

Ltac keeps_chain :=
  repeat (apply keeps_bind; [first [apply keeps_push | apply keeps_pull]; [done|auto] | let v := fresh "v" in let Hv := fresh "Hv" in intros v Hv]);
  first [apply keeps_push | apply keeps_pull]; [done|auto].

Definition slowed (dt : f32) c c' : Prop := velocity c' = velocity c \/ velocity c' = scale3 (velocity c) (pow (dampeningFactor c) dt).

Lemma handleKeyboard_spec dt t c : exists t' c', handleKeyboard G pow i dt t c = Ret (t', c') /\ same_frame t t'
  /\ orientation t' = orientation t /\ _2DMode c' = _2DMode c /\ previousCurserPos c' = previousCurserPos c /\ (idle -> slowed dt c c').
Proof.
  assert (forall speed m, keeps m (velocity c) -> exists t' c', (v ← m; Ret (drift G pow dt t (set_moving v speed c))) = Ret (t', c') /\ same_frame t t'
    /\ orientation t' = orientation t /\ _2DMode c' = _2DMode c /\ previousCurserPos c' = previousCurserPos c /\ (idle -> slowed dt c c')) as Hd.
  { intros speed m (v & -> & Hv). rewrite bind_Ret. destruct (drift G pow dt t (set_moving v speed c)) as [t' c'] eqn:E.
    destruct (drift_spec dt t _ t' c' E) as (F & O & M & P & V). exists t', c'. split_and!; try done. unfold slowed. intros H. rewrite <- (Hv H). exact V. }
  unfold handleKeyboard. destruct (_2DMode c).
  - rewrite <- !outcome_bind_assoc. apply Hd. rewrite !outcome_bind_assoc. keeps_chain.
  - destruct (key_read LeftShift) as [sh ->]; [done|]. rewrite bind_Ret. destruct button_read as [[] ->]; rewrite bind_Ret; apply Hd; [keeps_chain|by eexists].
Qed.

(** The scale is above its least value, as far as comparison can tell. *)
Definition scale_ok (cam : option Cam) : Prop := forall x, cam = Some x -> F32.ltb (Camera.scale G x) least_scale = false.

Lemma updateScroll_spec offset dt t cam c : (_2DMode c = true -> cam <> None) ->
  exists t' cam' c', updateScroll G pow i offset dt t cam c = Ret (t', cam', c') /\ same_frame t t' /\ orientation t' = orientation t
    /\ _2DMode c' = _2DMode c /\ previousCurserPos c' = previousCurserPos c /\ velocity c' = velocity c /\ dampeningFactor c' = dampeningFactor c
    /\ (_2DMode c = false -> cam' = cam) /\ (scale_ok cam -> scale_ok cam')
    /\ (cam' = cam \/ exists x s, cam = Some x /\ cam' = Some (Camera.setScale G s x)).
Proof.
  intros Hc. unfold updateScroll. destruct (_2DMode c) eqn:E2.
  - destruct (key_read LeftShift) as [sh ->]; [done|]. rewrite bind_Ret. cbv zeta. set (z := if negb _ then _ else _).
    destruct (MathUtils.equals z F32.zero); [eexists _, _, _; split; [done|]; split_and!; auto using same_frame_refl|].
    destruct cam as [x|]; [|by destruct (Hc eq_refl)]. cbn [deref]. rewrite bind_Ret.
    destruct (F32.ltb _ least_scale) eqn:El; eexists _, _, _; (split; [done|]); split_and!; eauto using same_frame_refl; try done.
    + intros _ y [= <-]. apply ltb_irrefl.
    + intros _ y [= <-]. exact El.
  - cbv zeta. set (z := if negb _ then _ else _).
    destruct (MathUtils.equals z F32.zero); eexists _, _, _; (split; [done|]); split_and!; auto using same_frame_refl, same_frame_position.
Qed.

(** The angles the mouse leaves in the free mode. *)
Definition pitched (t : Tr) : Prop := exists pitch yaw,
  orientation t = map3 (CameraGlm.radians G) (mkVec3 pitch yaw F32.zero)
  /\ F32.ltb (F32.of_Z 89) pitch = false /\ F32.ltb pitch (F32.of_Z (-89)) = false.

Lemma clamp_pitch_spec p : F32.ltb (F32.of_Z 89) (clamp_pitch p) = false /\ F32.ltb (clamp_pitch p) (F32.of_Z (-89)) = false.
Proof.
  unfold clamp_pitch. destruct (F32.ltb (F32.of_Z 89) p) eqn:E; [by vm_compute|].
  destruct (F32.ltb p (F32.of_Z (-89))) eqn:E'; [by vm_compute|done].
Qed.

Lemma handleMouse_spec dt x y t cam c : (_2DMode c = true -> cam <> None) ->
  exists t' cam' c', handleMouse G pow i dt x y t cam c = Ret (t', cam', c') /\ same_frame t t'
    /\ (if _2DMode c then orientation t' = orientation t else pitched t')
    /\ _2DMode c' = _2DMode c /\ previousCurserPos c' = mkVec2 x y /\ velocity c' = velocity c /\ dampeningFactor c' = dampeningFactor c
    /\ (_2DMode c = false -> cam' = cam) /\ (scale_ok cam -> scale_ok cam')
    /\ (cam' = cam \/ exists x s, cam = Some x /\ cam' = Some (Camera.setScale G s x)).
Proof.
  intros Hc. unfold handleMouse. destruct button_read as [r ->]. rewrite bind_Ret. cbv zeta.
  match goal with |- context [mbind (M := outcome) _ ?m] => set (first_ := m) end.
  assert (exists t1 c1, first_ = Ret (t1, c1) /\ same_frame t t1 /\ (if _2DMode c then orientation t1 = orientation t else pitched t1)
    /\ _2DMode c1 = _2DMode c /\ velocity c1 = velocity c /\ dampeningFactor c1 = dampeningFactor c) as (t1 & c1 & -> & F & O & M & V & Da).
  { unfold first_. destruct (_2DMode c) eqn:E2.
    - destruct r; eexists _, _; (split; [done|]); split_and!; auto using same_frame_refl, same_frame_position.
    - destruct r; eexists _, _; (split; [done|]); split_and!; auto using same_frame_orientation; eexists _, _; (split; [done|apply clamp_pitch_spec]). }
  rewrite bind_Ret. set (c2 := set_turning _ _ _ c1).
  destruct (updateScroll_spec (scrollOffset i) dt t1 cam c2) as (t' & cam' & c' & E & F' & O' & M' & P' & V' & D' & Hx & Hs & Hp); [unfold c2; cbn; by rewrite M|].
  exists t', cam', c'. split; [done|]. split; [by eapply same_frame_trans|]. unfold c2 in *; cbn in *.
  split_and!; try congruence; try done; [|by rewrite <- M].
  destruct (_2DMode c); [congruence|]. unfold pitched. by rewrite O'.
Qed.
End Frame.

(** A frame of the controller.  With input tables of their declared sizes, and a camera set when
    in the plane mode, a frame succeeds.  It writes no matrix and no scale of
    the transform, only position and orientation, and marks it dirty when it
    does.  In the free mode the camera is not touched and the new pitch is
    within 89 degrees; in the plane mode the orientation is kept and the scale of the
    camera does not fall below 0.15.  Without a key held the velocity is kept or
    slowed. *)
Theorem controller_frame (G : CameraGlm.glm) pow (i : Input) dt t cam c : WF i -> (_2DMode c = true -> cam <> None) ->
  exists t' cam' c', CameraController.frame G pow i dt t cam c = Ret (t', cam', c') /\ same_frame G t t'
    /\ (if _2DMode c then orientation G t' = orientation G t else pitched G t' /\ cam' = cam)
    /\ (cam' = cam \/ exists x s, cam = Some x /\ cam' = Some (Camera.setScale G s x))
    /\ (scale_ok G cam -> scale_ok G cam')
    /\ _2DMode c' = _2DMode c /\ previousCurserPos c' = mousePosition i /\ (idle i -> slowed pow dt c c').
Proof.
  intros Hi Hc.
  destruct (handleMouse_spec G pow i Hi dt (v2x (mousePosition i)) (v2y (mousePosition i)) t cam c Hc)
    as (t1 & cam1 & c1 & E1 & F1 & O1 & M1 & P1 & V1 & D1 & Hx & Hs & Hp).
  destruct (handleKeyboard_spec G pow i Hi dt t1 c1) as (t2 & c2 & E2 & F2 & O2 & M2 & P2 & V2).
  exists t2, cam1, c2. unfold CameraController.frame. rewrite E1, bind_Ret, E2, bind_Ret. split; [done|].
  split_and!; try done; try congruence.
  - by eapply same_frame_trans.
  - destruct (_2DMode c); [congruence|]. split; [|auto]. unfold pitched. by rewrite O2.
  - rewrite P2, P1. by destruct (mousePosition i).
  - intros H. unfold slowed. rewrite <- V1, <- D1. by apply V2.
Qed.

Lemma controller_frame_witness :
  let i := Input_new zero2 in let t := Transform.make (transform_glm CameraProps.demo_glm) in
  exists t' c', CameraController.frame CameraProps.demo_glm (fun _ _ => F32.zero) i F32.one t None make = Ret (t', None, c') /\ pitched CameraProps.demo_glm t'.
Proof.
  intros i t. destruct (controller_frame CameraProps.demo_glm (fun _ _ => F32.zero) i F32.one t None make)
    as (t' & cam' & c' & E & _ & [Hp ->] & _); [by constructor|done|]. exists t', c'. exact (conj E Hp).
Defined.
End ControllerProps.
