(* ===== verification/Editor.v ===== *)
(** * Editor: picking entities in the scene view

    Models the picking part of [Code/Editor/src/Editor.*]: the ray of a click,
    the search for the nearest entity it hits, and the focus of the editor's
    camera.  It uses [Ray] and [BoundingBox] of [Geometry], the transforms of
    [SceneGraph], the quads of [Renderer2D] and the camera of [Camera]. *)

From S2P Require Import Prelude Float32 Geometry Hierarchy SceneGraph Renderer2D LineRenderer Camera.
From stdpp Require Import base decidable list gmap.
From Stdlib Require Import ZArith SpecFloat Lia.
Local Open Scope Z_scope.
Import Glm CameraGlm.

Module Editor.

(** [Timer::elapsed]: whole microseconds between two readings in nanoseconds. *)
Definition elapsed (begin_ end_ : Z) : Z := Z.quot (end_ - begin_) 1000.

Section Editor.
Context (G : glm).
Abbreviation TG := (transform_glm G).
Abbreviation Transform := (Transform.Transform TG).
Abbreviation Cam := (Camera.Camera G).

(** What the editor reads of the scene: the transforms, and for each group its
    entities in order.  A renderer has a mesh or null, and a mesh a box or null. *)
Record Registry := mkRegistry {
  transforms : gmap entity Transform;
  meshes : list (entity * option (option BoundingBox.BoundingBox));
  sprites : list (entity * Renderer2D.Quad2D);
  animSprites : list (entity * Renderer2D.Quad2D)
}.
Definition with_transforms (T : gmap entity Transform) (R : Registry) : Registry := mkRegistry T (meshes R) (sprites R) (animSprites R).

Record Editor := mkEditor {
  camera : Cam;
  editorCameraTransform : Transform;
  cameraDestination : vec3;
  selectedNode : option entity;
  prevSelectedNode : option entity;
  cameraSelected : bool;
  lastClick : option Z            (* the static local of [clickObject] *)
}.
Definition with_selected (s : option entity) (l : option Z) (d : Editor) : Editor :=
  mkEditor (camera d) (editorCameraTransform d) (cameraDestination d) s (prevSelectedNode d) (cameraSelected d) l.
Definition with_view (t : Transform) (dest : vec3) (d : Editor) : Editor :=
  mkEditor (camera d) t dest (selectedNode d) (prevSelectedNode d) (cameraSelected d) (lastClick d).

Definition setSelected (has_camera : entity -> bool) (node : option entity) (d : Editor) : Editor :=
  mkEditor (camera d) (editorCameraTransform d) (cameraDestination d) node (selectedNode d)
    (match node with Some e => has_camera e | None => false end) (lastClick d).

(** [trans.getWorldMatrix()]. *)
Definition world (e : entity) (R : Registry) : outcome (Registry * mat G) :=
  t ← deref (transforms R !! e);
  let '(t, m) := Transform.getWorldMatrix TG t in
  Ret (with_transforms (<[e := t]> (transforms R)) R, m).

(** [BoundingBox::transform]: both corners. *)
Definition transform_box (m : mat G) (b : BoundingBox.BoundingBox) : BoundingBox.BoundingBox :=
  BoundingBox.transform (fun p => xyz (mul4 G m (point4 p))) b.

(** The box of a quad in its own plane. *)
Definition quad_box (q : Renderer2D.Quad2D) : BoundingBox.BoundingBox :=
  let mn := Renderer2D.offset q in
  BoundingBox.of_rect (Rect2D.mkRect mn (add2 mn (mkVec2 (F32.of_Z (Renderer2D.quad_width q)) (F32.of_Z (Renderer2D.quad_height q))))).

(** [closestDist] and [closestEntity]. *)
Definition Closest : Type := f32 * option entity.
Definition closest0 : Closest := (F32.infinity, None).
Definition nearer (e : entity) (dist : f32) (c : Closest) : Closest :=
  if F32.ltb dist F32.infinity && F32.ltb dist (fst c) then (dist, Some e) else c.

Definition visit_mesh (ray : Ray.Ray) (x : entity * option (option BoundingBox.BoundingBox)) (s : Registry * Closest) : outcome (Registry * Closest) :=
  let '(R, c) := s in
  match snd x with
  | None => Ret s
  | Some box =>
      '(R, m) ← world (fst x) R;
      b ← deref box;
      Ret (R, nearer (fst x) (Ray.hit ray (transform_box m b)) c)
  end.

(** The transformed box is computed and dropped. *)
Definition visit_sprite (ray : Ray.Ray) (x : entity * Renderer2D.Quad2D) (s : Registry * Closest) : outcome (Registry * Closest) :=
  let '(R, c) := s in
  '(R, _) ← world (fst x) R;
  Ret (R, nearer (fst x) (Ray.hit ray (quad_box (snd x))) c).

Definition visit_anim (ray : Ray.Ray) (x : entity * Renderer2D.Quad2D) (s : Registry * Closest) : outcome (Registry * Closest) :=
  let '(R, c) := s in
  '(R, m) ← world (fst x) R;
  Ret (R, nearer (fst x) (Ray.hit ray (transform_box m (quad_box (snd x)))) c).

Definition focusCamera (point : vec3) (distance : f32) (d : Editor) : Editor :=
  let t := editorCameraTransform d in
  if Camera.orthographic G (camera d)
  then with_view (Transform.setLocalPosition TG (add3 point (mkVec3 F32.zero F32.zero (F32.lit 1 10))) t) (cameraDestination d) d
  else let dest := add3 point (scale3 (CameraController.getForwardDirection G t) distance) in
       with_view (Transform.setLocalPosition TG dest t) dest d.

(** [focusCamera(trans.getWorldPosition(), length(bb.max - bb.min))]. *)
Definition focus_on (m : mat G) (b : BoundingBox.BoundingBox) (d : Editor) : Editor :=
  let bb := transform_box m b in focusCamera (column3 G m) (length3 (sub3 (BoundingBox.bmax bb) (BoundingBox.bmin bb))) d.

Definition find_group {A} (e : entity) (l : list (entity * A)) : option A := (fun x => snd (snd x)) <$> list_find (fun x => fst x = e) l.

(** The double click on the selected mesh; [t0], [t1] and [t2] are the readings of the clock. *)
Definition click_selected (t0 t1 t2 : Z) (e : entity) (R : Registry) (d : Editor) : outcome (Registry * Editor) :=
  let last := default t0 (lastClick d) in
  if F32.ltb (F32.div (F32.of_Z (elapsed t1 last)) (F32.of_Z 1000000)) F32.one then
    '(R, m) ← world e R;
    r ← deref (find_group e (meshes R));
    d ← match r with
        | None => Ret d
        | Some box => b ← deref box; Ret (focus_on m b d)
        end;
    Ret (R, with_selected (Some e) (Some t2) d)
  else Ret (R, with_selected None (Some t2) d).

(** The second click on a sprite. *)
Definition focus_sprite (e : entity) (R : Registry) (d : Editor) : outcome (Registry * Editor) :=
  t ← deref (transforms R !! e);
  match (match find_group e (sprites R) with Some q => Some q | None => find_group e (animSprites R) end) with
  | None => Ret (R, d)
  | Some q => '(R, m) ← world e R; Ret (R, focus_on m (quad_box q) d)
  end.

Definition clickObject (ray : Ray.Ray) (t0 t1 t2 : Z) (R : Registry) (d : Editor) : outcome (Registry * Editor) :=
  '(R, c) ← foldM (visit_mesh ray) (meshes R) (R, closest0);
  let last := Some (default t0 (lastClick d)) in
  match selectedNode d with
  | Some e =>
      if decide (Some e = snd c) then click_selected t0 t1 t2 e R d
      else
        '(R, c) ← foldM (visit_sprite ray) (sprites R) (R, c);
        '(R, c) ← foldM (visit_anim ray) (animSprites R) (R, c);
        '(R, d) ← (if decide (Some e = snd c) then focus_sprite e R d else Ret (R, d));
        Ret (R, with_selected (snd c) last d)
  | None =>
      '(R, c) ← foldM (visit_sprite ray) (sprites R) (R, c);
      '(R, c) ← foldM (visit_anim ray) (animSprites R) (R, c);
      Ret (R, with_selected (snd c) last d)
  end.

(** The ray of a position in the view; no camera gives a default ray. *)
Definition getScreenRay (default_ray : Ray.Ray) (x y : Z) (cam : option Cam) (width height : Z) (d : Editor) : Editor * Ray.Ray :=
  match cam with
  | None => (d, default_ray)
  | Some cam =>
      let screenX := F32.div (F32.of_Z x) (F32.of_Z width) in
      let screenY := F32.div (F32.of_Z y) (F32.of_Z height) in
      let '(t, m) := Transform.getWorldMatrix TG (editorCameraTransform d) in
      (with_view t (cameraDestination d) d, Camera.sendRay G screenX screenY (inverse G m) true cam)
  end.
End Editor.
End Editor.

(** ** Properties *)
Module EditorProps.
Import Editor.

(** *** The nearest candidate *)
Definition nearest (l : list (entity * f32)) (c : Closest) : Closest := fold_left (fun c x => nearer (fst x) (snd x) c) l c.

(** The first candidate at the least finite distance. *)
Definition is_nearest (l : list (entity * f32)) (r : option entity) : Prop :=
  match r with
  | None => forall e d, (e, d) ∈ l -> F32.ltb d F32.infinity = false
  | Some e => exists l1 d l2, l = l1 ++ (e, d) :: l2 /\ F32.ltb d F32.infinity = true
      /\ (forall e' d', (e', d') ∈ l1 -> F32.ltb d d' = true \/ F32.ltb d' F32.infinity = false)
      /\ (forall e' d', (e', d') ∈ l2 -> F32.ltb d' d = false)
  end.

Lemma not_finite_ltb d x : F32.ltb d F32.infinity = false -> F32.ltb d x = false.
Proof. destruct d as [[]|[]| |[] m e], x as [[]|[]| |[] m' e']; done. Qed.

(** A distance that is not nearer than a nearer one is not nearer than the old one. *)
Lemma ltb_weaken a b x : F32.ltb a b = true -> F32.ltb x a = true -> F32.ltb x b = true.
Proof. intros H1 H2. by apply (ltb_trans x a b). Qed.

Record Nearest (l : list (entity * f32)) (c : Closest) : Prop := mkNearest {
  ne_is : is_nearest l (snd c);
  ne_none : snd c = None -> fst c = F32.infinity;
  ne_some : forall e, snd c = Some e -> exists l1 l2, l = l1 ++ (e, fst c) :: l2 /\ F32.ltb (fst c) F32.infinity = true
      /\ (forall e' d', (e', d') ∈ l1 -> F32.ltb (fst c) d' = true \/ F32.ltb d' F32.infinity = false)
      /\ (forall e' d', (e', d') ∈ l2 -> F32.ltb d' (fst c) = false)
}.

Lemma ltb_total a b : F32.ltb a F32.infinity = true -> F32.ltb b F32.infinity = true -> F32.ltb a b = true \/ F32.ltb b a = true \/ F32.eqb a b = true.
Proof.
  intros Ha Hb. assert (is_nan a = false) by (by destruct a as [[]|[]| |[]]). assert (is_nan b = false) by (by destruct b as [[]|[]| |[]]).
  rewrite (eqb_ltb a b) by done. destruct (F32.ltb a b), (F32.ltb b a); auto.
Qed.

(** The list is scanned from the left: a candidate that is nearer is nearer than all before. *)
Lemma nearest_step l c e d : Nearest l c -> Nearest (l ++ [(e, d)]) (nearer e d c).
Proof.
  intros [Hi Hn Hs]. unfold nearer. destruct (F32.ltb d F32.infinity && F32.ltb d (fst c)) eqn:E.
  - apply andb_true_iff in E as [E1 E2].
    assert (forall e' d', (e', d') ∈ l -> F32.ltb d d' = true \/ F32.ltb d' F32.infinity = false) as Hall.
    { intros e' d' Hin. destruct (snd c) as [e0|] eqn:Ec.
      - destruct (Hs e0 eq_refl) as (l1 & l2 & -> & Hf & H1 & H2). apply elem_of_app in Hin as [Hin|[[= -> ->]|Hin]%elem_of_cons].
        + destruct (H1 _ _ Hin) as [H|H]; [left; by apply (ltb_trans _ (fst c))|by right].
        + by left.
        + specialize (H2 _ _ Hin). destruct (F32.ltb d' F32.infinity) eqn:Ed; [|by right]. left.
          destruct (ltb_total d d' E1 Ed) as [H|[H|H]]; [done| |].
          * by rewrite (ltb_trans d' d (fst c) H E2) in H2.
          * destruct (eqb_not_nan d d' H) as [Hd Hd']. assert (is_nan (fst c) = false) as Hc by (by destruct (fst c) as [[]|[]| |[]]).
            rewrite (eqb_ltb d d' Hd Hd') in H. apply andb_true_iff in H as [H _]. rewrite negb_true_iff in H.
            by rewrite (ltb_cotrans d d' (fst c) Hd Hd' Hc H H2) in E2.
      - right. cbn in Hi. by eapply Hi. }
    assert (exists l1 l2, l ++ [(e, d)] = l1 ++ (e, d) :: l2 /\ F32.ltb d F32.infinity = true
      /\ (forall e' d', (e', d') ∈ l1 -> F32.ltb d d' = true \/ F32.ltb d' F32.infinity = false)
      /\ (forall e' d', (e', d') ∈ l2 -> F32.ltb d' d = false)) as Hx.
    { exists l, []. split_and!; [done|done|done|by intros e' d' ?%elem_of_nil]. }
    constructor; cbn.
    + destruct Hx as (l1 & l2 & Hx). by exists l1, d, l2.
    + done.
    + intros e0 [= <-]. exact Hx.
  - assert (F32.ltb d (fst c) = false) as Ed.
    { apply andb_false_iff in E as [E|E]; [by apply not_finite_ltb|done]. }
    assert (forall e0, snd c = Some e0 -> exists l1 l2, l ++ [(e, d)] = l1 ++ (e0, fst c) :: l2 /\ F32.ltb (fst c) F32.infinity = true
      /\ (forall e' d', (e', d') ∈ l1 -> F32.ltb (fst c) d' = true \/ F32.ltb d' F32.infinity = false)
      /\ (forall e' d', (e', d') ∈ l2 -> F32.ltb d' (fst c) = false)) as Hx.
    { intros e0 He0. destruct (Hs e0 He0) as (l1 & l2 & -> & Hf & H1 & H2). exists l1, (l2 ++ [(e, d)]).
      split_and!; [by rewrite <- app_assoc|done|done|]. intros e' d' [Hin|[= -> ->]%list_elem_of_singleton]%elem_of_app; [by eapply H2|done]. }
    constructor; [|done|exact Hx]. destruct (snd c) as [e0|] eqn:Ec.
    + destruct (Hx e0 eq_refl) as (l1 & l2 & H). by exists l1, (fst c), l2.
    + rewrite (Hn eq_refl) in Ed. intros e' d' [Hin|[= -> ->]%list_elem_of_singleton]%elem_of_app; [by eapply Hi|done].
Qed.

Lemma nearest_Nearest l : forall l0 c, Nearest l0 c -> Nearest (l0 ++ l) (nearest l c).
Proof.
  induction l as [|[e d] l IH]; intros l0 c Hc; [by rewrite app_nil_r|]. cbn [nearest fold_left fst snd].
  rewrite (app_cons_middle l0 l). apply IH. by apply nearest_step.
Qed.

Lemma nearest_spec l : is_nearest l (snd (nearest l closest0)).
Proof.
  apply (nearest_Nearest l []). constructor; cbn; [by intros e d ?%elem_of_nil|done|done].
Qed.

Lemma nearest_app l l' c : nearest (l ++ l') c = nearest l' (nearest l c).
Proof. apply fold_left_app. Qed.
(** *** The groups *)
Section Click.
Context (G : glm) (R0 : Registry G).
Abbreviation TG := (transform_glm G).
Abbreviation Tr := (Transform.Transform TG).
Implicit Types (R : Registry G).

(** Reading matrices changes the transforms, but no world matrix. *)
Definition like R : Prop := exists T, R = with_transforms G T R0
  /\ forall e, Transform.worldMatrix TG <$> T !! e = Transform.worldMatrix TG <$> transforms G R0 !! e.

Definition world_of (e : entity) : option (mat G) := Transform.worldMatrix TG <$> transforms G R0 !! e.

Lemma like_refl : like R0.
Proof. exists (transforms G R0). split; [by destruct R0|done]. Qed.

Lemma world_like R e m : like R -> world_of e = Some m -> exists R', world G e R = Ret (R', m) /\ like R'.
Proof.
  intros (T & -> & HT) Hm. unfold world, with_transforms. cbn. unfold world_of in Hm. rewrite <- HT in Hm.
  destruct (T !! e) as [t|] eqn:Et; [|done]. injection Hm as <-. cbn [deref]. rewrite bind_Ret.
  assert (Transform.worldMatrix TG (Transform.refresh TG t) = Transform.worldMatrix TG t) as Hr by (unfold Transform.refresh; by destruct (Transform.dirty TG t)).
  unfold Transform.getWorldMatrix. rewrite Hr. eexists. split; [done|]. exists (<[e := Transform.refresh TG t]> T). split; [done|].
  intros e'. rewrite <- HT. destruct (decide (e' = e)) as [->|Hne]; [by rewrite lookup_insert_eq, Et; cbn; rewrite Hr|by rewrite lookup_insert_ne].
Qed.

Lemma visit_loop {A} (visit : A -> Registry G * Closest -> outcome (Registry G * Closest)) (hit : A -> option (entity * f32)) l :
  (forall x R c, x ∈ l -> like R -> exists R', visit x (R, c) = Ret (R', match hit x with Some (e, d) => nearer e d c | None => c end) /\ like R') ->
  forall R c, like R -> exists R', foldM visit l (R, c) = Ret (R', nearest (omap hit l) c) /\ like R'.
Proof.
  induction l as [|x l IH]; intros Hv R c HR; [by exists R|]. cbn [foldM].
  destruct (Hv x R c ltac:(set_solver) HR) as (R1 & -> & HR1). rewrite bind_Ret.
  destruct (IH ltac:(set_solver) R1 (match hit x with Some (e, d) => nearer e d c | None => c end) HR1) as (R' & E & HR'). exists R'. split; [|done].
  rewrite E. cbn. by destruct (hit x) as [[e d]|].
Qed.

(** The distances of the three groups. *)
Context (ray : Ray.Ray).
Definition mesh_hit (x : entity * option (option BoundingBox.BoundingBox)) : option (entity * f32) :=
  match snd x, world_of (fst x) with
  | Some (Some b), Some m => Some (fst x, Ray.hit ray (transform_box G m b))
  | _, _ => None
  end.
Definition sprite_hit (x : entity * Renderer2D.Quad2D) : option (entity * f32) := Some (fst x, Ray.hit ray (quad_box (snd x))).
Definition anim_hit (x : entity * Renderer2D.Quad2D) : option (entity * f32) :=
  (fun m => (fst x, Ray.hit ray (transform_box G m (quad_box (snd x))))) <$> world_of (fst x).

Definition mesh_hits : list (entity * f32) := omap mesh_hit (meshes G R0).
Definition all_hits : list (entity * f32) := mesh_hits ++ omap sprite_hit (sprites G R0) ++ omap anim_hit (animSprites G R0).

(** Every entity of a group has a transform, and every mesh a bounding box. *)
Record complete : Prop := mkComplete {
  co_meshes : forall x, x ∈ meshes G R0 -> is_Some (world_of (fst x)) /\ snd x <> Some None;
  co_sprites : forall x, x ∈ sprites G R0 -> is_Some (world_of (fst x));
  co_anims : forall x, x ∈ animSprites G R0 -> is_Some (world_of (fst x));
  co_distinct : NoDup (meshes G R0).*1
}.
Context (HC : complete).

Lemma meshes_loop R c : like R -> exists R', foldM (visit_mesh G ray) (meshes G R0) (R, c) = Ret (R', nearest mesh_hits c) /\ like R'.
Proof.
  apply visit_loop. intros [e r] R' c' Hin HR. destruct (co_meshes HC _ Hin) as [[m Hm] Hbox]. cbn [fst snd] in *.
  unfold visit_mesh, mesh_hit. cbn [fst snd]. rewrite Hm. destruct r as [[b|]|]; [|done|by exists R'].
  destruct (world_like R' e m HR Hm) as (R1 & E & HR1). rewrite E, !bind_Ret. by exists R1.
Qed.

Lemma sprites_loop R c : like R -> exists R', foldM (visit_sprite G ray) (sprites G R0) (R, c) = Ret (R', nearest (omap sprite_hit (sprites G R0)) c) /\ like R'.
Proof.
  apply visit_loop. intros [e q] R' c' Hin HR. destruct (co_sprites HC _ Hin) as [m Hm]. cbn [fst snd] in *.
  unfold visit_sprite. destruct (world_like R' e m HR Hm) as (R1 & E & HR1). cbn [fst snd]. rewrite E, bind_Ret. by exists R1.
Qed.

Lemma anims_loop R c : like R -> exists R', foldM (visit_anim G ray) (animSprites G R0) (R, c) = Ret (R', nearest (omap anim_hit (animSprites G R0)) c) /\ like R'.
Proof.
  apply visit_loop. intros [e q] R' c' Hin HR. destruct (co_anims HC _ Hin) as [m Hm]. cbn [fst snd] in *.
  unfold visit_anim, anim_hit. destruct (world_like R' e m HR Hm) as (R1 & E & HR1). cbn [fst snd]. rewrite E, bind_Ret, Hm. by exists R1.
Qed.

(** The clock does not run backwards, so the second click is always in time. *)
Lemma always_in_time t1 last : last <= t1 -> F32.ltb (F32.div (F32.of_Z (elapsed t1 last)) (F32.of_Z 1000000)) F32.one = true.
Proof.
  intros Ht. destruct (of_Z_pos 1000000) as (m & E & _); [lia|]. change 1000000 with (Z.pos 1000000). rewrite E.
  destruct (of_Z_pos 1) as (m1 & E1 & _); [lia|]. change F32.one with (F32.of_Z (Z.pos 1)). rewrite E1.
  apply nonpos_ltb, div_nonpos, of_Z_nonpos. unfold elapsed. rewrite <- (Z.opp_involutive (last - t1)), Z.quot_opp_l by lia.
  pose proof (Z.quot_pos (- (last - t1)) 1000). lia.
Qed.

Lemma find_group_elem {A} (l : list (entity * A)) e : e ∈ l.*1 -> exists x, find_group e l = Some x /\ (e, x) ∈ l.
Proof.
  intros He. unfold find_group. destruct (list_find (fun x : entity * A => fst x = e) l) as [[i [e' x]]|] eqn:E.
  - apply list_find_Some in E as (E & Hx & _). cbn in Hx. subst e'. exists x. split; [done|]. by eapply list_elem_of_lookup_2.
  - apply list_find_None in E. apply list_elem_of_fmap in He as ([e' x] & -> & Hin). rewrite Forall_forall in E. by destruct (E _ Hin).
Qed.

Lemma nearest_elem l c e : snd (nearest l c) = Some e -> e ∈ l.*1 \/ snd c = Some e.
Proof.
  revert c. induction l as [|[e' d] l IH]; intros c He; [by right|]. cbn in He. destruct (IH _ He) as [H|H]; [left; cbn; set_solver|].
  unfold nearer in H. destruct (_ && _); [|by right]. injection H as ->. left. cbn. set_solver.
Qed.

Lemma mesh_hits_elem e : e ∈ mesh_hits.*1 -> e ∈ (meshes G R0).*1.
Proof.
  unfold mesh_hits. rewrite !list_elem_of_fmap. intros ([e' d] & -> & (x & Hx & Hin)%list_elem_of_omap). exists x. split; [|done].
  unfold mesh_hit in Hin. destruct (snd x) as [[b|]|], (world_of (fst x)); simplify_eq; done.
Qed.

Lemma find_group_unique {A} (l : list (entity * A)) e x : NoDup l.*1 -> (e, x) ∈ l -> find_group e l = Some x.
Proof.
  intros HN Hin. destruct (find_group_elem l e) as (y & E & Hy); [by apply (list_elem_of_fmap_2 fst _ (e, x))|]. rewrite E.
  apply list_elem_of_lookup in Hin as [i Hi], Hy as [j Hj].
  assert (i = j) as ->; [|congruence]. apply (NoDup_lookup l.*1 i j e HN); rewrite list_lookup_fmap; by rewrite ?Hi, ?Hj.
Qed.

Definition chosen (l : list (entity * f32)) : option entity := snd (nearest l closest0).

Lemma chosen_mesh e : chosen mesh_hits = Some e -> exists b m, (e, Some (Some b)) ∈ meshes G R0 /\ world_of e = Some m.
Proof.
  intros He. destruct (nearest_elem _ _ _ He) as [Hin|]; [|done].
  apply list_elem_of_fmap in Hin as ([e' d] & -> & (x & Hx & E)%list_elem_of_omap). unfold mesh_hit in E.
  destruct x as [e [[b|]|]]; cbn in E; [|done..]. destruct (world_of e) as [m|] eqn:Em; [|done]. simplify_eq. by exists b, m.
Qed.

(** The click on the selected mesh. *)
Lemma click_selected_ok t0 t1 t2 e R d : like R -> chosen mesh_hits = Some e -> default t0 (lastClick G d) <= t1 ->
  exists R' b m, click_selected G t0 t1 t2 e R d = Ret (R', with_selected G (Some e) (Some t2) (focus_on G m b d)) /\ like R'
    /\ (e, Some (Some b)) ∈ meshes G R0 /\ world_of e = Some m.
Proof.
  intros HR He Ht. destruct (chosen_mesh e He) as (b & m & Hin & Hm). unfold click_selected. rewrite always_in_time by done.
  destruct (world_like R e m HR Hm) as (R' & E & HR'). rewrite E, bind_Ret. exists R', b, m.
  assert (meshes G R' = meshes G R0) as -> by (by destruct HR' as (T & -> & _)).
  rewrite (find_group_unique _ e (Some (Some b)) (co_distinct HC) Hin). cbn [deref]. by rewrite !bind_Ret.
Qed.

Lemma focus_sprite_ok e R d : like R -> is_Some (world_of e) -> exists R' d', focus_sprite G e R d = Ret (R', d') /\ like R'.
Proof.
  intros HR [m Hm]. destruct (world_like R e m HR Hm) as (R' & E & HR'). unfold focus_sprite.
  assert (is_Some (transforms G R !! e)) as [t ->] by (unfold world in E; destruct (transforms G R !! e); [by eexists|done]).
  cbn [deref]. rewrite bind_Ret. destruct (match find_group e (sprites G R) with Some q => Some q | None => _ end) as [q|]; [|by exists R, d].
  rewrite E, bind_Ret. by eexists _, _.
Qed.

(** Everything after the search among the meshes. *)
Lemma flat_part R c : like R -> c = nearest mesh_hits closest0 ->
  exists R', (forall K : Registry G * Closest -> outcome (Registry G * Editor G),
      ('(R, c) ← foldM (visit_sprite G ray) (sprites G R) (R, c); '(R, c) ← foldM (visit_anim G ray) (animSprites G R) (R, c); K (R, c)) = K (R', nearest all_hits closest0))
    /\ like R'.
Proof.
  intros HR ->. assert (forall R, like R -> sprites G R = sprites G R0 /\ animSprites G R = animSprites G R0) as Hsame by (by intros ? (T & -> & _)).
  destruct (sprites_loop R (nearest mesh_hits closest0) HR) as (R1 & E1 & HR1).
  destruct (anims_loop R1 (nearest (omap sprite_hit (sprites G R0)) (nearest mesh_hits closest0)) HR1) as (R2 & E2 & HR2).
  exists R2. split; [|done]. intros K. rewrite (proj1 (Hsame R HR)), E1, bind_Ret, (proj2 (Hsame R1 HR1)), E2, bind_Ret.
  unfold all_hits. by rewrite !nearest_app.
Qed.

Lemma all_hits_world e : chosen all_hits = Some e -> is_Some (world_of e).
Proof.
  intros He. destruct (nearest_elem _ _ _ He) as [Hin|]; [|done]. unfold all_hits in Hin. rewrite !fmap_app, !elem_of_app in Hin.
  destruct Hin as [Hin|[Hin|Hin]].
  - apply mesh_hits_elem in Hin. apply list_elem_of_fmap in Hin as (x & -> & Hx). by apply (co_meshes HC).
  - apply list_elem_of_fmap in Hin as ([e' d] & -> & (x & Hx & [= <- <-])%list_elem_of_omap). by apply (co_sprites HC).
  - apply list_elem_of_fmap in Hin as ([e' d] & -> & (x & Hx & E)%list_elem_of_omap). unfold anim_hit in E.
    destruct (world_of (fst x)) eqn:Em; [|done]. injection E as <- <-. cbn. rewrite Em. by eexists.
Qed.

Definition again (d : Editor G) : Prop := exists e, selectedNode G d = Some e /\ chosen mesh_hits = Some e.

Lemma clickObject_ok t0 t1 t2 d : default t0 (lastClick G d) <= t1 -> exists R' d', clickObject G ray t0 t1 t2 R0 d = Ret (R', d') /\ like R'
  /\ (again d -> exists e b m, selectedNode G d = Some e /\ (e, Some (Some b)) ∈ meshes G R0 /\ world_of e = Some m
         /\ d' = with_selected G (Some e) (Some t2) (focus_on G m b d))
  /\ (~ again d -> selectedNode G d' = chosen all_hits
         /\ (selectedNode G d' <> selectedNode G d -> editorCameraTransform G d' = editorCameraTransform G d)).
Proof.
  intros Ht. unfold clickObject. destruct (meshes_loop R0 closest0 like_refl) as (R1 & E1 & HR1). rewrite E1, bind_Ret.
  destruct (flat_part R1 _ HR1 eq_refl) as (R2 & E2 & HR2). fold (chosen mesh_hits). destruct (selectedNode G d) as [e|] eqn:Es.
  - destruct (decide (Some e = chosen mesh_hits)) as [Hd|Hd].
    + destruct (click_selected_ok t0 t1 t2 e R1 d HR1 (eq_sym Hd) Ht) as (R' & b & m & E & HR' & Hin & Hm).
      exists R', (with_selected G (Some e) (Some t2) (focus_on G m b d)). split; [done|]. split; [done|]. split.
      * intros _. by exists e, b, m.
      * intros Hn. destruct Hn. by exists e.
    + rewrite (E2 (fun '(R, c) => '(R, d) ← (if decide (Some e = snd c) then focus_sprite G e R d else Ret (R, d)); Ret (R, with_selected G (snd c) _ d))).
      fold (chosen all_hits). assert (~ again d) as Hna by (intros (e' & He' & Hc); congruence).
      destruct (decide (Some e = chosen all_hits)) as [Hc|Hc].
      * destruct (focus_sprite_ok e R2 d HR2 (all_hits_world e (eq_sym Hc))) as (R' & d' & E & HR'). rewrite E, bind_Ret.
        eexists _, _. split; [done|]. split; [done|]. split; [by intros ?|]. intros _. cbn. split; [done|]. congruence.
      * rewrite bind_Ret. eexists _, _. split; [done|]. split; [done|]. split; [by intros ?|]. by intros _.
  - rewrite (E2 (fun '(R, c) => Ret (R, with_selected G (snd c) _ d))). eexists _, _. split; [done|]. split; [done|].
    split; [by intros (e & ? & _); congruence|]. by intros _.
Qed.
End Click.

(** C21. A click in the scene view.  When every entity of the groups has a transform and every mesh a
    box, a click succeeds and leaves all world matrices as they were.  If the
    mesh hit first is the one already selected, it stays selected, even when a
    sprite is nearer, and the camera moves to it; since the clock does not run
    backwards and the elapsed time is taken the wrong way round, this happens however
    long ago the last click was.  Otherwise the selection becomes the first
    entity at the least finite distance among meshes, sprites and animated
    sprites, where the boxes of plain sprites are those of their own plane, not of
    the world; and the camera moves only when that was selected before. *)
Theorem click_selects_nearest (G : glm) (ray : Ray.Ray) t0 t1 t2 (R : Registry G) (d : Editor G) : complete G R -> default t0 (lastClick G d) <= t1 ->
  exists R' d', clickObject G ray t0 t1 t2 R d = Ret (R', d') /\ like G R R'
  /\ is_nearest (mesh_hits G R ray) (chosen (mesh_hits G R ray)) /\ is_nearest (all_hits G R ray) (chosen (all_hits G R ray))
  /\ (again G R ray d -> exists e b m, selectedNode G d = Some e /\ (e, Some (Some b)) ∈ meshes G R /\ world_of G R e = Some m
         /\ d' = with_selected G (Some e) (Some t2) (focus_on G m b d))
  /\ (~ again G R ray d -> selectedNode G d' = chosen (all_hits G R ray)
         /\ (selectedNode G d' <> selectedNode G d -> editorCameraTransform G d' = editorCameraTransform G d)).
Proof.
  intros HC Ht. destruct (clickObject_ok G R ray HC t0 t1 t2 d Ht) as (R' & d' & E & HR & Ha & Hn).
  exists R', d'. split; [done|]. split; [done|]. split; [apply nearest_spec|]. split; [apply nearest_spec|]. by split.
Qed.

(** A mesh in front of the origin, and a view that looks at it. *)
Definition demo_box : BoundingBox.BoundingBox := BoundingBox.mkBox (mkVec3 (F32.of_Z (-1)) (F32.of_Z (-1)) F32.one) (mkVec3 F32.one F32.one (F32.of_Z 2)).
Definition demo_ray : Ray.Ray := Ray.mkRay zero3 (mkVec3 F32.zero F32.zero F32.one).
Definition demo_transform : Transform.Transform (transform_glm CameraProps.demo_glm) := Transform.make (transform_glm CameraProps.demo_glm).
Definition demo_registry : Registry CameraProps.demo_glm := mkRegistry CameraProps.demo_glm {[1%N := demo_transform]} [(1%N, Some (Some demo_box))] [] [].
Definition demo_editor (s : option entity) : Editor CameraProps.demo_glm :=
  mkEditor CameraProps.demo_glm (Camera.make_perspective CameraProps.demo_glm [] F32.one F32.one F32.one F32.one) demo_transform zero3 s None false None.

Lemma demo_complete : complete CameraProps.demo_glm demo_registry.
Proof.
  constructor; cbn; [|by intros x ?%elem_of_nil|by intros x ?%elem_of_nil|apply NoDup_singleton].
  intros x ->%list_elem_of_singleton. split; [by eexists|done].
Qed.

Lemma click_selects_nearest_witness :
  exists R' d', clickObject CameraProps.demo_glm demo_ray 0 0 0 demo_registry (demo_editor None) = Ret (R', d')
    /\ selectedNode CameraProps.demo_glm d' = Some 1%N.
Proof.
  destruct (click_selects_nearest CameraProps.demo_glm demo_ray 0 0 0 demo_registry (demo_editor None)) as (R' & d' & E & _ & _ & _ & _ & Hn).
  - apply demo_complete.
  - reflexivity.
  - exists R', d'. split; [exact E|]. refine (eq_trans (proj1 (Hn _)) _); [|vm_compute; reflexivity].
    intros (e & He & _). discriminate He.
Defined.

(** Only two corners of a box are transformed: mirrored, they are no longer the
    least and the greatest, and a ray through the middle misses. *)
Lemma mirrored_box_missed :
  let mirror p := mkVec3 (F32.opp (v3x p)) (v3y p) (v3z p) in
  Ray.hit demo_ray demo_box = F32.one /\ Ray.hit demo_ray (BoundingBox.transform mirror demo_box) = F32.infinity.
Proof. split; vm_compute; reflexivity. Qed.
End EditorProps.
