(* ===== verification/MeshPass.v ===== *)
(** * MeshPass: the meshes of a scene, drawn into the geometry buffers and the shadow maps

    Models [Scene/Component/MeshRenderer.*], [Renderer/DeferredOffScreenRenderer.*],
    [Renderer/ShadowRenderer.*] and [Renderer/OmniShadowRenderer.*]: the queues of
    commands made from the mesh renderers of a scene, and the commands recorded
    from them.  It uses the materials of [Material], the transforms and cameras of
    [SceneGraph] and [Camera], and the render passes of [Vulkan].  Creating
    pipelines, passes and frame buffers is the driver's. *)

From S2P Require Import Prelude Strings Float32 Geometry GpuBuffers ShaderFile Vulkan Resources Mesh Material Hierarchy SceneGraph Input LineRenderer Camera.
From stdpp Require Import base decidable list gmap sets strings.
From Stdlib Require Import ZArith Lia.
Local Open Scope Z_scope.
Import Glm CameraGlm.

(** ** Mesh renderers (MeshRenderer.cpp) *)
Module MeshRenderer.

Inductive PrimitiveType := Plane | Quad | Cube | Pyramid | Sphere | Capsule | Cylinder | Terrain | File.

Record Model := mkModel { filePath : cstring; type : PrimitiveType; resource : option (MeshResource.MeshResource (M := N)) }.

(** A mesh that is shared by pointers: its geometry and its material. *)
Record SharedMesh := mkShared { geometry : Mesh.Mesh; material : option N }.
Definition setMaterial (m : option N) (x : SharedMesh) : SharedMesh := mkShared (geometry x) m.

(** [own_entity] is the entity of the component; [loaded] the material of the archive. *)
Record MeshRenderer := mkRenderer { own_entity : entity; mesh : option N; meshName : cstring; loaded : option N }.
Definition with_mesh (m : option N) (r : MeshRenderer) : MeshRenderer := mkRenderer (own_entity r) m (meshName r) (loaded r).

Definition make (e : entity) (m : option N) : MeshRenderer := mkRenderer e m [] None.

Section Load.
(** The model of an entity, and that of its nearest ancestor with one. *)
Context (own inherited : entity -> option Model).
(** The C library's trigonometry. *)
Context (cosf sinf : f32 -> f32).
Implicit Types (heap : gmap N SharedMesh).

(** A mesh created by one of the factories. *)
Definition new_mesh (m : Mesh.Mesh) heap : gmap N SharedMesh * N :=
  let h := fresh (dom heap) in (<[h := mkShared m None]> heap, h).

(** [getMesh(name)]; a model of another type leaves the mesh as it is. *)
Definition find_mesh (name : cstring) (r : MeshRenderer) heap : outcome (gmap N SharedMesh * MeshRenderer) :=
  match own (own_entity r) with
  | Some mo =>
      match type mo with
      | Cube => let '(heap, h) := new_mesh Mesh.createCube heap in Ret (heap, with_mesh (Some h) r)
      | Sphere => s ← Mesh.createSphere cosf sinf 64 64; let '(heap, h) := new_mesh s heap in Ret (heap, with_mesh (Some h) r)
      | File => res ← deref (resource mo); Ret (heap, with_mesh (MeshResource.find name res) r)
      | _ => Ret (heap, r)
      end
  | None =>
      mo ← deref (inherited (own_entity r));
      res ← deref (resource mo);
      Ret (heap, with_mesh (MeshResource.find name res) r)
  end.

(** The getter looks the mesh up when it is null. *)
Definition getMesh (r : MeshRenderer) heap : outcome (gmap N SharedMesh * MeshRenderer) :=
  match mesh r with Some _ => Ret (heap, r) | None => find_mesh (meshName r) r heap end.

Definition loadFromModel (r : MeshRenderer) heap : outcome (gmap N SharedMesh * MeshRenderer) :=
  '(heap, r) ← find_mesh (meshName r) r heap;
  match mesh r with
  | Some h => x ← deref (heap !! h); Ret (<[h := setMaterial (loaded r) x]> heap, r)
  | None => Ret (heap, r)
  end.
End Load.
End MeshRenderer.

(** ** Lights (Light.cpp) *)
Module Light.
Inductive LightType := DirectionalLight | SpotLight | PointLight.
Definition code (t : LightType) : Z := match t with DirectionalLight => 0 | SpotLight => 1 | PointLight => 2 end.

(** The type is stored as a float. *)
Record LightData := mkLight { color : vec4; position : vec4; direction : vec4; radius : f32; intensity : f32; type : f32; angle : f32 }.
(** [static_cast<LightType>(lightData.type) == t]. *)
Definition is_type (t : LightType) (l : LightData) : bool := F32.to_Z (type l) =? code t.

Definition with_one (v : vec3) : vec4 := mkVec4 (v3x v) (v3y v) (v3z v) F32.one.
Definition make (direction : vec3) (color : vec4) (intensity : f32) (t : LightType) (position : vec3) (radius angle : f32) : LightData :=
  mkLight color (with_one position) (with_one direction) radius intensity (F32.of_Z (code t)) angle.

Definition lightTypeToString (t : LightType) : cstring :=
  match t with DirectionalLight => str "Directional Light" | SpotLight => str "Spot Light" | PointLight => str "Point Light" end.
Definition stringToLightType (s : cstring) : Z :=
  if bool_decide (s = str "Directional") then code DirectionalLight
  else if bool_decide (s = str "Point") then code PointLight
  else if bool_decide (s = str "Spot") then code SpotLight else 0.
End Light.

(** ** Queues and passes *)
Module MeshPass.
Import MeshRenderer RenderPass.

Section Pass.
Context (G : glm).
Abbreviation TG := (transform_glm G).
Abbreviation Transform := (Transform.Transform TG).
Abbreviation Cam := (Camera.Camera G).

(** [RenderCommand]: pointers to a mesh and a material. *)
Record RenderCommand := mkCommand { cmd_mesh : option N; cmd_material : option N; cmd_transform : mat G }.

(** What push constants hold: the transform, and what follows it. *)
Inductive Tail := NoTail | Cascade (index : Z) | LightView (view : mat G).
Record Pushed := mkPushed { pushed_transform : mat G; pushed_tail : Tail }.
(** [None]: a push constant these passes do not write. *)
Abbreviation Cmd := (Command (option Pushed)).

(** What a frame reads of the scene: the transforms, the mesh renderers in the
    order of their group, and the meshes and materials they share. *)
Record Scene := mkScene {
  transforms : gmap entity Transform;
  renderers : list MeshRenderer;
  meshes : gmap N SharedMesh;
  materials : gmap N Material.Material
}.
Definition with_transforms (T : gmap entity Transform) (s : Scene) : Scene := mkScene T (renderers s) (meshes s) (materials s).
Definition with_meshes (R : list MeshRenderer) (M : gmap N SharedMesh) (s : Scene) : Scene := mkScene (transforms s) R M (materials s).
Definition with_materials (M : gmap N Material.Material) (s : Scene) : Scene := mkScene (transforms s) (renderers s) (meshes s) M.

Context (own inherited : entity -> option Model) (cosf sinf : f32 -> f32).

(** [render.getMesh()] of the renderer at [i], which may load it. *)
Definition get_mesh (i : nat) (s : Scene) : outcome (Scene * option N) :=
  r ← vec_at (renderers s) i;
  '(heap, r) ← getMesh own inherited cosf sinf r (meshes s);
  Ret (with_meshes (<[i := r]> (renderers s)) heap s, mesh r).

(** [trans.getWorldMatrix()] of the entity of the renderer at [i]. *)
Definition world_at (i : nat) (s : Scene) : outcome (Scene * mat G) :=
  r ← vec_at (renderers s) i;
  t ← deref (transforms s !! own_entity r);
  let '(t, m) := Transform.getWorldMatrix TG t in
  Ret (with_transforms (<[own_entity r := t]> (transforms s)) s, m).

(** *** Recording *)
Definition index_count (x : SharedMesh) : Z := u32 (Z.of_nat (length (Mesh.indexBuffer (geometry x)))).
Definition sizeof_mat4 : Z := 64.
Definition sizeof_ivec4 : Z := 16.

(** Writing the first push constant, of which the shader gives the size, and
    [bindPushConstants], which records all of them. *)
Definition push (sizes : list Z) (n : Z) (data : Pushed) : outcome (list Cmd) :=
  size ← vec_at sizes 0;
  if n <=? size then Ret (PushConstants (Some data) :: replicate (length sizes - 1) (PushConstants None)) else Exn OutOfBounds.

(** The buffers of the mesh of a command. *)
Definition bind_mesh (c : RenderCommand) (s : Scene) : outcome (list Cmd) :=
  h ← deref (cmd_mesh c); _ ← deref (meshes s !! h); Ret [BindVertexBuffer h; BindIndexBuffer h].
Definition draw_mesh (c : RenderCommand) (s : Scene) : outcome (list Cmd) :=
  h ← deref (cmd_mesh c); x ← deref (meshes s !! h); Ret (drawIndexed (index_count x) 0).

(** A loop that records. *)
Definition record_all {A} (f : A -> outcome (list Cmd)) (l : list A) : outcome (list Cmd) :=
  foldM (fun a cs => c ← f a; Ret (cs ++ c)) l [].

(** ** The geometry pass (DeferredOffScreenRenderer.cpp) *)
Record OffScreen := mkOffScreen {
  o_pass : RenderPass; o_pipeline : N; o_set : DescriptorSet.DescriptorSet N; o_pushes : list Z;
  o_frames : list N; o_size : Z * Z;
  defaultMaterial : Material.Material;
  commandQueue : list RenderCommand;
  projView : mat G; o_uploaded : option (mat G);
  omniIndex : Z
}.
Definition with_queue (q : list RenderCommand) (pv : mat G) (o : OffScreen) : OffScreen :=
  mkOffScreen (o_pass o) (o_pipeline o) (o_set o) (o_pushes o) (o_frames o) (o_size o) (defaultMaterial o) q pv (o_uploaded o) (omniIndex o).

Definition submit (c : RenderCommand) (o : OffScreen) : OffScreen := with_queue (commandQueue o ++ [c]) (projView o) o.

(** The default texture, and the uniform buffer a material gets from the driver. *)
Context (defaultTexture : N) (newBuffer : N -> N).

(** The set of a material is made when it is missing or its textures changed. *)
Definition prepare (pipeline : N) (k : N) (s : Scene) : outcome Scene :=
  m ← deref (materials s !! k);
  if bool_decide (Material.getDescriptorSet pipeline m = None) || Material.texturesUpdated m then
    m ← Material.createDescriptorSet defaultTexture (newBuffer k) pipeline true m;
    Ret (with_materials (<[k := Material.setTexturesUpdated false m]> (materials s)) s)
  else Ret s.

(** The body of the loop over the group. *)
Definition visit (i : nat) (x : OffScreen * Scene) : outcome (OffScreen * Scene) :=
  let '(o, s) := x in
  '(s, m) ← get_mesh i s;
  h ← deref m; x ← deref (meshes s !! h);
  s ← match material x with Some k => prepare (o_pipeline o) k s | None => Ret s end;
  '(s, m) ← get_mesh i s;
  '(s, w) ← world_at i s;
  Ret (submit (mkCommand m (material x) w) o, s).

(** [omni] is the omnidirectional shadow renderer of the manager, by its views. *)
Definition beginScene (camera : option Cam) (transform : option Transform) (omni : option (list (mat G))) (o : OffScreen) (s : Scene)
    : outcome (option Cam * option Transform * OffScreen * Scene) :=
  let o := with_queue [] (projView o) o in
  match camera with
  | None => Ret (camera, transform, o, s)
  | Some cam =>
      t ← deref transform;
      let '(t, w) := Transform.getWorldMatrix TG t in
      let view := inverse G w in
      view ← (if omniIndex o =? -1 then Ret view else views ← deref omni; at_Z views (omniIndex o));
      let '(cam, proj) := Camera.getProjectionMatrix G cam in
      let o := with_queue [] (mul G proj view) o in
      '(o, s) ← foldM visit (seq 0 (length (renderers s))) (o, s);
      Ret (Some cam, Some t, o, s)
  end.

(** The body of the loop of [present]. *)
Definition present_command (o : OffScreen) (s : Scene) (c : RenderCommand) : outcome (list Cmd) :=
  set ← match cmd_material c with
        | Some k => m ← deref (materials s !! k); Ret (Material.getDescriptorSet (o_pipeline o) m)
        | None => Ret (Material.getDescriptorSet (o_pipeline o) (defaultMaterial o))
        end;
  p ← push (o_pushes o) sizeof_mat4 (mkPushed (cmd_transform c) NoTail);
  b ← bind_mesh c s;
  d ← bindDescriptorSets 0 [Some (o_set o); set];
  n ← draw_mesh c s;
  Ret (p ++ b ++ d ++ n).

Definition grey : vec4 := mkVec4 (F32.lit 3 10) (F32.lit 3 10) (F32.lit 3 10) F32.one.

(** [begin], [present] and [end]. *)
Definition renderScene (o : OffScreen) (s : Scene) : outcome (OffScreen * list Cmd) :=
  fb ← vec_at (o_frames o) 0;
  '(p, b) ← beginRenderPass grey (Some fb) (fst (o_size o)) (snd (o_size o)) (o_pass o);
  let o := mkOffScreen p (o_pipeline o) (o_set o) (o_pushes o) (o_frames o) (o_size o) (defaultMaterial o) (commandQueue o) (projView o)
             (Some (projView o)) (omniIndex o) in
  cs ← record_all (present_command o s) (commandQueue o);
  Ret (o, b ++ [BindPipeline (o_pipeline o)] ++ cs ++ [EndRenderPass]).

(** ** Cascaded shadows (ShadowRenderer.cpp) *)
Definition SHADOWMAP_MAX : nat := 4.

Record Shadow := mkShadow {
  s_pass : RenderPass; s_pipeline : N; s_set : DescriptorSet.DescriptorSet N; s_pushes : list Z;
  shadowFrameBuffers : list (option N); shadowMapSize : Z; numMaps : nat; shadowMapsInvalidated : bool;
  cascadeSplitLambda : f32;
  cascadeCommandQueue : list (list RenderCommand);
  hasLight : bool; cascadeIndex : Z;
  splitDepth : list f32; projViews : list (mat G); s_uploaded : option (list (mat G)); lightViewMatrix : mat G
}.
Definition with_shadow_queues (q : list (list RenderCommand)) (l : bool) (r : Shadow) : Shadow :=
  mkShadow (s_pass r) (s_pipeline r) (s_set r) (s_pushes r) (shadowFrameBuffers r) (shadowMapSize r) (numMaps r) (shadowMapsInvalidated r)
    (cascadeSplitLambda r) q l (cascadeIndex r) (splitDepth r) (projViews r) (s_uploaded r) (lightViewMatrix r).
Definition with_cascades (d : list f32) (v : list (mat G)) (m : mat G) (r : Shadow) : Shadow :=
  mkShadow (s_pass r) (s_pipeline r) (s_set r) (s_pushes r) (shadowFrameBuffers r) (shadowMapSize r) (numMaps r) (shadowMapsInvalidated r)
    (cascadeSplitLambda r) (cascadeCommandQueue r) (hasLight r) (cascadeIndex r) d v (s_uploaded r) m.
Definition with_recorded (p : RenderPass) (i : Z) (u : option (list (mat G))) (r : Shadow) : Shadow :=
  mkShadow p (s_pipeline r) (s_set r) (s_pushes r) (shadowFrameBuffers r) (shadowMapSize r) (numMaps r) (shadowMapsInvalidated r)
    (cascadeSplitLambda r) (cascadeCommandQueue r) (hasLight r) i (splitDepth r) (projViews r) u (lightViewMatrix r).

(** An element of an array of four. *)
Definition store {A} (i : nat) (a : A) (l : list A) : outcome (list A) := if (i <? length l)%nat then Ret (<[i := a]> l) else Exn OutOfBounds.

(** [newFrame i] is the frame buffer the driver makes for layer [i]. *)
Definition createFrameBuffers (newFrame : nat -> N) (r : Shadow) : outcome Shadow :=
  if shadowMapsInvalidated r && (0 <? numMaps r)%nat then
    fbs ← foldM (fun i fbs => store i (Some (newFrame i)) fbs) (seq 0 (numMaps r)) (shadowFrameBuffers r);
    Ret (mkShadow (s_pass r) (s_pipeline r) (s_set r) (s_pushes r) fbs (shadowMapSize r) (numMaps r) false
           (cascadeSplitLambda r) (cascadeCommandQueue r) (hasLight r) (cascadeIndex r) (splitDepth r) (projViews r) (s_uploaded r) (lightViewMatrix r))
  else Ret r.

(** [std::pow], [std::ceil] and [glm::lookAt]. *)
Context (pow : f32 -> f32 -> f32) (ceil : f32 -> f32) (lookAt : vec3 -> vec3 -> vec3 -> mat G).

(** The relative depths at which the cascades end. *)
Definition cascade_split (lambda minZ range ratio near_ clipRange : f32) (i : nat) : f32 :=
  let p := F32.div (F32.of_Z (Z.of_nat i + 1)) (F32.of_Z 4) in
  let log := F32.mul minZ (pow ratio p) in
  let uniform := F32.add minZ (F32.mul range p) in
  let d := F32.add (F32.mul lambda (F32.sub log uniform)) uniform in
  F32.div (F32.sub d near_) clipRange.

(** The corners of the part of the frustum between two depths. *)
Definition cut (lastSplit split : f32) (i : nat) (c : list vec3) : outcome (list vec3) :=
  a ← vec_at c i; b ← vec_at c (i + 4)%nat;
  let dist := sub3 b a in
  c ← store (i + 4) (add3 a (scale3 dist split)) c;
  store i (add3 a (scale3 dist lastSplit)) c.

Definition over3 (v : vec3) (x : f32) : vec3 := map3 (fun y => F32.div y x) v.
Definition fmax (a b : f32) : f32 := if F32.ltb a b then b else a.

(** The matrices of a cascade from the corners. *)
Definition cascade_view (lightDirection : vec4) (corners : list vec3) : mat G * mat G :=
  let center := over3 (fold_left add3 corners zero3) (F32.of_Z 8) in
  let radius := fold_left (fun r c => fmax r (length3 (sub3 c center))) corners F32.zero in
  let radius := F32.div (ceil (F32.mul radius (F32.of_Z 16))) (F32.of_Z 16) in
  let minZ := F32.opp radius in
  let lightDir := normalize3 (scale3 (xyz lightDirection) (F32.of_Z (-1))) in
  let view := lookAt (sub3 center (scale3 lightDir (F32.opp minZ))) center CameraController.UP in
  (view, mul G (ortho G minZ radius minZ radius F32.zero (F32.sub radius minZ)) view).

(** The body of the loop over the maps. *)
Definition update_cascade (splits : list f32) (lightDirection : vec4) (clipRange : f32) (w : mat G) (i : nat) (x : Cam * f32 * Shadow) :
    outcome (Cam * f32 * Shadow) :=
  let '(cam, lastSplit, r) := x in
  split ← vec_at splits i;
  let '(cam, corners) := Camera.getFrustum G (inverse G w) cam in
  corners ← foldM (cut lastSplit split) (seq 0 4) corners;
  let '(view, pv) := cascade_view lightDirection corners in
  d ← store i (F32.mul (F32.add (Camera.near_ G cam) (F32.mul split clipRange)) (F32.of_Z (-1))) (splitDepth r);
  v ← store i pv (projViews r);
  Ret (cam, split, with_cascades d v (if bool_decide (i = 0%nat) then view else lightViewMatrix r) r).

Definition updateCascades (cam : Cam) (w : mat G) (lightDirection : vec4) (r : Shadow) : outcome (Cam * Shadow) :=
  let near_ := Camera.near_ G cam in
  let clipRange := F32.sub (Camera.far_ G cam) near_ in
  let maxZ := F32.add near_ clipRange in
  let splits := cascade_split (cascadeSplitLambda r) near_ (F32.sub maxZ near_) (F32.div maxZ near_) near_ clipRange <$> seq 0 SHADOWMAP_MAX in
  '(cam, _, r) ← foldM (update_cascade splits lightDirection clipRange w) (seq 0 (numMaps r)) (cam, F32.zero, r);
  Ret (cam, r).

(** A renderer without a mesh is passed over. *)
Definition shadow_visit (q : nat) (i : nat) (x : list (list RenderCommand) * Scene) : outcome (list (list RenderCommand) * Scene) :=
  let '(queues, s) := x in
  '(s, m) ← get_mesh i s;
  match m with
  | None => Ret (queues, s)
  | Some _ =>
      '(s, w) ← world_at i s;
      '(s, m) ← get_mesh i s;
      l ← vec_at queues q;
      Ret (<[q := l ++ [mkCommand m None w]]> queues, s)
  end.
(** Every queue is filled with every renderer. *)
Definition fill_queues (n : nat) (s : Scene) : outcome (list (list RenderCommand) * Scene) :=
  foldM (fun q => foldM (shadow_visit q) (seq 0 (length (renderers s)))) (seq 0 n) (replicate n [], s).

(** The light is the last directional one of the group. *)
Definition last_light (t : Light.LightType) (lights : list Light.LightData) : option Light.LightData := last (filter (fun l => Light.is_type t l = true) lights).

Definition shadow_beginScene (lights : list Light.LightData) (camera : option Cam) (transform : option Transform) (r : Shadow) (s : Scene)
    : outcome (option Cam * option Transform * Shadow * Scene) :=
  match camera, transform, last_light Light.DirectionalLight lights with
  | Some cam, Some t, Some light =>
      let '(t, w) := Transform.getWorldMatrix TG t in
      '(cam, r) ← updateCascades cam w (Light.direction light) r;
      '(q, s) ← fill_queues SHADOWMAP_MAX s;
      Ret (Some cam, Some t, with_shadow_queues q true r, s)
  | _, _, _ => Ret (camera, transform, with_shadow_queues (cascadeCommandQueue r) false r, s)
  end.

Definition shadow_command (r : Shadow) (s : Scene) (c : RenderCommand) : outcome (list Cmd) :=
  b ← bind_mesh c s;
  p ← push (s_pushes r) (sizeof_mat4 + sizeof_ivec4) (mkPushed (cmd_transform c) (Cascade (cascadeIndex r)));
  d ← bindDescriptorSets 0 [Some (s_set r)];
  n ← draw_mesh c s;
  Ret (b ++ p ++ d ++ n).

(** [begin], [present] and [end] for a cascade. *)
Definition shadow_cascade (s : Scene) (i : nat) (x : Shadow * list Cmd) : outcome (Shadow * list Cmd) :=
  let '(r, cs) := x in
  let r := with_recorded (s_pass r) (Z.of_nat i) (s_uploaded r) r in
  fb ← vec_at (shadowFrameBuffers r) i;
  '(p, b) ← beginRenderPass zero4 fb (shadowMapSize r) (shadowMapSize r) (s_pass r);
  let r := with_recorded p (Z.of_nat i) (Some (projViews r)) r in
  q ← vec_at (cascadeCommandQueue r) i;
  c ← record_all (shadow_command r s) q;
  Ret (r, cs ++ b ++ [BindPipeline (s_pipeline r)] ++ c ++ [EndRenderPass]).
Definition shadow_renderScene (r : Shadow) (s : Scene) : outcome (Shadow * list Cmd) :=
  if hasLight r then foldM (shadow_cascade s) (seq 0 SHADOWMAP_MAX) (r, []) else Ret (r, []).

(** ** The shadows of a point light (OmniShadowRenderer.cpp) *)
Record Omni := mkOmni {
  m_pass : RenderPass; m_pipeline : N; m_set : DescriptorSet.DescriptorSet N; m_pushes : list Z;
  shadowFrameBuffer : option N; m_mapSize : Z;
  shadowCommandQueue : list (list RenderCommand);
  m_hasLight : bool; commandQueueId : Z;
  lightViews : list (mat G);
  omniProjView : mat G; lightPos : vec3; omniRadius : f32;
  m_uploaded : option (mat G * vec3 * f32)
}.
Definition with_point (p : mat G) (x : vec3) (radius : f32) (r : Omni) : Omni :=
  mkOmni (m_pass r) (m_pipeline r) (m_set r) (m_pushes r) (shadowFrameBuffer r) (m_mapSize r) (shadowCommandQueue r) (m_hasLight r)
    (commandQueueId r) (lightViews r) p x radius (m_uploaded r).
Definition with_omni_queues (q : list (list RenderCommand)) (l : bool) (v : list (mat G)) (r : Omni) : Omni :=
  mkOmni (m_pass r) (m_pipeline r) (m_set r) (m_pushes r) (shadowFrameBuffer r) (m_mapSize r) q l
    (commandQueueId r) v (omniProjView r) (lightPos r) (omniRadius r) (m_uploaded r).
Definition with_omni_recorded (p : RenderPass) (i : Z) (u : option (mat G * vec3 * f32)) (r : Omni) : Omni :=
  mkOmni p (m_pipeline r) (m_set r) (m_pushes r) (shadowFrameBuffer r) (m_mapSize r) (shadowCommandQueue r) (m_hasLight r)
    i (lightViews r) (omniProjView r) (lightPos r) (omniRadius r) u.

Definition point_projection (far : f32) : mat G := perspective G (radians G (F32.of_Z 90)) F32.one F32.one far.

(** A light of the group, with the world position of its transform. *)
Definition omni_light (x : Light.LightData * vec3) (acc : bool * Omni) : bool * Omni :=
  let '(l, position) := x in
  if Light.is_type Light.PointLight l
  then (true, with_point (point_projection (Light.radius l)) position (Light.radius l) (snd acc))
  else acc.

(** The direction and the upward vector of each face of a cube map. *)
Definition face (i : nat) : vec3 * vec3 :=
  let v x y z := mkVec3 (F32.of_Z x) (F32.of_Z y) (F32.of_Z z) in
  match i with
  | 0%nat => (v 1 0 0, v 0 (-1) 0)
  | 1%nat => (v (-1) 0 0, v 0 (-1) 0)
  | 2%nat => (v 0 1 0, v 0 0 1)
  | 3%nat => (v 0 (-1) 0, v 0 0 (-1))
  | 4%nat => (v 0 0 1, v 0 (-1) 0)
  | _ => (v 0 0 (-1), v 0 (-1) 0)
  end.
Definition face_view (position : vec3) (i : nat) : mat G := lookAt position (add3 position (fst (face i))) (snd (face i)).

(** The light found last is used, and its matrices are kept, whatever the camera. *)
Definition omni_beginScene (lights : list (Light.LightData * vec3)) (camera : option Cam) (transform : option Transform) (r : Omni) (s : Scene)
    : outcome (Omni * Scene) :=
  let '(found, r) := fold_left (fun acc x => omni_light x acc) lights (false, r) in
  match camera, transform, found with
  | Some _, Some _, true =>
      '(q, s) ← fill_queues 6 s;
      Ret (with_omni_queues q true (face_view (lightPos r) <$> seq 0 6) r, s)
  | _, _, _ => Ret (with_omni_queues (shadowCommandQueue r) false (lightViews r) r, s)
  end.

(** What is recorded: commands, and the copy of the frame buffer to a face. *)
Inductive OmniCmd := Recorded (c : Cmd) | CopyToFace (frame : option N) (i : Z).

Definition omni_command (r : Omni) (s : Scene) (c : RenderCommand) : outcome (list Cmd) :=
  b ← bind_mesh c s;
  v ← at_Z (lightViews r) (commandQueueId r);
  p ← push (m_pushes r) (sizeof_mat4 + sizeof_mat4) (mkPushed (cmd_transform c) (LightView v));
  d ← bindDescriptorSets 0 [Some (m_set r)];
  n ← draw_mesh c s;
  Ret (b ++ p ++ d ++ n).

(** [begin], [present] and [end] for a face. *)
Definition omni_face (s : Scene) (i : nat) (x : Omni * list OmniCmd) : outcome (Omni * list OmniCmd) :=
  let '(r, cs) := x in
  '(p, b) ← beginRenderPass (mkVec4 F32.zero F32.zero F32.zero F32.one) (shadowFrameBuffer r) (m_mapSize r) (m_mapSize r) (m_pass r);
  let r := with_omni_recorded p (Z.of_nat i) (Some (omniProjView r, lightPos r, omniRadius r)) r in
  q ← vec_at (shadowCommandQueue r) i;
  c ← record_all (omni_command r s) q;
  Ret (r, cs ++ (Recorded <$> b ++ [BindPipeline (m_pipeline r)] ++ c ++ [EndRenderPass]) ++ [CopyToFace (shadowFrameBuffer r) (Z.of_nat i)]).
Definition omni_renderScene (r : Omni) (s : Scene) : outcome (Omni * list OmniCmd) :=
  if m_hasLight r then foldM (omni_face s) (seq 0 6) (r, []) else Ret (r, []).
End Pass.
End MeshPass.

(** ** Properties *)
Module MeshPassProps.
Import MeshRenderer RenderPass MeshPass Material MaterialProps.

Section OffScreen.
Context (G : glm).
Abbreviation TG := (transform_glm G).
Abbreviation Scene := (MeshPass.Scene G).
Context (own inherited : entity -> option Model) (cosf sinf : f32 -> f32) (defaultTexture : N) (newBuffer : N -> N).
Implicit Types (s : Scene) (o : OffScreen G) (m : Material).

(** A set shows these textures, the default one where there is none. *)
Definition shows (set : DescriptorSet.DescriptorSet N) (ts : PBRMataterialTextures) : Prop :=
  forall k x, bindings ts !! k = Some x -> DescriptorSet.images set !! (Z.of_nat k, 0%nat) = Some (Some (default defaultTexture x)).

(** The material has no set for the pipeline, or says that its textures changed. *)
Definition outdated (p : N) m : Prop := getDescriptorSet p m = None \/ texturesUpdated m = true.

(** What [prepare] leaves of a material: nothing happens to one that is not
    outdated, whatever its set shows; else the set is written anew. *)
Definition tended (p : N) m m' : Prop :=
  m' = m \/ (outdated p m /\ pbrMaterialTextures m' = pbrMaterialTextures m /\ exists set, getDescriptorSet p m' = Some set /\ shows set (pbrMaterialTextures m)).

Lemma tended_trans p m1 m2 m3 : tended p m1 m2 -> tended p m2 m3 -> tended p m1 m3.
Proof.
  intros [-> |(O1 & T1 & S1)] [-> |(O2 & T2 & S2)]; [by left|by right|by right|]. right. split; [done|]. split; [congruence|].
  destruct S2 as (set & E & H). exists set. split; [done|]. by rewrite <- T1.
Qed.

Lemma prepare_ok p k s m : materials G s !! k = Some m -> sets_ok m -> exists m',
  prepare G defaultTexture newBuffer p k s = Ret (with_materials G (<[k := m']> (materials G s)) s)
  /\ sets_ok m' /\ ~ outdated p m' /\ tended p m m'.
Proof.
  intros Hm Hok. unfold prepare. rewrite Hm. cbn [deref]. rewrite bind_Ret.
  destruct (bool_decide (getDescriptorSet p m = None) || texturesUpdated m) eqn:E.
  - destruct (descriptor_set_made defaultTexture (newBuffer k) p m Hok) as (m' & set & b & -> & Hok' & Hset & Hi & _ & _ & _ & _ & _ & Ht & _).
    rewrite bind_Ret. exists (setTexturesUpdated false m'). split; [done|]. split; [exact Hok'|]. split.
    + intros [Hn|Hn]; [|done]. change (getDescriptorSet p m' = None) in Hn. congruence.
    + right. split; [|split; [exact Ht|by exists set]]. unfold outdated. destruct (texturesUpdated m); [by right|left]. rewrite orb_false_r in E. by apply bool_decide_eq_true in E.
  - apply orb_false_iff in E as [E1 E2]. apply bool_decide_eq_false_1 in E1. exists m.
    rewrite insert_id by done. split; [by destruct s|]. split_and!; [done| |by left]. intros [?|?]; congruence.
Qed.

(** *** The loop over the mesh renderers *)

(** What a frame finds of a renderer: its mesh, the material of the mesh, and the transform of its entity. *)
Record renderer_ok s (r : MeshRenderer) : Prop := mkRendererOk {
  mesh_there : exists h x, mesh r = Some h /\ meshes G s !! h = Some x /\ forall k, material x = Some k -> is_Some (materials G s !! k);
  transform_there : is_Some (transforms G s !! own_entity r)
}.
Record scene_ok s : Prop := mkSceneOk {
  renderers_ok : Forall (renderer_ok s) (renderers G s);
  materials_good : map_Forall (fun _ => sets_ok) (materials G s)
}.

(** The command a renderer stands for. *)
Definition command_of s (r : MeshRenderer) : option (RenderCommand G) :=
  h ← mesh r; x ← meshes G s !! h; t ← transforms G s !! own_entity r;
  Some (mkCommand G (Some h) (material x) (Transform.worldMatrix TG t)).

(** Scenes that differ in caches only. *)
Record like s s' : Prop := mkLike {
  like_renderers : renderers G s' = renderers G s;
  like_meshes : meshes G s' = meshes G s;
  like_worlds : forall e, Transform.worldMatrix TG <$> transforms G s' !! e = Transform.worldMatrix TG <$> transforms G s !! e;
  like_textures : forall k, pbrMaterialTextures <$> materials G s' !! k = pbrMaterialTextures <$> materials G s !! k
}.

Lemma like_self s : like s s.
Proof. by split. Qed.

Lemma like_command s s' r : like s s' -> command_of s' r = command_of s r.
Proof.
  intros [Hr Hm Hw _]. unfold command_of. destruct (mesh r) as [h|]; [|done]. cbn. rewrite Hm. destruct (meshes G s !! h) as [x|]; [|done]. cbn.
  specialize (Hw (own_entity r)). destruct (transforms G s' !! own_entity r), (transforms G s !! own_entity r); cbn in *; congruence.
Qed.

Lemma fmap_is_Some {A B} (f : A -> B) (x y : option A) : f <$> x = f <$> y -> is_Some y -> is_Some x.
Proof. intros E [a ->]. destruct x; [done|discriminate]. Qed.

Lemma like_ok s s' r : like s s' -> renderer_ok s r -> renderer_ok s' r.
Proof.
  intros [Hr Hm Hw Ht] [(h & x & Hh & Hx & Hk) Htr]. split.
  - exists h, x. rewrite Hm. split_and!; [done|done|]. intros k Ek. eapply fmap_is_Some; [apply Ht|by apply Hk].
  - eapply fmap_is_Some; [apply Hw|done].
Qed.

(** After [i] renderers. *)
Record stage (p : N) o s (i : nat) (x : OffScreen G * Scene) : Prop := mkStage {
  stage_queue : Forall2 (fun r c => command_of s r = Some c) (take i (renderers G s)) (commandQueue G (fst x));
  stage_rest : fst x = with_queue G (commandQueue G (fst x)) (projView G o) o;
  stage_like : like s (snd x);
  stage_good : map_Forall (fun _ => sets_ok) (materials G (snd x));
  stage_tended : map_Forall (fun k m' => exists m, materials G s !! k = Some m /\ tended p m m') (materials G (snd x));
  stage_current : Forall (fun c => forall k, cmd_material G c = Some k -> exists m, materials G (snd x) !! k = Some m /\ ~ outdated p m) (commandQueue G (fst x))
}.

Lemma get_mesh_there s i r h : renderers G s !! i = Some r -> mesh r = Some h -> get_mesh G own inherited cosf sinf i s = Ret (s, Some h).
Proof.
  intros Hi Hh. unfold get_mesh, vec_at. rewrite Hi, bind_Ret. unfold getMesh. rewrite Hh, bind_Ret, Hh, list_insert_id by done. by destruct s.
Qed.

Lemma world_at_there s i r t : renderers G s !! i = Some r -> transforms G s !! own_entity r = Some t -> exists s',
  world_at G i s = Ret (s', Transform.worldMatrix TG t) /\ like s s' /\ materials G s' = materials G s.
Proof.
  intros Hi Ht. unfold world_at, vec_at. rewrite Hi, bind_Ret, Ht. cbn [deref]. rewrite bind_Ret. unfold Transform.getWorldMatrix.
  assert (Transform.worldMatrix TG (Transform.refresh TG t) = Transform.worldMatrix TG t) as Hw by (unfold Transform.refresh; by destruct (Transform.dirty TG t)).
  rewrite Hw. eexists. split; [reflexivity|]. split; [|done]. split; cbn; [done|done| |done].
  intros e. destruct (decide (e = own_entity r)) as [->|Hne]; [|by rewrite lookup_insert_ne]. rewrite lookup_insert_eq, Ht. cbn. by f_equal.
Qed.

Lemma like_trans s1 s2 s3 : like s1 s2 -> like s2 s3 -> like s1 s3.
Proof. intros [A1 B1 C1 D1] [A2 B2 C2 D2]. split; congruence. Qed.

Lemma prepare_like p k s m : materials G s !! k = Some m -> map_Forall (fun _ => sets_ok) (materials G s) -> exists s',
  prepare G defaultTexture newBuffer p k s = Ret s' /\ like s s' /\ map_Forall (fun _ => sets_ok) (materials G s')
  /\ map_Forall (fun k m' => exists m, materials G s !! k = Some m /\ tended p m m') (materials G s')
  /\ (exists m', materials G s' !! k = Some m' /\ ~ outdated p m')
  /\ (forall k' m', materials G s !! k' = Some m' -> ~ outdated p m' -> exists m', materials G s' !! k' = Some m' /\ ~ outdated p m').
Proof.
  intros Hm Hg. destruct (prepare_ok p k s m Hm (Hg _ _ Hm)) as (m' & E & Hg' & Hc & Ht). eexists. split; [exact E|]. split_and!.
  - split; cbn; [done|done|done|]. intros k'. destruct (decide (k' = k)) as [->|Hne]; [|by rewrite lookup_insert_ne]. rewrite lookup_insert_eq, Hm. cbn. f_equal.
    by destruct Ht as [->|(_ & -> & _)].
  - cbn. by apply map_Forall_insert_2.
  - cbn. intros k' x Hk. destruct (decide (k' = k)) as [->|Hne]; [rewrite lookup_insert_eq in Hk; injection Hk as <-; by exists m|].
    rewrite lookup_insert_ne in Hk by done. exists x. split; [done|by left].
  - cbn. exists m'. by rewrite lookup_insert_eq.
  - intros k' x Hk Hx. cbn. destruct (decide (k' = k)) as [->|Hne]; [exists m'; by rewrite lookup_insert_eq|]. exists x. by rewrite lookup_insert_ne.
Qed.

Lemma visit_step o s i x : Forall (renderer_ok s) (renderers G s) -> (i < length (renderers G s))%nat -> stage (o_pipeline G o) o s i x ->
  exists x', visit G own inherited cosf sinf defaultTexture newBuffer i x = Ret x' /\ stage (o_pipeline G o) o s (S i) x'.
Proof.
  destruct x as [o1 s1]. intros Hall Hi [Hq Hrest Hlike Hgood Htend Hcur]. cbn [fst snd] in *.
  destruct (lookup_lt_is_Some_2 _ _ Hi) as [r Hr]. assert (renderer_ok s1 r) as [(h & sm & Hh & Hx & Hk) _].
  { eapply like_ok; [done|]. by eapply Forall_lookup_1. }
  assert (renderers G s1 !! i = Some r) as Hr1 by (by rewrite (like_renderers _ _ Hlike)).
  unfold visit. rewrite (get_mesh_there _ _ _ _ Hr1 Hh), bind_Ret. cbn [deref]. rewrite bind_Ret, Hx. cbn [deref]. rewrite bind_Ret.
  assert (exists s2, (match material sm with Some k => prepare G defaultTexture newBuffer (o_pipeline G o1) k s1 | None => Ret s1 end) = Ret s2
    /\ like s1 s2 /\ map_Forall (fun _ => sets_ok) (materials G s2)
    /\ map_Forall (fun k m' => exists m, materials G s1 !! k = Some m /\ tended (o_pipeline G o) m m') (materials G s2)
    /\ (forall k, material sm = Some k -> exists m, materials G s2 !! k = Some m /\ ~ outdated (o_pipeline G o) m)
    /\ (forall k' m', materials G s1 !! k' = Some m' -> ~ outdated (o_pipeline G o) m' -> exists m', materials G s2 !! k' = Some m' /\ ~ outdated (o_pipeline G o) m'))
    as (s2 & -> & Hl2 & Hg2 & Ht2 & Hc2 & Hp2).
  { destruct (material sm) as [k|]; [|exists s1; split_and!; [done|apply like_self|done|by intros k m Ek; exists m; split; [|left]|done|by eauto]].
    destruct (Hk k eq_refl) as [m Hm]. replace (o_pipeline G o1) with (o_pipeline G o) by (by rewrite Hrest).
    destruct (prepare_like (o_pipeline G o) k s1 m Hm Hgood) as (s2 & E & Hl & Hg & Htt & Hc & Hp). exists s2. split_and!; [done|done|done|done| |done].
    intros k' [= <-]. exact Hc. }
  assert (renderers G s2 !! i = Some r) as Hr2 by (by rewrite (like_renderers _ _ Hl2)).
  rewrite bind_Ret, (get_mesh_there _ _ _ _ Hr2 Hh), bind_Ret.
  assert (renderer_ok s2 r) as [_ [t Ht]] by (eapply like_ok; [exact (like_trans _ _ _ Hlike Hl2)|by eapply Forall_lookup_1]).
  destruct (world_at_there s2 i r t Hr2 Ht) as (s3 & -> & Hl3 & Hm3). rewrite bind_Ret. eexists. split; [reflexivity|].
  assert (command_of s r = Some (mkCommand G (Some h) (material sm) (Transform.worldMatrix TG t))) as Hcmd.
  { rewrite <- (like_command s s2) by (by eapply like_trans). unfold command_of. rewrite Hh. cbn. by rewrite (like_meshes _ _ Hl2), Hx, Ht. }
  split; cbn [fst snd submit with_queue commandQueue].
  - erewrite take_S_r by done. apply Forall2_app; [done|by constructor].
  - by rewrite Hrest.
  - eapply like_trans; [exact Hlike|]. by eapply like_trans.
  - by rewrite Hm3.
  - rewrite Hm3. intros k m' Ek. destruct (Ht2 k m' Ek) as (m1 & E1 & T1). destruct (Htend k m1 E1) as (m0 & E0 & T0). exists m0. split; [done|by eapply tended_trans].
  - rewrite Hm3. apply Forall_app. split; [|by repeat constructor]. eapply Forall_impl; [exact Hcur|]. intros c Hc k Ek. destruct (Hc k Ek) as (m & Em & Hm). by eapply Hp2.
Qed.

(** The queue after [beginScene]. *)
Lemma queue_made cam t omni o s : scene_ok s -> omniIndex G o = -1 -> exists o' s',
  beginScene G own inherited cosf sinf defaultTexture newBuffer (Some cam) (Some t) omni o s = Ret (Some (Camera.clean G cam), Some (Transform.refresh TG t), o', s')
  /\ projView G o' = mul G (Camera.projMatrix G (Camera.clean G cam)) (inverse G (Transform.worldMatrix TG t))
  /\ o' = with_queue G (commandQueue G o') (projView G o') o
  /\ Forall2 (fun r c => command_of s r = Some c) (renderers G s) (commandQueue G o')
  /\ like s s' /\ scene_ok s'
  /\ Forall (fun c => forall k, cmd_material G c = Some k -> exists m' m, materials G s' !! k = Some m' /\ materials G s !! k = Some m
       /\ tended (o_pipeline G o) m m' /\ ~ outdated (o_pipeline G o) m') (commandQueue G o').
Proof.
  intros [Hr Hg] Homni. unfold beginScene. cbn [deref]. rewrite bind_Ret. unfold Transform.getWorldMatrix, Camera.getProjectionMatrix.
  cbn [omniIndex with_queue]. rewrite Homni. cbn [Z.eqb Pos.eqb]. rewrite bind_Ret.
  assert (Transform.worldMatrix TG (Transform.refresh TG t) = Transform.worldMatrix TG t) as -> by (unfold Transform.refresh; by destruct (Transform.dirty TG t)).
  set (o1 := with_queue G [] (mul G (Camera.projMatrix G (Camera.clean G cam)) (inverse G (Transform.worldMatrix TG t))) o).
  destruct (foldM_seq (stage (o_pipeline G o) o1 s) (visit G own inherited cosf sinf defaultTexture newBuffer) (length (renderers G s)) (o1, s))
    as ([o' s'] & E & [Hq Hrest Hlike Hgood Htend Hcur]).
  - split; cbn; [by constructor|done|apply like_self|done|by intros k m Ek; exists m; split; [|left]|constructor].
  - intros i x Hi Hst. exact (visit_step o1 s i x Hr Hi Hst).
  - cbn [fst snd] in *. change (with_queue G [] _ (with_queue G [] (projView G o) o)) with o1. rewrite E, bind_Ret. exists o', s'. split; [reflexivity|]. rewrite firstn_all in Hq.
    split_and!; [by rewrite Hrest|by rewrite Hrest|done|done| |].
    2:{ eapply Forall_impl; [exact Hcur|]. intros c H k Ek. destruct (H k Ek) as (m' & Em & Hm). destruct (Htend k m' Em) as (m & Em0 & Ht). by exists m', m. }
    split; [|done]. rewrite (like_renderers _ _ Hlike). eapply Forall_impl; [exact Hr|]. intros r Hro. by eapply like_ok.
Qed.

(** *** Recording *)
Lemma record_all_ok {A} (f : A -> outcome (list (Command (option (Pushed G))))) g l :
  Forall (fun a => f a = Ret (g a)) l -> record_all G f l = Ret (l ≫= g).
Proof.
  intros H. unfold record_all. assert (forall acc, foldM (fun a cs => c ← f a; Ret (cs ++ c)) l acc = Ret (acc ++ (l ≫= g))) as Hacc; [|apply Hacc].
  induction H as [|a l Ha _ IH]; intros acc; cbn; [by rewrite app_nil_r|]. rewrite Ha. cbn. by rewrite IH, <- app_assoc.
Qed.

Definition dynamic_count (sets : list (DescriptorSet.DescriptorSet N)) : Z := Z.of_nat (length (filter (fun x => DescriptorSet.dynamic x = true) sets)).
Lemma bind_two {P} (a : DescriptorSet.DescriptorSet N) b :
  bindDescriptorSets (P := P) 0 [Some a; b] = Ret [BindDescriptorSets (a :: option_list b) (dynamic_count (a :: option_list b)) 0].
Proof.
  unfold bindDescriptorSets, dynamic_count. cbn [foldM collect fst snd length Nat.ltb Nat.leb]. rewrite bind_Ret.
  destruct b as [b|]; cbn -[filter]; rewrite ?filter_cons, filter_nil; destruct (DescriptorSet.dynamic a); try destruct (DescriptorSet.dynamic b); done.
Qed.

Lemma push_ok (sizes : list Z) z n (d : Pushed G) : sizes !! 0%nat = Some z -> n <= z ->
  push G sizes n d = Ret (PushConstants (Some d) :: replicate (length sizes - 1) (PushConstants None)).
Proof. intros Hz Hn. unfold push, vec_at. rewrite Hz, bind_Ret. by rewrite (proj2 (Z.leb_le _ _)). Qed.

(** The set a command is drawn with, and what is recorded for it. *)
Definition set_of o s (c : RenderCommand G) : option (DescriptorSet.DescriptorSet N) :=
  match cmd_material G c with
  | Some k => materials G s !! k ≫= getDescriptorSet (o_pipeline G o)
  | None => getDescriptorSet (o_pipeline G o) (defaultMaterial G o)
  end.
Definition drawn o s (c : RenderCommand G) : list (Command (option (Pushed G))) :=
  PushConstants (Some (mkPushed G (cmd_transform G c) (NoTail G))) :: replicate (length (o_pushes G o) - 1) (PushConstants None) ++
  match cmd_mesh G c ≫= (fun h => pair h <$> meshes G s !! h) with
  | Some (h, x) =>
      [BindVertexBuffer h; BindIndexBuffer h;
       BindDescriptorSets (o_set G o :: option_list (set_of o s c)) (dynamic_count (o_set G o :: option_list (set_of o s c))) 0;
       DrawIndexed (index_count x)]
  | None => []
  end.

Lemma present_ok o s r c z : o_pushes G o !! 0%nat = Some z -> sizeof_mat4 <= z -> command_of s r = Some c ->
  (forall k, cmd_material G c = Some k -> is_Some (materials G s !! k)) -> present_command G o s c = Ret (drawn o s c).
Proof.
  intros Hz Hn Hc Hm. unfold command_of in Hc. destruct (mesh r) as [h|]; [|done]. cbn in Hc. destruct (meshes G s !! h) as [x|] eqn:Hx; [|done]. cbn in Hc.
  destruct (transforms G s !! own_entity r) as [t|]; [|done]. injection Hc as <-. cbn in Hm. unfold present_command. cbn [cmd_material cmd_transform].
  assert ((match material x with Some k => m ← deref (materials G s !! k); Ret (getDescriptorSet (o_pipeline G o) m)
    | None => Ret (getDescriptorSet (o_pipeline G o) (defaultMaterial G o)) end)
    = Ret (set_of o s (mkCommand G (Some h) (material x) (Transform.worldMatrix TG t)))) as ->.
  { unfold set_of. cbn. destruct (material x) as [k|]; [|done]. destruct (Hm k eq_refl) as [m ->]. done. }
  rewrite bind_Ret, (push_ok _ _ _ _ Hz Hn), bind_Ret. unfold bind_mesh, draw_mesh. cbn [cmd_mesh deref]. rewrite !bind_Ret, Hx. cbn [deref]. rewrite !bind_Ret.
  rewrite bind_two, bind_Ret. unfold drawn. cbn. rewrite Hx. cbn. done.
Qed.

(** What [renderScene] records for a queue made by [beginScene], and what it uploads. *)
Lemma offscreen_rendered o o' s s' z fb p b : o' = with_queue G (commandQueue G o') (projView G o') o ->
  Forall2 (fun r c => command_of s' r = Some c) (renderers G s) (commandQueue G o') ->
  Forall (fun c => forall k, cmd_material G c = Some k -> is_Some (materials G s' !! k)) (commandQueue G o') ->
  o_pushes G o !! 0%nat = Some z -> sizeof_mat4 <= z -> o_frames G o !! 0%nat = Some fb ->
  beginRenderPass grey (Some fb) (fst (o_size G o)) (snd (o_size G o)) (o_pass G o) = Ret (p, b) -> exists o'',
  renderScene G o' s' = Ret (o'', b ++ [BindPipeline (o_pipeline G o)] ++ (commandQueue G o' ≫= drawn o' s') ++ [EndRenderPass])
  /\ o'' = mkOffScreen G p (o_pipeline G o) (o_set G o) (o_pushes G o) (o_frames G o) (o_size G o) (defaultMaterial G o) (commandQueue G o') (projView G o')
       (Some (projView G o')) (omniIndex G o).
Proof.
  intros Ho Hq Hc Hz Hn Hfb Hb. unfold renderScene.
  replace (o_frames G o') with (o_frames G o) by (by rewrite Ho). unfold vec_at. rewrite Hfb, bind_Ret.
  replace (o_size G o') with (o_size G o) by (by rewrite Ho). replace (o_pass G o') with (o_pass G o) by (by rewrite Ho). rewrite Hb, bind_Ret.
  replace (o_pipeline G o') with (o_pipeline G o) by (by rewrite Ho).
  rewrite (record_all_ok _ (drawn o' s')), bind_Ret; [eexists; split; [reflexivity|by rewrite Ho]|]. cbn [commandQueue].
  apply Forall_forall. intros c Hin. apply list_elem_of_lookup in Hin as [i Hi]. destruct (Forall2_lookup_r _ _ _ _ _ Hq Hi) as (r & _ & Hr).
  rewrite <- (present_ok o' s' r c z) by (try (by rewrite Ho); try done; intros k Ek; exact (Forall_lookup_1 _ _ _ _ Hc Hi k Ek)).
  unfold present_command. cbn. by rewrite Ho.
Qed.

(** C25. A frame of the geometry pass.  In a scene where every mesh renderer has its
    mesh, beginning the scene and rendering it records, between the start and the
    end of the pass, one draw for each mesh renderer, in the order of the group,
    with its mesh, the world matrix of its entity, the set of the pipeline, and
    the set of the material of the mesh; the product of projection and view is
    uploaded before.  If the material had no set for the pipeline, or said that its
    textures changed, that set is written in this frame and shows the textures the
    material has, the default one where it has none; otherwise the material is left
    as it is and drawn with the set it has, whatever was written there: a material
    given other textures without saying so keeps the old ones on the screen.  No
    material drawn is outdated afterwards.  The scene differs afterwards only in
    the sets of its materials and in the caches of its transforms, and is ready for
    another frame. *)
Theorem offscreen_draws_scene cam t omni o s z fb p b : scene_ok s -> omniIndex G o = -1 ->
  o_pushes G o !! 0%nat = Some z -> sizeof_mat4 <= z -> o_frames G o !! 0%nat = Some fb ->
  beginRenderPass grey (Some fb) (fst (o_size G o)) (snd (o_size G o)) (o_pass G o) = Ret (p, b) ->
  exists cam' t' o' s' o'',
    beginScene G own inherited cosf sinf defaultTexture newBuffer (Some cam) (Some t) omni o s = Ret (Some cam', Some t', o', s')
    /\ renderScene G o' s' = Ret (o'', b ++ [BindPipeline (o_pipeline G o)] ++ (commandQueue G o' ≫= drawn o' s') ++ [EndRenderPass])
    /\ o_uploaded G o'' = Some (mul G (Camera.projMatrix G (Camera.clean G cam)) (inverse G (Transform.worldMatrix TG t)))
    /\ Forall2 (fun r c => command_of s r = Some c) (renderers G s) (commandQueue G o')
    /\ Forall (fun c => forall k, cmd_material G c = Some k -> exists m m' set, materials G s !! k = Some m /\ materials G s' !! k = Some m'
         /\ set_of o' s' c = Some set /\ pbrMaterialTextures m' = pbrMaterialTextures m /\ ~ outdated (o_pipeline G o) m'
         /\ (outdated (o_pipeline G o) m -> shows set (pbrMaterialTextures m))
         /\ (~ outdated (o_pipeline G o) m -> m' = m /\ getDescriptorSet (o_pipeline G o) m = Some set))
       (commandQueue G o')
    /\ like s s' /\ scene_ok s'.
Proof.
  intros Hs Homni Hz Hn Hfb Hb. destruct (queue_made cam t omni o s Hs Homni) as (o' & s' & E & Hpv & Ho & Hq & Hl & Hs' & Hc).
  assert (forall r c, command_of s r = Some c -> command_of s' r = Some c) as Hcmd by (intros r c; by rewrite (like_command s s')).
  destruct (offscreen_rendered o o' s s' z fb p b Ho) as (o'' & R & U);
    [by eapply Forall2_impl|eapply Forall_impl; [exact Hc|]; intros c H k Ek; destruct (H k Ek) as (m & m0 & -> & _); done|done|done|done|done|].
  eexists _, _, o', s', o''. split; [exact E|]. split; [exact R|].
  split; [by rewrite U, <- Hpv|]. split; [done|]. split; [|done]. eapply Forall_impl; [exact Hc|]. intros c H k Ek.
  destruct (H k Ek) as (m' & m & Hm' & Hm & Ht & Hout).
  destruct (getDescriptorSet (o_pipeline G o) m') as [set|] eqn:Hset; [|by destruct Hout; left]. exists m, m', set. split_and!; [done|done| | |done| |].
  - unfold set_of. rewrite Ek, Hm'. cbn. by rewrite Ho.
  - by destruct Ht as [-> |(_ & -> & _)].
  - intros Ho0. destruct Ht as [-> |(_ & _ & set' & Hset' & Hsh)]; [by destruct Hout|]. by replace set with set' by congruence.
  - intros Ho0. destruct Ht as [-> |(Ho1 & _)]; [by split|by destruct Ho0].
Qed.
End OffScreen.
(** *** Shadows *)
Section Shadows.
Context (G : glm).
Abbreviation TG := (transform_glm G).
Abbreviation Scene := (MeshPass.Scene G).
Context (own inherited : entity -> option Model) (cosf sinf : f32 -> f32).
Context (pow : f32 -> f32 -> f32) (ceil : f32 -> f32) (lookAt : vec3 -> vec3 -> vec3 -> mat G).
Implicit Types (s : Scene) (r : MeshRenderer).
Abbreviation like := (like G).

(** Asking for the mesh changes nothing: it is loaded, or stays null. *)
Record settled s r : Prop := mkSettled {
  asked : MeshRenderer.getMesh own inherited cosf sinf r (meshes G s) = Ret (meshes G s, r);
  mesh_known : forall h, mesh r = Some h -> is_Some (meshes G s !! h);
  placed : is_Some (transforms G s !! own_entity r)
}.
Lemma like_settled s s' r : like s s' -> settled s r -> settled s' r.
Proof. intros [_ Hm Hw _] [Ha Hk Hp]. split; rewrite ?Hm; [done|done|]. by eapply fmap_is_Some; [apply Hw|]. Qed.

(** What a renderer adds to a queue of shadows. *)
Definition caster s r : option (RenderCommand G) :=
  h ← mesh r; t ← transforms G s !! own_entity r; Some (mkCommand G (Some h) None (Transform.worldMatrix TG t)).
Lemma like_caster s s' r : like s s' -> caster s' r = caster s r.
Proof.
  intros [_ _ Hw _]. unfold caster. destruct (mesh r); [|done]. cbn. specialize (Hw (own_entity r)).
  destruct (transforms G s' !! own_entity r), (transforms G s !! own_entity r); cbn in *; congruence.
Qed.

Lemma get_mesh_settled s i r : renderers G s !! i = Some r -> settled s r -> get_mesh G own inherited cosf sinf i s = Ret (s, mesh r).
Proof.
  intros Hi [Ha _ _]. unfold get_mesh, vec_at. rewrite Hi, bind_Ret, Ha, bind_Ret, list_insert_id by done. by destruct s.
Qed.

(** The passes of shadows leave the materials alone. *)
Definition kept s s' : Prop := like s s' /\ materials G s' = materials G s.
Lemma kept_self s : kept s s.
Proof. split; [apply like_self|done]. Qed.

(** A renderer. *)
Lemma shadow_visit_step s s' q i r queues l : renderers G s !! i = Some r -> settled s r -> kept s s' -> queues !! q = Some l -> exists s'',
  shadow_visit G own inherited cosf sinf q i (queues, s') = Ret (<[q := l ++ option_list (caster s r)]> queues, s'') /\ kept s s''.
Proof.
  intros Hr Hs [Hl Hmat] Hq. assert (renderers G s' !! i = Some r) as Hr1 by (by rewrite (like_renderers _ _ _ Hl)).
  pose proof (like_settled _ _ r Hl Hs) as Hs1. unfold shadow_visit. rewrite (get_mesh_settled _ _ _ Hr1 Hs1), bind_Ret.
  rewrite <- (like_caster s s') by done. unfold caster. destruct (mesh r) as [h|] eqn:Eh; cbn [mbind option_bind].
  - destruct (placed _ _ Hs1) as [t Ht]. destruct (world_at_there G s' i r t Hr1 Ht) as (s2 & -> & Hl2 & Hm2). rewrite bind_Ret.
    rewrite (get_mesh_settled s2 i r), bind_Ret; [|by rewrite (like_renderers _ _ _ Hl2)|by eapply like_settled].
    unfold vec_at. rewrite Hq, bind_Ret, Ht, Eh. cbn. eexists. split; [done|]. split; [by eapply like_trans|congruence].
  - cbn. exists s'. rewrite app_nil_r, list_insert_id by done. done.
Qed.

(** Every queue holds the renderers with a mesh, in the order of the group. *)
Lemma queues_filled n s : Forall (settled s) (renderers G s) -> exists s',
  fill_queues G own inherited cosf sinf n s = Ret (replicate n (omap (caster s) (renderers G s)), s') /\ kept s s'.
Proof.
  intros Hall. set (full := omap (caster s) (renderers G s)). unfold fill_queues.
  destruct (foldM_seq (fun i x => fst x = replicate i full ++ replicate (n - i) [] /\ kept s (snd x))
    (fun q => foldM (shadow_visit G own inherited cosf sinf q) (seq 0 (length (renderers G s)))) n (replicate n [], s)) as ([q' s'] & E & Hq & Hl).
  - cbn. rewrite Nat.sub_0_r. split; [done|apply kept_self].
  - intros q [queues s1] Hi [Hq Hl]. cbn [fst snd] in *. subst queues.
    set (qs := replicate q full ++ replicate (n - q) []). assert (qs !! q = Some []) as Hqq.
    { unfold qs. rewrite lookup_app_r by (rewrite length_replicate; lia). rewrite length_replicate, Nat.sub_diag. apply lookup_replicate_2. lia. }
    replace (length (renderers G s)) with (length (renderers G s1)) by (by rewrite (like_renderers _ _ _ (proj1 Hl))).
    destruct (foldM_seq (fun i x => fst x = <[q := omap (caster s) (take i (renderers G s))]> qs /\ kept s (snd x))
      (shadow_visit G own inherited cosf sinf q) (length (renderers G s1)) (qs, s1)) as ([q2 s2] & E2 & Hq2 & Hl2).
    + cbn. by rewrite list_insert_id.
    + intros i [queues s3] Hi3 [Hq3 Hl3]. cbn [fst snd] in *. subst queues. rewrite (like_renderers _ _ _ (proj1 Hl)) in Hi3.
      destruct (lookup_lt_is_Some_2 _ _ Hi3) as [r Hr].
      destruct (shadow_visit_step s s3 q i r (<[q := omap (caster s) (take i (renderers G s))]> qs) (omap (caster s) (take i (renderers G s))) Hr)
        as (s4 & -> & Hl4); [by eapply Forall_lookup_1|done|apply list_lookup_insert_eq; by eapply lookup_lt_Some|].
      eexists. split; [reflexivity|]. cbn [fst snd]. split; [|done]. rewrite list_insert_insert_eq. f_equal.
      erewrite take_S_r by done. rewrite omap_app. cbn. by destruct (caster s r).
    + eexists. split; [exact E2|]. cbn [fst snd] in *. split; [|done]. rewrite Hq2, (like_renderers _ _ _ (proj1 Hl)), firstn_all. unfold qs. fold full.
      replace (n - q)%nat with (S (n - S q)) by lia. cbn [replicate]. rewrite insert_app_r_alt by (rewrite length_replicate; lia).
      rewrite length_replicate, Nat.sub_diag. cbn [insert list_insert]. by rewrite replicate_cons_app, <- app_assoc.
  - rewrite E. cbn [fst snd] in *. rewrite Hq, Nat.sub_diag, app_nil_r. by exists s'.
Qed.
Lemma scene_settled s s' : like s s' -> Forall (settled s) (renderers G s) ->
  Forall (settled s') (renderers G s') /\ omap (caster s') (renderers G s') = omap (caster s) (renderers G s).
Proof.
  intros Hl Hall. rewrite (like_renderers _ _ _ Hl). split; [eapply Forall_impl; [exact Hall|]; intros r; by apply like_settled|].
  apply list_omap_ext, Forall_Forall2_diag, Forall_forall. intros r _. by apply like_caster.
Qed.

(** *** Cascades *)

(** The corners of the frustum between two depths, of the eight of the frustum. *)
Definition sliced (lo hi : f32) (c : list vec3) : list vec3 :=
  zip_with (fun a b => add3 a (scale3 (sub3 b a) lo)) (take 4 c) (drop 4 c) ++ zip_with (fun a b => add3 a (scale3 (sub3 b a) hi)) (take 4 c) (drop 4 c).
Lemma cut_all lo hi c : length c = 8%nat -> foldM (cut lo hi) (seq 0 4) c = Ret (sliced lo hi c).
Proof. intros H. do 8 (destruct c as [|? c]; [done|]). destruct c; [done|discriminate]. Qed.

Lemma corners_eight m : length (Camera.frustum_of G m) = 8%nat.
Proof. done. Qed.

Lemma store_ok {A} i (a : A) l : (i < length l)%nat -> store i a l = Ret (<[i := a]> l).
Proof. intros H. unfold store. by rewrite (proj2 (Nat.ltb_lt _ _)). Qed.

(** The depths of a camera, where a cascade starts and ends, and its matrices. *)
Definition splits_of (lambda : f32) (cam : Camera.Camera G) : list f32 :=
  let near_ := Camera.near_ G cam in let clipRange := F32.sub (Camera.far_ G cam) near_ in let maxZ := F32.add near_ clipRange in
  cascade_split pow lambda near_ (F32.sub maxZ near_) (F32.div maxZ near_) near_ clipRange <$> seq 0 SHADOWMAP_MAX.
Definition starts (splits : list f32) (i : nat) : f32 := match i with O => F32.zero | S i => default F32.zero (splits !! i) end.
Definition ends (splits : list f32) (i : nat) : f32 := default F32.zero (splits !! i).
Definition cascade_of (lambda : f32) (cam : Camera.Camera G) (w : mat G) (direction : vec4) (i : nat) : mat G * mat G :=
  let splits := splits_of lambda cam in
  cascade_view G ceil lookAt direction (sliced (starts splits i) (ends splits i)
    (Camera.frustum_of G (mul G (Camera.projMatrix G (Camera.clean G cam)) (inverse G w)))).
Definition depth_of (lambda : f32) (cam : Camera.Camera G) (i : nat) : f32 :=
  F32.mul (F32.add (Camera.near_ G cam) (F32.mul (ends (splits_of lambda cam) i) (F32.sub (Camera.far_ G cam) (Camera.near_ G cam)))) (F32.of_Z (-1)).

(** A camera that differs in caches only. *)
Definition same_view (c c' : Camera.Camera G) : Prop :=
  Camera.projMatrix G (Camera.clean G c') = Camera.projMatrix G (Camera.clean G c) /\ Camera.near_ G c' = Camera.near_ G c /\ Camera.far_ G c' = Camera.far_ G c.
Lemma frustum_same c c' m : same_view c c' -> same_view c (Camera.with_frustum G m (Camera.clean G c')).
Proof.
  intros (Hp & Hn & Hf). unfold same_view, Camera.clean in *. destruct (Camera.projectionDirty G c') eqn:E; cbn [Camera.projectionDirty Camera.with_projection Camera.with_frustum].
  - by cbn in *.
  - rewrite E. by cbn in *.
Qed.

(** The cascades after [updateCascades], and all that changes. *)
Lemma cascades_updated cam w direction (r : Shadow G) : (numMaps G r <= SHADOWMAP_MAX)%nat ->
  length (splitDepth G r) = SHADOWMAP_MAX -> length (projViews G r) = SHADOWMAP_MAX -> exists cam' d v m,
  updateCascades G pow ceil lookAt cam w direction r = Ret (cam', with_cascades G d v m r) /\ same_view cam cam'
  /\ length d = SHADOWMAP_MAX /\ length v = SHADOWMAP_MAX
  /\ (forall i, (i < numMaps G r)%nat -> d !! i = Some (depth_of (cascadeSplitLambda G r) cam i)
       /\ v !! i = Some (snd (cascade_of (cascadeSplitLambda G r) cam w direction i)))
  /\ ((0 < numMaps G r)%nat -> m = fst (cascade_of (cascadeSplitLambda G r) cam w direction 0)).
Proof.
  intros Hn Hd Hv. unfold updateCascades. set (sp := splits_of (cascadeSplitLambda G r) cam). change (cascade_split _ _ _ _ _ _ _ <$> _) with sp.
  assert (length sp = SHADOWMAP_MAX) as Hsp by done.
  destruct (foldM_seq (fun i x => same_view cam (fst (fst x)) /\ snd (fst x) = starts sp i /\ exists d v m, snd x = with_cascades G d v m r
      /\ length d = SHADOWMAP_MAX /\ length v = SHADOWMAP_MAX
      /\ (forall j, (j < i)%nat -> d !! j = Some (depth_of (cascadeSplitLambda G r) cam j) /\ v !! j = Some (snd (cascade_of (cascadeSplitLambda G r) cam w direction j)))
      /\ ((0 < i)%nat -> m = fst (cascade_of (cascadeSplitLambda G r) cam w direction 0)))
    (update_cascade G ceil lookAt sp direction (F32.sub (Camera.far_ G cam) (Camera.near_ G cam)) w) (numMaps G r) (cam, F32.zero, r)) as ([[cam' l] r'] & E & Hc & _ & d & v & m & Hr & H1 & H2 & H3 & H4).
  - split; [done|]. split; [done|]. exists (splitDepth G r), (projViews G r), (lightViewMatrix G r). split_and!; [by destruct r|done|done|lia|lia].
  - intros i [[c l] r1] Hi (Hc & Hl & d & v & m & Hr & H1 & H2 & H3 & H4). cbn [fst snd] in *. subst r1 l. unfold update_cascade.
    destruct (lookup_lt_is_Some_2 sp i) as [hi Hhi]; [unfold SHADOWMAP_MAX in *; lia|]. unfold vec_at. rewrite Hhi, bind_Ret. unfold Camera.getFrustum.
    rewrite cut_all by done. rewrite bind_Ret. destruct Hc as (Hp & Hnear & Hfar). rewrite Hp.
    set (fr := Camera.frustum_of G _). destruct (cascade_view _ _ _ _ _) as [view pv] eqn:Ecv. cbn [splitDepth with_cascades projViews].
    rewrite !store_ok, !bind_Ret by (unfold SHADOWMAP_MAX in *; lia). eexists. split; [reflexivity|]. cbn [fst snd].
    assert (same_view cam (Camera.with_frustum G fr (Camera.clean G c))) as Hs by (by apply frustum_same). split; [exact Hs|].
    split; [unfold starts; by rewrite Hhi|]. destruct Hs as (_ & -> & _). eexists _, _, _. split; [reflexivity|]. rewrite !length_insert. split_and!; [done|done| |].
    + intros j Hj. destruct (decide (j = i)) as [->|Hne].
      * rewrite !list_lookup_insert_eq by (unfold SHADOWMAP_MAX in *; lia). unfold depth_of, cascade_of, ends. fold sp. rewrite Hhi. cbn [default from_option id]. fold fr. by rewrite Ecv.
      * rewrite !list_lookup_insert_ne by done. apply H3. lia.
    + intros _. case_bool_decide as Hz; [subst i|apply H4; lia]. unfold cascade_of, ends. fold sp. rewrite Hhi. cbn [default from_option id]. fold fr. by rewrite Ecv.
  - rewrite E, bind_Ret. cbn [fst snd] in *. subst r'. by exists cam', d, v, m.
Qed.
(** *** Recording *)

(** What is recorded for a command of a shadow queue. *)
Definition cast (sizes : list Z) (set : DescriptorSet.DescriptorSet N) (tail : Tail G) s (c : RenderCommand G) : list (Command (option (Pushed G))) :=
  match cmd_mesh G c ≫= (fun h => pair h <$> meshes G s !! h) with
  | Some (h, x) =>
      [BindVertexBuffer h; BindIndexBuffer h; PushConstants (Some (mkPushed G (cmd_transform G c) tail))] ++
      replicate (length sizes - 1) (PushConstants None) ++ [BindDescriptorSets [set] (dynamic_count [set]) 0; DrawIndexed (index_count x)]
  | None => []
  end.

Lemma bind_one {P} (a : DescriptorSet.DescriptorSet N) : bindDescriptorSets (P := P) 0 [Some a] = Ret [BindDescriptorSets [a] (dynamic_count [a]) 0].
Proof. unfold bindDescriptorSets, dynamic_count. cbn. by destruct (DescriptorSet.dynamic a). Qed.

Lemma cast_ok s r c sizes z n set tail : settled s r -> caster s r = Some c -> sizes !! 0%nat = Some z -> n <= z ->
  (b ← bind_mesh G c s; p ← push G sizes n (mkPushed G (cmd_transform G c) tail); d ← bindDescriptorSets 0 [Some set];
   k ← draw_mesh G c s; Ret (b ++ p ++ d ++ k)) = Ret (cast sizes set tail s c).
Proof.
  intros Hs Hc Hz Hn. unfold caster in Hc. destruct (mesh r) as [h|] eqn:Eh; [|done]. cbn in Hc. destruct (transforms G s !! own_entity r) as [t|]; [|done].
  injection Hc as <-. destruct (mesh_known _ _ Hs h Eh) as [x Hx]. unfold bind_mesh, draw_mesh, cast. cbn [cmd_mesh deref cmd_transform]. rewrite !bind_Ret, Hx. cbn [deref]. rewrite !bind_Ret.
  rewrite (push_ok _ _ _ _ _ Hz Hn), bind_Ret, bind_one, bind_Ret. cbn. by rewrite Hx.
Qed.

(** The queue of a scene is recorded when each of its commands can be. *)
Lemma casters_recorded s (f : RenderCommand G -> outcome (list (Command (option (Pushed G))))) sizes set tail : Forall (settled s) (renderers G s) ->
  (forall r c, settled s r -> caster s r = Some c -> f c = Ret (cast sizes set tail s c)) ->
  record_all G f (omap (caster s) (renderers G s)) = Ret (omap (caster s) (renderers G s) ≫= cast sizes set tail s).
Proof.
  intros Hall Hf. apply record_all_ok, Forall_forall. intros c Hin. apply list_elem_of_omap in Hin as (r & Hr & Hc).
  eapply Hf; [|done]. by eapply Forall_forall in Hall.
Qed.

(** Clearing again leaves the clear values. *)
Lemma clear_again color p p' : clear_values color p = Ret p' -> clear_values color p' = Ret p'.
Proof.
  assert (forall vs : list ClearValue, vs <> [] -> match vs with [] => Exn OutOfBounds | _ => Ret (<[(length vs - 1)%nat := ClearDepth]> vs) end
    = Ret (<[(length vs - 1)%nat := ClearDepth]> vs)) as Hm by (by intros [|]).
  assert (forall (vs : list ClearValue) n x, vs <> [] -> <[n := x]> vs <> []) as Hi by (intros [|v vs] [|n] x; cbn; congruence).
  unfold clear_values. destruct p as [a ty c d cd dd vs]. cbn -[insert]. destruct (decide (vs = [])) as [->|Hne].
  { destruct dd, cd; cbn; try discriminate; by intros [= <-]. }
  assert ((fun _ => ClearColor color) <$> vs <> []) as Hf by (by destruct vs).
  destruct cd; [|intros [= <-]; destruct dd; [done|]; cbn; by rewrite <- list_fmap_compose].
  destruct dd.
  - rewrite Hm, bind_Ret by done. intros [= <-]. cbn -[insert]. rewrite Hm, bind_Ret by auto. by rewrite length_insert, list_insert_insert_eq.
  - rewrite Hm, bind_Ret by done. intros [= <-]. cbn -[insert]. rewrite list_fmap_insert, <- list_fmap_compose.
    rewrite Hm, bind_Ret by auto. by rewrite !length_insert, !length_fmap, !list_insert_insert_eq.
Qed.
(** The pass of a cascade: frame buffer [fb], clear values [p], queue [q]. *)
Definition cascade_pass (r : Shadow G) s (p : RenderPass) (q : list (RenderCommand G)) (i : nat) (fb : N) : list (Command (option (Pushed G))) :=
  updateViewport (shadowMapSize G r) (shadowMapSize G r) ++ [BeginRenderPass fb (shadowMapSize G r) (shadowMapSize G r) (clearValue p);
    BindPipeline (s_pipeline G r)] ++ (q ≫= cast (s_pushes G r) (s_set G r) (Cascade G (Z.of_nat i)) s) ++ [EndRenderPass].

Lemma begin_again {P} color fb w h p p' : clear_values color p = Ret p' ->
  beginRenderPass (P := P) color (Some fb) w h p = Ret (p', updateViewport w h ++ [BeginRenderPass fb w h (clearValue p')]).
Proof. intros H. unfold beginRenderPass. rewrite H, bind_Ret. done. Qed.

(** The four passes. *)
Lemma cascades_recorded (r : Shadow G) s p fbs z q : Forall (settled s) (renderers G s) -> q = omap (caster s) (renderers G s) ->
  hasLight G r = true -> cascadeCommandQueue G r = replicate SHADOWMAP_MAX q -> shadowFrameBuffers G r = Some <$> fbs -> length fbs = SHADOWMAP_MAX ->
  s_pushes G r !! 0%nat = Some z -> sizeof_mat4 + sizeof_ivec4 <= z -> clear_values zero4 (s_pass G r) = Ret p ->
  shadow_renderScene G r s = Ret (with_recorded G p 3 (Some (projViews G r)) r, concat (imap (cascade_pass r s p q) fbs)).
Proof.
  intros Hall -> Hlight Hq Hfb Hl Hz Hn Hp. set (q := omap (caster s) (renderers G s)) in *. unfold shadow_renderScene. rewrite Hlight.
  destruct (foldM_seq (fun i x => snd x = concat (imap (cascade_pass r s p q) (take i fbs)) /\ exists p0 k u, fst x = with_recorded G p0 k u r
      /\ clear_values zero4 p0 = Ret p /\ (forall j, i = S j -> p0 = p /\ k = Z.of_nat j /\ u = Some (projViews G r)))
    (shadow_cascade G s) SHADOWMAP_MAX (r, [])) as ([r' cs] & E & Hcs & p0 & k & u & Hr & _ & Hlast).
  - split; [done|]. exists (s_pass G r), (cascadeIndex G r), (s_uploaded G r). split_and!; [by destruct r|done|done].
  - intros i [r1 cs] Hi (Hcs & p0 & k & u & Hr & Hp0 & _). cbn [fst snd] in *. subst r1 cs. unfold shadow_cascade.
    cbn [shadowFrameBuffers with_recorded s_pass shadowMapSize s_pipeline cascadeCommandQueue projViews]. unfold vec_at.
    destruct (lookup_lt_is_Some_2 fbs i) as [fb Hfbi]; [lia|]. rewrite Hfb, list_lookup_fmap, Hfbi. cbn [fmap option_fmap option_map]. rewrite bind_Ret, (begin_again _ _ _ _ _ _ Hp0), bind_Ret.
    rewrite Hq, lookup_replicate_2, bind_Ret by done. unfold q at 1.
    rewrite (casters_recorded s _ (s_pushes G r) (s_set G r) (Cascade G (Z.of_nat i)) Hall), bind_Ret.
    + eexists. split; [reflexivity|]. cbn [fst snd]. split.
      * erewrite take_S_r by done. rewrite imap_app, concat_app. cbn [imap concat]. rewrite app_nil_r, length_take_le, Nat.add_0_r by lia. unfold cascade_pass. by rewrite <- !app_assoc.
      * eexists p, _, _. split; [reflexivity|]. split; [by eapply clear_again|]. by intros j [= <-].
    + intros r0 c Hs Hc. exact (cast_ok s r0 c _ z _ _ _ Hs Hc Hz Hn).
  - rewrite E. cbn [fst snd] in *. destruct (Hlast 3%nat) as (-> & -> & ->); [done|]. rewrite firstn_all2 in Hcs by lia. by rewrite Hcs, Hr.
Qed.

Lemma list_from_lookup {A} (f : nat -> A) n l : length l = n -> (forall i, (i < n)%nat -> l !! i = Some (f i)) -> l = f <$> seq 0 n.
Proof.
  intros Hl H. apply list_eq. intros i. destruct (decide (i < n)%nat) as [Hi|Hi].
  - by rewrite H, list_lookup_fmap, lookup_seq_lt.
  - rewrite !lookup_ge_None_2 by (rewrite ?length_fmap, ?length_seq; lia). done.
Qed.

(** The renderer after [beginScene]. *)
Definition begun (r : Shadow G) (cam : Camera.Camera G) (w : mat G) (direction : vec4) s : Shadow G :=
  with_shadow_queues G (replicate SHADOWMAP_MAX (omap (caster s) (renderers G s))) true
    (with_cascades G (depth_of (cascadeSplitLambda G r) cam <$> seq 0 SHADOWMAP_MAX)
      ((fun i => snd (cascade_of (cascadeSplitLambda G r) cam w direction i)) <$> seq 0 SHADOWMAP_MAX)
      (fst (cascade_of (cascadeSplitLambda G r) cam w direction 0)) r).
Lemma refresh_world t : Transform.worldMatrix TG (Transform.refresh TG t) = Transform.worldMatrix TG t.
Proof. unfold Transform.refresh. by destruct (Transform.dirty TG t). Qed.

Lemma shadow_begun lights cam t light (r : Shadow G) s : last_light Light.DirectionalLight lights = Some light -> numMaps G r = SHADOWMAP_MAX ->
  length (splitDepth G r) = SHADOWMAP_MAX -> length (projViews G r) = SHADOWMAP_MAX -> Forall (settled s) (renderers G s) -> exists cam' s',
    shadow_beginScene G own inherited cosf sinf pow ceil lookAt lights (Some cam) (Some t) r s
      = Ret (Some cam', Some (Transform.refresh TG t), begun r cam (Transform.worldMatrix TG t) (Light.direction light) s, s')
    /\ same_view cam cam' /\ kept s s'.
Proof.
  intros Hlight Hn Hd Hv Hall. unfold shadow_beginScene. rewrite Hlight. unfold Transform.getWorldMatrix. rewrite refresh_world.
  destruct (cascades_updated cam (Transform.worldMatrix TG t) (Light.direction light) r) as (cam' & d & v & m & -> & Hc & Hld & Hlv & Hdv & Hm); [lia|done|done|].
  rewrite bind_Ret. destruct (queues_filled SHADOWMAP_MAX s Hall) as (s' & -> & Hls). rewrite bind_Ret. exists cam', s'. split; [|done].
  rewrite Hn in Hdv, Hm. rewrite (list_from_lookup (depth_of (cascadeSplitLambda G r) cam) _ d Hld) by (intros i Hi; by apply Hdv).
  rewrite (list_from_lookup (fun i => snd (cascade_of (cascadeSplitLambda G r) cam (Transform.worldMatrix TG t) (Light.direction light) i)) _ v Hlv) by (intros i Hi; by apply Hdv).
  rewrite Hm by (unfold SHADOWMAP_MAX; lia). done.
Qed.

(** The cascaded shadows of a frame.  With a camera and a directional light,
    beginning the scene and rendering it draws every renderer that has a mesh, in
    the order of the group, once into each of the four frame buffers, with its
    world matrix and the number of the cascade; the matrices uploaded first are
    those of the last directional light of the group, over the consecutive parts
    of the camera's frustum between two split depths.  Nothing in the scene
    changes but caches. *)
Theorem shadows_draw_scene lights cam t light (r : Shadow G) s p (fbs : list N) z :
  last_light Light.DirectionalLight lights = Some light -> numMaps G r = SHADOWMAP_MAX ->
  length (splitDepth G r) = SHADOWMAP_MAX -> length (projViews G r) = SHADOWMAP_MAX -> Forall (settled s) (renderers G s) ->
  shadowFrameBuffers G r = Some <$> fbs -> length fbs = SHADOWMAP_MAX ->
  s_pushes G r !! 0%nat = Some z -> sizeof_mat4 + sizeof_ivec4 <= z -> clear_values zero4 (s_pass G r) = Ret p ->
  exists cam' t' (r' : Shadow G) s' (r'' : Shadow G),
    shadow_beginScene G own inherited cosf sinf pow ceil lookAt lights (Some cam) (Some t) r s = Ret (Some cam', Some t', r', s')
    /\ shadow_renderScene G r' s' = Ret (r'', concat (imap (cascade_pass r s' p (omap (caster s) (renderers G s))) fbs))
    /\ s_uploaded G r'' = Some ((fun i => snd (cascade_of (cascadeSplitLambda G r) cam (Transform.worldMatrix TG t) (Light.direction light) i)) <$> seq 0 SHADOWMAP_MAX)
    /\ lightViewMatrix G r'' = fst (cascade_of (cascadeSplitLambda G r) cam (Transform.worldMatrix TG t) (Light.direction light) 0)
    /\ like s s' /\ Forall (settled s') (renderers G s').
Proof.
  intros Hlight Hn Hd Hv Hall Hfb Hl Hz Hle Hp.
  destruct (shadow_begun lights cam t light r s Hlight Hn Hd Hv Hall) as (cam' & s' & -> & _ & Hls & _). destruct (scene_settled s s' Hls Hall) as [Hall' Hq].
  eexists cam', _, _, s', _. split; [reflexivity|].
  rewrite (cascades_recorded _ s' p fbs z (omap (caster s) (renderers G s)) Hall'); [by split_and!|by rewrite Hq|done|done|done|done|done|done|done].
Qed.
(** *** The six faces of a point light *)
Definition last_point (lights : list (Light.LightData * vec3)) : option (Light.LightData * vec3) :=
  last (filter (fun x => Light.is_type Light.PointLight (fst x) = true) lights).
Definition toward (r : Omni G) (x : Light.LightData * vec3) : Omni G :=
  with_point G (point_projection G (Light.radius (fst x))) (snd x) (Light.radius (fst x)) r.

Lemma omni_lights lights (r : Omni G) : fold_left (fun acc x => omni_light G x acc) lights (false, r)
  = match last_point lights with Some x => (true, toward r x) | None => (false, r) end.
Proof.
  unfold last_point. induction lights as [|[l x] lights IH] using rev_ind; [done|]. rewrite fold_left_app, IH, filter_app. cbn [fold_left]. unfold omni_light.
  rewrite filter_cons, filter_nil. cbn [fst]. destruct (Light.is_type Light.PointLight l) eqn:El.
  - rewrite decide_True, last_snoc by done. by destruct (last _).
  - rewrite decide_False, app_nil_r by done. by destruct (last _).
Qed.

Definition black : vec4 := mkVec4 F32.zero F32.zero F32.zero F32.one.

(** The pass of a face, and the copy of its image. *)
Definition face_pass (r : Omni G) s (p : RenderPass) (q : list (RenderCommand G)) (fb : N) (i : nat) (v : mat G) : list (OmniCmd G) :=
  (Recorded G <$> updateViewport (m_mapSize G r) (m_mapSize G r) ++ [BeginRenderPass fb (m_mapSize G r) (m_mapSize G r) (clearValue p);
    BindPipeline (m_pipeline G r)] ++ (q ≫= cast (m_pushes G r) (m_set G r) (LightView G v) s) ++ [EndRenderPass]) ++ [CopyToFace G (Some fb) (Z.of_nat i)].

Lemma faces_recorded (r : Omni G) s p fb z q : Forall (settled s) (renderers G s) -> q = omap (caster s) (renderers G s) ->
  m_hasLight G r = true -> shadowCommandQueue G r = replicate 6 q -> shadowFrameBuffer G r = Some fb -> length (lightViews G r) = 6%nat ->
  m_pushes G r !! 0%nat = Some z -> sizeof_mat4 + sizeof_mat4 <= z -> clear_values black (m_pass G r) = Ret p ->
  omni_renderScene G r s = Ret (with_omni_recorded G p 5 (Some (omniProjView G r, lightPos G r, omniRadius G r)) r,
    concat (imap (face_pass r s p q fb) (lightViews G r))).
Proof.
  intros Hall -> Hlight Hq Hfb Hl Hz Hn Hp. set (q := omap (caster s) (renderers G s)) in *. unfold omni_renderScene. rewrite Hlight.
  destruct (foldM_seq (fun i x => snd x = concat (imap (face_pass r s p q fb) (take i (lightViews G r))) /\ exists p0 k u, fst x = with_omni_recorded G p0 k u r
      /\ clear_values black p0 = Ret p /\ (forall j, i = S j -> p0 = p /\ k = Z.of_nat j /\ u = Some (omniProjView G r, lightPos G r, omniRadius G r)))
    (omni_face G s) 6 (r, [])) as ([r' cs] & E & Hcs & p0 & k & u & Hr & _ & Hlast).
  - split; [done|]. exists (m_pass G r), (commandQueueId G r), (m_uploaded G r). split_and!; [by destruct r|done|done].
  - intros i [r1 cs] Hi (Hcs & p0 & k & u & Hr & Hp0 & _). cbn [fst snd] in *. subst r1 cs. unfold omni_face.
    cbn [shadowFrameBuffer with_omni_recorded m_pass m_mapSize m_pipeline shadowCommandQueue omniProjView lightPos omniRadius].
    destruct (lookup_lt_is_Some_2 (lightViews G r) i) as [v Hv]; [lia|]. rewrite Hfb, (begin_again _ _ _ _ _ _ Hp0), bind_Ret. unfold vec_at.
    rewrite Hq, lookup_replicate_2, bind_Ret by done. unfold q at 1.
    rewrite (casters_recorded s _ (m_pushes G r) (m_set G r) (LightView G v) Hall), bind_Ret.
    + eexists. split; [reflexivity|]. cbn [fst snd]. split.
      * erewrite take_S_r by done. rewrite imap_app, concat_app. cbn [imap concat]. rewrite app_nil_r, length_take_le, Nat.add_0_r by lia. unfold face_pass. by rewrite <- !app_assoc.
      * eexists p, _, _. split; [reflexivity|]. split; [by eapply clear_again|]. by intros j [= <-].
    + intros r0 c Hs Hc. rewrite <- (cast_ok s r0 c _ z _ _ _ Hs Hc Hz Hn). unfold omni_command. cbn [lightViews with_omni_recorded commandQueueId m_pushes m_set].
      destruct (at_Z_lookup (lightViews G r) (Z.of_nat i)) as (v' & -> & Hv'); [lia|]. rewrite Nat2Z.id, Hv in Hv'. by injection Hv' as <-.
  - rewrite E. cbn [fst snd] in *. destruct (Hlast 5%nat) as (-> & -> & ->); [done|]. rewrite firstn_all2 in Hcs by lia. by rewrite Hcs, Hr.
Qed.

(** The shadows of a point light in a frame: each renderer with a mesh is drawn
    once for each of the six faces of the cube, toward that face from the last
    point light of the group, and each image is copied to its face. *)
Theorem omni_draws_scene lights (cam : Camera.Camera G) t light x (r : Omni G) s p fb z :
  last_point lights = Some (light, x) -> Forall (settled s) (renderers G s) -> shadowFrameBuffer G r = Some fb ->
  m_pushes G r !! 0%nat = Some z -> sizeof_mat4 + sizeof_mat4 <= z -> clear_values black (m_pass G r) = Ret p ->
  exists (r' : Omni G) s' (r'' : Omni G),
    omni_beginScene G own inherited cosf sinf lookAt lights (Some cam) (Some t) r s = Ret (r', s')
    /\ omni_renderScene G r' s' = Ret (r'', concat (imap (face_pass r s' p (omap (caster s) (renderers G s)) fb) (face_view G lookAt x <$> seq 0 6)))
    /\ m_uploaded G r'' = Some (point_projection G (Light.radius light), x, Light.radius light)
    /\ like s s' /\ Forall (settled s') (renderers G s').
Proof.
  intros Hlight Hall Hfb Hz Hle Hp. unfold omni_beginScene. rewrite omni_lights, Hlight.
  destruct (queues_filled 6 s Hall) as (s' & -> & Hls & _). rewrite bind_Ret.
  destruct (scene_settled s s' Hls Hall) as [Hall' Hq].
  eexists _, s', _. split; [reflexivity|]. split_and!; [| |exact Hls|exact Hall'].
  - rewrite (faces_recorded _ s' p fb z (omap (caster s) (renderers G s)) Hall'); [reflexivity|by rewrite Hq|done|done|done|done|done|done|done].
  - done.
Qed.
End Shadows.

(** *** Examples *)
Abbreviation DG := CameraProps.demo_glm.
Definition no_trig (x : f32) : f32 := x.
Definition demo_shaders : DescriptorSet.DescriptorSet N := DescriptorSet.mkSet ∅ ∅ [] [] false 0.
(** Entity 5 has a quad; entity 6 a renderer whose model is a plane, which has no mesh. *)
Definition plane_model (e : entity) : option Model := Some (mkModel [] Plane None).
Definition quad_renderer : MeshRenderer := mkRenderer 5%N (Some 7%N) [] None.
Definition plane_renderer : MeshRenderer := mkRenderer 6%N None [] None.
Definition demo_scene (R : list MeshRenderer) : MeshPass.Scene DG :=
  mkScene DG (<[5%N := Transform.make (transform_glm DG)]> (<[6%N := Transform.make (transform_glm DG)]> ∅)) R
    (<[7%N := mkShared Mesh.createQuad (Some 1%N)]> ∅) (<[1%N := material0]> ∅).
Definition demo_pass : RenderPass := mkPass [] [] [] [] false true [].
Definition demo_camera : Camera.Camera DG := Camera.make_perspective DG [] F32.one F32.one (F32.of_Z 100) F32.one.
Definition demo_offscreen : OffScreen DG := mkOffScreen DG demo_pass 3%N demo_shaders [64] [9%N] (800, 600) material0 [] [] None (-1).

Lemma demo_good : sets_ok material0.
Proof. by intros p s. Qed.

Lemma quad_ok : renderer_ok DG (demo_scene [quad_renderer]) quad_renderer.
Proof. split; [|by eexists]. eexists _, _. split_and!; [done|done|]. intros k [= <-]. by eexists. Qed.

Lemma offscreen_draws_scene_witness : exists cam' t' o' s' o'',
  beginScene DG plane_model plane_model no_trig no_trig 0 id (Some demo_camera) (Some (Transform.make (transform_glm DG))) None demo_offscreen (demo_scene [quad_renderer])
    = Ret (Some cam', Some t', o', s')
  /\ renderScene DG o' s' = Ret (o'', [SetViewport 800 600; SetScissor 800 600; BeginRenderPass 9 800 600 []; BindPipeline 3]
       ++ (commandQueue DG o' ≫= drawn DG o' s') ++ [EndRenderPass]).
Proof.
  destruct (offscreen_draws_scene DG plane_model plane_model no_trig no_trig 0 id demo_camera (Transform.make (transform_glm DG)) None demo_offscreen
    (demo_scene [quad_renderer]) 64 9 demo_pass [SetViewport 800 600; SetScissor 800 600; BeginRenderPass 9 800 600 []])
    as (cam' & t' & o' & s' & o'' & E & R & _); [|done|done|done|done|done|].
  - split; [constructor; [exact quad_ok|constructor]|]. apply map_Forall_singleton. exact demo_good.
  - exists cam', t', o', s', o''. exact (conj E R).
Defined.

Definition demo_sun : Light.LightData := Light.make zero3 zero4 F32.one Light.DirectionalLight zero3 F32.one F32.one.
Definition demo_lamp : Light.LightData := Light.make zero3 zero4 F32.one Light.PointLight zero3 (F32.of_Z 20) F32.one.
Definition demo_shadow : Shadow DG :=
  mkShadow DG demo_pass 3%N demo_shaders [80] (Some <$> [11; 12; 13; 14]%N) 4096 4 false (F32.lit 95 100) (replicate 4 []) false 0
    (replicate 4 F32.zero) (replicate 4 []) None [].
Definition demo_omni : Omni DG :=
  mkOmni DG demo_pass 3%N demo_shaders [128] (Some 11%N) 1024 (replicate 6 []) false 0 (replicate 6 []) [] zero3 F32.zero None.

Lemma demo_settled : Forall (settled DG plane_model plane_model no_trig no_trig (demo_scene [quad_renderer; plane_renderer])) [quad_renderer; plane_renderer].
Proof.
  constructor; [|constructor; [|constructor]]; split; [done| |by eexists|done|done|by eexists]. intros h [= <-]. by eexists.
Qed.

(** The plane casts nothing. *)
Lemma shadows_draw_scene_witness : exists cam' t' (r' : Shadow DG) s' (r'' : Shadow DG),
  shadow_beginScene DG plane_model plane_model no_trig no_trig (fun x _ => x) id (fun _ _ _ => []) [demo_lamp; demo_sun] (Some demo_camera)
    (Some (Transform.make (transform_glm DG))) demo_shadow (demo_scene [quad_renderer; plane_renderer]) = Ret (Some cam', Some t', r', s')
  /\ shadow_renderScene DG r' s' = Ret (r'', concat (imap (cascade_pass DG demo_shadow s' demo_pass [mkCommand DG (Some 7%N) None []]) [11; 12; 13; 14]%N)).
Proof.
  destruct (shadows_draw_scene DG plane_model plane_model no_trig no_trig (fun x _ => x) id (fun _ _ _ => []) [demo_lamp; demo_sun] demo_camera
    (Transform.make (transform_glm DG)) demo_sun demo_shadow (demo_scene [quad_renderer; plane_renderer]) demo_pass [11; 12; 13; 14]%N 80)
    as (cam' & t' & r' & s' & r'' & E & R & _); [reflexivity|done|done|done|exact demo_settled|done|done|done|done|done|].
  exists cam', t', r', s', r''. exact (conj E R).
Defined.

Lemma omni_draws_scene_witness : exists (r' : Omni DG) s' (r'' : Omni DG),
  omni_beginScene DG plane_model plane_model no_trig no_trig (fun _ _ _ => []) [(demo_lamp, zero3); (demo_sun, zero3)] (Some demo_camera)
    (Some (Transform.make (transform_glm DG))) demo_omni (demo_scene [quad_renderer; plane_renderer]) = Ret (r', s')
  /\ omni_renderScene DG r' s' = Ret (r'', concat (imap (face_pass DG demo_omni s' demo_pass [mkCommand DG (Some 7%N) None []] 11) (replicate 6 []))).
Proof.
  destruct (omni_draws_scene DG plane_model plane_model no_trig no_trig (fun _ _ _ => []) [(demo_lamp, zero3); (demo_sun, zero3)] demo_camera
    (Transform.make (transform_glm DG)) demo_lamp zero3 demo_omni (demo_scene [quad_renderer; plane_renderer]) demo_pass 11 128)
    as (r' & s' & r'' & E & R & _); [reflexivity|exact demo_settled|done|done|done|done|].
  exists r', s', r''. exact (conj E R).
Defined.

(** *** What goes wrong *)

(** A mesh renderer whose mesh stays null stops the geometry pass, though the
    shadow passes pass it over. *)
Lemma null_mesh_stops cam t o : omniIndex DG o = -1 ->
  beginScene DG plane_model plane_model no_trig no_trig 0 id (Some cam) (Some t) None o (demo_scene [plane_renderer]) = Exn NullDeref.
Proof. intros H. unfold beginScene. cbn -[Z.eqb]. by rewrite H. Qed.

(** Looking through the point light's faces needs a renderer of its shadows. *)
Lemma omni_index_needs_renderer (G : glm) own inherited cosf sinf d n cam t o s : omniIndex G o <> -1 ->
  beginScene G own inherited cosf sinf d n (Some cam) (Some t) None o s = Exn NullDeref.
Proof. intros H. unfold beginScene. cbn -[Z.eqb]. by rewrite (proj2 (Z.eqb_neq _ _) H). Qed.

(** [setTextures] does not say that the textures changed: the old set stays. *)
Lemma set_textures_stale (G : glm) d n p k s m x : materials G s !! k = Some (setTextures x m) ->
  getDescriptorSet p m <> None -> texturesUpdated m = false -> prepare G d n p k s = Ret s.
Proof.
  intros Hm Hs Ht. unfold prepare. rewrite Hm. cbn [deref]. rewrite bind_Ret.
  change (getDescriptorSet p (setTextures x m)) with (getDescriptorSet p m). change (texturesUpdated (setTextures x m)) with (texturesUpdated m).
  by rewrite bool_decide_eq_false_2, Ht.
Qed.

(** Without four maps a frame buffer is missing. *)
Lemma fewer_maps_stop (G : glm) s (r : Shadow G) cs p : clear_values zero4 (s_pass G r) = Ret p ->
  forall i, shadowFrameBuffers G r !! i = Some None -> shadow_cascade G s i (r, cs) = Exn NullDeref.
Proof. intros Hp i Hi. unfold shadow_cascade. cbn [shadowFrameBuffers with_recorded s_pass]. unfold vec_at. rewrite Hi, bind_Ret. unfold beginRenderPass. by rewrite Hp, bind_Ret. Qed.

(** The names of the types do not read back. *)
Lemma light_names_lost t : Light.stringToLightType (Light.lightTypeToString t) = 0.
Proof. by destruct t. Qed.
End MeshPassProps.
