(* ===== verification/LightPass.v ===== *)
(** * LightPass: lighting the geometry buffers, the environment and the sky

    Models [Engine/GBuffer.*], [Renderer/DeferredRenderer.*], [Renderer/SkyboxRenderer.*],
    [Renderer/PreProcessRenderer.*], [Renderer/GridRenderer.*] and the class
    [Environment] of [Scene/Component/Component.*].  A texture is shown to shaders by the number of
    its view.  It uses the textures of [Textures], the geometry pass of [MeshPass]
    and the descriptor sets of [GpuBuffers]; pipelines, passes, shaders and frame
    buffers are made by the driver. *)

From S2P Require Import Prelude Strings Float32 Geometry GpuBuffers ShaderFile Vulkan Textures Resources Mesh Material Hierarchy SceneGraph Input LineRenderer Camera MeshPass.
From stdpp Require Import base decidable list gmap sets strings.
From Stdlib Require Import ZArith Lia.
Local Open Scope Z_scope.
Import Glm CameraGlm.

(** ** The geometry buffers (GBuffer.cpp) *)
Module GBuffer.
Import VulkanHelper Images Texture.

Definition COLOR : nat := 1.
Definition POSITION : nat := 2.
Definition NORMALS : nat := 3.
Definition PBR : nat := 4.
Definition LENGTH : nat := 7.

(** [formats]: only those of the textures that are built. *)
Record GBuffer := mkGBuffer {
  g_width : Z; g_height : Z;
  screenTextures : list Texture2D; depthBuffer : option Depth;
  formats : gmap nat TextureFormat
}.

Section Build.
Context (created : N -> bool) (typeBits : N -> Z) (memoryTypes : list Z) (props : Format -> FormatProperties).

Definition default_texture (i : nat) (x : Driver * list Texture2D) : outcome (Driver * list Texture2D) :=
  let '(d, t) := construct_default (fst x) in Ret (d, snd x ++ [t]).
(** The first time, the textures and the depth buffer are made. *)
Definition make_textures (g : GBuffer) (d : Driver) : outcome (Driver * GBuffer) :=
  match depthBuffer g with
  | Some _ => Ret (d, g)
  | None =>
      '(d, ts) ← foldM default_texture (seq 0 LENGTH) (d, []);
      '(d, depth) ← depth_init created typeBits memoryTypes props (g_width g) (g_height g) d;
      Ret (d, mkGBuffer (g_width g) (g_height g) ts (Some depth) (formats g))
  end.
Definition build_one (i : nat) (x : Driver * GBuffer) : outcome (Driver * GBuffer) :=
  let '(d, g) := x in
  t ← vec_at (screenTextures g) i;
  f ← deref (formats g !! i);
  '(d, t) ← Texture.buildTexture created typeBits memoryTypes f (g_width g) (g_height g) false t d;
  Ret (d, mkGBuffer (g_width g) (g_height g) (<[i := t]> (screenTextures g)) (depthBuffer g) (formats g)).
Definition screen_formats (m : gmap nat TextureFormat) : gmap nat TextureFormat :=
  <[PBR := RGBA16]> (<[NORMALS := RGBA16]> (<[POSITION := RGBA16]> (<[COLOR := RGBA8]> m))).
Definition buildTexture (g : GBuffer) (d : Driver) : outcome (Driver * GBuffer) :=
  '(d, g) ← make_textures g d;
  let g := mkGBuffer (g_width g) (g_height g) (screenTextures g) (depthBuffer g) (screen_formats (formats g)) in
  '(d, g) ← foldM build_one [COLOR; POSITION; NORMALS; PBR] (d, g);
  depth ← deref (depthBuffer g);
  '(d, depth) ← depth_resize created typeBits memoryTypes props (g_width g) (g_height g) depth d;
  Ret (d, mkGBuffer (g_width g) (g_height g) (screenTextures g) (Some depth) (formats g)).

Definition make (w h : Z) (d : Driver) : outcome (Driver * GBuffer) := buildTexture (mkGBuffer w h [] None ∅) d.
Definition resize (w h : Z) (g : GBuffer) (d : Driver) : outcome (Driver * GBuffer) :=
  buildTexture (mkGBuffer w h (screenTextures g) (depthBuffer g) (formats g)) d.
End Build.

(** What a shader is shown of a buffer; the null handle is zero. *)
Definition shown (t : Texture2D) : N := default 0%N (fst (descriptor t)).
Definition getBuffer (i : nat) (g : GBuffer) : outcome Texture2D := vec_at (screenTextures g) i.
Definition getDepthBuffer (g : GBuffer) : outcome Depth := deref (depthBuffer g).

Definition getGBufferTextureName (i : nat) : cstring :=
  match i with 0%nat => str "DEPTH" | 1%nat => str "COLOR" | 2%nat => str "POSITION" | 3%nat => str "NORMALS" | 4%nat => str "PBR" | _ => str "UNKNOWN_ERROR" end.
End GBuffer.

(** ** Environments (Component.cpp) *)
Module Environment.

Definition IrradianceMapSize : Z := 32.
Definition PrefilterMapSize : Z := 128.

Record Environment := mkEnvironment {
  equirectangularMap : option N; environmnet : option N; prefilteredEnvironment : option N; irradianceMap : option N;
  numMips : Z; env_width : Z; env_height : Z; filePath : cstring
}.
Definition empty : Environment := mkEnvironment None None None None 0 0 0 [].
Definition setEnvironmnet (c : option N) (e : Environment) : Environment :=
  mkEnvironment (equirectangularMap e) c (prefilteredEnvironment e) (irradianceMap e) (numMips e) (env_width e) (env_height e) (filePath e).

(** [texture path] is the texture of a file, with its width, its height and its
    number of levels; [new] gives the numbers of the two cubes. *)
Definition init (texture : cstring -> N * (Z * Z * Z)) (new : N * N) (path : cstring) (e : Environment) : Environment :=
  match path with
  | [] => mkEnvironment (equirectangularMap e) (environmnet e) (prefilteredEnvironment e) (irradianceMap e) (numMips e) (env_width e) (env_height e) path
  | _ =>
      let '(t, (w, h, levels)) := texture path in
      mkEnvironment (Some t) (environmnet e) (Some (snd new)) (Some (fst new)) levels w h path
  end.
End Environment.

(** ** The light pass (DeferredRenderer.cpp) *)
Module LightPass.
Import RenderPass MeshPass DescriptorSet.

Definition MAX_LIGHTS : nat := 32.

Section Pass.
Context (G : glm).
Abbreviation TG := (transform_glm G).
Abbreviation Transform := (Transform.Transform TG).
Abbreviation Cam := (Camera.Camera G).
Abbreviation Cmd := (Command (option (Pushed G))).

(** [UniformBufferObject]; of the array of lights, what was written. *)
Record LightUniform := mkUniform {
  u_lights : list Light.LightData; viewPos : mat G; lightProjView : list (mat G); lightView : mat G; cameraPos : vec4;
  u_splitDepth : list f32; lightCount : Z; deferredType : Z; colorCascade : Z; displayCascadeLevel : Z;
  bias : f32; lightSize : f32; prefilterLODLevel : Z
}.
Definition with_bias (b : f32) (u : LightUniform) : LightUniform :=
  mkUniform (u_lights u) (viewPos u) (lightProjView u) (lightView u) (cameraPos u) (u_splitDepth u) (lightCount u) (deferredType u) (colorCascade u)
    (displayCascadeLevel u) b (lightSize u) (prefilterLODLevel u).

Record Deferred := mkDeferred {
  f_pass : RenderPass; f_pipeline : N; pipelineSet : DescriptorSet N; screenSet : DescriptorSet N;
  f_frames : list N; renderTexture : option N; f_size : Z * Z; screenQuad : N;
  environmentMap : option N; f_irradianceMap : option N; preIntegratedFG : N;
  uniform : LightUniform; u_uploaded : option LightUniform;
  offScreen : OffScreen G
}.
Definition with_uniform (u : LightUniform) (r : Deferred) : Deferred :=
  mkDeferred (f_pass r) (f_pipeline r) (pipelineSet r) (screenSet r) (f_frames r) (renderTexture r) (f_size r) (screenQuad r)
    (environmentMap r) (f_irradianceMap r) (preIntegratedFG r) u (u_uploaded r) (offScreen r).
Definition with_screen (s : DescriptorSet N) (r : Deferred) : Deferred :=
  mkDeferred (f_pass r) (f_pipeline r) (pipelineSet r) s (f_frames r) (renderTexture r) (f_size r) (screenQuad r)
    (environmentMap r) (f_irradianceMap r) (preIntegratedFG r) (uniform r) (u_uploaded r) (offScreen r).
Definition with_maps (e i : option N) (r : Deferred) : Deferred :=
  mkDeferred (f_pass r) (f_pipeline r) (pipelineSet r) (screenSet r) (f_frames r) (renderTexture r) (f_size r) (screenQuad r)
    e i (preIntegratedFG r) (uniform r) (u_uploaded r) (offScreen r).
Definition with_offScreen (o : OffScreen G) (r : Deferred) : Deferred :=
  mkDeferred (f_pass r) (f_pipeline r) (pipelineSet r) (screenSet r) (f_frames r) (renderTexture r) (f_size r) (screenQuad r)
    (environmentMap r) (f_irradianceMap r) (preIntegratedFG r) (uniform r) (u_uploaded r) o.
Definition with_target (fs : list N) (t : option N) (size : Z * Z) (r : Deferred) : Deferred :=
  mkDeferred (f_pass r) (f_pipeline r) (pipelineSet r) (screenSet r) fs t size (screenQuad r)
    (environmentMap r) (f_irradianceMap r) (preIntegratedFG r) (uniform r) (u_uploaded r) (offScreen r).

(** The shadow renderers of the manager, null if there is none, with the bias and
    the light size of the first, and the textures of both. *)
Record Managed := mkManaged { shadow : option (Shadow G * f32 * f32 * N); omni : option (Omni G * N) }.

(** The buffer of the lights, made once, is bound to the set of the pipeline; 2512
    is the size of [UniformBufferObject]. *)
Definition createLightBuffer (newBuffer : N) (lightUniformBuffer : option N) (r : Deferred) : outcome (N * Deferred) :=
  let b := default newBuffer lightUniformBuffer in
  set ← update [] [mkBufferInfo b 0 2512 0 UNIFORM_BUFFER] (pipelineSet r);
  Ret (b, mkDeferred (f_pass r) (f_pipeline r) set (screenSet r) (f_frames r) (renderTexture r) (f_size r) (screenQuad r)
            (environmentMap r) (f_irradianceMap r) (preIntegratedFG r) (uniform r) (u_uploaded r) (offScreen r)).

(** *** Lights *)

(** A light takes its direction and its position from its transform. *)
Definition place_light (t : Transform) (l : Light.LightData) : Light.LightData :=
  Light.mkLight (Light.color l) (Light.with_one (column3 G (Transform.worldMatrix TG t)))
    (Light.with_one (normalize3 (CameraController.getForwardDirection G t))) (Light.radius l) (Light.intensity l) (Light.type l) (Light.angle l).

(** The body of the loop; the array of lights has a fixed size. *)
Definition submit_one (transforms : gmap entity Transform) (x : entity * Light.LightData) (acc : list Light.LightData * list (entity * Light.LightData)) :
    outcome (list Light.LightData * list (entity * Light.LightData)) :=
  let '(e, l) := x in
  t ← deref (transforms !! e);
  let l := place_light t l in
  if (length (fst acc) <? MAX_LIGHTS)%nat then Ret (fst acc ++ [l], snd acc ++ [(e, l)]) else Exn OutOfBounds.

Context (mipLevel : N -> Z).

Definition submitLight (camera : option Cam) (transform : option Transform) (m : Managed) (lights : list (entity * Light.LightData))
    (transforms : gmap entity Transform) (r : Deferred) : outcome (option Transform * list (entity * Light.LightData) * Deferred) :=
  match camera with
  | None => Ret (transform, lights, r)
  | Some _ =>
      '(ls, lights) ← foldM (submit_one transforms) lights ([], []);
      t ← deref transform;
      let '(t, w) := Transform.getWorldMatrix TG t in
      let u := uniform r in
      let lod := match environmentMap r with Some e => mipLevel e | None => 0 end in
      let u := mkUniform (ls ++ drop (length ls) (u_lights u)) (inverse G w) (lightProjView u) (lightView u) (Light.with_one (column3 G w)) (u_splitDepth u)
                 (i32 (Z.of_nat (length lights))) (deferredType u) (colorCascade u) (displayCascadeLevel u) (bias u) (lightSize u) lod in
      let u := match shadow m with
               | Some (s, b, size, _) =>
                   mkUniform (u_lights u) (viewPos u) (projViews G s) (lightViewMatrix G s) (cameraPos u) (splitDepth G s)
                     (lightCount u) (deferredType u) (colorCascade u) (displayCascadeLevel u) b size (prefilterLODLevel u)
               | None => u
               end in
      Ret (Some t, lights, with_uniform u r)
  end.

(** *** What the shader reads *)

(** The images of [updateScreenDescriptorSet], by binding. *)
Definition screen_images (g : GBuffer.GBuffer) (m : Managed) (r : Deferred) : outcome (list (Z * N)) :=
  c ← GBuffer.getBuffer GBuffer.COLOR g; p ← GBuffer.getBuffer GBuffer.POSITION g; n ← GBuffer.getBuffer GBuffer.NORMALS g; d ← GBuffer.getDepthBuffer g;
  pbr ← GBuffer.getBuffer GBuffer.PBR g;
  Ret ([(0, GBuffer.shown c); (1, GBuffer.shown p); (2, GBuffer.shown n); (3, Texture.d_view d)] ++
    option_list ((fun x => (4, snd x)) <$> shadow m) ++ option_list ((fun x => (5, snd x)) <$> omni m) ++ [(6, GBuffer.shown pbr)] ++
    option_list (pair 7 <$> f_irradianceMap r) ++ option_list (pair 8 <$> environmentMap r) ++ [(9, preIntegratedFG r)]).

Definition updateScreenDescriptorSet (g : GBuffer.GBuffer) (m : Managed) (r : Deferred) : outcome Deferred :=
  images ← screen_images g m r;
  let r := match shadow m with Some (_, b, _, _) => with_uniform (with_bias b (uniform r)) r | None => r end in
  s ← update_images ((fun x => mkImageInfo [Some (snd x)] (fst x)) <$> images) (screenSet r);
  Ret (with_screen s r).

(** The environment of a scene is the first of its view. *)
Definition see_environment (g : GBuffer.GBuffer) (m : Managed) (env : option Environment.Environment) (r : Deferred) : outcome Deferred :=
  match env with
  | None => if bool_decide (environmentMap r = None) then Ret r else updateScreenDescriptorSet g m (with_maps None None r)
  | Some e =>
      if bool_decide (environmentMap r = Environment.prefilteredEnvironment e) then Ret r
      else updateScreenDescriptorSet g m (with_maps (Environment.prefilteredEnvironment e) (Environment.irradianceMap e) r)
  end.

(** *** Targets *)

(** [newFrame] gives the frame buffers for the render texture, or for each image of
    the swap chain. *)
Definition createFrameBuffers (newFrame : option N -> nat -> N) (images : nat) (r : Deferred) : list N :=
  match renderTexture r with Some t => [newFrame (Some t) 0%nat] | None => newFrame None <$> seq 0 images end.
Definition setRenderTarget (newFrame : option N -> nat -> N) (images : nat) (t : option N) (rebuild : bool) (r : Deferred) : Deferred :=
  let r := with_target (f_frames r) t (f_size r) r in
  if rebuild then with_target (createFrameBuffers newFrame images r) t (f_size r) r else r.

Definition resize_offScreen (frame : N) (w h : Z) (o : OffScreen G) : OffScreen G :=
  mkOffScreen G (o_pass G o) (o_pipeline G o) (o_set G o) (o_pushes G o) [frame] (w, h) (defaultMaterial G o) (commandQueue G o) (projView G o)
    (o_uploaded G o) (omniIndex G o).
Definition onResize (newFrame : option N -> nat -> N) (images : nat) (geometry : N) (w h : Z) (g : GBuffer.GBuffer) (m : Managed) (r : Deferred) : outcome Deferred :=
  let r := with_target (f_frames r) (renderTexture r) (w, h) r in
  let r := with_target (createFrameBuffers newFrame images r) (renderTexture r) (w, h) r in
  updateScreenDescriptorSet g m (with_offScreen (resize_offScreen geometry w h (offScreen r)) r).

(** *** A frame *)
Definition light_beginScene (own inherited : entity -> option MeshRenderer.Model) (cosf sinf : f32 -> f32) (defaultTexture : N) (newBuffer : N -> N)
    (camera : option Cam) (transform : option Transform) (m : Managed) (lights : list (entity * Light.LightData))
    (env : option Environment.Environment) (g : GBuffer.GBuffer) (r : Deferred) (s : Scene G)
    : outcome (option Cam * option Transform * list (entity * Light.LightData) * Deferred * Scene G) :=
  '(transform, lights, r) ← submitLight camera transform m lights (transforms G s) r;
  r ← see_environment g m env r;
  '(camera, transform, o, s) ← beginScene G own inherited cosf sinf defaultTexture newBuffer camera transform ((fun x => lightViews G (fst x)) <$> omni m) (offScreen r) s;
  Ret (camera, transform, lights, with_offScreen o r, s).

Definition blue : vec4 := mkVec4 (F32.lit 3 10) (F32.lit 3 10) F32.one F32.one.
Definition quad_count : Z := Z.of_nat (length (Mesh.indexBuffer Mesh.createQuad)).

Definition present (r : Deferred) : outcome (list Cmd) :=
  d ← bindDescriptorSets 0 [Some (pipelineSet r); Some (screenSet r)];
  Ret ([BindPipeline (f_pipeline r); BindVertexBuffer (screenQuad r); BindIndexBuffer (screenQuad r)] ++ d ++ drawIndexed quad_count 0).

(** [current] is the image of the swap chain being drawn. *)
Definition light_renderScene (current : nat) (s : Scene G) (r : Deferred) : outcome (Deferred * list Cmd) :=
  '(o, geometry) ← renderScene G (offScreen r) s;
  fb ← vec_at (f_frames r) (match renderTexture r with Some _ => 0%nat | None => current end);
  '(p, b) ← beginRenderPass blue (Some fb) (fst (f_size r)) (snd (f_size r)) (f_pass r);
  let r := mkDeferred p (f_pipeline r) (pipelineSet r) (screenSet r) (f_frames r) (renderTexture r) (f_size r) (screenQuad r)
             (environmentMap r) (f_irradianceMap r) (preIntegratedFG r) (uniform r) (Some (uniform r)) o in
  c ← present r;
  Ret (r, geometry ++ b ++ c ++ [EndRenderPass]).
End Pass.
End LightPass.

(** ** The sky (SkyboxRenderer.cpp) *)
Module Skybox.
Import RenderPass MeshPass DescriptorSet.

Section Sky.
Context (G : glm).
Abbreviation TG := (transform_glm G).
Abbreviation Transform := (Transform.Transform TG).
Abbreviation Cam := (Camera.Camera G).
Abbreviation Cmd := (Command (option (Pushed G))).
(** [view[3] = vec4(0, 0, 0, 1)]. *)
Context (clear_translation : mat G -> mat G).

Record Skybox := mkSkybox {
  k_pass : RenderPass; k_pipeline : N; k_set : DescriptorSet N; k_frames : list N; k_target : option N; k_size : Z * Z;
  k_mesh : N; cubeMap : option N;
  uniformBuffer : option N; uniformBufferLodLevel : option N;
  view : mat G; proj : mat G; lodLevel : f32; k_uploaded : option (mat G * mat G * f32)
}.
Definition with_cube (c : option N) (set : DescriptorSet N) (b l : option N) (r : Skybox) : Skybox :=
  mkSkybox (k_pass r) (k_pipeline r) set (k_frames r) (k_target r) (k_size r) (k_mesh r) c b l (view r) (proj r) (lodLevel r) (k_uploaded r).
Definition with_matrices (v p : mat G) (r : Skybox) : Skybox :=
  mkSkybox (k_pass r) (k_pipeline r) (k_set r) (k_frames r) (k_target r) (k_size r) (k_mesh r) (cubeMap r) (uniformBuffer r) (uniformBufferLodLevel r)
    v p (lodLevel r) (k_uploaded r).

Definition sizeof_matrices : Z := 128.
Definition sizeof_float : Z := 4.

(** [updateUniform], when the pipeline is made: the buffers are created once, with the numbers given. *)
Definition updateUniform (newBuffers : N * N) (r : Skybox) : outcome Skybox :=
  let b := default (fst newBuffers) (uniformBuffer r) in
  let l := default (snd newBuffers) (uniformBufferLodLevel r) in
  set ← update ((fun c => mkImageInfo [Some c] 1) <$> option_list (cubeMap r))
          [mkBufferInfo b 0 sizeof_matrices 0 UNIFORM_BUFFER; mkBufferInfo l 0 sizeof_float 2 UNIFORM_BUFFER] (k_set r);
  Ret (with_cube (cubeMap r) set (Some b) (Some l) r).

Definition setCubeMap (newBuffers : N * N) (c : option N) (r : Skybox) : outcome Skybox :=
  updateUniform newBuffers (with_cube c (k_set r) (uniformBuffer r) (uniformBufferLodLevel r) r).

(** [newFrame] gives the frame buffers, as for the light pass. *)
Definition sky_createFrameBuffer (newFrame : option N -> nat -> N) (images : nat) (r : Skybox) : list N :=
  match k_target r with Some t => [newFrame (Some t) 0%nat] | None => newFrame None <$> seq 0 images end.
Definition with_sky_target (fs : list N) (t : option N) (size : Z * Z) (r : Skybox) : Skybox :=
  mkSkybox (k_pass r) (k_pipeline r) (k_set r) fs t size (k_mesh r) (cubeMap r) (uniformBuffer r) (uniformBufferLodLevel r) (view r) (proj r) (lodLevel r) (k_uploaded r).
Definition sky_onResize (newBuffers : N * N) (newFrame : option N -> nat -> N) (images : nat) (w h : Z) (r : Skybox) : outcome Skybox :=
  r ← updateUniform newBuffers (with_sky_target [] (k_target r) (w, h) r);
  Ret (with_sky_target (sky_createFrameBuffer newFrame images r) (k_target r) (w, h) r).
Definition sky_setRenderTarget (newFrame : option N -> nat -> N) (images : nat) (t : option N) (rebuild : bool) (r : Skybox) : Skybox :=
  let r := with_sky_target (k_frames r) t (k_size r) r in
  if rebuild then with_sky_target (sky_createFrameBuffer newFrame images r) t (k_size r) r else r.

Definition sky_beginScene (newBuffers : N * N) (camera : option Cam) (transform : option Transform) (env : option Environment.Environment) (r : Skybox)
    : outcome (option Cam * option Transform * Skybox) :=
  match camera with
  | None => Ret (camera, transform, r)
  | Some cam =>
      let '(cam, p) := Camera.getProjectionMatrix G cam in
      t ← deref transform;
      let '(t, w) := Transform.getWorldMatrix TG t in
      let r := with_matrices (clear_translation (inverse G w)) p r in
      r ← match env with
          | Some e => if bool_decide (cubeMap r = Environment.environmnet e) then Ret r else setCubeMap newBuffers (Environment.environmnet e) r
          | None => Ret r
          end;
      Ret (Some cam, Some t, r)
  end.

Definition cube_count : Z := Z.of_nat (length (Mesh.indexBuffer Mesh.createCube)).
Definition sky_present (r : Skybox) : outcome (list Cmd) :=
  d ← bindDescriptorSets 0 [Some (k_set r)];
  Ret ([BindPipeline (k_pipeline r); BindVertexBuffer (k_mesh r); BindIndexBuffer (k_mesh r)] ++ d ++ drawIndexed cube_count 0).

Definition sky_renderScene (current : nat) (r : Skybox) : outcome (Skybox * list Cmd) :=
  match cubeMap r with
  | None => Ret (r, [])
  | Some _ =>
      fb ← vec_at (k_frames r) (match k_target r with Some _ => 0%nat | None => current end);
      '(p, b) ← beginRenderPass MeshPass.grey (Some fb) (fst (k_size r)) (snd (k_size r)) (k_pass r);
      let r := mkSkybox p (k_pipeline r) (k_set r) (k_frames r) (k_target r) (k_size r) (k_mesh r) (cubeMap r) (uniformBuffer r) (uniformBufferLodLevel r)
                 (view r) (proj r) (lodLevel r) (Some (view r, proj r, lodLevel r)) in
      c ← sky_present r;
      Ret (r, b ++ c ++ [EndRenderPass])
  end.
End Sky.
End Skybox.

(** ** Making the maps of an environment (PreProcessRenderer.cpp) *)
Module PreProcess.
Import RenderPass MeshPass DescriptorSet.

Definition SkyboxSize : Z := 512.
Definition maxMipLevels : Z := 5.

Section Process.
Context (G : glm).
Abbreviation Cmd := (Command (option (Pushed G))).
Context (lookAt : vec3 -> vec3 -> vec3 -> mat G).

(** A stage: a pipeline, with its descriptor set and the sizes of the push
    constants of its shader, and the frame buffer and the command buffer of its index. *)
Record Stage := mkStage { st_pipeline : N; st_set : DescriptorSet N; st_pushes : list Z; st_frame : option N }.

(** What is written to the uniform buffers. *)
Inductive Data := Projection (m : mat G) | ViewProjection (v p : mat G) | Roughness (x : f32).

(** What happens, in order: the writes, and the command buffers submitted, each
    the passes of one face, with the copy to a level of a face of a cube.  The
    extent and the layouts of a copy are in [Textures] ([cube_update_improper],
    [cube_update_too_large]). *)
Inductive Event :=
  | Write (buffer : N) (d : Data)
  | Execute (stage : nat) (cmds : list Cmd) (copy : option (N * Z * Z)).

Record Buffers := mkBuffers { b_cube : N; b_skybox : N; b_prefilter : N; b_prefilterFrag : N }.
Record PreProcess := mkPreProcess {
  e_pass : RenderPass; cube : Stage; irradiance : Stage; prefilter : Stage; e_mesh : N; buffers : Buffers;
  equirectangular : option N;
  envComponent : bool;                       (* not null: the first environment of the view *)
  cubeProjection : mat G
}.
Definition with_stages (p : RenderPass) (a b c : Stage) (r : PreProcess) : PreProcess :=
  mkPreProcess p a b c (e_mesh r) (buffers r) (equirectangular r) (envComponent r) (cubeProjection r).
Definition with_map (m : option N) (pending : bool) (proj : mat G) (r : PreProcess) : PreProcess :=
  mkPreProcess (e_pass r) (cube r) (irradiance r) (prefilter r) (e_mesh r) (buffers r) m pending proj.
Definition with_set (s : DescriptorSet N) (x : Stage) : Stage := mkStage (st_pipeline x) s (st_pushes x) (st_frame x).

Definition tenth : f32 := F32.lit 1 10.
Definition capture (fov : f32) : mat G := perspective G fov F32.one tenth (F32.of_Z 10).
Definition right_angle : f32 := radians G (F32.of_Z 90).
(** [captureViews]. *)
Definition captureView (i : nat) : mat G := lookAt zero3 (fst (face i)) (snd (face i)).

(** The uniform buffers exist after [init]; their sizes are those of the structures. *)
Definition updateUniform (r : PreProcess) : outcome PreProcess :=
  set ← update ((fun m => mkImageInfo [Some m] 1) <$> option_list (equirectangular r))
          [mkBufferInfo (b_cube (buffers r)) 0 64 0 UNIFORM_BUFFER] (st_set (cube r));
  Ret (with_map (equirectangular r) (envComponent r) (capture right_angle) (with_stages (e_pass r) (with_set set (cube r)) (irradiance r) (prefilter r) r)).

Definition pre_beginScene (env : option Environment.Environment) (r : PreProcess) : outcome PreProcess :=
  match env with
  | None => Ret r
  | Some e =>
      if bool_decide (equirectangular r = Environment.equirectangularMap e) then Ret r
      else updateUniform (with_map (Environment.equirectangularMap e) true (cubeProjection r) r)
  end.

Definition updateIrradianceDescriptor (env : Environment.Environment) (r : PreProcess) : outcome PreProcess :=
  set ← update [mkImageInfo [Environment.environmnet env] 1] [mkBufferInfo (b_skybox (buffers r)) 0 128 0 UNIFORM_BUFFER] (st_set (irradiance r));
  Ret (with_stages (e_pass r) (cube r) (with_set set (irradiance r)) (prefilter r) r).
Definition updatePrefilterDescriptor (env : Environment.Environment) (r : PreProcess) : outcome PreProcess :=
  set ← update [mkImageInfo [Environment.environmnet env] 2]
          [mkBufferInfo (b_prefilter (buffers r)) 0 128 0 UNIFORM_BUFFER; mkBufferInfo (b_prefilterFrag (buffers r)) 0 16 1 UNIFORM_BUFFER] (st_set (prefilter r));
  Ret (with_stages (e_pass r) (cube r) (irradiance r) (with_set set (prefilter r)) r).

Definition violet : vec4 := mkVec4 (F32.lit 3 10) (F32.lit 3 10) (F32.lit 8 10) F32.one.
Definition sizeof_mat4 : Z := 64.
(** The push constants of a shader, if it has any. *)
Definition push_view (sizes : list Z) (i : nat) : outcome (list Cmd) :=
  match sizes with [] => Ret [] | _ => push G sizes sizeof_mat4 (mkPushed G (captureView i) (NoTail G)) end.

(** [begin], [present] and [end] for a face and a level. *)
Definition one_face (mesh : N) (n : nat) (x : Stage) (size : Z) (target : option N) (i : nat) (mip : Z) (p : RenderPass) : outcome (RenderPass * Event) :=
  '(p, b) ← beginRenderPass violet (st_frame x) (u32 size) (u32 size) p;
  c ← push_view (st_pushes x) i;
  d ← bindDescriptorSets 0 [Some (st_set x)];
  Ret (p, Execute n (b ++ [BindPipeline (st_pipeline x); BindVertexBuffer mesh; BindIndexBuffer mesh] ++ c ++ d ++ drawIndexed Skybox.cube_count 0 ++ [EndRenderPass])
            ((fun t => (t, Z.of_nat i, mip)) <$> target)).

(** [size * pow(0.5, mip)], truncated: halving is exact. *)
Definition mip_size (size mip : Z) : Z := Z.shiftr size mip.

(** A loop over the levels and the faces; [before] is written before each face, [level] before each level. *)
Definition faces (mesh : N) (n : nat) (x : Stage) (size : Z) (target : option N) (mip : Z) (before : nat -> list Event) (acc : RenderPass * list Event) : outcome (RenderPass * list Event) :=
  foldM (fun i acc => '(p, e) ← one_face mesh n x size target i mip (fst acc); Ret (p, snd acc ++ before i ++ [e])) (seq 0 6) acc.
Definition levels (mesh : N) (n : nat) (x : Stage) (size : Z) (target : option N) (level : Z -> list Event) (before : nat -> list Event) (acc : RenderPass * list Event) : outcome (RenderPass * list Event) :=
  foldM (fun mip acc => faces mesh n x (mip_size size mip) target mip before (fst acc, snd acc ++ level mip)) (seqZ 0 maxMipLevels) acc.

Definition generateSkybox (env : Environment.Environment) (r : PreProcess) : outcome (PreProcess * list Event) :=
  '(p, es) ← levels (e_mesh r) 0 (cube r) SkyboxSize (Environment.environmnet env) (fun _ => []) (fun _ => [])
    (e_pass r, [Write (b_cube (buffers r)) (Projection (cubeProjection r))]);
  Ret (with_stages p (cube r) (irradiance r) (prefilter r) r, es).
Definition generateIrradianceMap (env : Environment.Environment) (r : PreProcess) : outcome (PreProcess * list Event) :=
  '(p, es) ← faces (e_mesh r) 1 (irradiance r) Environment.IrradianceMapSize (Environment.irradianceMap env) 0
    (fun i => [Write (b_skybox (buffers r)) (ViewProjection (captureView i) (capture right_angle))]) (e_pass r, []);
  Ret (with_stages p (cube r) (irradiance r) (prefilter r) r, es).
(** The angle is half of pi. *)
Definition roughness_of (mip : Z) : f32 := F32.div (F32.of_Z mip) (F32.of_Z (maxMipLevels - 1)).
Definition generatePrefilterMap (half_pi : f32) (env : Environment.Environment) (r : PreProcess) : outcome (PreProcess * list Event) :=
  '(p, es) ← levels (e_mesh r) 2 (prefilter r) Environment.PrefilterMapSize (Environment.prefilteredEnvironment env)
    (fun mip => [Write (b_prefilterFrag (buffers r)) (Roughness (roughness_of mip))])
    (fun i => [Write (b_prefilter (buffers r)) (ViewProjection (captureView i) (capture half_pi))]) (e_pass r, []);
  Ret (with_stages p (cube r) (irradiance r) (prefilter r) r, es).

(** [newCube] is the number of the cube made for the sky; the environment is that
    of [envComponent]. *)
Definition pre_renderScene (half_pi : f32) (newCube : N) (env : option Environment.Environment) (r : PreProcess)
    : outcome (PreProcess * option Environment.Environment * list Event) :=
  if envComponent r then
    env ← deref env;
    let env := match Environment.environmnet env with Some _ => env | None => Environment.setEnvironmnet (Some newCube) env end in
    '(r, sky) ← generateSkybox env r;
    r ← updateIrradianceDescriptor env r;
    '(r, irr) ← generateIrradianceMap env r;
    r ← updatePrefilterDescriptor env r;
    '(r, pre) ← generatePrefilterMap half_pi env r;
    Ret (with_map (equirectangular r) false (cubeProjection r) r, Some env, sky ++ irr ++ pre)
  else Ret (r, env, []).
End Process.
End PreProcess.

(** ** The grid of the editor (GridRenderer.cpp) *)
Module Grid.
Import RenderPass DescriptorSet.

Section Draw.
Context (G : glm).
Abbreviation TG := (transform_glm G).
Abbreviation Transform := (Transform.Transform TG).
Abbreviation Cam := (Camera.Camera G).
Abbreviation Cmd := (Command (option (MeshPass.Pushed G))).

(** The two uniforms: the matrix, and the position of the camera with the scale,
    the resolution and the distance of the grid. *)
Record Fragment := mkFragment { g_cameraPos : vec4; g_scale : f32; g_res : f32; g_maxDistance : f32 }.
Record Grid := mkGrid {
  g_pass : RenderPass; g_pipeline : N; g_set : DescriptorSet N; g_frames : list N; g_target : option N; g_size : Z * Z; g_quad : N;
  uniformBuffer : option N; uniformBufferFrag : option N;
  g_projView : mat G; fragment : Fragment; g_uploaded : option (mat G * Fragment)
}.
Definition with_uniforms (pv : mat G) (f : Fragment) (r : Grid) : Grid :=
  mkGrid (g_pass r) (g_pipeline r) (g_set r) (g_frames r) (g_target r) (g_size r) (g_quad r) (uniformBuffer r) (uniformBufferFrag r) pv f (g_uploaded r).
Definition with_frames (fs : list N) (t : option N) (size : Z * Z) (r : Grid) : Grid :=
  mkGrid (g_pass r) (g_pipeline r) (g_set r) fs t size (g_quad r) (uniformBuffer r) (uniformBufferFrag r) (g_projView r) (fragment r) (g_uploaded r).

Definition gridRes : f32 := F32.lit 14 10.
Definition gridSize : f32 := F32.of_Z 500.
Definition maxDistance : f32 := F32.of_Z 600.

Definition grid_beginScene (camera : option Cam) (transform : option Transform) (r : Grid) : option Cam * option Transform * Grid :=
  match camera, transform with
  | Some cam, Some t =>
      let '(cam, p) := Camera.getProjectionMatrix G cam in
      let '(t, w) := Transform.getWorldMatrix TG t in
      (Some cam, Some t, with_uniforms (mul G p (inverse G w)) (mkFragment (Light.with_one (column3 G w)) gridSize gridRes maxDistance) r)
  | _, _ => (camera, transform, r)
  end.

Definition createUniformBuffer (newBuffers : N * N) (r : Grid) : outcome Grid :=
  let b := default (fst newBuffers) (uniformBuffer r) in
  let f := default (snd newBuffers) (uniformBufferFrag r) in
  set ← update [] [mkBufferInfo b 0 64 0 UNIFORM_BUFFER; mkBufferInfo f 0 32 1 UNIFORM_BUFFER] (g_set r);
  Ret (mkGrid (g_pass r) (g_pipeline r) set (g_frames r) (g_target r) (g_size r) (g_quad r) (Some b) (Some f) (g_projView r) (fragment r) (g_uploaded r)).

Definition createFrameBuffers (newFrame : option N -> nat -> N) (images : nat) (r : Grid) : Grid :=
  with_frames (match g_target r with Some t => [newFrame (Some t) 0%nat] | None => newFrame None <$> seq 0 images end) (g_target r) (g_size r) r.
Definition onResize (newFrame : option N -> nat -> N) (images : nat) (w h : Z) (r : Grid) : Grid :=
  createFrameBuffers newFrame images (with_frames (g_frames r) (g_target r) (w, h) r).
Definition setRenderTarget (newFrame : option N -> nat -> N) (images : nat) (t : option N) (rebuild : bool) (r : Grid) : Grid :=
  let r := with_frames (g_frames r) t (g_size r) r in if rebuild then createFrameBuffers newFrame images r else r.

Definition plane_count : Z := Z.of_nat (length (Mesh.indexBuffer (Mesh.createPlane id gridSize gridSize zero3))).
Definition grid_present (r : Grid) : outcome (list Cmd) :=
  d ← bindDescriptorSets 0 [Some (g_set r)];
  Ret ([BindPipeline (g_pipeline r); BindVertexBuffer (g_quad r); BindIndexBuffer (g_quad r)] ++ d ++ drawIndexed plane_count 0).
Definition grid_renderScene (current : nat) (r : Grid) : outcome (Grid * list Cmd) :=
  fb ← vec_at (g_frames r) (match g_target r with Some _ => 0%nat | None => current end);
  '(p, b) ← beginRenderPass PreProcess.violet (Some fb) (fst (g_size r)) (snd (g_size r)) (g_pass r);
  let r := mkGrid p (g_pipeline r) (g_set r) (g_frames r) (g_target r) (g_size r) (g_quad r) (uniformBuffer r) (uniformBufferFrag r) (g_projView r) (fragment r)
             (Some (g_projView r, fragment r)) in
  c ← grid_present r;
  Ret (r, b ++ c ++ [EndRenderPass]).
End Draw.
End Grid.

(** ** Properties *)
Module LightProps.
Import RenderPass MeshPass LightPass DescriptorSet DescriptorProps MeshPassProps.

Definition info {H} (x : Z * H) : ImageInfo H := mkImageInfo [Some (snd x)] (fst x).

(** An update by infos of one texture each, with other bindings left alone. *)
Lemma update_singles {H} (l : list (Z * H)) (bis : list (BufferInfo H)) s : pools_ok s -> NoDup l.*1 -> (length l <= MAX_IMAGE_INFOS)%nat ->
  NoDup (bi_binding <$> bis) -> (length l + length bis <= MAX_WRITE_DESCTIPTORS)%nat -> exists s',
  update (info <$> l) bis s = Ret s' /\ pools_ok s'
  /\ (forall b t, (b, t) ∈ l -> images s' !! (b, 0%nat) = Some (Some t)) /\ (forall b j, b ∉ l.*1 -> images s' !! (b, j) = images s !! (b, j))
  /\ (forall i, i ∈ bis -> uniforms s' !! bi_binding i = Some (Some (bi_buffer i, bi_offset i, bi_size i))).
Proof.
  intros Hok Hnd Hl Hndb Hw. destruct l as [|x l] using rev_ind.
  - destruct Hok as [Hi Hb]. unfold update, updateInternal. cbn [fmap list_fmap image_writes]. rewrite bind_Ret, buffers_writes_spec by (cbn; unfold MAX_WRITE_DESCTIPTORS, MAX_BUFFER_INFOS in *; lia). rewrite bind_Ret.
    eexists. split; [reflexivity|]. set (ws := [] ++ _). set (s0 := mkSet _ _ _ _ _ _). destruct (apply_all_pools ws s0) as (Eip & Ebp & _).
    assert (omap image_binding ws = []) as Hib by (unfold ws; by rewrite image_binding_buffers).
    assert (omap buffer_binding ws = bi_binding <$> bis) as Hbb by exact (buffer_binding_buffers bis 0).
    split; [|split; [set_solver|split]].
    + split; [by rewrite Eip|]. rewrite Ebp. unfold s0. cbn [bufferInfoPool]. rewrite GpuBufferProps.overwrite_length; rewrite ?length_fmap; unfold MAX_BUFFER_INFOS, MAX_WRITE_DESCTIPTORS in *; cbn in Hw; lia.
    + intros b j _. by rewrite apply_all_other by (rewrite Hib; set_solver).
    + intros i Hin. apply list_elem_of_lookup in Hin as [k Hk]. rewrite (apply_all_uniform ws s0 (bi_binding i) k); [|by rewrite Hbb|].
      * unfold s0; cbn [bufferInfoPool]. pose proof (lookup_lt_Some _ _ _ Hk). rewrite GpuBufferProps.overwrite_lookup by (rewrite ?length_fmap; unfold MAX_BUFFER_INFOS, MAX_WRITE_DESCTIPTORS in *; cbn in Hw; lia).
        rewrite length_fmap, decide_True by lia. by rewrite list_lookup_fmap, Nat.sub_0_r, Hk.
      * unfold ws. cbn. apply list_elem_of_lookup. exists k. by rewrite list_lookup_imap, Hk.
  - clear IHl. rewrite fmap_app in Hnd. rewrite length_app in Hl, Hw. cbn in Hl, Hw.
    assert (info <$> (l ++ [x]) = infos_of l.*1 l.*2 (fst x) [snd x] 0) as ->.
    { unfold infos_of. rewrite fmap_app. cbn. f_equal. clear. induction l as [|[b t] l IH]; [done|]. cbn. by f_equal. }
    destruct (set_update_ok l.*1 l.*2 (fst x) [snd x] 0 bis s) as (s' & E & Hok' & H1 & H2 & H3 & H4 & _); [done|by rewrite !length_fmap|done|done| | |].
    { rewrite length_fmap. cbn. unfold MAX_IMAGE_INFOS in *. lia. }
    { rewrite length_fmap. unfold MAX_WRITE_DESCTIPTORS in *. lia. }
    exists s'. split; [done|]. split; [done|]. split; [|split; [|done]].
    + intros b t Hin. apply elem_of_app in Hin as [Hin|Hin].
      * apply list_elem_of_lookup in Hin as [k Hk]. apply (H1 k); by rewrite list_lookup_fmap, Hk.
      * apply list_elem_of_singleton in Hin as <-. by apply (H2 0%nat).
    + intros b j Hb. apply H3. by rewrite fmap_app in Hb.
Qed.

Lemma update_images_update {H} (infos : list (ImageInfo H)) s : update_images infos s = update infos [] s.
Proof. unfold update_images, update, updateInternal. destruct (image_writes _ _ _ _) as [[? ?]|]; [|done]. by rewrite !bind_Ret. Qed.

(** *** What the light pass reads *)
Section Deferred.
Context (G : glm).
Abbreviation TG := (transform_glm G).
Abbreviation Transform := (Transform.Transform TG).
Abbreviation Deferred := (LightPass.Deferred G).
Abbreviation Managed := (LightPass.Managed G).
Implicit Types (r : Deferred) (m : Managed) (g : GBuffer.GBuffer).

(** The buffers are built. *)
Definition has_buffers g : Prop := length (GBuffer.screenTextures g) = GBuffer.LENGTH /\ is_Some (GBuffer.depthBuffer g).

(** The images of a set, by binding: the geometry buffers, the shadow maps there
    are, the maps of the environment if there is one, and the table of the BRDF. *)
Record reads g m r : Prop := mkReads {
  reads_buffer : forall b i t, (b, i) ∈ [(0, GBuffer.COLOR); (1, GBuffer.POSITION); (2, GBuffer.NORMALS); (6, GBuffer.PBR)] ->
    GBuffer.screenTextures g !! i = Some t -> images (screenSet G r) !! (b, 0%nat) = Some (Some (GBuffer.shown t));
  reads_depth : forall d, GBuffer.depthBuffer g = Some d -> images (screenSet G r) !! (3, 0%nat) = Some (Some (Texture.d_view d));
  reads_shadow : forall x, shadow G m = Some x -> images (screenSet G r) !! (4, 0%nat) = Some (Some (snd x));
  reads_omni : forall x, omni G m = Some x -> images (screenSet G r) !! (5, 0%nat) = Some (Some (snd x));
  reads_irradiance : forall t, f_irradianceMap G r = Some t -> images (screenSet G r) !! (7, 0%nat) = Some (Some t);
  reads_environment : forall t, environmentMap G r = Some t -> images (screenSet G r) !! (8, 0%nat) = Some (Some t);
  reads_table : images (screenSet G r) !! (9, 0%nat) = Some (Some (preIntegratedFG G r))
}.

Lemma updated_reads g m r : has_buffers g -> pools_ok (screenSet G r) -> exists s u,
  updateScreenDescriptorSet G g m r = Ret (with_screen G s (with_uniform G u r)) /\ pools_ok s /\ reads g m (with_screen G s (with_uniform G u r))
  /\ u = match shadow G m with Some (_, b, _, _) => with_bias G b (uniform G r) | None => uniform G r end
  /\ (forall b j, b ∉ seqZ 0 10 -> images s !! (b, j) = images (screenSet G r) !! (b, j))
  /\ (f_irradianceMap G r = None -> forall j, images s !! (7, j) = images (screenSet G r) !! (7, j))
  /\ (environmentMap G r = None -> forall j, images s !! (8, j) = images (screenSet G r) !! (8, j)).
Proof.
  intros [Hl [d Hd]] Hok. unfold updateScreenDescriptorSet, screen_images, GBuffer.getBuffer, GBuffer.getDepthBuffer.
  destruct (GBuffer.screenTextures g) as [|t0 [|t1 [|t2 [|t3 [|t4 ts]]]]] eqn:Et; try discriminate. unfold vec_at. rewrite Hd. cbn [GBuffer.COLOR GBuffer.POSITION GBuffer.NORMALS GBuffer.PBR lookup list_lookup deref].
  rewrite !bind_Ret. set (l := [(0, GBuffer.shown t1); _; _; _] ++ _).
  set (r1 := match shadow G m with Some (_, b, _, _) => with_uniform G (with_bias G b (uniform G r)) r | None => r end).
  set (u := match shadow G m with Some (_, b, _, _) => with_bias G b (uniform G r) | None => uniform G r end).
  assert (r1 = with_uniform G u r) as E1 by (unfold r1, u; destruct (shadow G m) as [[[[? ?] ?] ?]|]; [done|by destruct r]).
  assert (l.*1 = [0; 1; 2; 3] ++ option_list ((fun _ => 4) <$> shadow G m) ++ option_list ((fun _ => 5) <$> omni G m) ++ [6] ++ option_list ((fun _ => 7) <$> f_irradianceMap G r) ++ option_list ((fun _ => 8) <$> environmentMap G r) ++ [9]) as Hfst.
  { unfold l. by destruct (shadow G m), (omni G m), (f_irradianceMap G r), (environmentMap G r). }
  destruct (update_singles l [] (screenSet G r1)) as (s & E & Hok' & H1 & H2 & _).
  { by rewrite E1. }
  { rewrite Hfst. apply (bool_decide_unpack _). by destruct (shadow G m), (omni G m), (f_irradianceMap G r), (environmentMap G r). }
  { rewrite <- (length_fmap fst), Hfst. unfold MAX_IMAGE_INFOS. destruct (shadow G m), (omni G m), (f_irradianceMap G r), (environmentMap G r); cbn; lia. }
  { constructor. }
  { rewrite <- (length_fmap fst), Hfst. unfold MAX_WRITE_DESCTIPTORS. destruct (shadow G m), (omni G m), (f_irradianceMap G r), (environmentMap G r); cbn; lia. }
  rewrite update_images_update. change ((fun x : Z * N => mkImageInfo [Some (snd x)] (fst x)) <$> l) with (info <$> l). rewrite E, bind_Ret, E1.
  exists s, u. split; [done|]. split; [done|]. split; [|split; [done|split; [|split]]].
  - assert (forall b t, (b, t) ∈ l -> images (screenSet G (with_screen G s (with_uniform G u r))) !! (b, 0%nat) = Some (Some t)) as Hin by exact H1.
    split; cbn [f_irradianceMap environmentMap preIntegratedFG with_screen with_uniform].
    + intros b i t Hbi Ht. apply Hin. unfold l. rewrite Et in Ht. rewrite !elem_of_cons, elem_of_nil in Hbi.
      destruct Hbi as [[= -> ->]|[[= -> ->]|[[= -> ->]|[[= -> ->]|[]]]]]; injection Ht as ->; rewrite !elem_of_app, !elem_of_cons; auto 12.
    + intros d' Hd'. rewrite Hd in Hd'. injection Hd' as <-. apply Hin. unfold l. apply elem_of_app. left. do 3 right. by left.
    + intros x Hx. apply Hin. unfold l. rewrite Hx. apply elem_of_app. right. apply elem_of_app. left. by left.
    + intros x Hx. apply Hin. unfold l. rewrite Hx. do 2 (apply elem_of_app; right). apply elem_of_app. left. by left.
    + intros x Hx. apply Hin. unfold l. rewrite Hx. do 4 (apply elem_of_app; right). apply elem_of_app. left. by left.
    + intros x Hx. apply Hin. unfold l. rewrite Hx. do 5 (apply elem_of_app; right). apply elem_of_app. left. by left.
    + apply Hin. unfold l. do 6 (apply elem_of_app; right). by left.
  - intros b j Hb. rewrite H2; [by rewrite E1|]. rewrite Hfst. rewrite elem_of_seqZ in Hb.
    destruct (shadow G m), (omni G m), (f_irradianceMap G r), (environmentMap G r); cbn; rewrite !elem_of_cons, elem_of_nil; lia.
  - intros Hn j. rewrite H2; [by rewrite E1|]. rewrite Hfst, Hn. destruct (shadow G m), (omni G m), (environmentMap G r); cbn; rewrite !elem_of_cons, elem_of_nil; lia.
  - intros Hn j. rewrite H2; [by rewrite E1|]. rewrite Hfst, Hn. destruct (shadow G m), (omni G m), (f_irradianceMap G r); cbn; rewrite !elem_of_cons, elem_of_nil; lia.
Qed.
End Deferred.
(** *** The buffers of a size *)
Section Buffers.
Context (created : N -> bool) (typeBits : N -> Z) (memoryTypes : list Z) (props : VulkanHelper.Format -> VulkanHelper.FormatProperties).
Context (can : TextureProps.generous created typeBits memoryTypes) (depthFormat : VulkanHelper.Format) (Hdepth : VulkanHelper.findDepthFormat props = Ret depthFormat).

Lemma image_made w h n f k c d : exists d' i m, Images.createImage created typeBits memoryTypes w h n f k c d = Ret (d', i, m).
Proof.
  destruct can as [Hc Hm]. unfold Images.createImage. destruct (Images.new _ d) as [d1 a]. rewrite Hc. destruct (Images.new _ d1) as [d2 i]. destruct (Hm i) as [type ->]. rewrite bind_Ret.
  destruct (Images.new _ d2) as [d3 m]. by eexists _, _, _.
Qed.
Lemma view_made i f n t l b d : exists d' v, Images.createImageView created i f n t l b d = Ret (d', v).
Proof. destruct can as [Hc _]. unfold Images.createImageView. destruct (Images.new _ d) as [d1 v]. rewrite Hc. by eexists _, _. Qed.

(** A texture of this size, shown by a view of its own. *)
Definition sized (w h : Z) (t : Texture.Texture2D) : Prop :=
  Texture.width t = w /\ Texture.height t = h /\ Texture.mipLevels t = 1 /\ exists v, Texture.view t = Some v /\ GBuffer.shown t = v.
Lemma texture_built f w h srgb t d : exists d' t', Texture.buildTexture created typeBits memoryTypes f w h srgb t d = Ret (d', t') /\ sized w h t'.
Proof.
  unfold Texture.buildTexture. destruct (image_made w h 1 (VulkanHelper.textureFormatToVK f srgb) 1 false (Texture.destroy t d)) as (d1 & i & m & ->). rewrite bind_Ret.
  destruct (view_made i (VulkanHelper.textureFormatToVK f srgb) 1 Images.VIEW_2D 1 0 d1) as (d2 & v & ->). rewrite bind_Ret.
  destruct (Texture.make_sampler (Texture.parameters t) 1 d2) as [d3 s]. eexists _, _. split; [reflexivity|]. split_and!; [done|done|done|]. by exists v.
Qed.
Lemma depth_made w h d : exists d' t, Texture.depth_init created typeBits memoryTypes props w h d = Ret (d', t) /\ Texture.d_width t = w /\ Texture.d_height t = h.
Proof.
  unfold Texture.depth_init. rewrite Hdepth, bind_Ret. destruct (image_made w h 1 depthFormat 1 false d) as (d1 & i & m & ->). rewrite bind_Ret.
  destruct (view_made i depthFormat 1 Images.VIEW_2D 1 0 d1) as (d2 & v & ->). rewrite bind_Ret. destruct (Images.createTextureSampler _ _ _ _ _) as [d3 s]. by eexists _, _.
Qed.

(** The four textures and the depth buffer have the size of the buffers. *)
Definition buffers_sized (g : GBuffer.GBuffer) : Prop :=
  (forall i, i ∈ [GBuffer.COLOR; GBuffer.POSITION; GBuffer.NORMALS; GBuffer.PBR] -> exists t, GBuffer.screenTextures g !! i = Some t /\ sized (GBuffer.g_width g) (GBuffer.g_height g) t)
  /\ exists t, GBuffer.depthBuffer g = Some t /\ Texture.d_width t = GBuffer.g_width g /\ Texture.d_height t = GBuffer.g_height g.

Lemma defaults_made d : exists d' ts, foldM GBuffer.default_texture (seq 0 GBuffer.LENGTH) (d, []) = Ret (d', ts) /\ length ts = GBuffer.LENGTH.
Proof.
  destruct (foldM_seq (fun i x => length (snd x) = i) GBuffer.default_texture GBuffer.LENGTH (d, [])) as ([d' ts] & E & H); [done| |by exists d', ts].
  intros i [d1 ts] _ Hl. cbn in Hl. unfold GBuffer.default_texture. destruct (Texture.construct_default _) as [d2 t]. eexists. split; [reflexivity|]. cbn. rewrite length_app, Hl. cbn. lia.
Qed.

Lemma ones_built l : forall d g, Forall (fun i => (i < GBuffer.LENGTH)%nat /\ is_Some (GBuffer.formats g !! i)) l -> NoDup l -> length (GBuffer.screenTextures g) = GBuffer.LENGTH -> exists d' g',
  foldM (GBuffer.build_one created typeBits memoryTypes) l (d, g) = Ret (d', g') /\ length (GBuffer.screenTextures g') = GBuffer.LENGTH
  /\ GBuffer.g_width g' = GBuffer.g_width g /\ GBuffer.g_height g' = GBuffer.g_height g /\ GBuffer.depthBuffer g' = GBuffer.depthBuffer g
  /\ (forall i, i ∈ l -> exists t, GBuffer.screenTextures g' !! i = Some t /\ sized (GBuffer.g_width g) (GBuffer.g_height g) t)
  /\ (forall i, i ∉ l -> GBuffer.screenTextures g' !! i = GBuffer.screenTextures g !! i).
Proof.
  induction l as [|i l IH]; intros d g Hf Hn Hl; cbn [foldM].
  - exists d, g. split_and!; try done. intros i Hi. by apply elem_of_nil in Hi.
  - apply Forall_cons in Hf as [[Hi [f Hif]] Hf]. apply NoDup_cons in Hn as [Hil Hn]. destruct (lookup_lt_is_Some_2 (GBuffer.screenTextures g) i) as [t Ht]; [lia|].
    destruct (texture_built f (GBuffer.g_width g) (GBuffer.g_height g) false t d) as (d1 & t1 & Eb & Hs).
    set (g1 := GBuffer.mkGBuffer (GBuffer.g_width g) (GBuffer.g_height g) (<[i := t1]> (GBuffer.screenTextures g)) (GBuffer.depthBuffer g) (GBuffer.formats g)).
    assert (GBuffer.build_one created typeBits memoryTypes i (d, g) = Ret (d1, g1)) as ->
      by (unfold GBuffer.build_one, vec_at; rewrite Ht, bind_Ret, Hif; cbn [deref]; by rewrite bind_Ret, Eb).
    rewrite bind_Ret. destruct (IH d1 g1)
      as (d' & g' & E & H1 & H2 & H3 & H4 & H5 & H6); [done|done|by cbn; rewrite length_insert|].
    exists d', g'. split; [exact E|]. cbn in *. split_and!; try done.
    + intros j Hj. apply elem_of_cons in Hj as [->|Hj]; [|by apply H5]. exists t1. split; [|done]. rewrite H6 by done. apply list_lookup_insert_eq. lia.
    + intros j Hj. apply not_elem_of_cons in Hj as [Hne Hj]. rewrite H6 by done. by apply list_lookup_insert_ne.
Qed.

(** Building the buffers, the first time or again. *)
Lemma buffers_built g d : GBuffer.depthBuffer g = None \/ has_buffers g -> exists d' g', GBuffer.buildTexture created typeBits memoryTypes props g d = Ret (d', g')
  /\ GBuffer.g_width g' = GBuffer.g_width g /\ GBuffer.g_height g' = GBuffer.g_height g /\ has_buffers g' /\ buffers_sized g'.
Proof.
  intros H. unfold GBuffer.buildTexture. assert (exists d1 g1, GBuffer.make_textures created typeBits memoryTypes props g d = Ret (d1, g1)
    /\ GBuffer.g_width g1 = GBuffer.g_width g /\ GBuffer.g_height g1 = GBuffer.g_height g /\ has_buffers g1) as (d1 & g1 & -> & W1 & H1 & [Hl [dp Hdp]]).
  { unfold GBuffer.make_textures. destruct (GBuffer.depthBuffer g) as [dp|] eqn:E.
    - exists d, g. destruct H as [H|H]; [discriminate|]. by split_and!.
    - destruct (defaults_made d) as (d1 & ts & -> & Hts). rewrite bind_Ret. destruct (depth_made (GBuffer.g_width g) (GBuffer.g_height g) d1) as (d2 & t & -> & _). rewrite bind_Ret.
      eexists _, _. split; [reflexivity|]. split_and!; [done|done|by split; [|eexists]]. }
  rewrite bind_Ret. set (g2 := GBuffer.mkGBuffer _ _ _ _ _).
  destruct (ones_built [GBuffer.COLOR; GBuffer.POSITION; GBuffer.NORMALS; GBuffer.PBR] d1 g2) as (d3 & g3 & -> & L3 & W3 & H3 & D3 & S3 & _).
  { unfold g2. cbn [GBuffer.formats]. unfold GBuffer.screen_formats, GBuffer.LENGTH. repeat constructor; cbn; try (unfold GBuffer.COLOR, GBuffer.POSITION, GBuffer.NORMALS, GBuffer.PBR; lia); eexists; by repeat (rewrite lookup_insert_eq || rewrite lookup_insert_ne by done). }
  { apply (bool_decide_unpack _). by vm_compute. }
  { exact Hl. }
  rewrite bind_Ret, D3. unfold g2 at 1. cbn [GBuffer.depthBuffer]. rewrite Hdp. cbn [deref]. rewrite bind_Ret. unfold Texture.depth_resize.
  destruct (depth_made (GBuffer.g_width g3) (GBuffer.g_height g3) (Texture.depth_release dp d3)) as (d4 & t & -> & Wt & Ht). rewrite bind_Ret.
  eexists _, _. split; [reflexivity|]. cbn. unfold g2 in *. cbn in *. split; [congruence|]. split; [congruence|]. split; [by split; [|eexists]|]. split; [|by exists t].
  intros i Hi. destruct (S3 i Hi) as (x & Hx & Hsz). exists x. split; [done|]. by rewrite W3, H3.
Qed.
End Buffers.

(** Resizing: the geometry buffers are made anew in the new size, and the light pass
    then reads them, each at its binding, with the shadow maps there are and the
    maps of the environment, and draws to frame buffers of that size. *)
Lemma light_resized (G : glm) created typeBits memoryTypes props depthFormat newFrame images geometry w h g m (r : LightPass.Deferred G) d :
  TextureProps.generous created typeBits memoryTypes -> VulkanHelper.findDepthFormat props = Ret depthFormat -> has_buffers g -> pools_ok (screenSet G r) ->
  exists d' g' r', GBuffer.resize created typeBits memoryTypes props w h g d = Ret (d', g') /\ onResize G newFrame images geometry w h g' m r = Ret r'
  /\ GBuffer.g_width g' = w /\ GBuffer.g_height g' = h /\ buffers_sized g' /\ reads G g' m r' /\ pools_ok (screenSet G r')
  /\ f_size G r' = (w, h) /\ o_size G (offScreen G r') = (w, h) /\ o_frames G (offScreen G r') = [geometry]
  /\ f_frames G r' = match renderTexture G r with Some t => [newFrame (Some t) 0%nat] | None => newFrame None <$> seq 0 images end
  /\ (renderTexture G r' = renderTexture G r /\ f_pass G r' = f_pass G r /\ environmentMap G r' = environmentMap G r
      /\ o_pipeline G (offScreen G r') = o_pipeline G (offScreen G r) /\ omniIndex G (offScreen G r') = omniIndex G (offScreen G r)
      /\ o_pushes G (offScreen G r') = o_pushes G (offScreen G r) /\ o_pass G (offScreen G r') = o_pass G (offScreen G r)).
Proof.
  intros Hcan Hdf Hg Hok. unfold GBuffer.resize. set (g0 := GBuffer.mkGBuffer w h _ _ _).
  destruct (buffers_built created typeBits memoryTypes props Hcan depthFormat Hdf g0 d) as (d' & g' & E & W & H & Hb & Hs); [by right|].
  unfold onResize. set (r1 := with_offScreen G _ _). destruct (updated_reads G g' m r1 Hb) as (s & u & E' & Hok' & Hr & _); [exact Hok|].
  eexists d', g', _. split; [exact E|]. split; [exact E'|]. by split_and!.
Qed.

(** *** The maps of an environment *)
Section Processed.
Context (G : glm) (lookAt : vec3 -> vec3 -> vec3 -> mat G).
Import PreProcess.
Implicit Types (r : PreProcess G) (x : Stage).

(** The push constants of a stage, if any, have room for the view. *)
Definition ready x : Prop := pools_ok (st_set x) /\ is_Some (st_frame x) /\ match st_pushes x with [] => True | z :: _ => sizeof_mat4 <= z end.

Definition view_pushes (sizes : list Z) (i : nat) : list (Command (option (Pushed G))) :=
  match sizes with [] => [] | _ => PushConstants (Some (mkPushed G (captureView G lookAt i) (NoTail G))) :: replicate (length sizes - 1) (PushConstants None) end.

(** The pass that draws the cube, seen from its centre through a face, in a frame
    of this size, and is copied to that face of a level. *)
Definition face_drawn (p : RenderPass) (mesh : N) (n : nat) x (size : Z) (target : option N) (mip : Z) (i : nat) : Event G :=
  Execute G n (updateViewport size size ++ [BeginRenderPass (default 0%N (st_frame x)) size size (clearValue p)] ++
    [BindPipeline (st_pipeline x); BindVertexBuffer mesh; BindIndexBuffer mesh] ++ view_pushes (st_pushes x) i ++
    [BindDescriptorSets [st_set x] (dynamic_count [st_set x]) 0] ++ drawIndexed Skybox.cube_count 0 ++ [EndRenderPass])
    ((fun t => (t, Z.of_nat i, mip)) <$> target).

Lemma face_ok p0 p mesh n x size target i mip : clear_values violet p0 = Ret p -> ready x -> u32 size = size ->
  one_face G lookAt mesh n x size target i mip p0 = Ret (p, face_drawn p mesh n x size target mip i).
Proof.
  intros Hp (_ & [fb Hfb] & Hz) Hs. unfold one_face, face_drawn. rewrite Hs, Hfb, (begin_again _ _ _ _ _ _ Hp), bind_Ret, bind_one.
  assert (push_view G lookAt (st_pushes x) i = Ret (view_pushes (st_pushes x) i)) as ->.
  { unfold push_view, view_pushes. destruct (st_pushes x) as [|z l] eqn:E; [done|]. unfold push. cbn. unfold PreProcess.sizeof_mat4, sizeof_mat4 in *. by rewrite (proj2 (Z.leb_le _ _) Hz). }
  rewrite !bind_Ret. by rewrite <- !app_assoc.
Qed.

Definition faces_drawn (p : RenderPass) (mesh : N) (n : nat) x (size : Z) (target : option N) (mip : Z) (before : nat -> list (Event G)) : list (Event G) :=
  seq 0 6 ≫= fun i => before i ++ [face_drawn p mesh n x size target mip i].
Lemma faces_ok p0 p mesh n x size target mip before es : clear_values violet p0 = Ret p -> ready x -> u32 size = size ->
  faces G lookAt mesh n x size target mip before (p0, es) = Ret (p, es ++ faces_drawn p mesh n x size target mip before).
Proof.
  intros Hp Hx Hs. unfold faces, faces_drawn. cbn [seq foldM]. rewrite (face_ok _ _ _ _ _ _ _ _ _ Hp Hx Hs), bind_Ret. cbn [fst snd].
  do 5 (rewrite bind_Ret, (face_ok _ _ _ _ _ _ _ _ _ (clear_again _ _ _ Hp) Hx Hs), bind_Ret; cbn [fst snd]).
  rewrite bind_Ret. cbn. f_equal. f_equal. by rewrite <- !app_assoc.
Qed.

Definition levels_drawn (p : RenderPass) (mesh : N) (n : nat) x (size : Z) (target : option N) (level : Z -> list (Event G)) (before : nat -> list (Event G)) : list (Event G) :=
  seqZ 0 maxMipLevels ≫= fun mip => level mip ++ faces_drawn p mesh n x (mip_size size mip) target mip before.
Lemma levels_ok p0 p mesh n x size target level before es : clear_values violet p0 = Ret p -> ready x ->
  Forall (fun mip => u32 (mip_size size mip) = mip_size size mip) (seqZ 0 maxMipLevels) ->
  levels G lookAt mesh n x size target level before (p0, es) = Ret (p, es ++ levels_drawn p mesh n x size target level before).
Proof.
  intros Hp Hx. unfold levels, levels_drawn. change (seqZ 0 maxMipLevels) with [0; 1; 2; 3; 4]. intros Hs. rewrite !Forall_cons in Hs. destruct Hs as (S0 & S1 & S2 & S3 & S4 & _).
  cbn [foldM fst snd]. rewrite (faces_ok _ _ _ _ _ _ _ _ _ _ Hp Hx S0), bind_Ret. cbn [fst snd].
  rewrite (faces_ok _ _ _ _ _ _ _ _ _ _ (clear_again _ _ _ Hp) Hx S1), bind_Ret. cbn [fst snd].
  rewrite (faces_ok _ _ _ _ _ _ _ _ _ _ (clear_again _ _ _ Hp) Hx S2), bind_Ret. cbn [fst snd].
  rewrite (faces_ok _ _ _ _ _ _ _ _ _ _ (clear_again _ _ _ Hp) Hx S3), bind_Ret. cbn [fst snd].
  rewrite (faces_ok _ _ _ _ _ _ _ _ _ _ (clear_again _ _ _ Hp) Hx S4), bind_Ret. cbn. f_equal. f_equal. by rewrite <- !app_assoc.
Qed.

(** The cube of an environment: the one it has, or a new one. *)
Definition with_new_cube (newCube : N) (e : Environment.Environment) : Environment.Environment :=
  match Environment.environmnet e with Some _ => e | None => Environment.setEnvironmnet (Some newCube) e end.

(** The work for an environment, once the three sets are up to date. *)
Definition work (half_pi : f32) (p : RenderPass) (e : Environment.Environment) r : list (Event G) :=
  (Write G (b_cube (buffers G r)) (Projection G (capture G (right_angle G))) ::
    levels_drawn p (e_mesh G r) 0 (cube G r) SkyboxSize (Environment.environmnet e) (fun _ => []) (fun _ => [])) ++
  faces_drawn p (e_mesh G r) 1 (irradiance G r) Environment.IrradianceMapSize (Environment.irradianceMap e) 0
    (fun i => [Write G (b_skybox (buffers G r)) (ViewProjection G (captureView G lookAt i) (capture G (right_angle G)))]) ++
  levels_drawn p (e_mesh G r) 2 (prefilter G r) Environment.PrefilterMapSize (Environment.prefilteredEnvironment e)
    (fun mip => [Write G (b_prefilterFrag (buffers G r)) (Roughness G (roughness_of mip))])
    (fun i => [Write G (b_prefilter (buffers G r)) (ViewProjection G (captureView G lookAt i) (capture G half_pi))]).

Lemma skybox_generated e r p : clear_values violet (e_pass G r) = Ret p -> ready (cube G r) ->
  generateSkybox G lookAt e r = Ret (with_stages G p (cube G r) (irradiance G r) (prefilter G r) r,
    Write G (b_cube (buffers G r)) (Projection G (cubeProjection G r)) ::
    levels_drawn p (e_mesh G r) 0 (cube G r) SkyboxSize (Environment.environmnet e) (fun _ => []) (fun _ => [])).
Proof. intros Hp Hr. unfold generateSkybox. rewrite (levels_ok _ p), bind_Ret; [done|done|done|by repeat constructor]. Qed.
Lemma irradiance_generated e r p : clear_values violet (e_pass G r) = Ret p -> ready (irradiance G r) ->
  generateIrradianceMap G lookAt e r = Ret (with_stages G p (cube G r) (irradiance G r) (prefilter G r) r,
    faces_drawn p (e_mesh G r) 1 (irradiance G r) Environment.IrradianceMapSize (Environment.irradianceMap e) 0
      (fun i => [Write G (b_skybox (buffers G r)) (ViewProjection G (captureView G lookAt i) (capture G (right_angle G)))])).
Proof. intros Hp Hr. unfold generateIrradianceMap. by rewrite (faces_ok _ p), bind_Ret. Qed.
Lemma prefilter_generated half_pi e r p : clear_values violet (e_pass G r) = Ret p -> ready (prefilter G r) ->
  generatePrefilterMap G lookAt half_pi e r = Ret (with_stages G p (cube G r) (irradiance G r) (prefilter G r) r,
    levels_drawn p (e_mesh G r) 2 (prefilter G r) Environment.PrefilterMapSize (Environment.prefilteredEnvironment e)
      (fun mip => [Write G (b_prefilterFrag (buffers G r)) (Roughness G (roughness_of mip))])
      (fun i => [Write G (b_prefilter (buffers G r)) (ViewProjection G (captureView G lookAt i) (capture G half_pi))])).
Proof. intros Hp Hr. unfold generatePrefilterMap. rewrite (levels_ok _ p), bind_Ret; [done|done|done|by repeat constructor]. Qed.

(** The copies of a list of events: cube, face, level. *)
Definition copies (es : list (Event G)) : list (N * Z * Z) := omap (fun e => match e with Execute _ _ _ c => c | _ => None end) es.

Lemma copies_app es es' : copies (es ++ es') = copies es ++ copies es'.
Proof. apply omap_app. Qed.
Lemma copies_faces p mesh n x size t mip before : (forall i, copies (before i) = []) ->
  copies (faces_drawn p mesh n x size (Some t) mip before) = (fun i => (t, Z.of_nat i, mip)) <$> seq 0 6.
Proof. intros H. unfold faces_drawn. cbn [seq mbind list_bind]. rewrite !copies_app, !H. reflexivity. Qed.
Lemma copies_levels p mesh n x size t level before : (forall m, copies (level m) = []) -> (forall i, copies (before i) = []) ->
  copies (levels_drawn p mesh n x size (Some t) level before) = seqZ 0 maxMipLevels ≫= fun mip => (fun i => (t, Z.of_nat i, mip)) <$> seq 0 6.
Proof.
  intros Hl Hb. unfold levels_drawn. change (seqZ 0 maxMipLevels) with [0; 1; 2; 3; 4]. cbn [mbind list_bind].
  rewrite !copies_app, !Hl, !copies_faces by done. reflexivity.
Qed.

Lemma copies_work half_pi p e r c irr pre : Environment.environmnet e = Some c -> Environment.irradianceMap e = Some irr -> Environment.prefilteredEnvironment e = Some pre ->
  copies (work half_pi p e r) = (seqZ 0 maxMipLevels ≫= fun mip => (fun i => (c, Z.of_nat i, mip)) <$> seq 0 6) ++ ((fun i => (irr, Z.of_nat i, 0)) <$> seq 0 6)
    ++ (seqZ 0 maxMipLevels ≫= fun mip => (fun i => (pre, Z.of_nat i, mip)) <$> seq 0 6).
Proof. intros H1 H2 H3. unfold work. rewrite H1, H2, H3, !copies_app. change (Write G ?x ?y :: ?l) with ([Write G x y] ++ l). rewrite copies_app, !copies_levels, copies_faces by done. reflexivity. Qed.

Lemma shows_cube c bis s : pools_ok s -> NoDup (bi_binding <$> bis) -> (length bis <= 2)%nat -> forall b, exists s' : DescriptorSet N,
  update [mkImageInfo [Some c] b] bis s = Ret s' /\ pools_ok s' /\ images s' !! (b, 0%nat) = Some (Some c).
Proof.
  intros Hok Hn Hb b. destruct (update_singles [(b, c)] bis s Hok) as (s' & E & Hok' & H & _); [|cbn; unfold MAX_IMAGE_INFOS; lia|done|cbn; unfold MAX_WRITE_DESCTIPTORS; lia|].
  { apply NoDup_singleton. }
  exists s'. split; [exact E|]. split; [done|]. apply H. by left.
Qed.

(** An update known up to conversion. *)
Ltac known E := match type of E with ?l = ?r => match goal with |- context [update ?a ?b ?c] => replace (update a b c) with r by exact (eq_sym E) end end.

(** C29. An environment is processed once: when it shows another map than before, the
    next frame fills the cube of the sky, every face of five levels, from that map;
    then the irradiance map and the prefiltered map from the cube; and afterwards,
    with nothing changed, a frame does nothing.  The copies are those that are asked
    for; their extents and layouts are not part of an event. *)
Theorem environment_processed half_pi newCube e r p irr pre : equirectangular G r <> Environment.equirectangularMap e -> clear_values violet (e_pass G r) = Ret p ->
  ready (cube G r) -> ready (irradiance G r) -> ready (prefilter G r) ->
  Environment.irradianceMap e = Some irr -> Environment.prefilteredEnvironment e = Some pre ->
  let e' := with_new_cube newCube e in exists r1 r2 es c,
  pre_beginScene G (Some e) r = Ret r1 /\ pre_renderScene G lookAt half_pi newCube (Some e) r1 = Ret (r2, Some e', es)
  /\ es = work half_pi p e' r2 /\ Environment.environmnet e' = Some c
  /\ copies es = (seqZ 0 maxMipLevels ≫= fun mip => (fun i => (c, Z.of_nat i, mip)) <$> seq 0 6) ++ ((fun i => (irr, Z.of_nat i, 0)) <$> seq 0 6)
       ++ (seqZ 0 maxMipLevels ≫= fun mip => (fun i => (pre, Z.of_nat i, mip)) <$> seq 0 6)
  /\ (forall t, Environment.equirectangularMap e = Some t -> images (st_set (cube G r2)) !! (1, 0%nat) = Some (Some t))
  /\ images (st_set (irradiance G r2)) !! (1, 0%nat) = Some (Some c) /\ images (st_set (prefilter G r2)) !! (2, 0%nat) = Some (Some c)
  /\ pre_beginScene G (Some e') r2 = Ret r2 /\ pre_renderScene G lookAt half_pi newCube (Some e') r2 = Ret (r2, Some e', []).
Proof.
  intros Hne Hp (Hok1 & Hf1 & Hz1) (Hok2 & Hf2 & Hz2) (Hok3 & Hf3 & Hz3) Hirr Hpre e'.
  assert (Environment.irradianceMap e' = Some irr /\ Environment.prefilteredEnvironment e' = Some pre /\ Environment.equirectangularMap e' = Environment.equirectangularMap e
    /\ exists c, Environment.environmnet e' = Some c) as (Hirr' & Hpre' & Hmap & c & Hc) by (unfold e', with_new_cube; destruct (Environment.environmnet e) eqn:E; split_and!; eauto).
  unfold pre_beginScene at 1. rewrite bool_decide_false by done. unfold updateUniform. cbn [equirectangular with_map cube buffers].
  destruct (update_singles (pair 1 <$> option_list (Environment.equirectangularMap e)) [mkBufferInfo (b_cube (buffers G r)) 0 64 0 UNIFORM_BUFFER] (st_set (cube G r)) Hok1)
    as (s1 & E1 & Hs1 & I1 & _); [destruct (Environment.equirectangularMap e); [apply NoDup_singleton|apply NoDup_nil_2]
    |destruct (Environment.equirectangularMap e); cbn; unfold MAX_IMAGE_INFOS; lia|apply NoDup_singleton|destruct (Environment.equirectangularMap e); cbn; unfold MAX_WRITE_DESCTIPTORS; lia|].
  assert ((fun m => mkImageInfo [Some m] 1) <$> option_list (Environment.equirectangularMap e) = info <$> (pair 1 <$> option_list (Environment.equirectangularMap e))) as ->
    by (by destruct (Environment.equirectangularMap e)).
  rewrite E1, bind_Ret. set (r1 := with_map _ _ _ _ _). 
  destruct (shows_cube c [mkBufferInfo (b_skybox (buffers G r)) 0 128 0 UNIFORM_BUFFER] (st_set (irradiance G r)) Hok2) with (b := 1) as (s2 & E2 & Hs2 & I2); [apply NoDup_singleton|cbn; lia|].
  destruct (shows_cube c [mkBufferInfo (b_prefilter (buffers G r)) 0 128 0 UNIFORM_BUFFER; mkBufferInfo (b_prefilterFrag (buffers G r)) 0 16 1 UNIFORM_BUFFER]
    (st_set (prefilter G r)) Hok3) with (b := 2) as (s3 & E3 & Hs3 & I3); [by apply (bool_decide_unpack _)|cbn; lia|].
  assert (ready (with_set s2 (irradiance G r)) /\ ready (with_set s3 (prefilter G r)) /\ ready (with_set s1 (cube G r))) as (R2 & R3 & R1) by (by split_and!).
  pose (r2 := mkPreProcess G p (with_set s1 (cube G r)) (with_set s2 (irradiance G r)) (with_set s3 (prefilter G r)) (e_mesh G r) (buffers G r)
    (Environment.equirectangularMap e) false (capture G (right_angle G))). exists r1, r2, (work half_pi p e' r2), c. split; [reflexivity|]. split.
  { unfold pre_renderScene. cbn [envComponent r1 with_map deref]. rewrite bind_Ret. change (match Environment.environmnet e with Some _ => e | None => _ end) with e'.
    rewrite (skybox_generated _ _ p), bind_Ret by done. cbv beta iota. unfold updateIrradianceDescriptor. rewrite Hc. known E2. rewrite !bind_Ret.
    rewrite (irradiance_generated _ _ p) by (done || exact (clear_again _ _ _ Hp)). rewrite bind_Ret. cbv beta iota. unfold updatePrefilterDescriptor. rewrite Hc. known E3. rewrite !bind_Ret.
    rewrite (prefilter_generated _ _ _ p) by (done || exact (clear_again _ _ _ Hp)). rewrite bind_Ret.
    unfold work. rewrite Hc. reflexivity. }
  split; [done|]. split; [done|]. split; [by apply copies_work|].
  split; [intros t Ht; apply I1; rewrite Ht; by left|]. split; [exact I2|]. split; [exact I3|]. split.
  - unfold pre_beginScene. rewrite Hmap. by rewrite bool_decide_true.
  - reflexivity.
Qed.
End Processed.

(** *** Resizing the sky *)

(** The uniforms and the cube are bound again, and the frame buffers are new. *)
Lemma sky_resized (G : glm) new newFrame n w h (r : Skybox.Skybox G) : pools_ok (Skybox.k_set G r) -> exists r',
  Skybox.sky_onResize G new newFrame n w h r = Ret r' /\ pools_ok (Skybox.k_set G r') /\ Skybox.k_target G r' = Skybox.k_target G r /\ Skybox.k_pass G r' = Skybox.k_pass G r
  /\ Skybox.k_frames G r' = Skybox.sky_createFrameBuffer G newFrame n r /\ Skybox.k_size G r' = (w, h) /\ Skybox.cubeMap G r' = Skybox.cubeMap G r
  /\ (forall c, Skybox.cubeMap G r = Some c -> images (Skybox.k_set G r') !! (1, 0%nat) = Some (Some c)).
Proof.
  intros Hok. unfold Skybox.sky_onResize, Skybox.updateUniform. cbn [Skybox.cubeMap Skybox.with_sky_target Skybox.k_set Skybox.uniformBuffer Skybox.uniformBufferLodLevel].
  assert ((fun c => mkImageInfo [Some c] 1) <$> option_list (Skybox.cubeMap G r) = info <$> (pair 1 <$> option_list (Skybox.cubeMap G r))) as -> by (by destruct (Skybox.cubeMap G r)).
  set (bis := [_; _]). destruct (update_singles (pair 1 <$> option_list (Skybox.cubeMap G r)) bis (Skybox.k_set G r) Hok) as (s & E & Hs & Hi & _).
  - destruct (Skybox.cubeMap G r); [apply NoDup_singleton|apply NoDup_nil_2].
  - destruct (Skybox.cubeMap G r); cbn; unfold MAX_IMAGE_INFOS; lia.
  - by apply (bool_decide_unpack _).
  - destruct (Skybox.cubeMap G r); cbn; unfold MAX_WRITE_DESCTIPTORS; lia.
  - rewrite E, !bind_Ret. eexists. split; [reflexivity|]. split_and!; try done. intros c Hc. apply Hi. rewrite Hc. by left.
Qed.

(** *** The grid *)

(** With a camera, a frame of the grid uploads its view and draws the plane once. *)
Lemma grid_drawn (G : glm) cam t (r : Grid.Grid G) current fb p : Grid.g_frames G r !! match Grid.g_target G r with Some _ => 0%nat | None => current end = Some fb ->
  clear_values PreProcess.violet (Grid.g_pass G r) = Ret p -> let w := SceneGraph.Transform.worldMatrix (transform_glm G) t in exists cam' t' r' r'',
  Grid.grid_beginScene G (Some cam) (Some t) r = (Some cam', Some t', r') /\ Grid.grid_renderScene G current r' = Ret (r'',
    updateViewport (fst (Grid.g_size G r)) (snd (Grid.g_size G r)) ++ [BeginRenderPass fb (fst (Grid.g_size G r)) (snd (Grid.g_size G r)) (clearValue p)] ++
    [BindPipeline (Grid.g_pipeline G r); BindVertexBuffer (Grid.g_quad G r); BindIndexBuffer (Grid.g_quad G r);
     BindDescriptorSets [Grid.g_set G r] (dynamic_count [Grid.g_set G r]) 0; DrawIndexed 6] ++ [EndRenderPass])
  /\ Grid.g_uploaded G r'' = Some (mul G (Camera.projMatrix G (Camera.clean G cam)) (inverse G w),
       Grid.mkFragment (Light.with_one (column3 G w)) Grid.gridSize Grid.gridRes Grid.maxDistance).
Proof.
  intros Hf Hp w. unfold Grid.grid_beginScene, Camera.getProjectionMatrix, SceneGraph.Transform.getWorldMatrix. rewrite refresh_world. fold w.
  eexists _, _, _, _. split; [reflexivity|]. unfold Grid.grid_renderScene. cbn [Grid.g_frames Grid.g_target Grid.with_uniforms Grid.g_size Grid.g_pass]. unfold vec_at. rewrite Hf, bind_Ret.
  rewrite (begin_again _ _ _ _ _ _ Hp), bind_Ret. unfold Grid.grid_present. cbn [Grid.g_set]. rewrite bind_one, !bind_Ret. split; [by rewrite <- !app_assoc|done].
Qed.

(** *** The environment goes away *)
Section Removed.
Context (G : glm).
Import PreProcess.

(** The light pass is told, but the maps of the old environment stay in its set; and
    the sky keeps its cube. *)
Lemma environment_removed g m (r : LightPass.Deferred G) : has_buffers g -> pools_ok (screenSet G r) -> environmentMap G r <> None -> exists r',
  see_environment G g m None r = Ret r' /\ environmentMap G r' = None
  /\ (forall b, b = 7 \/ b = 8 -> images (screenSet G r') !! (b, 0%nat) = images (screenSet G r) !! (b, 0%nat)).
Proof.
  intros Hg Hok Hne. unfold see_environment. rewrite bool_decide_false by done.
  destruct (updated_reads G g m (with_maps G None None r) Hg Hok) as (s & u & -> & _ & _ & _ & _ & H7 & H8).
  eexists. split; [reflexivity|]. split; [done|]. intros b [-> | ->]; [by apply H7|by apply H8].
Qed.
Lemma sky_stays clear new cam t (k : Skybox.Skybox G) : exists k', Skybox.sky_beginScene G clear new (Some cam) (Some t) None k = Ret (Some (Camera.clean G cam), Some (SceneGraph.Transform.refresh _ t), k')
  /\ Skybox.cubeMap G k' = Skybox.cubeMap G k.
Proof. by eexists. Qed.

(** A new environment with the map of the last one is never prepared: it has no cube. *)
Lemma same_map_not_made lookAt half_pi newCube e (r : PreProcess G) : equirectangular G r = Environment.equirectangularMap e -> envComponent G r = false ->
  exists r', pre_beginScene G (Some e) r = Ret r' /\ pre_renderScene G lookAt half_pi newCube (Some e) r' = Ret (r', Some e, []).
Proof. intros He Hp. exists r. unfold pre_beginScene, pre_renderScene. rewrite bool_decide_true by done. by rewrite Hp. Qed.
End Removed.

(** *** Witnesses *)
Definition demo_set : DescriptorSet N := DescriptorSet.make.
Lemma demo_set_ok : pools_ok demo_set.
Proof. split; reflexivity. Qed.
Definition demo_uniform : LightUniform DG := mkUniform DG [] [] [] [] zero4 [] 0 0 0 0 F32.zero F32.zero 0.
Definition demo_light (size : Z * Z) : LightPass.Deferred DG :=
  mkDeferred DG demo_pass 4%N demo_set demo_set [21; 22; 23]%N None size 1%N None None 99%N demo_uniform None demo_offscreen.
Definition demo_managed : LightPass.Managed DG := mkManaged DG (Some (demo_shadow, F32.zero, F32.zero, 31%N)) None.

Import PreProcess.
Definition demo_stage (n : N) : Stage := mkStage n demo_set [] (Some n).
Definition demo_process : PreProcess DG :=
  mkPreProcess DG demo_pass (demo_stage 51) (demo_stage 52) (mkStage 53 demo_set [64] (Some 53%N)) 2%N (mkBuffers 61 62 63 64) None false [].
Definition demo_environment : Environment.Environment := Environment.init (fun _ => (71%N, (64, 32, 7))) (72%N, 73%N) (str "sky.hdr") Environment.empty.

Lemma environment_processed_witness : exists r1 r2 es, pre_beginScene DG (Some demo_environment) demo_process = Ret r1
  /\ pre_renderScene DG (fun _ _ _ => []) F32.one 74%N (Some demo_environment) r1 = Ret (r2, Some (with_new_cube 74 demo_environment), es) /\ length (copies DG es) = 66%nat.
Proof.
  destruct (environment_processed DG (fun _ _ _ => []) F32.one 74%N demo_environment demo_process demo_pass 72%N 73%N)
    as (r1 & r2 & es & c & E1 & E2 & _ & _ & C & _); [done|done|split; [exact demo_set_ok|split; [by eexists|done]]..|done|done|].
  exists r1, r2, es. split; [exact E1|]. split; [exact E2|]. by rewrite C.
Defined.
End LightProps.
