(* ===== verification/RenderFrame.v ===== *)
(** * RenderFrame: the renderers of an application, and the frames they draw together

    Models the frame of [Renderer/RenderManager.*] and the renderers that
    [Application::init] adds to it: the preparation of environments, the cascaded
    shadows, the light pass, with the geometry pass it owns, and the sky.  The
    theorems show that a frame is drawn and leaves everything ready for another. *)

From S2P Require Import Prelude Strings Float32 Geometry GpuBuffers ShaderFile Vulkan Textures Resources Mesh Material Hierarchy SceneGraph Input LineRenderer Camera MeshPass LightPass.
From stdpp Require Import base decidable list gmap sets strings.
From Stdlib Require Import ZArith Lia.
Local Open Scope Z_scope.
Import Glm CameraGlm.

(** ** The renderers of an application (RenderManager.cpp, Application.cpp) *)
Module RenderManager.
Import RenderPass MeshPass LightPass Skybox PreProcess.

Section Manager.
Context (G : glm).
Abbreviation TG := (transform_glm G).
Abbreviation Transform := (Transform.Transform TG).
Abbreviation Cam := (Camera.Camera G).
Abbreviation Cmd := (Command (option (Pushed G))).
Context (own inherited : entity -> option MeshRenderer.Model) (cosf sinf : f32 -> f32) (defaultTexture : N) (newBuffer : N -> N).
Context (pow : f32 -> f32 -> f32) (ceil : f32 -> f32) (lookAt : vec3 -> vec3 -> vec3 -> mat G) (mipLevel : N -> Z) (clear_translation : mat G -> mat G).
Context (half_pi : f32) (newCube : N) (skyBuffers : N * N).

(** The renderers of [Application::init] before the one of sprites, in the order
    they are added; the shadow renderer with its bias, light size and texture. *)
Record Renderers := mkRenderers {
  pre : PreProcess G; cascades : Shadow G; shadowBias : f32; shadowLightSize : f32; shadowTexture : N;
  light : Deferred G; sky : Skybox G; gbuffer : GBuffer.GBuffer
}.

(** What they read and write of the scene. *)
Record World := mkWorld {
  scene : MeshPass.Scene G; camera : option Cam; cameraTransform : option Transform;
  lights : list (entity * Light.LightData); environment : option Environment.Environment
}.

Definition managed (s : Shadow G) (r : Renderers) : Managed G := mkManaged G (Some (s, shadowBias r, shadowLightSize r, shadowTexture r)) None.

(** [beginScene]: each renderer in turn. *)
Definition beginScene (r : Renderers) (w : World) : outcome (Renderers * World) :=
  p ← pre_beginScene G (environment w) (pre r);
  '(cam, t, c, s) ← shadow_beginScene G own inherited cosf sinf pow ceil lookAt (snd <$> lights w) (camera w) (cameraTransform w) (cascades r) (scene w);
  '(cam, t, ls, d, s) ← light_beginScene G mipLevel own inherited cosf sinf defaultTexture newBuffer cam t (managed c r) (lights w) (environment w) (gbuffer r) (light r) s;
  '(cam, t, k) ← sky_beginScene G clear_translation skyBuffers cam t (environment w) (sky r);
  Ret (mkRenderers p c (shadowBias r) (shadowLightSize r) (shadowTexture r) d k (gbuffer r), mkWorld s cam t ls (environment w)).

(** [onRender]: the events of the first renderer, which has command buffers of its
    own, and the commands of the others in that of the swap chain. *)
Definition onRender (current : nat) (r : Renderers) (w : World) : outcome (Renderers * World * list (Event G) * list Cmd) :=
  '(p, env, es) ← pre_renderScene G lookAt half_pi newCube (environment w) (pre r);
  '(c, cs1) ← shadow_renderScene G (cascades r) (scene w);
  '(d, cs2) ← light_renderScene G current (scene w) (light r);
  '(k, cs3) ← sky_renderScene G current (sky r);
  Ret (mkRenderers p c (shadowBias r) (shadowLightSize r) (shadowTexture r) d k (gbuffer r), mkWorld (scene w) (camera w) (cameraTransform w) (lights w) env,
       es, cs1 ++ cs2 ++ cs3).

Definition frame (current : nat) (r : Renderers) (w : World) : outcome (Renderers * World * list (Event G) * list Cmd) :=
  '(r, w) ← beginScene r w; onRender current r w.

(** [onResize] and [setRenderTarget]; the renderers that draw elsewhere keep their
    frame buffers.  [newLight] and [newSky] give frame buffers, for the render
    texture or for an image of the swap chain. *)
Definition onResize (created : N -> bool) (typeBits : N -> Z) (memoryTypes : list Z) (props : VulkanHelper.Format -> VulkanHelper.FormatProperties)
    (newLight newSky : option N -> nat -> N) (images : nat) (geometry : N) (w h : Z) (r : Renderers) (d : Images.Driver) : outcome (Images.Driver * Renderers) :=
  '(d, g) ← GBuffer.resize created typeBits memoryTypes props w h (gbuffer r) d;
  l ← LightPass.onResize G newLight images geometry w h g (managed (cascades r) r) (light r);
  k ← sky_onResize G skyBuffers newSky images w h (sky r);
  Ret (d, mkRenderers (pre r) (cascades r) (shadowBias r) (shadowLightSize r) (shadowTexture r) l k g).
Definition setRenderTarget (newLight newSky : option N -> nat -> N) (images : nat) (t : option N) (rebuild : bool) (r : Renderers) : Renderers :=
  mkRenderers (pre r) (cascades r) (shadowBias r) (shadowLightSize r) (shadowTexture r)
    (LightPass.setRenderTarget G newLight images t rebuild (light r)) (sky_setRenderTarget G newSky images t rebuild (sky r)) (gbuffer r).
End Manager.
End RenderManager.

(** ** Properties *)
Module FrameProps.
Import RenderPass MeshPass LightPass Skybox PreProcess DescriptorSet MeshPassProps.

(** *** A frame *)
Section Frame.
Import RenderManager.
Context (G : glm).
Abbreviation TG := (transform_glm G).
Abbreviation Transform := (Transform.Transform TG).
Context (own inherited : entity -> option MeshRenderer.Model) (cosf sinf : f32 -> f32) (defaultTexture : N) (newBuffer : N -> N).
Context (pow : f32 -> f32 -> f32) (ceil : f32 -> f32) (lookAt : vec3 -> vec3 -> vec3 -> mat G) (mipLevel : N -> Z) (clear_translation : mat G -> mat G).
Context (half_pi : f32) (newCube : N) (skyBuffers : N * N).
Implicit Types (r : Renderers G) (w : World G) (s : MeshPass.Scene G) (t : Transform).
Abbreviation settled := (settled G own inherited cosf sinf).
Abbreviation scene_ok := (scene_ok G).

(** A light, placed where the transform of its entity is. *)
Definition place_at s (x : entity * Light.LightData) : entity * Light.LightData :=
  match transforms G s !! fst x with Some t => (fst x, place_light G t (snd x)) | None => x end.
Definition has_place s (x : entity * Light.LightData) : Prop := is_Some (transforms G s !! fst x).

Lemma submit_placed s s' x acc : like G s s' -> has_place s x -> submit_one G (transforms G s') x acc =
  if (length (fst acc) <? MAX_LIGHTS)%nat then Ret (fst acc ++ [snd (place_at s x)], snd acc ++ [place_at s x]) else Exn OutOfBounds.
Proof.
  intros Hl [t Ht]. destruct x as [e l]. unfold submit_one, place_at. cbn [fst snd] in *. pose proof (like_worlds _ _ _ Hl e) as Hw. rewrite Ht in *.
  destruct (transforms G s' !! e) as [t'|]; [|discriminate]. injection Hw as Hw. cbn [deref]. rewrite bind_Ret. unfold place_light, CameraController.getForwardDirection. by rewrite Hw.
Qed.
Lemma lights_placed s s' ls : like G s s' -> Forall (has_place s) ls -> forall acc, (length (fst acc) + length ls <= MAX_LIGHTS)%nat ->
  foldM (submit_one G (transforms G s')) ls acc = Ret (fst acc ++ (snd <$> (place_at s <$> ls)), snd acc ++ (place_at s <$> ls)).
Proof.
  intros Hl Hp. induction Hp as [|x ls Hx _ IH]; intros acc Hn; cbn -[MAX_LIGHTS] in *; [by rewrite !app_nil_r; destruct acc|].
  rewrite (submit_placed s s' x acc Hl Hx), (proj2 (Nat.ltb_lt _ _)), bind_Ret by lia. rewrite IH by (cbn; rewrite length_app; cbn; lia). cbn. by rewrite <- !app_assoc.
Qed.

(** The array of lights has room for 32: with more, the loop writes past its end. *)
Lemma too_many_lights s ls : Forall (has_place s) ls -> forall acc, (length (fst acc) <= MAX_LIGHTS)%nat -> (MAX_LIGHTS < length (fst acc) + length ls)%nat ->
  foldM (submit_one G (transforms G s)) ls acc = Exn OutOfBounds.
Proof.
  intros Hp. induction Hp as [|x ls Hx _ IH]; intros acc Ha Hn; cbn -[MAX_LIGHTS] in *; [lia|].
  rewrite (submit_placed s s x acc (like_self _ _) Hx). destruct (length (fst acc) <? MAX_LIGHTS)%nat eqn:E; [|done].
  apply Nat.ltb_lt in E. rewrite bind_Ret. apply IH; cbn; rewrite length_app; cbn; lia.
Qed.

Lemma place_type s x : Light.is_type Light.DirectionalLight (snd (place_at s x)) = Light.is_type Light.DirectionalLight (snd x).
Proof. unfold place_at. by destruct (transforms G s !! fst x). Qed.
Lemma sun_placed s ls sun : last_light Light.DirectionalLight (snd <$> ls) = Some sun -> exists sun', last_light Light.DirectionalLight (snd <$> (place_at s <$> ls)) = Some sun'.
Proof.
  unfold last_light. revert sun. induction ls as [|x ls IH] using rev_ind; intros sun; [done|]. rewrite !fmap_app, !filter_app. cbn -[filter]. rewrite !filter_cons, !filter_nil, place_type.
  destruct (decide (Light.is_type Light.DirectionalLight (snd x) = true)); rewrite ?app_nil_r; [intros _; rewrite last_snoc; by eexists|apply IH].
Qed.
Lemma place_has s s' x : like G s s' -> has_place s x -> has_place s' (place_at s x).
Proof.
  intros Hl Hx. unfold has_place. assert (fst (place_at s x) = fst x) as -> by (unfold place_at; by destruct (transforms G s !! fst x)).
  eapply fmap_is_Some; [apply (like_worlds _ _ _ Hl)|exact Hx].
Qed.

(** **** A frame that is ready *)

(** What the passes of a frame draw to: the frame buffers of the cascades, of the
    geometry, and, for each image of the swap chain, of the light and of the sky;
    and their clear values. *)
Record Targets := mkTargets {
  t_cascades : list N; t_geometry : N; t_light : nat -> N; t_sky : nat -> N;
  p_cascades : RenderPass; p_geometry : RenderPass; p_light : RenderPass; p_sky : RenderPass
}.
Implicit Types (x : Targets).

(** The scene has shown its environment to the renderers before, or has none. *)
Definition known (env : option Environment.Environment) (p : PreProcess G) (d : Deferred G) (k : Skybox G) : Prop :=
  match env with
  | None => environmentMap G d = None
  | Some e => equirectangular G p = Environment.equirectangularMap e /\ environmentMap G d = Environment.prefilteredEnvironment e
      /\ cubeMap G k = Environment.environmnet e
  end.

Definition frame_index (target : option N) (current : nat) : nat := match target with Some _ => 0%nat | None => current end.

Record cascades_ready x (c : Shadow G) : Prop := mkCascadesReady {
  cr_maps : numMaps G c = SHADOWMAP_MAX; cr_depths : length (splitDepth G c) = SHADOWMAP_MAX; cr_views : length (projViews G c) = SHADOWMAP_MAX;
  cr_frames : shadowFrameBuffers G c = Some <$> t_cascades x; cr_four : length (t_cascades x) = SHADOWMAP_MAX;
  cr_pushes : exists z, s_pushes G c !! 0%nat = Some z /\ sizeof_mat4 + sizeof_ivec4 <= z; cr_pass : clear_values zero4 (s_pass G c) = Ret (p_cascades x)
}.
Record geometry_ready x (o : OffScreen G) : Prop := mkGeometryReady {
  gr_omni : omniIndex G o = -1; gr_pushes : exists z, o_pushes G o !! 0%nat = Some z /\ sizeof_mat4 <= z;
  gr_frame : o_frames G o !! 0%nat = Some (t_geometry x); gr_pass : clear_values grey (o_pass G o) = Ret (p_geometry x)
}.
Record light_ready x (images : nat) (d : Deferred G) : Prop := mkLightReady {
  lr_frame : forall i, (i < images)%nat -> f_frames G d !! frame_index (renderTexture G d) i = Some (t_light x i); lr_pass : clear_values blue (f_pass G d) = Ret (p_light x)
}.
Record sky_ready x (images : nat) (k : Skybox G) : Prop := mkSkyReady {
  kr_frame : forall i, (i < images)%nat -> k_frames G k !! frame_index (k_target G k) i = Some (t_sky x i); kr_pass : clear_values grey (k_pass G k) = Ret (p_sky x)
}.

(** What a frame finds in the scene: a camera with its transform; mesh renderers that
    have their meshes; at most 32 lights, each with a transform, one of them a sun. *)
Record world_ready w cam t sun : Prop := mkWorldReady {
  wr_camera : camera G w = Some cam; wr_transform : cameraTransform G w = Some t;
  wr_settled : Forall (settled (scene G w)) (renderers G (scene G w)); wr_scene : scene_ok (scene G w);
  wr_places : Forall (has_place (scene G w)) (lights G w); wr_lights : (length (lights G w) <= MAX_LIGHTS)%nat;
  wr_sun : last_light Light.DirectionalLight (snd <$> lights G w) = Some sun
}.
Record frame_ready x (images : nat) r w cam t sun : Prop := mkFrameReady {
  fr_pending : envComponent G (pre G r) = false; fr_known : known (environment G w) (pre G r) (light G r) (sky G r);
  fr_world : world_ready w cam t sun;
  fr_cascades : cascades_ready x (cascades G r); fr_geometry : geometry_ready x (offScreen G (light G r));
  fr_light : light_ready x images (light G r); fr_sky : sky_ready x images (sky G r)
}.

(** **** Its parts *)

Lemma pre_known env (p : PreProcess G) d k : envComponent G p = false -> known env p d k ->
  pre_beginScene G env p = Ret p /\ pre_renderScene G lookAt half_pi newCube env p = Ret (p, env, []).
Proof.
  intros Hp Hk. split; [|unfold pre_renderScene; by rewrite Hp]. destruct env as [e|]; [|done]. cbn. by rewrite bool_decide_true by apply Hk.
Qed.
Lemma light_known env (p : PreProcess G) d k g m : known env p d k -> see_environment G g m env d = Ret d.
Proof. intros Hk. unfold see_environment, known in *. destruct env as [e|]; by rewrite bool_decide_true by (done || apply Hk). Qed.

(** The sky of a camera. *)
Definition sky_begun cam t (k : Skybox G) : Skybox G :=
  with_matrices G (clear_translation (inverse G (Transform.worldMatrix TG t))) (Camera.projMatrix G (Camera.clean G cam)) k.
Lemma sky_known env p d cam t k : known env p d k ->
  sky_beginScene G clear_translation skyBuffers (Some cam) (Some t) env k = Ret (Some (Camera.clean G cam), Some (Transform.refresh TG t), sky_begun cam t k).
Proof.
  intros Hk. unfold sky_beginScene, Camera.getProjectionMatrix, Transform.getWorldMatrix. cbn [deref]. rewrite bind_Ret, refresh_world. fold (sky_begun cam t k).
  destruct env as [e|]; [|done]. by rewrite bool_decide_true by apply Hk.
Qed.

(** What is recorded for the sky, if there is one, and what is uploaded. *)
Definition sky_drawn x (current : nat) (k : Skybox G) : list (Command (option (Pushed G))) :=
  match cubeMap G k with
  | None => []
  | Some _ => updateViewport (fst (k_size G k)) (snd (k_size G k)) ++ [BeginRenderPass (t_sky x current) (fst (k_size G k)) (snd (k_size G k)) (clearValue (p_sky x));
      BindPipeline (k_pipeline G k); BindVertexBuffer (k_mesh G k); BindIndexBuffer (k_mesh G k); BindDescriptorSets [k_set G k] (dynamic_count [k_set G k]) 0]
      ++ drawIndexed cube_count 0 ++ [EndRenderPass]
  end.
Lemma sky_rendered x images current k : sky_ready x images k -> (current < images)%nat -> exists k', sky_renderScene G current k = Ret (k', sky_drawn x current k)
  /\ sky_ready x images k' /\ (forall i, sky_drawn x i k' = sky_drawn x i k) /\ cubeMap G k' = cubeMap G k /\ (cubeMap G k <> None -> k_uploaded G k' = Some (view G k, proj G k, lodLevel G k)).
Proof.
  intros [Hf Hp] Hi. unfold sky_renderScene, sky_drawn. pose proof (Hf _ Hi) as Hfi. destruct (cubeMap G k) as [c|] eqn:Ec; [|exists k; rewrite Ec; by split_and!].
  unfold vec_at, frame_index in *. rewrite Hfi, bind_Ret, (begin_again _ _ _ _ _ _ Hp), bind_Ret. unfold sky_present. cbn [k_set]. rewrite bind_one, !bind_Ret.
  eexists. split; [cbn [k_pipeline k_mesh]; by rewrite <- !app_assoc|]. cbn. split_and!; [split; [done|by eapply clear_again]|intros i; by rewrite ?Ec|done|done].
Qed.

(** The light pass of a frame: a quad that reads the geometry buffers. *)
Definition light_drawn x (current : nat) (d : Deferred G) : list (Command (option (Pushed G))) :=
  updateViewport (fst (f_size G d)) (snd (f_size G d)) ++ [BeginRenderPass (t_light x current) (fst (f_size G d)) (snd (f_size G d)) (clearValue (p_light x));
    BindPipeline (f_pipeline G d); BindVertexBuffer (screenQuad G d); BindIndexBuffer (screenQuad G d);
    BindDescriptorSets [pipelineSet G d; screenSet G d] (dynamic_count [pipelineSet G d; screenSet G d]) 0] ++ drawIndexed quad_count 0 ++ [EndRenderPass].
(** The pass of the geometry, for a queue. *)
Definition geometry_drawn x (o : OffScreen G) s (q : list (RenderCommand G)) : list (Command (option (Pushed G))) :=
  updateViewport (fst (o_size G o)) (snd (o_size G o)) ++ [BeginRenderPass (t_geometry x) (fst (o_size G o)) (snd (o_size G o)) (clearValue (p_geometry x));
    BindPipeline (o_pipeline G o)] ++ (q ≫= drawn G o s) ++ [EndRenderPass].
(** The passes of the cascades. *)
Definition cascades_drawn x (c : Shadow G) s : list (Command (option (Pushed G))) :=
  concat (imap (cascade_pass G c s (p_cascades x) (omap (caster G s) (renderers G s))) (t_cascades x)).

(** The uniform of the light pass, with [n] lights placed in front of the others. *)
Definition lit (d : Deferred G) (c : Shadow G) (b size : f32) t (ls : list Light.LightData) : LightUniform G :=
  let u := uniform G d in let m := Transform.worldMatrix TG t in
  mkUniform G (ls ++ drop (length ls) (u_lights G u)) (inverse G m) (projViews G c) (lightViewMatrix G c) (Light.with_one (column3 G m)) (splitDepth G c)
    (i32 (Z.of_nat (length ls))) (deferredType G u) (colorCascade G u) (displayCascadeLevel G u) b size (match environmentMap G d with Some e => mipLevel e | None => 0 end).
Lemma lights_submitted cam t (c : Shadow G) b size tex ls d s s' : like G s s' -> Forall (has_place s) ls -> (length ls <= MAX_LIGHTS)%nat ->
  submitLight G mipLevel (Some cam) (Some t) (mkManaged G (Some (c, b, size, tex)) None) ls (transforms G s') d
  = Ret (Some (Transform.refresh TG t), place_at s <$> ls, with_uniform G (lit d c b size t (snd <$> (place_at s <$> ls))) d).
Proof.
  intros Hl Hp Hn. unfold submitLight. rewrite (lights_placed s s' ls Hl Hp) by exact Hn. rewrite bind_Ret. cbn [fst snd app deref]. rewrite bind_Ret.
  unfold Transform.getWorldMatrix. rewrite refresh_world. unfold lit. by rewrite !length_fmap.
Qed.

(** **** The frame *)

Lemma kept_ok s s' : kept G s s' -> scene_ok s -> scene_ok s'.
Proof.
  intros [Hl Hm] [Hr Hg]. split; [|by rewrite Hm]. rewrite (like_renderers _ _ _ Hl). eapply Forall_impl; [exact Hr|]. intros m. by apply like_ok.
Qed.
Lemma world_kept w cam t sun s' cam' : world_ready w cam t sun -> like G (scene G w) s' -> scene_ok s' -> exists sun',
  world_ready (mkWorld G s' (Some cam') (Some (Transform.refresh TG t)) (place_at (scene G w) <$> lights G w) (environment G w)) cam' (Transform.refresh TG t) sun'.
Proof.
  intros [_ _ Hset _ Hp Hn Hsun] Hl Hok. destruct (sun_placed (scene G w) _ _ Hsun) as [sun' Hs]. exists sun'. split; try done; cbn.
  - by apply (scene_settled G own inherited cosf sinf (scene G w)).
  - apply Forall_fmap. eapply Forall_impl; [exact Hp|]. intros l. by apply place_has.
  - by rewrite length_fmap.
Qed.

(** The geometry pass after another scene has been begun. *)
Lemma geometry_rendered x o o' s s' s0 : geometry_ready x o -> o' = with_queue G (commandQueue G o') (projView G o') o ->
  Forall2 (fun m c => command_of G s0 m = Some c) (renderers G s) (commandQueue G o') -> (forall m, command_of G s' m = command_of G s0 m) ->
  Forall (fun c => forall k, cmd_material G c = Some k -> is_Some (materials G s' !! k)) (commandQueue G o') -> exists o'',
  renderScene G o' s' = Ret (o'', geometry_drawn x o s' (commandQueue G o')) /\ geometry_ready x o'' /\ o_uploaded G o'' = Some (projView G o')
  /\ o_pipeline G o'' = o_pipeline G o /\ (forall s q, geometry_drawn x o'' s q = geometry_drawn x o s q).
Proof.
  intros [Homni (z & Hz & Hle) Hf Hp] Ho Hq Hc Hm.
  edestruct (offscreen_rendered G o o' s s' z (t_geometry x) (p_geometry x)) as (o'' & R & ->);
    [exact Ho|eapply Forall2_impl; [exact Hq|]; intros m c Hmc; by rewrite Hc|done|done|done|done|by apply begin_again|].
  assert (drawn G o' s' = drawn G o s') as Hd by (rewrite Ho; reflexivity). rewrite R, Hd. eexists. split; [unfold geometry_drawn; by rewrite <- app_assoc|].
  split_and!; [split; [done|by exists z|done|exact (clear_again _ _ _ Hp)]|done..].
Qed.

(** The renderers after [beginScene], and the scene. *)
Definition cascades_begun r w cam t sun : Shadow G := begun G pow ceil lookAt (cascades G r) cam (Transform.worldMatrix TG t) (Light.direction sun) (scene G w).
Definition light_begun r w cam t sun o : Deferred G :=
  with_offScreen G o (with_uniform G (lit (light G r) (cascades_begun r w cam t sun) (shadowBias G r) (shadowLightSize G r) t (snd <$> (place_at (scene G w) <$> lights G w))) (light G r)).

Abbreviation beginFrame := (beginScene G own inherited cosf sinf defaultTexture newBuffer pow ceil lookAt mipLevel clear_translation skyBuffers).
Lemma clean_again cam : Camera.clean G (Camera.clean G cam) = Camera.clean G cam.
Proof. unfold Camera.clean. by destruct (Camera.projectionDirty G cam) eqn:E; rewrite ?E. Qed.
Lemma refresh_again t : Transform.refresh TG (Transform.refresh TG t) = Transform.refresh TG t.
Proof. unfold Transform.refresh. by destruct (Transform.dirty TG t) eqn:E; rewrite ?E. Qed.
(** The materials of the commands of a frame, before and after: a set that is
    missing or flagged is written, the others stay as they are. *)
Definition sets_tended r s s' (q : list (RenderCommand G)) : Prop := let p := o_pipeline G (offScreen G (light G r)) in
  Forall (fun c => forall k, cmd_material G c = Some k -> exists m' m, materials G s' !! k = Some m' /\ materials G s !! k = Some m
    /\ tended defaultTexture p m m' /\ ~ outdated p m') q.
Lemma tended_there r s s' q : sets_tended r s s' q -> Forall (fun c => forall k, cmd_material G c = Some k -> is_Some (materials G s' !! k)) q.
Proof. intros H. eapply Forall_impl; [exact H|]. intros c Hc k Ek. destruct (Hc k Ek) as (m' & _ & -> & _). by eexists. Qed.

Lemma frame_begun x images r w cam t sun : frame_ready x images r w cam t sun -> exists cam' o' s',
  beginFrame r w = Ret (mkRenderers G (pre G r) (cascades_begun r w cam t sun) (shadowBias G r) (shadowLightSize G r) (shadowTexture G r) (light_begun r w cam t sun o')
      (sky_begun cam t (sky G r)) (gbuffer G r),
    mkWorld G s' (Some cam') (Some (Transform.refresh TG t)) (place_at (scene G w) <$> lights G w) (environment G w))
  /\ o' = with_queue G (commandQueue G o') (projView G o') (offScreen G (light G r))
  /\ projView G o' = mul G (Camera.projMatrix G (Camera.clean G cam)) (inverse G (Transform.worldMatrix TG t))
  /\ Forall2 (fun m c => command_of G (scene G w) m = Some c) (renderers G (scene G w)) (commandQueue G o')
  /\ like G (scene G w) s' /\ scene_ok s'
  /\ sets_tended r (scene G w) s' (commandQueue G o').
Proof.
  intros [Hpend Hk [Hcam Ht Hset Hok Hpl Hn Hsun] [Hm Hd Hv _ _ _ _] [Homni _ _ _] _ _]. unfold beginScene.
  destruct (pre_known _ _ _ _ Hpend Hk) as [-> _]. rewrite bind_Ret, Hcam, Ht.
  destruct (shadow_begun G own inherited cosf sinf pow ceil lookAt (snd <$> lights G w) cam t sun (cascades G r) (scene G w) Hsun Hm Hd Hv Hset) as (cam1 & s1 & -> & (Hv1 & _ & _) & Hkept).
  rewrite bind_Ret. unfold light_beginScene, managed. rewrite (lights_submitted _ _ _ _ _ _ _ _ _ _ (proj1 Hkept) Hpl Hn), bind_Ret.
  rewrite (light_known (environment G w) (pre G r) _ (sky G r)), bind_Ret by exact Hk. cbn [offScreen with_uniform option_fmap fmap option_map omni].
  destruct (queue_made G own inherited cosf sinf defaultTexture newBuffer cam1 (Transform.refresh TG (Transform.refresh TG t)) None (offScreen G (light G r)) s1)
    as (o' & s' & -> & Hpv & Ho & Hq & Hl & Hs & Hc); [by eapply kept_ok|done|].
  rewrite !bind_Ret. rewrite (sky_known (environment G w) (pre G r) (light G r)) by exact Hk. rewrite bind_Ret.
  exists (Camera.clean G cam1), o', s'. rewrite !refresh_world in *. rewrite refresh_again in *. split_and!; [|done|by rewrite Hpv, Hv1| | |done|].
  - unfold light_begun, lit, sky_begun. rewrite !refresh_again, !refresh_world, clean_again, Hv1. reflexivity.
  - rewrite (like_renderers _ _ _ (proj1 Hkept)) in Hq. eapply Forall2_impl; [exact Hq|]. intros m c. by rewrite <- (like_command G (scene G w) s1 m (proj1 Hkept)).
  - by eapply like_trans; [apply Hkept|].
  - eapply Forall_impl; [exact Hc|]. intros c H k Ek. destruct (H k Ek) as (m' & m & E' & E & Htd & Hout). exists m', m. by rewrite <- (proj2 Hkept).
Qed.

(** What a frame uploads for the light pass: the lights, placed, and the matrices
    that the shadow maps were drawn with. *)
Definition lit_by (m : mat G) (c : Shadow G) (ls : list Light.LightData) (u : LightUniform G) : Prop :=
  take (length ls) (u_lights G u) = ls /\ lightCount G u = i32 (Z.of_nat (length ls)) /\ lightProjView G u = projViews G c /\ u_splitDepth G u = splitDepth G c
  /\ lightView G u = lightViewMatrix G c /\ viewPos G u = inverse G m.

Lemma lit_by_lit d c b size t ls : lit_by (Transform.worldMatrix TG t) c ls (lit d c b size t ls).
Proof. split; [exact (take_app_length _ _)|by split_and!]. Qed.

Lemma light_rendered x images current r w cam t sun o' s' : light_ready x images (light G r) -> (current < images)%nat -> geometry_ready x (offScreen G (light G r)) ->
  o' = with_queue G (commandQueue G o') (projView G o') (offScreen G (light G r)) ->
  Forall2 (fun m c => command_of G (scene G w) m = Some c) (renderers G (scene G w)) (commandQueue G o') -> like G (scene G w) s' ->
  Forall (fun c => forall k, cmd_material G c = Some k -> is_Some (materials G s' !! k)) (commandQueue G o') -> exists d,
  light_renderScene G current s' (light_begun r w cam t sun o')
    = Ret (d, geometry_drawn x (offScreen G (light G r)) s' (commandQueue G o') ++ light_drawn x current (light G r))
  /\ light_ready x images d /\ geometry_ready x (offScreen G d) /\ o_pipeline G (offScreen G d) = o_pipeline G (offScreen G (light G r))
  /\ (forall s q, geometry_drawn x (offScreen G d) s q = geometry_drawn x (offScreen G (light G r)) s q) /\ (forall i, light_drawn x i d = light_drawn x i (light G r))
  /\ environmentMap G d = environmentMap G (light G r) /\ o_uploaded G (offScreen G d) = Some (projView G o')
  /\ u_uploaded G d = Some (lit (light G r) (cascades_begun r w cam t sun) (shadowBias G r) (shadowLightSize G r) t (snd <$> (place_at (scene G w) <$> lights G w))).
Proof.
  intros [Hf Hp] Hi Hg Ho Hq Hl Hc. unfold light_renderScene. cbn [offScreen light_begun with_offScreen].
  destruct (geometry_rendered x (offScreen G (light G r)) o' (scene G w) s' (scene G w) Hg Ho Hq) as (o'' & -> & Hg' & Hu & Hpipe & Hsame); [intros m; by apply like_command|done|].
  rewrite bind_Ret. cbn [f_frames renderTexture f_size f_pass with_offScreen with_uniform light_begun]. unfold vec_at. pose proof (Hf _ Hi) as Hfi. unfold frame_index in Hfi. rewrite Hfi, bind_Ret.
  rewrite (begin_again _ _ _ _ _ _ Hp), bind_Ret. unfold present. cbn [pipelineSet screenSet f_pipeline screenQuad with_offScreen with_uniform light_begun]. rewrite bind_two, !bind_Ret.
  eexists. split; [reflexivity|]. split; [split; [exact Hf|exact (clear_again _ _ _ Hp)]|]. by split_and!.
Qed.

(** What a frame records, with the fixed parts of the renderers [r]. *)
Definition frame_commands x r s (q : list (RenderCommand G)) (current : nat) : list (Command (option (Pushed G))) :=
  cascades_drawn x (cascades G r) s ++ geometry_drawn x (offScreen G (light G r)) s q ++ light_drawn x current (light G r) ++ sky_drawn x current (sky G r).
Definition same_parts x r r' : Prop := o_pipeline G (offScreen G (light G r')) = o_pipeline G (offScreen G (light G r))
  /\ forall s q current, frame_commands x r' s q current = frame_commands x r s q current.

Lemma frame_step x images current r w cam t sun : frame_ready x images r w cam t sun -> (current < images)%nat ->
  exists r' w' cam' sun' q,
  frame G own inherited cosf sinf defaultTexture newBuffer pow ceil lookAt mipLevel clear_translation half_pi newCube skyBuffers current r w
    = Ret (r', w', [], cascades_drawn x (cascades G r) (scene G w') ++ geometry_drawn x (offScreen G (light G r)) (scene G w') q
        ++ light_drawn x current (light G r) ++ sky_drawn x current (sky G r))
  /\ Forall2 (fun m c => command_of G (scene G w) m = Some c) (renderers G (scene G w)) q
  /\ like G (scene G w) (scene G w') /\ lights G w' = place_at (scene G w) <$> lights G w
  /\ (let m := Transform.worldMatrix TG t in let p := Camera.projMatrix G (Camera.clean G cam) in
      s_uploaded G (cascades G r') = Some (projViews G (cascades G r')) /\ o_uploaded G (offScreen G (light G r')) = Some (mul G p (inverse G m))
      /\ (exists u, u_uploaded G (light G r') = Some u /\ lit_by m (cascades G r') (snd <$> lights G w') u)
      /\ (cubeMap G (sky G r) <> None -> k_uploaded G (sky G r') = Some (clear_translation (inverse G m), p, lodLevel G (sky G r))))
  /\ (projViews G (cascades G r') = (fun i => snd (cascade_of G pow ceil lookAt (cascadeSplitLambda G (cascades G r)) cam (Transform.worldMatrix TG t) (Light.direction sun) i)) <$> seq 0 SHADOWMAP_MAX)
  /\ frame_ready x images r' w' cam' (Transform.refresh TG t) sun' /\ same_parts x r r' /\ sets_tended r (scene G w) (scene G w') q.
Proof.
  intros Hr Hi. destruct (frame_begun x images r w cam t sun Hr) as (cam' & o' & s' & E & Ho & Hpv & Hq & Hl & Hok & Hc).
  destruct Hr as [Hpend Hk Hw [Hm Hd Hv Hfb Hfour (z & Hz & Hle) Hp] Hg Hlt Hsky]. unfold frame. rewrite E, bind_Ret. unfold onRender. cbn [environment pre scene cascades light sky].
  destruct (pre_known _ _ _ _ Hpend Hk) as [_ ->]. rewrite bind_Ret.
  destruct (scene_settled G own inherited cosf sinf (scene G w) s' Hl (wr_settled _ _ _ _ Hw)) as [Hset' Hcast].
  rewrite (cascades_recorded G own inherited cosf sinf (cascades_begun r w cam t sun) s' (p_cascades x) (t_cascades x) z (omap (caster G (scene G w)) (renderers G (scene G w))) Hset');
    [|by rewrite Hcast|done|done|done|done|done|done|done].
  rewrite bind_Ret. destruct (light_rendered x images current r w cam t sun o' s' Hlt Hi Hg Ho Hq Hl (tended_there _ _ _ _ Hc)) as (d & -> & Hld & Hgd & Hpipe & Hgs & Hls & Henv & Hou & Hlu). rewrite bind_Ret.
  assert (sky_ready x images (sky_begun cam t (sky G r))) as Hsky' by (by destruct Hsky).
  destruct (sky_rendered x images current (sky_begun cam t (sky G r)) Hsky' Hi) as (k & -> & Hkr & Hks & Hcube & Hku). rewrite bind_Ret.
  destruct (world_kept w cam t sun s' cam' Hw Hl Hok) as [sun' Hw']. eexists _, (mkWorld G s' _ _ _ _), cam', sun', (commandQueue G o'). split.
  { unfold cascades_drawn. cbn [scene]. rewrite Hcast, <- !app_assoc. reflexivity. }
  split; [done|]. split; [done|]. split; [done|]. cbn [cascades light sky lights]. split; [|split; [done|]].
  - split; [done|]. split; [by rewrite Hou, Hpv|]. split; [|exact Hku]. eexists. split; [exact Hlu|]. exact (lit_by_lit (light G r) (cascades_begun r w cam t sun) _ _ t _).
  - split; [|split; [split; [exact Hpipe|]; intros s q i; unfold frame_commands; cbn [cascades light sky]; by rewrite Hgs, Hls, Hks|exact Hc]].
    split; [exact Hpend| |exact Hw'| |exact Hgd|exact Hld|exact Hkr].
    + destruct (environment G w) as [e|]; cbn in *; rewrite ?Henv, ?Hcube; done.
    + split; [done|by cbn|by cbn|done|done|by exists z|exact (clear_again _ _ _ Hp)].
Qed.

(** C26. A frame of the application.  With a camera, a sun and at most 32 lights, meshes
    loaded, and the environment, if there is one, prepared before, a frame
    records, in this order: the four shadow maps, each with every mesh renderer
    that has a mesh; the geometry, with a draw for each mesh renderer; the light,
    one quad that reads the geometry buffers; and the sky, if there is one.  The
    light pass is given the lights where their entities are now, and exactly the
    matrices and depths with which the shadow maps are drawn; and what is left is
    ready for another frame, of any image of the swap chain. *)
Theorem application_frame x images current r w cam t sun : frame_ready x images r w cam t sun -> (current < images)%nat ->
  exists r' w' cam' sun' q,
  frame G own inherited cosf sinf defaultTexture newBuffer pow ceil lookAt mipLevel clear_translation half_pi newCube skyBuffers current r w
    = Ret (r', w', [], cascades_drawn x (cascades G r) (scene G w') ++ geometry_drawn x (offScreen G (light G r)) (scene G w') q
        ++ light_drawn x current (light G r) ++ sky_drawn x current (sky G r))
  /\ Forall2 (fun m c => command_of G (scene G w) m = Some c) (renderers G (scene G w)) q
  /\ like G (scene G w) (scene G w') /\ lights G w' = place_at (scene G w) <$> lights G w
  /\ (let m := Transform.worldMatrix TG t in let p := Camera.projMatrix G (Camera.clean G cam) in
      s_uploaded G (cascades G r') = Some (projViews G (cascades G r')) /\ o_uploaded G (offScreen G (light G r')) = Some (mul G p (inverse G m))
      /\ (exists u, u_uploaded G (light G r') = Some u /\ lit_by m (cascades G r') (snd <$> lights G w') u)
      /\ (cubeMap G (sky G r) <> None -> k_uploaded G (sky G r') = Some (clear_translation (inverse G m), p, lodLevel G (sky G r))))
  /\ (projViews G (cascades G r') = (fun i => snd (cascade_of G pow ceil lookAt (cascadeSplitLambda G (cascades G r)) cam (Transform.worldMatrix TG t) (Light.direction sun) i)) <$> seq 0 SHADOWMAP_MAX)
  /\ frame_ready x images r' w' cam' (Transform.refresh TG t) sun'.
Proof.
  intros Hr Hi. destruct (frame_step x images current r w cam t sun Hr Hi) as (r' & w' & cam' & sun' & q & E & H1 & H2 & H3 & H4 & H5 & H6 & _).
  exists r', w', cam', sun', q. by split_and!.
Qed.

(** **** Any number of frames *)

(** The frames of a run, for the images the swap chain gives; what each records. *)
Fixpoint frames (l : list nat) r w : outcome (Renderers G * World G * list (list (Command (option (Pushed G))))) :=
  match l with
  | [] => Ret (r, w, [])
  | current :: l =>
      '(r, w, _, cs) ← frame G own inherited cosf sinf defaultTexture newBuffer pow ceil lookAt mipLevel clear_translation half_pi newCube skyBuffers current r w;
      '(r, w, css) ← frames l r w; Ret (r, w, cs :: css)
  end.

(** The commands of a frame depend on a scene by its meshes and the sets of what is drawn. *)
Lemma commands_ext x r s s' q current : like G s s' ->
  Forall (fun c => forall k, cmd_material G c = Some k -> materials G s' !! k = materials G s !! k) q ->
  frame_commands x r s' q current = frame_commands x r s q current.
Proof.
  intros Hl Hm. unfold frame_commands. f_equal; [|f_equal].
  - unfold cascades_drawn. rewrite (like_renderers _ _ _ Hl). f_equal. apply imap_ext. intros i fb _. unfold cascade_pass.
    assert (omap (caster G s') (renderers G s) = omap (caster G s) (renderers G s)) as ->.
    { apply list_omap_ext, Forall_Forall2_diag, Forall_forall. intros m _. by apply like_caster. }
    rewrite (list_bind_ext_elem (cast G (s_pushes G (cascades G r)) (s_set G (cascades G r)) (Cascade G (Z.of_nat i)) s')
      (cast G (s_pushes G (cascades G r)) (s_set G (cascades G r)) (Cascade G (Z.of_nat i)) s)); [done|].
    intros c _. unfold cast. by rewrite (like_meshes _ _ _ Hl).
  - unfold geometry_drawn.
    rewrite (list_bind_ext_elem (drawn G (offScreen G (light G r)) s') (drawn G (offScreen G (light G r)) s)); [done|].
    intros c Hc. unfold drawn. rewrite (like_meshes _ _ _ Hl).
    assert (set_of G (offScreen G (light G r)) s' c = set_of G (offScreen G (light G r)) s c) as ->; [|done].
    unfold set_of. destruct (cmd_material G c) as [k|] eqn:Ek; [|done]. by rewrite (proj1 (Forall_forall _ _) Hm c Hc k Ek).
Qed.

Lemma tended_drawn r s s' q : sets_tended r s s' q ->
  Forall (fun c => forall k, cmd_material G c = Some k -> exists m, materials G s !! k = Some m /\ ~ outdated (o_pipeline G (offScreen G (light G r))) m) q ->
  Forall (fun c => forall k, cmd_material G c = Some k -> materials G s' !! k = materials G s !! k) q.
Proof.
  unfold sets_tended. cbv zeta. intros Ht Ho. rewrite Forall_forall in Ht, Ho. apply Forall_forall. intros c Hc k Ek. destruct (Ht c Hc k Ek) as (m' & m & -> & Em & Htend & _).
  destruct (Ho c Hc k Ek) as (m1 & Em1 & Hout). assert (m1 = m) as -> by congruence. by destruct Htend as [-> |(Hn & _)].
Qed.

Lemma commands_unique s ms q q' : Forall2 (fun m c => command_of G s m = Some c) ms q -> Forall2 (fun m c => command_of G s m = Some c) ms q' -> q = q'.
Proof. intros H. revert q'. induction H as [|m c ms q E _ IH]; intros q' H'; inversion H'; subst; [done|]. f_equal; [congruence|by apply IH]. Qed.

(** From a frame on every frame records the same, but for the image drawn to. *)
Lemma frames_same x images l : forall r w cam t sun q, frame_ready x images r w cam t sun -> Forall (fun i => (i < images)%nat) l ->
  Forall2 (fun m c => command_of G (scene G w) m = Some c) (renderers G (scene G w)) q ->
  Forall (fun c => forall k, cmd_material G c = Some k -> exists m, materials G (scene G w) !! k = Some m /\ ~ outdated (o_pipeline G (offScreen G (light G r))) m) q ->
  exists r' w' cam' t' sun', frames l r w = Ret (r', w', frame_commands x r (scene G w) q <$> l) /\ like G (scene G w) (scene G w') /\ frame_ready x images r' w' cam' t' sun'.
Proof.
  induction l as [|i l IH]; intros r w cam t sun q Hr Hl Hq Ho; cbn [frames].
  - exists r, w, cam, t, sun. split_and!; [done|apply like_self|done].
  - apply Forall_cons in Hl as [Hi Hl].
    destruct (frame_step x images i r w cam t sun Hr Hi) as (r1 & w1 & cam1 & sun1 & q1 & -> & Hq1 & Hlike & _ & _ & _ & Hr1 & [Hp Hs] & Ht). rewrite bind_Ret.
    rewrite (commands_unique _ _ _ _ Hq1 Hq) in *. pose proof (tended_drawn _ _ _ _ Ht Ho) as Hsets.
    destruct (IH r1 w1 cam1 (Transform.refresh TG t) sun1 q Hr1 Hl) as (r' & w' & cam' & t' & sun' & -> & Hlike' & Hr').
    + rewrite (like_renderers _ _ _ Hlike). eapply Forall2_impl; [exact Hq|]. intros m c. by rewrite (like_command _ _ _ m Hlike).
    + rewrite Hp. eapply Forall_impl; [exact Ht|]. intros c Hc k Ek. destruct (Hc k Ek) as (m' & m & Em & _ & _ & Hm). by exists m'.
    + rewrite bind_Ret. exists r', w', cam', t', sun'. split; [|split; [by eapply like_trans|done]]. do 2 f_equal. cbn [fmap list_fmap]. f_equal.
      * exact (commands_ext x r _ _ q i Hlike Hsets).
      * apply list_fmap_ext. intros _ j _. rewrite Hs. exact (commands_ext x r _ _ q j Hlike Hsets).
Qed.

(** C27. From a world that is ready, any number of frames is drawn, whatever images the
    swap chain gives, and every one of them records the whole scene of that world:
    the four shadow maps with every caster of the scene, the geometry with one draw
    for each mesh renderer, in order, with its mesh and world matrix, the light and,
    if there is one, the sky, each drawing with the parts the renderers have at the
    start.  The frames differ only in the frame buffers of the image they draw to:
    the sets of the materials are those after the first, where a missing or flagged
    set was written and the others kept.  The world is ready for more. *)
Theorem frames_drawn x images l r w cam t sun : frame_ready x images r w cam t sun -> Forall (fun i => (i < images)%nat) l ->
  exists r' w' s q, frames l r w = Ret (r', w', frame_commands x r s q <$> l)
  /\ Forall2 (fun m c => command_of G (scene G w) m = Some c) (renderers G (scene G w)) q
  /\ like G (scene G w) s /\ sets_tended r (scene G w) s q
  /\ like G (scene G w) (scene G w') /\ exists cam' t' sun', frame_ready x images r' w' cam' t' sun'.
Proof.
  intros Hr Hl. destruct l as [|i l].
  - destruct (frame_begun x images r w cam t sun Hr) as (_ & o' & s & _ & _ & _ & Hq & Hlike & _ & Ht).
    exists r, w, s, (commandQueue G o'). split_and!; [done..|apply like_self|by exists cam, t, sun].
  - apply Forall_cons in Hl as [Hi Hl]. cbn [frames].
    destruct (frame_step x images i r w cam t sun Hr Hi) as (r1 & w1 & cam1 & sun1 & q & -> & Hq & Hlike & _ & _ & _ & Hr1 & [Hp Hs] & Ht). rewrite bind_Ret.
    destruct (frames_same x images l r1 w1 cam1 (Transform.refresh TG t) sun1 q Hr1 Hl) as (r' & w' & cam' & t' & sun' & -> & Hlike' & Hr').
    + rewrite (like_renderers _ _ _ Hlike). eapply Forall2_impl; [exact Hq|]. intros m c. by rewrite (like_command _ _ _ m Hlike).
    + rewrite Hp. eapply Forall_impl; [exact Ht|]. intros c Hc k Ek. destruct (Hc k Ek) as (m' & m & Em & _ & _ & Hm). by exists m'.
    + rewrite bind_Ret. exists r', w', (scene G w1), q. split_and!; [|done..|by eapply like_trans|by eexists _, _, _].
      do 2 f_equal. cbn [fmap list_fmap]. f_equal. apply list_fmap_ext. intros _ j _. apply Hs.
Qed.

(** **** Resizing *)

(** The frame buffers of a pass for the images of the swap chain. *)
Definition framed (newFrame : option N -> nat -> N) (target : option N) (i : nat) : N := match target with Some t => newFrame (Some t) 0%nat | None => newFrame None i end.
Lemma framed_at newFrame target images i fs : fs = match target with Some t => [newFrame (Some t) 0%nat] | None => newFrame None <$> seq 0 images end -> (i < images)%nat ->
  fs !! frame_index target i = Some (framed newFrame target i).
Proof. intros -> Hi. destruct target; [done|]. cbn. by rewrite list_lookup_fmap, lookup_seq_lt. Qed.

(** C28. When the window has a new size, the geometry buffers are made in that size, the
    light pass reads the new ones, and the frame buffers of the passes are new: a
    frame that was ready is ready to be drawn in the new size. *)
Theorem resized_ready created typeBits memoryTypes props depthFormat newLight newSky geometry width height x images r w cam t sun d :
  TextureProps.generous created typeBits memoryTypes -> VulkanHelper.findDepthFormat props = Ret depthFormat ->
  LightProps.has_buffers (gbuffer G r) -> DescriptorProps.pools_ok (screenSet G (light G r)) -> DescriptorProps.pools_ok (k_set G (sky G r)) ->
  frame_ready x images r w cam t sun -> exists d' r',
  onResize G skyBuffers created typeBits memoryTypes props newLight newSky images geometry width height r d = Ret (d', r')
  /\ frame_ready (mkTargets (t_cascades x) geometry (framed newLight (renderTexture G (light G r))) (framed newSky (k_target G (sky G r)))
       (p_cascades x) (p_geometry x) (p_light x) (p_sky x)) images r' w cam t sun
  /\ GBuffer.g_width (gbuffer G r') = width /\ GBuffer.g_height (gbuffer G r') = height /\ LightProps.buffers_sized (gbuffer G r')
  /\ LightProps.reads G (gbuffer G r') (managed G (cascades G r') r') (light G r')
  /\ f_size G (light G r') = (width, height) /\ o_size G (offScreen G (light G r')) = (width, height) /\ k_size G (sky G r') = (width, height).
Proof.
  intros Hcan Hdf Hg Hok1 Hok2 [Hpend Hk Hw Hc [Homni Hpush _ Hgp] [_ Hlp] [_ Hsp]]. unfold onResize.
  destruct (LightProps.light_resized G created typeBits memoryTypes props depthFormat newLight images geometry width height (gbuffer G r) (managed G (cascades G r) r) (light G r) d Hcan Hdf Hg Hok1)
    as (d' & g' & l' & -> & E & W & H & Hs & Hr & _ & Hfs & Hos & Hof & Hff & Hkept). rewrite bind_Ret, E, bind_Ret.
  destruct (LightProps.sky_resized G skyBuffers newSky images width height (sky G r) Hok2) as (k' & -> & _ & Htg & Hkp & Hkf & Hks & Hcube & _). rewrite bind_Ret.
  destruct Hkept as (L1 & L2 & L3 & L4 & L5 & L6 & L7).
  eexists d', _. split; [reflexivity|]. split; [|by split_and!]. split; cbn [pre light sky cascades t_cascades t_light t_sky].
  - done.
  - destruct (environment G w); cbn in *; rewrite ?Hcube, ?L3; done.
  - exact Hw.
  - by destruct Hc.
  - split; cbn [t_geometry p_geometry]; [by rewrite L5|by rewrite L6|by rewrite Hof|by rewrite L7].
  - split; [|cbn [p_light]; by rewrite L2]. intros i Hi. rewrite L1. by apply (framed_at _ _ images).
  - split; [|cbn [p_sky]; by rewrite Hkp]. intros i Hi. rewrite Htg. by apply (framed_at _ _ images).
Qed.
End Frame.

(** *** Witnesses *)
Import LightProps RenderManager.
Definition demo_renderers : Renderers DG :=
  mkRenderers DG demo_process demo_shadow F32.zero F32.zero 31%N (demo_light (8, 6))
    (mkSkybox DG demo_pass 5%N demo_set [24; 25; 26]%N None (8, 6) 2%N None None None [] [] F32.zero None)
    (GBuffer.mkGBuffer 8 6 [] None ∅).
Definition demo_world : World DG :=
  mkWorld DG (demo_scene [quad_renderer]) (Some demo_camera) (Some (Transform.make (transform_glm DG))) [(6%N, demo_lamp); (5%N, demo_sun)] None.
Definition demo_targets : Targets :=
  mkTargets [11; 12; 13; 14]%N 9%N (fun i => (21 + N.of_nat i)%N) (fun i => (24 + N.of_nat i)%N) demo_pass demo_pass demo_pass demo_pass.

Lemma demo_ready : frame_ready DG plane_model plane_model no_trig no_trig demo_targets 3 demo_renderers demo_world demo_camera (Transform.make (transform_glm DG)) demo_sun.
Proof.
  assert (forall i, (i < 3)%nat -> i = 0%nat \/ i = 1%nat \/ i = 2%nat) as Hi by lia.
  split; [done|done| | | | |].
  - split; [done|done| | | |cbn; unfold MAX_LIGHTS; lia|reflexivity].
    + constructor; [|constructor]. split; [done|intros h [= <-]; by eexists|by eexists].
    + split; [constructor; [exact quad_ok|constructor]|]. apply map_Forall_singleton. exact demo_good.
    + repeat constructor; by eexists.
  - split; [done..| |done]. by eexists.
  - split; [done| |done|done]. by eexists.
  - split; [|done]. intros i [-> | [-> | ->]]%Hi; done.
  - split; [|done]. intros i [-> | [-> | ->]]%Hi; done.
Qed.

(** A quad, a lamp and a sun, on the second image of the swap chain; there is no sky. *)
Lemma application_frame_witness : exists r' w' q,
  frame DG plane_model plane_model no_trig no_trig 0 id (fun x _ => x) id (fun _ _ _ => []) (fun _ => 1) id F32.one 74%N (75%N, 76%N) 1 demo_renderers demo_world
    = Ret (r', w', [], cascades_drawn DG demo_targets demo_shadow (scene DG w') ++ geometry_drawn DG demo_targets demo_offscreen (scene DG w') q
        ++ light_drawn DG demo_targets 1 (demo_light (8, 6)) ++ []).
Proof.
  destruct (application_frame DG plane_model plane_model no_trig no_trig 0 id (fun x _ => x) id (fun _ _ _ => []) (fun _ => 1) id F32.one 74%N (75%N, 76%N)
    demo_targets 3 1 demo_renderers demo_world demo_camera (Transform.make (transform_glm DG)) demo_sun demo_ready) as (r' & w' & _ & _ & q & E & _); [lia|].
  exists r', w', q. exact E.
Defined.

Lemma frames_drawn_witness : exists r' w' s q,
  frames DG plane_model plane_model no_trig no_trig 0 id (fun x _ => x) id (fun _ _ _ => []) (fun _ => 1) id F32.one 74%N (75%N, 76%N) [2; 0; 1; 2]%nat demo_renderers demo_world
    = Ret (r', w', frame_commands DG demo_targets demo_renderers s q <$> [2; 0; 1; 2]%nat)
  /\ length q = 1%nat.
Proof.
  destruct (frames_drawn DG plane_model plane_model no_trig no_trig 0 id (fun x _ => x) id (fun _ _ _ => []) (fun _ => 1) id F32.one 74%N (75%N, 76%N)
    demo_targets 3 [2; 0; 1; 2]%nat demo_renderers demo_world demo_camera (Transform.make (transform_glm DG)) demo_sun demo_ready) as (r' & w' & s & q & E & Hq & _).
  - repeat constructor; lia.
  - exists r', w', s, q. split; [exact E|]. by apply Forall2_length in Hq.
Defined.
(** The geometry buffers start at eight by six. *)
Lemma resized_ready_witness : exists d g d' r', GBuffer.make (fun _ => true) (fun _ => 1) [1] VulkanProps.all_features 8 6 (0%N, []) = Ret (d, g)
  /\ onResize DG (75%N, 76%N) (fun _ => true) (fun _ => 1) [1] VulkanProps.all_features (fun _ i => N.of_nat i) (fun _ i => N.of_nat i) 3 40%N 16 12
       (mkRenderers DG demo_process demo_shadow F32.zero F32.zero 31%N (light DG demo_renderers) (sky DG demo_renderers) g) d = Ret (d', r')
  /\ o_size DG (offScreen DG (light DG r')) = (16, 12).
Proof.
  destruct (buffers_built (fun _ => true) (fun _ => 1) [1] VulkanProps.all_features TextureProps.demo_generous VulkanHelper.D32_SFLOAT eq_refl (GBuffer.mkGBuffer 8 6 [] None ∅) (0%N, []))
    as (d & g & E & _ & _ & Hg & _); [by left|].
  pose (r := mkRenderers DG demo_process demo_shadow F32.zero F32.zero 31%N (light DG demo_renderers) (sky DG demo_renderers) g).
  destruct (resized_ready DG plane_model plane_model no_trig no_trig (75%N, 76%N) (fun _ => true) (fun _ => 1) [1] VulkanProps.all_features VulkanHelper.D32_SFLOAT
    (fun _ i => N.of_nat i) (fun _ i => N.of_nat i) 40%N 16 12 demo_targets 3 r demo_world demo_camera (Transform.make (transform_glm DG)) demo_sun d)
    as (d' & r' & E' & _ & _ & _ & _ & _ & _ & H & _); [exact TextureProps.demo_generous|reflexivity|exact Hg|exact demo_set_ok|exact demo_set_ok|destruct demo_ready; by split|].
  exists d, g, d', r'. exact (conj E (conj E' H)).
Defined.
End FrameProps.
