(* ===== verification/EditorModes.v ===== *)
(** * EditorModes: playing a scene, the display, icons, and opening files

    Models of [Code/Editor/src/Editor.cpp] the buttons that start, pause and step a
    scene, the icons of files and the opening of files into the current scene; and the choice of an aspect ratio in
    [DisplayZeroWindow.cpp].  Scenes are those of [Scene], the tree that of
    [Hierarchy], mesh renderers those of [MeshPass]. *)

From S2P Require Import Prelude Strings Float32 Geometry FileSystem Resources Mesh Hierarchy Scene MeshPass.
From stdpp Require Import base decidable list sets gmap strings relations.
From Stdlib Require Import ZArith Lia.

(** ** The state of the editor (Application.h, Editor.cpp) *)
Module PlayMode.

Inductive EditorState := Paused | Play | Next | Preview.
#[export] Instance EditorState_eq_dec : EqDecision EditorState.
Proof. solve_decision. Defined.

(** What is called: [cacheScene] and [loadCachedScene], whose bodies are empty, the
    scene's [onInit], and the updates of the systems of scripts. *)
Inductive call := CacheScene | OnInit | LoadCachedScene | UpdateScripts.
Record Clicks := mkClicks { play_clicked : bool; pause_clicked : bool; next_clicked : bool }.

(** The three buttons, in their order, with the selected entity. *)
Definition play_button (clicked : bool) (s : EditorState * option entity) : EditorState * option entity * list call :=
  let selected := bool_decide (fst s = Play) in
  if clicked then (if selected then Preview else Play, None, if selected then [LoadCachedScene] else [CacheScene; OnInit]) else (s, []).
Definition pause_button (clicked : bool) (s : EditorState) : EditorState :=
  if clicked then if bool_decide (s = Paused) then Play else Paused else s.
Definition next_button (clicked : bool) (s : EditorState) : EditorState := if clicked then Next else s.
Definition drawPlayButtons (c : Clicks) (s : EditorState * option entity) : EditorState * option entity * list call :=
  let s := (if bool_decide (fst s = Next) then Paused else fst s, snd s) in
  let '(state, selected, calls) := play_button (play_clicked c) s in
  (next_button (next_clicked c) (pause_button (pause_clicked c) state), selected, calls).

(** A frame: [onImGui] draws the menu, then the systems of scripts are updated. *)
Definition update_systems (s : EditorState) : list call := if bool_decide (s = Play) then [UpdateScripts] else [].
Definition frame (c : Clicks) (s : EditorState * option entity) : EditorState * option entity * list call :=
  let '(state, selected, calls) := drawPlayButtons c s in (state, selected, calls ++ update_systems state).
Fixpoint frames (l : list Clicks) (s : EditorState * option entity) : EditorState * option entity * list call :=
  match l with [] => (s, []) | c :: l => let '(s, t1) := frame c s in let '(s, t2) := frames l s in (s, t1 ++ t2) end.
End PlayMode.

(** ** The aspect of the display (DisplayZeroWindow.cpp) *)
Module Display.
Definition ratio (a b : Z) : f32 := F32.div (F32.of_Z a) (F32.of_Z b).
Definition stringToAspect (aspect : cstring) : f32 :=
  if decide (aspect = str "16:10") then ratio 16 10 else if decide (aspect = str "16:9") then ratio 16 9 else if decide (aspect = str "4:3") then ratio 4 3
  else if decide (aspect = str "3:2") then ratio 3 2 else if decide (aspect = str "9:16") then ratio 9 16 else F32.one.
Definition aspectToString (aspect : f32) : cstring :=
  if MathUtils.equals aspect (ratio 16 10) then str "16:10" else if MathUtils.equals aspect (ratio 16 9) then str "16:9" else if MathUtils.equals aspect (ratio 4 3) then str "4:3"
  else if MathUtils.equals aspect (ratio 3 2) then str "3:2" else if MathUtils.equals aspect (ratio 9 16) then str "9:16" else str "Unsupported".
Definition supportedAspects : list cstring := [str "Free Aspect"; str "16:10"; str "16:9"; str "4:3"; str "3:2"; str "9:16"].

(** The boxes of the menu: which are ticked, and a click on one. *)
Record Aspect := mkAspect { freeAspect : bool; aspect : f32 }.
Definition aspect0 : Aspect := mkAspect false (ratio 16 9).
Definition currentAspect (a : Aspect) : cstring := if freeAspect a then str "Free Aspect" else aspectToString (aspect a).
Definition ticked (a : Aspect) : list bool := (fun s => bool_decide (currentAspect a = s)) <$> supportedAspects.
Definition click (s : cstring) (a : Aspect) : Aspect :=
  if decide (s = str "Free Aspect") then mkAspect (negb (bool_decide (currentAspect a = s))) (aspect a) else mkAspect false (stringToAspect s).
End Display.

(** ** Icons of files (Editor.cpp) *)
Module Icons.
Import StringUtils FileSystem.

Inductive FontIcon := LANGUAGE_LUA | LANGUAGE_CSHARP | FILE_XML | SHAPE | FILE_MUSIC | FILE_IMAGE | LEAF_MAPLE | FILE.
Definition getIconFontIcon (filePath : cstring) : FontIcon :=
  if isLuaFile filePath then LANGUAGE_LUA else if isCSharpFile filePath then LANGUAGE_CSHARP else if isTextFile filePath then FILE_XML
  else if isModelFile filePath then SHAPE else if isAudioFile filePath then FILE_MUSIC else if isTextureFile filePath then FILE_IMAGE
  else if isSceneFile filePath then LEAF_MAPLE else FILE.

(** The types in the order of their numbers, and the icon of each. *)
Definition types : list FileType := [Normal; Folder; Texture; Model; FBX; OBJ; Text; Script; Dll; FileSystem.Scene; MP3; OGG; AAC; WAV; TTF; C_SHARP].
Definition files : list cstring := (fun s => str "editor-icons/icons8-" ++ str s ++ str ".png") <$>
  ["file-100"; "folder-100"; "image-file-100"; "object-100"; "fbx-100"; "obj-100"; "document-100"; "document-100"; "dll-80"; "maple-leaf-100"; "mp3-100"; "ogg-100";
   "aac-100"; "wav-100"; "ttf-100"; "cs-80"]%string.
Definition processIcons : list (FileType * cstring) := zip types files.
(** The file whose sprite is shown; a type without an entry gets that of [Normal]. *)
Definition getIcon (type : FileType) : cstring :=
  match assoc_lookup type processIcons with Some f => f | None => default [] (assoc_lookup Normal processIcons) end.
End Icons.

(** ** Opening a file (Editor.cpp) *)
Module OpenFile.
Import StringUtils Entity MeshRenderer.

(** The scenes, and by the address of a scene its pools of models and mesh renderers;
    the transforms that come with either are left out. *)
Record Editing := mkEditing {
  manager : SceneManager.SceneManager;
  models : gmap N (gmap entity Model);
  renderers : gmap N (gmap entity MeshRenderer);
  selectedNode : option entity
}.
Definition pool {T} (a : N) (m : gmap N (gmap entity T)) : gmap entity T := default ∅ (m !! a).
Definition emplace {T} (a : N) (e : entity) (x : T) (m : gmap N (gmap entity T)) : gmap N (gmap entity T) := <[a := <[e := x]> (pool a m)]> m.
Definition with_manager (m : SceneManager.SceneManager) (w : Editing) : Editing := mkEditing m (models w) (renderers w) (selectedNode w).
Definition with_models (m : gmap N (gmap entity Model)) (w : Editing) : Editing := mkEditing (manager w) m (renderers w) (selectedNode w).
Definition with_renderers (m : gmap N (gmap entity MeshRenderer)) (w : Editing) : Editing := mkEditing (manager w) (models w) m (selectedNode w).
Definition with_selected (e : option entity) (w : Editing) : Editing := mkEditing (manager w) (models w) (renderers w) e.

(** [getCurrentScene], and what a call on it leaves. *)
Definition current (w : Editing) : outcome (N * Scene.Scene) :=
  a ← deref (SceneManager.currentScene (manager w)); s ← deref (SceneManager.heap (manager w) !! a); Ret (a, s).
Definition put (a : N) (s : Scene.Scene) (w : Editing) : Editing :=
  let m := manager w in
  with_manager (SceneManager.mkManager (<[a := s]> (SceneManager.heap m)) (SceneManager.allScenes m) (SceneManager.currentScene m) (SceneManager.switchingScenes m)
    (SceneManager.currentName m)) w.

Section Open.
Context (new_handle : gset entity -> entity) (view_names : gmap entity cstring -> list entity) (new_address : gset N -> N) (win32 : bool).
(** What [MeshResource::get] answers, and the order of its meshes. *)
Context (get_resource : cstring -> outcome (MeshResource.MeshResource (M := N))) (order : gmap cstring N -> list (cstring * N)).
(** The type of a model before it is set. *)
Context (uninitialised : PrimitiveType).

Definition createEntity (name : cstring) (w : Editing) : outcome (Editing * N * entity) :=
  '(a, s) ← current w;
  '(s, e) ← Scene.createEntity_named new_handle view_names name s;
  e ← deref (entityHandle e);
  Ret (put a s w, a, e).
Definition add_model (a : N) (e : entity) (m : Model) (w : Editing) : Editing := with_models (emplace a e m (models w)) w.
Definition add_renderer (a : N) (e : entity) (mesh : N) (w : Editing) : Editing := with_renderers (emplace a e (make e (Some mesh)) (renderers w)) w.
Definition setParent (a : N) (child par : entity) (w : Editing) : outcome Editing :=
  s ← deref (SceneManager.heap (manager w) !! a);
  R ← Entity.setParent (mkEntity (Some child) true) (mkEntity (Some par) true) (Scene.registry s);
  Ret (put a (Scene.with_registry R s) w).
(** An entity for a mesh, below that of the model. *)
Definition add_mesh (par : entity) (x : cstring * N) (w : Editing) : outcome Editing :=
  '(w, a, child) ← createEntity (fst x) w; setParent a child par (add_renderer a child (snd x) w).
Definition open_model (filePath : cstring) (w : Editing) : outcome Editing :=
  '(w, a, e) ← createEntity (getFileNameWithoutExtension win32 filePath) w;
  res ← get_resource filePath;
  let w := add_model a e (mkModel filePath uninitialised (Some res)) w in
  w ← match order (MeshResource.meshes res) with
      | [x] => Ret (add_renderer a e (snd x) w)
      | ms => foldM (add_mesh e) ms w
      end;
  Ret (with_selected (Some e) (add_model a e (mkModel filePath File (Some res)) w)).
Definition open_scene (filePath : cstring) (w : Editing) : outcome Editing :=
  m ← SceneManager.addSceneFromFile new_handle view_names new_address win32 filePath (manager w);
  Ret (with_manager (SceneManager.switchScene filePath m) w).
Definition openFile (filePath : cstring) (w : Editing) : outcome Editing :=
  if isTextFile filePath then Ret w
  else if isModelFile filePath then open_model filePath w
  else if isAudioFile filePath then Ret w
  else if isSceneFile filePath then open_scene filePath w
  else Ret w.
End Open.
End OpenFile.

(** ** Playing *)
Module PlayProps.
Import PlayMode.

(** Scripts are updated only after the scene was initialised. *)
Fixpoint after_init (init : bool) (t : list call) : bool :=
  match t with
  | [] => true
  | UpdateScripts :: t => init && after_init init t
  | OnInit :: t => after_init true t
  | _ :: t => after_init init t
  end.
Definition has_init (t : list call) : bool := existsb (fun c => match c with OnInit => true | _ => false end) t.
Lemma after_init_app b t1 t2 : after_init b (t1 ++ t2) = after_init b t1 && after_init (b || has_init t1) t2.
Proof.
  revert b. induction t1 as [|c t1 IH]; intros b; [by rewrite orb_false_r|]. destruct c; cbn; rewrite IH; try done.
  - by destruct b.
  - by rewrite andb_assoc.
Qed.

(** The preview is left by the first button only. *)
Definition leaves_well (c : Clicks) (s : EditorState * option entity) : bool :=
  negb ((pause_clicked c || next_clicked c) && bool_decide (fst (fst (play_button (play_clicked c) s)) = Preview)).
Fixpoint careful (l : list Clicks) (s : EditorState * option entity) : bool :=
  match l with [] => true | c :: l => leaves_well c s && careful l (fst (frame c s)) end.

Lemma frame_init b c s : leaves_well c s = true -> (fst s <> Preview -> b = true) ->
  after_init b (snd (frame c s)) = true /\ (fst (fst (frame c s)) <> Preview -> b || has_init (snd (frame c s)) = true).
Proof. destruct s as [s e], c as [x y z], s, x, y, z, b; cbn; naive_solver. Qed.
Lemma frames_init l : forall b s, careful l s = true -> (fst s <> Preview -> b = true) -> after_init b (snd (frames l s)) = true.
Proof.
  induction l as [|c l IH]; intros b s Hc Hb; [done|]. cbn in *. apply andb_true_iff in Hc as [H1 H2]. pose proof (frame_init b c s H1 Hb) as [F1 F2].
  destruct (frame c s) as [s1 t1]. cbn [fst snd] in *. pose proof (IH (b || has_init t1) s1 H2 F2) as H. destruct (frames l s1) as [s2 t2]. cbn [snd] in *.
  by rewrite after_init_app, F1, H.
Qed.

(** From the preview, as long as pausing and stepping wait for the scene to be
    played, scripts are updated only after [onInit]. *)
Theorem scripts_initialised l e : careful l (Preview, e) = true -> after_init false (snd (frames l (Preview, e))) = true.
Proof. intros H. by apply frames_init. Qed.
Lemma scripts_initialised_witness :
  let l := [mkClicks true false false; mkClicks false true false; mkClicks false false true; mkClicks false true false; mkClicks true false false] in
  careful l (Preview, None) = true /\ after_init false (snd (frames l (Preview, None))) = true.
Proof. cbn zeta. split; [reflexivity|]. apply scripts_initialised. reflexivity. Defined.

(** Paused twice in the preview, a scene is played that was neither kept nor
    initialised; and continued by the first button it is initialised again. *)
Example pause_plays : frames [mkClicks false true false; mkClicks false true false] (Preview, None) = (Play, None, [UpdateScripts]).
Proof. reflexivity. Qed.
Example resumed_initialised_twice : frames [mkClicks true false false; mkClicks false true false; mkClicks true false false] (Preview, None)
  = (Play, None, [CacheScene; OnInit; UpdateScripts; CacheScene; OnInit; UpdateScripts]).
Proof. reflexivity. Qed.

Lemma step_frame z s e : s = Paused \/ s = Next -> frame (mkClicks false false z) (s, e) = (if z then Next else Paused, e, []).
Proof. intros [-> | ->]; by destruct z. Qed.
(** The button that steps never lets a script run: nothing looks for [Next], which is
    [Paused] again in the next frame. *)
Theorem step_updates_nothing l : Forall (fun c => play_clicked c = false /\ pause_clicked c = false) l -> forall s e, s = Paused \/ s = Next ->
  exists s', frames l (s, e) = (s', e, []) /\ (s' = Paused \/ s' = Next).
Proof.
  induction 1 as [|[x y z] l [Hx Hy] _ IH]; intros s e Hs; [by exists s|]. cbn in Hx, Hy. subst. destruct (IH (if z then Next else Paused) e) as (s' & E & Hs'); [by destruct z; auto|].
  exists s'. split; [|done]. cbn [frames]. rewrite step_frame by done. by rewrite E.
Qed.
Lemma step_updates_nothing_witness : exists s', frames [mkClicks false false true; mkClicks false false true] (Paused, None) = (s', None, []) /\ (s' = Paused \/ s' = Next).
Proof. apply step_updates_nothing; [by repeat constructor|by left]. Defined.
End PlayProps.

(** ** The display *)
Module DisplayProps.
Import Display.

(** A click on an aspect ticks its box and no other, whatever was ticked before. *)
Theorem aspect_ticked s a : s ∈ tail supportedAspects -> ticked (click s a) = (fun x => bool_decide (s = x)) <$> supportedAspects.
Proof.
  intros Hs. unfold supportedAspects in Hs. cbn [tail] in Hs. repeat (apply elem_of_cons in Hs as [->|Hs]; [by vm_compute|]). by apply not_elem_of_nil in Hs.
Qed.
Lemma aspect_ticked_witness : str "4:3" ∈ tail supportedAspects /\ ticked (click (str "4:3") aspect0) = [false; false; false; true; false; false].
Proof. assert (str "4:3" ∈ tail supportedAspects) as H by (apply (bool_decide_unpack _); by vm_compute). split; [exact H|]. exact (aspect_ticked (str "4:3") aspect0 H). Defined.
End DisplayProps.

(** ** Icons *)
Module IconProps.
Import FileSystem Icons.
(** Every type has an icon of its own place in the list. *)
Lemma icon_of_type n t : types !! n = Some t -> Some (getIcon t) = files !! n.
Proof. do 16 (destruct n as [|n]; [by intros [= <-]|]). by destruct n. Qed.
End IconProps.

(** ** Opening files *)
Module OpenProps.
Import Registry Hierarchy Entity Forest Tree OpenFile.

(** *** The nearest component above *)
Section Nearest.
Context {A : Type} (component : gmap entity A).

(** [t] is what the entity or the nearest one above it has. *)
Definition nearest (R : Registry) (par : option entity) (t : option A) : Prop :=
  match t with
  | Some m => exists x y, par = Some x /\ rtc (up R) x y /\ component !! y = Some m /\ forall z, rtc (up R) x z -> tc (up R) z y -> component !! z = None
  | None => forall x y, par = Some x -> rtc (up R) x y -> component !! y = None
  end.
Lemma nearest_here R kids x m : Rep R kids -> component !! x = Some m -> nearest R (Some x) (Some m).
Proof.
  intros HR Hm. exists x, x. split_and!; [done|done|done|]. intros z Hz Ht. exfalso. apply (rep_acyclic _ _ HR x). by eapply tc_rtc_l.
Qed.
Lemma nearest_up R x h t : hier R !! x = Some h -> component !! x = None -> nearest R (parent h) t -> nearest R (Some x) t.
Proof.
  intros Hx Hc Ht. destruct t as [m|].
  - destruct Ht as (p & y & Hp & Hr & Hm & Hz). assert (up R x p) as Hxp by (by exists h). exists x, y. split_and!; [done|by eapply rtc_l|done|].
    intros z Hxz Hzy. apply rtc_inv in Hxz as [->|(p' & (h' & Hh' & Hp') & Hxz)]; [done|]. simplify_eq. eauto.
  - intros x' y [= <-] Hr. apply rtc_inv in Hr as [->|(p & (h' & Hh' & Hp) & Hr)]; [done|]. simplify_eq. by eapply Ht.
Qed.
Lemma nearest_root R x : hier R !! x = None -> component !! x = None -> nearest R (Some x) None.
Proof. intros Hx Hc x' y [= <-] Hr. apply rtc_inv in Hr as [->|(p & (h & Hh & _) & _)]; [done|]. congruence. Qed.
Lemma getParent_ent x R : getParent (ent x) R = Ret match hier R !! x with Some h => mkEntity (parent h) true | None => null end.
Proof. done. Qed.

Lemma component_loop_spec R kids : Rep R kids -> forall n (V : gset entity) par, V ⊆ dom (hier R) -> (forall v x, v ∈ V -> par = Some x -> tc (up R) v x) ->
  (forall x, par = Some x -> x ∈ alive R) -> size (hier R) - size V < n - 1 -> 1 < n ->
  exists t, component_loop n component (mkEntity par true) R = Ret t /\ nearest R par t.
Proof.
  intros HR. induction n as [|n IH]; intros V par HV Htc Hal Hsz H1; [lia|]. destruct par as [x|]; [|by exists None]. cbn [component_loop].
  unfold valid. cbn [scene entityHandle Registry.valid andb]. rewrite bool_decide_eq_true_2 by (by apply Hal). cbn [mbind option_bind].
  destruct (component !! x) as [m|] eqn:Hm; [exists (Some m); split; [done|by eapply nearest_here]|].
  change (mkEntity (Some x) true) with (ent x). rewrite getParent_ent, bind_Ret. destruct (hier R !! x) as [h|] eqn:Hx.
  - assert (x ∉ V) as HxV by (intros Hv; by apply (rep_acyclic _ _ HR x), Htc).
    assert (V ∪ {[x]} ⊆ dom (hier R)) as HV' by (apply union_subseteq; split; [done|]; apply singleton_subseteq_l, elem_of_dom; by eexists).
    assert (size (V ∪ {[x]}) = S (size V)) as HS by (rewrite size_union, size_singleton by set_solver; lia).
    pose proof (subseteq_size _ _ HV') as Hle. rewrite size_dom, HS in Hle.
    destruct (IH (V ∪ {[x]}) (parent h)) as (t & Hrun & Ht); [done| | |lia|lia|].
    { intros v y Hv Hy. assert (up R x y) as Hxy by (by exists h). apply elem_of_union in Hv as [Hv| ->%elem_of_singleton]; [|by apply tc_once].
      eapply tc_r; [by eapply Htc|done]. }
    { intros y Hy. destruct (rep_parent_hier HR _ _ _ Hx Hy) as [h' Hh']. by eapply (rep_alive _ _ HR). }
    exists t. split; [exact Hrun|by eapply nearest_up].
  - destruct n as [|n]; [lia|]. exists None. split; [done|by apply nearest_root].
Qed.

(** [tryGetComponentFromParent] ends, with the component of the entity itself or of
    the nearest one above it. *)
Theorem nearest_component R kids e : Rep R kids -> exists t, tryGetComponentFromParent component (ent e) R = Ret t /\ nearest R (Some e) t.
Proof.
  intros HR. unfold tryGetComponentFromParent. change (getRegistry (ent e) R) with (Ret R). rewrite bind_Ret, getParent_ent. unfold ent. cbn [entityHandle mbind option_bind].
  destruct (component !! e) as [m|] eqn:Hm; [exists (Some m); split; [done|by eapply nearest_here]|]. rewrite bind_Ret.
  destruct (hier R !! e) as [h|] eqn:He; [|exists None; split; [done|by apply nearest_root]].
  destruct (component_loop_spec R kids HR (S (fuel R)) ∅ (parent h)) as (t & Hrun & Ht); [set_solver|set_solver| |unfold fuel; rewrite size_empty; lia|unfold fuel; lia|].
  { intros y Hy. destruct (rep_parent_hier HR _ _ _ He Hy) as [h' Hh']. by eapply (rep_alive _ _ HR). }
  exists t. split; [exact Hrun|by eapply nearest_up].
Qed.
Lemma found_above R kids c e m : Rep R kids -> up R c e -> component !! c = None -> component !! e = Some m -> tryGetComponentFromParent component (ent c) R = Ret (Some m).
Proof.
  intros HR (h & Hh & Hp) Hc He. destruct (rep_parent_hier HR _ _ _ Hh Hp) as [h' Hh']. unfold tryGetComponentFromParent. change (getRegistry (ent c) R) with (Ret R). rewrite bind_Ret, getParent_ent.
  unfold ent. cbn [entityHandle mbind option_bind]. rewrite Hc, bind_Ret, Hh, Hp.
  assert (e ∈ alive R) as Ha by (by eapply (rep_alive _ _ HR)). cbn [component_loop]. unfold valid. cbn [scene entityHandle Registry.valid andb mbind option_bind].
  by rewrite bool_decide_eq_true_2, He by done.
Qed.
End Nearest.

(** *** What opening a model makes *)
Section Opening.
Context (new_handle : gset entity -> entity) (view_names : gmap entity cstring -> list entity) (new_address : gset N -> N) (win32 : bool).
Context (Hf : forall A, new_handle A ∉ A) (Hv : forall m e, e ∈ view_names m <-> is_Some (m !! e)).
Context (get_resource : cstring -> outcome (MeshResource.MeshResource (M := N))) (order : gmap cstring N -> list (cstring * N)) (uninitialised : MeshRenderer.PrimitiveType).
Implicit Types (w : Editing) (s : Scene.Scene).

Definition named (e : entity) (n : cstring) (R : Registry) : Registry := mkRegistry ({[e]} ∪ alive R) (hier R) (<[e := n]> (names R)) (actives R).
Lemma named_Rep e n R kids : Rep R kids -> Rep (named e n R) kids.
Proof. intros [H1 H2 H3 H4 H5]. split; try done. intros c h Hc. apply elem_of_union_r. by eapply H1. Qed.
Lemma create_named_spec name s : dom (names (Scene.registry s)) ⊆ alive (Scene.registry s) -> exists i,
  Scene.createEntity_named new_handle view_names name s
  = Ret (Scene.with_registry (named (new_handle (alive (Scene.registry s))) (Scene.candidate name i) (Scene.registry s)) (Scene.set_dirty s), ent (new_handle (alive (Scene.registry s)))).
Proof.
  intros Hal. unfold Scene.createEntity_named. cbn [Scene.registry Scene.set_dirty].
  destruct (Scene.unique_loop_spec view_names Hv (Scene.registry s) name Hal (S (size (names (Scene.registry s)))) 0) as [(k & -> & _)|Hall].
  - rewrite bind_Ret. by exists k.
  - destruct (Scene.candidate_free (Scene.registry s) name). intros j Hj. apply Hall. lia.
Qed.

(** The current scene and its address. *)
Definition open_at (a : N) s w : Prop := SceneManager.currentScene (manager w) = Some a /\ SceneManager.heap (manager w) !! a = Some s.
Lemma put_open a s s' w : open_at a s w -> open_at a s' (put a s' w).
Proof. intros [H1 _]. split; [done|]. cbn. by rewrite lookup_insert_eq. Qed.
Lemma createEntity_open name a s w : open_at a s w -> dom (names (Scene.registry s)) ⊆ alive (Scene.registry s) -> exists s' i,
  createEntity new_handle view_names name w = Ret (put a s' w, a, new_handle (alive (Scene.registry s)))
  /\ Scene.registry s' = named (new_handle (alive (Scene.registry s))) (Scene.candidate name i) (Scene.registry s).
Proof.
  intros [H1 H2] Hal. destruct (create_named_spec name s Hal) as [i E]. unfold createEntity, OpenFile.current. rewrite H1. cbn [deref]. rewrite bind_Ret, H2. cbn [deref].
  rewrite !bind_Ret, E, bind_Ret. cbn [ent entityHandle deref]. rewrite bind_Ret. eexists _, i. split; reflexivity.
Qed.

(** A scene whose links represent a forest, and whose names are those of live entities. *)
Record tidy (s : Scene.Scene) (kids : entity -> list entity) : Prop := mkTidy { tidy_rep : Rep (Scene.registry s) kids; tidy_names : dom (names (Scene.registry s)) ⊆ alive (Scene.registry s) }.
Lemma tidy_named s s' kids e n : tidy s kids -> Scene.registry s' = named e n (Scene.registry s) -> tidy s' kids.
Proof. intros [H1 H2] E. split; rewrite E; [by apply named_Rep|]. cbn. rewrite dom_insert. set_solver. Qed.
Lemma new_not_kid s kids q : tidy s kids -> new_handle (alive (Scene.registry s)) ∉ kids q.
Proof. intros [H _] Hc. destruct (rep_kid _ _ H _ _ Hc) as [(h & Hh & _) _]. by apply (Hf (alive (Scene.registry s))), (rep_alive _ _ H _ h). Qed.

Definition below (par : entity) (cs : list entity) (kids : entity -> list entity) (q : entity) : list entity := if decide (q = par) then kids par ++ cs else kids q.
Lemma pool_emplace {T} a e (x : T) m : pool a (emplace a e x m) = <[e := x]> (pool a m).
Proof. unfold pool at 1, emplace. by rewrite lookup_insert_eq. Qed.
Lemma emplace_twice {T} a e (x y : T) m : emplace a e y (emplace a e x m) = emplace a e y m.
Proof. unfold emplace at 1. rewrite pool_emplace, insert_insert_eq. unfold emplace. by rewrite insert_insert_eq. Qed.
(** Entities [cs] for the meshes [ms] below [par]. *)
Record meshes_below (a : N) (par : entity) (ms : list (cstring * N)) s (kids : entity -> list entity) w s' w' (cs : list entity) : Prop := mkMeshesBelow {
  mb_open : open_at a s' w';
  mb_tidy : tidy s' (below par cs kids);
  mb_alive : alive (Scene.registry s') = list_to_set cs ∪ alive (Scene.registry s);
  mb_names : names (Scene.registry s) ⊆ names (Scene.registry s');
  mb_models : models w' = models w;
  mb_new : Forall2 (fun x c => c ∉ alive (Scene.registry s) /\ pool a (renderers w') !! c = Some (MeshRenderer.make c (Some (snd x)))
    /\ exists i, names (Scene.registry s') !! c = Some (Scene.candidate (fst x) i)) ms cs;
  mb_rest : forall x, x ∉ cs -> pool a (renderers w') !! x = pool a (renderers w) !! x
}.

Lemma add_mesh_spec a par x s kids w : open_at a s w -> tidy s kids -> par ∈ alive (Scene.registry s) -> exists s' w', add_mesh new_handle view_names par x w = Ret w'
  /\ meshes_below a par [x] s kids w s' w' [new_handle (alive (Scene.registry s))].
Proof.
  intros Ho Ht Hp. set (c := new_handle (alive (Scene.registry s))). assert (c ∉ alive (Scene.registry s)) as Hc by apply Hf.
  destruct (createEntity_open (fst x) a s w Ho (tidy_names _ _ Ht)) as (s1 & i & E1 & R1). fold c in E1, R1. unfold add_mesh. rewrite E1, bind_Ret.
  assert (tidy s1 kids) as Ht1 by (by eapply tidy_named). assert (Rep (Scene.registry s1) kids) as HR1 by apply Ht1.
  destruct (setParent_Rep (Scene.registry s1) kids c par HR1) as (R2 & E2 & HR2 & Ha2 & Hn2 & _); [rewrite R1; cbn; set_solver..|set_solver| |].
  { intros (z & h & Hz & Hzp)%tc_last. destruct (rep_parent_hier HR1 _ _ _ Hz Hzp) as [h' Hh']. rewrite R1 in Hh'. by apply Hc, (rep_alive _ _ (tidy_rep _ _ Ht) _ h'). }
  assert (SceneManager.heap (manager (add_renderer a c (snd x) (put a s1 w))) !! a = Some s1) as Hh by (cbn; apply lookup_insert_eq).
  unfold setParent. rewrite Hh. cbn [deref]. rewrite bind_Ret.
  unfold ent in E2. rewrite E2, bind_Ret. eexists (Scene.with_registry R2 s1), _. split; [reflexivity|].
  assert (names R2 = <[c := Scene.candidate (fst x) i]> (names (Scene.registry s))) as Hn by (by rewrite Hn2, R1).
  split; cbn [Scene.registry Scene.with_registry models renderers put with_manager].
  - split; [apply Ho|]. cbn. by rewrite lookup_insert_eq.
  - split; cbn [Scene.registry Scene.with_registry].
    + eapply Rep_ext; [|exact HR2]. intros q. unfold below, attach. rewrite !(detach_id c kids) by (by apply new_not_kid). by destruct (decide (q = par)) as [->|].
    + rewrite Hn2, Ha2. apply Ht1.
  - rewrite Ha2, R1. cbn. set_solver.
  - rewrite Hn. apply insert_subseteq. apply not_elem_of_dom. intros Hd. by apply Hc, (tidy_names _ _ Ht).
  - done.
  - constructor; [|constructor]. split; [done|]. split; [cbn; by rewrite pool_emplace, lookup_insert_eq|]. exists i. by rewrite Hn, lookup_insert_eq.
  - intros k Hk. cbn. rewrite pool_emplace. apply lookup_insert_ne. intros <-. by apply Hk; left.
Qed.

Lemma add_meshes_spec a par ms : forall s kids w, open_at a s w -> tidy s kids -> par ∈ alive (Scene.registry s) -> exists s' w' cs,
  foldM (add_mesh new_handle view_names par) ms w = Ret w' /\ meshes_below a par ms s kids w s' w' cs.
Proof.
  induction ms as [|x ms IH]; intros s kids w Ho Ht Hp.
  - exists s, w, []. split; [done|]. split; try done; [|cbn; set_solver]. split; [|apply Ht]. eapply Rep_ext; [|apply Ht].
    intros q. unfold below. destruct (decide (q = par)) as [->|]; [by rewrite app_nil_r|done].
  - destruct (add_mesh_spec a par x s kids w Ho Ht Hp) as (s1 & w1 & E1 & B1). set (c := new_handle (alive (Scene.registry s))) in *.
    destruct (IH s1 (below par [c] kids) w1) as (s2 & w2 & cs & E2 & B2); [apply B1|apply B1|rewrite (mb_alive _ _ _ _ _ _ _ _ _ B1); set_solver|].
    exists s2, w2, (c :: cs). cbn [foldM]. rewrite E1, bind_Ret. split; [exact E2|].
    pose proof (mb_new _ _ _ _ _ _ _ _ _ B1) as N1. apply Forall2_cons in N1 as [(Hc & Hr & i & Hi) _]. pose proof (mb_alive _ _ _ _ _ _ _ _ _ B1) as A1.
    assert (forall c', c' ∈ cs -> c' <> c) as Hne.
    { intros c' Hc' ->. apply list_elem_of_lookup_1 in Hc' as [k Hk]. destruct (Forall2_lookup_r _ _ _ _ _ (mb_new _ _ _ _ _ _ _ _ _ B2) Hk) as (y & _ & Hn & _). rewrite A1 in Hn. set_solver. }
    split.
    + apply B2.
    + destruct (mb_tidy _ _ _ _ _ _ _ _ _ B2) as [H1 H2]. split; [|done]. eapply Rep_ext; [|exact H1]. intros q. unfold below. destruct (decide (q = par)) as [->|]; [|done].
      rewrite decide_True by done. by rewrite <- app_assoc.
    + rewrite (mb_alive _ _ _ _ _ _ _ _ _ B2), A1. cbn. set_solver.
    + etrans; [apply B1|apply B2].
    + rewrite (mb_models _ _ _ _ _ _ _ _ _ B2). apply B1.
    + constructor.
      * split; [done|]. split; [|exists i; by eapply lookup_weaken; [|apply B2]]. rewrite (mb_rest _ _ _ _ _ _ _ _ _ B2); [done|]. intros Hc'. by apply (Hne c).
      * eapply Forall2_impl; [apply B2|]. intros y c' (Hn & Hy). split; [|done]. rewrite A1 in Hn. set_solver.
    + intros k Hk. rewrite (mb_rest _ _ _ _ _ _ _ _ _ B2) by set_solver. apply (mb_rest _ _ _ _ _ _ _ _ _ B1). set_solver.
Qed.

Lemma model_not_text p : StringUtils.isModelFile p = true -> StringUtils.isTextFile p = false.
Proof.
  unfold StringUtils.isModelFile, StringUtils.isTextFile, StringUtils.extension_in. generalize (StringUtils.lowered_extension p). intros x Hx%bool_decide_eq_true. cbn [fmap list_fmap] in Hx.
  repeat (apply elem_of_cons in Hx as [->|Hx]; [by vm_compute|]). by apply not_elem_of_nil in Hx.
Qed.

(** C7. Opening a model adds an entity with it, and, unless it has one mesh, an entity
    below that one for each mesh, in their order; everything else in the scene stays.
    Each of those finds the model from which its mesh is looked up again. *)
Theorem model_opened a s kids w p res : open_at a s w -> tidy s kids -> (forall x, is_Some (pool a (models w) !! x) -> x ∈ alive (Scene.registry s)) ->
  StringUtils.isModelFile p = true -> get_resource p = Ret res ->
  exists s' w' e cs, openFile new_handle view_names new_address win32 get_resource order uninitialised p w = Ret w' /\ open_at a s' w'
  /\ selectedNode w' = Some e /\ e ∉ alive (Scene.registry s) /\ tidy s' (below e cs kids) /\ names (Scene.registry s) ⊆ names (Scene.registry s')
  /\ getChildren (ent e) (Scene.registry s') = Ret (ent <$> cs)
  /\ models w' = emplace a e (MeshRenderer.mkModel p MeshRenderer.File (Some res)) (models w)
  /\ (forall x, x ∈ alive (Scene.registry s) -> pool a (renderers w') !! x = pool a (renderers w) !! x)
  /\ match order (MeshResource.meshes res) with
     | [x] => cs = [] /\ renderers w' = emplace a e (MeshRenderer.make e (Some (snd x))) (renderers w)
     | ms => Forall2 (fun x c => c ∉ alive (Scene.registry s) /\ pool a (renderers w') !! c = Some (MeshRenderer.make c (Some (snd x)))
         /\ tryGetComponentFromParent (pool a (models w')) (ent c) (Scene.registry s') = Ret (Some (MeshRenderer.mkModel p MeshRenderer.File (Some res)))) ms cs
     end.
Proof.
  intros Ho Ht Hm Hp Hres. unfold openFile. rewrite (model_not_text p Hp), Hp. set (e := new_handle (alive (Scene.registry s))). assert (e ∉ alive (Scene.registry s)) as He by apply Hf.
  destruct (createEntity_open (StringUtils.getFileNameWithoutExtension win32 p) a s w Ho (tidy_names _ _ Ht)) as (s1 & i & E1 & R1). fold e in E1, R1.
  unfold open_model. rewrite E1, bind_Ret, Hres, bind_Ret. set (M := MeshRenderer.mkModel p MeshRenderer.File (Some res)). set (w1 := add_model a e _ (put a s1 w)).
  assert (open_at a s1 w1) as Ho1 by (by apply (put_open a s s1 w)). assert (tidy s1 kids) as Ht1 by (by eapply tidy_named).
  assert (names (Scene.registry s) ⊆ names (Scene.registry s1)) as Hn1.
  { rewrite R1. apply insert_subseteq, not_elem_of_dom. intros Hd. by apply He, (tidy_names _ _ Ht). }
  assert (kids e = []) as Hk.
  { destruct (kids e) as [|c l] eqn:Ek; [done|]. destruct (rep_kid _ _ (tidy_rep _ _ Ht) e c) as [_ [h Hh]]; [rewrite Ek; by left|]. destruct He. by eapply (rep_alive _ _ (tidy_rep _ _ Ht)). }
  assert (forall s' cs, tidy s' (below e cs kids) -> getChildren (ent e) (Scene.registry s') = Ret (ent <$> cs)) as Hch.
  { intros s' cs [HR _]. rewrite (getChildren_Rep _ _ _ HR). unfold below. by rewrite decide_True, Hk by done. }
  assert (forall ms, exists s' w' cs, (w ← foldM (add_mesh new_handle view_names e) ms w1; Ret (with_selected (Some e) (add_model a e M w))) = Ret w' /\ open_at a s' w'
    /\ selectedNode w' = Some e /\ tidy s' (below e cs kids) /\ names (Scene.registry s) ⊆ names (Scene.registry s') /\ models w' = emplace a e M (models w)
    /\ (forall x, x ∈ alive (Scene.registry s) -> pool a (renderers w') !! x = pool a (renderers w) !! x)
    /\ Forall2 (fun x c => c ∉ alive (Scene.registry s) /\ pool a (renderers w') !! c = Some (MeshRenderer.make c (Some (snd x)))
         /\ tryGetComponentFromParent (pool a (models w')) (ent c) (Scene.registry s') = Ret (Some M)) ms cs) as Hmany.
  { intros ms. destruct (add_meshes_spec a e ms s1 kids w1 Ho1 Ht1) as (s2 & w2 & cs & E2 & B); [rewrite R1; cbn; set_solver|].
    exists s2, (with_selected (Some e) (add_model a e M w2)), cs. rewrite E2, bind_Ret. split; [done|]. split; [apply B|]. split; [done|]. split; [apply B|]. split; [etrans; [exact Hn1|apply B]|].
    assert (models (add_model a e M w2) = emplace a e M (models w)) as Hms by (cbn; rewrite (mb_models _ _ _ _ _ _ _ _ _ B); apply emplace_twice).
    pose proof (mb_new _ _ _ _ _ _ _ _ _ B) as Hnew. split; [exact Hms|]. split.
    { intros x Hx. apply (mb_rest _ _ _ _ _ _ _ _ _ B). intros Hc. apply list_elem_of_lookup_1 in Hc as [k Hk']. destruct (Forall2_lookup_r _ _ _ _ _ Hnew Hk') as (y & _ & Hn & _).
      rewrite R1 in Hn. cbn in Hn. set_solver. }
    apply Forall2_same_length_lookup. split; [apply (Forall2_length _ _ _ (mb_new _ _ _ _ _ _ _ _ _ B))|]. intros k x c Hx Hc.
    destruct (Forall2_lookup_lr _ _ _ _ _ _ (mb_new _ _ _ _ _ _ _ _ _ B) Hx Hc) as (Hcn & Hr & _). rewrite R1 in Hcn. cbn in Hcn.
    split; [set_solver|]. split; [exact Hr|]. apply (found_above _ _ (below e cs kids) c e); [apply B| | |].
    - apply (rep_kid _ _ (tidy_rep _ _ (mb_tidy _ _ _ _ _ _ _ _ _ B)) e c). unfold below. rewrite decide_True, Hk by done. by eapply list_elem_of_lookup_2.
    - change (pool a (models (add_model a e M w2)) !! c = None). rewrite Hms, pool_emplace, lookup_insert_ne by set_solver. apply eq_None_not_Some. intros Hs%Hm. set_solver.
    - change (pool a (models (add_model a e M w2)) !! e = Some M). by rewrite Hms, pool_emplace, lookup_insert_eq. }
  destruct (order (MeshResource.meshes res)) as [|x [|y ms]].
  1, 3: match goal with |- context [foldM _ ?l] => destruct (Hmany l) as (s' & w' & cs & E & H1 & H2 & H3 & H4 & H5 & H6 & H7) end; exists s', w', e, cs; split_and!; auto.
  exists s1, (with_selected (Some e) (add_model a e M (add_renderer a e (snd x) w1))), e, []. rewrite bind_Ret. split; [done|]. split; [exact Ho1|]. split; [done|]. split; [done|].
  assert (tidy s1 (below e [] kids)) as Ht2.
  { split; [|apply Ht1]. eapply Rep_ext; [|apply Ht1]. intros q. unfold below. by destruct (decide (q = e)) as [->|]; rewrite ?app_nil_r. }
  split; [exact Ht2|]. split; [exact Hn1|]. split; [by apply Hch|]. split; [cbn; apply emplace_twice|]. split; [|done].
  intros x' Hx'. cbn. rewrite pool_emplace. apply lookup_insert_ne. set_solver.
Qed.
End Opening.

(** *** A model of two meshes in a scene with an entity *)
Definition lone : Scene.Scene := Scene.with_registry (create_handle 1 Registry.empty) (Scene.make (str "s")).
Definition lone_editing : Editing := mkEditing (SceneManager.mkManager {[0%N := lone]} {[str "s" := Some 0%N]} (Some 0%N) false (str "s")) ∅ ∅ None.
Definition two_meshes : MeshResource.MeshResource (M := N) := MeshResource.mkMeshResource {[str "body" := 10%N; str "head" := 11%N]} (str "figure.obj").
Lemma lone_tidy : tidy lone (fun _ => []).
Proof. split; [apply create_Rep, Rep_empty|]. cbn. rewrite dom_empty_L. set_solver. Qed.
Lemma model_opened_witness : exists s' w' e cs, openFile fresh SceneManager.names_view fresh false (fun _ => Ret two_meshes) map_to_list MeshRenderer.Plane (str "figure.obj") lone_editing = Ret w'
  /\ open_at 0 s' w' /\ selectedNode w' = Some e /\ getChildren (ent e) (Scene.registry s') = Ret (ent <$> cs) /\ length cs = 2.
Proof.
  destruct (model_opened fresh SceneManager.names_view fresh false (fun A => is_fresh A)) with (get_resource := fun _ : cstring => Ret two_meshes)
    (order := fun m : gmap cstring N => map_to_list m) (uninitialised := MeshRenderer.Plane) (a := 0%N) (s := lone) (kids := fun _ : entity => @nil entity) (w := lone_editing) (p := str "figure.obj") (res := two_meshes)
    as (s' & w' & e & cs & H1 & H2 & H3 & _ & _ & _ & H4 & _ & _ & H5).
  - intros m e. unfold SceneManager.names_view. rewrite list_elem_of_fmap. split.
    + intros ([x n] & -> & H%elem_of_map_to_list). by eexists.
    + intros [n H]. exists (e, n). split; [done|]. by apply elem_of_map_to_list.
  - by split.
  - apply lone_tidy.
  - intros x [m Hm]. unfold pool in Hm. cbn in Hm. by rewrite lookup_empty in Hm.
  - by vm_compute.
  - done.
  - exists s', w', e, cs. do 4 (split; [done|]). assert (exists x y, map_to_list (MeshResource.meshes two_meshes) = [x; y]) as (x & y & E) by (by do 2 eexists; vm_compute).
    rewrite E in H5. by rewrite <- (Forall2_length _ _ _ H5).
Defined.
Lemma nearest_component_witness : exists t, tryGetComponentFromParent {[1%N := 7%N]} (ent 2) demo = Ret t
  /\ nearest {[1%N := 7%N]} demo (Some 2%N) t.
Proof. apply (nearest_component {[1%N := 7%N]} demo demo_kids 2). apply demo_Rep. Defined.
(** Opened twice, a model gets names of its own. *)
Example opened_twice : (w ← openFile fresh SceneManager.names_view fresh false (fun _ => Ret two_meshes) map_to_list MeshRenderer.Plane (str "figure.obj") lone_editing;
    w ← openFile fresh SceneManager.names_view fresh false (fun _ => Ret two_meshes) map_to_list MeshRenderer.Plane (str "figure.obj") w;
    '(_, s) ← OpenFile.current w; Ret (length (filter (fun x => x = str "figure" \/ x = str "figure(1)") (snd <$> map_to_list (names (Scene.registry s)))), size (pool 0 (models w)), size (pool 0 (renderers w)))) = Ret (2, 2, 4).
Proof. by vm_compute. Qed.
End OpenProps.
