(* ===== verification/Terrain.v ===== *)
(** * Terrain: the quad-collapse level-of-detail mesh

    Models [Terrain/QuadCollapseMesh.*]: the
    pools of vertex nodes, quads and leaf quads with pointers as pool indices,
    the construction of the quadtree, the collapse that arranges the vertex
    nodes in a forest, and the per-frame selection of the quads to draw. *)

From S2P Require Import Prelude Float32 Geometry.
From stdpp Require Import base decidable list sets.
From Stdlib Require Import ZArith SpecFloat Lia.
Import Glm Vertex.
Local Open Scope Z_scope.

Module Terrain.

Definition ACTIVE_SCALE : f32 := F32.of_Z 16.
Definition MAX_LENGTH : Z := 4097.
Definition MAX_QUAD_LEVEL_COUNT : nat := 13.

Definition isPowerOf2 (n : Z) : bool := negb (n =? 0) && (Z.land n (n - 1) =? 0).

Inductive TriangulationMode := TM_NW_SE | TM_SW_NE.
Inductive NodeState := NS_ACTIVE | NS_BOUNDARY.

(** Pointers: an index in the pool of vertex nodes, and a quad that is either a
    [QuadNode] or a [QuadLeaf] cast to one. *)
Abbreviation vptr := nat.
Inductive qptr := QN (i : nat) | QL (i : nat).

#[export] Instance mode_eq_dec : EqDecision TriangulationMode.
Proof. solve_decision. Defined.
#[export] Instance state_eq_dec : EqDecision NodeState.
Proof. solve_decision. Defined.
#[export] Instance qptr_eq_dec : EqDecision qptr.
Proof. solve_decision. Defined.

(** A C array of four pointers, null at first. *)
Definition null4 {A} : list (option A) := replicate 4 None.
Definition get4 {A} (l : list (option A)) (i : nat) : outcome A := p ← vec_at l i; deref p.

(** Bit fields are integers reduced to their width when they are assigned. *)
Record VertNode := mkVertNode {
  v_activeFrame : Z;                       (* 24 bits *)
  v_state : NodeState;                     (* 1 bit *)
  v_level : Z;                             (* 4 bits *)
  adjcentQuadsCount : Z;                   (* 3 bits *)
  originalVertex : Vertex;
  interpolationFactor : f32;
  interpolatedVertex : Vertex;
  v_parent : option vptr;
  firstChild : option vptr;
  nextSibling : option vptr;
  adjcentQuads : list (option qptr)
}.

(** The fields [QuadNode] and [QuadLeaf] have in common, in the same layout. *)
Record QuadHead := mkHead {
  q_activeFrame : Z;                       (* 26 bits *)
  q_state : NodeState;                     (* 1 bit *)
  q_level : Z;                             (* 4 bits *)
  triangulationMode : TriangulationMode;   (* 1 bit *)
  q_parent : option qptr;
  cornerVertNodes : list (option vptr)
}.
Record QuadNode := mkQuadNode { qn_head : QuadHead; centerVertNode : option vptr; children : list (option qptr) }.
Record QuadLeaf := mkQuadLeaf { ql_head : QuadHead }.

(** Value-initialised pool entries. *)
Definition vert0 : VertNode :=
  mkVertNode 0 NS_ACTIVE 0 0 vertex0 F32.zero vertex0 None None None null4.
Definition head0 : QuadHead := mkHead 0 NS_ACTIVE 0 TM_NW_SE None null4.
Definition node0 : QuadNode := mkQuadNode head0 None null4.
Definition leaf0 : QuadLeaf := mkQuadLeaf head0.

(** The pools; [quadNodePoolAllocated] and [quadLeafPoolAllocated] only grow. *)
Record Pools := mkPools {
  vertNodePool : list VertNode;
  quadNodePool : list QuadNode;
  quadLeafPool : list QuadLeaf;
  quadNodePoolAllocated : nat;
  quadLeafPoolAllocated : nat
}.

Definition vnode (P : Pools) (v : vptr) : outcome VertNode := vec_at (vertNodePool P) v.
Definition upd_vnode (v : vptr) (f : VertNode -> VertNode) (P : Pools) : Pools :=
  mkPools (alter f v (vertNodePool P)) (quadNodePool P) (quadLeafPool P) (quadNodePoolAllocated P) (quadLeafPoolAllocated P).

Definition qhead (P : Pools) (q : qptr) : outcome QuadHead :=
  match q with
  | QN i => n ← vec_at (quadNodePool P) i; Ret (qn_head n)
  | QL i => l ← vec_at (quadLeafPool P) i; Ret (ql_head l)
  end.
Definition upd_node (i : nat) (f : QuadNode -> QuadNode) (P : Pools) : Pools :=
  mkPools (vertNodePool P) (alter f i (quadNodePool P)) (quadLeafPool P) (quadNodePoolAllocated P) (quadLeafPoolAllocated P).
Definition upd_leaf (i : nat) (f : QuadLeaf -> QuadLeaf) (P : Pools) : Pools :=
  mkPools (vertNodePool P) (quadNodePool P) (alter f i (quadLeafPool P)) (quadNodePoolAllocated P) (quadLeafPoolAllocated P).
Definition upd_qhead (q : qptr) (f : QuadHead -> QuadHead) (P : Pools) : Pools :=
  match q with
  | QN i => upd_node i (fun n => mkQuadNode (f (qn_head n)) (centerVertNode n) (children n)) P
  | QL i => upd_leaf i (fun l => mkQuadLeaf (f (ql_head l))) P
  end.

(** [quadNode->children[i]]; a leaf has no such field and the read is outside it. *)
Definition qchild (P : Pools) (q : qptr) (i : nat) : outcome qptr :=
  match q with
  | QN j => n ← vec_at (quadNodePool P) j; get4 (children n) i
  | QL _ => Exn OutOfBounds
  end.
Definition qcorner (P : Pools) (q : qptr) (i : nat) : outcome vptr :=
  h ← qhead P q; get4 (cornerVertNodes h) i.

(** Field assignments. *)
Definition set_v_parent (p : option vptr) (n : VertNode) : VertNode :=
  mkVertNode (v_activeFrame n) (v_state n) (v_level n) (adjcentQuadsCount n) (originalVertex n) (interpolationFactor n)
    (interpolatedVertex n) p (firstChild n) (nextSibling n) (adjcentQuads n).
Definition set_firstChild (c : option vptr) (n : VertNode) : VertNode :=
  mkVertNode (v_activeFrame n) (v_state n) (v_level n) (adjcentQuadsCount n) (originalVertex n) (interpolationFactor n)
    (interpolatedVertex n) (v_parent n) c (nextSibling n) (adjcentQuads n).
Definition set_nextSibling (c : option vptr) (n : VertNode) : VertNode :=
  mkVertNode (v_activeFrame n) (v_state n) (v_level n) (adjcentQuadsCount n) (originalVertex n) (interpolationFactor n)
    (interpolatedVertex n) (v_parent n) (firstChild n) c (adjcentQuads n).
Definition set_adjacent (count : Z) (l : list (option qptr)) (n : VertNode) : VertNode :=
  mkVertNode (v_activeFrame n) (v_state n) (v_level n) count (originalVertex n) (interpolationFactor n)
    (interpolatedVertex n) (v_parent n) (firstChild n) (nextSibling n) l.
Definition set_v_mark (frame : Z) (s : NodeState) (n : VertNode) : VertNode :=
  mkVertNode (wrapU 24 frame) s (v_level n) (adjcentQuadsCount n) (originalVertex n) (interpolationFactor n)
    (interpolatedVertex n) (v_parent n) (firstChild n) (nextSibling n) (adjcentQuads n).
Definition set_v_state (s : NodeState) (n : VertNode) : VertNode :=
  mkVertNode (v_activeFrame n) s (v_level n) (adjcentQuadsCount n) (originalVertex n) (interpolationFactor n)
    (interpolatedVertex n) (v_parent n) (firstChild n) (nextSibling n) (adjcentQuads n).
Definition set_interpolated (x : Vertex) (n : VertNode) : VertNode :=
  mkVertNode (v_activeFrame n) (v_state n) (v_level n) (adjcentQuadsCount n) (originalVertex n) (interpolationFactor n)
    x (v_parent n) (firstChild n) (nextSibling n) (adjcentQuads n).
Definition set_q_mark (frame : Z) (s : NodeState) (h : QuadHead) : QuadHead :=
  mkHead (wrapU 26 frame) s (q_level h) (triangulationMode h) (q_parent h) (cornerVertNodes h).
Definition set_q_parent (p : option qptr) (h : QuadHead) : QuadHead :=
  mkHead (q_activeFrame h) (q_state h) (q_level h) (triangulationMode h) p (cornerVertNodes h).
Definition set_triangulation (m : TriangulationMode) (h : QuadHead) : QuadHead :=
  mkHead (q_activeFrame h) (q_state h) (q_level h) m (q_parent h) (cornerVertNodes h).

(** ** Vertex nodes *)

(** The body of [VertNode::addChild], which the source has twice in a row; the
    boolean tells whether it returned. *)
Definition addChild_body (this child : vptr) (P : Pools) : outcome (Pools * bool) :=
  c ← vnode P child;
  if bool_decide (v_parent c = Some this) then Ret (P, true)
  else
    t ← vnode P this;
    if negb (v_level c =? v_level t + 1) then Ret (P, true)
    else
      let P := upd_vnode child (set_v_parent (Some this)) P in
      c ← vnode P child;
      if bool_decide (is_Some (nextSibling c)) then Ret (P, true)
      else
        t ← vnode P this;
        match firstChild t with
        | Some f =>
            let P := upd_vnode child (set_nextSibling (Some f)) P in
            Ret (upd_vnode this (set_firstChild (Some child)) P, false)
        | None => Ret (upd_vnode this (set_firstChild (Some child)) P, false)
        end.

Definition addChild (this child : vptr) (P : Pools) : outcome Pools :=
  '(P, returned) ← addChild_body this child P;
  if returned : bool then Ret P else '(P, _) ← addChild_body this child P; Ret P.

Definition addAdjcentQuad (this : vptr) (q : qptr) (P : Pools) : outcome Pools :=
  t ← vnode P this;
  let n := Z.to_nat (adjcentQuadsCount t) in
  if bool_decide (Some q ∈ take n (adjcentQuads t)) then Ret P
  else if bool_decide (n < length (adjcentQuads t))%nat then
    Ret (upd_vnode this (set_adjacent (wrapU 3 (adjcentQuadsCount t + 1)) (<[n := Some q]> (adjcentQuads t))) P)
  else Exn OutOfBounds.

Fixpoint hasChild_loop (n : nat) (P : Pools) (child : option vptr) (testNode : vptr) : outcome bool :=
  match child with
  | None => Ret false
  | Some c =>
      if bool_decide (c = testNode) then Ret true
      else match n with
           | O => Exn OutOfFuel
           | S n => x ← vnode P c; hasChild_loop n P (nextSibling x) testNode
           end
  end.
Definition hasChild (P : Pools) (this testNode : vptr) : outcome bool :=
  t ← vnode P this; hasChild_loop (length (vertNodePool P)) P (firstChild t) testNode.

Definition isDiagonalConnected (P : Pools) (q : qptr) (vn1 vn2 : vptr) : outcome bool :=
  h ← qhead P q;
  let corner_is v i := bool_decide (cornerVertNodes h !! i = Some (Some v)) in
  match triangulationMode h with
  | TM_NW_SE => Ret ((corner_is vn1 1%nat && corner_is vn2 3%nat) || (corner_is vn1 3%nat && corner_is vn2 1%nat))
  | TM_SW_NE => Ret ((corner_is vn1 0%nat && corner_is vn2 2%nat) || (corner_is vn1 2%nat && corner_is vn2 0%nat))
  end.

(** ** Configuration computed by [build] *)
Record Config := mkConfig {
  maxLevelVerticesLength : Z;
  maxLevel : Z;
  vertNodesActiveDistance : list f32;
  quadNodesCullRadius : list f32;
  vertNodesLevelOffset : list Z
}.

Definition getVertNode (C : Config) (P : Pools) (level x y : Z) : outcome vptr :=
  off ← at_Z (vertNodesLevelOffset C) level;
  _ ← at_Z (vertNodePool P) off;
  let shift := u32 (maxLevel C - level) in
  let rowStep := u32 (Z.shiftl 1 level + 1) in
  if 32 <=? shift then Exn OutOfBounds   (* a shift by the width or more *)
  else
    let x := Z.shiftr x shift in
    let y := Z.shiftr y shift in
    let i := u32 (off + y * rowStep + x) in
    _ ← at_Z (vertNodePool P) i;
    Ret (Z.to_nat i).

Definition allocQuadNode (P : Pools) : Pools * option nat :=
  if bool_decide (length (quadNodePool P) <= quadNodePoolAllocated P)%nat then (P, None)
  else (mkPools (vertNodePool P) (quadNodePool P) (quadLeafPool P) (S (quadNodePoolAllocated P)) (quadLeafPoolAllocated P),
        Some (quadNodePoolAllocated P)).
Definition allocQuadLeaf (P : Pools) : Pools * option nat :=
  if bool_decide (length (quadLeafPool P) <= quadLeafPoolAllocated P)%nat then (P, None)
  else (mkPools (vertNodePool P) (quadNodePool P) (quadLeafPool P) (quadNodePoolAllocated P) (S (quadLeafPoolAllocated P)),
        Some (quadLeafPoolAllocated P)).

(** ** Collapse *)

(** [junk] is the value of the tangent the vertex operators leave unset. *)
Section Mesh.
Context (junk : vec3).

(** [glm::length((c - a).pos)] for two nodes. *)
Definition node_distance (P : Pools) (c a : vptr) : outcome f32 :=
  cn ← vnode P c; an ← vnode P a;
  Ret (length3 (pos (Vertex.sub junk (originalVertex cn) (originalVertex an)))).

(** A node on the middle of an edge goes to the nearer of the two corners. *)
Definition attach_edge (c a b : vptr) (P : Pools) : outcome Pools :=
  cn ← vnode P c;
  if bool_decide (is_Some (v_parent cn)) then Ret P
  else
    d1 ← node_distance P c a; d2 ← node_distance P c b;
    if F32.ltb d1 d2 then addChild a c P else addChild b c P.

(** [a->hasChild(x) && a->hasChild(y)], and the disjunction. *)
Definition hasBoth (P : Pools) (a x y : vptr) : outcome bool :=
  h ← hasChild P a x; if h : bool then hasChild P a y else Ret false.
Definition hasEither (P : Pools) (a x y : vptr) : outcome bool :=
  h ← hasChild P a x; if h : bool then Ret true else hasChild P a y.
Definition and_then (a : outcome bool) (b : outcome bool) : outcome bool :=
  x ← a; if x : bool then b else Ret false.

(** The nodes a quad and its children meet at. *)
Record Around := mkAround {
  Bt : vptr; Rt : vptr; Tp : vptr; Lf : vptr; Ct : vptr;
  cSw : vptr; cSe : vptr; cNe : vptr; cNw : vptr;
  Sw : vptr; Se : vptr; Ne : vptr; Nw : vptr
}.

Definition around (P : Pools) (q : qptr) : outcome Around :=
  c0 ← qchild P q 0; c1 ← qchild P q 1; c2 ← qchild P q 2; c3 ← qchild P q 3;
  bt ← qcorner P c0 1; rt ← qcorner P c1 2; tp ← qcorner P c2 3; lf ← qcorner P c3 0; ct ← qcorner P c0 2;
  csw ← qcorner P c0 0; cse ← qcorner P c1 1; cne ← qcorner P c2 2; cnw ← qcorner P c3 3;
  sw ← qcorner P q 0; se ← qcorner P q 1; ne ← qcorner P q 2; nw ← qcorner P q 3;
  Ret (mkAround bt rt tp lf ct csw cse cne cnw sw se ne nw).

(** The scan for the nearest parent: strict improvement over the first. *)
Fixpoint nearest (P : Pools) (c best : vptr) (minDist : f32) (rest : list vptr) : outcome vptr :=
  match rest with
  | [] => Ret best
  | p :: rest =>
      d ← node_distance P c p;
      if F32.ltb d minDist then nearest P c p d rest else nearest P c best minDist rest
  end.

Definition nearer (P : Pools) (c a b : vptr) : outcome vptr :=
  d1 ← node_distance P c a; d2 ← node_distance P c b;
  Ret (if F32.ltb d1 d2 then a else b).

(** The last resort: a diagonal of a child quad, or the nearest corner. *)
Definition diagonal_parent (P : Pools) (q : qptr) (A : Around) : outcome vptr :=
  let diag i v := c ← qchild P q i; isDiagonalConnected P c (Ct A) v in
  d ← diag 0%nat (cSw A);
  if d : bool then Ret (Sw A) else
  d ← diag 1%nat (cSe A);
  if d : bool then Ret (Se A) else
  d ← diag 2%nat (cNe A);
  if d : bool then Ret (Ne A) else
  d ← diag 3%nat (cNw A);
  if d : bool then Ret (Nw A) else
  d0 ← node_distance P (Ct A) (Sw A);
  nearest P (Ct A) (Sw A) d0 [Se A; Ne A; Nw A].

(** The parent the centre node gets. *)
Definition center_parent (P : Pools) (q : qptr) (A : Around) : outcome vptr :=
  swne ← and_then (hasBoth P (Sw A) (Lf A) (Bt A)) (hasBoth P (Ne A) (Rt A) (Tp A));
  if swne : bool then nearer P (Ct A) (Sw A) (Ne A) else
  senw ← and_then (hasBoth P (Se A) (Bt A) (Rt A)) (hasBoth P (Nw A) (Tp A) (Lf A));
  if senw : bool then nearer P (Ct A) (Se A) (Nw A) else
  h ← hasBoth P (Sw A) (Lf A) (Bt A);
  if h : bool then Ret (Sw A) else
  h ← hasBoth P (Se A) (Bt A) (Rt A);
  if h : bool then Ret (Se A) else
  h ← hasBoth P (Ne A) (Rt A) (Tp A);
  if h : bool then Ret (Ne A) else
  h ← hasBoth P (Nw A) (Tp A) (Lf A);
  if h : bool then Ret (Nw A) else diagonal_parent P q A.

(** The diagonal of the collapsed quad. *)
Definition layout (P : Pools) (q : qptr) (A : Around) : outcome TriangulationMode :=
  let choose opposite x y i v yes no :=
    h ← hasEither P opposite x y;
    if h : bool then Ret yes
    else c ← qchild P q i; d ← isDiagonalConnected P c (Ct A) v; Ret (if d : bool then yes else no) in
  ct ← vnode P (Ct A);
  if bool_decide (v_parent ct = Some (Sw A)) then choose (Ne A) (Tp A) (Rt A) 2%nat (cNe A) TM_SW_NE TM_NW_SE
  else if bool_decide (v_parent ct = Some (Se A)) then choose (Nw A) (Tp A) (Lf A) 3%nat (cNw A) TM_NW_SE TM_SW_NE
  else if bool_decide (v_parent ct = Some (Ne A)) then choose (Sw A) (Bt A) (Lf A) 0%nat (cSw A) TM_SW_NE TM_NW_SE
  else choose (Se A) (Bt A) (Rt A) 1%nat (cSe A) TM_NW_SE TM_SW_NE.

Definition collapseQuad (q : qptr) (P : Pools) : outcome Pools :=
  A ← around P q;
  P ← addChild (Sw A) (cSw A) P;
  P ← addChild (Se A) (cSe A) P;
  P ← addChild (Ne A) (cNe A) P;
  P ← addChild (Nw A) (cNw A) P;
  ct ← vnode P (Ct A);
  if bool_decide (is_Some (v_parent ct)) then Ret P
  else
    P ← attach_edge (Bt A) (Se A) (Sw A) P;
    P ← attach_edge (Rt A) (Ne A) (Se A) P;
    P ← attach_edge (Tp A) (Ne A) (Nw A) P;
    P ← attach_edge (Lf A) (Nw A) (Sw A) P;
    p ← center_parent P q A;
    P ← addChild p (Ct A) P;
    m ← layout P q A;
    Ret (upd_qhead q (set_triangulation m) P).

(** ** Construction *)

(** The counter of [for (v = 0; v < bound; v += step)]. *)
Definition multiples (bound step : Z) : list Z :=
  (fun i => i * step) <$> seqZ 0 ((bound + step - 1) / step).

Definition init_vert (level : Z) (x : Vertex) : VertNode :=
  mkVertNode 0 NS_ACTIVE (wrapU 4 level) 0 x F32.one x None None None null4.

Definition init_vertNode (C : Config) (vertices : list Vertex) (level y x : Z) (P : Pools) : outcome Pools :=
  v ← getVertNode C P level x y;
  o ← at_Z vertices (y * maxLevelVerticesLength C + x);
  Ret (upd_vnode v (fun _ => init_vert level o) P).

Definition init_level (C : Config) (vertices : list Vertex) (level step : Z) (P : Pools) : outcome Pools :=
  let line := multiples (maxLevelVerticesLength C) step in
  foldM (fun y => foldM (fun x => init_vertNode C vertices level y x) line) line P.

(** [while (step > 0)]: [step] halves, so the width of the type bounds the loop. *)
Fixpoint init_levels (n : nat) (C : Config) (vertices : list Vertex) (level step : Z) (P : Pools) : outcome Pools :=
  if 0 <? step then
    match n with
    | O => Exn OutOfFuel
    | S n => P ← init_level C vertices level step P; init_levels n C vertices (level + 1) (Z.shiftr step 1) P
    end
  else Ret P.

Definition buildVertNodes (C : Config) (vertices : list Vertex) (P : Pools) : outcome (Pools * list (option vptr)) :=
  let last := maxLevelVerticesLength C - 1 in
  P ← init_levels 32 C vertices 0 last P;
  r0 ← getVertNode C P 0 0 0; r1 ← getVertNode C P 0 last 0;
  r2 ← getVertNode C P 0 last last; r3 ← getVertNode C P 0 0 last;
  Ret (P, [Some r0; Some r1; Some r2; Some r3]).

Definition corners (C : Config) (P : Pools) (level x0 y0 step : Z) : outcome (list vptr) :=
  a ← getVertNode C P level x0 y0; b ← getVertNode C P level (x0 + step) y0;
  c ← getVertNode C P level (x0 + step) (y0 + step); d ← getVertNode C P level x0 (y0 + step);
  Ret [a; b; c; d].

Definition build_leaf (C : Config) (level x0 y0 step : Z) (P : Pools) : outcome (Pools * qptr) :=
  let '(P, result) := allocQuadLeaf P in
  i ← deref result;
  cs ← corners C P level x0 y0 step;
  let P := upd_leaf i (fun _ => mkQuadLeaf (mkHead 0 NS_ACTIVE (wrapU 4 level) TM_NW_SE None (Some <$> cs))) P in
  P ← foldM (fun v P => n ← vnode P v; if v_level n =? level then addAdjcentQuad v (QL i) P else Ret P) cs P;
  Ret (P, QL i).

Fixpoint recursiveBuildQuadNodes (n : nat) (C : Config) (level x0 y0 step : Z) (P : Pools) : outcome (Pools * qptr) :=
  if step =? 1 then build_leaf C level x0 y0 step P
  else match n with
  | O => Exn OutOfFuel
  | S n =>
      let '(P, result) := allocQuadNode P in
      i ← deref result;
      let halfStep := Z.shiftr step 1 in
      center ← getVertNode C P (level + 1) (x0 + halfStep) (y0 + halfStep);
      cs ← corners C P level x0 y0 step;
      let P := upd_node i (fun o => mkQuadNode
                 (mkHead 0 NS_ACTIVE (wrapU 4 level) (triangulationMode (qn_head o)) None (Some <$> cs)) (Some center) (children o)) P in
      P ← foldM (fun v => addAdjcentQuad v (QN i)) cs P;
      '(P, c0) ← recursiveBuildQuadNodes n C (level + 1) x0 y0 halfStep P;
      '(P, c1) ← recursiveBuildQuadNodes n C (level + 1) (x0 + halfStep) y0 halfStep P;
      '(P, c2) ← recursiveBuildQuadNodes n C (level + 1) (x0 + halfStep) (y0 + halfStep) halfStep P;
      '(P, c3) ← recursiveBuildQuadNodes n C (level + 1) x0 (y0 + halfStep) halfStep P;
      let P := upd_node i (fun o => mkQuadNode (qn_head o) (centerVertNode o) [Some c0; Some c1; Some c2; Some c3]) P in
      let P := fold_left (fun P c => upd_qhead c (set_q_parent (Some (QN i))) P) [c0; c1; c2; c3] P in
      P ← collapseQuad (QN i) P;
      Ret (P, QN i)
  end.

(** ** Index buffers keep a separate count, set by the constructor only. *)
Record IndexBuffer := mkIndexBuffer { ib_data : list Z; ib_count : Z }.
Definition ib_setData (d : list Z) (b : IndexBuffer) : IndexBuffer := mkIndexBuffer d (ib_count b).

Record QuadCollapseMesh := mkQuadCollapseMesh {
  lod : bool;
  indices : list Z;
  lodIndices : list Z;
  vertices : list Vertex;
  activeVertices : list Vertex;
  config : Config;
  pools : Pools;
  rootQuadNode : option qptr;
  rootVertNodes : list (option vptr);
  updateFrame : Z;
  m_size : Z;
  vertexBuffer : option (list Vertex);
  indexBuffer : option IndexBuffer
}.

Definition config0 : Config :=
  mkConfig 0 0 (replicate MAX_QUAD_LEVEL_COUNT F32.zero) (replicate MAX_QUAD_LEVEL_COUNT F32.zero)
    (replicate MAX_QUAD_LEVEL_COUNT 0).
Definition mesh0 : QuadCollapseMesh :=
  mkQuadCollapseMesh false [] [] [] [] config0 (mkPools [] [] [] 0 0) None null4 0 0 None None.

Definition setLod (b : bool) (m : QuadCollapseMesh) : QuadCollapseMesh :=
  mkQuadCollapseMesh b (indices m) (lodIndices m) (vertices m) (activeVertices m) (config m) (pools m)
    (rootQuadNode m) (rootVertNodes m) (updateFrame m) (m_size m) (vertexBuffer m) (indexBuffer m).

(** [std::vector::resize]: keeps a prefix and value-initialises the rest. *)
Definition resize {A} (n : Z) (x : A) (l : list A) : list A := List.firstn (Z.to_nat n) l ++ replicate (Z.to_nat n - length l) x.

(** Six assignments [indices[indicesCount++] = ...]. *)
Fixpoint write_at (i : Z) (vals : list Z) (l : list Z) : outcome (list Z) :=
  match vals with
  | [] => Ret l
  | v :: vals => _ ← at_Z l i; write_at (i + 1) vals (<[Z.to_nat i := v]> l)
  end.

(** One iteration of the loops over the cells. *)
Definition index_cell (width numIndices x y : Z) (s : list Z * Z) : outcome (list Z * Z) :=
  let '(l, indicesCount) := s in
  if indicesCount <? u32 (numIndices - 6) then
    let a := i32 (u32 (x * width + y)) in
    let b := i32 (u32 (u32 ((x + 1) * width) + y)) in
    let c := i32 (u32 (u32 ((x + 1) * width) + (y + 1))) in
    let d := i32 (u32 (x * width + (y + 1))) in
    l ← write_at indicesCount (u32 <$> [c; b; a; a; d; c]) l;
    Ret (l, indicesCount + 6)
  else Ret (l, indicesCount).

Definition build_indices (width height : Z) (old : list Z) : outcome (list Z) :=
  let numIndices := u32 (u32 (u32 (width - 1) * u32 (height - 1)) * 6) in
  '(l, _) ← foldM (fun x => foldM (fun y => index_cell width numIndices x y) (seqZ 0 (u32 (height - 1))))
                  (seqZ 0 (u32 (width - 1))) (resize numIndices 0 old, 0);
  Ret l.

(** [while (temp) { levelCount++; temp >>= 1; }] *)
Fixpoint level_count (n : nat) (temp levelCount : Z) : outcome Z :=
  if temp =? 0 then Ret levelCount
  else match n with O => Exn OutOfFuel | S n => level_count n (Z.shiftr temp 1) (levelCount + 1) end.

(** The loop that sizes the pools and fills the per-level tables. *)
Record Sizes := mkSizes {
  quadCountPerEdge : Z; vertCountPerEdge : Z;
  quadLeafPoolSize : Z; quadNodePoolSize : Z; vertNodePoolSize : Z;
  s_config : Config
}.
Definition size_level (levelCount i : Z) (s : Sizes) : outcome Sizes :=
  let C := s_config s in
  let quadSize := F32.of_Z (Z.shiftr (maxLevelVerticesLength C - 1) i) in
  let quadHalfSize := F32.mul quadSize (F32.lit 1 2) in
  let radius := F32.sqrt (F32.mul (F32.mul quadHalfSize quadSize) (F32.of_Z 2)) in
  _ ← at_Z (vertNodesLevelOffset C) i;
  let k := Z.to_nat i in
  let C := mkConfig (maxLevelVerticesLength C) (maxLevel C)
             (<[k := F32.mul radius ACTIVE_SCALE]> (vertNodesActiveDistance C))
             (<[k := radius]> (quadNodesCullRadius C))
             (<[k := vertNodePoolSize s]> (vertNodesLevelOffset C)) in
  let q := i32 (quadCountPerEdge s * quadCountPerEdge s) in
  let last := i =? levelCount - 1 in
  Ret (mkSizes (i32 (Z.shiftl (quadCountPerEdge s) 1)) (i32 (vertCountPerEdge s + vertCountPerEdge s - 1))
         (if last then q else quadLeafPoolSize s)
         (if last then quadNodePoolSize s else i32 (quadNodePoolSize s + q))
         (i32 (vertNodePoolSize s + i32 (vertCountPerEdge s * vertCountPerEdge s))) C).

Definition build (vs : list Vertex) (width height : Z) (m : QuadCollapseMesh) : outcome (QuadCollapseMesh * bool) :=
  let lodIdx := lodIndices m ++ seqZ 0 (Z.of_nat (length vs)) in
  idx ← build_indices width height (indices m);
  let n := Z.of_nat (length idx) in
  let ib := mkIndexBuffer idx n in
  let len := i32 width in
  let early C := mkQuadCollapseMesh (lod m) idx lodIdx vs (activeVertices m) C (pools m)
                   (rootQuadNode m) (rootVertNodes m) (updateFrame m) n (Some []) (Some ib) in
  let C0 := mkConfig len (maxLevel (config m)) (vertNodesActiveDistance (config m)) (quadNodesCullRadius (config m))
              (vertNodesLevelOffset (config m)) in
  if len <? 2 then Ret (early C0, false)
  else if MAX_LENGTH <? len then Ret (early C0, false)
  else
    levels ← level_count 32 (len - 1) 0;
    if Z.of_nat MAX_QUAD_LEVEL_COUNT <? levels then Ret (early C0, false)
    else
      let C1 := mkConfig len (levels - 1) (vertNodesActiveDistance C0) (quadNodesCullRadius C0) (vertNodesLevelOffset C0) in
      s ← foldM (size_level levels) (seqZ 0 levels) (mkSizes 1 2 0 0 0 C1);
      let C := s_config s in
      let P := pools m in
      let P := mkPools (resize (vertNodePoolSize s) vert0 (vertNodePool P)) (resize (quadNodePoolSize s) node0 (quadNodePool P))
                 (resize (quadLeafPoolSize s) leaf0 (quadLeafPool P)) (quadNodePoolAllocated P) (quadLeafPoolAllocated P) in
      '(P, roots) ← buildVertNodes C vs P;
      '(P, root) ← recursiveBuildQuadNodes 32 C 0 0 0 (len - 1) P;
      Ret (mkQuadCollapseMesh (lod m) idx lodIdx vs (activeVertices m) C P (Some root) roots
             (updateFrame m) n (Some []) (Some ib), true).

(** ** The selection of a frame *)

(** The ancestors of a boundary quad become active. *)
Fixpoint mark_active (n : nat) (F : Z) (p : option qptr) (P : Pools) : outcome Pools :=
  match p with
  | None => Ret P
  | Some q =>
      h ← qhead P q;
      if (q_activeFrame h =? F) && bool_decide (q_state h = NS_ACTIVE) then Ret P
      else match n with
           | O => Exn OutOfFuel
           | S n => mark_active n F (q_parent h) (upd_qhead q (set_q_mark F NS_ACTIVE) P)
           end
  end.

(** Quads are at most 13 levels deep. *)
Definition depth : nat := S MAX_QUAD_LEVEL_COUNT.

Definition quadNodeSetBoundary (F : Z) (q : qptr) (P : Pools) : outcome Pools :=
  h ← qhead P q;
  if (q_activeFrame h =? F) && bool_decide (q_state h = NS_ACTIVE) then Ret P
  else
    let P := upd_qhead q (set_q_mark F NS_BOUNDARY) P in
    mark_active depth F (q_parent h) P.

Definition set_boundaries (F : Z) (n : VertNode) (P : Pools) : outcome Pools :=
  foldM (fun p P => q ← deref p; quadNodeSetBoundary F q P) (take (Z.to_nat (adjcentQuadsCount n)) (adjcentQuads n)) P.

(** Distances are taken from the constant point [glm::vec3(1)]. *)
Definition eye : vec3 := splat3 F32.one.

Definition interpolate (C : Config) (dist : f32) (p c : Vertex) (level : Z) : outcome Vertex :=
  let o_minus_c := Vertex.sub junk c p in
  let l := normalize3 (sub3 eye (pos c)) in
  let l_dot := dot3 l (pos o_minus_c) in
  r ← at_Z (vertNodesActiveDistance C) (level - 1);
  let sqrLength := dot3 (pos o_minus_c) (pos o_minus_c) in
  let temp := F32.add (F32.sub (F32.mul l_dot l_dot) sqrLength) (F32.mul r r) in
  let d := F32.add (F32.opp l_dot) (F32.sqrt temp) in
  here ← at_Z (vertNodesActiveDistance C) level;
  let t := F32.div (F32.sub d dist) (F32.sub d here) in
  Ret (Vertex.add junk p (Vertex.mul junk (Vertex.sub junk c p) t)).

Fixpoint siblings_loop (rec : vptr -> Pools -> outcome Pools) (n : nat) (child : option vptr) (P : Pools) : outcome Pools :=
  match child with
  | None => Ret P
  | Some c =>
      match n with
      | O => Exn OutOfFuel
      | S n => P ← rec c P; x ← vnode P c; siblings_loop rec n (nextSibling x) P
      end
  end.

Fixpoint recursiveUpdateVertNode (n : nat) (C : Config) (F : Z) (v : vptr) (P : Pools) : outcome Pools :=
  match n with
  | O => Exn OutOfFuel
  | S n =>
      x ← vnode P v;
      if v_activeFrame x =? F then Ret P
      else
        let P := upd_vnode v (set_v_mark F NS_BOUNDARY) P in
        let dist := length3 (sub3 eye (pos (originalVertex x))) in
        near ← at_Z (vertNodesActiveDistance C) (v_level x);
        if F32.ltb dist near then
          match firstChild x with
          | Some c =>
              let P := upd_vnode v (set_v_state NS_ACTIVE) P in
              siblings_loop (recursiveUpdateVertNode n C F) (length (vertNodePool P)) (Some c) P
          | None => set_boundaries F x (upd_vnode v (set_interpolated (originalVertex x)) P)
          end
        else
          match v_parent x with
          | Some p =>
              pn ← vnode P p;
              i ← interpolate C dist (originalVertex pn) (originalVertex x) (v_level x);
              set_boundaries F x (upd_vnode v (set_interpolated i) P)
          | None => set_boundaries F x (upd_vnode v (set_interpolated (originalVertex x)) P)
          end
  end.

(** The nearest ancestor that is active in this frame. *)
Fixpoint active_ancestor (n : nat) (F : Z) (P : Pools) (p : option vptr) : outcome (list Vertex) :=
  match p with
  | None => Ret []
  | Some v =>
      x ← vnode P v;
      if v_activeFrame x =? F then Ret [interpolatedVertex x]
      else match n with O => Exn OutOfFuel | S n => active_ancestor n F P (v_parent x) end
  end.

(** The vertices [addActiveVertNode] appends: one, or none. *)
Definition addActiveVertNode (F : Z) (P : Pools) (v : vptr) : outcome (list Vertex) :=
  x ← vnode P v;
  if v_activeFrame x =? F then Ret [interpolatedVertex x] else active_ancestor depth F P (v_parent x).

Definition emit_quad (F : Z) (P : Pools) (h : QuadHead) (acc : list Vertex) : outcome (list Vertex) :=
  let order := match triangulationMode h with
               | TM_SW_NE => [0; 1; 2; 0; 2; 3]%nat
               | TM_NW_SE => [0; 1; 3; 1; 2; 3]%nat
               end in
  foldM (fun i acc => v ← get4 (cornerVertNodes h) i; l ← addActiveVertNode F P v; Ret (acc ++ l)) order acc.

Fixpoint recursiveSetActiveMesh (n : nat) (F : Z) (P : Pools) (q : option qptr) (acc : list Vertex) : outcome (list Vertex) :=
  match q with
  | None => Ret acc
  | Some q =>
      match n with
      | O => Exn OutOfFuel
      | S n =>
          h ← qhead P q;
          if (q_activeFrame h =? F) && bool_decide (q_state h = NS_ACTIVE) then
            foldM (fun i acc => c ← (match q with QN j => x ← vec_at (quadNodePool P) j; vec_at (children x) i
                                     | QL _ => Exn OutOfBounds end);
                                recursiveSetActiveMesh n F P c acc) [0; 1; 2; 3]%nat acc
          else emit_quad F P h acc
      end
  end.

Definition update_root (C : Config) (F : Z) (r : option vptr) (P : Pools) : outcome Pools :=
  v ← deref r; x ← vnode P v;
  recursiveUpdateVertNode depth C F v (upd_vnode v (set_interpolated (originalVertex x)) P).

Definition bytes_vb (b : list Vertex) : Z := sizeof_Vertex * Z.of_nat (length b).
Definition bytes_ib (b : list Z) : Z := 4 * Z.of_nat (length b).

Definition update (m : QuadCollapseMesh) : outcome QuadCollapseMesh :=
  let F := u32 (updateFrame m + 1) in
  let with_ (act : list Vertex) P sz vb ib :=
    mkQuadCollapseMesh (lod m) (indices m) (lodIndices m) (vertices m) act (config m) P
      (rootQuadNode m) (rootVertNodes m) F sz vb ib in
  if lod m then
    P ← foldM (update_root (config m) F) (rootVertNodes m) (pools m);
    act ← recursiveSetActiveMesh depth F P (rootQuadNode m) [];
    if bool_decide (act = []) then Ret (with_ act P (m_size m) (vertexBuffer m) (indexBuffer m))
    else
      _ ← deref (vertexBuffer m); ib ← deref (indexBuffer m);
      let ib' := if bytes_ib (ib_data ib) =? bytes_ib (lodIndices m) then ib else ib_setData (lodIndices m) ib in
      Ret (with_ act P (Z.of_nat (length act)) (Some act) (Some ib'))
  else
    vb ← deref (vertexBuffer m);
    if bytes_vb (vertices m) =? bytes_vb vb then
      Ret (with_ (activeVertices m) (pools m) (m_size m) (vertexBuffer m) (indexBuffer m))
    else
      ib ← deref (indexBuffer m);
      let ib' := if bytes_ib (ib_data ib) =? bytes_ib (indices m) then ib else ib_setData (indices m) ib in
      Ret (with_ (activeVertices m) (pools m) (Z.of_nat (length (indices m))) (Some (vertices m)) (Some ib')).
End Mesh.
End Terrain.
