(* ===== verification/TerrainGrid.v ===== *)
(** * TerrainGrid: coordinates of the quad-collapse mesh

    The reference geometry the terrain proofs use: vertex nodes and quads of a
    height field of 2^k + 1 points per edge are addressed by level, column and
    row; a numbering that mirrors the pool layout; the subtree of a quad in
    construction order; and the forest of vertex nodes as a property of links. *)

From S2P Require Import Prelude.
From stdpp Require Import base decidable list sets.
From Stdlib Require Import ZArith Lia.
Local Open Scope Z_scope.

Module Grid.

(** A vertex node or a quad: level, column, row. *)
Abbreviation coord := (Z * Z * Z)%type.

Definition level (c : coord) : Z := c.1.1.
Definition col (c : coord) : Z := c.1.2.
Definition row (c : coord) : Z := c.2.

(** The number of vertex nodes on the levels below [n]. *)
Fixpoint offset_nat (n : nat) : Z :=
  match n with O => 0 | S n => offset_nat n + (2 ^ Z.of_nat n + 1) * (2 ^ Z.of_nat n + 1) end.
Definition offset (l : Z) : Z := offset_nat (Z.to_nat l).

Definition vid (c : coord) : nat := Z.to_nat (offset (level c) + row c * (2 ^ level c + 1) + col c).

Definition corners (p : coord) : list coord :=
  let '(l, x, y) := p in [(l, x, y); (l, x + 1, y); (l, x + 1, y + 1); (l, x, y + 1)].

(** The nine nodes of the level below that touch a quad. *)
Definition nine (p : coord) : list coord :=
  let '(l, x, y) := p in let m := l + 1 in
  [(m, 2 * x, 2 * y); (m, 2 * x + 1 + 1, 2 * y); (m, 2 * x + 1 + 1, 2 * y + 1 + 1); (m, 2 * x, 2 * y + 1 + 1);
   (m, 2 * x + 1, 2 * y); (m, 2 * x + 1 + 1, 2 * y + 1); (m, 2 * x + 1, 2 * y + 1 + 1); (m, 2 * x, 2 * y + 1);
   (m, 2 * x + 1, 2 * y + 1)].

(** Membership of a coordinate in one of these lists. *)
Ltac in_list := cbn [corners nine]; rewrite ?elem_of_cons; tauto.

(** The four quads below a quad, in the order of [children]. *)
Definition kids (p : coord) : list coord :=
  let '(l, x, y) := p in
  [(l + 1, 2 * x, 2 * y); (l + 1, 2 * x + 1, 2 * y); (l + 1, 2 * x + 1, 2 * y + 1); (l + 1, 2 * x, 2 * y + 1)].

(** The inner quads and the leaves below a quad [d] levels above the leaves, in construction order. *)
Fixpoint inner (d : nat) (p : coord) : list coord :=
  match d with O => [] | S d => p :: (kids p ≫= inner d) end.
Fixpoint leaves (d : nat) (p : coord) : list coord :=
  match d with O => [p] | S d => kids p ≫= leaves d end.

(** [q] lies in the quad [p]. *)
Definition under (p q : coord) : Prop :=
  level p <= level q /\ col q / 2 ^ (level q - level p) = col p /\ row q / 2 ^ (level q - level p) = row p.

(** A vertex node [c] and a node [d] of the level above at one of its corners. *)
Definition near (c d : coord) : Prop :=
  level c = level d + 1 /\ -1 <= col c - 2 * col d <= 1 /\ -1 <= row c - 2 * row d <= 1.

Lemma pow2_pos l : 0 <= l -> 0 < 2 ^ l.
Proof. intros. apply Z.pow_pos_nonneg; lia. Qed.

Lemma pow2_S l : 0 <= l -> 2 ^ (l + 1) = 2 * 2 ^ l.
Proof. intros. by rewrite Z.add_1_r, Z.pow_succ_r. Qed.

Lemma offset_S l : 0 <= l -> offset (l + 1) = offset l + (2 ^ l + 1) * (2 ^ l + 1).
Proof.
  intros Hl. unfold offset. rewrite Z.add_1_r, Z2Nat.inj_succ by done. cbn [offset_nat].
  by rewrite Z2Nat.id by done.
Qed.

Lemma offset_nonneg l : 0 <= offset l.
Proof. unfold offset. induction (Z.to_nat l) as [|n IH]; cbn [offset_nat]; nia. Qed.

Lemma offset_mono l l' : 0 <= l <= l' -> offset l <= offset l'.
Proof.
  intros Hl. replace l' with (l + Z.of_nat (Z.to_nat (l' - l))) by lia.
  induction (Z.to_nat (l' - l)) as [|n IH]; [by rewrite Z.add_0_r|].
  rewrite Nat2Z.inj_succ, <- Z.add_1_r, Z.add_assoc, offset_S by lia.
  pose proof (pow2_pos (l + Z.of_nat n)). nia.
Qed.

Section Grid.
Context (k : Z).

Definition total : nat := Z.to_nat (offset (k + 1)).

Definition valid (c : coord) : Prop :=
  0 <= level c <= k /\ 0 <= col c <= 2 ^ level c /\ 0 <= row c <= 2 ^ level c.
Definition valid_quad (p : coord) : Prop :=
  0 <= level p <= k /\ 0 <= col p < 2 ^ level p /\ 0 <= row p < 2 ^ level p.

Lemma vid_range c : valid c ->
  offset (level c) <= Z.of_nat (vid c) < offset (level c + 1).
Proof.
  intros (Hl & Hx & Hy). pose proof (offset_nonneg (level c)). rewrite offset_S by lia.
  unfold vid. rewrite Z2Nat.id by nia. nia.
Qed.

Lemma vid_lt c : valid c -> (vid c < total)%nat.
Proof.
  intros Hc. pose proof (vid_range c Hc). destruct Hc as (Hl & _).
  pose proof (offset_mono (level c + 1) (k + 1) ltac:(lia)). unfold total. lia.
Qed.

Lemma total_small : k <= 12 -> Z.of_nat total < 2 ^ 32.
Proof.
  intros Hk.   unfold total. rewrite Z2Nat.id by apply offset_nonneg.
  apply Z.le_lt_trans with (offset 13); [|vm_compute; done].
  destruct (Z.le_gt_cases 0 (k + 1)); [apply offset_mono; lia|]. unfold offset. by replace (Z.to_nat (k + 1)) with O by lia.
Qed.

Lemma vid_inj c d : valid c -> valid d -> vid c = vid d -> c = d.
Proof.
  intros Hc Hd E. pose proof (vid_range c Hc) as Rc. pose proof (vid_range d Hd) as Rd. rewrite E in Rc.
  assert (level c = level d) as El.
  { destruct (Z.lt_trichotomy (level c) (level d)) as [H|[H|H]]; [|done|].
    - destruct Hc as (Hl & _). pose proof (offset_mono (level c + 1) (level d) ltac:(lia)). lia.
    - destruct Hd as (Hl & _). pose proof (offset_mono (level d + 1) (level c) ltac:(lia)). lia. }
  destruct c as [[l x] y], d as [[l' x'] y']. unfold vid, level, col, row in *. cbn in *. subst l'.
  destruct Hc as (Hl & Hx & Hy), Hd as (_ & Hx' & Hy'). cbn in *.
  pose proof (offset_nonneg l). pose proof (pow2_pos l ltac:(lia)).
  apply Z2Nat.inj in E; [|nia..].
  assert (y = y') by nia. subst y'. assert (x = x') by lia. by subst x'.
Qed.

Lemma corners_valid p c : valid_quad p -> c ∈ corners p -> valid c /\ level c = level p.
Proof.
  destruct p as [[l x] y]. unfold valid_quad, valid, level, col, row. cbn. intros (Hl & Hx & Hy) Hc.
  rewrite !elem_of_cons, elem_of_nil in Hc. naive_solver lia.
Qed.

Lemma kids_valid p q : valid_quad p -> level p < k -> q ∈ kids p -> valid_quad q /\ level q = level p + 1.
Proof.
  destruct p as [[l x] y]. unfold valid_quad, level, col, row. cbn. intros (Hl & Hx & Hy) Hlt Hq.
  rewrite !elem_of_cons, elem_of_nil in Hq. pose proof (pow2_S l ltac:(lia)). naive_solver lia.
Qed.

End Grid.

Lemma kids_under p q : level p <> level q -> q ∈ kids p -> under p q.
Proof.
  destruct p as [[l x] y]. unfold under, level, col, row. cbn. intros _ Hq.
  rewrite !elem_of_cons, elem_of_nil in Hq.
  destruct Hq as [->|[->|[->|[->|[]]]]]; cbn; replace (l + 1 - l) with 1 by lia; change (2 ^ 1) with 2;
    (split; [lia|]); split; (symmetry; eapply Z.div_unique; [left|]; [|reflexivity || (by rewrite Z.add_0_r)]; lia).
Qed.

Lemma under_refl p : under p p.
Proof. unfold under. rewrite Z.sub_diag. cbn. rewrite !Z.div_1_r. lia. Qed.

Lemma under_trans p q r : under p q -> under q r -> under p r.
Proof.
  intros (L1 & C1 & R1) (L2 & C2 & R2). unfold under. split; [lia|].
  replace (level r - level p) with ((level r - level q) + (level q - level p)) by lia.
  rewrite Z.pow_add_r by lia. pose proof (pow2_pos (level r - level q) ltac:(lia)).
  pose proof (pow2_pos (level q - level p) ltac:(lia)).
  rewrite <- !Z.div_div by lia. rewrite C2, R2. done.
Qed.

(** Two quads of one level that share something below them are equal. *)
Lemma under_same p p' q : level p = level p' -> under p q -> under p' q -> p = p'.
Proof.
  destruct p as [[l x] y], p' as [[l' x'] y']. unfold under, level, col, row. cbn. intros -> (? & ? & ?) (? & ? & ?).
  congruence.
Qed.

Lemma inner_under d p q : q ∈ inner d p -> under p q /\ level p <= level q < level p + Z.of_nat d.
Proof.
  revert p. induction d as [|d IH]; intros p; cbn [inner]; [by intros ?%elem_of_nil|].
  intros [->|(r & Hq & Hr)%list_elem_of_bind]%elem_of_cons; [split; [apply under_refl|lia]|].
  destruct (IH r Hq) as [Hu Hl].
  assert (level r = level p + 1) as El.
  { destruct p as [[l x] y]. cbn in Hr. rewrite !elem_of_cons, elem_of_nil in Hr. naive_solver. }
  split; [|lia]. apply (under_trans _ r); [|done]. apply kids_under; [lia|done].
Qed.

Lemma leaves_under d p q : q ∈ leaves d p -> under p q /\ level q = level p + Z.of_nat d.
Proof.
  revert p. induction d as [|d IH]; intros p; cbn [leaves].
  - intros ->%list_elem_of_singleton. split; [apply under_refl|lia].
  - intros (r & Hq & Hr)%list_elem_of_bind. destruct (IH r Hq) as [Hu Hl].
    assert (level r = level p + 1) as El.
    { destruct p as [[l x] y]. cbn in Hr. rewrite !elem_of_cons, elem_of_nil in Hr. naive_solver. }
    split; [|lia]. apply (under_trans _ r); [|done]. apply kids_under; [lia|done].
Qed.
(** ** Subtrees *)

Lemma bind_NoDup {A B} (f : A -> list B) (l : list A) :
  NoDup l -> (forall a, a ∈ l -> NoDup (f a)) ->
  (forall a a' b, a ∈ l -> a' ∈ l -> b ∈ f a -> b ∈ f a' -> a = a') -> NoDup (l ≫= f).
Proof.
  induction 1 as [|a l Ha Hl IH]; intros Hf Hd; cbn; [constructor|]. apply NoDup_app. split_and!.
  - apply Hf. set_solver.
  - intros b Hb (a' & Hb' & Ha')%list_elem_of_bind. apply Ha.
    rewrite (Hd a a' b); [done|set_solver..].
  - apply IH; [set_solver|]. intros. eapply Hd; set_solver.
Qed.

Lemma kids_NoDup p : NoDup (kids p).
Proof. destruct p as [[l x] y]. cbn. repeat constructor; rewrite ?elem_of_cons, ?elem_of_nil; naive_solver lia. Qed.

Lemma kids_level p q : q ∈ kids p -> level q = level p + 1.
Proof. destruct p as [[l x] y]. cbn. rewrite !elem_of_cons, elem_of_nil. naive_solver. Qed.

Lemma kids_unique p p' r : r ∈ kids p -> r ∈ kids p' -> p = p'.
Proof.
  intros Hr Hr'. pose proof (kids_level _ _ Hr). pose proof (kids_level _ _ Hr').
  apply (under_same p p' r); [lia|apply kids_under; [lia|done]..].
Qed.

Lemma kid_under p q : q ∈ kids p -> under p q.
Proof. intros Hq. pose proof (kids_level p q Hq). apply kids_under; [lia|done]. Qed.

Lemma inner_NoDup d p : NoDup (inner d p).
Proof.
  revert p. induction d as [|d IH]; intros p; cbn [inner]; [constructor|]. constructor.
  - intros (r & Hp & Hr)%list_elem_of_bind. apply inner_under in Hp as [_ Hl]. apply kids_level in Hr. lia.
  - apply bind_NoDup; [apply kids_NoDup|auto|]. intros a a' b Ha Ha' Hb Hb'.
    apply inner_under in Hb as [Hb _], Hb' as [Hb' _]. apply (under_same a a' b); [|done..].
    by rewrite (kids_level p a Ha), (kids_level p a' Ha').
Qed.

Lemma leaves_NoDup d p : NoDup (leaves d p).
Proof.
  revert p. induction d as [|d IH]; intros p; cbn [leaves]; [repeat constructor; set_solver|].
  apply bind_NoDup; [apply kids_NoDup|auto|]. intros a a' b Ha Ha' Hb Hb'.
  apply leaves_under in Hb as [Hb _], Hb' as [Hb' _]. apply (under_same a a' b); [|done..].
  by rewrite (kids_level p a Ha), (kids_level p a' Ha').
Qed.

(** The quad below [p] on the way to [q]. *)
Lemma kid_above p q : under p q -> level p < level q -> exists r, r ∈ kids p /\ under r q.
Proof.
  intros (Hl & Hc & Hr) Hlt. set (s := 2 ^ (level q - level p - 1)).
  assert (2 ^ (level q - level p) = s * 2) as Es.
  { unfold s. rewrite (Z.mul_comm _ 2), <- Z.pow_succ_r by lia. f_equal. lia. }
  assert (0 < s) as Hs by (apply pow2_pos; lia). rewrite Es, <- Z.div_div in Hc, Hr by lia.
  assert (exists i j, (0 <= i <= 1) /\ (0 <= j <= 1) /\ col q / s = 2 * col p + i /\ row q / s = 2 * row p + j)
    as (i & j & Hi & Hj & Ei & Ej).
  { exists (col q / s - 2 * col p), (row q / s - 2 * row p).
    pose proof (Z.div_mod (col q / s) 2). pose proof (Z.mod_pos_bound (col q / s) 2).
    pose proof (Z.div_mod (row q / s) 2). pose proof (Z.mod_pos_bound (row q / s) 2). lia. }
  exists (level p + 1, 2 * col p + i, 2 * row p + j). split.
  - destruct p as [[l x] y]. unfold level, col, row. cbn. rewrite !elem_of_cons, elem_of_nil.
    assert (i = 0 \/ i = 1) as [-> | ->] by lia; assert (j = 0 \/ j = 1) as [-> | ->] by lia; rewrite ?Z.add_0_r; tauto.
  - unfold under. change (level (level p + 1, _, _)) with (level p + 1).
    change (col (_, 2 * col p + i, _)) with (2 * col p + i). change (row (_, _, 2 * row p + j)) with (2 * row p + j).
    replace (level q - (level p + 1)) with (level q - level p - 1) by lia. fold s. lia.
Qed.

Lemma inner_complete d p q : under p q -> level q < level p + Z.of_nat d -> q ∈ inner d p.
Proof.
  revert p. induction d as [|d IH]; intros p Hu Hl; [destruct Hu; lia|]. cbn [inner]. apply elem_of_cons.
  destruct (Z.eq_dec (level p) (level q)) as [E|E].
  - left. apply (under_same q p q); [lia|apply under_refl|done].
  - right. destruct (kid_above p q Hu) as (r & Hr & Hur); [destruct Hu; lia|].
    apply list_elem_of_bind. exists r. split; [|done]. apply IH; [done|]. apply kids_level in Hr. lia.
Qed.

Fixpoint geometric (d : nat) : nat := match d with O => 0 | S d => 1 + 4 * geometric d end.

Lemma inner_length d p : length (inner d p) = geometric d.
Proof.
  revert p. induction d as [|d IH]; intros [[l x] y]; [done|]. cbn [inner geometric kids mbind list_bind length].
  rewrite !length_app, !IH. cbn. lia.
Qed.

Lemma leaves_length d p : length (leaves d p) = (4 ^ d)%nat.
Proof.
  revert p. induction d as [|d IH]; intros [[l x] y]; [done|]. cbn [leaves kids mbind list_bind].
  rewrite !length_app, !IH. cbn [length Nat.pow]. lia.
Qed.
End Grid.

(** ** The forest of vertex nodes

    Nodes carry a level, a parent, a first child and a next sibling.  The links
    form a forest when every child list runs through exactly the nodes that name
    the owner as parent, each parent is a node of the level above at a corner,
    and nodes without a parent have no sibling. *)
Module VertForest.
Import Grid.

Record link := mkLink { lv : Z; par : option nat; fc : option nat; ns : option nat }.

Inductive chain (V : nat -> option link) : option nat -> list nat -> Prop :=
  | chain_nil : chain V None []
  | chain_cons c x cs : V c = Some x -> chain V (ns x) cs -> chain V (Some c) (c :: cs).

Lemma chain_ext V V' h cs :
  chain V h cs -> (forall v x, v ∈ cs -> V v = Some x -> exists x', V' v = Some x' /\ ns x' = ns x) -> chain V' h cs.
Proof.
  induction 1 as [|c x cs Hc _ IH]; intros Hext; [constructor|].
  destruct (Hext c x ltac:(set_solver) Hc) as (x' & Hx' & E). apply (chain_cons _ _ x'); [done|].
  rewrite E. apply IH. set_solver.
Qed.

Section Forest.
Context (k : Z).

Record Forest (V : nat -> option link) : Prop := mkForest {
  fo_level : forall c, valid k c -> exists x, V (vid c) = Some x /\ lv x = level c;
  fo_par : forall c x p, valid k c -> V (vid c) = Some x -> par x = Some p ->
             exists d, valid k d /\ near c d /\ p = vid d;
  fo_kids : forall d x, valid k d -> V (vid d) = Some x ->
              exists cs, chain V (fc x) cs /\ NoDup cs /\
                forall v, v ∈ cs <-> exists c y, valid k c /\ v = vid c /\ V v = Some y /\ par y = Some (vid d);
  fo_orphan : forall c x, valid k c -> V (vid c) = Some x -> par x = None -> ns x = None
}.

(** A node has a parent. *)
Definition parented (V : nat -> option link) (c : coord) : Prop := exists x, V (vid c) = Some x /\ is_Some (par x).

(** The middle node of a quad is attached only once the quad is in the list. *)
Definition Centers (V : nat -> option link) (done : list coord) : Prop :=
  forall l a b, valid k (l + 1, 2 * a + 1, 2 * b + 1) -> parented V (l + 1, 2 * a + 1, 2 * b + 1) -> (l, a, b) ∈ done.

Definition odd_center (c : coord) (p : coord) : Prop :=
  level c = level p + 1 /\ col c = 2 * col p + 1 /\ row c = 2 * row p + 1.

(** Parents are never taken away. *)
Definition grows (V V' : nat -> option link) : Prop := forall c, valid k c -> parented V c -> parented V' c.

(** The links after [d] takes the parentless [c] as its first child. *)
Definition attached (V V' : nat -> option link) (d c : nat) : Prop :=
  exists x t, V c = Some x /\ V d = Some t /\ c <> d /\
    V' c = Some (mkLink (lv x) (Some d) (fc x) (fc t)) /\
    V' d = Some (mkLink (lv t) (par t) (Some c) (ns t)) /\
    forall v, v <> c -> v <> d -> V' v = V v.

(** The level and the parent of every other node are as before. *)
Lemma attached_other V V' d c v : attached V V' d c -> v <> c ->
  lv <$> V' v = lv <$> V v /\ par <$> V' v = par <$> V v /\ ns <$> V' v = ns <$> V v.
Proof.
  intros (x & t & Hc & Hd & Hne & Hc' & Hd' & Ho) Hv. destruct (decide (v = d)) as [->|Hvd].
  - by rewrite Hd', Hd.
  - by rewrite Ho.
Qed.

Lemma attached_level V V' d c v : attached V V' d c -> lv <$> V' v = lv <$> V v.
Proof.
  intros Ha. destruct (decide (v = c)) as [->|Hv]; [|by apply (attached_other V V' d c)].
  destruct Ha as (x & t & Hc & Hd & Hne & Hc' & Hd' & Ho). by rewrite Hc', Hc.
Qed.

Lemma attached_grows V V' d c : attached V V' d c -> forall e, parented V e -> parented V' e.
Proof.
  intros Ha e (x & Hx & Hp). destruct (decide (vid e = c)) as [E|E].
  - destruct Ha as (xc & t & Hc & Hd & Hne & Hc' & Hd' & Ho). unfold parented. rewrite E. eexists. split; [exact Hc'|]. cbn. eauto.
  - destruct (attached_other V V' d c (vid e) Ha E) as (_ & Hpar & _). rewrite Hx in Hpar.
    destruct (V' (vid e)) as [x'|] eqn:E'; [|done]. cbn in Hpar. simplify_eq. exists x'. split; [done|]. congruence.
Qed.

Lemma attached_parented V V' d c : attached V V' d (vid c) -> parented V' c.
Proof. intros (x & t & Hc & Hd & Hne & Hc' & Hd' & Ho). eexists. split; [exact Hc'|]. cbn. eauto. Qed.

(** Looking up a node of the new forest in the old one. *)
Lemma attached_back V V' d c v x' : attached V V' d c -> v <> c -> V' v = Some x' ->
  exists x, V v = Some x /\ par x' = par x /\ ns x' = ns x /\ (v <> d -> fc x' = fc x).
Proof.
  intros (x & t & Hc & Hd & Hne & Hc' & Hd' & Ho) Hv HV. destruct (decide (v = d)) as [->|Hvd].
  - exists t. rewrite Hd' in HV. by simplify_eq.
  - rewrite Ho in HV by done. eauto.
Qed.

Lemma fmap_Some_eq {A B} (f : A -> B) (o o' : option A) x : f <$> o' = f <$> o -> o = Some x -> exists x', o' = Some x' /\ f x' = f x.
Proof. intros E ->. destruct o' as [x'|]; cbn in E; simplify_eq. eauto. Qed.

(** The forest depends on the links of the nodes only. *)
Lemma Forest_ext V V' : (forall v, V' v = V v) -> Forest V -> Forest V'.
Proof.
  intros E [H1 H2 H3 H4]. constructor.
  - intros c Hc. rewrite E. auto.
  - intros c x p Hc. rewrite E. eauto.
  - intros d x Hd Hx. rewrite E in Hx. destruct (H3 d x Hd Hx) as (cs & Hch & Hnd & Hcs). exists cs. split_and!; [|done|].
    + apply (chain_ext V); [done|]. intros v y _ Hy. exists y. by rewrite E.
    + intros v. rewrite Hcs, E. done.
  - intros c x Hc. rewrite E. eauto.
Qed.

Lemma Centers_ext V V' done_ : (forall v, V' v = V v) -> Centers V done_ -> Centers V' done_.
Proof. intros E H l a b Hv (x & Hx & Hp). apply H; [done|]. exists x. by rewrite <- E. Qed.

(** The child lists after attaching. *)
Lemma forest_attach_kids V V' c d : Forest V -> valid k c -> valid k d ->
  (forall x, V (vid c) = Some x -> par x = None) -> attached V V' (vid d) (vid c) ->
  forall e x', valid k e -> V' (vid e) = Some x' ->
    exists cs, chain V' (fc x') cs /\ NoDup cs /\
      forall v, v ∈ cs <-> exists g y, valid k g /\ v = vid g /\ V' v = Some y /\ par y = Some (vid e).
Proof.
  intros HF Hc Hd Hno Ha e x' He HV'.
  assert (exists x, V (vid e) = Some x /\ (e <> d -> fc x' = fc x) /\ (e = d -> fc x' = Some (vid c))) as (x & Hx & Hfc & Hfd).
  { destruct (decide (vid e = vid c)) as [E|E].
    - apply (vid_inj k) in E as ->; [|done..].
      destruct Ha as (xc & t & Hcx & Hdt & Hne & Hc' & Hd' & Ho). exists xc. rewrite Hc' in HV'. simplify_eq. split; [done|].
      split; [done|]. intros ->. done.
    - destruct (attached_back V V' _ _ _ x' Ha E HV') as (x & Hx & _ & _ & Hf). exists x. split; [done|]. split.
      + intros Hed. apply Hf. intros Heq. by apply (vid_inj k) in Heq.
      + intros ->. destruct Ha as (xc & t & Hcx & Hdt & Hne & Hc' & Hd' & Ho). rewrite Hd' in HV'. by simplify_eq. }
  destruct (fo_kids V HF e x He Hx) as (cs & Hch & Hnd & Hcs).
  assert (vid c ∉ cs) as Hcn.
  { intros (g & y & _ & _ & Hy & Hp)%Hcs. rewrite (Hno y Hy) in Hp. done. }
  assert (chain V' (fc x) cs) as Hch'.
  { apply (chain_ext V); [done|]. intros v y Hv Hy. destruct (attached_other V V' _ _ v Ha) as (_ & _ & Hns); [set_solver|].
    by apply (fmap_Some_eq ns _ _ _ Hns). }
  assert (forall v, v <> vid c -> (exists g y, valid k g /\ v = vid g /\ V' v = Some y /\ par y = Some (vid e)) <-> v ∈ cs) as Hiff.
  { intros v Hv. rewrite Hcs. destruct (attached_other V V' _ _ v Ha Hv) as (_ & Hp & _). split.
    - intros (g & y & Hg & Eg & Hy & Hpy). symmetry in Hp. destruct (fmap_Some_eq par _ _ _ Hp Hy) as (y' & Hy' & E'). exists g, y'. by rewrite E'.
    - intros (g & y & Hg & Eg & Hy & Hpy). destruct (fmap_Some_eq par _ _ _ Hp Hy) as (y' & Hy' & E'). exists g, y'. by rewrite E'. }
  destruct Ha as (xc & t & Hcx & Hdt & Hne & Hc' & Hd' & Ho).
  destruct (decide (e = d)) as [->|Hed].
  - exists (vid c :: cs). rewrite Hfd by done. rewrite Hdt in Hx. simplify_eq. split_and!.
    + econstructor; [exact Hc'|done].
    + by constructor.
    + intros v. rewrite elem_of_cons. destruct (decide (v = vid c)) as [->|Hv]; [|rewrite Hiff by done; naive_solver].
      split; [intros _|by left]. exists c. eexists. split_and!; [done|done|exact Hc'|done].
  - exists cs. rewrite Hfc by done. split_and!; [done..|]. intros v.
    destruct (decide (v = vid c)) as [->|Hv]; [|by rewrite Hiff]. split; [done|].
    intros (g & y & _ & _ & Hy & Hp). rewrite Hc' in Hy. simplify_eq. cbn in Hp. simplify_eq.
    destruct Hed. symmetry. by apply (vid_inj k).
Qed.

Lemma forest_attach V V' c d : Forest V -> valid k c -> valid k d -> near c d ->
  (forall x, V (vid c) = Some x -> par x = None) -> attached V V' (vid d) (vid c) -> Forest V'.
Proof.
  intros HF Hc Hd Hnear Hno Ha. constructor; [| |exact (forest_attach_kids V V' c d HF Hc Hd Hno Ha)|].
  - intros e He. destruct (fo_level V HF e He) as (x & Hx & Hl).
    destruct (fmap_Some_eq lv _ _ _ (attached_level V V' _ _ (vid e) Ha) Hx) as (x' & Hx' & E). exists x'. by rewrite E.
  - intros e x' p He Hx' Hp. destruct (decide (vid e = vid c)) as [E|E].
    + apply (vid_inj k) in E as ->; [|done..]. destruct Ha as (xc & t & Hcx & Hdt & Hne & Hc' & Hd' & Ho).
      rewrite Hc' in Hx'. simplify_eq. cbn in Hp. simplify_eq. eauto.
    + destruct (attached_back V V' _ _ _ x' Ha E Hx') as (x & Hx & Epar & _). rewrite Epar in Hp. by eapply fo_par.
  - intros e x' He Hx' Hp. destruct (decide (vid e = vid c)) as [E|E].
    + apply (vid_inj k) in E as ->; [|done..]. destruct Ha as (xc & t & Hcx & Hdt & Hne & Hc' & Hd' & Ho).
      rewrite Hc' in Hx'. by simplify_eq.
    + destruct (attached_back V V' _ _ _ x' Ha E Hx') as (x & Hx & Epar & Ens & _). rewrite Epar in Hp. rewrite Ens.
      by eapply fo_orphan.
Qed.

Lemma centers_attach V V' c d done_ : Centers V done_ -> valid k c -> attached V V' d (vid c) ->
  (forall p, odd_center c p -> p ∈ done_) -> Centers V' done_.
Proof.
  intros HC Hc Ha Hodd l a b Hv (x' & Hx' & Hp). destruct (decide (vid (l + 1, 2 * a + 1, 2 * b + 1) = vid c)) as [E|E].
  - apply (vid_inj k) in E; [|done..]. subst c. apply Hodd. done.
  - apply HC; [done|]. destruct (attached_back V V' _ _ _ x' Ha E Hx') as (x & Hx & Epar & _). exists x. by rewrite <- Epar.
Qed.
End Forest.
End VertForest.
