(* ===== verification/TerrainCollapse.v ===== *)
(** * TerrainCollapse: the forest of vertex nodes during construction

    [addChild], [hasChild] and [collapseQuad] refine the forest of [TerrainGrid]:
    child lists stay exact, parents are corner nodes of the level above, and the
    collapse of a quad gives its nine nodes a parent. *)

From S2P Require Import Prelude Float32 Geometry Terrain TerrainGrid.
From stdpp Require Import base decidable list sets.
From Stdlib Require Import ZArith SpecFloat Lia.
Import Glm Vertex Terrain Grid VertForest.
Local Open Scope Z_scope.

(** ** Views of the vertex pool *)
Module Views.

(** The links of a node, and everything else it holds. *)
Definition lk (x : VertNode) : link := mkLink (v_level x) (v_parent x) (firstChild x) (nextSibling x).
Definition lkv (P : Pools) (v : vptr) : option link := lk <$> vertNodePool P !! v.
Definition rest (x : VertNode) :=
  (v_activeFrame x, v_state x, (adjcentQuadsCount x, adjcentQuads x), originalVertex x, interpolationFactor x, interpolatedVertex x).

(** Two states that differ in the links of vertex nodes only. *)
Record same_but_links (P P' : Pools) : Prop := mkSBL {
  sbl_nodes : quadNodePool P' = quadNodePool P;
  sbl_leaves : quadLeafPool P' = quadLeafPool P;
  sbl_nalloc : quadNodePoolAllocated P' = quadNodePoolAllocated P;
  sbl_lalloc : quadLeafPoolAllocated P' = quadLeafPoolAllocated P;
  sbl_length : length (vertNodePool P') = length (vertNodePool P);
  sbl_rest : forall v, rest <$> vertNodePool P' !! v = rest <$> vertNodePool P !! v
}.

#[export] Instance same_but_links_refl : Reflexive same_but_links.
Proof. intros P. by constructor. Qed.
#[export] Instance same_but_links_trans : Transitive same_but_links.
Proof. intros P Q R [] []. constructor; congruence. Qed.

Lemma lookup_upd_vnode v f P w :
  vertNodePool (upd_vnode v f P) !! w = if decide (v = w) then f <$> vertNodePool P !! v else vertNodePool P !! w.
Proof. apply list_lookup_alter. Qed.

Lemma vnode_lookup P v x : vertNodePool P !! v = Some x -> vnode P v = Ret x.
Proof. unfold vnode, vec_at. by intros ->. Qed.

Lemma lkv_Some P v l : lkv P v = Some l -> exists x, vertNodePool P !! v = Some x /\ vnode P v = Ret x /\ lk x = l.
Proof. unfold lkv. intros (x & Hx & ->)%fmap_Some. exists x. eauto using vnode_lookup. Qed.

Lemma upd_links P v f : (forall x, rest (f x) = rest x) -> same_but_links P (upd_vnode v f P).
Proof.
  intros Hf. constructor; try done; [apply length_alter|]. intros w. rewrite lookup_upd_vnode.
  case_decide; [subst|done]. destruct (vertNodePool P !! w); cbn; [by rewrite Hf|done].
Qed.

(** [addChild] of a node that already has this parent changes nothing. *)
Lemma addChild_same P d c x : lkv P c = Some x -> par x = Some d -> addChild d c P = Ret P.
Proof.
  intros (n & _ & Hn & <-)%lkv_Some Hp. unfold addChild, addChild_body. rewrite Hn, bind_Ret.
  cbn in Hp. by rewrite Hp, bool_decide_true.
Qed.

(** [addChild] of a parentless node of the level below attaches it; the second
    copy of the body then returns at once. *)
Lemma addChild_attaches P d c x t :
  lkv P c = Some x -> lkv P d = Some t -> par x = None -> ns x = None -> lv x = lv t + 1 ->
  exists P', addChild d c P = Ret P' /\ same_but_links P P' /\ attached (lkv P) (lkv P') d c.
Proof.
  intros Hx Ht Hp Hns Hlv. pose proof Hx as (nx & Lx & Vx & <-)%lkv_Some. pose proof Ht as (nt & Lt & Vt & <-)%lkv_Some.
  cbn in Hp, Hns, Hlv. assert (c <> d) as Hne by (intros ->; rewrite Lx in Lt; simplify_eq; lia).
  set (P1 := upd_vnode c (set_v_parent (Some d)) P).
  set (P2 := match firstChild nt with Some f => upd_vnode c (set_nextSibling (Some f)) P1 | None => P1 end).
  set (P3 := upd_vnode d (set_firstChild (Some c)) P2).
  assert (vertNodePool P1 !! c = Some (set_v_parent (Some d) nx)) as L1c by (unfold P1; rewrite lookup_upd_vnode, decide_True, Lx by done; done).
  assert (vertNodePool P1 !! d = Some nt) as L1d by (unfold P1; rewrite lookup_upd_vnode, decide_False by done; done).
  assert (addChild_body d c P = Ret (P3, false)) as E1.
  { unfold addChild_body. rewrite Vx, bind_Ret, Hp, bool_decide_false, Vt, bind_Ret by done.
    rewrite Hlv, Z.eqb_refl. cbn [negb]. fold P1. rewrite (vnode_lookup P1 c _ L1c), bind_Ret. cbn [nextSibling set_v_parent].
    rewrite Hns, bool_decide_false by (intros []; done). rewrite (vnode_lookup P1 d _ L1d), bind_Ret.
    unfold P3, P2. by destruct (firstChild nt). }
  set (x' := mkLink (v_level nx) (Some d) (firstChild nx) (firstChild nt)).
  assert (lkv P3 c = Some x') as L3c.
  { unfold lkv, P3, P2. rewrite lookup_upd_vnode, decide_False by done. destruct (firstChild nt) eqn:Ef.
    - rewrite lookup_upd_vnode, decide_True, L1c by done. done.
    - rewrite L1c. unfold x'. cbn. unfold lk. cbn. by rewrite Hns. }
  exists P3. split.
  { unfold addChild. rewrite E1, bind_Ret. pose proof L3c as (n3 & _ & V3 & Hn3)%lkv_Some.
    unfold addChild_body. rewrite V3, bind_Ret. replace (v_parent n3) with (par (lk n3)) by done.
    rewrite Hn3. cbn [par x']. by rewrite bool_decide_true. }
  split.
  { etrans; [exact (upd_links P c (set_v_parent (Some d)) (fun _ => eq_refl))|]. fold P1.
    etrans; [|exact (upd_links P2 d (set_firstChild (Some c)) (fun _ => eq_refl))].
    unfold P2. destruct (firstChild nt); [by apply upd_links|done]. }
  exists (lk nx), (lk nt). split_and!; [done|done|done|done| |].
  - unfold lkv, P3, P2. rewrite lookup_upd_vnode, decide_True by done.
    assert (vertNodePool P2 !! d = Some nt) as L2d by (unfold P2; destruct (firstChild nt); [rewrite lookup_upd_vnode, decide_False by done|]; done).
    fold P2. by rewrite L2d.
  - intros v Hvc Hvd. unfold lkv, P3. rewrite lookup_upd_vnode, decide_False by done. unfold P2, P1.
    destruct (firstChild nt); rewrite ?lookup_upd_vnode, ?decide_False by done; done.
Qed.
End Views.
Import Views.

(** ** The collapse of one quad *)
Module Collapse.
Section Collapse.
Context (junk : vec3) (k : Z).

Definition VOk (done_ : list coord) (P : Pools) : Prop := Forest k (lkv P) /\ Centers k (lkv P) done_.

Record step_ok (done_ : list coord) (P P' : Pools) : Prop := mkStepOk {
  so_frame : same_but_links P P';
  so_ok : VOk done_ P';
  so_grows : grows k (lkv P) (lkv P')
}.

Lemma step_refl done_ P : VOk done_ P -> step_ok done_ P P.
Proof. intros H. constructor; [done|done|intros c _; done]. Qed.

Lemma step_trans done_ P Q R : step_ok done_ P Q -> step_ok done_ Q R -> step_ok done_ P R.
Proof.
  intros [F1 _ G1] [F2 O2 G2]. constructor; [by etrans|done|]. intros c Hc Hp. by apply G2, G1.
Qed.

Lemma node_at done_ P c : VOk done_ P -> valid k c ->
  exists x, lkv P (vid c) = Some (lk x) /\ vnode P (vid c) = Ret x /\ v_level x = level c.
Proof.
  intros [HF _] Hc. destruct (fo_level k _ HF c Hc) as (l & Hl & Hlv). apply lkv_Some in Hl as (x & Lx & Vx & <-).
  exists x. split_and!; [unfold lkv; by rewrite Lx|done|done].
Qed.

(** A node that is the middle of a quad only if that quad is in the list. *)
Definition center_in (done_ : list coord) (c : coord) : Prop := forall p, odd_center c p -> p ∈ done_.

Lemma addChild_ok done_ P c d : VOk done_ P -> valid k c -> valid k d -> near c d -> center_in done_ c ->
  (forall x, lkv P (vid c) = Some x -> par x = None \/ par x = Some (vid d)) ->
  exists P', addChild (vid d) (vid c) P = Ret P' /\ step_ok done_ P P' /\ parented (lkv P') c.
Proof.
  intros HV Hc Hd Hnear Hcen Hpar. destruct (node_at _ _ c HV Hc) as (x & Lx & Vx & Hlx).
  destruct (node_at _ _ d HV Hd) as (t & Lt & Vt & Hlt). pose proof HV as [HF HC].
  destruct (Hpar _ Lx) as [Hp|Hp].
  - pose proof (fo_orphan k _ HF c _ Hc Lx Hp) as Hns.
    destruct (addChild_attaches P (vid d) (vid c) _ _ Lx Lt Hp Hns) as (P' & E & Hs & Ha).
    { cbn. destruct Hnear as [Hl _]. lia. }
    exists P'. split; [done|]. split; [|by apply (attached_parented (lkv P) (lkv P') (vid d))]. constructor; [done| |].
    + split.
      * apply (forest_attach k (lkv P) (lkv P') c d); try done. intros y Hy. rewrite Lx in Hy. by simplify_eq.
      * by apply (centers_attach k (lkv P) (lkv P') c (vid d)).
    + intros e _. by apply (attached_grows (lkv P) (lkv P') (vid d) (vid c)).
  - exists P. split; [by eapply addChild_same|]. split; [by apply step_refl|]. exists (lk x). split; [done|]. rewrite Hp. eauto.
Qed.

(** The node right above or below: its parent can only be the corner itself. *)
Lemma corner_parent done_ P c d x : VOk done_ P -> valid k c -> valid k d -> level c = level d + 1 ->
  col c = 2 * col d -> row c = 2 * row d -> lkv P (vid c) = Some x -> par x = None \/ par x = Some (vid d).
Proof.
  intros [HF _] Hc Hd Hl Hx Hy Lx. destruct (par x) as [p|] eqn:Hp; [right|by left].
  destruct (fo_par k _ HF c x p Hc Lx Hp) as (e & He & (Nl & Nc & Nr) & ->). do 2 f_equal.
  destruct d as [[ld xd] yd], e as [[le xe] ye]. unfold level, col, row in *. cbn in *.
  assert (ld = le) by lia. assert (xd = xe) by lia. assert (yd = ye) by lia. by subst.
Qed.

Lemma hasChild_loop_spec P h cs t n : chain (lkv P) h cs -> (length cs <= n)%nat ->
  hasChild_loop n P h t = Ret (bool_decide (t ∈ cs)).
Proof.
  intros Hch. revert n. induction Hch as [|c l cs Hc _ IH]; intros n Hn; cbn [hasChild_loop].
  - destruct n; cbn [hasChild_loop]; by rewrite bool_decide_false by apply not_elem_of_nil.
  - destruct n as [|n]; [cbn in Hn; lia|]. cbn [hasChild_loop]. destruct (decide (c = t)) as [->|Ec].
    + by rewrite !bool_decide_true by set_solver.
    + rewrite bool_decide_false by done. apply lkv_Some in Hc as (x & _ & -> & <-). rewrite bind_Ret. cbn in Hn. cbn [ns lk] in IH. rewrite IH by lia.
      f_equal. apply bool_decide_ext. set_solver.
Qed.

(** [hasChild] terminates and tells whether the second node names the first as parent. *)
Lemma hasChild_ok done_ P a c : VOk done_ P -> length (vertNodePool P) = total k -> valid k a -> valid k c ->
  hasChild P (vid a) (vid c) = Ret (bool_decide (par <$> lkv P (vid c) = Some (Some (vid a)))).
Proof.
  intros HV Hlen Ha Hc. destruct (node_at _ _ a HV Ha) as (x & Lx & Vx & _). pose proof HV as [HF _].
  destruct (fo_kids k _ HF a _ Ha Lx) as (cs & Hch & Hnd & Hcs). unfold hasChild. rewrite Vx, bind_Ret.
  rewrite (hasChild_loop_spec P _ cs) by (done || (rewrite Hlen;
    rewrite <- (length_seq (total k) 0); apply submseteq_length, NoDup_submseteq; [done|];
    intros v (g & y & Hg & -> & _)%Hcs; apply elem_of_seq; pose proof (vid_lt k g Hg); lia)).
  f_equal. apply bool_decide_ext. rewrite Hcs. split.
  - intros (g & y & _ & _ & Ly & Hp). rewrite Ly. cbn. by rewrite Hp.
  - intros (y & Ly & Hp)%fmap_Some. exists c, y. split_and!; [done..|]. by rewrite Hp.
Qed.

Lemma distance_ok done_ P c a : VOk done_ P -> valid k c -> valid k a ->
  exists d, node_distance junk P (vid c) (vid a) = Ret d.
Proof.
  intros HV Hc Ha. destruct (node_at _ _ c HV Hc) as (x & _ & Vx & _). destruct (node_at _ _ a HV Ha) as (y & _ & Vy & _).
  unfold node_distance. rewrite Vx, bind_Ret, Vy, bind_Ret. eauto.
Qed.

Lemma attach_edge_ok done_ P c a b : VOk done_ P -> valid k c -> valid k a -> valid k b ->
  near c a -> near c b -> center_in done_ c ->
  exists P', attach_edge junk (vid c) (vid a) (vid b) P = Ret P' /\ step_ok done_ P P' /\ parented (lkv P') c.
Proof.
  intros HV Hc Ha Hb Na Nb Hcen. destruct (node_at _ _ c HV Hc) as (x & Lx & Vx & _). unfold attach_edge. rewrite Vx, bind_Ret.
  case_bool_decide as Hp.
  - exists P. split; [done|]. split; [by apply step_refl|]. exists (lk x). by split.
  - assert (v_parent x = None) as Hp' by (destruct (v_parent x); [destruct Hp; eauto|done]).
    destruct (distance_ok done_ P c a HV Hc Ha) as (d1 & ->), (distance_ok done_ P c b HV Hc Hb) as (d2 & ->).
    rewrite !bind_Ret. destruct (F32.ltb d1 d2); apply addChild_ok; try done; intros y Ly; rewrite Lx in Ly;
      simplify_eq; by left.
Qed.

(** ** Quads and their surroundings *)

Definition head_at (P : Pools) (q : qptr) (p : coord) : Prop :=
  exists h, qhead P q = Ret h /\ cornerVertNodes h = Some <$> (vid <$> corners p).

Definition children_at (P : Pools) (q : qptr) (p : coord) : Prop :=
  exists cs, Forall2 (head_at P) cs (kids p) /\ forall j c, cs !! j = Some c -> qchild P q j = Ret c.

Lemma qhead_frame P P' q : same_but_links P P' -> qhead P' q = qhead P q.
Proof. intros []. unfold qhead. destruct q; congruence. Qed.

Lemma qchild_frame P P' q i : same_but_links P P' -> qchild P' q i = qchild P q i.
Proof. intros []. unfold qchild. destruct q; congruence. Qed.

Lemma head_at_frame P P' q p : same_but_links P P' -> head_at P q p -> head_at P' q p.
Proof. intros HF (h & H & Hc). exists h. by rewrite (qhead_frame P P'). Qed.

Lemma children_at_frame P P' q p : same_but_links P P' -> children_at P q p -> children_at P' q p.
Proof.
  intros HF (cs & Hcs & Hq). exists cs. split.
  - eapply Forall2_impl; [exact Hcs|]. intros. by eapply head_at_frame.
  - intros j c Hj. rewrite (qchild_frame P P') by done. auto.
Qed.

(** The children of an inner quad, one by one. *)
Lemma children_at_inv P q p : children_at P q p -> forall j r, kids p !! j = Some r ->
  exists c, qchild P q j = Ret c /\ head_at P c r.
Proof.
  intros (cs & Hcs & Hq) j r Hr. destruct (Forall2_lookup_r _ _ _ _ _ Hcs Hr) as (c & Hc & Hh). exists c. auto.
Qed.

Lemma qcorner_ok P q p j c : head_at P q p -> corners p !! j = Some c -> qcorner P q j = Ret (vid c).
Proof.
  intros (h & Hh & Hcs) Hj. unfold qcorner, get4, vec_at. rewrite Hh, bind_Ret, Hcs, !list_lookup_fmap, Hj. done.
Qed.

Definition around_at (p : coord) : Around :=
  let '(l, x, y) := p in let m := l + 1 in
  mkAround (vid (m, 2 * x + 1, 2 * y)) (vid (m, 2 * x + 1 + 1, 2 * y + 1)) (vid (m, 2 * x + 1, 2 * y + 1 + 1))
    (vid (m, 2 * x, 2 * y + 1)) (vid (m, 2 * x + 1, 2 * y + 1))
    (vid (m, 2 * x, 2 * y)) (vid (m, 2 * x + 1 + 1, 2 * y)) (vid (m, 2 * x + 1 + 1, 2 * y + 1 + 1)) (vid (m, 2 * x, 2 * y + 1 + 1))
    (vid (l, x, y)) (vid (l, x + 1, y)) (vid (l, x + 1, y + 1)) (vid (l, x, y + 1)).

Lemma nine_valid p c : valid_quad k p -> level p < k -> c ∈ nine p -> valid k c.
Proof.
  destruct p as [[l x] y]. unfold valid_quad, valid, level, col, row. cbn. intros (Hl & Hx & Hy) Hlt Hc.
  rewrite !elem_of_cons, elem_of_nil in Hc. pose proof (pow2_S l ltac:(lia)). naive_solver lia.
Qed.

Lemma around_ok P q p : head_at P q p -> children_at P q p -> around P q = Ret (around_at p).
Proof.
  intros Hh Hc. pose proof (children_at_inv P q p Hc) as Hkid. destruct p as [[l x] y]. unfold around.
  destruct (Hkid 0%nat _ eq_refl) as (c0 & -> & H0), (Hkid 1%nat _ eq_refl) as (c1 & -> & H1),
    (Hkid 2%nat _ eq_refl) as (c2 & -> & H2), (Hkid 3%nat _ eq_refl) as (c3 & -> & H3).
  rewrite !bind_Ret.
  rewrite (qcorner_ok P c0 _ 1 _ H0 eq_refl), (qcorner_ok P c1 _ 2 _ H1 eq_refl), (qcorner_ok P c2 _ 3 _ H2 eq_refl),
    (qcorner_ok P c3 _ 0 _ H3 eq_refl), (qcorner_ok P c0 _ 2 _ H0 eq_refl), (qcorner_ok P c0 _ 0 _ H0 eq_refl),
    (qcorner_ok P c1 _ 1 _ H1 eq_refl), (qcorner_ok P c2 _ 2 _ H2 eq_refl), (qcorner_ok P c3 _ 3 _ H3 eq_refl),
    (qcorner_ok P q _ 0 _ Hh eq_refl), (qcorner_ok P q _ 1 _ Hh eq_refl), (qcorner_ok P q _ 2 _ Hh eq_refl),
    (qcorner_ok P q _ 3 _ Hh eq_refl), !bind_Ret.
  done.
Qed.

Lemma diagonal_ok P c p v1 v2 : head_at P c p -> exists b, isDiagonalConnected P c v1 v2 = Ret b.
Proof. intros (h & Hh & _). unfold isDiagonalConnected. rewrite Hh, bind_Ret. destruct (triangulationMode h); eauto. Qed.

(** The choices made from the child lists end in a corner and in a layout. *)
Section Choice.
Context (done_ : list coord) (P : Pools) (p : coord).
Context (HV : VOk done_ P) (Hp : valid_quad k p) (Hlt : level p < k).

Lemma distance_total a c : a ∈ corners p -> c ∈ nine p -> exists d, node_distance junk P (vid c) (vid a) = Ret d.
Proof. intros Ha Hc. apply (distance_ok done_); [done|by apply (nine_valid p)|by apply (corners_valid k p)]. Qed.

Lemma nearest_ok c best d l : c ∈ nine p -> (forall a, a ∈ l -> a ∈ corners p) -> best ∈ corners p ->
  exists a, nearest junk P (vid c) (vid best) d (vid <$> l) = Ret (vid a) /\ a ∈ corners p.
Proof.
  intros Hc. revert best d. induction l as [|a l IH]; intros best d Hl Hb; cbn; [eauto|].
  destruct (distance_total a c) as (e & ->); [set_solver|done|]. rewrite bind_Ret.
  destruct (F32.ltb e d); apply IH; set_solver.
Qed.

Context (Hlen : length (vertNodePool P) = total k).

Lemma hasChild_total a c : a ∈ corners p -> c ∈ nine p -> exists b, hasChild P (vid a) (vid c) = Ret b.
Proof.
  intros Ha Hc. rewrite (hasChild_ok done_ P a c HV Hlen); [eauto|by apply (corners_valid k p)|by apply (nine_valid p)].
Qed.

Definition total_b (o : outcome bool) : Prop := exists b, o = Ret b.

Lemma hasBoth_total a c c' : a ∈ corners p -> c ∈ nine p -> c' ∈ nine p -> total_b (hasBoth P (vid a) (vid c) (vid c')).
Proof.
  intros Ha Hc Hc'. unfold hasBoth. destruct (hasChild_total a c Ha Hc) as ([] & ->); rewrite bind_Ret; [|by exists false].
  by apply hasChild_total.
Qed.

Lemma hasEither_total a c c' : a ∈ corners p -> c ∈ nine p -> c' ∈ nine p -> total_b (hasEither P (vid a) (vid c) (vid c')).
Proof.
  intros Ha Hc Hc'. unfold hasEither. destruct (hasChild_total a c Ha Hc) as ([] & ->); rewrite bind_Ret; [by exists true|].
  by apply hasChild_total.
Qed.

Lemma and_then_total a b : total_b a -> total_b b -> total_b (and_then a b).
Proof. intros ([] & ->) Hb; unfold and_then; rewrite bind_Ret; [done|by exists false]. Qed.

Lemma diag_total q j r c v : children_at P q p -> kids p !! j = Some r -> total_b (c0 ← qchild P q j; isDiagonalConnected P c0 c v).
Proof.
  intros Hch Hj. destruct (children_at_inv P q p Hch j r Hj) as (c0 & -> & Hh). rewrite bind_Ret.
  by apply (diagonal_ok P c0 r).
Qed.
End Choice.

(** Evaluate the boolean computation in front of the goal, which cannot fail. *)
Ltac branch H := let b := fresh "b" in destruct H as (b & ->); rewrite bind_Ret; destruct b.

Lemma nearer_ok done_ P p a b c : VOk done_ P -> valid_quad k p -> level p < k ->
  a ∈ corners p -> b ∈ corners p -> c ∈ nine p ->
  exists e, e ∈ corners p /\ nearer junk P (vid c) (vid a) (vid b) = Ret (vid e).
Proof.
  intros HV Hp Hlt Ha Hb Hc. unfold nearer.
  destruct (distance_total done_ P p HV Hp Hlt a c Ha Hc) as (d1 & ->).
  destruct (distance_total done_ P p HV Hp Hlt b c Hb Hc) as (d2 & ->). rewrite !bind_Ret.
  destruct (F32.ltb d1 d2); eauto.
Qed.

Lemma diagonal_parent_ok done_ P q p : VOk done_ P -> valid_quad k p -> level p < k -> children_at P q p ->
  exists e, e ∈ corners p /\ diagonal_parent junk P q (around_at p) = Ret (vid e).
Proof.
  intros HV Hp Hlt Hch. destruct p as [[l x] y]. unfold diagonal_parent. cbn [around_at Ct cSw cSe cNe cNw Sw Se Ne Nw].
  pose proof (fun j r c v => diag_total P (l, x, y) q j r c v Hch) as Hd.
  branch (Hd 0%nat _ (vid (l + 1, 2 * x + 1, 2 * y + 1)) (vid (l + 1, 2 * x, 2 * y)) eq_refl);
    [exists (l, x, y); split; [in_list|done]|].
  branch (Hd 1%nat _ (vid (l + 1, 2 * x + 1, 2 * y + 1)) (vid (l + 1, 2 * x + 1 + 1, 2 * y)) eq_refl);
    [exists (l, x + 1, y); split; [in_list|done]|].
  branch (Hd 2%nat _ (vid (l + 1, 2 * x + 1, 2 * y + 1)) (vid (l + 1, 2 * x + 1 + 1, 2 * y + 1 + 1)) eq_refl);
    [exists (l, x + 1, y + 1); split; [in_list|done]|].
  branch (Hd 3%nat _ (vid (l + 1, 2 * x + 1, 2 * y + 1)) (vid (l + 1, 2 * x, 2 * y + 1 + 1)) eq_refl);
    [exists (l, x, y + 1); split; [in_list|done]|].
  destruct (distance_total done_ P (l, x, y) HV Hp Hlt (l, x, y) (l + 1, 2 * x + 1, 2 * y + 1)) as (d0 & ->);
    [in_list|in_list|]. rewrite bind_Ret.
  destruct (nearest_ok done_ P (l, x, y) HV Hp Hlt (l + 1, 2 * x + 1, 2 * y + 1) (l, x, y) d0
    [(l, x + 1, y); (l, x + 1, y + 1); (l, x, y + 1)]) as (e & He & Hc); [in_list| |in_list|].
  - intros a. unfold corners. rewrite !elem_of_cons. tauto.
  - eauto.
Qed.

Lemma center_parent_ok done_ P q p : VOk done_ P -> length (vertNodePool P) = total k ->
  valid_quad k p -> level p < k -> children_at P q p ->
  exists e, e ∈ corners p /\ center_parent junk P q (around_at p) = Ret (vid e).
Proof.
  intros HV Hlen Hp Hlt Hch. pose proof (diagonal_parent_ok done_ P q p HV Hp Hlt Hch) as Hlast.
  pose proof (hasBoth_total done_ P p HV Hp Hlt Hlen) as Hb. pose proof (nearer_ok done_ P p) as Hn.
  destruct p as [[l x] y]. unfold center_parent. cbn [around_at Ct Bt Rt Tp Lf Sw Se Ne Nw] in *.
  branch (and_then_total _ _ (Hb (l, x, y) (l + 1, 2 * x, 2 * y + 1) (l + 1, 2 * x + 1, 2 * y) ltac:(in_list) ltac:(in_list) ltac:(in_list))
    (Hb (l, x + 1, y + 1) (l + 1, 2 * x + 1 + 1, 2 * y + 1) (l + 1, 2 * x + 1, 2 * y + 1 + 1) ltac:(in_list) ltac:(in_list) ltac:(in_list)));
    [apply Hn; try done; in_list|].
  branch (and_then_total _ _ (Hb (l, x + 1, y) (l + 1, 2 * x + 1, 2 * y) (l + 1, 2 * x + 1 + 1, 2 * y + 1) ltac:(in_list) ltac:(in_list) ltac:(in_list))
    (Hb (l, x, y + 1) (l + 1, 2 * x + 1, 2 * y + 1 + 1) (l + 1, 2 * x, 2 * y + 1) ltac:(in_list) ltac:(in_list) ltac:(in_list)));
    [apply Hn; try done; in_list|].
  branch (Hb (l, x, y) (l + 1, 2 * x, 2 * y + 1) (l + 1, 2 * x + 1, 2 * y) ltac:(in_list) ltac:(in_list) ltac:(in_list));
    [exists (l, x, y); split; [in_list|done]|].
  branch (Hb (l, x + 1, y) (l + 1, 2 * x + 1, 2 * y) (l + 1, 2 * x + 1 + 1, 2 * y + 1) ltac:(in_list) ltac:(in_list) ltac:(in_list));
    [exists (l, x + 1, y); split; [in_list|done]|].
  branch (Hb (l, x + 1, y + 1) (l + 1, 2 * x + 1 + 1, 2 * y + 1) (l + 1, 2 * x + 1, 2 * y + 1 + 1) ltac:(in_list) ltac:(in_list) ltac:(in_list));
    [exists (l, x + 1, y + 1); split; [in_list|done]|].
  branch (Hb (l, x, y + 1) (l + 1, 2 * x + 1, 2 * y + 1 + 1) (l + 1, 2 * x, 2 * y + 1) ltac:(in_list) ltac:(in_list) ltac:(in_list));
    [exists (l, x, y + 1); split; [in_list|done]|done].
Qed.

(** One case of [layout]. *)
Lemma choose_total done_ P q p a c c' j r ct v (yes no : TriangulationMode) :
  VOk done_ P -> length (vertNodePool P) = total k -> valid_quad k p -> level p < k -> children_at P q p ->
  a ∈ corners p -> c ∈ nine p -> c' ∈ nine p -> kids p !! j = Some r ->
  exists m, (h ← hasEither P (vid a) (vid c) (vid c');
    if h : bool then Ret yes
    else c ← qchild P q j; d ← isDiagonalConnected P c ct v; Ret (if d : bool then yes else no)) = Ret m.
Proof.
  intros HV Hlen Hp Hlt Hch Ha Hc Hc' Hj.
  branch (hasEither_total done_ P p HV Hp Hlt Hlen a c c' Ha Hc Hc'); [eauto|].
  destruct (diag_total P p q j r ct v Hch Hj) as (d & Hd). apply bind_Ret_inv in Hd as (c0 & -> & Hd).
  rewrite bind_Ret, Hd, bind_Ret. eauto.
Qed.

Lemma layout_ok done_ P q p : VOk done_ P -> length (vertNodePool P) = total k ->
  valid_quad k p -> level p < k -> children_at P q p -> exists m, layout P q (around_at p) = Ret m.
Proof.
  intros HV Hlen Hp Hlt Hch. destruct p as [[l x] y]. unfold layout. cbn [around_at Ct cSw cSe cNe cNw Bt Rt Tp Lf Sw Se Ne Nw].
  assert (valid k (l + 1, 2 * x + 1, 2 * y + 1)) as Hc by (apply (nine_valid (l, x, y)); [done..|in_list]).
  destruct (node_at _ _ _ HV Hc) as (n & _ & -> & _). rewrite bind_Ret.
  repeat case_bool_decide.
  - apply (choose_total done_ P q (l, x, y) (l, x + 1, y + 1) (l + 1, 2 * x + 1, 2 * y + 1 + 1) (l + 1, 2 * x + 1 + 1, 2 * y + 1) 2%nat
      (l + 1, 2 * x + 1, 2 * y + 1)); try done; in_list.
  - apply (choose_total done_ P q (l, x, y) (l, x, y + 1) (l + 1, 2 * x + 1, 2 * y + 1 + 1) (l + 1, 2 * x, 2 * y + 1) 3%nat
      (l + 1, 2 * x, 2 * y + 1)); try done; in_list.
  - apply (choose_total done_ P q (l, x, y) (l, x, y) (l + 1, 2 * x + 1, 2 * y) (l + 1, 2 * x, 2 * y + 1) 0%nat
      (l + 1, 2 * x, 2 * y)); try done; in_list.
  - apply (choose_total done_ P q (l, x, y) (l, x + 1, y) (l + 1, 2 * x + 1, 2 * y) (l + 1, 2 * x + 1 + 1, 2 * y + 1) 1%nat
      (l + 1, 2 * x + 1, 2 * y)); try done; in_list.
Qed.

Lemma so_children done_ P P' q p : step_ok done_ P P' -> children_at P q p -> children_at P' q p.
Proof. intros [F _ _]. by apply children_at_frame. Qed.

(** Attach a node that is no middle, its parent being absent or the one given. *)
Lemma VOk_weaken done_ done' P : done_ ⊆ done' -> VOk done_ P -> VOk done' P.
Proof. intros Hsub [HF HC]. split; [done|]. intros l a b Hv Hpar. by apply Hsub, HC. Qed.

(** The four attachments of a quad's corners. *)
Lemma collapse_corners done_ P p : VOk done_ P -> valid_quad k p -> level p < k ->
  let A := around_at p in
  exists P', (forall X (f : Pools -> outcome X),
                (P ← addChild (Sw A) (cSw A) P; P ← addChild (Se A) (cSe A) P;
                 P ← addChild (Ne A) (cNe A) P; P ← addChild (Nw A) (cNw A) P; f P) = f P') /\ step_ok done_ P P' /\
    forall c, c ∈ take 4 (nine p) -> parented (lkv P') c.
Proof.
  intros HV Hp Hlt A. pose proof (fun c => corners_valid k p c Hp) as Hcv. pose proof (fun c => nine_valid p c Hp Hlt) as Hnv.
  destruct p as [[l x] y]. cbn [A around_at Sw Se Ne Nw cSw cSe cNe cNw].
  assert (forall Q c d, step_ok done_ P Q -> c ∈ nine (l, x, y) -> d ∈ corners (l, x, y) -> level c = level d + 1 ->
            col c = 2 * col d -> row c = 2 * row d ->
            exists Q', addChild (vid d) (vid c) Q = Ret Q' /\ step_ok done_ P Q' /\ grows k (lkv Q) (lkv Q')
                       /\ parented (lkv Q') c) as Hadd.
  { intros Q c d HQ Hc Hd El Ec Er. destruct (Hcv d Hd) as [Hdv _]. pose proof (so_ok _ _ _ HQ) as VQ.
    destruct (addChild_ok done_ Q c d) as (Q' & E & S & R); [done|auto|done|unfold near; lia| | |].
    - intros p' (_ & Hodd & _). lia.
    - intros n. apply (corner_parent done_); auto.
    - exists Q'. split_and!; [done|by apply (step_trans _ _ Q)|by apply so_grows in S|done]. }
  destruct (Hadd P (l + 1, 2 * x, 2 * y) (l, x, y)) as (P1 & E1 & S1 & G1 & R1);
    [by apply step_refl|in_list|in_list|unfold level, col, row; cbn; lia..|].
  destruct (Hadd P1 (l + 1, 2 * x + 1 + 1, 2 * y) (l, x + 1, y)) as (P2 & E2 & S2 & G2 & R2);
    [done|in_list|in_list|unfold level, col, row; cbn; lia..|].
  destruct (Hadd P2 (l + 1, 2 * x + 1 + 1, 2 * y + 1 + 1) (l, x + 1, y + 1)) as (P3 & E3 & S3 & G3 & R3);
    [done|in_list|in_list|unfold level, col, row; cbn; lia..|].
  destruct (Hadd P3 (l + 1, 2 * x, 2 * y + 1 + 1) (l, x, y + 1)) as (P4 & E4 & S4 & G4 & R4);
    [done|in_list|in_list|unfold level, col, row; cbn; lia..|].
  exists P4. split; [intros X f; by rewrite E1, bind_Ret, E2, bind_Ret, E3, bind_Ret, E4, bind_Ret|]. split; [done|].
  intros c Hc. assert (valid k c) as Hv by (apply Hnv; revert Hc; cbn [take nine]; rewrite !elem_of_cons, !elem_of_nil; tauto).
  revert Hc. cbn [take nine]. rewrite !elem_of_cons, elem_of_nil. intros [->|[->|[->|[->|[]]]]]; eauto.
Qed.

(** The four attachments of the edges' middles. *)
Lemma collapse_edges done_ P p : VOk done_ P -> valid_quad k p -> level p < k ->
  let A := around_at p in
  exists P', (forall X (f : Pools -> outcome X),
                (P ← attach_edge junk (Bt A) (Se A) (Sw A) P; P ← attach_edge junk (Rt A) (Ne A) (Se A) P;
                 P ← attach_edge junk (Tp A) (Ne A) (Nw A) P; P ← attach_edge junk (Lf A) (Nw A) (Sw A) P; f P) = f P') /\
    step_ok done_ P P' /\ forall c, c ∈ take 4 (drop 4 (nine p)) -> parented (lkv P') c.
Proof.
  intros HV Hp Hlt A. pose proof (fun c => corners_valid k p c Hp) as Hcv. pose proof (fun c => nine_valid p c Hp Hlt) as Hnv.
  destruct p as [[l x] y]. cbn [A around_at Sw Se Ne Nw Bt Rt Tp Lf].
  assert (forall Q c a b, step_ok done_ P Q -> c ∈ nine (l, x, y) -> a ∈ corners (l, x, y) -> b ∈ corners (l, x, y) ->
            near c a -> near c b -> (forall p', ~ odd_center c p') ->
            exists Q', attach_edge junk (vid c) (vid a) (vid b) Q = Ret Q' /\ step_ok done_ P Q' /\ grows k (lkv Q) (lkv Q')
                       /\ parented (lkv Q') c) as Hadd.
  { intros Q c a b HQ Hc Ha Hb Na Nb Hodd. destruct (Hcv a Ha) as [Hav _], (Hcv b Hb) as [Hbv _].
    pose proof (so_ok _ _ _ HQ) as VQ.
    destruct (attach_edge_ok done_ Q c a b) as (Q' & E & S & R); [done|auto|done|done|done|done| |].
    - intros p' Hp'. by destruct (Hodd p').
    - exists Q'. split_and!; [done|by apply (step_trans _ _ Q)|by apply so_grows in S|done]. }
  destruct (Hadd P (l + 1, 2 * x + 1, 2 * y) (l, x + 1, y) (l, x, y)) as (P1 & E1 & S1 & G1 & R1);
    [by apply step_refl|in_list|in_list|in_list|unfold near, odd_center, level, col, row; cbn; lia..|].
  destruct (Hadd P1 (l + 1, 2 * x + 1 + 1, 2 * y + 1) (l, x + 1, y + 1) (l, x + 1, y)) as (P2 & E2 & S2 & G2 & R2);
    [done|in_list|in_list|in_list|unfold near, odd_center, level, col, row; cbn; lia..|].
  destruct (Hadd P2 (l + 1, 2 * x + 1, 2 * y + 1 + 1) (l, x + 1, y + 1) (l, x, y + 1)) as (P3 & E3 & S3 & G3 & R3);
    [done|in_list|in_list|in_list|unfold near, odd_center, level, col, row; cbn; lia..|].
  destruct (Hadd P3 (l + 1, 2 * x, 2 * y + 1) (l, x, y + 1) (l, x, y)) as (P4 & E4 & S4 & G4 & R4);
    [done|in_list|in_list|in_list|unfold near, odd_center, level, col, row; cbn; lia..|].
  exists P4. split; [intros X f; by rewrite E1, bind_Ret, E2, bind_Ret, E3, bind_Ret, E4, bind_Ret|]. split; [done|].
  intros c Hc. assert (valid k c) as Hv by (apply Hnv; revert Hc; cbn [take drop nine]; rewrite !elem_of_cons, !elem_of_nil; tauto).
  revert Hc. cbn [take drop nine]. rewrite !elem_of_cons, elem_of_nil. intros [->|[->|[->|[->|[]]]]]; eauto.
Qed.

(** The collapse of a quad whose middle is not attached yet: it succeeds, gives
    all nine nodes a parent and sets the quad's diagonal. *)
Lemma collapseQuad_ok done_ P q p : VOk done_ P -> length (vertNodePool P) = total k ->
  valid_quad k p -> level p < k -> p ∉ done_ -> head_at P q p -> children_at P q p ->
  exists P1 m, collapseQuad junk q P = Ret (upd_qhead q (set_triangulation m) P1) /\ step_ok (p :: done_) P P1 /\
    forall c, c ∈ nine p -> parented (lkv P1) c.
Proof.
  intros HV Hlen Hp Hlt Hnd Hh Hch. pose proof (fun c => nine_valid p c Hp Hlt) as Hnv.
  unfold collapseQuad. rewrite (around_ok P q p Hh Hch), bind_Ret.
  destruct (collapse_corners done_ P p HV Hp Hlt) as (P1 & -> & S1 & R1). pose proof (so_ok _ _ _ S1) as V1.
  assert (last (nine p) = Some (level p + 1, 2 * col p + 1, 2 * row p + 1)) as Hlast by (by destruct p as [[l x] y]).
  set (ct := (level p + 1, 2 * col p + 1, 2 * row p + 1)) in *.
  assert (Ct (around_at p) = vid ct) as Ect by (by destruct p as [[l x] y]).
  assert (ct ∈ nine p) as Hct by eauto with maple.
  assert (forall Q, VOk done_ Q -> ~ parented (lkv Q) ct) as Hfree.
  { intros Q [_ HC] Hpar. apply Hnd. replace p with (level p, col p, row p) by (by destruct p as [[l x] y]).
    apply HC; [by apply Hnv|done]. }
  rewrite Ect. destruct (node_at _ _ ct V1 (Hnv _ Hct)) as (n & Ln & -> & _). rewrite bind_Ret, bool_decide_false
    by (intros Hpar; apply (Hfree P1 V1); exists (lk n); by split).
  destruct (collapse_edges done_ P1 p V1 Hp Hlt) as (P2 & -> & S2 & R2). pose proof (so_ok _ _ _ S2) as V2.
  assert (length (vertNodePool P2) = total k) as Hlen2.
  { rewrite (sbl_length _ _ (so_frame _ _ _ S2)), (sbl_length _ _ (so_frame _ _ _ S1)). done. }
  assert (children_at P2 q p) as Hch2 by (eapply so_children, so_children; eassumption).
  destruct (center_parent_ok done_ P2 q p V2 Hlen2 Hp Hlt Hch2) as (e & He & ->). rewrite bind_Ret.
  destruct (corners_valid k p e Hp He) as [Hev Hel].
  destruct (addChild_ok (p :: done_) P2 ct e) as (P3 & -> & S3 & R3); [|by apply Hnv|done| | | |].
  { by apply (VOk_weaken done_); [set_solver|]. }
  { destruct p as [[l x] y]. revert He. unfold near, ct, level, col, row. cbn. rewrite !elem_of_cons, elem_of_nil.
    intros [->|[->|[->|[->|[]]]]]; cbn; lia. }
  { intros p' (Hl & Hc & Hr). apply elem_of_cons. left. destruct p as [[l x] y], p' as [[l' x'] y'].
    unfold ct, level, col, row in *. cbn in *. f_equal; [f_equal|]; lia. }
  { intros z Lz. left. destruct (par z) eqn:Hz; [|done]. destruct (Hfree P2 V2). exists z. rewrite Hz. eauto. }
  rewrite bind_Ret. pose proof (so_ok _ _ _ S3) as V3.
  destruct (layout_ok (p :: done_) P3 q p) as (m & ->); [done| |done|done|by eapply so_children|].
  { by rewrite (sbl_length _ _ (so_frame _ _ _ S3)). }
  rewrite bind_Ret. exists P3, m. split; [done|]. split.
  - destruct S1 as [F1 _ G1], S2 as [F2 _ G2], S3 as [F3 _ G3]. constructor; [by rewrite F1, F2|done|].
    intros c Hc Hpar. by apply G3, G2, G1.
  - intros c Hc. pose proof (Hnv c Hc) as Hv. destruct S2 as [_ _ G2], S3 as [_ _ G3].
    assert (nine p = take 4 (nine p) ++ take 4 (drop 4 (nine p)) ++ [ct]) as Hsplit by (by destruct p as [[l x] y]).
    rewrite Hsplit, !elem_of_app, list_elem_of_singleton in Hc. destruct Hc as [Hc|[Hc| ->]]; auto.
Qed.
End Collapse.
End Collapse.
