(* ===== verification/TerrainBuild.v ===== *)
(** * TerrainBuild: the construction of the quad-collapse mesh is correct

    For a square height field of 2^k + 1 points per edge [build] succeeds: every
    pool access is in range, the pools are used up exactly, quads and vertex
    nodes are linked as the reference geometry of [TerrainGrid] says, and every
    vertex node below the first level has a parent. *)

From S2P Require Import Prelude Float32 Geometry Terrain TerrainGrid TerrainCollapse.
From stdpp Require Import base decidable list sets.
From Stdlib Require Import ZArith SpecFloat Lia.
Import Glm Vertex Terrain Grid VertForest Views Collapse.
Local Open Scope Z_scope.

(** ** Quads and adjacency *)
Module Quads.

Lemma vec_at_Some {A} (l : list A) i x : l !! i = Some x -> vec_at l i = Ret x.
Proof. unfold vec_at. by intros ->. Qed.

Lemma take_registered {A} (qs : list A) n : take (length qs) ((Some <$> qs) ++ replicate n None) = Some <$> qs.
Proof. rewrite <- (length_fmap Some qs). apply take_app_length. Qed.

(** Quads are recorded by position in allocation order. *)
Definition isq (NB LB : list coord) (q : qptr) (p : coord) : Prop :=
  match q with QN i => NB !! i = Some p | QL i => LB !! i = Some p end.

Section Quads.
Context (k : Z).

Definition fresh_head (p : coord) (h : QuadHead) : Prop :=
  q_activeFrame h = 0 /\ q_state h = NS_ACTIVE /\ q_level h = level p /\
  cornerVertNodes h = Some <$> (vid <$> corners p).

(** A quad whose parent pointer names node [i]. *)
Definition child_of (P : Pools) (i : nat) (c : qptr) : Prop :=
  exists h, qhead P c = Ret h /\ q_parent h = Some (QN i).

Record QInv (NB LB done_ : list coord) (P : Pools) : Prop := mkQInv {
  qi_nalloc : quadNodePoolAllocated P = length NB;
  qi_lalloc : quadLeafPoolAllocated P = length LB;
  qi_inner : forall p, p ∈ NB -> valid_quad k p /\ level p < k;
  qi_outer : forall p, p ∈ LB -> valid_quad k p /\ level p = k;
  qi_nodup : NoDup NB /\ NoDup LB;
  qi_head : forall q p, isq NB LB q p -> exists h, qhead P q = Ret h /\ fresh_head p h;
  qi_tree : forall i p, NB !! i = Some p -> p ∈ done_ -> exists n cs, quadNodePool P !! i = Some n /\
              children n = Some <$> cs /\ Forall2 (fun c r => isq NB LB c r /\ child_of P i c) cs (kids p);
  qi_parent : forall q p h, isq NB LB q p -> qhead P q = Ret h -> forall q', q_parent h = Some q' ->
                exists i p', q' = QN i /\ NB !! i = Some p' /\ p ∈ kids p'
}.

(** The quads registered at a vertex node. *)
Definition adjacent (NB LB : list coord) (c : coord) (x : VertNode) (qs : list qptr) : Prop :=
  adjcentQuads x = (Some <$> qs) ++ replicate (4 - length qs) None /\
  adjcentQuadsCount x = Z.of_nat (length qs) /\ (length qs <= 4)%nat /\ NoDup qs /\
  forall q, q ∈ qs -> exists p, isq NB LB q p /\ c ∈ corners p.
Definition AInv (NB LB : list coord) (P : Pools) : Prop :=
  forall c, valid k c -> exists x qs, vertNodePool P !! vid c = Some x /\ adjacent NB LB c x qs.

Lemma isq_app NB LB NB' LB' q p : isq NB LB q p -> isq (NB ++ NB') (LB ++ LB') q p.
Proof. destruct q; cbn; apply lookup_app_l_Some. Qed.

Lemma isq_valid NB LB done_ P q p : QInv NB LB done_ P -> isq NB LB q p -> valid_quad k p.
Proof. intros HQ. destruct q; cbn; intros H%list_elem_of_lookup_2; [by apply (qi_inner _ _ _ _ HQ)|by apply (qi_outer _ _ _ _ HQ)]. Qed.

Lemma isq_inj NB LB done_ P q q' p : QInv NB LB done_ P -> isq NB LB q p -> isq NB LB q' p -> q = q'.
Proof.
  intros HQ. destruct (qi_nodup _ _ _ _ HQ) as [HN HL].
  destruct q as [i|i], q' as [j|j]; cbn; intros Hi Hj.
  - f_equal. exact (NoDup_lookup _ _ _ _ HN Hi Hj).
  - apply list_elem_of_lookup_2 in Hi, Hj. apply (qi_inner _ _ _ _ HQ) in Hi as [_ ?]. apply (qi_outer _ _ _ _ HQ) in Hj as [_ ?]. lia.
  - apply list_elem_of_lookup_2 in Hi, Hj. apply (qi_inner _ _ _ _ HQ) in Hj as [_ ?]. apply (qi_outer _ _ _ _ HQ) in Hi as [_ ?]. lia.
  - f_equal. exact (NoDup_lookup _ _ _ _ HL Hi Hj).
Qed.

(** At most four quads meet at a vertex node. *)
Definition quads_at (c : coord) : list coord :=
  let '(l, x, y) := c in [(l, x, y); (l, x - 1, y); (l, x - 1, y - 1); (l, x, y - 1)].

Lemma corners_quads_at p c : c ∈ corners p -> p ∈ quads_at c.
Proof.
  destruct p as [[l x] y]. cbn [corners]. rewrite !elem_of_cons, elem_of_nil.
  intros [->|[->|[->|[->|[]]]]]; cbn [quads_at]; rewrite !elem_of_cons, ?Z.add_simpl_r; tauto.
Qed.

Lemma positions_bound {A B} (R : A -> B -> Prop) (S : list B) (l : list A) :
  (forall a a' b, R a b -> R a' b -> a = a') -> NoDup l -> (forall a, a ∈ l -> exists b, R a b /\ b ∈ S) ->
  (length l <= length S)%nat.
Proof.
  intros Hinj Hnd Hl.
  assert (exists bs, Forall2 (fun a b => R a b) l bs /\ bs ⊆ S) as (bs & Hbs & Hsub).
  { clear Hnd. induction l as [|a l IH]; [exists []; split; [constructor|set_solver]|].
    destruct (Hl a ltac:(set_solver)) as (b & Hb & HS). destruct IH as (bs & H1 & H2); [set_solver|].
    exists (b :: bs). split; [by constructor|set_solver]. }
  rewrite (Forall2_length _ _ _ Hbs). apply submseteq_length, NoDup_submseteq; [|done].
  clear Hsub Hl. induction Hbs as [|a b l bs Hab Hf IH]; [constructor|]. apply NoDup_cons in Hnd as [Ha Hnd]. constructor; [|auto].
  intros (j & Hj)%list_elem_of_lookup. destruct (Forall2_lookup_r _ _ _ _ _ Hf Hj) as (a' & Ha' & Hab').
  apply Ha. rewrite (Hinj a a' b Hab Hab'). by eapply list_elem_of_lookup_2.
Qed.

Lemma adjacent_room NB LB done_ P c x qs q p : QInv NB LB done_ P -> adjacent NB LB c x qs ->
  isq NB LB q p -> c ∈ corners p -> q ∉ qs -> (length qs < 4)%nat.
Proof.
  intros HQ (_ & _ & _ & Hnd & Hqs) Hq Hc Hn.
  pose proof (positions_bound (isq NB LB) (quads_at c) (q :: qs)) as Hb.
  assert (length (quads_at c) = 4)%nat as El by (by destruct c as [[l a] b]). rewrite El in Hb. cbn in Hb. apply Hb.
  - intros. by eapply isq_inj.
  - by constructor.
  - intros a [->|Ha]%elem_of_cons; [exists p; split; [done|by apply corners_quads_at]|].
    destruct (Hqs a Ha) as (p' & Hp' & Hc'). exists p'. split; [done|by apply corners_quads_at].
Qed.

Lemma adjacent_app NB LB NB' LB' c x qs : adjacent NB LB c x qs -> adjacent (NB ++ NB') (LB ++ LB') c x qs.
Proof.
  intros (H1 & H2 & H3 & H4 & H5). split_and!; [done..|]. intros q Hq. destruct (H5 q Hq) as (p & Hp & Hc).
  exists p. split; [by apply isq_app|done].
Qed.

(** States that differ in the adjacency of vertex nodes only. *)
Record same_but_adj (P P' : Pools) : Prop := mkSBA {
  sba_nodes : quadNodePool P' = quadNodePool P;
  sba_leaves : quadLeafPool P' = quadLeafPool P;
  sba_nalloc : quadNodePoolAllocated P' = quadNodePoolAllocated P;
  sba_lalloc : quadLeafPoolAllocated P' = quadLeafPoolAllocated P;
  sba_length : length (vertNodePool P') = length (vertNodePool P);
  sba_vert : forall v, (fun x => set_adjacent 0 null4 x) <$> vertNodePool P' !! v = (fun x => set_adjacent 0 null4 x) <$> vertNodePool P !! v
}.
#[export] Instance same_but_adj_refl : Reflexive same_but_adj.
Proof. intros P. by constructor. Qed.
#[export] Instance same_but_adj_trans : Transitive same_but_adj.
Proof. intros P Q R [] []. constructor; congruence. Qed.

Lemma sba_lkv P P' v : same_but_adj P P' -> lkv P' v = lkv P v.
Proof.
  intros H. pose proof (sba_vert _ _ H v) as E. unfold lkv.
  destruct (vertNodePool P !! v) as [x|], (vertNodePool P' !! v) as [x'|]; cbn in *; try done. simplify_eq.
  f_equal. unfold lk. congruence.
Qed.

(** Registering a quad at one of its corners. *)
Lemma addAdjcentQuad_ok NB LB done_ P c q p : QInv NB LB done_ P -> AInv NB LB P -> valid k c ->
  isq NB LB q p -> c ∈ corners p ->
  exists P', addAdjcentQuad (vid c) q P = Ret P' /\ same_but_adj P P' /\ AInv NB LB P'.
Proof.
  intros HQ HA Hc Hq Hcp. destruct (HA c Hc) as (x & qs & Lx & Hx). pose proof Hx as (Hl & Hn & H4 & Hnd & Hqs).
  unfold addAdjcentQuad. rewrite (vnode_lookup P _ _ Lx), bind_Ret, Hn, Nat2Z.id, Hl.
  rewrite take_registered.
  case_bool_decide as Hin; [by exists P|].
  assert (q ∉ qs) as Hnq by (intros Hq'; apply Hin; by apply list_elem_of_fmap_2).
  pose proof (adjacent_room NB LB done_ P c x qs q p HQ Hx Hq Hcp Hnq) as Hroom.
  rewrite bool_decide_true by (rewrite length_app, length_fmap, length_replicate; lia).
  assert (<[length qs := Some q]> ((Some <$> qs) ++ replicate (4 - length qs) None)
          = (Some <$> (qs ++ [q])) ++ replicate (4 - length (qs ++ [q])) (@None qptr)) as ->.
  { rewrite insert_app_r_alt by (rewrite length_fmap; lia). rewrite length_fmap, Nat.sub_diag, length_app.
    cbn [length]. replace (4 - length qs)%nat with (S (4 - (length qs + 1))) by lia. cbn [replicate].
    by rewrite fmap_app, <- app_assoc. }
  eexists. split; [done|]. set (l' := _ ++ replicate _ None). split.
  - constructor; try done; [apply length_alter|]. intros v. rewrite lookup_upd_vnode. case_decide as E; [|done]. subst v. by rewrite Lx.
  - intros e He. destruct (decide (vid c = vid e)) as [E|E].
    + apply (vid_inj k) in E as <-; [|done..]. exists (set_adjacent (wrapU 3 (Z.of_nat (length qs) + 1)) l' x), (qs ++ [q]).
      rewrite lookup_upd_vnode, decide_True, Lx by done. split; [done|]. split_and!; [done| | | |].
      * cbn. rewrite length_app. cbn. unfold wrapU. rewrite Z.mod_small by (cbn; lia). lia.
      * rewrite length_app. cbn. lia.
      * apply NoDup_app. split_and!; [done| |apply NoDup_singleton]. set_solver.
      * intros q' [Hq'|Hq'%list_elem_of_singleton]%elem_of_app; [auto|]. subst q'. eauto.
    + destruct (HA e He) as (y & qs' & Ly & Hy). exists y, qs'. by rewrite lookup_upd_vnode, decide_False.
Qed.
End Quads.
End Quads.

(** ** Adding and linking quads *)
Module Linking.
Import Quads.

Section Linking.
Context (k : Z).

Lemma qhead_upd_qhead c f P q : qhead (upd_qhead c f P) q = if decide (c = q) then f <$> qhead P q else qhead P q.
Proof.
  destruct c as [i|i], q as [j|j]; cbn; unfold vec_at; rewrite ?list_lookup_alter; try (by rewrite decide_False by congruence).
  - destruct (decide (i = j)) as [->|]; [rewrite decide_True by done|by rewrite decide_False by congruence].
    by destruct (quadNodePool P !! j).
  - destruct (decide (i = j)) as [->|]; [rewrite decide_True by done|by rewrite decide_False by congruence].
    by destruct (quadLeafPool P !! j).
Qed.

(** What a quad keeps while its parent and diagonal change. *)
Definition qstatic (h : QuadHead) := (q_activeFrame h, q_state h, q_level h, cornerVertNodes h).

Lemma fresh_static p h h' : qstatic h' = qstatic h -> fresh_head p h -> fresh_head p h'.
Proof. unfold qstatic, fresh_head. intros [= E1 E2 E3 E4]. by rewrite E1, E2, E3, E4. Qed.

(** One more quad, with a fresh head. *)
Lemma QInv_extend NB LB NB' LB' done_ P P' qn p :
  QInv k NB LB done_ P -> done_ ⊆ NB ->
  (forall q r, isq (NB ++ NB') (LB ++ LB') q r <-> isq NB LB q r \/ (q = qn /\ r = p)) ->
  NoDup (NB ++ NB') -> NoDup (LB ++ LB') ->
  (forall r, r ∈ NB' -> valid_quad k r /\ level r < k) -> (forall r, r ∈ LB' -> valid_quad k r /\ level r = k) ->
  quadNodePoolAllocated P' = length (NB ++ NB') -> quadLeafPoolAllocated P' = length (LB ++ LB') ->
  (forall q r, isq NB LB q r -> qhead P' q = qhead P q) ->
  (forall i r, NB !! i = Some r -> quadNodePool P' !! i = quadNodePool P !! i) ->
  (exists h, qhead P' qn = Ret h /\ fresh_head p h /\ q_parent h = None) ->
  QInv k (NB ++ NB') (LB ++ LB') done_ P'.
Proof.
  intros HQ Hsub Hiff HN HL Hin Hout Hna Hla Hqh Hqn (hn & Hhn & Hfresh & Hnone).
  constructor; [done|done| | |done| | |].
  - intros r [Hr|Hr]%elem_of_app; [by apply (qi_inner _ _ _ _ _ HQ)|auto].
  - intros r [Hr|Hr]%elem_of_app; [by apply (qi_outer _ _ _ _ _ HQ)|auto].
  - intros q r [Hq|[-> ->]]%Hiff; [|eauto]. rewrite (Hqh q r Hq). by apply (qi_head _ _ _ _ _ HQ).
  - intros i r Hi Hr.
    assert (NB !! i = Some r) as Hi'.
    { pose proof (Hsub r Hr) as (j & Hj)%list_elem_of_lookup.
      by rewrite (NoDup_lookup _ _ _ _ HN Hi (lookup_app_l_Some _ _ _ _ Hj)). }
    destruct (qi_tree _ _ _ _ _ HQ i r Hi' Hr) as (n & cs & Hn & Hch & Hcs). exists n, cs.
    rewrite (Hqn i r Hi'). split_and!; [done..|]. eapply Forall2_impl; [exact Hcs|].
    intros c s (Hc & h & Hh & Hp). split; [by apply isq_app|]. exists h. by rewrite (Hqh c s Hc).
  - intros q r h [Hq|[-> ->]]%Hiff Hh q' Hq'.
    + rewrite (Hqh q r Hq) in Hh. destruct (qi_parent _ _ _ _ _ HQ q r h Hq Hh q' Hq') as (i & p' & -> & Hi & Hk).
      exists i, p'. split_and!; [done|by apply lookup_app_l_Some|done].
    + rewrite Hhn in Hh. by simplify_eq.
Qed.

(** The children of quad [i] linked, the quad is complete. *)
Lemma QInv_link NB LB done_ P P' i p cs :
  QInv k NB LB done_ P -> NB !! i = Some p -> Forall2 (isq NB LB) cs (kids p) ->
  quadNodePoolAllocated P' = quadNodePoolAllocated P -> quadLeafPoolAllocated P' = quadLeafPoolAllocated P ->
  (forall q h, qhead P q = Ret h -> exists h', qhead P' q = Ret h' /\ qstatic h' = qstatic h /\
     q_parent h' = if bool_decide (q ∈ cs) then Some (QN i) else q_parent h) ->
  (exists n, quadNodePool P' !! i = Some n /\ children n = Some <$> cs) ->
  (forall j, j <> i -> children <$> quadNodePool P' !! j = children <$> quadNodePool P !! j) ->
  QInv k NB LB (p :: done_) P'.
Proof.
  intros HQ Hi Hcs Hna Hla Hqh (n & Hn & Hch) Hother. constructor.
  - rewrite Hna. by apply (qi_nalloc _ _ _ _ _ HQ).
  - rewrite Hla. by apply (qi_lalloc _ _ _ _ _ HQ).
  - apply (qi_inner _ _ _ _ _ HQ).
  - apply (qi_outer _ _ _ _ _ HQ).
  - apply (qi_nodup _ _ _ _ _ HQ).
  - intros q r Hq. destruct (qi_head _ _ _ _ _ HQ q r Hq) as (h & Hh & Hf). destruct (Hqh q h Hh) as (h' & Hh' & Hs & _).
    exists h'. split; [done|by apply (fresh_static r h)].
  - intros j r Hj Hr. destruct (decide (j = i)) as [->|Hji].
    + rewrite Hi in Hj. simplify_eq. exists n, cs. split_and!; [done..|]. apply Forall2_same_length_lookup.
      split; [by eapply Forall2_length|]. intros a c s Hc Hs.
      pose proof (Forall2_lookup_lr _ _ _ _ _ _ Hcs Hc Hs) as Hisq. split; [done|].
      destruct (qi_head _ _ _ _ _ HQ c s Hisq) as (h & Hh & _). destruct (Hqh c h Hh) as (h' & Hh' & _ & Hp').
      exists h'. split; [done|]. rewrite Hp', bool_decide_true; [done|by eapply list_elem_of_lookup_2].
    + assert (r <> p) as Hne.
      { intros ->. apply Hji. destruct (qi_nodup _ _ _ _ _ HQ) as [HN _]. exact (NoDup_lookup _ _ _ _ HN Hj Hi). }
      destruct (qi_tree _ _ _ _ _ HQ j r Hj) as (m & ds & Hm & Hds & Hf); [set_solver|].
      specialize (Hother j Hji). rewrite Hm in Hother. apply fmap_Some in Hother as (m' & Hm' & Em).
      exists m', ds. split_and!; [done|by rewrite <- Em|]. apply Forall2_same_length_lookup. split; [by eapply Forall2_length|].
      intros a c s Hc Hs. destruct (Forall2_lookup_lr _ _ _ _ _ _ Hf Hc Hs) as (Hisq & h & Hh & Hp). split; [done|].
      destruct (Hqh c h Hh) as (h' & Hh' & _ & Hp'). exists h'. split; [done|]. rewrite Hp', bool_decide_false; [done|].
      intros (b & Hb)%list_elem_of_lookup. destruct (Forall2_lookup_l _ _ _ _ _ Hcs Hb) as (s' & Hs' & Hisq').
      assert (s' = s) as -> by (destruct c; cbn in *; congruence).
      apply Hne. apply (kids_unique r p s); by eapply list_elem_of_lookup_2.
  - intros q r h' Hq Hh' q' Hq'. destruct (qi_head _ _ _ _ _ HQ q r Hq) as (h & Hh & _).
    destruct (Hqh q h Hh) as (h2 & Hh2 & _ & Hp). rewrite Hh2 in Hh'. simplify_eq. rewrite Hp in Hq'.
    case_bool_decide as Hin.
    + simplify_eq. exists i, p. split_and!; [done..|]. apply list_elem_of_lookup in Hin as (b & Hb).
      destruct (Forall2_lookup_l _ _ _ _ _ Hcs Hb) as (s' & Hs' & Hisq').
      assert (s' = r) as -> by (destruct q; cbn in *; congruence). by eapply list_elem_of_lookup_2.
    + by apply (qi_parent _ _ _ _ _ HQ q r h).
Qed.

(** The assignments that link node [i] to its children. *)
Definition link_children (i : nat) (cs : list qptr) (P : Pools) : Pools :=
  fold_left (fun P c => upd_qhead c (set_q_parent (Some (QN i))) P) cs
    (upd_node i (fun o => mkQuadNode (qn_head o) (centerVertNode o) (Some <$> cs)) P).

Lemma upd_qhead_children c f P j : children <$> quadNodePool (upd_qhead c f P) !! j = children <$> quadNodePool P !! j.
Proof.
  destruct c; cbn; [|done]. rewrite list_lookup_alter. case_decide; [subst|done]. by destruct (quadNodePool P !! j).
Qed.

Lemma fold_parent_head i cs P q h : qhead P q = Ret h ->
  qhead (fold_left (fun P c => upd_qhead c (set_q_parent (Some (QN i))) P) cs P) q =
    Ret (if bool_decide (q ∈ cs) then set_q_parent (Some (QN i)) h else h).
Proof.
  revert P h. induction cs as [|c cs IH]; intros P h Hh; cbn [fold_left]; [by rewrite bool_decide_false by set_solver|].
  destruct (decide (c = q)) as [->|Hne].
  - rewrite (IH _ (set_q_parent (Some (QN i)) h)) by (rewrite qhead_upd_qhead, decide_True, Hh by done; done).
    rewrite (bool_decide_true (q ∈ q :: cs)) by set_solver. by case_bool_decide.
  - rewrite (IH _ h) by (by rewrite qhead_upd_qhead, decide_False by done).
    f_equal. by rewrite (bool_decide_ext (q ∈ c :: cs) (q ∈ cs)) by set_solver.
Qed.

Lemma fold_parent_frame i cs P :
  let P' := fold_left (fun P c => upd_qhead c (set_q_parent (Some (QN i))) P) cs P in
  vertNodePool P' = vertNodePool P /\ quadNodePoolAllocated P' = quadNodePoolAllocated P /\
  quadLeafPoolAllocated P' = quadLeafPoolAllocated P /\ length (quadNodePool P') = length (quadNodePool P) /\
  length (quadLeafPool P') = length (quadLeafPool P) /\
  forall j, children <$> quadNodePool P' !! j = children <$> quadNodePool P !! j.
Proof.
  revert P. induction cs as [|c cs IH]; intros P; [done|]. cbn [fold_left].
  destruct (IH (upd_qhead c (set_q_parent (Some (QN i))) P)) as (H1 & H2 & H3 & H4 & H5 & H6).
  split_and!; [rewrite H1|rewrite H2|rewrite H3|rewrite H4|rewrite H5|intros j; rewrite H6, upd_qhead_children];
    destruct c; cbn; rewrite ?length_alter; done.
Qed.

Lemma link_children_spec i cs P n : quadNodePool P !! i = Some n ->
  let P' := link_children i cs P in
  vertNodePool P' = vertNodePool P /\ quadNodePoolAllocated P' = quadNodePoolAllocated P /\
  quadLeafPoolAllocated P' = quadLeafPoolAllocated P /\ length (quadNodePool P') = length (quadNodePool P) /\
  length (quadLeafPool P') = length (quadLeafPool P) /\
  (children <$> quadNodePool P' !! i = Some (Some <$> cs)) /\
  (forall j, j <> i -> children <$> quadNodePool P' !! j = children <$> quadNodePool P !! j) /\
  forall q h, qhead P q = Ret h -> qhead P' q = Ret (if bool_decide (q ∈ cs) then set_q_parent (Some (QN i)) h else h).
Proof.
  intros Hn. unfold link_children.
  set (P0 := upd_node i _ P). destruct (fold_parent_frame i cs P0) as (H1 & H2 & H3 & H4 & H5 & H6).
  split_and!; [by rewrite H1|by rewrite H2|by rewrite H3|rewrite H4; apply length_alter|by rewrite H5| | |].
  - rewrite H6. cbn. by rewrite list_lookup_alter_eq, Hn.
  - intros j Hj. rewrite H6. cbn. by rewrite list_lookup_alter_ne.
  - intros q h Hh. apply fold_parent_head. rewrite <- Hh. destruct q as [j|j]; [|done]. cbn. unfold vec_at.
    rewrite list_lookup_alter. case_decide; [subst j|done]. by rewrite Hn.
Qed.
End Linking.
End Linking.

(** ** The recursion that builds the quads *)
Module Building.
Import Quads Linking.

Section Building.
Context (junk : vec3) (k : Z) (Hk : 0 <= k <= 12).
Context (C : Config) (orig : coord -> Vertex) (NN LL : nat).

Definition cfg_ok : Prop :=
  maxLevelVerticesLength C = 2 ^ k + 1 /\ maxLevel C = k /\
  forall l, 0 <= l <= k -> at_Z (vertNodesLevelOffset C) l = Ret (offset l).
Context (HC : cfg_ok).

Record BInv (NB LB done_ : list coord) (P : Pools) : Prop := mkBInv {
  bi_vlen : length (vertNodePool P) = total k;
  bi_nlen : length (quadNodePool P) = NN;
  bi_llen : length (quadLeafPool P) = LL;
  bi_orig : forall c, valid k c -> exists x, vertNodePool P !! vid c = Some x /\ v_activeFrame x = 0 /\ originalVertex x = orig c;
  bi_vok : VOk k done_ P;
  bi_done : forall p c, p ∈ done_ -> c ∈ nine p -> parented (lkv P) c;
  bi_sub : done_ ⊆ NB;
  bi_adj : AInv k NB LB P;
  bi_q : QInv k NB LB done_ P
}.

(** [getVertNode] finds the node with the coordinates of its level. *)
Lemma getVertNode_ok P l x y s : length (vertNodePool P) = total k -> valid k (l, x, y) -> s = 2 ^ (k - l) ->
  getVertNode C P l (x * s) (y * s) = Ret (vid (l, x, y)).
Proof.
  intros Hlen Hv ->. destruct HC as (_ & Hmax & Hoff). pose proof Hv as (Hl & Hx & Hy). unfold level, col, row in *. cbn in Hl, Hx, Hy.
  pose proof (total_small k ltac:(lia)) as Htot.
  assert (forall z, 0 <= z -> (Z.to_nat z < total k)%nat -> exists n, at_Z (vertNodePool P) z = Ret n) as Hat.
  { intros z Hz Hlt. unfold at_Z, vec_at. rewrite (proj2 (Z.leb_le 0 z)) by done.
    destruct (lookup_lt_is_Some_2 (vertNodePool P) (Z.to_nat z)) as [n ->]; [by rewrite Hlen|eauto]. }
  pose proof (vid_lt k (l, x, y) Hv) as Hvid. unfold vid, level, col, row in *. cbn in Hvid |- *.
  pose proof (offset_nonneg l) as Ho. pose proof (pow2_pos l ltac:(lia)) as Hp.
  unfold getVertNode. rewrite Hoff by done. rewrite bind_Ret.
  destruct (Hat (offset l)) as (n & ->); [done|nia|]. rewrite bind_Ret, Hmax.
  rewrite (u32_small (k - l)) by lia. rewrite (proj2 (Z.leb_gt 32 (k - l))) by lia.
  rewrite !Z.shiftr_div_pow2, !Z.div_mul by (apply Z.pow_nonzero || idtac; lia).
  rewrite Z.shiftl_1_l. assert (2 ^ l <= 2 ^ 12) by (apply Z.pow_le_mono_r; lia).
  rewrite (u32_small (2 ^ l + 1)) by (cbn in *; lia).
  assert (0 <= offset l + y * (2 ^ l + 1) + x) as Hnn by nia. change (2 ^ 32) with 4294967296 in Htot.
  rewrite (u32_small (_ + _)) by (split; [done|clear - Hvid Htot Hnn; lia]).
  destruct (Hat (offset l + y * (2 ^ l + 1) + x)) as (m & ->); [nia|done|]. by rewrite bind_Ret.
Qed.

Lemma corners_ok P p s : length (vertNodePool P) = total k -> valid_quad k p -> s = 2 ^ (k - level p) ->
  Terrain.corners C P (level p) (col p * s) (row p * s) s = Ret (vid <$> corners p).
Proof.
  intros Hlen Hp Hs. pose proof (fun c => corners_valid k p c Hp) as Hcv. destruct p as [[l x] y].
  unfold level, col, row in *. cbn [fst snd] in *. unfold Terrain.corners.
  replace (x * s + s) with ((x + 1) * s) by lia. replace (y * s + s) with ((y + 1) * s) by lia.
  assert (forall c, c ∈ corners (l, x, y) -> valid k c) as Hv by (intros c Hc; by apply Hcv).
  rewrite !getVertNode_ok by (done || (apply Hv; in_list)). done.
Qed.

Lemma sba_head P P' q : same_but_adj P P' -> qhead P' q = qhead P q.
Proof. intros []. unfold qhead. destruct q; congruence. Qed.

(** Replacing what the invariant says of the adjacency. *)
Lemma BInv_adj NB LB done_ P P' : BInv NB LB done_ P -> same_but_adj P P' -> AInv k NB LB P' -> BInv NB LB done_ P'.
Proof.
  intros HB HS HA. pose proof (fun v => sba_lkv P P' v HS) as El.
  assert (forall c, parented (lkv P) c -> parented (lkv P') c) as Hpar.
  { intros c (x & Hx & Hp). exists x. by rewrite El. }
  destruct HB as [B1 B2 B3 B4 [B5a B5b] B6 B7 B8 B9]. constructor; [| | | | |intros ? ? ? ?; apply Hpar; by eapply B6|done|done|].
  - by rewrite (sba_length _ _ HS).
  - by rewrite (sba_nodes _ _ HS).
  - by rewrite (sba_leaves _ _ HS).
  - intros c Hc. destruct (B4 c Hc) as (x & Lx & Hx). pose proof (sba_vert _ _ HS (vid c)) as E. rewrite Lx in E.
    destruct (vertNodePool P' !! vid c) as [x'|] eqn:L'; [|done]. cbn in E. simplify_eq. exists x'. split; [done|]. congruence.
  - split; [by apply (Forest_ext k (lkv P))|by apply (Centers_ext k (lkv P))].
  - constructor; try by apply B9.
    + rewrite (sba_nalloc _ _ HS). by apply B9.
    + rewrite (sba_lalloc _ _ HS). by apply B9.
    + intros q p Hq. rewrite (sba_head P P' q HS). by apply B9.
    + intros i p Hi Hp. destruct (qi_tree _ _ _ _ _ B9 i p Hi Hp) as (n & cs & Hn & Hch & Hcs). exists n, cs.
      rewrite (sba_nodes _ _ HS). split_and!; [done..|]. eapply Forall2_impl; [exact Hcs|].
      intros c r (Hc & h & Hh & Hpar'). split; [done|]. exists h. by rewrite (sba_head P P' c HS).
    + intros q p h Hq Hh. rewrite (sba_head P P' q HS) in Hh. by eapply qi_parent.
Qed.

(** Registering a quad at some of its corners. *)
Lemma register_ok NB LB done_ q p l P : BInv NB LB done_ P -> isq NB LB q p -> l ⊆ corners p -> valid_quad k p ->
  exists P', foldM (fun v => addAdjcentQuad v q) (vid <$> l) P = Ret P' /\ BInv NB LB done_ P'.
Proof.
  intros HB Hq Hl Hp. revert P HB. induction l as [|c l IH]; intros P HB; cbn; [eauto|].
  destruct (corners_valid k p c Hp) as [Hc _]; [set_solver|].
  destruct (addAdjcentQuad_ok k NB LB done_ P c q p (bi_q _ _ _ _ HB) (bi_adj _ _ _ _ HB) Hc Hq) as (P1 & -> & HS & HA); [set_solver|].
  rewrite bind_Ret. apply IH; [set_solver|]. by eapply BInv_adj.
Qed.

(** The same for a leaf, where the source tests the level of the node first. *)
Lemma register_leaf_ok NB LB done_ q p l P : BInv NB LB done_ P -> isq NB LB q p -> l ⊆ corners p -> valid_quad k p ->
  exists P', foldM (fun v P => n ← vnode P v; if v_level n =? level p then addAdjcentQuad v q P else Ret P) (vid <$> l) P = Ret P'
             /\ BInv NB LB done_ P'.
Proof.
  intros HB Hq Hl Hp. revert P HB. induction l as [|c l IH]; intros P HB; cbn; [eauto|].
  destruct (corners_valid k p c Hp) as [Hc El]; [set_solver|].
  destruct (node_at k done_ P c (bi_vok _ _ _ _ HB) Hc) as (n & _ & -> & Hn). rewrite bind_Ret, Hn, El, Z.eqb_refl.
  destruct (addAdjcentQuad_ok k NB LB done_ P c q p (bi_q _ _ _ _ HB) (bi_adj _ _ _ _ HB) Hc Hq) as (P1 & -> & HS & HA); [set_solver|].
  rewrite bind_Ret. apply IH; [set_solver|]. by eapply BInv_adj.
Qed.

Lemma lookup_snoc_iff {A} (l : list A) x i y : (l ++ [x]) !! i = Some y <-> l !! i = Some y \/ (i = length l /\ y = x).
Proof.
  rewrite lookup_app. destruct (l !! i) as [z|] eqn:E.
  - apply lookup_lt_Some in E. split; [naive_solver|]. intros [?|[-> _]]; [done|lia].
  - apply lookup_ge_None in E. rewrite list_lookup_singleton_Some. split; [|intros [?|[-> ->]]; [done|split; [lia|done]]].
    intros [Hi ->]. right. split; [lia|done].
Qed.

Lemma isq_snoc_node NB LB p q r : isq (NB ++ [p]) (LB ++ []) q r <-> isq NB LB q r \/ (q = QN (length NB) /\ r = p).
Proof. rewrite app_nil_r. destruct q; cbn; [rewrite lookup_snoc_iff|]; naive_solver. Qed.

Lemma isq_snoc_leaf NB LB p q r : isq (NB ++ []) (LB ++ [p]) q r <-> isq NB LB q r \/ (q = QL (length LB) /\ r = p).
Proof. rewrite app_nil_r. destruct q; cbn; [|rewrite lookup_snoc_iff]; naive_solver. Qed.

Lemma wrap4_small z : 0 <= z <= 12 -> wrapU 4 z = z.
Proof. intros. apply wrapU_small. cbn. lia. Qed.

(** The vertex pool and the collapsed quads are the same, the quads have grown. *)
Lemma BInv_extend NB LB NB' LB' done_ P P' : BInv NB LB done_ P -> vertNodePool P' = vertNodePool P ->
  length (quadNodePool P') = NN -> length (quadLeafPool P') = LL ->
  QInv k (NB ++ NB') (LB ++ LB') done_ P' -> BInv (NB ++ NB') (LB ++ LB') done_ P'.
Proof.
  intros [B1 B2 B3 B4 B5 B6 B7 B8 B9] Hv Hn Hl HQ.
  assert (lkv P' = lkv P) as El by (unfold lkv; by rewrite Hv).
  constructor; rewrite ?Hv; try done.
  - unfold VOk. by rewrite El.
  - by rewrite El.
  - set_solver.
  - intros c Hc. destruct (B8 c Hc) as (x & qs & Lx & Ha). exists x, qs. rewrite Hv. split; [done|by apply adjacent_app].
Qed.

Lemma leaf_added NB LB done_ P p cs : BInv NB LB done_ P -> valid_quad k p -> level p = k -> NoDup (LB ++ [p]) ->
  (length LB < LL)%nat -> cs = vid <$> corners p ->
  BInv (NB ++ []) (LB ++ [p]) done_
    (upd_leaf (length LB) (fun _ => mkQuadLeaf (mkHead 0 NS_ACTIVE (wrapU 4 (level p)) TM_NW_SE None (Some <$> cs)))
       (mkPools (vertNodePool P) (quadNodePool P) (quadLeafPool P) (quadNodePoolAllocated P) (S (quadLeafPoolAllocated P)))).
Proof.
  intros HB Hp Hl Hnd Hroom ->. pose proof (bi_q _ _ _ _ HB) as HQ.
  apply (BInv_extend NB LB [] [p] done_ P); [done|done|by rewrite <- (bi_nlen _ _ _ _ HB)| |].
  { cbn. rewrite length_alter. by apply (bi_llen _ _ _ _ HB). }
  apply (QInv_extend k NB LB [] [p] done_ P _ (QL (length LB)) p); try done.
  - by apply (bi_sub _ _ _ _ HB).
  - intros. apply isq_snoc_leaf.
  - rewrite app_nil_r. by apply (qi_nodup _ _ _ _ _ HQ).
  - intros r Hr. by apply elem_of_nil in Hr.
  - intros r ->%list_elem_of_singleton. done.
  - cbn. rewrite app_nil_r. by apply (qi_nalloc _ _ _ _ _ HQ).
  - cbn. rewrite (qi_lalloc _ _ _ _ _ HQ), length_app. cbn. lia.
  - intros [i|i] r Hr; [done|]. cbn in Hr |- *. apply lookup_lt_Some in Hr. unfold vec_at. by rewrite list_lookup_alter_ne by lia.
  - destruct (lookup_lt_is_Some_2 (quadLeafPool P) (length LB)) as [o Ho]; [by rewrite (bi_llen _ _ _ _ HB)|].
    eexists. split; [cbn; unfold vec_at; rewrite list_lookup_alter_eq, Ho; done|]. split; [|done].
    unfold fresh_head. cbn [q_activeFrame q_state q_level cornerVertNodes]. split_and!; [done|done| |done].
    apply wrap4_small. lia.
Qed.

Lemma node_added NB LB done_ P p center cs : BInv NB LB done_ P -> valid_quad k p -> level p < k -> NoDup (NB ++ [p]) ->
  (length NB < NN)%nat -> cs = vid <$> corners p ->
  BInv (NB ++ [p]) (LB ++ []) done_
    (upd_node (length NB) (fun o => mkQuadNode
        (mkHead 0 NS_ACTIVE (wrapU 4 (level p)) (triangulationMode (qn_head o)) None (Some <$> cs)) (Some center) (children o))
       (mkPools (vertNodePool P) (quadNodePool P) (quadLeafPool P) (S (quadNodePoolAllocated P)) (quadLeafPoolAllocated P))).
Proof.
  intros HB Hp Hl Hnd Hroom ->. pose proof (bi_q _ _ _ _ HB) as HQ.
  apply (BInv_extend NB LB [p] [] done_ P); [done|done| |by rewrite <- (bi_llen _ _ _ _ HB)|].
  { cbn. rewrite length_alter. by apply (bi_nlen _ _ _ _ HB). }
  apply (QInv_extend k NB LB [p] [] done_ P _ (QN (length NB)) p); try done.
  - by apply (bi_sub _ _ _ _ HB).
  - intros. apply isq_snoc_node.
  - rewrite app_nil_r. by apply (qi_nodup _ _ _ _ _ HQ).
  - intros r ->%list_elem_of_singleton. done.
  - intros r Hr. by apply elem_of_nil in Hr.
  - cbn. rewrite (qi_nalloc _ _ _ _ _ HQ), length_app. cbn. lia.
  - cbn. rewrite app_nil_r. by apply (qi_lalloc _ _ _ _ _ HQ).
  - intros [i|i] r Hr; [|done]. cbn in Hr |- *. apply lookup_lt_Some in Hr. unfold vec_at. by rewrite list_lookup_alter_ne by lia.
  - intros i r Hr%lookup_lt_Some. cbn. by rewrite list_lookup_alter_ne by lia.
  - destruct (lookup_lt_is_Some_2 (quadNodePool P) (length NB)) as [o Ho]; [by rewrite (bi_nlen _ _ _ _ HB)|].
    eexists. split; [cbn; unfold vec_at; rewrite list_lookup_alter_eq, Ho; done|]. split; [|done].
    unfold fresh_head. cbn [q_activeFrame q_state q_level cornerVertNodes qn_head]. split_and!; [done|done| |done].
    apply wrap4_small. destruct Hp as (? & _). lia.
Qed.

(** Building a leaf. *)
Lemma build_leaf_ok NB LB done_ P p : BInv NB LB done_ P -> valid_quad k p -> level p = k -> NoDup (LB ++ [p]) ->
  (length LB < LL)%nat ->
  exists P' q, build_leaf C (level p) (col p * 1) (row p * 1) 1 P = Ret (P', q) /\
    BInv NB (LB ++ [p]) done_ P' /\ isq NB (LB ++ [p]) q p.
Proof.
  intros HB Hp Hl Hnd Hroom. unfold build_leaf, allocQuadLeaf.
  rewrite (bi_llen _ _ _ _ HB), (qi_lalloc _ _ _ _ _ (bi_q _ _ _ _ HB)), bool_decide_false by lia. cbn [deref]. rewrite bind_Ret.
  rewrite corners_ok by (cbn; first [by apply (bi_vlen _ _ _ _ HB) | done | (rewrite Hl, Z.sub_diag; done)]). rewrite bind_Ret.
  pose proof (leaf_added NB LB done_ P p _ HB Hp Hl Hnd Hroom eq_refl) as HB1.
  rewrite (qi_lalloc _ _ _ _ _ (bi_q _ _ _ _ HB)) in HB1. set (P1 := upd_leaf _ _ _) in *.
  destruct (register_leaf_ok _ _ done_ (QL (length LB)) p (corners p) P1 HB1) as (P2 & -> & HB2); [|done|done|].
  { apply isq_snoc_leaf. by right. }
  rewrite bind_Ret. rewrite app_nil_r in HB2. exists P2, (QL (length LB)). split_and!; [done|done|]. cbn.
  apply lookup_snoc_iff. by right.
Qed.

(** Linking a quad to its built children and collapsing it. *)
Lemma link_collapse_ok NB LB done_ P i p cs : BInv NB LB done_ P -> NB !! i = Some p -> p ∉ done_ ->
  Forall2 (isq NB LB) cs (kids p) ->
  exists P', collapseQuad junk (QN i) (link_children i cs P) = Ret P' /\ BInv NB LB (p :: done_) P'.
Proof.
  intros HB Hi Hnd Hcs. pose proof (bi_q _ _ _ _ HB) as HQ.
  destruct (qi_inner _ _ _ _ _ HQ p (list_elem_of_lookup_2 _ _ _ Hi)) as [Hp Hlt].
  destruct (qi_head _ _ _ _ _ HQ (QN i) p Hi) as (h & Hh & Hfresh).
  assert (exists n, quadNodePool P !! i = Some n) as (n & Hn).
  { cbn in Hh. unfold vec_at in Hh. destruct (quadNodePool P !! i); [eauto|done]. }
  destruct (link_children_spec i cs P n Hn) as (L1 & L2 & L3 & L4 & L5 & L6 & L7 & L8). set (P1 := link_children i cs P) in *.
  assert (lkv P1 = lkv P) as El by (unfold lkv; by rewrite L1).
  assert (forall q r, isq NB LB q r -> head_at P1 q r) as Hheads.
  { intros q r Hq. destruct (qi_head _ _ _ _ _ HQ q r Hq) as (g & Hg & (_ & _ & _ & Hgc)). eexists. split; [by apply L8|].
    by case_bool_decide. }
  assert (children_at P1 (QN i) p) as Hch.
  { exists cs. split; [eapply Forall2_impl; [exact Hcs|]; auto|]. intros j c Hj. cbn. apply fmap_Some in L6 as (m & Hm & Em).
    unfold vec_at. rewrite Hm, bind_Ret. unfold get4, vec_at. by rewrite <- Em, list_lookup_fmap, Hj. }
  destruct (collapseQuad_ok junk k done_ P1 (QN i) p) as (P2 & m & -> & [F V G] & R); try done.
  { unfold VOk. rewrite El. by apply (bi_vok _ _ _ _ HB). }
  { rewrite L1. by apply (bi_vlen _ _ _ _ HB). }
  { auto. }
  eexists. split; [done|]. destruct HB as [B1 B2 B3 B4 B5 B6 B7 B8 _]. constructor.
  - cbn. by rewrite (sbl_length _ _ F), L1.
  - cbn. rewrite length_alter, (sbl_nodes _ _ F). congruence.
  - cbn. rewrite (sbl_leaves _ _ F). congruence.
  - intros c Hc. destruct (B4 c Hc) as (x & Lx & Hx). pose proof (sbl_rest _ _ F (vid c)) as E. rewrite L1, Lx in E.
    cbn. destruct (vertNodePool P2 !! vid c) as [x'|]; [|done]. cbn in E. unfold rest in E. simplify_eq. exists x'. split; [done|].
    destruct Hx. split; congruence.
  - done.
  - intros r c Hr Hc. change (parented (lkv P2) c). apply elem_of_cons in Hr as [->|Hr]; [by apply R|].
    apply G; [|rewrite El; by eapply B6]. destruct (qi_inner _ _ _ _ _ HQ r (B7 r Hr)) as [? ?]. by apply (nine_valid k r).
  - intros r [->|Hr]%elem_of_cons; [by eapply list_elem_of_lookup_2|auto].
  - intros c Hc. destruct (B8 c Hc) as (x & qs & Lx & Hx). pose proof (sbl_rest _ _ F (vid c)) as E. rewrite L1, Lx in E.
    cbn. destruct (vertNodePool P2 !! vid c) as [x'|]; [|done]. cbn in E. unfold rest in E. simplify_eq. exists x', qs. split; [done|].
    unfold adjacent in *. destruct Hx as (Y1 & Y2 & Y3). split; [congruence|split; [congruence|exact Y3]].
  - apply (QInv_link k NB LB done_ P _ i p cs); try done.
    + cbn. by rewrite (sbl_nalloc _ _ F).
    + cbn. by rewrite (sbl_lalloc _ _ F).
    + intros q g Hg. specialize (L8 q g Hg). rewrite <- (qhead_frame P1 P2) in L8 by done.
      rewrite qhead_upd_qhead, L8. destruct (decide (QN i = q)); eexists; (split; [done|]); by case_bool_decide.
    + apply fmap_Some in L6 as (m1 & Hm1 & Em1). cbn. rewrite list_lookup_alter_eq, (sbl_nodes _ _ F), Hm1. eexists. by split.
    + intros j Hj. rewrite upd_qhead_children, (sbl_nodes _ _ F). by apply L7.
Qed.

(** The recursion: the subtree of a quad is built in full, in the order of the
    reference lists, and every inner quad of it is collapsed. *)
Definition Built (d n : nat) (p : coord) : Prop := forall NB LB done_ P,
  BInv NB LB done_ P -> valid_quad k p -> (forall r, r ∈ inner d p -> r ∉ done_) ->
  NoDup (NB ++ inner d p) -> NoDup (LB ++ leaves d p) ->
  (length (NB ++ inner d p) <= NN)%nat -> (length (LB ++ leaves d p) <= LL)%nat ->
  exists P' q done',
    recursiveBuildQuadNodes junk n C (level p) (col p * 2 ^ Z.of_nat d) (row p * 2 ^ Z.of_nat d) (2 ^ Z.of_nat d) P = Ret (P', q) /\
    BInv (NB ++ inner d p) (LB ++ leaves d p) done' P' /\
    isq (NB ++ inner d p) (LB ++ leaves d p) q p /\
    forall r, r ∈ done' <-> r ∈ done_ \/ r ∈ inner d p.

Lemma built_leaf n p : level p = k -> Built 0 n p.
Proof.
  intros Hl NB LB done_ P HB Hp _ _ HnL _ HlL. cbn [inner leaves] in *. rewrite length_app in HlL. cbn in HlL.
  destruct (build_leaf_ok NB LB done_ P p HB Hp Hl HnL) as (P' & q & E & HB' & Hq); [lia|].
  exists P', q, done_. rewrite app_nil_r. split_and!; [destruct n; exact E|done|done|]. set_solver.
Qed.

(** Four subtrees one after the other. *)
Lemma built_kids d n l x y NB LB done_ P :
  Forall (Built d n) (kids (l, x, y)) -> 0 <= l < k -> valid_quad k (l, x, y) -> BInv NB LB done_ P ->
  (forall r, r ∈ kids (l, x, y) ≫= inner d -> r ∉ done_) ->
  NoDup (NB ++ (kids (l, x, y) ≫= inner d)) -> NoDup (LB ++ (kids (l, x, y) ≫= leaves d)) ->
  (length (NB ++ (kids (l, x, y) ≫= inner d)) <= NN)%nat -> (length (LB ++ (kids (l, x, y) ≫= leaves d)) <= LL)%nat ->
  let h := 2 ^ Z.of_nat d in
  let x0 := x * (2 * h) in let y0 := y * (2 * h) in
  let rec := recursiveBuildQuadNodes junk n C (l + 1) in
  exists P' cs done',
    (forall X (f : Pools -> qptr -> qptr -> qptr -> qptr -> outcome X),
       ('(P, c0) ← rec x0 y0 h P; '(P, c1) ← rec (x0 + h) y0 h P; '(P, c2) ← rec (x0 + h) (y0 + h) h P;
        '(P, c3) ← rec x0 (y0 + h) h P; f P c0 c1 c2 c3) =
       f P' (nth 0 cs (QN 0)) (nth 1 cs (QN 0)) (nth 2 cs (QN 0)) (nth 3 cs (QN 0))) /\
    BInv (NB ++ (kids (l, x, y) ≫= inner d)) (LB ++ (kids (l, x, y) ≫= leaves d)) done' P' /\
    Forall2 (isq (NB ++ (kids (l, x, y) ≫= inner d)) (LB ++ (kids (l, x, y) ≫= leaves d))) cs (kids (l, x, y)) /\
    forall r, r ∈ done' <-> r ∈ done_ \/ r ∈ kids (l, x, y) ≫= inner d.
Proof.
  intros HK Hl Hp HB Hfree HnN HnL HlN HlL h x0 y0 rec.
  assert (forall r, r ∈ kids (l, x, y) -> valid_quad k r) as Hkv.
  { intros r Hr. apply (kids_valid k (l, x, y) r Hp); [unfold level; cbn; lia|done]. }
  assert (forall r r' q, r ∈ kids (l, x, y) -> r' ∈ kids (l, x, y) -> q ∈ inner d r -> q ∈ inner d r' -> r = r') as Hdis.
  { intros r r' q Hr Hr' Hq Hq'. apply inner_under in Hq as [Hq _], Hq' as [Hq' _]. apply (under_same r r' q); [|done..].
    by rewrite (kids_level _ _ Hr), (kids_level _ _ Hr'). }
  pose proof (kids_NoDup (l, x, y)) as Hnd.
  unfold kids in HK, Hkv, Hfree, HnN, HnL, HlN, HlL, Hdis, Hnd |- *.
  set (r0 := (l + 1, 2 * x, 2 * y)) in *. set (r1 := (l + 1, 2 * x + 1, 2 * y)) in *.
  set (r2 := (l + 1, 2 * x + 1, 2 * y + 1)) in *. set (r3 := (l + 1, 2 * x, 2 * y + 1)) in *.
  cbn [mbind list_bind] in *. rewrite !app_nil_r in *.
  inversion HK as [|? ? K0 HK1]; subst. inversion HK1 as [|? ? K1 HK2]; subst.
  inversion HK2 as [|? ? K2 HK3]; subst. inversion HK3 as [|? ? K3 _]; subst.
  rewrite !app_assoc in *.
  pose proof (proj1 (proj1 (NoDup_app _ _) HnN)) as N2. pose proof (proj1 (proj1 (NoDup_app _ _) N2)) as N1.
  pose proof (proj1 (proj1 (NoDup_app _ _) N1)) as N0.
  pose proof (proj1 (proj1 (NoDup_app _ _) HnL)) as M2. pose proof (proj1 (proj1 (NoDup_app _ _) M2)) as M1.
  pose proof (proj1 (proj1 (NoDup_app _ _) M1)) as M0.
  assert (r0 ∈ [r0; r1; r2; r3] /\ r1 ∈ [r0; r1; r2; r3] /\ r2 ∈ [r0; r1; r2; r3] /\ r3 ∈ [r0; r1; r2; r3]) as (I0 & I1 & I2 & I3)
    by (rewrite !elem_of_cons; tauto).
  assert (r1 <> r0 /\ r2 <> r0 /\ r2 <> r1 /\ r3 <> r0 /\ r3 <> r1 /\ r3 <> r2) as (N10 & N20 & N21 & N30 & N31 & N32).
  { unfold r0, r1, r2, r3. split_and!; intros E; injection E; lia. }
  assert (forall r, r ∈ inner d r0 \/ r ∈ inner d r1 \/ r ∈ inner d r2 \/ r ∈ inner d r3 -> r ∉ done_) as Hfree'.
  { intros r Hr. apply Hfree. rewrite !elem_of_app. tauto. }
  clear Hfree. rewrite !length_app in HlN, HlL.
  destruct (K0 NB LB done_ P HB) as (P0 & q0 & D0 & E0 & B0 & Q0 & S0);
    [by apply Hkv|intros; apply Hfree'; tauto|done|done|rewrite length_app; lia..|].
  destruct (K1 _ _ D0 P0 B0) as (P1 & q1 & D1 & E1 & B1 & Q1 & S1); [by apply Hkv| |done|done|rewrite !length_app; lia..|].
  { intros r Hr [Hd|Hd]%S0; [apply (Hfree' r); tauto|]. exact (N10 (Hdis r1 r0 r I1 I0 Hr Hd)). }
  destruct (K2 _ _ D1 P1 B1) as (P2 & q2 & D2 & E2 & B2 & Q2 & S2); [by apply Hkv| |done|done|rewrite !length_app; lia..|].
  { intros r Hr [[Hd|Hd]%S0|Hd]%S1; [apply (Hfree' r); tauto| |].
    - exact (N20 (Hdis r2 r0 r I2 I0 Hr Hd)).
    - exact (N21 (Hdis r2 r1 r I2 I1 Hr Hd)). }
  destruct (K3 _ _ D2 P2 B2) as (P3 & q3 & D3 & E3 & B3 & Q3 & S3); [by apply Hkv| |done|done|rewrite !length_app; lia..|].
  { intros r Hr [[[Hd|Hd]%S0|Hd]%S1|Hd]%S2; [apply (Hfree' r); tauto| | |].
    - exact (N30 (Hdis r3 r0 r I3 I0 Hr Hd)).
    - exact (N31 (Hdis r3 r1 r I3 I1 Hr Hd)).
    - exact (N32 (Hdis r3 r2 r I3 I2 Hr Hd)). }
  exists P3, [q0; q1; q2; q3], D3. split; [|split; [done|split]].
  - intros X f. unfold rec, x0, y0, h. unfold r0, r1, r2, r3, level, col, row in E0, E1, E2, E3. cbn [fst snd] in E0, E1, E2, E3.
    set (s := 2 ^ Z.of_nat d) in *.
    replace (x * (2 * s)) with (2 * x * s) by lia. replace (y * (2 * s)) with (2 * y * s) by lia.
    replace (2 * x * s + s) with ((2 * x + 1) * s) by lia. replace (2 * y * s + s) with ((2 * y + 1) * s) by lia.
    by rewrite E0, bind_Ret, E1, bind_Ret, E2, bind_Ret, E3, bind_Ret.
  - repeat constructor; [| | |done]; repeat (first [assumption | apply isq_app]).
  - intros r. rewrite S3, S2, S1, S0, !elem_of_app. tauto.
Qed.

Lemma built_ok d n p : (d <= n)%nat -> level p + Z.of_nat d = k -> valid_quad k p -> Built d n p.
Proof.
  revert n p. induction d as [|d IH]; intros n p Hn Hl Hp; [apply built_leaf; lia|].
  destruct n as [|n]; [lia|]. intros NB LB done_ P HB _ Hfree HnN HnL HlN HlL.
  assert (0 <= level p < k) as Hlev by (destruct Hp; lia).
  assert (Forall (Built d n) (kids p)) as HK.
  { apply Forall_forall. intros r Hr. destruct (kids_valid k p r Hp ltac:(lia) Hr) as [Hv Hlr]. apply IH; [lia|lia|done]. }
  cbn [inner leaves] in *. change (p :: (kids p ≫= inner d)) with ([p] ++ (kids p ≫= inner d)) in *.
  rewrite app_assoc in *.
  set (h := 2 ^ Z.of_nat d). assert (0 < h) as Hh by (apply pow2_pos; lia).
  assert (2 ^ Z.of_nat (S d) = 2 * h) as E2 by (rewrite Nat2Z.inj_succ, Z.pow_succ_r by lia; done).
  assert (2 * h = 2 ^ (k - level p)) as Ek by (rewrite <- E2; f_equal; lia).
  assert (h = 2 ^ (k - (level p + 1))) as Ek' by (unfold h; f_equal; lia).
  rewrite E2. cbn [recursiveBuildQuadNodes]. rewrite (proj2 (Z.eqb_neq (2 * h) 1)) by lia.
  assert (length NB < NN)%nat as Hroom by (rewrite !length_app in HlN; cbn in HlN; lia).
  assert (NoDup (NB ++ [p])) as Hndp by (by apply NoDup_app in HnN as [? _]).
  unfold allocQuadNode. rewrite (bi_nlen _ _ _ _ HB), (qi_nalloc _ _ _ _ _ (bi_q _ _ _ _ HB)), bool_decide_false by lia.
  cbn [deref]. rewrite bind_Ret.
  rewrite Z.shiftr_div_pow2 by lia. change (2 ^ 1) with 2. rewrite (Z.mul_comm 2 h), Z.div_mul, (Z.mul_comm h 2) by lia.
  destruct p as [[l x] y]. unfold level, col, row in *. cbn [fst snd] in *.
  assert (forall c, c ∈ nine (l, x, y) -> valid k c) as Hnv by (intros c Hc; apply (nine_valid k (l, x, y)); [done|unfold level; cbn; lia|done]).
  replace (x * (2 * h) + h) with ((2 * x + 1) * h) by lia. replace (y * (2 * h) + h) with ((2 * y + 1) * h) by lia.
  set (Pa := mkPools (vertNodePool P) _ _ _ _).
  assert (length (vertNodePool Pa) = total k) as Hva by apply (bi_vlen _ _ _ _ HB).
  rewrite (getVertNode_ok Pa (l + 1)) by (done || (apply Hnv; in_list)). rewrite bind_Ret.
  pose proof (corners_ok Pa (l, x, y) (2 * h) Hva Hp Ek) as Hco. unfold level, col, row in Hco. cbn [fst snd] in Hco.
  rewrite Hco, bind_Ret. clear Hco.
  pose proof (node_added NB LB done_ P (l, x, y) (vid (l + 1, 2 * x + 1, 2 * y + 1)) _ HB Hp ltac:(unfold level; cbn; lia) Hndp Hroom eq_refl) as HB1.
  rewrite (qi_nalloc _ _ _ _ _ (bi_q _ _ _ _ HB)) in HB1. unfold level in HB1. cbn [fst snd] in HB1. fold Pa in HB1.
  set (Pb := upd_node _ _ Pa) in *.
  destruct (register_ok _ _ done_ (QN (length NB)) (l, x, y) (corners (l, x, y)) Pb HB1) as (Pc & -> & HBc); [|done|done|].
  { apply isq_snoc_node. by right. }
  rewrite bind_Ret, app_nil_r in *.
  destruct (built_kids d n l x y (NB ++ [(l, x, y)]) LB done_ Pc HK Hlev Hp HBc) as (Pd & cs & D & Erec & HBd & Hcs & HD); try done.
  { intros r Hr. apply Hfree. by right. }
  fold h in Erec. replace (x * (2 * h) + h) with ((2 * x + 1) * h) in Erec by lia.
  replace (y * (2 * h) + h) with ((2 * y + 1) * h) in Erec by lia. rewrite Erec. clear Erec.
  assert (((NB ++ [(l, x, y)]) ++ (kids (l, x, y) ≫= inner d)) !! length NB = Some (l, x, y)) as Hi.
  { rewrite <- app_assoc, lookup_app_r, Nat.sub_diag by lia. done. }
  assert ((l, x, y) ∉ D) as HpD.
  { intros [Hd|Hd]%HD.
    - apply (Hfree (l, x, y)); [by left|done].
    - apply NoDup_app in HnN as (_ & Hdis & _). apply (Hdis (l, x, y)); [apply elem_of_app; right; by left|done]. }
  destruct (link_collapse_ok _ _ D Pd (length NB) (l, x, y) cs HBd Hi HpD Hcs) as (Pe & Ee & HBe).
  assert (exists c0 c1 c2 c3, cs = [c0; c1; c2; c3]) as (c0 & c1 & c2 & c3 & ->).
  { apply Forall2_length in Hcs. cbn in Hcs. destruct cs as [|c0 [|c1 [|c2 [|c3 [|]]]]]; try done. eauto. }
  cbn [nth]. unfold link_children in Ee. change (Some <$> [c0; c1; c2; c3]) with [Some c0; Some c1; Some c2; Some c3] in Ee. rewrite Ee, bind_Ret.
  exists Pe, (QN (length NB)), ((l, x, y) :: D). split_and!; [done|done|done|].
  intros r. rewrite elem_of_cons, HD, elem_of_app, list_elem_of_singleton. tauto.
Qed.
End Building.
End Building.
