(* ===== verification/TerrainInit.v ===== *)
(** * TerrainInit: sizes, indices and initial nodes of the quad-collapse mesh

    The parts of [build] before the quads: the loop that sizes the pools, the
    loops that fill the index buffer, and the loops that initialise the vertex
    nodes of every level. *)

From S2P Require Import Prelude Float32 Geometry Terrain TerrainGrid TerrainCollapse TerrainBuild.
From stdpp Require Import base decidable list sets.
From Stdlib Require Import ZArith SpecFloat Lia.
Import Glm Vertex Terrain Grid VertForest Views Collapse Quads Linking Building.
Local Open Scope Z_scope.


(** ** The sizes of the pools *)
Module PoolSizes.

Definition tables (len levels : Z) : Config :=
  mkConfig len (levels - 1) (replicate MAX_QUAD_LEVEL_COUNT F32.zero) (replicate MAX_QUAD_LEVEL_COUNT F32.zero)
    (replicate MAX_QUAD_LEVEL_COUNT 0).
Definition sizes (k : Z) : outcome Sizes :=
  foldM (size_level (k + 1)) (seqZ 0 (k + 1)) (mkSizes 1 2 0 0 0 (tables (2 ^ k + 1) (k + 1))).

(** What the loop must have computed for fields of 2^k + 1 points. *)
Definition sizes_right (k : Z) (s : Sizes) : bool :=
  (vertNodePoolSize s =? offset (k + 1)) && (quadNodePoolSize s =? Z.of_nat (geometric (Z.to_nat k))) &&
  (quadLeafPoolSize s =? 4 ^ k) && (maxLevelVerticesLength (s_config s) =? 2 ^ k + 1) && (maxLevel (s_config s) =? k) &&
  forallb (fun l => match at_Z (vertNodesLevelOffset (s_config s)) l with Ret o => o =? offset l | Exn _ => false end) (seqZ 0 (k + 1)) &&
  (length (vertNodesActiveDistance (s_config s)) =? 13)%nat.

Definition check (k : Z) : bool :=
  match level_count 32 (2 ^ k) 0 with Ret n => n =? k + 1 | Exn _ => false end &&
  match sizes k with Ret s => sizes_right k s | Exn _ => false end.

(** Fields of at most 4097 points have at most thirteen levels, so the claim is
    a finite one, settled by running the loop. *)
Lemma check_all : forallb check (seqZ 0 13) = true.
Proof. vm_compute. reflexivity. Qed.

Lemma sizes_ok k : 0 <= k <= 12 ->
  level_count 32 (2 ^ k) 0 = Ret (k + 1) /\
  exists s, sizes k = Ret s /\ cfg_ok k (s_config s) /\ vertNodePoolSize s = Z.of_nat (total k) /\
    quadNodePoolSize s = Z.of_nat (geometric (Z.to_nat k)) /\ quadLeafPoolSize s = Z.of_nat (4 ^ Z.to_nat k) /\
    length (vertNodesActiveDistance (s_config s)) = 13%nat.
Proof.
  intros Hk. pose proof check_all as H. rewrite forallb_forall in H. specialize (H k).
  assert (In k (seqZ 0 13)) as Hin by (apply list_elem_of_In, elem_of_seqZ; lia). specialize (H Hin).
  unfold check in H. apply andb_true_iff in H as [Hl Hs].
  destruct (level_count 32 (2 ^ k) 0) as [n|]; [|done]. apply Z.eqb_eq in Hl as ->. split; [done|].
  destruct (sizes k) as [s|]; [|done]. exists s. split; [done|]. unfold sizes_right in Hs. rewrite !andb_true_iff, !Z.eqb_eq in Hs.
  destruct Hs as ((((((H1 & H2) & H3) & H4) & H5) & H6) & H7). split_and!; [unfold cfg_ok; split_and!; [done|done|]|unfold total|done| |].
  - intros l Hl. rewrite forallb_forall in H6. specialize (H6 l). destruct (at_Z (vertNodesLevelOffset (s_config s)) l) as [o|].
    + f_equal. apply Z.eqb_eq, H6, list_elem_of_In, elem_of_seqZ. lia.
    + assert (false = true); [|done]. apply H6, list_elem_of_In, elem_of_seqZ. lia.
  - rewrite Z2Nat.id by apply offset_nonneg. done.
  - rewrite H3, Nat2Z.inj_pow, Z2Nat.id by lia. done.
  - by apply Nat.eqb_eq.
Qed.
End PoolSizes.

(** ** The index buffer *)
Module Indices.

(** The two triangles of a cell. *)
Definition cell (w x y : Z) : list Z :=
  let a := x * w + y in let b := (x + 1) * w + y in
  let c := (x + 1) * w + (y + 1) in let d := x * w + (y + 1) in
  [c; b; a; a; d; c].
Definition written (w : Z) (l : list (Z * Z)) : list Z := l ≫= fun '(x, y) => cell w x y.
Definition cells (w h : Z) : list (Z * Z) := x ← seqZ 0 (w - 1); y ← seqZ 0 (h - 1); [(x, y)].

Lemma write_at_ok vals l1 l2 i : i = Z.of_nat (length l1) -> (length vals <= length l2)%nat ->
  write_at i vals (l1 ++ l2) = Ret (l1 ++ vals ++ drop (length vals) l2).
Proof.
  revert l1 l2 i. induction vals as [|v vals IH]; intros l1 l2 i -> Hlen; cbn; [done|].
  destruct l2 as [|z l2]; [cbn in Hlen; lia|].
  assert (at_Z (l1 ++ z :: l2) (Z.of_nat (length l1)) = Ret z) as ->.
  { unfold at_Z, vec_at. rewrite (proj2 (Z.leb_le _ _)), Nat2Z.id by lia. by rewrite list_lookup_middle. }
  rewrite bind_Ret, Nat2Z.id. rewrite insert_app_r_alt, Nat.sub_diag by lia. cbn [insert list_insert].
  change (v :: l2) with ([v] ++ l2). rewrite app_assoc, IH; [by rewrite <- app_assoc| |cbn in Hlen; lia].
  rewrite length_app. cbn. lia.
Qed.

Lemma cells_length w h : 1 <= w -> 1 <= h -> Z.of_nat (length (cells w h)) = (w - 1) * (h - 1).
Proof.
  intros Hw Hh. unfold cells. rewrite (bind_length _ _ (Z.to_nat (h - 1))).
  - rewrite length_seqZ, Nat2Z.inj_mul, !Z2Nat.id by lia. done.
  - intros x _. rewrite (bind_length _ _ 1); [rewrite length_seqZ; lia|done].
Qed.

Lemma elem_of_cells w h x y : (x, y) ∈ cells w h <-> 0 <= x < w - 1 /\ 0 <= y < h - 1.
Proof.
  unfold cells. split.
  - intros (a & (b & E%list_elem_of_singleton & Hb)%list_elem_of_bind & Ha)%list_elem_of_bind. simplify_eq.
    apply elem_of_seqZ in Ha, Hb. lia.
  - intros [Hx Hy]. apply list_elem_of_bind. exists x. split; [|apply elem_of_seqZ; lia].
    apply list_elem_of_bind. exists y. split; [set_solver|apply elem_of_seqZ; lia].
Qed.

Section Fill.
Context (w h : Z) (Hw : 2 <= w) (Hh : 2 <= h) (Hsmall : w * w + h < 2 ^ 31) (Hcount : (w - 1) * (h - 1) * 6 < 2 ^ 31).

Lemma cell_wraps x y : 0 <= x < w - 1 -> 0 <= y < h - 1 ->
  u32 <$> [i32 (u32 (u32 ((x + 1) * w) + (y + 1))); i32 (u32 (u32 ((x + 1) * w) + y)); i32 (u32 (x * w + y));
           i32 (u32 (x * w + y)); i32 (u32 (x * w + (y + 1))); i32 (u32 (u32 ((x + 1) * w) + (y + 1)))] = cell w x y.
Proof.
  intros Hx Hy. change (2 ^ 31) with 2147483648 in *.
  assert (0 <= x * w /\ (x + 1) * w <= w * w) as [Hxw Hxw'] by nia.
  assert ((x + 1) * w = x * w + w) as Ex by lia. unfold cell. cbn [fmap list_fmap].
  by unwrap.
Qed.

(** The cells written so far, the rest still zero. *)
Lemma fill_ok done_ todo n : (length todo <= n)%nat -> Forall (fun c => c ∈ cells w h) todo ->
  (6 * (length done_ + n) + 6 = 6 * length (cells w h))%nat ->
  foldM (fun '(x, y) => index_cell w ((w - 1) * (h - 1) * 6) x y) todo
    ((written w done_) ++ replicate (6 * n + 6) 0, 6 * Z.of_nat (length done_)) =
  Ret ((written w (done_ ++ todo)) ++ replicate (6 * (n - length todo) + 6) 0,
       6 * Z.of_nat (length (done_ ++ todo))).
Proof.
  intros Hlen Htodo. revert done_ n Hlen. induction Htodo as [|[x y] todo Hxy _ IH]; intros done_ n Hlen Htot.
  - rewrite app_nil_r. cbn. by replace (n - 0)%nat with n by lia.
  - destruct n as [|n]; [cbn in Hlen; lia|]. cbn [foldM]. apply elem_of_cells in Hxy as [Hx Hy].
    pose proof (cells_length w h ltac:(lia) ltac:(lia)) as Hcl. change (2 ^ 31) with 2147483648 in *.
    assert (index_cell w ((w - 1) * (h - 1) * 6) x y (written w done_ ++ replicate (6 * S n + 6) 0, 6 * Z.of_nat (length done_)) =
            Ret (written w (done_ ++ [(x, y)]) ++ replicate (6 * n + 6) 0, 6 * Z.of_nat (length (done_ ++ [(x, y)])))) as ->.
    { unfold index_cell. unwrap. rewrite (proj2 (Z.ltb_lt _ _)) by lia.
      rewrite cell_wraps by done. rewrite write_at_ok.
      - rewrite bind_Ret, drop_replicate. cbn [length cell]. unfold written. rewrite bind_app, length_app. cbn [length].
        replace (6 * S n + 6 - 6)%nat with (6 * n + 6)%nat by lia. cbn [mbind list_bind]. rewrite app_nil_r, <- app_assoc.
        f_equal. f_equal. lia.
      - unfold written. rewrite (bind_length _ _ 6); [lia|]. intros [] _. done.
      - rewrite length_replicate. cbn. lia. }
    rewrite bind_Ret. cbn [length] in Hlen |- *. rewrite IH by (rewrite ?length_app; cbn; lia).
    rewrite <- app_assoc. by replace (S n - S (length todo))%nat with (n - length todo)%nat by lia.
Qed.

Lemma resize_nil {A} n (x : A) : resize n x [] = replicate (Z.to_nat n) x.
Proof. unfold resize. by rewrite firstn_nil, Nat.sub_0_r. Qed.

(** The loops write the two triangles of every cell but the last; the six
    entries of the last cell keep their initial zero. *)
Lemma build_indices_fill :
  build_indices w h [] = Ret ((written w (removelast (cells w h))) ++ replicate 6 0).
Proof.
  change (2 ^ 31) with 2147483648 in *. unfold build_indices. rewrite resize_nil.
  assert (0 <= (w - 1) * (h - 1)) by nia. unwrap.
  rewrite foldM_nested. fold (cells w h).
  pose proof (cells_length w h ltac:(lia) ltac:(lia)) as Hcl.
  assert (cells w h <> []) as Hne by (intros E; rewrite E in Hcl; cbn in Hcl; nia).
  destruct (exists_last Hne) as (pre & [xl yl] & E). rewrite E, removelast_last.
  assert (length (cells w h) = S (length pre)) as Hlen by (rewrite E, length_app; cbn; lia).
  rewrite foldM_app. pose proof (fill_ok [] pre (length pre)) as Hfill. cbn [length app mbind list_bind Nat.add] in Hfill.
  replace (Z.to_nat ((w - 1) * (h - 1) * 6)) with (6 * length pre + 6)%nat by lia.
  rewrite Nat.sub_diag in Hfill. change (written w []) with (@nil Z) in Hfill. change (6 * Z.of_nat 0) with 0 in Hfill.
  cbn [app] in Hfill. rewrite Hfill; [|done| |lia].
  - rewrite bind_Ret. cbn [foldM]. unfold index_cell. unwrap.
    rewrite (proj2 (Z.ltb_ge _ _)) by lia. by rewrite bind_Ret.
  - apply Forall_forall. intros c Hc. rewrite E. apply elem_of_app. by left.
Qed.
End Fill.

Lemma written_bounds w h l : 2 <= w <= h -> (forall c, c ∈ l -> c ∈ cells w h) ->
  Forall (fun i => 0 <= i < w * h) (written w l).
Proof.
  intros Hwh Hl. apply Forall_forall. intros i ([x y] & Hi & Hxy)%list_elem_of_bind.
  apply Hl, elem_of_cells in Hxy as [Hx Hy].
  assert (0 <= x * w /\ (x + 1) * w = x * w + w /\ (x + 1) * w + (y + 1) < w * h) as (H0 & H1 & H2) by nia.
  unfold cell in Hi. rewrite !elem_of_cons, elem_of_nil in Hi.
  destruct Hi as [->|[->|[->|[->|[->|[->|[]]]]]]]; lia.
Qed.

(** C14. On a fresh mesh of at least 2 x 2 points the index buffer holds the two
    triangles of every cell of the height field in order, except for the last
    cell, whose six entries keep the initial zero; when the field is at least as
    high as wide, every entry is the index of a vertex. *)
Theorem indices_spec w h : 2 <= w -> 2 <= h -> w * w + h < 2 ^ 31 -> (w - 1) * (h - 1) * 6 < 2 ^ 31 ->
  exists pre, cells w h = pre ++ [(w - 2, h - 2)] /\
    build_indices w h [] = Ret (written w pre ++ replicate 6 0) /\
    (w <= h -> Forall (fun i => 0 <= i < w * h) (written w pre ++ replicate 6 0)).
Proof.
  intros Hw Hh Hs Hc. rewrite (build_indices_fill w h Hw Hh Hs Hc).
  assert (exists pre, cells w h = pre ++ [(w - 2, h - 2)]) as (pre & E).
  { unfold cells. replace (w - 1) with (Z.of_nat (S (Z.to_nat (w - 2)))) by lia. replace (h - 1) with (Z.of_nat (S (Z.to_nat (h - 2)))) by lia.
    rewrite !seqZ_S, !Z.add_0_l, !Z2Nat.id, bind_app by lia. cbn [mbind list_bind]. rewrite app_nil_r, bind_app.
    cbn [mbind list_bind app]. rewrite app_assoc. eauto. }
  exists pre. rewrite E, removelast_last. split_and!; [done|done|]. intros Hwh. apply Forall_app. split.
  - apply written_bounds; [lia|]. intros c Hin. rewrite E. apply elem_of_app. by left.
  - apply Forall_replicate. nia.
Qed.

Lemma indices_spec_witness :
  exists pre, cells 3 3 = pre ++ [(1, 1)] /\
    build_indices 3 3 [] = Ret (written 3 pre ++ replicate 6 0) /\
    (3 <= 3 -> Forall (fun i => 0 <= i < 3 * 3) (written 3 pre ++ replicate 6 0)).
Proof. apply (indices_spec 3 3); cbn; lia. Defined.
End Indices.

(** ** The vertex nodes before the quads *)
Module Init.

Section Init.
Context (k : Z) (Hk : 0 <= k <= 12) (C : Config) (HC : cfg_ok k C).
Context (vs : list Vertex) (Hvs : (2 ^ k + 1) * (2 ^ k + 1) <= Z.of_nat (length vs)).

(** The point of the height field a node stands for. *)
Definition orig (c : coord) : Vertex :=
  let s := 2 ^ (k - level c) in default vertex0 (vs !! Z.to_nat (row c * s * (2 ^ k + 1) + col c * s)).

(** The nodes in [S] are initialised; the quads are those of [P0]. *)
Definition Initialised (P0 P : Pools) (S : coord -> Prop) : Prop :=
  length (vertNodePool P) = total k /\ quadNodePool P = quadNodePool P0 /\ quadLeafPool P = quadLeafPool P0 /\
  quadNodePoolAllocated P = quadNodePoolAllocated P0 /\ quadLeafPoolAllocated P = quadLeafPoolAllocated P0 /\
  forall c, valid k c -> S c -> vertNodePool P !! vid c = Some (init_vert (level c) (orig c)).

Lemma Initialised_weaken P0 P (S S' : coord -> Prop) :
  (forall c, valid k c -> S' c -> S c) -> Initialised P0 P S -> Initialised P0 P S'.
Proof. intros HS (H1 & H2 & H3 & H4 & H5 & H6). split_and!; auto. Qed.

Lemma init_vertNode_ok P0 P S l x y s : Initialised P0 P S -> valid k (l, x, y) -> s = 2 ^ (k - l) ->
  exists P', init_vertNode C vs l (y * s) (x * s) P = Ret P' /\ Initialised P0 P' (fun c => S c \/ c = (l, x, y)).
Proof.
  intros (H1 & H2 & H3 & H4 & H5 & H6) Hv Hs. unfold init_vertNode.
  rewrite (getVertNode_ok k Hk C HC P l x y s H1 Hv Hs), bind_Ret. destruct HC as (Hlen & _ & _). rewrite Hlen.
  pose proof Hv as (Hl & Hx & Hy). unfold level, col, row in Hl, Hx, Hy. cbn [fst snd] in Hl, Hx, Hy.
  assert (2 ^ l * s = 2 ^ k) as Es by (rewrite Hs, <- Z.pow_add_r by lia; f_equal; lia).
  assert (0 < s) by (rewrite Hs; apply pow2_pos; lia).
  assert (0 <= x * s <= 2 ^ k /\ 0 <= y * s <= 2 ^ k) as [Hxs Hys] by nia.
  assert (0 <= y * s * (2 ^ k + 1) + x * s < Z.of_nat (length vs)) as Hidx by nia.
  assert (at_Z vs (y * s * (2 ^ k + 1) + x * s) = Ret (orig (l, x, y))) as ->.
  { unfold at_Z, vec_at, orig, level, col, row. cbn [fst snd]. rewrite <- Hs, (proj2 (Z.leb_le _ _)) by lia.
    destruct (lookup_lt_is_Some_2 vs (Z.to_nat (y * s * (2 ^ k + 1) + x * s))) as [v ->]; [lia|done]. }
  rewrite bind_Ret. eexists. split; [done|]. split_and!; try done.
  - cbn. by rewrite length_alter.
  - intros c Hc HS. rewrite lookup_upd_vnode. destruct (decide (vid (l, x, y) = vid c)) as [E|E].
    + apply (vid_inj k) in E as <-; [|done..].
      destruct (lookup_lt_is_Some_2 (vertNodePool P) (vid (l, x, y))) as [n ->]; [rewrite H1; by apply vid_lt|done].
    + apply H6; [done|]. destruct HS as [HS| ->]; done.
Qed.

Lemma init_row_ok P0 P S l y s : Initialised P0 P S -> 0 <= l <= k -> 0 <= y <= 2 ^ l -> s = 2 ^ (k - l) ->
  exists P', foldM (fun x => init_vertNode C vs l (y * s) x) ((fun i => i * s) <$> seqZ 0 (2 ^ l + 1)) P = Ret P' /\
    Initialised P0 P' (fun c => S c \/ (level c = l /\ row c = y)).
Proof.
  intros HP Hl Hy Hs. rewrite foldM_fmap. pose proof (pow2_pos l ltac:(lia)).
  destruct (foldM_seqZ (fun i P => Initialised P0 P (fun c => S c \/ (level c = l /\ row c = y /\ col c < i)))
              (fun i => init_vertNode C vs l (y * s) (i * s)) (2 ^ l + 1) P) as (P' & E & HI); [lia| | |].
  - revert HP. apply Initialised_weaken. intros c (_ & Hc & _) [HS|(_ & _ & Hlt)]; [done|lia].
  - intros i Q Hi HQ. destruct (init_vertNode_ok P0 Q _ l i y s HQ) as (Q' & E & HI); [|done|].
    { unfold valid, level, col, row. cbn. lia. }
    exists Q'. split; [done|]. revert HI. apply Initialised_weaken. intros c _ [HS|(El & Er & Hc)]; [by left; left|].
    destruct (decide (col c = i)) as [Ec|Ec]; [right|left; right; lia].
    destruct c as [[lc xc] yc]. unfold level, col, row in *. cbn in *. congruence.
  - exists P'. split; [done|]. revert HI. apply Initialised_weaken. intros c (Hlc & Hcc & _) [HS|[El Er]]; [by left|right].
    rewrite El in Hcc. lia.
Qed.

Lemma multiples_ok l s : 0 <= l <= k -> s = 2 ^ (k - l) -> multiples (2 ^ k + 1) s = (fun i => i * s) <$> seqZ 0 (2 ^ l + 1).
Proof.
  intros Hl Hs. unfold multiples. do 2 f_equal. assert (0 < s) by (rewrite Hs; apply pow2_pos; lia).
  assert (2 ^ k = 2 ^ l * s) as -> by (rewrite Hs, <- Z.pow_add_r by lia; f_equal; lia).
  replace (2 ^ l * s + 1 + s - 1) with ((2 ^ l + 1) * s) by lia. by apply Z.div_mul; lia.
Qed.

Lemma init_level_ok P0 P S l s : Initialised P0 P S -> 0 <= l <= k -> s = 2 ^ (k - l) ->
  exists P', init_level C vs l s P = Ret P' /\ Initialised P0 P' (fun c => S c \/ level c = l).
Proof.
  intros HP Hl Hs. unfold init_level. pose proof HC as (-> & _ & _). rewrite (multiples_ok l s Hl Hs). cbv zeta.
  rewrite foldM_fmap. pose proof (pow2_pos l ltac:(lia)).
  destruct (foldM_seqZ (fun i P => Initialised P0 P (fun c => S c \/ (level c = l /\ row c < i)))
              (fun i => foldM (fun x => init_vertNode C vs l (i * s) x) ((fun i => i * s) <$> seqZ 0 (2 ^ l + 1))) (2 ^ l + 1) P)
    as (P' & E & HI); [lia| | |].
  - revert HP. apply Initialised_weaken. intros c (_ & _ & Hc) [HS|(_ & Hlt)]; [done|lia].
  - intros i Q Hi HQ. destruct (init_row_ok P0 Q _ l i s HQ Hl ltac:(lia) Hs) as (Q' & E & HI).
    exists Q'. split; [done|]. revert HI. apply Initialised_weaken. intros c _ [HS|(El & Er)]; [by left; left|].
    destruct (decide (row c = i)) as [Ec|Ec]; [right; done|left; right; lia].
  - exists P'. split; [done|]. revert HI. apply Initialised_weaken. intros c (Hlc & _ & Hrc) [HS|El]; [by left|right].
    rewrite El in Hrc. lia.
Qed.

Lemma init_levels_ok d n P0 P S l : l + Z.of_nat d = k + 1 -> 0 <= l -> (d <= n)%nat -> Initialised P0 P S ->
  exists P', init_levels n C vs l (2 ^ (k - l)) P = Ret P' /\ Initialised P0 P' (fun c => S c \/ l <= level c).
Proof.
  revert n P S l. induction d as [|d IH]; intros n P S l Hd Hl Hn HP.
  - replace (k - l) with (-1) by lia. exists P. split; [by destruct n|]. revert HP. apply Initialised_weaken.
    intros c (Hc & _) [HS|Hlt]; [done|lia].
  - destruct n as [|n]; [lia|]. cbn [init_levels]. pose proof (pow2_pos (k - l) ltac:(lia)) as Hp.
    rewrite (proj2 (Z.ltb_lt _ _)) by done.
    destruct (init_level_ok P0 P S l _ HP ltac:(lia) eq_refl) as (P1 & -> & HP1). rewrite bind_Ret.
    assert (Z.shiftr (2 ^ (k - l)) 1 = 2 ^ (k - (l + 1))) as ->.
    { rewrite Z.shiftr_div_pow2 by lia. destruct (decide (l = k)) as [->|Hne].
      - rewrite Z.sub_diag. replace (k - (k + 1)) with (-1) by lia. done.
      - replace (k - l) with (k - (l + 1) + 1) by lia. rewrite Z.pow_add_r by lia. change (2 ^ 1) with 2. by apply Z.div_mul. }
    destruct (IH n P1 _ (l + 1) ltac:(lia) ltac:(lia) ltac:(lia) HP1) as (P' & E & HI). exists P'. split; [done|].
    revert HI. apply Initialised_weaken. intros c _ [HS|Hlt]; [by left; left|].
    destruct (decide (level c = l)); [left; by right|right; lia].
Qed.

(** All nodes initialised: the invariant of the construction holds of no quads. *)
Lemma Initialised_BInv P0 P : Initialised P0 P (fun _ => True) ->
  quadNodePoolAllocated P0 = O -> quadLeafPoolAllocated P0 = O ->
  BInv k orig (length (quadNodePool P0)) (length (quadLeafPool P0)) [] [] [] P.
Proof.
  intros (H1 & H2 & H3 & H4 & H5 & H6) Hn Hl.
  assert (forall c, valid k c -> lkv P (vid c) = Some (mkLink (level c) None None None)) as Hlk.
  { intros c Hc. unfold lkv. rewrite (H6 c Hc I). cbn. unfold lk. cbn. do 2 f_equal. apply wrap4_small. destruct Hc. lia. }
  constructor; [done|by rewrite H2|by rewrite H3| | |by intros ? ? ?%elem_of_nil|done| |].
  - intros c Hc. eexists. split; [by apply H6|done].
  - split; [constructor|].
    + intros c Hc. eexists. split; [by apply Hlk|done].
    + intros c x p Hc Hx Hp. rewrite (Hlk c Hc) in Hx. by simplify_eq.
    + intros d x Hd Hx. rewrite (Hlk d Hd) in Hx. simplify_eq. exists []. split_and!; [constructor|constructor|].
      intros v. split; [by intros ?%elem_of_nil|]. intros (c & y & Hc & -> & Hy & Hp). rewrite (Hlk c Hc) in Hy. by simplify_eq.
    + intros c x Hc Hx _. rewrite (Hlk c Hc) in Hx. by simplify_eq.
    + intros l a b Hv (x & Hx & Hp). rewrite (Hlk _ Hv) in Hx. simplify_eq. by destruct Hp.
  - intros c Hc. eexists _, []. split; [by apply H6|]. unfold adjacent. split_and!; [done|done|cbn; lia|constructor|by intros ? ?%elem_of_nil].
  - constructor; try (by intros ? ?%elem_of_nil); [by rewrite H4|by rewrite H5|by split; constructor| | |].
    + intros [i|i] p Hq; done.
    + intros i p Hi; done.
    + intros [i|i] p h Hq; done.
Qed.
End Init.
End Init.

(** ** The whole construction *)
Module TerrainBuild.
Import PoolSizes Indices Init.

Definition root : coord := (0, 0, 0).

(** A mesh built from the height field [vs] of 2^k + 1 points per edge: the
    pools hold exactly the quads of the reference tree in construction order,
    all of them collapsed; heads, corners, children and parents agree with
    their positions; the vertex nodes form a forest in which every node below
    the first level has a parent; roots and tables are set. *)
Record WellBuilt (k : Z) (vs : list Vertex) (m : QuadCollapseMesh) : Prop := mkWellBuilt {
  wb_pools : exists done_, BInv k (orig k vs) (geometric (Z.to_nat k)) (4 ^ Z.to_nat k)
               (inner (Z.to_nat k) root) (leaves (Z.to_nat k) root) done_ (pools m) /\
               forall r, r ∈ inner (Z.to_nat k) root -> r ∈ done_;
  wb_config : cfg_ok k (config m) /\ length (vertNodesActiveDistance (config m)) = MAX_QUAD_LEVEL_COUNT;
  wb_root : exists q, rootQuadNode m = Some q /\ isq (inner (Z.to_nat k) root) (leaves (Z.to_nat k) root) q root;
  wb_roots : rootVertNodes m = Some <$> (vid <$> corners root);
  wb_vertices : vertices m = vs /\ lodIndices m = seqZ 0 (Z.of_nat (length vs));
  wb_buffers : vertexBuffer m = Some [] /\ indexBuffer m = Some (mkIndexBuffer (indices m) (Z.of_nat (length (indices m))))
}.

(** Every node below the first level touches a quad of the level above. *)
Lemma nine_cover k c : valid k c -> 0 < level c -> exists p, valid_quad k p /\ level p = level c - 1 /\ c ∈ nine p.
Proof.
  destruct c as [[l x] y]. unfold valid, valid_quad, level, col, row. cbn [fst snd]. intros (Hl & Hx & Hy) Hlt.
  assert (2 ^ l = 2 * 2 ^ (l - 1)) as El by (rewrite <- Z.pow_succ_r by lia; f_equal; lia).
  pose proof (pow2_pos (l - 1) ltac:(lia)) as Hp. rewrite El in Hx, Hy.
  assert (forall z, 0 <= z <= 2 * 2 ^ (l - 1) -> exists a i, 0 <= a < 2 ^ (l - 1) /\ z = 2 * a + i /\ (i = 0 \/ i = 1 \/ i = 2)) as Hsplit.
  { intros z Hz. destruct (Z.eq_dec z (2 * 2 ^ (l - 1))) as [->|Hne].
    - exists (2 ^ (l - 1) - 1), 2. lia.
    - exists (z / 2), (z mod 2). pose proof (Z.div_mod z 2). pose proof (Z.mod_pos_bound z 2). lia. }
  destruct (Hsplit x Hx) as (a & i & Ha & -> & Hi), (Hsplit y Hy) as (b & j & Hb & -> & Hj).
  exists (l - 1, a, b). cbn [fst snd]. split_and!; [lia|lia|lia|lia|lia|lia|lia|].
  unfold nine. rewrite Z.sub_add. destruct Hi as [-> | [-> | ->]], Hj as [-> | [-> | ->]]; rewrite ?Z.add_0_r, <- ?Z.add_assoc;
    change (1 + 1) with 2; rewrite !elem_of_cons; tauto.
Qed.

Lemma root_valid k : 0 <= k -> valid_quad k root.
Proof. intros. unfold valid_quad, root, level, col, row. cbn. lia. Qed.

Lemma root_under k p : valid_quad k p -> under root p.
Proof.
  destruct p as [[l x] y]. unfold valid_quad, under, root, level, col, row. cbn [fst snd]. intros (Hl & Hx & Hy).
  rewrite Z.sub_0_r. split; [lia|]. split; by apply Z.div_small.
Qed.

(** All inner quads being collapsed, every node below the first level has a parent. *)
Lemma all_parented k orig NN LL done_ P : 0 <= k ->
  BInv k orig NN LL (inner (Z.to_nat k) root) (leaves (Z.to_nat k) root) done_ P ->
  (forall r, r ∈ inner (Z.to_nat k) root -> r ∈ done_) ->
  forall c, valid k c -> 0 < level c -> parented (lkv P) c.
Proof.
  intros Hk HB Hdone c Hc Hl. destruct (nine_cover k c Hc Hl) as (p & Hp & Elp & Hn).
  apply (bi_done _ _ _ _ _ _ _ _ HB p); [|done]. apply Hdone, inner_complete.
  - by apply (root_under k).
  - change (level root) with 0. destruct Hc as (Hlc & _). lia.
Qed.

(** The construction, step by step. *)
Lemma build_ok junk k vs : 0 <= k <= 12 -> (2 ^ k + 1) * (2 ^ k + 1) <= Z.of_nat (length vs) ->
  exists m, build junk vs (2 ^ k + 1) (2 ^ k + 1) mesh0 = Ret (m, true) /\ WellBuilt k vs m /\ lod m = false /\ updateFrame m = 0.
Proof.
  intros Hk Hvs. pose proof (pow2_pos k ltac:(lia)) as Hp. assert (2 ^ k <= 2 ^ 12) as Hk12 by (apply Z.pow_le_mono_r; lia).
  change (2 ^ 12) with 4096 in Hk12.
  unfold build. change (indices mesh0) with (@nil Z). rewrite build_indices_fill by (cbn; nia). rewrite bind_Ret. cbv zeta.
  rewrite (i32_small (2 ^ k + 1)) by lia.
  rewrite (proj2 (Z.ltb_ge _ 2)) by lia. unfold MAX_LENGTH. rewrite (proj2 (Z.ltb_ge 4097 _)) by lia.
  replace (2 ^ k + 1 - 1) with (2 ^ k) by lia.
  destruct (sizes_ok k Hk) as (-> & s & Hs & HC & Hvn & Hqn & Hql & Hdist). rewrite bind_Ret.
  unfold MAX_QUAD_LEVEL_COUNT at 1. rewrite (proj2 (Z.ltb_ge _ _)) by lia.
  unfold sizes, tables in Hs. cbn [mesh0 config0 config maxLevel vertNodesActiveDistance quadNodesCullRadius vertNodesLevelOffset].
  rewrite Hs, bind_Ret. cbn [pools mesh0 vertNodePool quadNodePool quadLeafPool quadNodePoolAllocated quadLeafPoolAllocated].
  unfold resize. rewrite Hvn, Hqn, Hql, !Nat2Z.id, !firstn_nil. cbn [length app]. rewrite !Nat.sub_0_r.
  set (P0 := mkPools _ _ _ _ _). pose proof HC as (Hmax & _ & _).
  unfold buildVertNodes. rewrite Hmax. replace (2 ^ k + 1 - 1) with (2 ^ k) by lia.
  assert (Initialised k vs P0 P0 (fun _ => False)) as HI0 by (split_and!; try done; apply length_replicate).
  destruct (init_levels_ok k Hk (s_config s) HC vs Hvs (S (Z.to_nat k)) 32 P0 P0 _ 0 ltac:(lia) ltac:(lia) ltac:(lia) HI0)
    as (P1 & E1 & HI1). rewrite Z.sub_0_r in E1. rewrite E1, bind_Ret.
  assert (BInv k (orig k vs) (geometric (Z.to_nat k)) (4 ^ Z.to_nat k) [] [] [] P1) as HB1.
  { replace (geometric (Z.to_nat k)) with (length (quadNodePool P0)) by apply length_replicate.
    replace (4 ^ Z.to_nat k)%nat with (length (quadLeafPool P0)) by apply length_replicate.
    apply (Initialised_BInv k Hk vs); [|done|done]. revert HI1. apply Initialised_weaken. intros c (Hl & _) _. right. lia. }
  pose proof (root_valid k ltac:(lia)) as Hroot.
  assert (forall c, c ∈ corners root -> valid k c) as Hcv by (intros c Hc; by apply (corners_valid k root)).
  assert (forall a b, (0, a, b) ∈ corners root -> getVertNode (s_config s) P1 0 (a * 2 ^ k) (b * 2 ^ k) = Ret (vid (0, a, b))) as Hget.
  { intros a b Hab. apply (getVertNode_ok k Hk _ HC); [apply (bi_vlen _ _ _ _ _ _ _ _ HB1)|by apply Hcv|by rewrite Z.sub_0_r]. }
  pose proof (Hget 0 0 ltac:(unfold root; in_list)) as G0. pose proof (Hget 1 0 ltac:(unfold root; in_list)) as G1.
  pose proof (Hget 1 1 ltac:(unfold root; in_list)) as G2. pose proof (Hget 0 1 ltac:(unfold root; in_list)) as G3.
  rewrite Z.mul_0_l in G0. rewrite Z.mul_1_l, Z.mul_0_l in G1. rewrite Z.mul_1_l in G2. rewrite Z.mul_1_l, Z.mul_0_l in G3.
  rewrite G0, bind_Ret, G1, bind_Ret, G2, bind_Ret, G3, !bind_Ret.
  destruct (built_ok junk k Hk (s_config s) (orig k vs) (geometric (Z.to_nat k)) (4 ^ Z.to_nat k) HC (Z.to_nat k) 32 root)
    with (NB := @nil coord) (LB := @nil coord) (done_ := @nil coord) (P := P1) as (P2 & q & D & E2 & HB2 & Hq & HD);
    [lia|unfold root, level; cbn; lia|done|done|done|by intros ? _ ?%elem_of_nil|apply inner_NoDup|apply leaves_NoDup| | |].
  { cbn [app]. by rewrite inner_length. } { cbn [app]. by rewrite leaves_length. }
  unfold root, level, col, row in E2. cbn [fst snd] in E2. rewrite !Z.mul_0_l, Z2Nat.id in E2 by lia.
  rewrite E2, bind_Ret. eexists. split; [done|]. split; [|done]. cbn [app] in HB2, Hq.
  constructor; cbn [pools config rootQuadNode rootVertNodes vertices lodIndices vertexBuffer indexBuffer indices mesh0 app]; try done.
  - exists D. split; [done|]. intros r Hr. apply HD. by right.
  - exists q. done.
Qed.
(** C11. Building the mesh of a height field of 2^k + 1 points per edge, up to the
    4097 points the engine admits, succeeds: no access leaves a pool or a table,
    no pointer is null, every loop and recursion terminates, and the result is
    well built. *)
Theorem build_correct junk k vs : 0 <= k <= 12 -> (2 ^ k + 1) * (2 ^ k + 1) <= Z.of_nat (length vs) ->
  exists m, build junk vs (2 ^ k + 1) (2 ^ k + 1) mesh0 = Ret (m, true) /\ WellBuilt k vs m /\ lod m = false /\ updateFrame m = 0.
Proof. apply build_ok. Qed.

Lemma build_correct_witness :
  exists m, build zero3 (replicate 9 vertex0) 3 3 mesh0 = Ret (m, true) /\ WellBuilt 1 (replicate 9 vertex0) m /\
    lod m = false /\ updateFrame m = 0.
Proof. apply (build_correct zero3 1 (replicate 9 vertex0)); cbn; lia. Defined.
End TerrainBuild.
