(* ===== verification/HeightField.v ===== *)
(** * HeightField: a terrain from the image of its heights

    Models [Terrain/TerrainBuilder.*] over an image of [FileSystem/Image.h]: one
    vertex per pixel, normals by central differences, and the mesh of
    [Terrain] built from them.  The decoder of images is a parameter. *)

From S2P Require Import Prelude Strings Float32 Geometry Resources Material Terrain TerrainGrid TerrainCollapse TerrainBuild TerrainInit.
From stdpp Require Import base decidable list gmap strings.
From Stdlib Require Import ZArith Lia.
Local Open Scope Z_scope.
Import Glm Vertex.

Module TerrainBuilder.

(** ** Images: the size in pixels and the bytes, four to a pixel. *)
Record Image := mkImage { width : Z; height : Z; data : option (list Z) }.
Record color8888 := mkColor { r : Z; g : Z; b : Z; a : Z }.

(** [buffer[i]] through the cast of the bytes. *)
Definition pixel (img : Image) (i : Z) : outcome color8888 :=
  d ← deref (data img);
  r ← at_Z d (4 * i); g ← at_Z d (4 * i + 1); b ← at_Z d (4 * i + 2); a ← at_Z d (4 * i + 3);
  Ret (mkColor r g b a).

(** ** Vertices *)

(** The body of the two loops: the vertex of the pixel.  The least and greatest
    height, which the loop also computes, are not used. *)
Definition point (img : Image) (x y : Z) : outcome Vertex :=
  p ← pixel img (u32 (y * width img + x));
  let ratio i n := F32.div (F32.of_Z i) (F32.sub (F32.of_Z n) F32.one) in
  Ret (mkVertex (mkVec3 (F32.of_Z x) (F32.of_Z y) (F32.of_Z (r p)))
         (mkVec4 (F32.of_Z (r p)) (F32.of_Z (g p)) (F32.of_Z (b p)) (F32.of_Z (a p)))
         (mkVec2 (ratio x (width img)) (ratio y (height img))) zero3 zero3).

Definition points (img : Image) : outcome (list Vertex) :=
  foldM (fun x => foldM (fun y vs => v ← point img x y; Ret (vs ++ [v])) (seqZ 0 (height img))) (seqZ 0 (width img)) [].

(** The lambda [height]. *)
Definition height_at (img : Image) (vertices : list Vertex) (x y : Z) : outcome f32 :=
  if (x <? 0) || (y <? 0) || (width img <=? x) || (height img <=? y) then Ret F32.zero
  else v ← at_Z vertices (u32 (x + u32 (y * width img))); Ret (F32.div (v3z (pos v)) (F32.of_Z 255)).

(** The positions are floats; the arguments of [height] are integers again. *)
Definition central (img : Image) (vertices : list Vertex) (v : Vertex) : outcome vec3 :=
  let x := v3x (pos v) in let y := v3y (pos v) in
  hL ← height_at img vertices (F32.to_Z (F32.sub x F32.one)) (F32.to_Z y);
  hR ← height_at img vertices (F32.to_Z (F32.add x F32.one)) (F32.to_Z y);
  hD ← height_at img vertices (F32.to_Z x) (F32.to_Z (F32.sub y F32.one));
  hU ← height_at img vertices (F32.to_Z x) (F32.to_Z (F32.add y F32.one));
  Ret (normalize3 (mkVec3 (F32.sub hL hR) (F32.sub hD hU) (F32.of_Z 2))).

(** The loop over the vertices updates them in place. *)
Definition normal_at (img : Image) (i : nat) (vertices : list Vertex) : outcome (list Vertex) :=
  v ← vec_at vertices i; n ← central img vertices v; Ret (<[i := with_normal n v]> vertices).

Definition normals (img : Image) (vertices : list Vertex) : outcome (list Vertex) :=
  foldM (normal_at img) (seq 0 (length vertices)) vertices.

(** ** The builder *)
Section Build.
Context {W : Type} (newTexture : cstring -> cstring -> W -> outcome (W * N)) (loadAsset : cstring -> Image) (junk : vec3).

(** The mesh and its height map; what the mesh's [build] returns is ignored. *)
Definition build (filePath : cstring) (w : Material.World (W := W))
    : outcome (Material.World (W := W) * Terrain.QuadCollapseMesh * option N) :=
  let heightMap := loadAsset filePath in
  vs ← points heightMap;
  vs ← normals heightMap vs;
  '(m, _) ← Terrain.build junk vs (width heightMap) (height heightMap) Terrain.mesh0;
  '(w, t) ← Material.createTexture newTexture (str "height") filePath w;
  Ret (w, m, t).
End Build.
End TerrainBuilder.

(** ** Properties *)
Module HeightFieldProps.
Import TerrainBuilder.

(** The bytes of the pixel in column [x] and row [y]. *)
Definition channel (img : Image) (x y c : Z) : Z := default 0 (default [] (data img) !! Z.to_nat (4 * (y * width img + x) + c)).
Definition red img x y := channel img x y 0.

(** The image has its bytes, and its coordinates are exact as floats. *)
Record usable (img : Image) : Prop := mkUsable {
  us_width : 0 <= width img < 2 ^ 24;
  us_height : 0 <= height img < 2 ^ 24;
  us_area : width img * height img <= 2 ^ 31;
  us_data : exists d, data img = Some d /\ 4 * (width img * height img) <= Z.of_nat (length d)
}.

Definition inside (img : Image) (x y : Z) : Prop := 0 <= x < width img /\ 0 <= y < height img.

(** The vertex before its normal is known. *)
Definition flat (img : Image) (x y : Z) : Vertex :=
  let ch := channel img x y in let ratio i n := F32.div (F32.of_Z i) (F32.sub (F32.of_Z n) F32.one) in
  mkVertex (mkVec3 (F32.of_Z x) (F32.of_Z y) (F32.of_Z (ch 0)))
    (mkVec4 (F32.of_Z (ch 0)) (F32.of_Z (ch 1)) (F32.of_Z (ch 2)) (F32.of_Z (ch 3)))
    (mkVec2 (ratio x (width img)) (ratio y (height img))) zero3 zero3.

(** The vertices in the order they are made: column by column. *)
Definition columns (img : Image) : list Vertex := x ← seqZ 0 (width img); y ← seqZ 0 (height img); [flat img x y].

(** Where [height x y] looks: the vertices are taken row by row. *)
Definition sample (img : Image) (x y : Z) : f32 :=
  if decide (inside img x y) then
    let i := x + y * width img in F32.div (F32.of_Z (red img (i / height img) (i mod height img))) (F32.of_Z 255)
  else F32.zero.

Definition difference (s : Z -> Z -> f32) (x y : Z) : vec3 :=
  normalize3 (mkVec3 (F32.sub (s (x - 1) y) (s (x + 1) y)) (F32.sub (s x (y - 1)) (s x (y + 1))) (F32.of_Z 2)).
Lemma bind_singletons {A B} (f : A -> B) l : (x ← l; [f x]) = f <$> l.
Proof. induction l as [|a l IH]; [done|]. change (f a :: (x ← l; [f x]) = f a :: (f <$> l)). by rewrite IH. Qed.

(** A loop that appends is a map. *)
Lemma foldM_append {A B} (f : A -> outcome B) (g : A -> B) l : forall acc, (forall a, a ∈ l -> f a = Ret (g a)) ->
  foldM (fun a acc => b ← f a; Ret (acc ++ [b])) l acc = Ret (acc ++ (g <$> l)).
Proof.
  induction l as [|a l IH]; intros acc H; cbn [foldM fmap list_fmap]; [by rewrite app_nil_r|].
  rewrite H, bind_Ret by set_solver. rewrite bind_Ret, IH by set_solver. by rewrite <- app_assoc.
Qed.

Lemma foldM_append_all {A B} (F : A -> list B -> outcome (list B)) (g : A -> list B) l : forall acc,
  (forall a acc, a ∈ l -> F a acc = Ret (acc ++ g a)) -> foldM F l acc = Ret (acc ++ (l ≫= g)).
Proof.
  induction l as [|a l IH]; intros acc H; [cbn; by rewrite app_nil_r|]. cbn [foldM]. rewrite H, bind_Ret, IH by set_solver.
  by rewrite <- app_assoc.
Qed.

Section Fixed.
Context (img : Image) (HU : usable img).
Abbreviation wd := (width img).
Abbreviation ht := (height img).

Lemma index_bound x y : inside img x y -> 0 <= y * wd + x < wd * ht /\ 0 <= x * ht + y < wd * ht /\ 0 <= x + y * wd < wd * ht.
Proof. unfold inside. intros [Hx Hy]. split_and!; nia. Qed.

Lemma point_ok x y : inside img x y -> point img x y = Ret (flat img x y).
Proof.
  intros Hi. destruct (index_bound x y Hi) as (Hb & _ & _). destruct HU as [_ _ Ha (d & Ed & Hd)].
  unfold point, pixel, flat, channel. rewrite Ed, u32_small by lia. cbn [deref default]. rewrite bind_Ret.
  assert (forall c, 0 <= c < 4 -> at_Z d (4 * (y * wd + x) + c) = Ret (default 0 (d !! Z.to_nat (4 * (y * wd + x) + c)))) as Hc.
  { intros c Hc. destruct (at_Z_lookup d (4 * (y * wd + x) + c)) as (v & -> & ->); [lia|done]. }
  pose proof (Hc 0 ltac:(lia)) as H0. rewrite Z.add_0_r in H0. rewrite H0, (Hc 1), (Hc 2), (Hc 3) by lia.
  cbn [mbind outcome_bind r g b a]. by rewrite Z.add_0_r.
Qed.

Lemma columns_inner x : (y ← seqZ 0 ht; [flat img x y]) = flat img x <$> seqZ 0 ht.
Proof. apply bind_singletons. Qed.

Lemma points_ok : points img = Ret (columns img).
Proof.
  unfold points, columns. rewrite (foldM_append_all _ (fun x => y ← seqZ 0 ht; [flat img x y])); [done|].
  intros x acc Hx. rewrite columns_inner. apply foldM_append. intros y Hy. apply point_ok. unfold inside.
  apply elem_of_seqZ in Hx, Hy. lia.
Qed.

Lemma columns_length : length (columns img) = Z.to_nat (wd * ht).
Proof.
  unfold columns. rewrite (bind_length _ _ (Z.to_nat ht)); [rewrite length_seqZ; destruct HU; nia|].
  intros x _. by rewrite columns_inner, length_fmap, length_seqZ.
Qed.

Lemma columns_at x y : inside img x y -> columns img !! Z.to_nat (x * ht + y) = Some (flat img x y).
Proof.
  intros [Hx Hy]. replace (Z.to_nat (x * ht + y)) with (Z.to_nat ht * Z.to_nat x + Z.to_nat y)%nat by nia.
  unfold columns. rewrite (bind_lookup _ _ _ _ _ x); [| |rewrite lookup_seqZ; lia|lia].
  - rewrite columns_inner, list_lookup_fmap. assert (seqZ 0 ht !! Z.to_nat y = Some y) as ->; [rewrite lookup_seqZ; lia|done].
  - intros x' _. by rewrite columns_inner, length_fmap, length_seqZ.
Qed.

Lemma height_at_ok x y : height_at img (columns img) x y = Ret (sample img x y).
Proof.
  unfold height_at, sample. case_decide as Hi.
  - destruct (index_bound x y Hi) as (_ & _ & Hb). pose proof (us_area img HU) as Ha. destruct Hi as [Hx Hy].
    rewrite (proj2 (Z.ltb_ge x 0)), (proj2 (Z.ltb_ge y 0)), (proj2 (Z.leb_gt wd x)), (proj2 (Z.leb_gt ht y)) by lia. cbn [orb].
    rewrite (u32_small (y * wd)), u32_small by nia. set (i := x + y * wd) in *.
    assert (0 <= i / ht < wd /\ 0 <= i mod ht < ht) as [Hd Hm].
    { split; [split; [apply Z.div_pos; lia|apply Z.div_lt_upper_bound; lia]|apply Z.mod_pos_bound; lia]. }
    rewrite (at_Z_Some _ i (flat img (i / ht) (i mod ht))); [done|lia|].
    rewrite <- columns_at by done. f_equal. f_equal. pose proof (Z.div_mod i ht). lia.
  - assert ((x <? 0) || (y <? 0) || (wd <=? x) || (ht <=? y) = true) as ->; [|done]. unfold inside in Hi.
    destruct (Z.ltb_spec x 0), (Z.ltb_spec y 0), (Z.leb_spec wd x), (Z.leb_spec ht y); try done. lia.
Qed.

Lemma to_of_Z_pred z : -1 <= z < 2 ^ 24 -> F32.to_Z (F32.of_Z z) = z.
Proof. intros Hz. destruct (Z.eq_dec z (-1)) as [->|]; [reflexivity|]. apply to_of_Z. lia. Qed.

Lemma central_ok x y : inside img x y -> central img (columns img) (flat img x y) = Ret (difference (sample img) x y).
Proof.
  intros [Hx Hy]. pose proof (us_width img HU). pose proof (us_height img HU).
  unfold central, difference. cbn [flat pos v3x v3y]. change F32.one with (F32.of_Z 1).
  rewrite !of_Z_sub, !of_Z_add by (unfold small; lia). rewrite !to_of_Z_pred by lia.
  by rewrite !height_at_ok, !bind_Ret.
Qed.

(** The normals are computed from the positions alone, which the loop keeps. *)
Lemma height_at_pos vs vs' x y : pos <$> vs = pos <$> vs' -> height_at img vs x y = height_at img vs' x y.
Proof.
  intros E. unfold height_at. destruct (_ || _); [done|]. unfold at_Z, vec_at. destruct (0 <=? _); [|done].
  pose proof (f_equal (fun l => l !! Z.to_nat (u32 (x + u32 (y * wd)))) E) as El. cbn beta in El. rewrite !list_lookup_fmap in El.
  destruct (vs !! _) as [v|], (vs' !! _) as [v'|]; try done. cbn in *. by injection El as ->.
Qed.

Lemma central_pos vs vs' v : pos <$> vs = pos <$> vs' -> central img vs v = central img vs' v.
Proof. intros E. unfold central. by rewrite !(height_at_pos vs vs') by done. Qed.

Lemma normals_loop base (n : Vertex -> vec3) rest : forall done_, pos <$> (done_ ++ rest) = pos <$> base ->
  (forall v, v ∈ rest -> central img base v = Ret (n v)) ->
  foldM (normal_at img) (seq (length done_) (length rest)) (done_ ++ rest) = Ret (done_ ++ ((fun v => with_normal (n v) v) <$> rest)).
Proof.
  induction rest as [|v rest IH]; intros done_ E Hn; [done|]. cbn [length seq foldM fmap list_fmap].
  assert (normal_at img (length done_) (done_ ++ v :: rest) = Ret (done_ ++ with_normal (n v) v :: rest)) as ->.
  { unfold normal_at, vec_at. rewrite list_lookup_middle by done. rewrite bind_Ret, (central_pos _ base) by done.
    rewrite Hn, bind_Ret by set_solver. f_equal. rewrite <- (Nat.add_0_r (length done_)). by rewrite insert_app_r. }
  rewrite bind_Ret.
  rewrite (app_cons_middle done_ rest), (app_cons_middle done_ (_ <$> rest)).
  replace (S (length done_)) with (length (done_ ++ [with_normal (n v) v])) by (rewrite length_app; cbn; lia).
  apply IH; [|set_solver]. rewrite <- E, !fmap_app, <- !app_assoc. done.
Qed.

Lemma columns_elem v : v ∈ columns img -> exists x y, inside img x y /\ v = flat img x y.
Proof.
  intros Hv. unfold columns in Hv. apply list_elem_of_bind in Hv as (x & Hv & Hx). rewrite columns_inner in Hv.
  apply list_elem_of_fmap in Hv as (y & -> & Hy). apply elem_of_seqZ in Hx, Hy. exists x, y. split; [unfold inside; lia|done].
Qed.

Definition slope (v : Vertex) : vec3 := match central img (columns img) v with Ret n => n | Exn _ => zero3 end.
Definition shaded (v : Vertex) : Vertex := with_normal (slope v) v.

Lemma normals_ok : normals img (columns img) = Ret (shaded <$> columns img).
Proof.
  apply (normals_loop (columns img) slope (columns img) []); [done|]. intros v Hv.
  destruct (columns_elem v Hv) as (x & y & Hi & ->). unfold slope. by rewrite central_ok.
Qed.

Lemma shaded_at x y : inside img x y ->
  at_Z (shaded <$> columns img) (x * ht + y) = Ret (with_normal (difference (sample img) x y) (flat img x y)).
Proof.
  intros Hi. destruct (index_bound x y Hi) as (_ & Hb & _). apply at_Z_Some; [lia|].
  rewrite list_lookup_fmap, columns_at by done. cbn. unfold shaded, slope. by rewrite central_ok.
Qed.

(** On a square image the samples are those of the transposed field. *)
Lemma sample_square x y : wd = ht -> inside img x y -> sample img x y = F32.div (F32.of_Z (red img y x)) (F32.of_Z 255).
Proof.
  intros E Hi. unfold sample. rewrite decide_True by done. cbn beta zeta. unfold inside in Hi. rewrite <- E in *.
  rewrite Z.div_add, Z.div_small, Z.add_0_l by lia. rewrite Z_mod_plus_full, Z.mod_small by lia. done.
Qed.

Lemma vertices_ok : (vs ← points img; normals img vs) = Ret (shaded <$> columns img).
Proof. by rewrite points_ok, bind_Ret, normals_ok. Qed.

Lemma shaded_length : Z.of_nat (length (shaded <$> columns img)) = wd * ht.
Proof. rewrite length_fmap, columns_length. destruct HU. nia. Qed.
End Fixed.

(** The vertices of an image.  When the image has its bytes and its size is exact in floats,
    the loops read no byte and no vertex outside, and make one vertex per
    pixel: that of column x and row y is at x * height + y, with the pixel's
    position, colour and texture coordinates.  Its normal is the normalised
    central difference of the heights found at x + y * width: the vertices are
    read row by row, though they were made column by column, so that on a square
    image the slopes are those of the transposed field. *)
Theorem vertices_of_image (img : Image) : usable img ->
  exists vs, (vs ← points img; normals img vs) = Ret vs /\ Z.of_nat (length vs) = width img * height img
    /\ (forall x y, inside img x y -> at_Z vs (x * height img + y) = Ret (with_normal (difference (sample img) x y) (flat img x y)))
    /\ (width img = height img -> forall x y, inside img x y -> sample img x y = F32.div (F32.of_Z (red img y x)) (F32.of_Z 255)).
Proof.
  intros HU. exists (shaded img <$> columns img). split_and!; [by apply vertices_ok|by apply shaded_length| |].
  - intros x y. by apply shaded_at.
  - intros E x y. by apply sample_square.
Qed.

(** A pixel of another height than its neighbours. *)
Definition tiny : Image := mkImage 2 2 (Some [0; 0; 0; 0; 51; 0; 0; 0; 0; 0; 0; 0; 0; 0; 0; 0]).

Lemma vertices_of_image_witness :
  exists vs, (vs ← points tiny; normals tiny vs) = Ret vs /\
    at_Z vs 0 = Ret (with_normal (difference (sample tiny) 0 0) (flat tiny 0 0)).
Proof.
  destruct (vertices_of_image tiny) as (vs & E & _ & Hv & _).
  { constructor; cbn; [lia|lia|lia|]. eexists. split; [reflexivity|]. cbn. lia. }
  exists vs. split; [exact E|]. apply (Hv 0 0). unfold inside. cbn. lia.
Defined.

(** The slopes of a square image come from the heights of the transposed field. *)
Definition transposed (img : Image) (x y : Z) : f32 :=
  if decide (inside img x y) then F32.div (F32.of_Z (red img y x)) (F32.of_Z 255) else F32.zero.

Lemma difference_transposed img x y : usable img -> width img = height img ->
  difference (sample img) x y = difference (transposed img) x y.
Proof.
  intros HU E. assert (forall x y, sample img x y = transposed img x y) as Hs; [|unfold difference; by rewrite !Hs].
  clear x y. intros x y. unfold transposed. case_decide as Hi; [by apply sample_square|]. unfold sample. by rewrite decide_False.
Qed.

(** C13. From the image to the mesh.  For a square image of 2^k + 1 pixels per edge, k at most
    12, that has all its bytes, and whose height map texture can be created, the
    builder returns the texture and a well-built mesh whose vertices are those of
    the pixels: that of column x and row y is at x * (2^k + 1) + y, at (x, y) with
    the red byte of that pixel as its height, its four bytes as the colour and its
    place in the unit square as the texture coordinates; its normal is the
    normalised central difference of red / 255 taken from the transposed field,
    with zero outside. *)
Theorem terrain_of_image {W} (newTexture : cstring -> cstring -> W -> outcome (W * N)) loadAsset junk k path w w' t :
  let img := loadAsset path in
  0 <= k <= 12 -> usable img -> width img = 2 ^ k + 1 -> height img = 2 ^ k + 1 ->
  Material.createTexture newTexture (str "height") path w = Ret (w', t) ->
  exists vs m, build newTexture loadAsset junk path w = Ret (w', m, t)
    /\ TerrainBuild.WellBuilt k vs m /\ Terrain.vertices m = vs /\ Z.of_nat (length vs) = (2 ^ k + 1) * (2 ^ k + 1)
    /\ forall x y, 0 <= x <= 2 ^ k -> 0 <= y <= 2 ^ k -> exists v, at_Z vs (x * (2 ^ k + 1) + y) = Ret v
       /\ pos v = mkVec3 (F32.of_Z x) (F32.of_Z y) (F32.of_Z (red img x y))
       /\ color v = mkVec4 (F32.of_Z (red img x y)) (F32.of_Z (channel img x y 1)) (F32.of_Z (channel img x y 2)) (F32.of_Z (channel img x y 3))
       /\ texCoord v = mkVec2 (F32.div (F32.of_Z x) (F32.of_Z (2 ^ k))) (F32.div (F32.of_Z y) (F32.of_Z (2 ^ k)))
       /\ normal v = normalize3 (mkVec3 (F32.sub (transposed img (x - 1) y) (transposed img (x + 1) y))
                                       (F32.sub (transposed img x (y - 1)) (transposed img x (y + 1))) (F32.of_Z 2)).
Proof.
  intros img Hk HU Ew Eh Et. pose proof (shaded_length img HU) as Hl. rewrite Ew, Eh in Hl.
  assert ((2 ^ k + 1) * (2 ^ k + 1) <= Z.of_nat (length (shaded img <$> columns img))) as Hle by (rewrite Hl; lia).
  destruct (TerrainBuild.build_ok junk k (shaded img <$> columns img) Hk Hle) as (m & Em & Hm & _).
  exists (shaded img <$> columns img), m. split; [|split; [done|split; [apply Hm|split; [done|]]]].
  { unfold build. fold img. rewrite (points_ok img HU), bind_Ret, (normals_ok img HU), bind_Ret, Ew, Eh, Em, bind_Ret, Et. done. }
  intros x y Hx Hy. assert (inside img x y) as Hi by (unfold inside; lia).
  pose proof (us_width img HU). rewrite <- Eh. rewrite (shaded_at img HU x y Hi). eexists. split; [reflexivity|].
  rewrite (difference_transposed img x y HU) by (by rewrite Ew). unfold with_normal, flat. cbn [pos color texCoord normal].
  rewrite Ew, Eh. change F32.one with (F32.of_Z 1). rewrite of_Z_sub by (unfold small; lia). by replace (2 ^ k + 1 - 1) with (2 ^ k) by lia.
Qed.

Definition tiny_texture (_ _ : cstring) (w : unit) : outcome (unit * N) := Ret (w, 5%N).

Lemma terrain_of_image_witness :
  exists vs m w', build tiny_texture (fun _ => tiny) zero3 (str "h") (Material.mkWorld tt ∅ ∅) = Ret (w', m, Some 5%N)
    /\ TerrainBuild.WellBuilt 0 vs m /\ exists v, at_Z vs 2 = Ret v /\ pos v = mkVec3 F32.one F32.zero (F32.of_Z 51).
Proof.
  destruct (terrain_of_image tiny_texture (fun _ => tiny) zero3 0 (str "h") (Material.mkWorld tt ∅ ∅)
    (Material.mkWorld tt (<[str "h" := Some 5%N]> (<[str "h" := None]> ∅)) ∅) (Some 5%N)) as (vs & m & E & Hm & _ & _ & Hv); [lia| |reflexivity|reflexivity|reflexivity|].
  { constructor; cbn; [lia|lia|lia|]. eexists. split; [reflexivity|]. cbn. lia. }
  destruct (Hv 1 0) as (v & E1 & E2 & _); [lia|lia|].
  exists vs, m. eexists. split; [exact E|]. split; [exact Hm|]. exists v. split; [exact E1|]. rewrite E2. by vm_compute.
Defined.
End HeightFieldProps.
