(* ===== verification/TerrainUpdate.v ===== *)
(** * TerrainUpdate: the quads drawn in a frame tile the terrain

    [update] in level-of-detail mode terminates, never follows a null pointer or
    leaves a pool, keeps the links, and draws six vertices for every quad of a
    selection that covers each cell of the height field exactly once. *)

From S2P Require Import Prelude Float32 Geometry Terrain TerrainGrid TerrainCollapse TerrainBuild TerrainInit.
From stdpp Require Import base decidable list sets.
From Stdlib Require Import ZArith SpecFloat Lia.
Import Glm Vertex Terrain Grid VertForest Views Collapse Quads Linking Building Init TerrainInit.TerrainBuild.
Local Open Scope Z_scope.

(** ** Selections of quads *)
Module Tiles.

(** The quads [E] below [p] cover every leaf position below [p] exactly once. *)
Definition Tiling (d : nat) (p : coord) (E : list coord) : Prop :=
  NoDup E /\ (forall e, e ∈ E -> under p e /\ level e <= level p + Z.of_nat d) /\
  forall q, under p q -> level q = level p + Z.of_nat d -> exists e, e ∈ E /\ under e q /\ forall e', e' ∈ E -> under e' q -> e' = e.

Lemma tiling_self d p : Tiling d p [p].
Proof.
  split_and!; [apply NoDup_singleton| |].
  - intros e ->%list_elem_of_singleton. split; [apply under_refl|lia].
  - intros q Hq _. exists p. split_and!; [by left|done|]. by intros e' ->%list_elem_of_singleton.
Qed.

Lemma tiling_kids d p (f : coord -> list coord) :
  (forall r, r ∈ kids p -> Tiling d r (f r)) -> Tiling (S d) p (kids p ≫= f).
Proof.
  intros Hf.
  assert (forall r r' q, r ∈ kids p -> r' ∈ kids p -> under r q -> under r' q -> r = r') as Huniq.
  { intros r r' q Hr Hr' Hq Hq'. apply (under_same r r' q); [|done..]. by rewrite (kids_level _ _ Hr), (kids_level _ _ Hr'). }
  split_and!.
  - apply bind_NoDup; [apply kids_NoDup|intros r Hr; by apply Hf|]. intros r r' b Hr Hr' Hb Hb'.
    destruct (Hf r Hr) as (_ & H & _), (Hf r' Hr') as (_ & H' & _). apply (Huniq r r' b); [done|done|by apply H|by apply H'].
  - intros e (r & He & Hr)%list_elem_of_bind. destruct (Hf r Hr) as (_ & H & _). destruct (H e He) as [Hu Hl].
    split; [apply (under_trans _ r); [by apply kid_under|done]|]. apply kids_level in Hr. lia.
  - intros q Hu Hl. destruct (kid_above p q Hu ltac:(lia)) as (r & Hr & Hur). destruct (Hf r Hr) as (_ & _ & H).
    destruct (H q Hur) as (e & He & Heq & Hmax); [apply kids_level in Hr; lia|]. exists e. split_and!; [|done|].
    + apply list_elem_of_bind. eauto.
    + intros e' (r' & He' & Hr')%list_elem_of_bind Hu'. destruct (Hf r' Hr') as (_ & H' & _). destruct (H' e' He') as [Hue _].
      assert (r' = r) as -> by (apply (Huniq r' r q); [done|done|by apply (under_trans _ e')|done]). by apply Hmax.
Qed.
End Tiles.

(** ** What a frame does not change *)
Module Frames.
Import Tiles.

Definition erase_v (x : VertNode) : VertNode := set_interpolated vertex0 (set_v_mark 0 NS_ACTIVE x).
Definition erase_h (h : QuadHead) : QuadHead := set_q_mark 0 NS_ACTIVE h.

Record same_static (P P' : Pools) : Prop := mkStatic {
  ss_length : length (vertNodePool P') = length (vertNodePool P);
  ss_vert : forall v, erase_v <$> vertNodePool P' !! v = erase_v <$> vertNodePool P !! v;
  ss_head : forall q, erase_h <$> qhead P' q = erase_h <$> qhead P q;
  ss_children : forall i, children <$> quadNodePool P' !! i = children <$> quadNodePool P !! i
}.

#[export] Instance same_static_refl : Reflexive same_static.
Proof. intros P. by constructor. Qed.
#[export] Instance same_static_trans : Transitive same_static.
Proof. intros P Q R [] []. constructor; congruence. Qed.

Lemma static_vert P v f : (forall x, erase_v (f x) = erase_v x) -> same_static P (upd_vnode v f P).
Proof.
  intros Hf. constructor; try done; [apply length_alter|]. intros w. rewrite lookup_upd_vnode. case_decide; [subst|done].
  destruct (vertNodePool P !! w); cbn; [by rewrite Hf|done].
Qed.

Lemma static_quad P q f : (forall h, erase_h (f h) = erase_h h) -> same_static P (upd_qhead q f P).
Proof.
  intros Hf. constructor.
  - by destruct q.
  - by destruct q.
  - intros r. rewrite qhead_upd_qhead. case_decide; [subst|done]. destruct (qhead P r); cbn; [by rewrite Hf|done].
  - intros i. apply upd_qhead_children.
Qed.

Lemma ss_head_inv P P' q h : same_static P P' -> qhead P q = Ret h -> exists h', qhead P' q = Ret h' /\ erase_h h' = erase_h h.
Proof. intros [_ _ E _] Hh. specialize (E q). rewrite Hh in E. destruct (qhead P' q) as [h'|]; [|done].
  exists h'. split; [done|]. change (Ret (erase_h h') = Ret (erase_h h)) in E. congruence. Qed.

Lemma ss_vert_inv P P' v x : same_static P P' -> vertNodePool P !! v = Some x ->
  exists x', vertNodePool P' !! v = Some x' /\ erase_v x' = erase_v x.
Proof. intros [_ E _ _] Hx. specialize (E v). rewrite Hx in E. destruct (vertNodePool P' !! v) as [x'|]; [|done].
  exists x'. split; [done|]. change (Some (erase_v x') = Some (erase_v x)) in E. congruence. Qed.

Lemma erase_v_inv x x' : erase_v x' = erase_v x -> v_level x' = v_level x /\ adjcentQuadsCount x' = adjcentQuadsCount x /\
  adjcentQuads x' = adjcentQuads x /\ originalVertex x' = originalVertex x /\ lk x' = lk x.
Proof. unfold erase_v, set_interpolated, set_v_mark, lk. cbn. intros [= -> -> -> ? -> -> -> ->]. done. Qed.

Lemma erase_h_inv h h' : erase_h h' = erase_h h -> q_level h' = q_level h /\ triangulationMode h' = triangulationMode h /\
  q_parent h' = q_parent h /\ cornerVertNodes h' = cornerVertNodes h.
Proof. unfold erase_h, set_q_mark. by intros [= -> -> -> ->]. Qed.

Lemma ss_lkv P P' v : same_static P P' -> lkv P' v = lkv P v.
Proof.
  intros H. unfold lkv. destruct (vertNodePool P !! v) as [x|] eqn:E.
  - destruct (ss_vert_inv P P' v x H E) as (x' & -> & Ex). apply erase_v_inv in Ex as (_ & _ & _ & _ & El). cbn. by rewrite El.
  - pose proof (ss_vert _ _ H v) as E'. rewrite E in E'. by destruct (vertNodePool P' !! v).
Qed.

Section Frames.
Context (junk : vec3) (k : Z) (Hk : 0 <= k <= 12) (NB LB : list coord).

(** The facts about the pools that every frame preserves. *)
Record SInv (P : Pools) : Prop := mkSInv {
  si_length : length (vertNodePool P) = total k;
  si_forest : Forest k (lkv P);
  si_parented : forall c, valid k c -> 0 < level c -> parented (lkv P) c;
  si_adj : AInv k NB LB P;
  si_head : forall q p, isq NB LB q p -> exists h, qhead P q = Ret h /\ cornerVertNodes h = Some <$> (vid <$> corners p) /\
              ((q_parent h = None /\ level p = 0) \/ exists i p', q_parent h = Some (QN i) /\ NB !! i = Some p' /\ p ∈ kids p');
  si_tree : forall i p, NB !! i = Some p -> exists n cs, quadNodePool P !! i = Some n /\ children n = Some <$> cs /\
              Forall2 (isq NB LB) cs (kids p);
  si_inner : forall p, p ∈ NB -> valid_quad k p /\ level p < k;
  si_outer : forall p, p ∈ LB -> valid_quad k p /\ level p = k;
  si_inj : forall q q' p, isq NB LB q p -> isq NB LB q' p -> q = q'
}.

Lemma SInv_static P P' : same_static P P' -> SInv P -> SInv P'.
Proof.
  intros HS [S1 S2 S3 S4 S5 S6 S7 S8 S9]. pose proof (fun v => ss_lkv P P' v HS) as El. constructor; [| | | | | |done|done|done].
  - by rewrite (ss_length _ _ HS).
  - by apply (Forest_ext k (lkv P)).
  - intros c Hc Hl. destruct (S3 c Hc Hl) as (x & Hx & Hp). exists x. by rewrite El.
  - intros c Hc. destruct (S4 c Hc) as (x & qs & Lx & (A1 & A2 & A3)). destruct (ss_vert_inv P P' _ x HS Lx) as (x' & Lx' & Ex).
    apply erase_v_inv in Ex as (_ & E1 & E2 & _). exists x', qs. split; [done|]. split; [congruence|split; [congruence|exact A3]].
  - intros q p Hq. destruct (S5 q p Hq) as (h & Hh & Hc & Hp). destruct (ss_head_inv P P' q h HS Hh) as (h' & Hh' & Eh).
    apply erase_h_inv in Eh as (_ & _ & E1 & E2). exists h'. rewrite E1, E2. done.
  - intros i p Hi. destruct (S6 i p Hi) as (n & cs & Hn & Hch & Hcs). pose proof (ss_children _ _ HS i) as E. rewrite Hn in E.
    destruct (quadNodePool P' !! i) as [n'|] eqn:En'; [|done]. cbn in E. simplify_eq. exists n', cs. split_and!; [done|congruence|done].
Qed.

(** ** Marks *)

Definition active_at (F : Z) (P : Pools) (q : qptr) : Prop :=
  exists h, qhead P q = Ret h /\ q_activeFrame h = F /\ q_state h = NS_ACTIVE.
Definition is_leaf (q : qptr) : bool := match q with QL _ => true | QN _ => false end.

(** Marks are not from the future; in this frame a marked leaf is a boundary,
    and the parent of a marked quad is active, except for the quads whose
    parent is [ex]. *)
Definition MarksEx (F : Z) (ex : option qptr) (P : Pools) : Prop := forall q p h, isq NB LB q p -> qhead P q = Ret h ->
  q_activeFrame h <= F /\
  (q_activeFrame h = F -> (is_leaf q = true -> q_state h = NS_BOUNDARY) /\
     forall q', q_parent h = Some q' -> active_at F P q' \/ Some q' = ex).
Definition Marks (F : Z) (P : Pools) : Prop := MarksEx F None P.

Lemma wrap26 F : 0 <= F < 2 ^ 24 -> wrapU 26 F = F.
Proof. intros. apply wrapU_small. cbn in *. lia. Qed.
Lemma wrap24 F : 0 <= F < 2 ^ 24 -> wrapU 24 F = F.
Proof. intros. apply wrapU_small. cbn in *. lia. Qed.

Lemma qhead_verts P P' q : quadNodePool P' = quadNodePool P -> quadLeafPool P' = quadLeafPool P -> qhead P' q = qhead P q.
Proof. intros E1 E2. unfold qhead. destruct q; by rewrite ?E1, ?E2. Qed.

(** Marking a quad active keeps the active quads active. *)
Lemma active_mark F P q r : 0 <= F < 2 ^ 24 -> active_at F P r -> active_at F (upd_qhead q (set_q_mark F NS_ACTIVE) P) r.
Proof.
  intros HF (h & Hh & Hf & Hs). unfold active_at. rewrite qhead_upd_qhead. case_decide; [|eauto].
  subst. rewrite Hh. eexists. split; [done|]. cbn. by rewrite wrap26.
Qed.

Lemma mark_active_ok n F pq P : 0 <= F < 2 ^ 24 -> SInv P -> MarksEx F pq P ->
  (pq = None \/ exists i p, pq = Some (QN i) /\ NB !! i = Some p /\ (Z.to_nat (level p) < n)%nat) ->
  exists P', mark_active n F pq P = Ret P' /\ same_static P P' /\ Marks F P' /\ vertNodePool P' = vertNodePool P.
Proof.
  intros HF. revert pq P. induction n as [|n IH]; intros pq P HS HM Hpq.
  - destruct Hpq as [->|(i & p & _ & _ & ?)]; [|lia]. exists P. done.
  - destruct Hpq as [->|(i & p & -> & Hi & Hn)]; [by exists P|].
    destruct (si_head _ HS (QN i) p Hi) as (h & Hh & Hc & Hpar). cbn [mark_active]. rewrite Hh, bind_Ret.
    destruct ((q_activeFrame h =? F) && bool_decide (q_state h = NS_ACTIVE)) eqn:Eact.
    + apply andb_true_iff in Eact as [E1%Z.eqb_eq E2%bool_decide_eq_true]. exists P. split_and!; [done|done| |done].
      intros q r g Hq Hg. destruct (HM q r g Hq Hg) as (Hle & Hmk). split; [done|]. intros Hf. destruct (Hmk Hf) as (Hlf & Hcl).
      split; [done|]. intros q' Hq'. left. destruct (Hcl q' Hq') as [Ha|[= ->]]; [done|]. exists h. done.
    + set (P1 := upd_qhead (QN i) (set_q_mark F NS_ACTIVE) P).
      assert (same_static P P1) as HS1 by (by apply static_quad).
      destruct (IH (q_parent h) P1) as (P' & E & HS' & HM' & Hv'); [by apply (SInv_static P)| | |].
      * intros q r g Hq Hg. unfold P1 in Hg. rewrite qhead_upd_qhead in Hg. case_decide as Eq.
        -- subst q. rewrite Hh in Hg. cbn [fmap outcome_fmap] in Hg. injection Hg as <-. cbn [q_activeFrame set_q_mark q_parent]. rewrite wrap26 by done.
           split; [lia|]. intros _. split; [done|]. intros q' Hq'. right. done.
        -- destruct (HM q r g Hq Hg) as (Hle & Hmk). split; [done|]. intros Hf. destruct (Hmk Hf) as (Hlf & Hcl).
           split; [done|]. intros q' Hq'. left. destruct (Hcl q' Hq') as [Ha|[= ->]].
           ++ by apply active_mark.
           ++ unfold active_at, P1. rewrite qhead_upd_qhead, decide_True, Hh by done. eexists. split; [done|]. cbn. by rewrite wrap26.
      * destruct Hpar as [[-> _]|(j & p' & -> & Hj & Hkid)]; [by left|right]. exists j, p'. split_and!; [done..|].
        apply kids_level in Hkid. destruct (si_inner _ HS p' (list_elem_of_lookup_2 _ _ _ Hj)) as [(Hl & _) _]. lia.
      * exists P'. split_and!; [done|by etrans|done|done].
Qed.

(** A quad marked as boundary, and with it its ancestors as active. *)
Lemma set_boundary_ok F q p P : 0 <= F < 2 ^ 24 -> SInv P -> Marks F P -> isq NB LB q p ->
  exists P', quadNodeSetBoundary F q P = Ret P' /\ same_static P P' /\ Marks F P' /\ vertNodePool P' = vertNodePool P.
Proof.
  intros HF HS HM Hq. destruct (si_head _ HS q p Hq) as (h & Hh & Hc & Hpar). unfold quadNodeSetBoundary. rewrite Hh, bind_Ret.
  destruct ((q_activeFrame h =? F) && bool_decide (q_state h = NS_ACTIVE)) eqn:Eact; [by exists P|].
  set (P1 := upd_qhead q (set_q_mark F NS_BOUNDARY) P). assert (same_static P P1) as HS1 by (by apply static_quad).
  destruct (mark_active_ok depth F (q_parent h) P1 HF) as (P' & E & HS' & HM' & Hv'); [by apply (SInv_static P)| | |].
  - intros r s g Hr Hg. unfold P1 in Hg. rewrite qhead_upd_qhead in Hg. case_decide as Eq.
    + subst r. rewrite Hh in Hg. cbn [fmap outcome_fmap] in Hg. injection Hg as <-. cbn [q_activeFrame set_q_mark q_parent]. rewrite wrap26 by done.
      split; [lia|]. intros _. split; [done|]. intros q' Hq'. right. done.
    + destruct (HM r s g Hr Hg) as (Hle & Hmk). split; [done|]. intros Hf. destruct (Hmk Hf) as (Hlf & Hcl).
      split; [done|]. intros q' Hq'. left. destruct (Hcl q' Hq') as [(g' & Hg' & Hf' & Hs')|]; [|done].
      unfold active_at, P1. rewrite qhead_upd_qhead. destruct (decide (q = q')) as [Eqq|]; [|by exists g']. subst q'. rewrite Hh in Hg'. injection Hg' as <-.
      rewrite Hf', Hs', Z.eqb_refl, bool_decide_true in Eact by done. done.
  - destruct Hpar as [[-> _]|(j & p' & -> & Hj & Hkid)]; [by left|right]. exists j, p'. split_and!; [done..|].
    destruct (si_inner _ HS p' (list_elem_of_lookup_2 _ _ _ Hj)) as [(Hl & _) _]. unfold depth, MAX_QUAD_LEVEL_COUNT. lia.
  - exists P'. split_and!; [done|by etrans|done|rewrite Hv'; by destruct q].
Qed.

(** ** The pass over the vertex nodes *)

Definition VMarks (F : Z) (P : Pools) : Prop := forall c x, valid k c -> vertNodePool P !! vid c = Some x -> v_activeFrame x <= F.
Definition marked (F : Z) (P : Pools) (c : coord) : Prop := exists x, vertNodePool P !! vid c = Some x /\ v_activeFrame x = F.

Record FInv (F : Z) (P : Pools) : Prop := mkFInv { fi_static : SInv P; fi_marks : Marks F P; fi_verts : VMarks F P }.

(** What each step of the pass guarantees. *)
Record extends (F : Z) (P P' : Pools) : Prop := mkExtends {
  ex_static : same_static P P';
  ex_inv : FInv F P';
  ex_marked : forall c, marked F P c -> marked F P' c
}.

Lemma extends_refl F P : FInv F P -> extends F P P.
Proof. by constructor. Qed.
Lemma extends_trans F P Q R : extends F P Q -> extends F Q R -> extends F P R.
Proof. intros [A1 _ A3] [B1 B2 B3]. constructor; [by etrans|done|auto]. Qed.

Lemma extends_quads F P P' : FInv F P -> same_static P P' -> Marks F P' -> vertNodePool P' = vertNodePool P -> extends F P P'.
Proof.
  intros [S M V] HS HM Hv. constructor; [done|constructor; [by apply (SInv_static P)|done|]|].
  - intros c x. rewrite Hv. apply V.
  - intros c. unfold marked. by rewrite Hv.
Qed.

Lemma extends_vert F P v f : FInv F P -> (forall x, erase_v (f x) = erase_v x) ->
  (forall x, v_activeFrame x <= F -> v_activeFrame (f x) <= F /\ (v_activeFrame x = F -> v_activeFrame (f x) = F)) ->
  extends F P (upd_vnode v f P).
Proof.
  intros [S M V] Hs Hf. pose proof (static_vert P v f Hs) as HS. constructor; [done|constructor; [by apply (SInv_static P)| |]|].
  - intros q p h Hq Hh. change (qhead P q = Ret h) in Hh. exact (M q p h Hq Hh).
  - intros c x Hc. rewrite lookup_upd_vnode. destruct (decide (v = vid c)) as [->|]; [|by apply V].
    intros (y & Ly & ->)%fmap_Some. apply Hf. by apply (V c).
  - intros c (x & Lx & Ex). unfold marked. rewrite lookup_upd_vnode. destruct (decide (v = vid c)) as [->|]; [|eauto].
    rewrite Lx. eexists. split; [done|]. apply Hf; [lia|done].
Qed.

Lemma set_boundaries_ok F c x qs P : 0 <= F < 2 ^ 24 -> FInv F P -> adjacent NB LB c x qs ->
  exists P', set_boundaries F x P = Ret P' /\ extends F P P'.
Proof.
  intros HF HI (Hadj & Hn & _ & _ & Hqs). unfold set_boundaries. rewrite Hadj, Hn, Nat2Z.id.
  rewrite take_registered. clear Hadj Hn. revert P HI.
  induction qs as [|q qs IH]; intros P HI; cbn [foldM fmap list_fmap]; [exists P; split; [done|by apply extends_refl]|].
  destruct (Hqs q) as (p & Hq & _); [by left|]. cbn [deref]. rewrite bind_Ret.
  destruct (set_boundary_ok F q p P HF (fi_static _ _ HI) (fi_marks _ _ HI) Hq) as (P1 & -> & HS & HM & Hv). rewrite bind_Ret.
  pose proof (extends_quads F P P1 HI HS HM Hv) as HE.
  destruct IH with (P := P1) as (P' & E & HE'); [intros r Hr; apply Hqs; by right|by apply HE|].
  exists P'. split; [done|by apply (extends_trans F P P1)].
Qed.

(** The nodes below a node, one level down and no more than the pool holds. *)
Lemma kids_chain P c x : SInv P -> valid k c -> vertNodePool P !! vid c = Some x ->
  exists cs, chain (lkv P) (firstChild x) cs /\ (length cs <= length (vertNodePool P))%nat /\
    forall v, v ∈ cs -> exists g, valid k g /\ v = vid g /\ level g = level c + 1.
Proof.
  intros HS Hc Lx. assert (lkv P (vid c) = Some (lk x)) as Ll by (unfold lkv; by rewrite Lx).
  destruct (fo_kids k _ (si_forest _ HS) c _ Hc Ll) as (cs & Hch & Hnd & Hcs). exists cs. split_and!; [done| |].
  - rewrite (si_length _ HS), <- (length_seq (total k) 0). apply submseteq_length, NoDup_submseteq; [done|].
    intros v (g & y & Hg & -> & _)%Hcs. apply elem_of_seq. pose proof (vid_lt k g Hg). lia.
  - intros v (g & y & Hg & -> & Ly & Hp)%Hcs. exists g. split_and!; [done|done|].
    destruct (fo_par k _ (si_forest _ HS) g y _ Hg Ly Hp) as (d & Hd & (Hl & _) & E). apply (vid_inj k) in E as <-; done.
Qed.

Lemma siblings_ok F rec m h cs P : FInv F P -> chain (lkv P) h cs -> (length cs <= m)%nat ->
  (forall v Q, v ∈ cs -> FInv F Q -> exists Q', rec v Q = Ret Q' /\ extends F Q Q') ->
  exists P', siblings_loop rec m h P = Ret P' /\ extends F P P'.
Proof.
  intros HI Hch Hm Hrec. revert h m P HI Hch Hm. induction cs as [|v cs IH]; intros h m P HI Hch Hm.
  - inversion Hch; subst. exists P. split; [by destruct m|by apply extends_refl].
  - inversion Hch as [|? l ? Hv Hrest]; subst. destruct m as [|m]; [cbn in Hm; lia|]. cbn [siblings_loop].
    destruct (Hrec v P) as (P1 & -> & HE1); [by left|done|]. rewrite bind_Ret.
    pose proof (fun w => ss_lkv P P1 w (ex_static _ _ _ HE1)) as El.
    assert (lkv P1 v = Some l) as Hv1 by (by rewrite El). apply lkv_Some in Hv1 as (x & _ & -> & Ex). rewrite bind_Ret.
    destruct (IH ltac:(intros; apply Hrec; [by right|done]) (ns l) m P1) as (P' & E & HE').
    + apply HE1.
    + apply (chain_ext (lkv P)); [done|]. intros w y _ Hy. exists y. by rewrite El.
    + cbn in Hm. lia.
    + exists P'. split; [by rewrite <- E, <- Ex|by apply (extends_trans F P P1)].
Qed.

Section Pass.
Context (C : Config) (HC : length (vertNodesActiveDistance C) = MAX_QUAD_LEVEL_COUNT).
Context (F : Z) (HF : 0 <= F < 2 ^ 24).

Lemma distance_at l : 0 <= l <= 12 -> exists d, at_Z (vertNodesActiveDistance C) l = Ret d.
Proof.
  intros Hl. unfold at_Z, vec_at. rewrite (proj2 (Z.leb_le _ _)) by lia.
  destruct (lookup_lt_is_Some_2 (vertNodesActiveDistance C) (Z.to_nat l)) as [d ->]; [rewrite HC; unfold MAX_QUAD_LEVEL_COUNT; lia|eauto].
Qed.

Lemma interpolate_ok dist p x l : 1 <= l <= 12 -> exists i, interpolate junk C dist p x l = Ret i.
Proof.
  intros Hl. unfold interpolate. destruct (distance_at (l - 1)) as (r & ->); [lia|]. rewrite bind_Ret.
  destruct (distance_at l) as (h & ->); [lia|]. rewrite bind_Ret. eauto.
Qed.

(** The end of three of the branches: interpolate, then mark the quads around. *)
Lemma finish_ok c x qs i P : FInv F P -> marked F P c -> adjacent NB LB c x qs ->
  exists P', set_boundaries F x (upd_vnode (vid c) (set_interpolated i) P) = Ret P' /\ extends F P P' /\ marked F P' c.
Proof.
  intros HI Hmk Hadj. assert (extends F P (upd_vnode (vid c) (set_interpolated i) P)) as HE by (by apply extends_vert).
  destruct (set_boundaries_ok F c x qs _ HF (ex_inv _ _ _ HE) Hadj) as (P' & E & HE'). exists P'.
  split_and!; [done|exact (extends_trans _ _ _ _ HE HE')|]. by apply HE', HE.
Qed.

Lemma update_vert_ok n c P : (Z.to_nat (k - level c) < n)%nat -> valid k c -> FInv F P ->
  exists P', recursiveUpdateVertNode junk n C F (vid c) P = Ret P' /\ extends F P P' /\ marked F P' c.
Proof.
  revert c P. induction n as [|n IH]; intros c P Hn Hc HI; [lia|]. cbn [recursiveUpdateVertNode].
  pose proof (fi_static _ _ HI) as HS. destruct (si_adj _ HS c Hc) as (x & qs & Lx & Hadj).
  rewrite (vnode_lookup P _ x Lx), bind_Ret. assert (v_level x = level c) as Hlx.
  { destruct (fo_level k _ (si_forest _ HS) c Hc) as (l & Hl & El). unfold lkv in Hl. rewrite Lx in Hl. change (Some (lk x) = Some l) in Hl. injection Hl as <-. exact El. }
  destruct (Z.eqb_spec (v_activeFrame x) F) as [Ef|Ef].
  { exists P. split_and!; [done|by apply extends_refl|by exists x]. }
  set (P1 := upd_vnode (vid c) (set_v_mark F NS_BOUNDARY) P).
  assert (extends F P P1) as HE1 by (apply extends_vert; [done|done|intros y _; cbn; rewrite wrap24 by done; lia]).
  assert (marked F P1 c) as Hm1.
  { unfold marked, P1. rewrite lookup_upd_vnode, decide_True, Lx by done. eexists. split; [done|]. cbn. by rewrite wrap24. }
  assert (level c <= 12 /\ 0 <= level c) as [Hl12 Hl0] by (destruct Hc; lia).
  destruct (distance_at (v_level x)) as (near & ->); [lia|]. rewrite bind_Ret.
  destruct (F32.ltb _ near).
  - destruct (kids_chain P c x HS Hc Lx) as (cs & Hch & Hlen & Hcs). destruct (firstChild x) as [c1|].
    + set (P2 := upd_vnode (vid c) (set_v_state NS_ACTIVE) P1).
      assert (extends F P1 P2) as HE2 by (by apply extends_vert; [apply HE1| |]).
      pose proof (extends_trans F P P1 P2 HE1 HE2) as HE.
      destruct (siblings_ok F (recursiveUpdateVertNode junk n C F) (length (vertNodePool P2)) (Some c1) cs P2) as (P' & E & HE');
        [apply HE| | | |].
      * apply (chain_ext (lkv P)); [done|]. intros w y _ Hy. exists y. by rewrite (ss_lkv P P2 w (ex_static _ _ _ HE)).
      * by rewrite (ss_length _ _ (ex_static _ _ _ HE)).
      * intros v Q Hv HQ. destruct (Hcs v Hv) as (g & Hg & -> & Hlg). destruct (IH g Q) as (Q' & EQ & HEQ & _); [|done|done|eauto].
        destruct Hg as (Hlg' & _). lia.
      * exists P'. split_and!; [done|by apply (extends_trans F P P2)|]. by apply HE', HE2.
    + destruct (finish_ok c x qs (originalVertex x) P1 (ex_inv _ _ _ HE1) Hm1 Hadj) as (P' & E & HE' & Hm').
      exists P'. split_and!; [done|by apply (extends_trans F P P1)|done].
  - destruct (v_parent x) as [pp|] eqn:Ep.
    + assert (lkv P (vid c) = Some (lk x)) as Ll by (unfold lkv; by rewrite Lx).
      destruct (fo_par k _ (si_forest _ HS) c _ pp Hc Ll Ep) as (d & Hd & (Hld & _) & ->).
      pose proof (fi_static _ _ (ex_inv _ _ _ HE1)) as HS1. destruct (si_adj _ HS1 d Hd) as (y & _ & Ly & _).
      rewrite (vnode_lookup P1 _ y Ly), bind_Ret. destruct (interpolate_ok (length3 (sub3 eye (pos (originalVertex x)))) (originalVertex y) (originalVertex x) (v_level x))
        as (i & ->); [destruct Hd; lia|]. rewrite bind_Ret.
      destruct (finish_ok c x qs i P1 (ex_inv _ _ _ HE1) Hm1 Hadj) as (P' & E & HE' & Hm').
      exists P'. split_and!; [exact E|by apply (extends_trans F P P1)|done].
    + destruct (finish_ok c x qs (originalVertex x) P1 (ex_inv _ _ _ HE1) Hm1 Hadj) as (P' & E & HE' & Hm').
      exists P'. split_and!; [done|by apply (extends_trans F P P1)|done].
Qed.
End Pass.

(** ** Emission *)

Lemma choose_function {A B} `{EqDecision A} (R : A -> list B -> Prop) (l : list A) (bs : list (list B)) :
  NoDup l -> Forall2 R l bs -> exists f, (forall a, a ∈ l -> R a (f a)) /\ l ≫= f = concat bs.
Proof.
  intros Hnd HF. induction HF as [|a b l bs Hab HF IH]; [exists (fun _ => []); split; [by intros ? ?%elem_of_nil|done]|].
  apply NoDup_cons in Hnd as [Ha Hnd]. destruct (IH Hnd) as (f & Hf & E).
  assert (forall l', a ∉ l' -> l' ≫= (fun x => if decide (x = a) then b else f x) = l' ≫= f) as Hout.
  { clear. induction l' as [|x l' IH]; intros Hn; [done|]. cbn. rewrite decide_False by (intros ->; apply Hn; by left).
    f_equal. apply IH. intros Hx. apply Hn. by right. }
  exists (fun x => if decide (x = a) then b else f x). split.
  - intros x [->|Hx]%elem_of_cons; [by rewrite decide_True|]. rewrite decide_False by (by intros ->). auto.
  - cbn. rewrite decide_True by done. rewrite (Hout l Ha), E. done.
Qed.

Lemma under_parent p p' q : under p q -> q ∈ kids p' -> level p <= level p' -> under p p'.
Proof.
  intros (Hl & Hc & Hr) Hq Hle. pose proof (kids_level _ _ Hq) as El. destruct (kid_under _ _ Hq) as (_ & Hc' & Hr').
  split; [done|]. replace (level q - level p) with (1 + (level p' - level p)) in Hc, Hr by lia.
  replace (level q - level p') with 1 in Hc', Hr' by lia.
  rewrite Z.pow_add_r in Hc, Hr by lia. pose proof (pow2_pos (level p' - level p) ltac:(lia)).
  rewrite <- Z.div_div in Hc, Hr by lia. by rewrite Hc' in Hc; rewrite Hr' in Hr.
Qed.

Definition boundary_at (F : Z) (P : Pools) (q : qptr) : Prop :=
  exists h, qhead P q = Ret h /\ q_activeFrame h = F /\ q_state h = NS_BOUNDARY.

Section Emission.
Context (F : Z) (P : Pools) (HI : FInv F P).
Context (Hroots : forall c, valid k c -> level c = 0 -> marked F P c).

Lemma active_ancestor_ok n c : valid k c -> (Z.to_nat (level c) <= n)%nat ->
  exists v, active_ancestor n F P (Some (vid c)) = Ret [v].
Proof.
  pose proof (fi_static _ _ HI) as HS. revert c. induction n as [|n IH]; intros c Hc Hn;
    destruct (si_adj _ HS c Hc) as (x & _ & Lx & _); cbn [active_ancestor]; rewrite (vnode_lookup P _ x Lx), bind_Ret;
    (destruct (Z.eqb_spec (v_activeFrame x) F) as [E|E]; [by eexists|]).
  - destruct (Hroots c Hc) as (y & Ly & Ey); [destruct Hc; lia|]. rewrite Lx in Ly. simplify_eq.
  - destruct (Z.eq_dec (level c) 0) as [E0|E0]; [destruct (Hroots c Hc E0) as (y & Ly & Ey); rewrite Lx in Ly; simplify_eq|].
    destruct (si_parented _ HS c Hc) as (l & Hl & (pp & Hp)); [destruct Hc; lia|].
    destruct (fo_par k _ (si_forest _ HS) c l pp Hc Hl Hp) as (d & Hd & (Hld & _) & ->).
    unfold lkv in Hl. rewrite Lx in Hl. change (Some (lk x) = Some l) in Hl. injection Hl as <-. change (v_parent x = Some (vid d)) in Hp.
    rewrite Hp. apply IH; [done|lia].
Qed.

Lemma addActive_ok c : valid k c -> exists v, addActiveVertNode F P (vid c) = Ret [v].
Proof.
  intros Hc. pose proof (fi_static _ _ HI) as HS. pose proof (active_ancestor_ok depth c Hc) as Ha.
  unfold addActiveVertNode. destruct (si_adj _ HS c Hc) as (x & _ & Lx & _). rewrite (vnode_lookup P _ x Lx), bind_Ret.
  unfold depth in *. cbn [active_ancestor] in Ha. rewrite (vnode_lookup P _ x Lx), bind_Ret in Ha.
  destruct (Z.eqb_spec (v_activeFrame x) F) as [E|E]; [by eexists|].
  destruct (Z.eq_dec (level c) 0) as [E0|E0]; [destruct (Hroots c Hc E0) as (y & Ly & Ey); rewrite Lx in Ly; simplify_eq|].
  destruct (si_parented _ HS c Hc) as (l & Hl & (pp & Hp)); [destruct Hc; lia|].
  destruct (fo_par k _ (si_forest _ HS) c l pp Hc Hl Hp) as (d & Hd & (Hld & _) & ->).
  unfold lkv in Hl. rewrite Lx in Hl. change (Some (lk x) = Some l) in Hl. injection Hl as <-. change (v_parent x = Some (vid d)) in Hp.
  rewrite Hp. apply active_ancestor_ok; [done|]. destruct Hd as (Hdl & _). unfold MAX_QUAD_LEVEL_COUNT. lia.
Qed.

(** Every corner of a drawn quad contributes exactly one vertex. *)
Lemma emit_corners_ok h p js acc : cornerVertNodes h = Some <$> (vid <$> corners p) -> valid_quad k p ->
  Forall (fun j => (j < 4)%nat) js ->
  exists L, foldM (fun i acc => v ← get4 (cornerVertNodes h) i; l ← addActiveVertNode F P v; Ret (acc ++ l)) js acc = Ret (acc ++ L)
            /\ length L = length js.
Proof.
  intros Hh Hp Hjs. revert acc. induction Hjs as [|j js Hj _ IH]; intros acc; cbn [foldM].
  - exists []. by rewrite app_nil_r.
  - assert (length (corners p) = 4)%nat as Hlen by (by destruct p as [[l x] y]).
    destruct (lookup_lt_is_Some_2 (corners p) j) as [c Hcj]; [lia|].
    assert (get4 (cornerVertNodes h) j = Ret (vid c)) as ->.
    { unfold get4, vec_at. by rewrite Hh, !list_lookup_fmap, Hcj. }
    rewrite bind_Ret. destruct (corners_valid k p c Hp (list_elem_of_lookup_2 _ _ _ Hcj)) as [Hc _].
    destruct (addActive_ok c Hc) as (v & ->). rewrite !bind_Ret. destruct (IH (acc ++ [v])) as (L & -> & HL).
    exists (v :: L). rewrite <- app_assoc. cbn. by rewrite HL.
Qed.

Lemma emit_quad_ok h p acc : cornerVertNodes h = Some <$> (vid <$> corners p) -> valid_quad k p ->
  exists L, emit_quad F P h acc = Ret (acc ++ L) /\ length L = 6%nat.
Proof.
  intros Hh Hp. unfold emit_quad.
  destruct (triangulationMode h); apply (emit_corners_ok h p); try done; repeat constructor; lia.
Qed.

(** A quad above a marked one is active. *)
Lemma above_active n q p q' p' h : Z.to_nat (level p' - level p) = S n -> isq NB LB q p -> isq NB LB q' p' ->
  under p p' -> qhead P q' = Ret h -> q_activeFrame h = F -> active_at F P q.
Proof.
  pose proof (fi_static _ _ HI) as HS. revert q' p' h. induction n as [|n IH]; intros q' p' h Hn Hq Hq' Hu Hh Hf;
    destruct (fi_marks _ _ HI q' p' h Hq' Hh) as (_ & Hmk); destruct (Hmk Hf) as (_ & Hcl);
    (assert (0 <= level p) as Hlp by (destruct q; apply list_elem_of_lookup_2 in Hq;
       [destruct (si_inner _ HS p Hq) as [(? & _) _]|destruct (si_outer _ HS p Hq) as [(? & _) _]]; lia));
    destruct (si_head _ HS q' p' Hq') as (h' & Hh' & _ & Hpar); rewrite Hh in Hh'; injection Hh' as <-;
    (destruct Hpar as [[_ ?]|(i & pp & Hpp & Hi & Hkid)]; [lia|]); pose proof (kids_level _ _ Hkid) as Hlk;
    (destruct (Hcl _ Hpp) as [Hact|]; [|done]); pose proof (under_parent p pp p' Hu Hkid ltac:(lia)) as Hup.
  - assert (p = pp) as -> by (apply (under_same p pp pp); [lia|done|apply under_refl]).
    by rewrite (si_inj _ HS q (QN i) pp Hq Hi).
  - destruct Hact as (g & Hg & Hgf & Hgs). apply (IH (QN i) pp g); try done. lia.
Qed.

(** What is drawn for a quad: six vertices for each quad of a tiling that
    contains every boundary quad below. *)
Definition drawn (d : nat) (p : coord) (E : list coord) : Prop :=
  Tiling d p E /\ forall q' p', isq NB LB q' p' -> under p p' -> boundary_at F P q' -> p' ∈ E.

Lemma select_ok d n q p acc : isq NB LB q p -> level p + Z.of_nat d = k -> (d < n)%nat ->
  exists L E, recursiveSetActiveMesh n F P (Some q) acc = Ret (acc ++ L) /\ length L = (6 * length E)%nat /\ drawn d p E.
Proof.
  pose proof (fi_static _ _ HI) as HS. revert n q p acc. induction d as [|d IH]; intros n q p acc Hq Hl Hn; (destruct n as [|n]; [lia|]);
    destruct (si_head _ HS q p Hq) as (h & Hh & Hc & _); cbn [recursiveSetActiveMesh]; rewrite Hh, bind_Ret;
    (assert (valid_quad k p) as Hp by (destruct q; apply list_elem_of_lookup_2 in Hq; [by apply (si_inner _ HS)|by apply (si_outer _ HS)])).
  - destruct ((q_activeFrame h =? F) && bool_decide (q_state h = NS_ACTIVE)) eqn:Eact.
    + apply andb_true_iff in Eact as [E1%Z.eqb_eq E2%bool_decide_eq_true].
      destruct (fi_marks _ _ HI q p h Hq Hh) as (_ & Hmk). destruct (Hmk E1) as (Hlf & _). destruct q as [i|i].
      * apply list_elem_of_lookup_2 in Hq. apply (si_inner _ HS) in Hq as [_ ?]. lia.
      * specialize (Hlf eq_refl). congruence.
    + destruct (emit_quad_ok h p acc Hc Hp) as (L & -> & HL). exists L, [p]. split; [done|]. split; [by rewrite HL|]. split; [apply tiling_self|].
      intros q' p' Hq' Hu Hb. apply list_elem_of_singleton. assert (valid_quad k p') as Hp'.
      { destruct q'; apply list_elem_of_lookup_2 in Hq'; [by apply (si_inner _ HS)|by apply (si_outer _ HS)]. }
      symmetry. apply (under_same p p' p'); [|done|apply under_refl]. destruct Hp' as (Hl' & _), Hu as (Hu & _). lia.
  - destruct ((q_activeFrame h =? F) && bool_decide (q_state h = NS_ACTIVE)) eqn:Eact.
    + apply andb_true_iff in Eact as [E1%Z.eqb_eq E2%bool_decide_eq_true]. destruct q as [i|i].
      2: { apply list_elem_of_lookup_2 in Hq. apply (si_outer _ HS) in Hq as [_ ?]. lia. }
      destruct (si_tree _ HS i p Hq) as (x & cs & Hx & Hch & Hcs). rewrite (vec_at_Some _ _ _ Hx).
      assert (forall js rs acc, Forall2 (fun j r => exists c, children x !! j = Some (Some c) /\ isq NB LB c r) js rs ->
                Forall (fun r => level r = level p + 1) rs ->
                exists L Es, foldM (fun j acc => c ← (x ← Ret x; vec_at (children x) j); recursiveSetActiveMesh n F P c acc) js acc
                             = Ret (acc ++ L) /\ length L = (6 * length (concat Es))%nat /\ Forall2 (drawn d) rs Es) as Hfold.
      { intros js rs acc' HF. revert acc'. induction HF as [|j r js rs (c & Hj & Hcr) _ IHF]; intros acc' Hlev; cbn [foldM].
        - exists [], []. rewrite app_nil_r. split_and!; [done|done|constructor].
        - inversion Hlev as [|? ? Hlr Hlev']; subst. rewrite bind_Ret, (vec_at_Some _ _ _ Hj), bind_Ret.
          destruct (IH n c r acc' Hcr ltac:(lia) ltac:(lia)) as (L1 & E & -> & HL1 & HE). rewrite bind_Ret.
          destruct (IHF (acc' ++ L1) Hlev') as (L2 & Es & -> & HL2 & HEs). exists (L1 ++ L2), (E :: Es). rewrite app_assoc.
          split_and!; [done|cbn; rewrite !length_app; lia|by constructor]. }
      destruct (Hfold [0; 1; 2; 3]%nat (kids p) acc) as (L & Es & -> & HL & HEs).
      { apply Forall2_same_length_lookup. pose proof (Forall2_length _ _ _ Hcs) as Hlen.
        assert (length (kids p) = 4%nat) as H4 by (by destruct p as [[]]). split; [by rewrite H4|]. intros a j r Hj Hr.
        destruct (Forall2_lookup_r _ _ _ _ _ Hcs Hr) as (c & Hca & Hisq). exists c. split; [|done].
        change [0; 1; 2; 3]%nat with (seq 0 4) in Hj. apply lookup_seq in Hj as [-> _]. cbn [Nat.add]. by rewrite Hch, list_lookup_fmap, Hca. }
      { apply Forall_forall. intros r. apply kids_level. }
      destruct (choose_function (drawn d) (kids p) Es (kids_NoDup p) HEs) as (f & Hf & Ef).
      exists L, (concat Es). split; [done|]. split; [done|]. split; [rewrite <- Ef; apply tiling_kids; intros r Hr; by apply Hf|].
      intros q' p' Hq' Hu Hb. rewrite <- Ef. destruct (Z.eq_dec (level p') (level p)) as [El|El].
      * assert (p' = p) as -> by (apply (under_same p' p p'); [done|apply under_refl|done]).
        rewrite (si_inj _ HS q' (QN i) p Hq' Hq) in Hb. destruct Hb as (h' & Hh' & _ & Hs'). rewrite Hh in Hh'. congruence.
      * destruct (kid_above p p' Hu) as (r & Hr & Hur); [destruct Hu; lia|]. apply list_elem_of_bind. exists r. split; [|done].
        by apply (Hf r Hr) with q'.
    + destruct (emit_quad_ok h p acc Hc Hp) as (L & -> & HL). exists L, [p]. split; [done|]. split; [by rewrite HL|]. split; [apply tiling_self|].
      intros q' p' Hq' Hu Hb. apply list_elem_of_singleton. destruct (Z.eq_dec (level p') (level p)) as [El|El].
      * by apply (under_same p' p p'); [done|apply under_refl|].
      * destruct Hb as (h' & Hh' & Hf' & _). assert (active_at F P q) as (g & Hg & Hgf & Hgs).
        { apply (above_active (pred (Z.to_nat (level p' - level p))) q p q' p' h'); try done. destruct Hu; lia. }
        rewrite Hh in Hg. injection Hg as <-. rewrite Hgf, Hgs, Z.eqb_refl, bool_decide_true in Eact by done. done.
Qed.
End Emission.
End Frames.
End Frames.

(** ** Frames of a built mesh *)
Module TerrainUpdate.
Import Tiles Frames.

Section Update.
Context (junk : vec3) (k : Z) (Hk : 0 <= k <= 12).
Let NB : list coord := inner (Z.to_nat k) root.
Let LB : list coord := leaves (Z.to_nat k) root.

(** No mark is from a later frame than [F]. *)
Record Old (F : Z) (P : Pools) : Prop := mkOld {
  old_static : SInv k NB LB P;
  old_heads : forall q p h, isq NB LB q p -> qhead P q = Ret h -> q_activeFrame h <= F;
  old_verts : VMarks k F P
}.

Lemma Old_next F P : Old F P -> FInv k NB LB (F + 1) P.
Proof.
  intros [HS Hh Hv]. constructor; [done| |].
  - intros q p h Hq Eh. specialize (Hh q p h Hq Eh). split; lia.
  - intros c x Hc Lx. specialize (Hv c x Hc Lx). lia.
Qed.

Lemma FInv_Old F P : FInv k NB LB F P -> Old F P.
Proof. intros [HS HM Hv]. constructor; [done| |done]. intros q p h Hq Hh. by apply (HM q p h). Qed.

(** The mesh between frames, [F] frames after it was built. *)
Record MeshInv (F : Z) (m : QuadCollapseMesh) : Prop := mkMeshInv {
  mi_pools : Old F (pools m);
  mi_lod : lod m = true;
  mi_frame : updateFrame m = F;
  mi_table : length (vertNodesActiveDistance (config m)) = MAX_QUAD_LEVEL_COUNT;
  mi_root : exists q, rootQuadNode m = Some q /\ isq NB LB q root;
  mi_roots : rootVertNodes m = Some <$> (vid <$> corners root);
  mi_buffers : is_Some (vertexBuffer m) /\ is_Some (indexBuffer m)
}.

(** What one frame draws: the vertices sent to the vertex buffer are six for
    every quad of a tiling of the terrain that contains the quads marked as
    boundaries in this frame. *)
Definition frame_drawn (m : QuadCollapseMesh) : Prop :=
  exists E, length (activeVertices m) = (6 * length E)%nat /\ E <> [] /\
    drawn NB LB (updateFrame m) (pools m) (Z.to_nat k) root E /\
    vertexBuffer m = Some (activeVertices m) /\ m_size m = Z.of_nat (length (activeVertices m)).

(** A built mesh satisfies the invariant of the frames. *)
Lemma SInv_built orig NN LL done_ P : BInv k orig NN LL NB LB done_ P -> (forall r, r ∈ NB -> r ∈ done_) -> SInv k NB LB P.
Proof.
  intros HB Hdone. pose proof (bi_q _ _ _ _ _ _ _ _ HB) as HQ. constructor.
  - apply (bi_vlen _ _ _ _ _ _ _ _ HB).
  - apply (bi_vok _ _ _ _ _ _ _ _ HB).
  - intros c Hc Hl. by apply (all_parented k orig NN LL done_ P ltac:(lia) HB Hdone).
  - apply (bi_adj _ _ _ _ _ _ _ _ HB).
  - intros q p Hq. destruct (qi_head _ _ _ _ _ HQ q p Hq) as (h & Hh & (_ & _ & _ & Hc)). exists h. split; [done|]. split; [done|].
    pose proof (isq_valid k NB LB done_ P q p HQ Hq) as Hp. destruct (Z.eq_dec (level p) 0) as [E0|E0].
    + left. split; [|done]. destruct (q_parent h) as [q'|] eqn:Eq; [|done].
      destruct (qi_parent _ _ _ _ _ HQ q p h Hq Hh q' Eq) as (i & p' & -> & Hi & Hkid). apply kids_level in Hkid.
      destruct (qi_inner _ _ _ _ _ HQ p' (list_elem_of_lookup_2 _ _ _ Hi)) as [(Hl' & _) _]. lia.
    + right. assert (under root p) as Hu by (by apply (root_under k)).
      assert (exists pp, pp ∈ NB /\ p ∈ kids pp) as (pp & Hpp & Hkid).
      { destruct p as [[l x] y]. unfold level in E0. cbn in E0. pose proof Hp as (Hl & Hx & Hy). unfold level, col, row in Hl, Hx, Hy. cbn [fst snd] in Hl, Hx, Hy.
        assert (2 ^ l = 2 * 2 ^ (l - 1)) as E2 by (rewrite <- Z.pow_succ_r by lia; f_equal; lia).
        pose proof (Z.div_mod x 2). pose proof (Z.mod_pos_bound x 2). pose proof (Z.div_mod y 2). pose proof (Z.mod_pos_bound y 2).
        exists (l - 1, x / 2, y / 2). split.
        - apply inner_complete; [apply (root_under k)|].
          + unfold valid_quad, level, col, row. cbn [fst snd]. lia.
          + unfold level, root. cbn [fst snd]. lia.
        - unfold kids. rewrite Z.sub_add. assert (x mod 2 = 0 \/ x mod 2 = 1) as [Ex|Ex] by lia; assert (y mod 2 = 0 \/ y mod 2 = 1) as [Ey|Ey] by lia.
          + replace (2 * (x / 2)) with x by lia. replace (2 * (y / 2)) with y by lia. by left.
          + replace (2 * (x / 2)) with x by lia. replace (2 * (y / 2) + 1) with y by lia. rewrite !elem_of_cons. tauto.
          + replace (2 * (x / 2) + 1) with x by lia. replace (2 * (y / 2)) with y by lia. rewrite !elem_of_cons. tauto.
          + replace (2 * (x / 2) + 1) with x by lia. replace (2 * (y / 2) + 1) with y by lia. rewrite !elem_of_cons. tauto. }
      apply list_elem_of_lookup in Hpp as Hi. destruct Hi as (i & Hi). exists i, pp. split; [|done].
      destruct (qi_tree _ _ _ _ _ HQ i pp Hi (Hdone pp Hpp)) as (n & cs & Hn & Hch & Hcs).
      apply list_elem_of_lookup in Hkid as (j & Hj). destruct (Forall2_lookup_r _ _ _ _ _ Hcs Hj) as (c & Hc' & Hisq & g & Hg & Hgp).
      assert (c = q) as -> by (by eapply isq_inj). rewrite Hh in Hg. injection Hg as <-. done.
  - intros i p Hi. destruct (qi_tree _ _ _ _ _ HQ i p Hi (Hdone p (list_elem_of_lookup_2 _ _ _ Hi))) as (n & cs & Hn & Hch & Hcs).
    exists n, cs. split_and!; [done|done|]. eapply Forall2_impl; [exact Hcs|]. by intros ? ? [? _].
  - apply (qi_inner _ _ _ _ _ HQ).
  - apply (qi_outer _ _ _ _ _ HQ).
  - intros. by eapply isq_inj.
Qed.

Lemma MeshInv_built vs m : WellBuilt k vs m -> updateFrame m = 0 -> MeshInv 0 (setLod true m).
Proof.
  intros [(done_ & HB & Hdone) [_ Htab] Hroot Hroots _ [Hvb Hib]] HF. pose proof (bi_q _ _ _ _ _ _ _ _ HB) as HQ.
  constructor; cbn; try done. constructor.
  - by eapply SInv_built.
  - intros q p h Hq Hh. destruct (qi_head _ _ _ _ _ HQ q p Hq) as (h' & Hh' & (Hf & _)). rewrite Hh in Hh'. injection Hh' as <-. lia.
  - intros c x Hc Lx. destruct (bi_orig _ _ _ _ _ _ _ _ HB c Hc) as (y & Ly & Hy & _). rewrite Lx in Ly. simplify_eq. lia.
Qed.

(** The pass over the four root nodes. *)
Lemma update_roots_ok C F cs P : length (vertNodesActiveDistance C) = MAX_QUAD_LEVEL_COUNT -> 0 <= F < 2 ^ 24 ->
  FInv k NB LB F P -> (forall c, c ∈ cs -> valid k c) ->
  exists P', foldM (update_root junk C F) (Some <$> (vid <$> cs)) P = Ret P' /\ extends k NB LB F P P' /\
    forall c, c ∈ cs -> marked F P' c.
Proof.
  intros HC HF. revert P. induction cs as [|c cs IH]; intros P HI Hcs; cbn [fmap list_fmap foldM].
  - exists P. split_and!; [done|by apply extends_refl|by intros ? ?%elem_of_nil].
  - assert (valid k c) as Hc by (apply Hcs; by left).
    destruct (si_adj _ _ _ _ (fi_static _ _ _ _ _ HI) c Hc) as (x & qs & Lx & _).
    set (P0 := upd_vnode (vid c) (set_interpolated (originalVertex x)) P).
    assert (update_root junk C F (Some (vid c)) P = recursiveUpdateVertNode junk depth C F (vid c) P0) as ->
      by (unfold update_root; cbn [deref]; by rewrite bind_Ret, (vnode_lookup P _ x Lx)).
    assert (extends k NB LB F P P0) as HE0 by (by apply extends_vert).
    destruct (update_vert_ok junk k Hk NB LB C HC F HF depth c P0) as (P1 & -> & HE1 & Hm1); [|done|apply HE0|].
    { destruct Hc as (Hl & _). unfold depth, MAX_QUAD_LEVEL_COUNT. lia. }
    rewrite bind_Ret. destruct (IH P1) as (P' & E & HE' & Hm'); [apply HE1|intros; apply Hcs; by right|].
    exists P'. split; [done|]. split; [by eapply extends_trans, extends_trans|].
    intros e [->|He]%elem_of_cons; [by apply HE'|auto].
Qed.

(** One frame. *)
Lemma update_ok F m : MeshInv F m -> 0 <= F -> F + 1 < 2 ^ 24 ->
  exists m', update junk m = Ret m' /\ MeshInv (F + 1) m' /\ frame_drawn m'.
Proof.
  intros [HO Hlod Hfr Htab (q & Hq & Hroot) Hroots ((vb & Hvb) & (ib & Hib))] HF0 HF1. unfold update.
  rewrite Hfr, u32_small, Hlod by (cbn in HF1; lia). pose proof (Old_next _ _ HO) as HI.
  pose proof (root_valid k ltac:(lia)) as Hrv.
  destruct (update_roots_ok (config m) (F + 1) (corners root) (pools m) Htab ltac:(lia) HI) as (P & EP & HE & Hm).
  { intros c Hc. by apply (corners_valid k root). }
  rewrite Hroots, EP, bind_Ret, Hq.
  assert (forall c, valid k c -> level c = 0 -> marked (F + 1) P c) as Hall.
  { intros [[l x] y] (_ & Hx & Hy) Hl. apply Hm. unfold level, col, row in *. cbn in *. subst l. change (2 ^ 0) with 1 in *.
    assert (x = 0 \/ x = 1) as [-> | ->] by lia; assert (y = 0 \/ y = 1) as [-> | ->] by lia; unfold root; in_list. }
  destruct (select_ok k Hk NB LB (F + 1) P (ex_inv _ _ _ _ _ _ HE) Hall (Z.to_nat k) depth q root [] Hroot) as (L & E & EL & HL & HD).
  { unfold root, level. cbn. lia. } { unfold depth, MAX_QUAD_LEVEL_COUNT. lia. }
  rewrite EL, bind_Ret. cbn [app].
  assert (E <> []) as HEne.
  { destruct HD as [(_ & _ & Hcov) _]. destruct (Hcov (k, 0, 0)) as (e & He & _); [|unfold root, level; cbn; lia|by intros ->; apply elem_of_nil in He].
    apply (root_under k). unfold valid_quad, level, col, row. cbn. pose proof (pow2_pos k). lia. }
  rewrite bool_decide_false by (intros ->; destruct E; [done|cbn in HL; lia]).
  rewrite Hvb, Hib. cbn [deref]. rewrite !bind_Ret. eexists. split; [done|]. split.
  - constructor; cbn; try done; [by apply FInv_Old, HE|by exists q].
  - exists E. cbn. split_and!; done.
Qed.

Fixpoint frames (n : nat) (m : QuadCollapseMesh) : outcome QuadCollapseMesh :=
  match n with O => Ret m | S n => m ← frames n m; update junk m end.

Lemma frames_ok n m : MeshInv 0 m -> Z.of_nat n < 2 ^ 24 - 1 -> exists m', frames n m = Ret m' /\ MeshInv (Z.of_nat n) m'.
Proof.
  intros HI. induction n as [|n IH]; intros Hn; cbn [frames]; [eauto|].
  destruct IH as (m1 & -> & HI1); [lia|]. rewrite bind_Ret.
  destruct (update_ok (Z.of_nat n) m1 HI1) as (m' & E & HI' & _); [lia|lia|]. exists m'. split; [done|].
  by rewrite Nat2Z.inj_succ, <- Z.add_1_r.
Qed.
End Update.

(** C12. Build a height field of 2^k + 1 points per edge and switch the level of
    detail on: every frame up to the 2^24-th succeeds, and what it draws is six
    vertices for each quad of a selection that covers every cell of the height
    field exactly once and contains all quads the pass marked as boundaries. *)
Theorem update_tiles junk k vs n : 0 <= k <= 12 -> (2 ^ k + 1) * (2 ^ k + 1) <= Z.of_nat (length vs) ->
  Z.of_nat n + 1 < 2 ^ 24 ->
  exists m m', build junk vs (2 ^ k + 1) (2 ^ k + 1) mesh0 = Ret (m, true) /\
    frames junk (S n) (setLod true m) = Ret m' /\ updateFrame m' = Z.of_nat n + 1 /\ frame_drawn k m'.
Proof.
  intros Hk Hvs Hn. destruct (build_ok junk k vs Hk Hvs) as (m & Eb & HW & _ & HF).
  pose proof (MeshInv_built k Hk vs m HW HF) as HI.
  destruct (frames_ok junk k Hk n _ HI) as (m1 & E1 & HI1); [lia|].
  destruct (update_ok junk k Hk (Z.of_nat n) m1 HI1) as (m' & E & HI' & HD); [lia|lia|].
  exists m, m'. split; [done|]. split; [cbn [frames]; by rewrite E1|]. split; [apply HI'|done].
Qed.

Lemma update_tiles_witness :
  exists m m', build zero3 (replicate 9 vertex0) 3 3 mesh0 = Ret (m, true) /\
    frames zero3 2 (setLod true m) = Ret m' /\ updateFrame m' = 2 /\ frame_drawn 1 m'.
Proof. apply (update_tiles zero3 1 (replicate 9 vertex0) 1); cbn; lia. Defined.
End TerrainUpdate.

(** ** Limits of the construction and of the frame counter *)
Module TerrainLimits.

Definition flat (n : nat) : list Vertex := replicate n vertex0.
Definition at_frame (F : Z) (m : QuadCollapseMesh) : QuadCollapseMesh :=
  mkQuadCollapseMesh (lod m) (indices m) (lodIndices m) (vertices m) (activeVertices m) (config m) (pools m)
    (rootQuadNode m) (rootVertNodes m) F (m_size m) (vertexBuffer m) (indexBuffer m).
Definition lod_frame (n F : Z) : outcome QuadCollapseMesh :=
  '(m, _) ← build zero3 (flat (Z.to_nat (n * n))) n n mesh0; update zero3 (at_frame F (setLod true m)).

(** What the checks of the construction let through and what the counters do
    not cover: a field of 4 x 4 points passes the checks and reads outside a
    pool; building a second time on the same mesh finds the pools of quads
    used up and writes through the null pointer; a frame of a 9 x 9 field
    selects 384 vertices, to be drawn with an index buffer of 81 entries whose
    count still says 384; and in the frame numbered 2^24 nothing is selected,
    because a vertex node keeps 24 bits of the frame number: the buffers keep
    the contents they had before. *)
Theorem terrain_limits :
  build zero3 (flat 16) 4 4 mesh0 = Exn OutOfBounds /\
  ('(m, _) ← build zero3 (flat 9) 3 3 mesh0; build zero3 (flat 9) 3 3 m) = Exn NullDeref /\
  ((fun m => (length (activeVertices m), length <$> vertexBuffer m,
              (fun b => (length (ib_data b), ib_count b)) <$> indexBuffer m)) <$> lod_frame 9 0) =
    Ret (384%nat, Some 384%nat, Some (81%nat, 384)) /\
  ((fun m => (updateFrame m, activeVertices m, vertexBuffer m)) <$> lod_frame 3 (2 ^ 24 - 1)) = Ret (2 ^ 24, [], Some []).
Proof. vm_compute. repeat split. Qed.
End TerrainLimits.
